(* ===== verification/_CoqProject ===== *)
-Q . S2P
Prelude.v
Text.v
Glob.v
Net.v
Json.v
Policy.v
Iam.v
RoleTrust.v
Quota.v
Specs.v
Flash.v
Store.v
Usage.v
Provider.v
Prepare.v
PrepareFacts.v
Services.v
FlowAccess.v
Cloud.v
Identity.v
Access.v
Admin.v
FlashStore.v
Authorize.v
Outside.v
IdentityCenter.v
Routes.v
FlashOps.v
SshGateway.v
ServiceRoutes.v
AccountRoutes.v
SessionRoutes.v
FlowRoutes.v
Worker.v
Oidc.v
StorageRoutes.v
Lifecycle.v
FlowFacts.v
CloudFacts.v
IdentityFacts.v
AccessFacts.v
AdminFacts.v
FlashFacts.v
ApiFacts.v
FlashApi.v
ServiceApi.v
AccountApi.v
SessionApi.v
FlowApi.v
StorageApi.v
System.v
Charges.v
FlashSystem.v
FlashSafety.v
SshFacts.v
FlashRevisions.v
OidcFacts.v
Handlers.v
Delivery.v
Runs.v
AdminRuns.v
CloudRuns.v
FlowRuns.v
IdentityRuns.v
ApiRuns.v
FlashRuns.v
ServiceRuns.v
AccountRuns.v
CredentialRuns.v
OidcRuns.v
StorageRuns.v
