(* ===== verification/Prelude.v ===== *)
(** * HeteroCloud: a verification library

    HeteroCloud is a multi-tenant cloud control plane written in Rust.  People
    and workloads call its HTTP API ([heterocloud-api]); the API decides with
    IAM policies ([heterocloud-iam]) whether a call is allowed, checks the
    requested specification ([heterocloud-domain]) against quotas, and writes
    the desired state of a service instance and an outbox event into PostgreSQL
    in one transaction ([heterocloud-store]).  A worker
    ([heterocloud-worker]) claims events, calls the provider of the service
    with a signed context ([heterocloud-provider]) and records the answer.

    ** Files

    Foundations:
    - [Prelude]: results, validation guards, lists, integers, tactics, hints;
    - [Text], [Json], [Net]: what the source uses of Rust strings, of
      [serde_json::Value], of [std::net] and the [ipnet] crate;
    - [Glob]: [pattern_matches] of [heterocloud-iam].

    Data and decisions ([heterocloud-domain], [heterocloud-iam]):
    - [Policy]: policy documents, validation, import of the AWS grammar;
    - [Iam]: evaluation and its restrictions by boundary, service control
      policies and session policy; [RoleTrust]: trust policies of roles;
    - [Quota], [Specs], [Flash]: limits and the specifications of services.

    The store ([heterocloud-store]); [Store] has the rows, the tables as finite
    maps in one record [Db], and the transaction monad [tx]:
    - [Usage], [Prepare] ([PrepareFacts]): accounting, admission, preparation
      of specifications, node ports;
    - [Services]: the life of a service instance and the outbox;
    - [FlowAccess] ([FlowFacts]): developer credentials and access contexts;
    - [Cloud] ([CloudFacts]): organizations, units, service control policies;
    - [Identity] ([IdentityFacts]): users, sessions, invitations, device flow;
    - [Access], [IdentityCenter] ([AccessFacts]): policies, groups, keys, roles,
      role sessions, workload tokens, permission sets, assignments;
    - [Admin] ([AdminFacts]): projects, members and their limits, registry
      credentials, the catalog of GPUs;
    - [FlashStore] ([FlashFacts]): revisions, notices, schedules, backups,
      destinations, domains and SSH keys of Flash services.

    The programs over it:
    - [Provider], [Worker]: the request to a provider and its delivery;
    - [Authorize], [Routes] ([ApiFacts]): authentication, authorization and the
      handlers that change IAM, as sequences of transactions (monad [api]);
    - [Outside]: handlers that record what they ask of services outside;
    - [FlashOps] ([FlashApi]): the handlers and background tasks of Flash
      operations; [ServiceRoutes] ([ServiceApi]): the handlers that create, change
      and delete services and their secrets; [AccountRoutes] ([AccountApi]): those
      on accounts, organizations and members; [SessionRoutes] ([SessionApi]): those
      of people and of the owner of the installation; [FlowRoutes] ([FlowApi]):
      those that issue, revoke and use Flow credentials; [Oidc] ([OidcFacts]):
      signing in with OpenID Connect, over an explicit network; [StorageRoutes]
      ([StorageApi]): credentials of object storage and the client of its provider; [SshGateway]
      ([SshFacts]): who may open an SSH channel to a service and what is started;
    - [Handlers]: what handlers and tasks do are steps of [System];
    - [Lifecycle]: the abstract transitions of services and the proof that every
      transaction implements one; [System]: API transactions and any number of
      workers interleaved, with crashes; [Delivery]: one event, branch by branch;
      [Charges]: what services are charged to; [FlashSystem], [FlashSafety],
      [FlashRevisions]: the tables of Flash in every execution of [System];
    - [Runs], [AdminRuns], [CloudRuns], [FlowRuns], [IdentityRuns], [ApiRuns],
      [FlashRuns], [ServiceRuns], [AccountRuns], [CredentialRuns], [OidcRuns],
      [StorageRuns]: concrete executions at which the theorems with hypotheses apply.

    ** How code becomes definitions

    A definition has the name of the function it translates, where names do not
    collide.  A [Result] is [result]; the [?] operator is [←] or [;;].  A
    function of the store is a [tx]: from a database to an error, which rolls
    back, or a value and the next database.  The source protects each
    transaction with row and advisory locks; here a transaction is one atomic
    step, and so is the claim of an event ([FOR UPDATE SKIP LOCKED]).  A handler
    of the API is a sequence of transactions: what it committed before an error
    stays.  An SQL statement is a function on tables that does what its text
    says, with the constraints, triggers and cascades of [migrations/] that it
    can meet; a violated constraint is an error.  [now()] is a field of the
    database that is constant within a transaction, in whole seconds; the clocks
    of API and database are identified.  Fresh identifiers ([Uuid::now_v7],
    [gen_random_uuid]) come from a counter of the database.  Integers are [Z]
    with the range of their type where it matters: the 64-bit sums of [Prepare]
    wrap around as in a release build, checked additions are checked.  Texts of
    errors are templates: what the source interpolates is not inserted.  Where an
    [ORDER BY] leaves ties open, the identifier decides.  An assignment
    [value[key] = ...] to something that is not an object panics in the source
    and is an error here.  The provider as the API sees it is a record of
    functions ([FlashGateway], [FlashServiceGateway]), and so are the secret
    manager ([SecretManagerClient]) and the registry ([RegistryGateway]): theorems
    hold for every answer they may give.  The requests that write or delete secrets
    or registry credentials, and those to object storage and the identity provider,
    are recorded in the order in which they are sent ([outside], [Wire], and the
    network of [Oidc]), so that theorems speak about them too.

    Code of other crates is a class of parameters ([Chrono], [Serde], [IpNetLib],
    [UrlLib], [WebLib], [MacLib], [JwtLib], [UuidText], [TimeText], [SqlText],
    [SqlCollation]), with laws only where a theorem needs one ([SerdeRange], [SerdeRoundTrip],
    [IpNetLaws], ...); the runs instantiate each with concrete functions.

    Loops: the matcher of [Glob] runs with fuel quadratic in the lengths, proved
    sufficient; the walk from a unit to its root ([ancestors] of [Cloud]) has
    fuel for the number of units, which on the trees of the invariant is never
    used up.  Everything else recurses on data.

    ** What the theorems show

    - Decisions: access is granted exactly when nothing denies it and every level
      allows it; the matcher decides the meaning of patterns and terminates;
      trust policies; import of AWS documents.
    - Mediation: every handler on IAM, services, accounts, Flow credentials and
      Flash operations leaves only traces, and asks nothing of the secret manager and
      the registry, unless an authenticated caller is granted
      exactly what it asks for; credentials are good when accepted; a developer
      credential is good for what its issuer may do now; contexts contain exactly
      the attached policies; decisions are audited; roles are assumed only with the
      permission of both accounts; object storage is asked only what the caller may
      ask, and what it issues is answered or revoked.
    - People: sessions are opened for the right people; with OpenID Connect, for
      those a token of the provider names for this very login, and the secrets of
      a login are sent to the provider only; the codes that are shown are accepted,
      and the owner's requests need the owner; secrets outlive what refers to them.
    - Revocation: what is revoked (assignments, memberships, tokens, credentials,
      invitations, device codes) never works again, in every later state.
    - Delivery: no desired state is ever without an event that will be claimed
      until it is reported on, under every interleaving and crash; deletion is
      final and confirmed; generations identify desired states.
    - Bounds: quotas of accounts, members and organizations, node ports, limits
      of specifications, registry credentials; limits of members take effect as
      given, and nothing runs uncharged in an account that has them.
    - GPUs: who may use which type follows the catalog, and applications hear of
      every change.
    - Flash operations: requests need all of their permissions, and background
      tasks those their principal has at that time; revisions record what was
      asked for and are verified by what was seen running; a roll-back follows a
      failed deployment and keeps the access controls and disks of today;
      requests for backups can be repeated; retention keeps the newest; a
      schedule is run by one worker; deleted backups stay deleted; the SSH gateway
      accepts exactly those with a bound key who may execute commands in the service.
    - Composition: whatever handlers and tasks do is an execution of the program,
      so that the invariants hold under every mix of them.
    - Invariants of the reachable states: the tree of units, Flow contexts,
      identity tables, role sessions, the tables of Flash.

    ** Not modelled

    Handlers that only read, HTTP clients of the other providers, the SSH
    protocol and the copying of bytes on its channels with the check repeated meanwhile,
    the command line and the web console; cryptography, HTTP transport, configuration and
    process start-up, which are I/O or calls of libraries. *)

From Stdlib Require Export Lia.
From stdpp Require Export numbers option strings base gmap list.

#[export] Set Default Goal Selector "!".

Open Scope Z_scope.

(** ** Results

    [Result<T, E>] of the source.  The monad structure is stdpp's, so that
    [x ← m; k] and [m ;; k] read like the [?] operator. *)

Inductive result (E A : Type) : Type :=
| Ok (a : A)
| Err (e : E).

Arguments Ok {E A} a.
Arguments Err {E A} e.

#[export] Instance result_ret E : MRet (result E) := λ A a, Ok a.
#[export] Instance result_bind E : MBind (result E) := λ A B f m,
  match m with Ok a => f a | Err e => Err e end.
#[export] Instance result_fmap E : FMap (result E) := λ A B f m,
  match m with Ok a => Ok (f a) | Err e => Err e end.

#[export] Instance result_eq_dec {E A} `{EqDecision E, EqDecision A} :
  EqDecision (result E A).
Proof. solve_decision. Defined.

(** [map_err] of the source. *)
Definition map_err {E F A} (f : E → F) (m : result E A) : result F A :=
  match m with Ok a => Ok a | Err e => Err (f e) end.

(** [ok_or] of the source. *)
Definition ok_or {E A} (e : E) (o : option A) : result E A :=
  match o with Some a => Ok a | None => Err e end.

Definition is_ok {E A} (m : result E A) : bool :=
  match m with Ok _ => true | Err _ => false end.

(** [if b { return Err(e) }]: the guard every validator of the source is made of. *)
Definition fail_if {E} (b : bool) (e : E) : result E () :=
  if b then Err e else Ok ().

(** A [for] loop whose body may return an error. *)
Fixpoint for_each {E A} (f : A → result E ()) (l : list A) : result E () :=
  match l with
  | [] => Ok ()
  | x :: l => f x ;; for_each f l
  end.

(** [iter().map(f).collect::<Result<Vec<_>, _>>()]. *)
Fixpoint collect {E A B} (f : A → result E B) (l : list A) : result E (list B) :=
  match l with
  | [] => Ok []
  | x :: l => y ← f x; ys ← collect f l; Ok (y :: ys)
  end.

(** A [for] loop that updates an accumulator and may return an error. *)
Fixpoint fold_result {E A S} (f : S → A → result E S) (s : S) (l : list A) : result E S :=
  match l with
  | [] => Ok s
  | x :: l => s' ← f s x; fold_result f s' l
  end.

(** ** Inversion lemmas for results *)

Lemma bind_ok {E A B} (m : result E A) (f : A → result E B) b :
  m ≫= f = Ok b ↔ ∃ a, m = Ok a ∧ f a = Ok b.
Proof. destruct m; simpl; naive_solver. Qed.

Lemma bind_err {E A B} (m : result E A) (f : A → result E B) e :
  m ≫= f = Err e ↔ m = Err e ∨ ∃ a, m = Ok a ∧ f a = Err e.
Proof. destruct m; simpl; naive_solver. Qed.

Lemma fail_if_ok {E} b (e : E) u : fail_if b e = Ok u ↔ b = false.
Proof. destruct b, u; simpl; naive_solver. Qed.

Lemma fail_if_err {E} b (e e' : E) : fail_if b e = Err e' ↔ b = true ∧ e' = e.
Proof. destruct b; simpl; naive_solver. Qed.

(** A guard followed by the rest of a validator. *)
Lemma guard_ok {E A} b (e : E) (k : () → result E A) a :
  (u ← fail_if b e; k u) = Ok a ↔ b = false ∧ k () = Ok a.
Proof. destruct b; simpl; naive_solver. Qed.

(** A validator followed by another. *)
Lemma seq_ok {E A} (m : result E ()) (k : () → result E A) a :
  (u ← m; k u) = Ok a ↔ m = Ok () ∧ k () = Ok a.
Proof. destruct m as [[]|]; simpl; naive_solver. Qed.

Lemma map_err_ok {E F A} (f : E → F) (m : result E A) a :
  map_err f m = Ok a ↔ m = Ok a.
Proof. destruct m; simpl; naive_solver. Qed.

Lemma ok_or_ok {E A} (e : E) (o : option A) a : ok_or e o = Ok a ↔ o = Some a.
Proof. destruct o; simpl; naive_solver. Qed.

Lemma for_each_ok {E A} (f : A → result E ()) l :
  for_each f l = Ok () ↔ Forall (λ x, f x = Ok ()) l.
Proof.
  induction l as [|x l IH]; simpl; [naive_solver|].
  rewrite bind_ok, Forall_cons_iff.
  split; [intros ([] & ? & ?%IH); auto | intros [? ?%IH]; eauto].
Qed.

Lemma for_each_ok' {E A} (f : A → result E ()) l u :
  for_each f l = Ok u ↔ Forall (λ x, f x = Ok ()) l.
Proof. destruct u. apply for_each_ok. Qed.

Lemma for_each_err {E A} (f : A → result E ()) l e :
  for_each f l = Err e ↔
  ∃ l1 x l2, l = l1 ++ x :: l2 ∧ Forall (λ y, f y = Ok ()) l1 ∧ f x = Err e.
Proof.
  induction l as [|x l IH]; simpl.
  - split; [discriminate | intros (l1 & ? & ? & ? & _); by destruct l1].
  - rewrite bind_err. split.
    + intros [Hx | ([] & Hx & Hl)].
      * exists [], x, l. auto.
      * apply IH in Hl as (l1 & y & l2 & -> & ? & ?).
        exists (x :: l1), y, l2. auto.
    + intros (l1 & y & l2 & Hl & Hok & Hy).
      destruct l1 as [|z l1]; simplify_eq/=; [by left|].
      apply Forall_cons_1 in Hok as [Hz Hok]. right. exists tt. split; [done|].
      apply IH. eauto 10.
Qed.

Lemma collect_ok {E A B} (f : A → result E B) l ys :
  collect f l = Ok ys ↔ Forall2 (λ x y, f x = Ok y) l ys.
Proof.
  revert ys. induction l as [|x l IH]; intros ys; simpl.
  - split; [intros [= <-]; constructor | by inversion 1].
  - rewrite bind_ok. split.
    + intros (y & Hy & (zs & Hzs & [= <-])%bind_ok).
      constructor; [done | by apply IH].
    + inversion 1 as [|? y ? zs Hy Hzs]; simplify_eq.
      exists y. split; [done|]. apply bind_ok. exists zs. by rewrite IH.
Qed.

(** ** Booleans and ranges *)

(** [(lo..=hi).contains(&x)]. *)
Definition in_range (lo hi x : Z) : bool := (lo <=? x) && (x <=? hi).

Lemma in_range_spec lo hi x : in_range lo hi x = true ↔ lo ≤ x ≤ hi.
Proof. unfold in_range. rewrite andb_true_iff, !Z.leb_le. done. Qed.

Lemma in_range_false lo hi x : in_range lo hi x = false ↔ ¬ (lo ≤ x ≤ hi).
Proof. rewrite <- in_range_spec. by destruct (in_range lo hi x). Qed.

Lemma bool_decide_true_iff P `{Decision P} : bool_decide P = true ↔ P.
Proof. rewrite bool_decide_eq_true. done. Qed.

Lemma bool_decide_false_iff P `{Decision P} : bool_decide P = false ↔ ¬ P.
Proof. rewrite bool_decide_eq_false. done. Qed.

(** [Option::is_some_and]. *)
Definition is_some_and {A} (f : A → bool) (o : option A) : bool :=
  match o with Some a => f a | None => false end.

Definition is_some {A} (o : option A) : bool :=
  match o with Some _ => true | None => false end.

Definition is_nil {A} (l : list A) : bool := match l with [] => true | _ => false end.

Lemma is_some_spec {A} (o : option A) : is_some o = true ↔ is_Some o.
Proof. destruct o; simpl; split; eauto; [done | by intros [? ?]]. Qed.

Lemma is_nil_spec {A} (l : list A) : is_nil l = true ↔ l = [].
Proof. destruct l; naive_solver. Qed.

Lemma eqb_is_nil {A B} (l : list A) (k : list B) :
  eqb (is_nil l) (is_nil k) = false → (l = [] ∧ k ≠ []) ∨ (l ≠ [] ∧ k = []).
Proof. destruct l, k; simpl; intros; try done; [left | right]; done. Qed.

(** [iter().any(f)] and [iter().all(f)]. *)
Lemma existsb_true {A} (f : A → bool) l : existsb f l = true ↔ ∃ x, x ∈ l ∧ f x = true.
Proof.
  rewrite existsb_exists. by setoid_rewrite list_elem_of_In.
Qed.

Lemma existsb_false {A} (f : A → bool) l : existsb f l = false ↔ ∀ x, x ∈ l → f x = false.
Proof.
  induction l as [|y l IH]; simpl.
  - split; [intros _ x Hx; by apply not_elem_of_nil in Hx | done].
  - rewrite orb_false_iff, IH. setoid_rewrite elem_of_cons. naive_solver.
Qed.

Lemma forallb_true {A} (f : A → bool) l : forallb f l = true ↔ ∀ x, x ∈ l → f x = true.
Proof.
  rewrite forallb_forall. by setoid_rewrite list_elem_of_In.
Qed.

(** [let mut seen = BTreeSet::new(); iter().any(|x| bad(x) || !seen.insert(x))]. *)
Fixpoint any_bad_or_repeated {A} `{EqDecision A} (bad : A → bool) (seen l : list A) : bool :=
  match l with
  | [] => false
  | x :: l => bad x || bool_decide (x ∈ seen) || any_bad_or_repeated bad (x :: seen) l
  end.

Lemma any_bad_or_repeated_false {A} `{EqDecision A} (bad : A → bool) seen l :
  any_bad_or_repeated bad seen l = false ↔
  Forall (λ x, bad x = false) l ∧ NoDup l ∧ (∀ x, x ∈ l → x ∉ seen).
Proof.
  revert seen. induction l as [|x l IH]; intros seen; simpl.
  - split; [intros _; split_and!; auto using NoDup_nil_2; set_solver | done].
  - rewrite !orb_false_iff, IH, bool_decide_false_iff, Forall_cons, NoDup_cons. set_solver.
Qed.

(** ** Machine integers

    Unsigned and signed integers are [Z]; the width shows in the operations. *)

Definition u16_max : Z := 2 ^ 16 - 1.
Definition u32_max : Z := 2 ^ 32 - 1.
Definition u64_max : Z := 2 ^ 64 - 1.
Definition i64_max : Z := 2 ^ 63 - 1.
Definition i64_min : Z := - 2 ^ 63.

Definition is_u16 (x : Z) : Prop := 0 ≤ x ≤ u16_max.
Definition is_u32 (x : Z) : Prop := 0 ≤ x ≤ u32_max.
Definition is_u64 (x : Z) : Prop := 0 ≤ x ≤ u64_max.
Definition is_i64 (x : Z) : Prop := i64_min ≤ x ≤ i64_max.

#[export] Instance is_u16_dec x : Decision (is_u16 x) := _.
#[export] Instance is_u32_dec x : Decision (is_u32 x) := _.
#[export] Instance is_u64_dec x : Decision (is_u64 x) := _.
#[export] Instance is_i64_dec x : Decision (is_i64 x) := _.

(** [u64::saturating_add], [u64::saturating_mul], [i64::saturating_add],
    [i64::checked_add]. *)
Definition u64_saturating_add (a b : Z) : Z := Z.min (a + b) u64_max.
Definition u64_saturating_mul (a b : Z) : Z := Z.min (a * b) u64_max.
Definition i64_saturating_add (a b : Z) : Z := Z.max i64_min (Z.min (a + b) i64_max).
Definition i64_checked_add (a b : Z) : option Z :=
  if in_range i64_min i64_max (a + b) then Some (a + b) else None.

(** ** Finite sets *)

Lemma size_list_to_set_le {A} `{Countable A} (l : list A) : (size (list_to_set l : gset A) ≤ length l)%nat.
Proof.
  induction l as [|x l IH]; [by rewrite list_to_set_nil, size_empty|]. rewrite list_to_set_cons. simpl.
  destruct (decide (x ∈ (list_to_set l : gset A))).
  - replace ({[x]} ∪ list_to_set l) with (list_to_set l : gset A) by set_solver. lia.
  - rewrite size_union, size_singleton by set_solver. lia.
Qed.

(** ** Automation *)

Create Rewrite HintDb guards.
#[export] Hint Rewrite @bind_ok @fail_if_ok @map_err_ok @ok_or_ok @for_each_ok'
  in_range_spec in_range_false
  andb_true_iff andb_false_iff orb_true_iff orb_false_iff
  negb_true_iff negb_false_iff
  Z.ltb_lt Z.ltb_ge Z.leb_le Z.leb_gt Z.eqb_eq Z.eqb_neq Z.gtb_lt
  @existsb_true @existsb_false @forallb_true
  : guards.

(** Turn a validator that succeeds, in the goal or in a hypothesis, into the
    conjunction of its guards. *)
Ltac guards := repeat setoid_rewrite guard_ok; autorewrite with guards.
Ltac guards_in H := repeat setoid_rewrite guard_ok in H; autorewrite with guards in H.

(** Split a successful run [H : m = Ok a] into the guards it went through;
    each guard becomes a hypothesis named after [Hok]. *)
Ltac inv_ok H :=
  repeat match type of H with
         | mbind _ _ = Ok _ =>
             let x := fresh "x" in
             let H1 := fresh "Hok" in
             apply bind_ok in H; destruct H as (x & H1 & H);
             try (is_var x; match type of x with unit => destruct x end);
             autorewrite with guards in H1
         end;
  autorewrite with guards in H.
