(* ===== verification/Text.v ===== *)
(** * Rust strings

    A Rust [str] is a sequence of UTF-8 bytes, and so is a Rocq [string]: the
    model uses [string] for every [String] and [&str] of the source.  This file
    gives the operations of the standard library that the source applies to
    them: the byte view ([len], [bytes], the [is_ascii_*] tests), the character
    view ([chars], [char::is_whitespace], [char::is_control], [trim]), prefix
    and separator operations and the integer parser. *)
From S2P Require Import Prelude.

(** ** Bytes *)

Definition byte_of_ascii (c : Ascii.ascii) : Z := Z.of_N (Ascii.N_of_ascii c).
Definition ascii_of_byte (b : Z) : Ascii.ascii := Ascii.ascii_of_N (Z.to_N b).

(** [str::bytes] / [str::as_bytes]. *)
Fixpoint bytes (s : string) : list Z :=
  match s with
  | EmptyString => []
  | String c s => byte_of_ascii c :: bytes s
  end.

Fixpoint of_bytes (l : list Z) : string :=
  match l with
  | [] => EmptyString
  | b :: l => String (ascii_of_byte b) (of_bytes l)
  end.

(** [str::len]: the number of bytes. *)
Definition len (s : string) : Z := Z.of_nat (length (bytes s)).

(** [str::is_empty]. *)
Definition is_empty (s : string) : bool :=
  match s with EmptyString => true | _ => false end.

(** [u8::is_ascii_lowercase] and the other classifiers, on byte values. *)
Definition is_ascii_lowercase (b : Z) : bool := in_range 97 122 b.
Definition is_ascii_uppercase (b : Z) : bool := in_range 65 90 b.
Definition is_ascii_digit (b : Z) : bool := in_range 48 57 b.
Definition is_ascii_alphabetic (b : Z) : bool := is_ascii_lowercase b || is_ascii_uppercase b.
Definition is_ascii_alphanumeric (b : Z) : bool := is_ascii_alphabetic b || is_ascii_digit b.

Definition HYPHEN : Z := 45.
Definition DOT : Z := 46.
Definition UNDERSCORE : Z := 95.
Definition SLASH : Z := 47.
Definition COLON : Z := 58.

Definition byte_to_lower (b : Z) : Z := if is_ascii_uppercase b then b + 32 else b.
Definition byte_to_upper (b : Z) : Z := if is_ascii_lowercase b then b - 32 else b.

(** [str::to_ascii_lowercase], [str::to_ascii_uppercase],
    [str::eq_ignore_ascii_case] and [str::replace] of a byte by a byte. *)
Definition to_ascii_lowercase (s : string) : string := of_bytes (byte_to_lower <$> bytes s).
Definition to_ascii_uppercase (s : string) : string := of_bytes (byte_to_upper <$> bytes s).
Definition eq_ignore_ascii_case (s t : string) : bool :=
  bool_decide (byte_to_lower <$> bytes s = byte_to_lower <$> bytes t).
Definition replace_byte (a b : Z) (s : string) : string :=
  of_bytes ((λ c, if c =? a then b else c) <$> bytes s).

(** [as_bytes().first()] and [as_bytes().last()]. *)
Definition first_byte (s : string) : option Z := head (bytes s).
Definition last_byte (s : string) : option Z := last (bytes s).

(** [str::starts_with] and [str::ends_with] for an ASCII character. *)
Definition starts_with_byte (b : Z) (s : string) : bool :=
  bool_decide (first_byte s = Some b).
Definition ends_with_byte (b : Z) (s : string) : bool :=
  bool_decide (last_byte s = Some b).

(** [str::contains] for an ASCII character and for a substring. *)
Definition contains_byte (b : Z) (s : string) : bool := existsb (Z.eqb b) (bytes s).

Fixpoint bytes_prefix (p l : list Z) : bool :=
  match p, l with
  | [], _ => true
  | a :: p, b :: l => (a =? b) && bytes_prefix p l
  | _ :: _, [] => false
  end.

Fixpoint bytes_contain (p l : list Z) : bool :=
  bytes_prefix p l || match l with [] => false | _ :: l => bytes_contain p l end.

Definition contains_str (p s : string) : bool := bytes_contain (bytes p) (bytes s).

(** [str::strip_prefix]. *)
Fixpoint strip_prefix (p s : string) : option string :=
  match p, s with
  | EmptyString, _ => Some s
  | String a p, String b s => if Ascii.eqb a b then strip_prefix p s else None
  | String _ _, EmptyString => None
  end.

(** [str::ends_with], and [str::split] at a byte. *)
Definition ends_with (p s : string) : bool := bytes_prefix (rev (bytes p)) (rev (bytes s)).

Fixpoint split_bytes (sep : Z) (l : list Z) : list (list Z) :=
  match l with
  | [] => [[]]
  | b :: l =>
      if b =? sep then [] :: split_bytes sep l
      else match split_bytes sep l with
           | part :: parts => (b :: part) :: parts
           | [] => [[b]]
           end
  end.
Definition split_at (sep : Z) (s : string) : list string := of_bytes <$> split_bytes sep (bytes s).

(** [str::split_once] on an ASCII character. *)
Fixpoint split_once (sep : Z) (s : string) : option (string * string) :=
  match s with
  | EmptyString => None
  | String c s =>
      if byte_of_ascii c =? sep then Some (EmptyString, s)
      else match split_once sep s with
           | Some (a, b) => Some (String c a, b)
           | None => None
           end
  end.

(** ** Characters

    [str::chars]: decoding of UTF-8.  A [str] is valid UTF-8, so the sequences
    that end too early do not arise; they are dropped. *)

Fixpoint decode_utf8 (l : list Z) : list Z :=
  match l with
  | [] => []
  | a :: l1 =>
      if a <? 128 then a :: decode_utf8 l1
      else match l1 with
           | [] => []
           | b :: l2 =>
               if a <? 224 then
                 Z.lor (Z.shiftl (Z.land a 31) 6) (Z.land b 63) :: decode_utf8 l2
               else match l2 with
                    | [] => []
                    | c :: l3 =>
                        if a <? 240 then
                          Z.lor (Z.shiftl (Z.land a 15) 12)
                            (Z.lor (Z.shiftl (Z.land b 63) 6) (Z.land c 63)) :: decode_utf8 l3
                        else match l3 with
                             | [] => []
                             | d :: l4 =>
                                 Z.lor (Z.shiftl (Z.land a 7) 18)
                                   (Z.lor (Z.shiftl (Z.land b 63) 12)
                                      (Z.lor (Z.shiftl (Z.land c 63) 6) (Z.land d 63)))
                                   :: decode_utf8 l4
                             end
                    end
           end
  end.

Definition chars (s : string) : list Z := decode_utf8 (bytes s).

(** [collect::<String>] of characters: UTF-8 encoding. *)
Definition encode_char (c : Z) : list Z :=
  if c <? 128 then [c]
  else if c <? 2048 then [Z.lor 192 (Z.shiftr c 6); Z.lor 128 (Z.land c 63)]
  else if c <? 65536 then
    [Z.lor 224 (Z.shiftr c 12); Z.lor 128 (Z.land (Z.shiftr c 6) 63); Z.lor 128 (Z.land c 63)]
  else
    [Z.lor 240 (Z.shiftr c 18); Z.lor 128 (Z.land (Z.shiftr c 12) 63);
     Z.lor 128 (Z.land (Z.shiftr c 6) 63); Z.lor 128 (Z.land c 63)].
Definition of_chars (l : list Z) : string := of_bytes (concat (encode_char <$> l)).

(** [char::is_whitespace]: the Unicode property White_Space. *)
Definition is_whitespace (c : Z) : bool :=
  in_range 9 13 c || (c =? 32) || (c =? 133) || (c =? 160) || (c =? 5760)
  || in_range 8192 8202 c || (c =? 8232) || (c =? 8233) || (c =? 8239)
  || (c =? 8287) || (c =? 12288).

(** [char::is_control]: the Unicode category Cc. *)
Definition is_control (c : Z) : bool := in_range 0 31 c || in_range 127 159 c.

Fixpoint trim_start_chars (l : list Z) : list Z :=
  match l with
  | [] => []
  | c :: l' => if is_whitespace c then trim_start_chars l' else l
  end.

(** [str::trim], on the character sequence. *)
Definition trim_chars (l : list Z) : list Z :=
  reverse (trim_start_chars (reverse (trim_start_chars l))).

(** [s.trim() != s]. *)
Definition not_trimmed (s : string) : bool :=
  negb (bool_decide (trim_chars (chars s) = chars s)).

(** ** Numbers *)

Fixpoint parse_digits (acc : Z) (l : list Z) : option Z :=
  match l with
  | [] => Some acc
  | d :: l => if is_ascii_digit d then parse_digits (acc * 10 + (d - 48)) l else None
  end.

Definition in_i64 (x : Z) : option Z := if in_range i64_min i64_max x then Some x else None.

(** [str::parse::<i64>]. *)
Definition parse_i64 (s : string) : option Z :=
  match bytes s with
  | [] => None
  | c :: l =>
      if c =? 43 then
        match l with [] => None | _ => parse_digits 0 l ≫= in_i64 end
      else if c =? 45 then
        match l with [] => None | _ => parse_digits 0 l ≫= λ x, in_i64 (- x) end
      else parse_digits 0 (c :: l) ≫= in_i64
  end.

(** The decimal digits of a natural number, least significant first, and
    [to_string] of an integer. *)
Fixpoint digits_rev (fuel : nat) (n : Z) : list Z :=
  match fuel with
  | O => []
  | S fuel => (48 + n mod 10) :: (if n / 10 =? 0 then [] else digits_rev fuel (n / 10))
  end.

Definition show_nat_bytes (n : Z) : list Z :=
  reverse (digits_rev (S (Z.to_nat (Z.log2 n))) n).

Definition int_to_string (n : Z) : string :=
  of_bytes (if n <? 0 then 45 :: show_nat_bytes (- n) else show_nat_bytes n).

(** ** Facts *)

Lemma byte_of_ascii_bound c : 0 ≤ byte_of_ascii c < 256.
Proof. unfold byte_of_ascii. pose proof (Ascii.N_ascii_bounded c). lia. Qed.

Lemma ascii_of_byte_of_ascii c : ascii_of_byte (byte_of_ascii c) = c.
Proof.
  unfold ascii_of_byte, byte_of_ascii. rewrite N2Z.id. apply Ascii.ascii_N_embedding.
Qed.

Lemma byte_of_ascii_of_byte b : 0 ≤ b < 256 → byte_of_ascii (ascii_of_byte b) = b.
Proof.
  intros Hb. unfold ascii_of_byte, byte_of_ascii.
  rewrite Ascii.N_ascii_embedding by lia. lia.
Qed.

Lemma of_bytes_bytes s : of_bytes (bytes s) = s.
Proof. induction s as [|c s IH]; simpl; [done|]. by rewrite ascii_of_byte_of_ascii, IH. Qed.

Lemma bytes_of_bytes l : Forall (λ b, 0 ≤ b < 256) l → bytes (of_bytes l) = l.
Proof.
  induction 1 as [|b l Hb _ IH]; simpl; [done|]. by rewrite byte_of_ascii_of_byte, IH.
Qed.

Lemma bytes_bound s : Forall (λ b, 0 ≤ b < 256) (bytes s).
Proof.
  induction s as [|c s IH]; simpl; constructor; [apply byte_of_ascii_bound | done].
Qed.

Lemma bytes_inj s t : bytes s = bytes t → s = t.
Proof. intros H. by rewrite <- (of_bytes_bytes s), <- (of_bytes_bytes t), H. Qed.

Lemma bytes_app s t : bytes (s +:+ t) = bytes s ++ bytes t.
Proof. induction s as [|c s IH]; simpl; [done|]. by rewrite IH. Qed.

Lemma is_empty_spec s : is_empty s = true ↔ s = EmptyString.
Proof. destruct s; simpl; naive_solver. Qed.

(** On ASCII text the characters are the bytes. *)
Lemma decode_utf8_ascii l : Forall (λ b, b < 128) l → decode_utf8 l = l.
Proof.
  induction 1 as [|b l Hb _ IH]; simpl; [done|].
  rewrite (proj2 (Z.ltb_lt b 128)) by done. by rewrite IH.
Qed.

Lemma byte_to_lower_bound b : 0 ≤ b < 256 → 0 ≤ byte_to_lower b < 256.
Proof.
  intros ?. unfold byte_to_lower. destruct (is_ascii_uppercase b) eqn:E; [|lia].
  apply in_range_spec in E. lia.
Qed.

Lemma byte_to_lower_idem b : byte_to_lower (byte_to_lower b) = byte_to_lower b.
Proof.
  unfold byte_to_lower. destruct (is_ascii_uppercase b) eqn:E; [|by rewrite E].
  destruct (is_ascii_uppercase (b + 32)) eqn:E'; [|done].
  apply in_range_spec in E, E'. lia.
Qed.

Lemma bytes_to_ascii_lowercase s :
  bytes (to_ascii_lowercase s) = byte_to_lower <$> bytes s.
Proof.
  apply bytes_of_bytes, Forall_fmap. eapply Forall_impl; [apply bytes_bound|].
  intros b. apply byte_to_lower_bound.
Qed.

Lemma to_ascii_lowercase_idem s :
  to_ascii_lowercase (to_ascii_lowercase s) = to_ascii_lowercase s.
Proof.
  apply bytes_inj. rewrite !bytes_to_ascii_lowercase, <- list_fmap_compose.
  apply list_fmap_ext. intros ? b _. apply byte_to_lower_idem.
Qed.

(** Lowering commutes with comparison up to case. *)
Lemma eq_ignore_ascii_case_lower s t :
  eq_ignore_ascii_case s t = true ↔ to_ascii_lowercase s = to_ascii_lowercase t.
Proof.
  unfold eq_ignore_ascii_case. rewrite bool_decide_true_iff, <- !bytes_to_ascii_lowercase.
  split; [apply bytes_inj | by intros ->].
Qed.

(** ** Printing and parsing integers *)

Lemma parse_digits_app acc l1 l2 :
  parse_digits acc (l1 ++ l2) = parse_digits acc l1 ≫= λ x, parse_digits x l2.
Proof.
  revert acc. induction l1 as [|d l1 IH]; intros acc; simpl; [done|].
  destruct (is_ascii_digit d); [apply IH | done].
Qed.

Lemma digits_rev_bound fuel n : 0 ≤ n → Forall (λ d, 48 ≤ d ≤ 57) (digits_rev fuel n).
Proof.
  revert n. induction fuel as [|fuel IH]; intros n Hn; simpl; constructor.
  - pose proof (Z.mod_pos_bound n 10). lia.
  - destruct (n / 10 =? 0); [constructor|]. apply IH, Z.div_pos; lia.
Qed.

Lemma parse_digits_rev fuel n :
  0 ≤ n < 10 ^ Z.of_nat fuel → (0 < fuel)%nat →
  parse_digits 0 (reverse (digits_rev fuel n)) = Some n.
Proof.
  revert n. induction fuel as [|fuel IH]; intros n Hn Hf; [lia|]. cbn [digits_rev].
  rewrite reverse_cons, parse_digits_app.
  assert (parse_digits 0 (reverse (if n / 10 =? 0 then [] else digits_rev fuel (n / 10)))
          = Some (n / 10)) as ->.
  { destruct (n / 10 =? 0) eqn:E; [apply Z.eqb_eq in E; by rewrite E|].
    apply Z.eqb_neq in E. destruct fuel as [|fuel].
    - exfalso. apply E. apply Z.div_small. change (10 ^ Z.of_nat 1) with 10 in Hn. lia.
    - apply IH; [|lia]. rewrite (Nat2Z.inj_succ (S fuel)), Z.pow_succ_r in Hn by lia.
      split; [apply Z.div_pos; lia | apply Z.div_lt_upper_bound; lia]. }
  cbn. pose proof (Z.mod_pos_bound n 10).
  replace (is_ascii_digit (48 + n mod 10)) with true
    by (symmetry; apply in_range_spec; lia).
  f_equal. pose proof (Z.div_mod n 10). lia.
Qed.

Lemma log2_fuel n : 0 ≤ n → 0 ≤ n < 10 ^ Z.of_nat (S (Z.to_nat (Z.log2 n))).
Proof.
  intros Hn. split; [done|]. rewrite Nat2Z.inj_succ, Z2Nat.id by apply Z.log2_nonneg.
  destruct (decide (n = 0)) as [->|]; [done|].
  eapply Z.lt_le_trans; [apply Z.log2_spec; lia|].
  apply Z.pow_le_mono_l. lia.
Qed.

Lemma show_nat_bytes_parse n : 0 ≤ n → parse_digits 0 (show_nat_bytes n) = Some n.
Proof. intros Hn. apply parse_digits_rev; [by apply log2_fuel | lia]. Qed.

Lemma show_nat_bytes_bound n : 0 ≤ n → Forall (λ d, 48 ≤ d ≤ 57) (show_nat_bytes n).
Proof. intros Hn. apply Forall_reverse, digits_rev_bound, Hn. Qed.

Lemma show_nat_bytes_cons n : ∃ d l, show_nat_bytes n = d :: l.
Proof.
  destruct (show_nat_bytes n) as [|d l] eqn:E; [|eauto].
  unfold show_nat_bytes in E. cbn [digits_rev] in E. rewrite reverse_cons in E.
  by apply app_nil in E as [_ ?].
Qed.

(** Parsing an integer that was printed gives it back. *)
Lemma parse_i64_to_string n : is_i64 n → parse_i64 (int_to_string n) = Some n.
Proof.
  intros Hn. unfold parse_i64, int_to_string.
  assert (Hb : ∀ m, 0 ≤ m → Forall (λ b, 0 ≤ b < 256) (show_nat_bytes m)).
  { intros m Hm. eapply Forall_impl; [by apply show_nat_bytes_bound|]. simpl; lia. }
  assert (Hi : in_i64 n = Some n).
  { unfold in_i64. rewrite (proj2 (in_range_spec _ _ _)); done. }
  destruct (n <? 0) eqn:E; [apply Z.ltb_lt in E | apply Z.ltb_ge in E].
  - rewrite bytes_of_bytes by (constructor; [lia | apply Hb; lia]). simpl.
    destruct (show_nat_bytes_cons (- n)) as (d & l & El). rewrite El.
    rewrite <- El, show_nat_bytes_parse by lia. simpl. by rewrite Z.opp_involutive.
  - rewrite bytes_of_bytes by (apply Hb; lia).
    destruct (show_nat_bytes_cons n) as (d & l & El). rewrite El.
    pose proof (show_nat_bytes_bound n E) as Hd. rewrite El in Hd.
    apply Forall_cons_1 in Hd as [Hd _].
    rewrite (proj2 (Z.eqb_neq d 43)), (proj2 (Z.eqb_neq d 45)) by lia.
    rewrite <- El, show_nat_bytes_parse by lia. simpl. done.
Qed.

(** ** Prefixes and separators *)

Lemma strip_prefix_spec p s r : strip_prefix p s = Some r ↔ s = p +:+ r.
Proof.
  revert s. induction p as [|a p IH]; intros s; simpl; [split; [by intros [= ->] | by intros ->]|].
  destruct s as [|b s]; [done|]. destruct (Ascii.eqb_spec a b) as [->|Hne].
  - rewrite IH. split; [by intros -> | by intros [= ->]].
  - split; [done | by intros [= ->]].
Qed.

Lemma split_once_first c a b :
  (∀ d, d ∈ bytes a → d ≠ byte_of_ascii c) → split_once (byte_of_ascii c) (a +:+ String c b) = Some (a, b).
Proof.
  induction a as [|d a IH]; intros Ha.
  { change (split_once (byte_of_ascii c) (String c b) = Some (EmptyString, b)). cbn [split_once]. by rewrite Z.eqb_refl. }
  change (String d a +:+ String c b) with (String d (a +:+ String c b)). cbn [split_once].
  destruct (Z.eqb_spec (byte_of_ascii d) (byte_of_ascii c)) as [E|_]; [exfalso; by apply (Ha (byte_of_ascii d)); [left|]|].
  rewrite IH; [done|]. intros e He. apply Ha. by right.
Qed.

Lemma split_once_spec sep s a b :
  split_once sep s = Some (a, b) → bytes s = bytes a ++ sep :: bytes b.
Proof.
  revert a. induction s as [|c s IH]; intros a; simpl; [done|].
  destruct (Z.eqb_spec (byte_of_ascii c) sep) as [<-|].
  - by intros [= <- <-].
  - destruct (split_once sep s) as [[a' b']|]; [|done]. intros [= <- ->]. simpl.
    by rewrite (IH a').
Qed.

Lemma contains_byte_false b s : contains_byte b s = false ↔ ∀ c, c ∈ bytes s → c ≠ b.
Proof.
  unfold contains_byte. rewrite existsb_false. setoid_rewrite Z.eqb_neq. naive_solver.
Qed.
