(* ===== verification/Glob.v ===== *)
(** * Wildcard patterns of IAM policies

    [pattern_matches] of [heterocloud-iam/src/lib.rs] is the two-pointer glob
    matcher with a single backtracking point.  The loop is modelled on the
    indices the source uses, with fuel; [pattern_matches_terminates] shows that
    the fuel [pattern_matches] gives it is always enough.  The declarative
    meaning of a pattern is [glob]; the loop is sound for it on every value and
    complete on the values that contain no asterisk. *)
From S2P Require Import Prelude Text.

Definition STAR : Z := 42.
Definition QUESTION : Z := 63.

(** ** The loop *)

(** The local variables [(p, v, star, retry)]. *)
Record MatchState := {
  ms_p : nat;
  ms_v : nat;
  ms_star : option nat;
  ms_retry : nat;
}.

(** [while p < pattern.len() && pattern[p] == '*' { p += 1; }]
    followed by [p == pattern.len()]. *)
Fixpoint only_stars (l : list Z) : bool :=
  match l with
  | [] => true
  | c :: l => (c =? STAR) && only_stars l
  end.

(** One iteration of the main loop: the next state, or [false] for
    [return false]. *)
Definition match_step (pattern value : list Z) (s : MatchState) : option MatchState :=
  let '(Build_MatchState p v star retry) := s in
  match pattern !! p, value !! v with
  | Some c, Some d =>
      if (c =? QUESTION) || (c =? d) then Some (Build_MatchState (S p) (S v) star retry)
      else if c =? STAR then Some (Build_MatchState (S p) v (Some p) v)
      else match star with
           | Some index => Some (Build_MatchState (S index) (S retry) star (S retry))
           | None => None
           end
  | _, _ =>
      match star with
      | Some index => Some (Build_MatchState (S index) (S retry) star (S retry))
      | None => None
      end
  end.

(** [None] when the fuel runs out. *)
Fixpoint match_loop (fuel : nat) (pattern value : list Z) (s : MatchState) : option bool :=
  match fuel with
  | O => None
  | S fuel =>
      if decide (ms_v s < length value)%nat then
        match match_step pattern value s with
        | Some s' => match_loop fuel pattern value s'
        | None => Some false
        end
      else Some (only_stars (drop (ms_p s) pattern))
  end.

Definition match_start : MatchState := Build_MatchState 0 0 None 0.

Definition match_fuel (pattern value : list Z) : nat :=
  S (S (length value) * S (length pattern)).

Definition chars_match (pattern value : list Z) : bool :=
  default false (match_loop (match_fuel pattern value) pattern value match_start).

Definition pattern_matches (pattern value : string) : bool :=
  chars_match (chars pattern) (chars value).

Definition action_pattern_matches (pattern value : string) : bool :=
  pattern_matches (to_ascii_lowercase pattern) (to_ascii_lowercase value).

(** ** The meaning of a pattern *)

Inductive glob : list Z → list Z → Prop :=
| glob_nil : glob [] []
| glob_question c p v : glob p v → glob (QUESTION :: p) (c :: v)
| glob_literal c p v : c ≠ STAR → glob p v → glob (c :: p) (c :: v)
| glob_star_skip p v : glob p v → glob (STAR :: p) v
| glob_star_eat c p v : glob (STAR :: p) v → glob (STAR :: p) (c :: v).

Create HintDb glob.
#[export] Hint Constructors glob : glob.

(** ** Termination *)

Definition match_wf (pattern value : list Z) (s : MatchState) : Prop :=
  (ms_p s ≤ length pattern)%nat ∧ (ms_retry s ≤ ms_v s ≤ length value)%nat ∧
  match ms_star s with
  | None => True
  | Some i => (i < ms_p s)%nat ∧ pattern !! i = Some STAR
  end.

Definition match_measure (pattern value : list Z) (s : MatchState) : nat :=
  (length value - ms_retry s) * S (length pattern) + (length pattern - ms_p s).

Lemma match_step_wf pattern value s s' :
  match_wf pattern value s → (ms_v s < length value)%nat →
  match_step pattern value s = Some s' →
  match_wf pattern value s' ∧
  (match_measure pattern value s' < match_measure pattern value s)%nat.
Proof.
  destruct s as [p v star retry]. unfold match_wf, match_measure; simpl.
  intros (Hp & Hv & Hstar) Hlt.
  assert (Hback : ∀ index, star = Some index →
    ((S index ≤ length pattern)%nat ∧ (S retry ≤ S retry ≤ length value)%nat ∧
     match star with None => True
     | Some i => (i < S index)%nat ∧ pattern !! i = Some STAR end) ∧
    ((length value - S retry) * S (length pattern) + (length pattern - S index)
     < (length value - retry) * S (length pattern) + (length pattern - p))%nat).
  { intros index ->. destruct Hstar as [? Hi]. repeat split; try lia; try done.
    replace (length value - retry)%nat with (S (length value - S retry)) by lia. lia. }
  destruct (pattern !! p) as [c|] eqn:Ep; destruct (value !! v) as [d|] eqn:Ev; simpl.
  - apply lookup_lt_Some in Ep as Hp'.
    destruct ((c =? QUESTION) || (c =? d)); [|destruct (c =? STAR) eqn:Ec].
    + intros [= <-]; simpl. destruct star as [i|]; repeat split; try lia; naive_solver.
    + intros [= <-]; simpl. apply Z.eqb_eq in Ec as ->.
      repeat split; try lia; [done|].
      assert ((length value - v) * S (length pattern)
              ≤ (length value - retry) * S (length pattern))%nat by (apply Nat.mul_le_mono_r; lia).
      lia.
    + destruct star as [i|]; [|done]. intros [= <-]; simpl. by apply Hback.
  - destruct star as [i|]; [|done]. intros [= <-]; simpl. by apply Hback.
  - destruct star as [i|]; [|done]. intros [= <-]; simpl. by apply Hback.
  - destruct star as [i|]; [|done]. intros [= <-]; simpl. by apply Hback.
Qed.

Lemma match_loop_total fuel pattern value s :
  match_wf pattern value s → (match_measure pattern value s < fuel)%nat →
  is_Some (match_loop fuel pattern value s).
Proof.
  revert s. induction fuel as [|fuel IH]; intros s Hwf Hfuel; [lia|]; simpl.
  case_decide as Hv; [|eauto].
  destruct (match_step pattern value s) as [s'|] eqn:Es; [|eauto].
  destruct (match_step_wf _ _ _ _ Hwf Hv Es) as [Hwf' Hm]. apply IH; [done | lia].
Qed.

Lemma match_start_wf pattern value : match_wf pattern value match_start.
Proof. repeat split; simpl; lia. Qed.

Lemma match_start_measure pattern value :
  (match_measure pattern value match_start < match_fuel pattern value)%nat.
Proof. unfold match_measure, match_fuel; simpl. lia. Qed.

(** ** Facts about [glob] *)

Lemma glob_only_stars p : glob p [] ↔ only_stars p = true.
Proof.
  induction p as [|c p IH]; simpl; [split; auto with glob|].
  rewrite andb_true_iff, Z.eqb_eq, <- IH. split.
  - inversion 1; subst; auto.
  - intros [-> ?]. auto with glob.
Qed.

Lemma glob_star p v : glob (STAR :: p) v ↔ ∃ k, (k ≤ length v)%nat ∧ glob p (drop k v).
Proof.
  split.
  - remember (STAR :: p) as q eqn:Eq. induction 1 as [| | |q v Hg _|c q v Hg IH]; simplify_eq.
    + exists 0%nat. split; [lia | done].
    + destruct (IH eq_refl) as (k & ? & ?). exists (S k). simpl. split; [lia | done].
  - intros (k & Hk & Hg). revert v Hk Hg. induction k as [|k IH]; intros v Hk Hg.
    + rewrite drop_0 in Hg. auto with glob.
    + destruct v as [|c v]; simpl in *; [lia|]. apply glob_star_eat, IH; [lia | done].
Qed.

(** A pattern character other than the asterisk consumes one character. *)
Lemma glob_cons_nonstar c p d v :
  c ≠ STAR → glob (c :: p) (d :: v) ↔ (c = QUESTION ∨ c = d) ∧ glob p v.
Proof.
  intros Hc. split.
  - inversion 1; subst; auto; done.
  - intros [[-> | ->] Hg]; auto with glob.
Qed.

Lemma glob_cons_nil c p : c ≠ STAR → ¬ glob (c :: p) [].
Proof. intros Hc. inversion 1; done. Qed.

(** The part of a pattern before an index, when it has no asterisk, consumes
    as many characters as it has. *)
Lemma glob_segment seg p v :
  Forall (λ c, c ≠ STAR) seg → glob (seg ++ p) v →
  (length seg ≤ length v)%nat ∧ glob p (drop (length seg) v).
Proof.
  intros Hseg. revert v. induction Hseg as [|c seg Hc _ IH]; intros v Hg; simpl in *.
  - rewrite drop_0. split; [lia | done].
  - destruct v as [|d v]; [by apply glob_cons_nil in Hg|].
    apply glob_cons_nonstar in Hg as [_ Hg]; [|done].
    apply IH in Hg as [? ?]. simpl. split; [lia | done].
Qed.

(** ** Soundness and completeness of the loop *)

(** What the state has still to explore: the current attempt, or a longer
    match of the last asterisk. *)
Definition pending (pattern value : list Z) (s : MatchState) : Prop :=
  glob (drop (ms_p s) pattern) (drop (ms_v s) value) ∨
  ∃ i k, ms_star s = Some i ∧ (ms_retry s < k ≤ length value)%nat ∧
    glob (drop (S i) pattern) (drop k value).

(** Since the last asterisk, pattern and value advance together. *)
Definition segment_wf (pattern value : list Z) (s : MatchState) : Prop :=
  match ms_star s with
  | None => True
  | Some i =>
      (ms_p s - S i = ms_v s - ms_retry s)%nat ∧
      Forall (λ c, c ≠ STAR) (take (ms_p s - S i) (drop (S i) pattern))
  end.

Lemma drop_segment (pattern : list Z) i p :
  (i < p)%nat → drop (S i) pattern =
    take (p - S i) (drop (S i) pattern) ++ drop p pattern.
Proof.
  intros Hi. rewrite <- (take_drop (p - S i) (drop (S i) pattern)) at 1.
  rewrite drop_drop. by replace (S i + (p - S i))%nat with p by lia.
Qed.

(** A longer match of the last asterisk also matches what follows the
    segment, further to the right. *)
Lemma pending_alternative pattern value s i k :
  match_wf pattern value s → segment_wf pattern value s →
  ms_star s = Some i → (ms_retry s < k ≤ length value)%nat →
  glob (drop (S i) pattern) (drop k value) →
  ∃ k', (ms_v s < k' ≤ length value)%nat ∧ glob (drop (ms_p s) pattern) (drop k' value).
Proof.
  intros (Hp & Hv & Hstar) Hseg Hi Hk Hg. unfold segment_wf in Hseg.
  rewrite Hi in Hstar, Hseg. destruct Hstar as [Hlt _], Hseg as [Hadv Hns].
  rewrite (drop_segment _ _ _ Hlt) in Hg.
  apply glob_segment in Hg as [Hlen Hg]; [|done].
  rewrite length_take, !length_drop in Hlen. rewrite length_take, length_drop in Hg.
  replace ((ms_p s - S i) `min` (length pattern - S i))%nat with (ms_p s - S i)%nat in Hlen, Hg by lia.
  rewrite drop_drop in Hg. exists (k + (ms_p s - S i))%nat. split; [lia | done].
Qed.

Lemma take_S_drop (l : list Z) j n c :
  l !! (j + n)%nat = Some c → take (S n) (drop j l) = take n (drop j l) ++ [c].
Proof. intros H. apply take_S_r. by rewrite lookup_drop. Qed.

(** One step keeps the advance-together invariant. *)
Lemma match_step_segment pattern value s s' :
  match_wf pattern value s → segment_wf pattern value s →
  (∀ c, c ∈ value → c ≠ STAR) →
  match_step pattern value s = Some s' → segment_wf pattern value s'.
Proof.
  destruct s as [p v star retry]. unfold match_wf, segment_wf; simpl.
  intros (Hp & Hv & Hstar) Hseg Hval.
  assert (Hback : segment_wf pattern value
    (Build_MatchState (S (default 0%nat star)) (S retry) star (S retry))).
  { unfold segment_wf; simpl. destruct star as [i|]; [|done]; simpl.
    rewrite !Nat.sub_diag. split; [done | constructor]. }
  destruct (pattern !! p) as [c|] eqn:Ep; destruct (value !! v) as [d|] eqn:Ev; simpl;
    try (destruct star as [i|]; [intros [= <-]; exact Hback | done]).
  destruct ((c =? QUESTION) || (c =? d)) eqn:Ec; [|destruct (c =? STAR) eqn:Es].
  - intros [= <-]; simpl. destruct star as [i|]; [|done].
    destruct Hstar as [Hi _], Hseg as [Hadv Hns]. split; [lia|].
    replace (p - i)%nat with (S (p - S i)) by lia.
    rewrite (take_S_drop _ _ _ c) by (rewrite <- Ep; f_equal; lia).
    apply Forall_app. split; [done|]. apply Forall_singleton.
    apply list_elem_of_lookup_2 in Ev. specialize (Hval _ Ev).
    apply orb_true_iff in Ec as [->%Z.eqb_eq | ->%Z.eqb_eq]; done.
  - intros [= <-]; simpl. rewrite !Nat.sub_diag. split; [done | constructor].
  - destruct star as [i|]; [intros [= <-]; exact Hback | done].
Qed.

(** The current attempt fails: only the longer matches remain. *)
Lemma pending_mismatch pattern value p v star retry :
  match_wf pattern value (Build_MatchState p v star retry) →
  ¬ glob (drop p pattern) (drop v value) → (v < length value)%nat →
  pending pattern value (Build_MatchState p v star retry) ↔
  match star with
  | Some index => pending pattern value (Build_MatchState (S index) (S retry) star (S retry))
  | None => False
  end.
Proof.
  intros (Hp & Hv & Hstar) Hno Hlt. unfold pending; simpl in *.
  destruct star as [i|]; [|naive_solver]. split.
  - intros [?|(i' & k & [= <-] & Hk & Hg)]; [done|].
    destruct (decide (k = S retry)) as [->|]; [by left|].
    right. exists i, k. repeat split; [lia | lia | done].
  - intros [Hg|(i' & k & [= <-] & Hk & Hg)]; right.
    + exists i, (S retry). repeat split; [lia | lia | done].
    + exists i, k. repeat split; [lia | lia | done].
Qed.

Lemma match_step_pending pattern value s :
  match_wf pattern value s → segment_wf pattern value s → (ms_v s < length value)%nat →
  (∀ c, c ∈ value → c ≠ STAR) →
  pending pattern value s ↔
  match match_step pattern value s with
  | Some s' => pending pattern value s'
  | None => False
  end.
Proof.
  destruct s as [p v star retry]. intros Hwf Hseg Hlt Hval; simpl in Hlt.
  destruct (lookup_lt_is_Some_2 value v Hlt) as [d Ev]. simpl. rewrite Ev.
  pose proof (drop_S _ _ _ Ev) as Edv.
  destruct (pattern !! p) as [c|] eqn:Ep.
  - pose proof (drop_S _ _ _ Ep) as Edp.
    destruct ((c =? QUESTION) || (c =? d)) eqn:Ec; [|destruct (c =? STAR) eqn:Es].
    + assert (c ≠ STAR ∧ (c = QUESTION ∨ c = d)) as [Hns Hc].
      { apply list_elem_of_lookup_2 in Ev. specialize (Hval _ Ev).
        apply orb_true_iff in Ec as [->%Z.eqb_eq | ->%Z.eqb_eq]; auto. }
      unfold pending; simpl. rewrite Edp, Edv, glob_cons_nonstar by done. tauto.
    + apply Z.eqb_eq in Es as ->. unfold pending; simpl. split.
      * intros [Hg|(i & k & Hi & Hk & Hg)].
        -- rewrite Edp in Hg. apply glob_star in Hg as (k & Hk & Hg).
           rewrite drop_drop in Hg. rewrite length_drop in Hk.
           destruct k as [|k]; [left; by (rewrite Nat.add_0_r in Hg) |].
           right. exists p, (v + S k)%nat. repeat split; [lia | lia | done].
        -- destruct (pending_alternative _ _ _ i k Hwf Hseg Hi Hk Hg) as (k' & Hk' & Hg').
           simpl in *. rewrite Edp in Hg'. apply glob_star in Hg' as (j & Hj & Hg').
           rewrite drop_drop in Hg'. rewrite length_drop in Hj.
           right. exists p, (k' + j)%nat. repeat split; [lia | lia | done].
      * intros [Hg|(i & k & [= <-] & Hk & Hg)]; left; simpl; rewrite Edp; apply glob_star.
        -- exists 0%nat. split; [lia | by rewrite drop_0].
        -- exists (k - v)%nat. rewrite length_drop, drop_drop.
           replace (v + (k - v))%nat with k by lia. split; [lia | done].
    + apply orb_false_iff in Ec as [Hq%Z.eqb_neq Hd%Z.eqb_neq]. apply Z.eqb_neq in Es.
      rewrite pending_mismatch; [by destruct star | done | | done].
      rewrite Edp, Edv, glob_cons_nonstar by done. naive_solver.
  - rewrite pending_mismatch; [by destruct star | done | | done].
    apply lookup_ge_None in Ep. rewrite drop_ge, Edv by done. by inversion 1.
Qed.

(** The loop decides what is pending, on a value without asterisks. *)
Lemma match_loop_correct fuel pattern value s b :
  match_wf pattern value s → segment_wf pattern value s →
  (∀ c, c ∈ value → c ≠ STAR) →
  match_loop fuel pattern value s = Some b → b = true ↔ pending pattern value s.
Proof.
  intros Hwf Hseg Hval. revert s Hwf Hseg. induction fuel as [|fuel IH]; intros s Hwf Hseg Hb;
    simpl in Hb; [done|]. case_decide as Hv.
  - rewrite match_step_pending by done.
    destruct (match_step pattern value s) as [s'|] eqn:Es; [|naive_solver].
    apply IH; [by eapply match_step_wf | by eapply match_step_segment | done].
  - simplify_eq. rewrite <- glob_only_stars. destruct Hwf as (Hp & Hv' & Hstar).
    unfold pending. rewrite (drop_ge value (ms_v s)) by lia. split; [by left|].
    intros [?|(i & k & Hi & Hk & Hg)]; [done|].
    destruct (pending_alternative pattern value s i k) as (k' & ? & _); [done..|lia].
Qed.

Lemma glob_pending_start pattern value :
  pending pattern value match_start ↔ glob pattern value.
Proof. unfold pending; simpl. rewrite !drop_0. naive_solver. Qed.

(** On any value, a state the loop accepts comes from a real match. *)
Lemma match_loop_sound fuel pattern value s :
  match_wf pattern value s → match_loop fuel pattern value s = Some true →
  pending pattern value s.
Proof.
  intros Hwf. revert s Hwf. induction fuel as [|fuel IH]; intros s Hwf Hb; simpl in Hb; [done|].
  case_decide as Hv.
  - destruct (match_step pattern value s) as [s'|] eqn:Es; [|done].
    pose proof (match_step_wf _ _ _ _ Hwf Hv Es) as [Hwf' _].
    specialize (IH _ Hwf' Hb). destruct s as [p v star retry]. simpl in *.
    destruct (lookup_lt_is_Some_2 value v Hv) as [d Ev]. rewrite Ev in Es.
    pose proof (drop_S _ _ _ Ev) as Edv. destruct Hwf as (Hp & Hvl & Hstar); simpl in *.
    assert (Hback : ∀ i, star = Some i →
      pending pattern value (Build_MatchState (S i) (S retry) star (S retry)) →
      pending pattern value (Build_MatchState p v star retry)).
    { intros i -> [Hg|(i' & k & [= <-] & Hk & Hg)]; right; simpl in *.
      - exists i, (S retry). repeat split; [lia | lia | done].
      - exists i, k. repeat split; [lia | lia | done]. }
    destruct (pattern !! p) as [c|] eqn:Ep;
      [|destruct star as [i|]; [simplify_eq; eauto | done]].
    pose proof (drop_S _ _ _ Ep) as Edp.
    destruct ((c =? QUESTION) || (c =? d)) eqn:Ec; [|destruct (c =? STAR) eqn:Es'].
    + simplify_eq. destruct IH as [Hg|Hg]; [left | by right]. simpl in *.
      rewrite Edp, Edv. apply orb_true_iff in Ec as [->%Z.eqb_eq | ->%Z.eqb_eq];
        [auto with glob|].
      destruct (decide (d = STAR)) as [->|]; [apply glob_star_eat|]; auto with glob.
    + simplify_eq. apply Z.eqb_eq in Es' as ->. left; simpl. rewrite Edp.
      apply glob_star. destruct IH as [Hg|(i & k & [= <-] & Hk & Hg)]; simpl in *.
      * exists 0%nat. split; [lia | by rewrite drop_0].
      * exists (k - v)%nat. rewrite length_drop, drop_drop.
        replace (v + (k - v))%nat with k by lia. split; [lia | done].
    + destruct star as [i|]; [simplify_eq; eauto | done].
  - left. destruct Hwf as (_ & Hvl & _). rewrite (drop_ge value (ms_v s)) by lia.
    apply glob_only_stars. by simplify_eq.
Qed.

Lemma chars_match_loop pattern value :
  match_loop (match_fuel pattern value) pattern value match_start =
  Some (chars_match pattern value).
Proof.
  unfold chars_match.
  destruct (match_loop_total (match_fuel pattern value) pattern value match_start) as [b ->];
    [apply match_start_wf | apply match_start_measure | done].
Qed.

Lemma chars_match_sound pattern value : chars_match pattern value = true → glob pattern value.
Proof.
  intros H. apply glob_pending_start.
  apply (match_loop_sound (match_fuel pattern value)); [apply match_start_wf|].
  by rewrite chars_match_loop, H.
Qed.

Lemma chars_match_glob pattern value :
  (∀ c, c ∈ value → c ≠ STAR) → chars_match pattern value = true ↔ glob pattern value.
Proof.
  intros Hval. rewrite <- glob_pending_start.
  apply (match_loop_correct (match_fuel pattern value)); [apply match_start_wf | done | done |].
  apply chars_match_loop.
Qed.

(** ** Properties *)

(** C31: [pattern_matches] always returns: the fuel its model uses, quadratic in
    the lengths of the two strings, is enough for the loop on every input. *)
Theorem pattern_matches_terminates pattern value :
  ∃ b, match_loop (match_fuel (chars pattern) (chars value)) (chars pattern) (chars value)
         match_start = Some b ∧ pattern_matches pattern value = b.
Proof. exists (chars_match (chars pattern) (chars value)). by rewrite chars_match_loop. Qed.

(** C30: [pattern_matches] decides the meaning of wildcard patterns, where an
    asterisk stands for any sequence and a question mark for any one
    character: what it accepts is a match, and on a value that contains no
    asterisk it accepts every match. *)
Theorem pattern_matches_correct pattern value :
  (pattern_matches pattern value = true → glob (chars pattern) (chars value)) ∧
  (STAR ∉ chars value → glob (chars pattern) (chars value) →
   pattern_matches pattern value = true).
Proof.
  split; [apply chars_match_sound|]. intros Hv Hg. apply chars_match_glob; [|done].
  by intros c Hc ->.
Qed.

Lemma pattern_matches_correct_witness :
  glob (chars "hc:org:*:project/te?t") (chars "hc:org:one:project/test").
Proof.
  apply (proj1 (pattern_matches_correct "hc:org:*:project/te?t" "hc:org:one:project/test")).
  vm_compute. reflexivity.
Defined.

(** A value that contains an asterisk can escape the pattern that stands for
    every value: the loop compares characters for equality before it treats
    the pattern's asterisk as a wildcard, so the pattern character is used up
    and no backtracking point is set. *)
Lemma pattern_matches_asterisk_in_value :
  glob (chars "*") (chars "*x") ∧ pattern_matches "*" "*x" = false.
Proof.
  split; [|vm_compute; reflexivity].
  change (glob [STAR] [STAR; 120]). auto with glob.
Qed.

(** Action patterns are matched without regard to the case of ASCII letters. *)
Lemma action_pattern_matches_case pattern pattern' value value' :
  eq_ignore_ascii_case pattern pattern' = true → eq_ignore_ascii_case value value' = true →
  action_pattern_matches pattern value = action_pattern_matches pattern' value'.
Proof.
  intros Hp%eq_ignore_ascii_case_lower Hv%eq_ignore_ascii_case_lower.
  unfold action_pattern_matches. by rewrite Hp, Hv.
Qed.

