(* ===== verification/Net.v ===== *)
(** * IP addresses and networks

    The text form of [std::net::IpAddr], as the standard library parses it,
    and the interface of the [ipnet] crate the program uses for CIDR blocks. *)
From S2P Require Import Prelude Text.

(** ** Addresses *)

(** An address is its value as a 32 or 128 bit integer. *)
Inductive IpAddr :=
| V4 (a : Z)
| V6 (a : Z).

#[export] Instance IpAddr_eq_dec : EqDecision IpAddr.
Proof. solve_decision. Defined.

(** The parser works on the bytes that are left and gives them back. *)
Definition parser (A : Type) := list Z → option (A * list Z).

Definition digit_value (radix b : Z) : option Z :=
  let d := if is_ascii_digit b then b - 48
           else if is_ascii_lowercase b then b - 87
           else if is_ascii_uppercase b then b - 55
           else radix in
  if d <? radix then Some d else None.

(** The longest run of digits. *)
Fixpoint read_digits (radix : Z) (l : list Z) : list Z * list Z :=
  match l with
  | [] => ([], [])
  | b :: l' =>
      match digit_value radix b with
      | Some d => let '(ds, rest) := read_digits radix l' in (d :: ds, rest)
      | None => ([], l)
      end
  end.

(** [Parser::read_number]: at most [max_digits] digits, value at most [max]. *)
Definition read_number (radix : Z) (max_digits : nat) (allow_zero_prefix : bool) (max : Z)
    : parser Z := λ l,
  let '(ds, rest) := read_digits radix l in
  let value := foldl (λ acc d, acc * radix + d) 0 ds in
  if (length ds =? 0)%nat || (max_digits <? length ds)%nat || (max <? value)
     || (negb allow_zero_prefix && is_some_and (Z.eqb 0) (head ds) && (1 <? length ds)%nat)
  then None else Some (value, rest).

(** [Parser::read_separator]. *)
Definition read_separator {A} (sep : Z) (first : bool) (inner : parser A) : parser A := λ l,
  if first then inner l
  else match l with
       | b :: l => if b =? sep then inner l else None
       | [] => None
       end.

(** [Parser::read_ipv4_addr]: four octets without superfluous zeroes. *)
Fixpoint read_octets (n : nat) (first : bool) (acc : Z) : parser Z := λ l,
  match n with
  | O => Some (acc, l)
  | S n =>
      '(octet, rest) ← read_separator DOT first (read_number 10 3 false 255) l;
      read_octets n false (acc * 256 + octet) rest
  end.
Definition read_ipv4_addr : parser Z := read_octets 4 true 0.

(** [read_groups]: the 16 bit groups read into [n] slots, and whether they end
    with an embedded IPv4 address. *)
Fixpoint read_groups (n : nat) (first : bool) (l : list Z) : list Z * bool * list Z :=
  match n with
  | O => ([], false, l)
  | S m =>
      match (if (0 <? m)%nat then read_separator COLON first read_ipv4_addr l else None) with
      | Some (a, rest) => ([a / 65536; a `mod` 65536], true, rest)
      | None =>
          match read_separator COLON first (read_number 16 4 true 65535) l with
          | Some (g, rest) =>
              let '(gs, v4, rest') := read_groups m false rest in (g :: gs, v4, rest')
          | None => ([], false, l)
          end
      end
  end.

Definition groups_value (gs : list Z) : Z := foldl (λ acc g, acc * 65536 + g) 0 gs.

(** [Parser::read_ipv6_addr]. *)
Definition read_ipv6_addr : parser Z := λ l,
  let '(head, head_ipv4, rest) := read_groups 8 true l in
  if (length head =? 8)%nat then Some (groups_value head, rest)
  else if head_ipv4 then None
  else match rest with
       | 58 :: 58 :: rest =>
           let '(tail, _, rest') := read_groups (8 - (length head + 1)) true rest in
           let zeros := replicate (8 - length head - length tail) 0 in
           Some (groups_value (head ++ zeros ++ tail), rest')
       | _ => None
       end.

(** [str::parse::<IpAddr>]: the whole text is an address. *)
Definition parse_ip_addr (s : string) : option IpAddr :=
  match read_ipv4_addr (bytes s) with
  | Some (a, []) => Some (V4 a)
  | Some _ => None
  | None =>
      match read_ipv6_addr (bytes s) with
      | Some (a, []) => Some (V6 a)
      | _ => None
      end
  end.

(** ** Networks *)

(** What the program calls of the [ipnet] crate. *)
Class IpNetLib := {
  IpNet : Type;
  IpNet_eq_dec :: EqDecision IpNet;
  parse_ip_net : string → option IpNet;
  ip_net_from : IpAddr → IpNet;
  trunc : IpNet → IpNet;
  net_contains : IpNet → IpNet → bool;
}.

(** The documented meaning of these calls, in terms of the addresses of a
    network: a single address is a network, truncation does not change the
    block, and [contains] decides inclusion of two blocks, of which one always
    includes the other when they meet. *)
Class IpNetLaws (L : IpNetLib) := {
  addresses : IpNet → IpAddr → Prop;
  addresses_from a b : addresses (ip_net_from a) b ↔ a = b;
  addresses_trunc n a : addresses (trunc n) a ↔ addresses n a;
  contains_or_disjoint n m a :
    addresses n a → addresses m a → net_contains n m = true ∨ net_contains m n = true;
}.

(** ** A concrete implementation of the interface *)

Module Blocks.

Definition width (v6 : bool) : Z := if v6 then 128 else 32.

Record t := { is_v6 : bool; base : Z; prefix : Z }.

#[export] Instance t_eq_dec : EqDecision t.
Proof. solve_decision. Defined.

Definition of_addr (a : IpAddr) : t :=
  match a with
  | V4 a => {| is_v6 := false; base := a; prefix := 32 |}
  | V6 a => {| is_v6 := true; base := a; prefix := 128 |}
  end.

(** The bits of an address below the prefix. *)
Definition host_bits (n : t) : Z := Z.max 0 (width (is_v6 n) - prefix n).
Definition network (n : t) (a : Z) : Z := Z.shiftr a (host_bits n).

Definition parse (s : string) : option t :=
  '(addr, len) ← split_once SLASH s;
  a ← parse_ip_addr addr;
  '(p, rest) ← read_number 10 3 true (prefix (of_addr a)) (bytes len);
  match rest with
  | [] => Some {| is_v6 := is_v6 (of_addr a); base := base (of_addr a); prefix := p |}
  | _ => None
  end.

Definition trunc (n : t) : t :=
  {| is_v6 := is_v6 n; base := Z.shiftl (network n (base n)) (host_bits n); prefix := prefix n |}.

Definition contains (n m : t) : bool :=
  eqb (is_v6 n) (is_v6 m) && (host_bits m <=? host_bits n)
  && (network n (base m) =? network n (base n)).

Definition member (n : t) (a : IpAddr) : Prop :=
  is_v6 n = is_v6 (of_addr a) ∧ network n (base (of_addr a)) = network n (base n).

Lemma network_mono n m a b :
  host_bits m ≤ host_bits n → network m a = network m b → network n a = network n b.
Proof.
  unfold network. intros Hle Heq.
  assert (0 ≤ host_bits m) by (unfold host_bits; lia).
  replace (host_bits n) with (host_bits m + (host_bits n - host_bits m)) by lia.
  rewrite <- !Z.shiftr_shiftr by lia. by rewrite Heq.
Qed.

Lemma member_contains n m a :
  host_bits m ≤ host_bits n → member n a → member m a → contains n m = true.
Proof.
  intros Hle [Hf Hn] [Hf' Hm]. unfold contains.
  rewrite !andb_true_iff, eqb_true_iff, Z.leb_le, Z.eqb_eq. split_and!; [congruence | done |].
  rewrite <- Hn. symmetry. by apply (network_mono n m).
Qed.

#[export] Instance lib : IpNetLib := {|
  IpNet := t;
  parse_ip_net := parse;
  ip_net_from := of_addr;
  Net.trunc := trunc;
  net_contains := contains;
|}.

#[export] Instance laws : IpNetLaws lib.
Proof.
  refine {| addresses := member |}.
  - intros a b. unfold member, network. simpl. destruct a, b; simpl; rewrite ?Z.shiftr_0_r;
      split; try (intros [??]; congruence); congruence || (intros [= ->]; auto).
  - intros n a. unfold member, trunc. simpl. unfold network at 1 2, host_bits at 1 2. simpl.
    fold (host_bits n).
    assert (0 ≤ host_bits n) by (unfold host_bits; lia).
    rewrite Z.shiftr_shiftl_l, Z.sub_diag, Z.shiftl_0_r by lia. done.
  - intros n m a Hn Hm. simpl. destruct (Z.le_gt_cases (host_bits m) (host_bits n)).
    + left. by apply (member_contains n m a).
    + right. apply (member_contains m n a); [lia | done | done].
Defined.

End Blocks.

(** The parser on the forms the standard library documents. *)
Example parse_ip_addr_forms :
  parse_ip_addr "192.168.0.1" = Some (V4 3232235521) ∧
  parse_ip_addr "192.168.00.1" = None ∧
  parse_ip_addr "192.168.0" = None ∧
  parse_ip_addr "::1" = Some (V6 1) ∧
  parse_ip_addr "fe80::1:2" = Some (V6 (0xfe80 * 2 ^ 112 + 65536 + 2)) ∧
  parse_ip_addr "::ffff:1.2.3.4" = Some (V6 (0xffff * 2 ^ 32 + 16909060)) ∧
  parse_ip_addr "1:2:3:4:5:6:7:8:9" = None.
Proof. vm_compute. auto 10. Qed.
