(* ===== verification/Json.v ===== *)
(** * JSON values

    The [serde_json::Value] the source matches on and indexes: the constructors
    and the accessors it uses.  Serialisation of the program's own types is
    code of a third-party library: what the program relies on is the interface
    [Serde] with the laws [SerdeRange] and [SerdeRoundTrip].  Concrete instances
    are given where a component needs one to run. *)
From S2P Require Import Prelude Text.

(** A JSON number: an integer in the range of [i64] or [u64], or anything
    else, which no code here looks into. *)
Inductive Number :=
| Int (z : Z)
| Float (text : string).

Inductive Value :=
| Null
| Bool (b : bool)
| Num (n : Number)
| Str (s : string)
| Array (l : list Value)
| Object (fields : list (string * Value)).

Definition is_i64_number (n : Number) : bool :=
  match n with Int z => in_range i64_min i64_max z | Float _ => false end.
Definition is_u64_number (n : Number) : bool :=
  match n with Int z => in_range 0 u64_max z | Float _ => false end.

(** [Number::as_u64], [Number::to_string]. *)
Definition number_as_u64 (n : Number) : option Z :=
  match n with Int z => if in_range 0 u64_max z then Some z else None | Float _ => None end.
Definition number_to_string (n : Number) : string :=
  match n with Int z => int_to_string z | Float t => t end.

Definition as_u64 (v : Value) : option Z :=
  match v with Num n => number_as_u64 n | _ => None end.
Definition as_str (v : Value) : option string :=
  match v with Str s => Some s | _ => None end.
Definition as_bool (v : Value) : option bool :=
  match v with Bool b => Some b | _ => None end.

(** Lookup of a key in the fields of an object. *)
Fixpoint field {A} (k : string) (l : list (string * A)) : option A :=
  match l with
  | [] => None
  | (k', v) :: l => if String.eqb k k' then Some v else field k l
  end.

(** [Value::get] with a string index. *)
Definition get (k : string) (v : Value) : option Value :=
  match v with Object l => field k l | _ => None end.

(** [Map::insert] and [Map::remove]. *)
Fixpoint field_remove {A} (k : string) (l : list (string * A)) : list (string * A) :=
  match l with
  | [] => []
  | (k', v) :: l => if String.eqb k k' then field_remove k l else (k', v) :: field_remove k l
  end.
Definition field_insert {A} (k : string) (a : A) (l : list (string * A)) : list (string * A) :=
  (k, a) :: field_remove k l.

(** Serialisation of one of the program's types: [to_value] is
    [serde_json::to_value] and [from_value] is [serde_json::from_value]. *)
Class Serde (A : Type) := {
  to_value : A → Value;
  from_value : Value → option A;
}.

(** The values a Rust type can hold: integers within their width. *)
Class Representable (A : Type) := representable : A → Prop.

(** What the derived implementations guarantee: decoding gives a value of the
    Rust type, and a value survives the round trip. *)
Class SerdeRange (A : Type) `{Serde A, Representable A} :=
  from_value_representable v a : from_value v = Some a → representable a.
Class SerdeRoundTrip (A : Type) `{Serde A, Representable A} :=
  from_to_value a : representable a → from_value (to_value a) = Some a.

(** ** Facts *)

Lemma field_remove_eq {A} k (l : list (string * A)) : field k (field_remove k l) = None.
Proof.
  induction l as [|[k' v] l IH]; simpl; [done|].
  destruct (String.eqb k k') eqn:E; [done|]. simpl. by rewrite E.
Qed.

Lemma field_remove_ne {A} k k' (l : list (string * A)) :
  k ≠ k' → field k' (field_remove k l) = field k' l.
Proof.
  intros Hne. induction l as [|[k2 v] l IH]; simpl; [done|].
  destruct (String.eqb_spec k k2) as [<-|].
  - rewrite IH. by rewrite (proj2 (String.eqb_neq k' k)) by congruence.
  - simpl. by rewrite IH.
Qed.

Lemma field_insert_eq {A} k (a : A) l : field k (field_insert k a l) = Some a.
Proof. simpl. by rewrite String.eqb_refl. Qed.

Lemma field_insert_ne {A} k k' (a : A) l :
  k ≠ k' → field k' (field_insert k a l) = field k' l.
Proof.
  intros Hne. simpl. rewrite (proj2 (String.eqb_neq k' k)) by congruence.
  by apply field_remove_ne.
Qed.
