(* ===== verification/Policy.v ===== *)
(** * IAM policy documents

    The policy part of [heterocloud-domain/src/lib.rs]: documents, their
    validation, and the translation of the AWS policy grammar
    ([PolicyDocument::from_aws_json]).  The calendar is [chrono]'s, a parameter
    of the model ([Chrono]); the JSON decoder of the AWS grammar is [serde]'s,
    an argument of [from_aws_json]. *)
From S2P Require Import Prelude Text Json.

(** ** Identifiers and errors of the domain crate *)

(** [Uuid] and its transparent wrappers: 128-bit numbers. *)
Abbreviation Uuid := N.
Abbreviation UserId := Uuid.
Abbreviation OrganizationId := Uuid.
Abbreviation ProjectId := Uuid.
Abbreviation PrincipalId := Uuid.
Abbreviation ServiceInstanceId := Uuid.

#[export] Instance Uuid_countable : Countable Uuid := N_countable.

(** Messages are the format strings of the source; the values interpolated
    into them are left out. *)
Inductive DomainError :=
| InvalidVpcSpec (message : string)
| InvalidResourceQuota (message : string)
| InvalidFlashSpec (message : string)
| InvalidSyouyuSpec (message : string)
| InvalidPolicy (message : string)
| UnsupportedPolicyVersion (version : string).

#[export] Instance DomainError_eq_dec : EqDecision DomainError.
Proof. solve_decision. Defined.

(** ** Documents *)

Definition POLICY_VERSION : string := "2026-07-31".

Inductive PolicyEffect := Allow | Deny.

#[export] Instance PolicyEffect_eq_dec : EqDecision PolicyEffect.
Proof. solve_decision. Defined.

(** A [BTreeMap] with string keys that is only iterated over: its entries in
    key order. *)
Definition PolicyConditions := list (string * list (string * list string)).
Definition AwsPolicyConditions := list (string * list (string * Value)).

Record PolicyStatement := {
  effect : PolicyEffect;
  sid : option string;
  actions : list string;
  not_actions : list string;
  resources : list string;
  not_resources : list string;
  conditions : PolicyConditions;
}.

Record PolicyDocument := {
  version : string;
  statements : list PolicyStatement;
}.

(** ** Dates

    A [DateTime<Utc>] is its distance from the Unix epoch in nanoseconds. *)
Definition DateTime := Z.
Definition NANOS_PER_SECOND : Z := 1000000000.

Class Chrono := {
  (** [DateTime::from_timestamp(seconds, 0)]. *)
  from_timestamp : Z → option DateTime;
  (** [DateTime::parse_from_rfc3339(value).ok()], converted to UTC. *)
  parse_from_rfc3339 : string → option DateTime;
}.

(** What the program relies on of [from_timestamp]. *)
Class ChronoLaws `{Chrono} :=
  from_timestamp_exact : ∀ s t, from_timestamp s = Some t → t = s * NANOS_PER_SECOND.

(** ** The AWS grammar: data *)

Inductive OneOrMany (T : Type) :=
| One (value : T)
| Many (values : list T).
Arguments One {T} value.
Arguments Many {T} values.

Definition OneOrMany_into_vec {T} (x : OneOrMany T) : list T :=
  match x with One value => [value] | Many values => values end.

Record AwsPolicyStatement := {
  aws_sid : option string;
  aws_effect : PolicyEffect;
  aws_actions : option (OneOrMany string);
  aws_not_actions : option (OneOrMany string);
  aws_resources : option (OneOrMany string);
  aws_not_resources : option (OneOrMany string);
  aws_conditions : option AwsPolicyConditions;
}.

Record AwsPolicy := {
  aws_version : option string;
  aws_statements : OneOrMany AwsPolicyStatement;
}.

(** ** Validation *)

Section Validation.
Context `{Chrono}.

Definition parse_iam_condition_date (value : string) : option DateTime :=
  match parse_i64 value with
  | Some seconds => from_timestamp seconds
  | None => parse_from_rfc3339 value
  end.

Definition is_condition_operator (operator : string) : bool :=
  existsb (String.eqb operator)
    ["DateEquals"; "DateNotEquals"; "DateLessThan"; "DateLessThanEquals";
     "DateGreaterThan"; "DateGreaterThanEquals"].

Definition validate_condition_values (entry : string * list string) : result DomainError () :=
  let '(key, values) := entry in
  fail_if (negb (eq_ignore_ascii_case key "aws:CurrentTime")
           || bool_decide (values = []) || (128 <? Z.of_nat (length values))
           || existsb (λ v, (64 <? len v) || negb (is_some (parse_iam_condition_date v))) values)
    (InvalidPolicy "unsupported condition key or invalid date values").

Definition validate_condition_operator (entry : string * list (string * list string))
    : result DomainError () :=
  let '(operator, keys) := entry in
  fail_if (negb (is_condition_operator operator))
    (InvalidPolicy "unsupported condition operator {operator}") ;;
  fail_if (negb (Z.of_nat (length keys) =? 1))
    (InvalidPolicy "date conditions require exactly aws:CurrentTime") ;;
  for_each validate_condition_values keys.

Definition validate_policy_conditions (conditions : PolicyConditions) : result DomainError () :=
  fail_if (6 <? Z.of_nat (length conditions)) (InvalidPolicy "too many condition operators") ;;
  for_each validate_condition_operator conditions.

Definition validate_pattern (pattern : string) : result DomainError () :=
  fail_if (is_empty pattern || (512 <? len pattern) || existsb is_whitespace (chars pattern))
    (InvalidPolicy "policy patterns must be 1..512 non-whitespace characters").

Definition validate_statement (statement : PolicyStatement) : result DomainError () :=
  fail_if (eqb (is_nil (actions statement)) (is_nil (not_actions statement))
           || eqb (is_nil (resources statement)) (is_nil (not_resources statement))
           || (128 <? Z.of_nat (length (actions statement)))
           || (128 <? Z.of_nat (length (not_actions statement)))
           || (128 <? Z.of_nat (length (resources statement)))
           || (128 <? Z.of_nat (length (not_resources statement))))
    (InvalidPolicy
       "each statement requires exactly one of Action/NotAction and Resource/NotResource (1..128 values each)") ;;
  for_each validate_pattern
    (actions statement ++ not_actions statement
     ++ resources statement ++ not_resources statement) ;;
  validate_policy_conditions (conditions statement).

(** [PolicyDocument::validate]. *)
Definition PolicyDocument_validate (d : PolicyDocument) : result DomainError () :=
  fail_if (negb (String.eqb (version d) POLICY_VERSION))
    (UnsupportedPolicyVersion (version d)) ;;
  fail_if (is_nil (statements d) || (128 <? Z.of_nat (length (statements d))))
    (InvalidPolicy "a policy requires between 1 and 128 statements") ;;
  for_each validate_statement (statements d).

(** ** The AWS grammar *)

Definition parse_condition_value (value : Value) : result DomainError string :=
  match value with
  | Str s => Ok s
  | Num n =>
      if is_i64_number n || is_u64_number n then Ok (number_to_string n)
      else Err (InvalidPolicy "condition dates must be strings or whole Unix seconds")
  | _ => Err (InvalidPolicy "condition dates must be strings or whole Unix seconds")
  end.

Definition parse_condition_key (entry : string * Value)
    : result DomainError (string * list string) :=
  let '(key, values) := entry in
  values ← collect parse_condition_value
             (match values with Array values => values | value => [value] end);
  Ok (key, values).

Definition parse_condition_operator (entry : string * list (string * Value))
    : result DomainError (string * list (string * list string)) :=
  let '(operator, keys) := entry in
  keys ← collect parse_condition_key keys;
  Ok (operator, keys).

Definition parse_aws_conditions (conditions : option AwsPolicyConditions)
    : result DomainError PolicyConditions :=
  match conditions with
  | None => Ok []
  | Some conditions =>
      fail_if (is_nil conditions) (InvalidPolicy "Condition cannot be empty") ;;
      collect parse_condition_operator conditions
  end.

Definition vec_of {T} (o : option (OneOrMany T)) : list T :=
  match o with None => [] | Some x => OneOrMany_into_vec x end.

Definition lower_aws_statement (s : AwsPolicyStatement) : result DomainError PolicyStatement :=
  conditions ← parse_aws_conditions (aws_conditions s);
  Ok {| effect := aws_effect s;
        sid := aws_sid s;
        actions := vec_of (aws_actions s);
        not_actions := vec_of (aws_not_actions s);
        resources := vec_of (aws_resources s);
        not_resources := vec_of (aws_not_resources s);
        conditions := conditions |}.

(** [PolicyDocument::from_aws_json]; [decode] is [serde_json::from_value]. *)
Definition from_aws_json (decode : Value → option AwsPolicy) (value : Value)
    : result DomainError PolicyDocument :=
  aws ← ok_or (InvalidPolicy "unsupported AWS policy: {error}") (decode value);
  match aws_version aws with
  | Some version =>
      fail_if (negb (String.eqb version "2012-10-17") && negb (String.eqb version "2008-10-17"))
        (UnsupportedPolicyVersion version)
  | None => Ok ()
  end ;;
  statements ← collect lower_aws_statement (OneOrMany_into_vec (aws_statements aws));
  let document := {| version := POLICY_VERSION; statements := statements |} in
  PolicyDocument_validate document ;;
  Ok document.

(** ** Well-formed documents *)

(** What validation promises to the evaluator. *)
Record statement_wf (s : PolicyStatement) : Prop := {
  swf_actions : (actions s = [] ∧ not_actions s ≠ []) ∨ (actions s ≠ [] ∧ not_actions s = []);
  swf_resources :
    (resources s = [] ∧ not_resources s ≠ []) ∨ (resources s ≠ [] ∧ not_resources s = []);
  swf_patterns : ∀ p,
    p ∈ actions s ++ not_actions s ++ resources s ++ not_resources s →
    p ≠ EmptyString ∧ len p ≤ 512 ∧ ∀ c, c ∈ chars p → is_whitespace c = false;
  swf_conditions : ∀ operator keys, (operator, keys) ∈ conditions s →
    is_condition_operator operator = true ∧
    ∃ key values, keys = [(key, values)] ∧ eq_ignore_ascii_case key "aws:CurrentTime" = true ∧
      values ≠ [] ∧ ∀ v, v ∈ values → is_Some (parse_iam_condition_date v);
}.

Definition policy_wf (d : PolicyDocument) : Prop :=
  version d = POLICY_VERSION ∧ (1 ≤ length (statements d) ≤ 128)%nat ∧
  ∀ s, s ∈ statements d → statement_wf s.

Lemma validate_pattern_ok p :
  validate_pattern p = Ok () →
  p ≠ EmptyString ∧ len p ≤ 512 ∧ ∀ c, c ∈ chars p → is_whitespace c = false.
Proof.
  unfold validate_pattern. rewrite fail_if_ok, !orb_false_iff, Z.ltb_ge, existsb_false.
  intros [[He ?] ?]. split_and!; [|done|done]. intros ->. done.
Qed.

Lemma validate_conditions_ok cs :
  validate_policy_conditions cs = Ok () →
  ∀ operator keys, (operator, keys) ∈ cs →
    is_condition_operator operator = true ∧
    ∃ key values, keys = [(key, values)] ∧ eq_ignore_ascii_case key "aws:CurrentTime" = true ∧
      values ≠ [] ∧ ∀ v, v ∈ values → is_Some (parse_iam_condition_date v).
Proof.
  unfold validate_policy_conditions. intros Hv operator keys Hin. inv_ok Hv.
  rewrite Forall_forall in Hv. specialize (Hv _ Hin). unfold validate_condition_operator in Hv.
  inv_ok Hv. split; [done|].
  destruct keys as [|[key values] [|]]; simpl in *; try lia.
  exists key, values. rewrite Forall_singleton in Hv. unfold validate_condition_values in Hv. simpl in Hv.
  rewrite fail_if_ok, !orb_false_iff, negb_false_iff, bool_decide_false_iff, existsb_false in Hv.
  destruct Hv as [[[? ?] ?] Hvals]. split_and!; [done..|]. intros v Hv.
  specialize (Hvals _ Hv). apply orb_false_iff in Hvals as [_ Hvals].
  by apply is_some_spec, negb_false_iff.
Qed.

Lemma validate_statement_wf s : validate_statement s = Ok () → statement_wf s.
Proof.
  unfold validate_statement.
  intros ([] & Hshape & ([] & Hpat & Hcond)%bind_ok)%bind_ok.
  rewrite fail_if_ok, !orb_false_iff in Hshape.
  destruct Hshape as [[[[[Ha Hr] _] _] _] _]. split.
  - by apply eqb_is_nil.
  - by apply eqb_is_nil.
  - rewrite for_each_ok, Forall_forall in Hpat.
    intros p Hp. by apply validate_pattern_ok, Hpat.
  - by apply validate_conditions_ok.
Qed.

Lemma PolicyDocument_validate_wf d : PolicyDocument_validate d = Ok () → policy_wf d.
Proof.
  unfold PolicyDocument_validate.
  intros ([] & Hver & ([] & Hlen & Hst)%bind_ok)%bind_ok.
  rewrite fail_if_ok, negb_false_iff, String.eqb_eq in Hver.
  rewrite fail_if_ok, orb_false_iff, Z.ltb_ge in Hlen. destruct Hlen as [Hnil Hlen].
  rewrite for_each_ok, Forall_forall in Hst.
  split_and!; [done | destruct (statements d); simpl in *; [done | lia] | lia |].
  intros s Hs. by apply validate_statement_wf, Hst.
Qed.

(** ** The AWS translation *)

(** The statement keeps every element of the AWS statement it comes from, and
    a [Condition] in the source never becomes an unconditional statement. *)
Record lowered (a : AwsPolicyStatement) (s : PolicyStatement) : Prop := {
  low_effect : effect s = aws_effect a;
  low_actions : actions s = vec_of (aws_actions a);
  low_not_actions : not_actions s = vec_of (aws_not_actions a);
  low_resources : resources s = vec_of (aws_resources a);
  low_not_resources : not_resources s = vec_of (aws_not_resources a);
  low_conditions : conditions s = [] ↔ aws_conditions a = None;
  low_operators : fst <$> conditions s = fst <$> default [] (aws_conditions a);
}.

Lemma parse_condition_operator_fst e e' : parse_condition_operator e = Ok e' → fst e' = fst e.
Proof.
  destruct e as [op keys]. unfold parse_condition_operator.
  by intros (keys' & _ & [= <-])%bind_ok.
Qed.

Lemma collect_operators cs cs' :
  collect parse_condition_operator cs = Ok cs' → fst <$> cs' = fst <$> cs.
Proof.
  intros Hc%collect_ok. induction Hc as [|e e' cs cs' He _ IH]; [done|].
  rewrite !fmap_cons, IH. by rewrite (parse_condition_operator_fst _ _ He).
Qed.

Lemma lower_aws_statement_lowered a s : lower_aws_statement a = Ok s → lowered a s.
Proof.
  unfold lower_aws_statement. intros (cs & Hcs & [= <-])%bind_ok.
  unfold parse_aws_conditions in Hcs. destruct (aws_conditions a) as [acs|] eqn:Ea.
  - apply bind_ok in Hcs as ([] & Hnil & Hcs). apply collect_operators in Hcs as Hfst.
    rewrite fail_if_ok in Hnil. split; simpl; try done; [|by rewrite Ea].
    rewrite Ea. split; [|done]. intros ->. by destruct acs.
  - injection Hcs as <-. split; simpl; try done. by rewrite Ea.
Qed.

(** A date written as a whole number of seconds denotes that many seconds. *)
Lemma parse_condition_value_int `{!ChronoLaws} z str t :
  is_i64 z → parse_condition_value (Num (Int z)) = Ok str →
  parse_iam_condition_date str = Some t → t = z * NANOS_PER_SECOND.
Proof.
  intros Hz Hp. simpl in Hp. destruct (_ || _); [|done]. injection Hp as <-.
  unfold parse_iam_condition_date. rewrite parse_i64_to_string by done.
  apply from_timestamp_exact.
Qed.

End Validation.

(** ** Properties *)

(** A calendar for the witnesses: the seconds [chrono] accepts are those of the
    years -262143 to 262142; it is given here without its text format. *)
Definition witness_chrono : Chrono := {|
  from_timestamp := λ s,
    if in_range (-8334601228800) 8210266876799 s then Some (s * NANOS_PER_SECOND) else None;
  parse_from_rfc3339 := λ _, None;
|}.

Lemma witness_chrono_laws : @ChronoLaws witness_chrono.
Proof. intros s t. simpl. destruct (in_range _ _ s); [by intros [= <-] | done]. Qed.

(** C39: A document that [PolicyDocument::validate] accepts has the current
    version and 1 to 128 statements, each with exactly one of
    Action/NotAction and of Resource/NotResource, patterns of 1 to 512 bytes
    without white space, and only date conditions on [aws:CurrentTime] whose
    values all are dates the evaluator can read. *)
Theorem validate_policy_sound `{Chrono} d :
  PolicyDocument_validate d = Ok () → policy_wf d.
Proof. apply PolicyDocument_validate_wf. Qed.

Definition witness_policy : PolicyDocument := {|
  version := POLICY_VERSION;
  statements := [{|
    effect := Allow; sid := None; actions := ["project:*"]; not_actions := [];
    resources := ["*"]; not_resources := [];
    conditions := [("DateLessThan", [("aws:CurrentTime", ["1700000000"])])] |}];
|}.

Lemma validate_policy_sound_witness : @policy_wf witness_chrono witness_policy.
Proof. apply (@validate_policy_sound witness_chrono). vm_compute. reflexivity. Defined.

(** [from_aws_json] accepts only what it can enforce: its result is a
    well-formed document whose statements correspond one to one, in order, to
    the AWS statements, with their effect, actions, resources and condition
    operators, and a statement with a [Condition] never becomes
    unconditional. *)
Lemma from_aws_json_faithful `{Chrono} decode value d :
  from_aws_json decode value = Ok d →
  policy_wf d ∧
  ∃ aws, decode value = Some aws ∧
    Forall2 lowered (OneOrMany_into_vec (aws_statements aws)) (statements d).
Proof.
  unfold from_aws_json. intros (aws & Haws%ok_or_ok & Hd)%bind_ok.
  apply bind_ok in Hd as ([] & _ & (sts & Hsts%collect_ok & ([] & Hv & [= <-])%bind_ok)%bind_ok).
  split; [by apply PolicyDocument_validate_wf|]. exists aws. split; [done|]. simpl.
  eapply Forall2_impl; [exact Hsts|]. intros a s. apply lower_aws_statement_lowered.
Qed.

Definition witness_aws_policy : AwsPolicy := {|
  aws_version := Some "2012-10-17";
  aws_statements := One {|
    aws_sid := None; aws_effect := Deny; aws_actions := Some (One "project:*");
    aws_not_actions := None; aws_resources := Some (Many ["*"]); aws_not_resources := None;
    aws_conditions := Some [("DateEquals", [("aws:CurrentTime", Array [Num (Int 1699999999); Num (Int 1700000000)])])] |};
|}.

(** A condition date given as a whole number of seconds is stored as text and
    read back as exactly that instant. *)
Lemma condition_seconds_roundtrip `{ChronoLaws} z str t :
  is_i64 z → parse_condition_value (Num (Int z)) = Ok str →
  parse_iam_condition_date str = Some t → t = z * NANOS_PER_SECOND.
Proof. apply parse_condition_value_int. Qed.

