(* ===== verification/Iam.v ===== *)
(** * Policy evaluation

    [heterocloud-iam/src/lib.rs]: the evaluation of policies ([authorize]) and
    the three restrictions that are applied to its result (permissions
    boundary, service control policies, session policy), and the composition
    of them in [heterocloud-api/src/routes.rs]
    ([evaluate_account_permissions], [authorize_actor_with_implicit_allow]).
    The decision kernel the repository proves in Lean is [lean_authorize]. *)
From S2P Require Import Prelude Text Glob Json Policy.

(** ** Data *)

Module Decision.
Inductive t := Allow | Deny.
End Decision.

#[export] Instance Decision_eq_dec : EqDecision Decision.t.
Proof. solve_decision. Defined.

Record AuthorizationRequest := {
  principal_organization_id : OrganizationId;
  resource_organization_id : OrganizationId;
  action : string;
  resource : string;
  evaluated_at : DateTime;
}.

Record Evaluation := {
  decision : Decision.t;
  applicable_allow : bool;
  applicable_deny : bool;
  reason : string;
}.

(** [IamError::InvalidPolicy]. *)
Definition IamError := DomainError.

(** ** The decision kernel *)

Definition decide_request (same_organization applicable_allow applicable_deny : bool)
    : Decision.t :=
  if negb same_organization || applicable_deny then Decision.Deny
  else if applicable_allow then Decision.Allow
  else Decision.Deny.

(** [authorize] of [lean/HeteroCloud/IAM.lean]. *)
Definition lean_authorize (sameOrganization applicableAllow applicableDeny : bool) : Decision.t :=
  if negb sameOrganization then Decision.Deny
  else if applicableDeny then Decision.Deny
  else if applicableAllow then Decision.Allow
  else Decision.Deny.

Section Evaluation.
Context `{Chrono}.

(** ** Conditions *)

Definition condition_value_matches (operator : string) (at_ : DateTime) (value : string) : bool :=
  is_some_and (λ date,
    if String.eqb operator "DateEquals" || String.eqb operator "DateNotEquals" then at_ =? date
    else if String.eqb operator "DateLessThan" then at_ <? date
    else if String.eqb operator "DateLessThanEquals" then at_ <=? date
    else if String.eqb operator "DateGreaterThan" then date <? at_
    else if String.eqb operator "DateGreaterThanEquals" then date <=? at_
    else false) (parse_iam_condition_date value).

Definition conditions_match (statement : PolicyStatement) (request : AuthorizationRequest) : bool :=
  forallb (λ '(operator, keys),
    forallb (λ '(_, values),
      if String.eqb operator "DateNotEquals" then
        forallb (λ v, negb (condition_value_matches operator (evaluated_at request) v)) values
      else existsb (condition_value_matches operator (evaluated_at request)) values) keys)
    (conditions statement).

(** ** Evaluation of policies *)

Definition action_matches (statement : PolicyStatement) (request : AuthorizationRequest) : bool :=
  if is_nil (not_actions statement) then
    existsb (λ p, action_pattern_matches p (action request)) (actions statement)
  else negb (existsb (λ p, action_pattern_matches p (action request)) (not_actions statement)).

Definition resource_matches (statement : PolicyStatement) (request : AuthorizationRequest) : bool :=
  if is_nil (not_resources statement) then
    existsb (λ p, pattern_matches p (resource request)) (resources statement)
  else negb (existsb (λ p, pattern_matches p (resource request)) (not_resources statement)).

(** The flags [(applicable_allow, applicable_deny)] after one statement. *)
Definition authorize_statement (request : AuthorizationRequest)
    (flags : bool * bool) (statement : PolicyStatement) : bool * bool :=
  if negb (action_matches statement request) || negb (resource_matches statement request)
     || negb (conditions_match statement request)
  then flags
  else match effect statement with
       | Allow => (true, flags.2)
       | Deny => (flags.1, true)
       end.

Definition authorize_policy (request : AuthorizationRequest)
    (flags : bool * bool) (policy : PolicyDocument) : result IamError (bool * bool) :=
  PolicyDocument_validate policy ;;
  Ok (fold_left (authorize_statement request) (statements policy) flags).

Definition authorize (request : AuthorizationRequest) (policies : list PolicyDocument)
    : result IamError Evaluation :=
  let same_organization :=
    bool_decide (principal_organization_id request = resource_organization_id request) in
  if negb same_organization then
    Ok {| decision := Decision.Deny; applicable_allow := false; applicable_deny := false;
          reason := "cross_organization" |}
  else
    '(allow, deny) ← fold_result (authorize_policy request) (false, false) policies;
    let decision := decide_request same_organization allow deny in
    if deny then
      Ok {| decision := decision; applicable_allow := allow; applicable_deny := deny;
            reason := "explicit_deny" |}
    else if allow then
      Ok {| decision := decision; applicable_allow := allow; applicable_deny := deny;
            reason := "explicit_allow" |}
    else
      Ok {| decision := decision; applicable_allow := allow; applicable_deny := deny;
            reason := "default_deny" |}.

Definition authorize_with_administrator (request : AuthorizationRequest)
    (policies : list PolicyDocument) (administrator : bool) : result IamError Evaluation :=
  evaluation ← authorize request policies;
  if administrator && String.eqb (reason evaluation) "default_deny" then
    Ok {| decision := Decision.Allow; applicable_allow := true;
          applicable_deny := applicable_deny evaluation; reason := "administrator_allow" |}
  else Ok evaluation.

(** ** Restrictions *)

(** The loop over the levels: the evaluation to return at once, or whether
    some level had no allow. *)
Fixpoint scp_levels (request : AuthorizationRequest) (identity : Evaluation) (no_allow : bool)
    (levels : list (list PolicyDocument)) : result IamError (Evaluation + bool) :=
  match levels with
  | [] => Ok (inr no_allow)
  | policies :: levels =>
      evaluation ← authorize request policies;
      if applicable_deny evaluation then
        Ok (inl {| decision := Decision.Deny; applicable_allow := applicable_allow identity;
                   applicable_deny := true; reason := "scp_explicit_deny" |})
      else
        scp_levels request identity
          (no_allow || bool_decide (decision evaluation = Decision.Deny)) levels
  end.

Definition enforce_service_control_policies (request : AuthorizationRequest)
    (identity : Evaluation) (levels : list (list PolicyDocument)) : result IamError Evaluation :=
  if bool_decide (decision identity = Decision.Deny) then Ok identity
  else
    outcome ← scp_levels request identity false levels;
    match outcome with
    | inl evaluation => Ok evaluation
    | inr true =>
        Ok {| decision := Decision.Deny; applicable_allow := applicable_allow identity;
              applicable_deny := false; reason := "scp_no_allow" |}
    | inr false => Ok identity
    end.

Definition enforce_permissions_boundary (request : AuthorizationRequest)
    (identity : Evaluation) (boundary : option PolicyDocument) : result IamError Evaluation :=
  match boundary with
  | None => Ok identity
  | Some boundary =>
      if bool_decide (decision identity = Decision.Deny) then Ok identity
      else
        evaluation ← authorize request [boundary];
        if bool_decide (decision evaluation = Decision.Deny) then
          Ok {| decision := Decision.Deny; applicable_allow := applicable_allow identity;
                applicable_deny := applicable_deny evaluation;
                reason := if applicable_deny evaluation then "permissions_boundary_explicit_deny"
                          else "permissions_boundary_no_allow" |}
        else Ok identity
  end.

Definition session_reason (reason : string) : string :=
  if String.eqb reason "permissions_boundary_explicit_deny" then "session_policy_explicit_deny"
  else if String.eqb reason "permissions_boundary_no_allow" then "session_policy_no_allow"
  else reason.

Definition enforce_session_policy (request : AuthorizationRequest)
    (identity : Evaluation) (session_policy : option PolicyDocument) : result IamError Evaluation :=
  if bool_decide (decision identity = Decision.Deny) then Ok identity
  else
    evaluation ← enforce_permissions_boundary request identity session_policy;
    Ok {| decision := decision evaluation; applicable_allow := applicable_allow evaluation;
          applicable_deny := applicable_deny evaluation;
          reason := session_reason (reason evaluation) |}.

(** ** Composition in the API *)

Record AuthorizationContext := {
  context_principal_id : PrincipalId;
  role : string;
  policies : list PolicyDocument;
  permissions_boundary : option PolicyDocument;
}.

Definition is_administrator (context : AuthorizationContext) : bool :=
  String.eqb (role context) "owner" || String.eqb (role context) "admin".

Definition self_service_reason (implicit_allow : bool) (context : AuthorizationContext)
    (identity : Evaluation) : Evaluation :=
  if implicit_allow && negb (is_administrator context)
     && String.eqb (reason identity) "administrator_allow"
  then {| decision := decision identity; applicable_allow := applicable_allow identity;
          applicable_deny := applicable_deny identity; reason := "self_service_allow" |}
  else identity.

(** [levels] is what [Store::service_control_levels] returned. *)
Definition evaluate_account_permissions (context : AuthorizationContext)
    (levels : list (list PolicyDocument)) (organization_id : OrganizationId)
    (action resource : string) (implicit_allow : bool) (evaluated_at : DateTime)
    : result IamError Evaluation :=
  let request := {| principal_organization_id := organization_id;
                    resource_organization_id := organization_id;
                    action := action; resource := resource; evaluated_at := evaluated_at |} in
  identity ← authorize_with_administrator request (policies context)
               (implicit_allow || is_administrator context);
  let identity := self_service_reason implicit_allow context identity in
  identity ← enforce_permissions_boundary request identity (permissions_boundary context);
  enforce_service_control_policies request identity levels.

(** The evaluation in [authorize_actor_with_implicit_allow]; the session policy
    is that of a role session, and absent for every other actor. *)
Definition evaluate_actor (context : AuthorizationContext)
    (levels : list (list PolicyDocument)) (session_policy : option PolicyDocument)
    (organization_id : OrganizationId) (action resource : string) (implicit_allow : bool)
    (evaluated_at : DateTime) : result IamError Evaluation :=
  evaluation ← evaluate_account_permissions context levels organization_id action resource
                 implicit_allow evaluated_at;
  enforce_session_policy
    {| principal_organization_id := organization_id;
       resource_organization_id := organization_id;
       action := action; resource := resource; evaluated_at := evaluated_at |}
    evaluation session_policy.

(** ** Declarative meaning *)

(** A statement is applicable to a request. *)
Definition applies (request : AuthorizationRequest) (s : PolicyStatement) : bool :=
  action_matches s request && resource_matches s request && conditions_match s request.

(** Some statement of the policies with this effect is applicable. *)
Definition has_effect (request : AuthorizationRequest) (e : PolicyEffect)
    (ps : list PolicyDocument) : Prop :=
  ∃ p s, p ∈ ps ∧ s ∈ statements p ∧ effect s = e ∧ applies request s = true.

(** A set of policies lets a request pass. *)
Definition passes (request : AuthorizationRequest) (ps : list PolicyDocument) : Prop :=
  has_effect request Allow ps ∧ ¬ has_effect request Deny ps.

Definition all_valid (ps : list PolicyDocument) : Prop :=
  Forall (λ p, PolicyDocument_validate p = Ok ()) ps.

(** ** Lemmas *)

Lemma authorize_statement_flags request f s :
  authorize_statement request f s =
  (f.1 || (applies request s && bool_decide (effect s = Allow)),
   f.2 || (applies request s && bool_decide (effect s = Deny))).
Proof.
  unfold authorize_statement, applies. destruct f as [a d]; simpl.
  destruct (action_matches s request), (resource_matches s request),
    (conditions_match s request), (effect s); simpl; by rewrite ?orb_false_r, ?orb_true_r.
Qed.

Lemma fold_statements_flags request ss f :
  fold_left (authorize_statement request) ss f =
  (f.1 || existsb (λ s, applies request s && bool_decide (effect s = Allow)) ss,
   f.2 || existsb (λ s, applies request s && bool_decide (effect s = Deny)) ss).
Proof.
  revert f. induction ss as [|s ss IH]; intros f; simpl.
  - destruct f. by rewrite !orb_false_r.
  - rewrite IH, authorize_statement_flags; simpl. by rewrite !orb_assoc.
Qed.

(** The flags of one effect over a list of policies. *)
Definition effect_flag (request : AuthorizationRequest) (e : PolicyEffect)
    (ps : list PolicyDocument) : bool :=
  existsb (λ p, existsb (λ s, applies request s && bool_decide (effect s = e)) (statements p)) ps.

Lemma effect_flag_spec request e ps : effect_flag request e ps = true ↔ has_effect request e ps.
Proof.
  unfold effect_flag, has_effect. rewrite existsb_true. split.
  - intros (p & Hp & (s & Hs & Hb)%existsb_true). exists p, s.
    apply andb_true_iff in Hb as [? ?%bool_decide_true_iff]. auto.
  - intros (p & s & Hp & Hs & He & Ha). exists p. split; [done|].
    apply existsb_true. exists s. split; [done|].
    apply andb_true_iff. split; [done | by apply bool_decide_true_iff].
Qed.

Lemma effect_flag_false request e ps :
  effect_flag request e ps = false ↔ ¬ has_effect request e ps.
Proof. rewrite <- effect_flag_spec. by destruct (effect_flag request e ps). Qed.

Lemma fold_policies_flags request ps f r :
  fold_result (authorize_policy request) f ps = Ok r ↔
  all_valid ps ∧
  r = (f.1 || effect_flag request Allow ps, f.2 || effect_flag request Deny ps).
Proof.
  revert f. induction ps as [|p ps IH]; intros f; simpl.
  - unfold all_valid. destruct f; simpl. rewrite !orb_false_r, Forall_nil. naive_solver.
  - rewrite bind_ok. unfold all_valid. rewrite Forall_cons. unfold authorize_policy. split.
    + intros (f' & ([] & Hv & [= <-])%bind_ok & (Hps & ->)%IH).
      rewrite fold_statements_flags; simpl. by rewrite !orb_assoc.
    + intros [[Hv Hps] ->]. eexists. split; [apply bind_ok; eauto|].
      apply IH. split; [done|]. rewrite fold_statements_flags; simpl. by rewrite !orb_assoc.
Qed.

Lemma fold_policies_err request ps f e :
  fold_result (authorize_policy request) f ps = Err e → ¬ all_valid ps.
Proof.
  intros He Hv. pose proof (proj2 (fold_policies_flags request ps f _) (conj Hv eq_refl)).
  congruence.
Qed.

Definition same_organization (request : AuthorizationRequest) : Prop :=
  principal_organization_id request = resource_organization_id request.

(** [authorize] within one organization. *)
Lemma authorize_same request ps e :
  same_organization request →
  authorize request ps = Ok e ↔
  all_valid ps ∧
  e = {| decision := decide_request true (effect_flag request Allow ps) (effect_flag request Deny ps);
         applicable_allow := effect_flag request Allow ps;
         applicable_deny := effect_flag request Deny ps;
         reason := if effect_flag request Deny ps then "explicit_deny"
                   else if effect_flag request Allow ps then "explicit_allow"
                   else "default_deny" |}.
Proof.
  intros Hs. unfold authorize. rewrite bool_decide_true by done. simpl.
  rewrite bind_ok. split.
  - intros ([a d] & [Hv [= -> ->]]%fold_policies_flags & He). split; [done|].
    simpl in He. by destruct (effect_flag request Deny ps), (effect_flag request Allow ps);
      injection He as <-.
  - intros [Hv ->]. eexists. split; [by apply fold_policies_flags|]. simpl.
    by destruct (effect_flag request Deny ps), (effect_flag request Allow ps).
Qed.

Lemma decide_allow a d : decide_request true a d = Decision.Allow ↔ a = true ∧ d = false.
Proof. destruct a, d; simpl; naive_solver. Qed.

Lemma decide_flags_pass request ps :
  decide_request true (effect_flag request Allow ps) (effect_flag request Deny ps) = Decision.Allow
  ↔ passes request ps.
Proof. by rewrite decide_allow, effect_flag_spec, effect_flag_false. Qed.

Lemma not_allow_deny (d : Decision.t) : d ≠ Decision.Allow ↔ d = Decision.Deny.
Proof. destruct d; naive_solver. Qed.

(** A step of the pipeline that turns [identity] into a final allow: the
    identity was already allowed and the restriction passes. *)
Definition allows (m : result IamError Evaluation) : Prop :=
  ∃ e, m = Ok e ∧ decision e = Decision.Allow.

Lemma authorize_allows request ps :
  same_organization request →
  allows (authorize request ps) ↔ all_valid ps ∧ passes request ps.
Proof.
  intros Hs. unfold allows. setoid_rewrite authorize_same; [|done]. split.
  - intros (e & [Hv ->] & Hd). split; [done | by apply decide_flags_pass].
  - intros [Hv Hp]. eexists. split; [done|]. by apply decide_flags_pass.
Qed.

Lemma administrator_allows request ps administrator :
  same_organization request →
  allows (authorize_with_administrator request ps administrator) ↔
  all_valid ps ∧ (has_effect request Allow ps ∨ administrator = true) ∧
  ¬ has_effect request Deny ps.
Proof.
  intros Hs. unfold allows, authorize_with_administrator. setoid_rewrite bind_ok.
  rewrite <- effect_flag_spec, <- effect_flag_false. split.
  - intros (e & (e0 & [Hv ->]%authorize_same & He) & Hd); [|done]. split; [done|]. simpl in He.
    destruct (effect_flag request Deny ps), (effect_flag request Allow ps), administrator;
      simpl in He; injection He as <-; simpl in Hd; naive_solver.
  - intros (Hv & Ha & Hd).
    pose proof (proj2 (authorize_same request ps _ Hs) (conj Hv eq_refl)) as He. rewrite Hd in He.
    destruct (effect_flag request Allow ps), administrator; simpl in He;
      try (eexists; split; [eexists; split; [exact He | reflexivity] | reflexivity]).
    by destruct Ha.
Qed.

Lemma boundary_allows request identity boundary :
  same_organization request →
  allows (enforce_permissions_boundary request identity boundary) ↔
  decision identity = Decision.Allow ∧
  ∀ b, boundary = Some b → all_valid [b] ∧ passes request [b].
Proof.
  intros Hs. unfold allows, enforce_permissions_boundary. destruct boundary as [b|].
  - case_bool_decide as Hi.
    + split; [intros (e & [= <-] & ?) | intros [? _]]; congruence.
    + destruct (decision identity) eqn:Ed; [|done].
      setoid_rewrite bind_ok. split.
      * intros (e & (e0 & Ha & He) & Hd). case_bool_decide as H0; simplify_eq/=.
        split; [done|]. intros ? [= <-]. apply authorize_allows; [done|].
        exists e0. split; [done|]. by destruct (decision e0).
      * intros [_ Hb]. destruct (Hb b eq_refl) as [Hv Hp].
        destruct (proj2 (authorize_allows request [b] Hs)) as (e0 & He0 & Hd0); [done|].
        exists identity. split; [|done]. exists e0. split; [done|].
        rewrite bool_decide_false by congruence. done.
  - split; [intros (e & [= <-] & Hd) | intros [Hd _]]; [|eauto].
    split; [done|]. by intros.
Qed.

Lemma scp_levels_pass request identity no_allow levels :
  same_organization request →
  scp_levels request identity no_allow levels = Ok (inr false) ↔
  no_allow = false ∧ ∀ l, l ∈ levels → all_valid l ∧ passes request l.
Proof.
  intros Hs. revert no_allow. induction levels as [|l levels IH]; intros no_allow; simpl.
  - split; [intros [= <-]; split; [done|]; intros ? []%not_elem_of_nil | by intros [-> _]].
  - rewrite bind_ok. setoid_rewrite elem_of_cons. split.
    + intros (e & He & Hr). destruct (applicable_deny e) eqn:Ed; [done|].
      apply IH in Hr as [Hn Hl]. apply orb_false_iff in Hn as [-> Hd%bool_decide_false_iff].
      split; [done|]. intros l' [->|Hin]; [|by apply Hl].
      apply authorize_allows; [done|]. exists e. split; [done|]. by destruct (decision e).
    + intros [-> Hl]. destruct (Hl l (or_introl eq_refl)) as [Hv Hp].
      destruct (proj2 (authorize_allows request l Hs)) as (e & He & Hd); [done|].
      exists e. split; [done|]. pose proof He as [_ ->]%authorize_same; [|done]. simpl in *.
      destruct Hp as [_ Hnd]. apply effect_flag_false in Hnd. rewrite Hnd in *.
      rewrite Hd. simpl. apply IH. auto.
Qed.

Lemma scp_levels_inl request identity no_allow levels e :
  scp_levels request identity no_allow levels = Ok (inl e) → decision e = Decision.Deny.
Proof.
  revert no_allow. induction levels as [|l levels IH]; intros no_allow; simpl; [done|].
  intros (e0 & _ & Hr)%bind_ok. destruct (applicable_deny e0); [by injection Hr as <- | eauto].
Qed.

Lemma scp_allows request identity levels :
  same_organization request →
  allows (enforce_service_control_policies request identity levels) ↔
  decision identity = Decision.Allow ∧
  ∀ l, l ∈ levels → all_valid l ∧ passes request l.
Proof.
  intros Hs. unfold allows, enforce_service_control_policies. case_bool_decide as Hi.
  - split; [intros (e & [= <-] & ?) | intros [? _]]; congruence.
  - destruct (decision identity) eqn:Ed; [|done]. setoid_rewrite bind_ok. split.
    + intros (e & (o & Ho & He) & Hd). split; [done|].
      destruct o as [e'|[|]]; simplify_eq/=.
      * apply scp_levels_inl in Ho. congruence.
      * by apply scp_levels_pass in Ho as [_ Ho].
    + intros [_ Hl]. exists identity. split; [|done]. exists (inr false). split; [|done].
      by apply scp_levels_pass.
Qed.

Lemma session_allows request identity session :
  same_organization request →
  allows (enforce_session_policy request identity session) ↔
  decision identity = Decision.Allow ∧
  ∀ b, session = Some b → all_valid [b] ∧ passes request [b].
Proof.
  intros Hs. rewrite <- boundary_allows by done.
  unfold allows, enforce_session_policy. case_bool_decide as Hi.
  - unfold enforce_permissions_boundary. rewrite Hi. rewrite bool_decide_true by done.
    by destruct session.
  - setoid_rewrite bind_ok. split.
    + intros (e & (e0 & He & [= <-]) & Hd). eauto.
    + intros (e & He & Hd). eexists. split; [eauto|]. done.
Qed.

(** A restriction that keeps an allow exactly when [Q] holds composes with
    what precedes it. *)
Lemma allows_bind m (f : Evaluation → result IamError Evaluation) (Q : Prop) :
  (∀ e, allows (f e) ↔ decision e = Decision.Allow ∧ Q) →
  allows (m ≫= f) ↔ allows m ∧ Q.
Proof.
  intros Hf. unfold allows at 1. setoid_rewrite bind_ok. split.
  - intros (e & (e0 & Hm & He) & Hd).
    destruct (proj1 (Hf e0) (ex_intro _ e (conj He Hd))) as [? ?]. split; [exists e0; auto | done].
  - intros [(e0 & Hm & Hd) HQ]. destruct (proj2 (Hf e0) (conj Hd HQ)) as (e & He & Hd').
    exists e. eauto.
Qed.

End Evaluation.

(** ** Order of policies *)

Section Order.
Context `{Chrono}.

Lemma effect_flag_permutation request e ps qs :
  ps ≡ₚ qs → effect_flag request e ps = effect_flag request e qs.
Proof.
  intros Hp. apply eq_true_iff_eq. rewrite !effect_flag_spec. unfold has_effect.
  by setoid_rewrite Hp.
Qed.

#[export] Instance all_valid_permutation : Proper ((≡ₚ) ==> iff) all_valid.
Proof. intros ps qs Hp. unfold all_valid. by rewrite Hp. Qed.

(** Every reason that goes with an allow, and no other. *)
Definition allow_reasons : list string :=
  ["explicit_allow"; "administrator_allow"; "self_service_allow"].

Definition reason_consistent (e : Evaluation) : Prop :=
  decision e = Decision.Allow ↔ reason e ∈ allow_reasons.

Lemma not_in_allow_reasons r :
  existsb (String.eqb r) allow_reasons = false → r ∉ allow_reasons.
Proof.
  rewrite existsb_false. intros Hr Hin. specialize (Hr r Hin). by rewrite String.eqb_refl in Hr.
Qed.

Lemma in_allow_reasons r : existsb (String.eqb r) allow_reasons = true → r ∈ allow_reasons.
Proof. rewrite existsb_true. intros (x & ? & <-%String.eqb_eq). done. Qed.

Lemma deny_consistent a d r :
  existsb (String.eqb r) allow_reasons = false →
  reason_consistent {| decision := Decision.Deny; applicable_allow := a;
                       applicable_deny := d; reason := r |}.
Proof. intros Hr%not_in_allow_reasons. split; [done | by intros ?]. Qed.

Lemma allow_consistent a d r :
  existsb (String.eqb r) allow_reasons = true →
  reason_consistent {| decision := Decision.Allow; applicable_allow := a;
                       applicable_deny := d; reason := r |}.
Proof. intros Hr%in_allow_reasons. by split. Qed.

Lemma authorize_consistent request ps e : authorize request ps = Ok e → reason_consistent e.
Proof.
  unfold authorize. destruct (bool_decide _); simpl.
  - intros ([a d] & _ & He)%bind_ok.
    by destruct d, a; injection He as <-; [apply deny_consistent..|apply allow_consistent|apply deny_consistent].
  - intros [= <-]. by apply deny_consistent.
Qed.

Lemma administrator_consistent request ps b e :
  authorize_with_administrator request ps b = Ok e → reason_consistent e.
Proof.
  unfold authorize_with_administrator. intros (e0 & H0 & He)%bind_ok.
  destruct (_ && _); injection He as <-; [by apply allow_consistent | by eapply authorize_consistent].
Qed.

Lemma boundary_consistent request identity b e :
  reason_consistent identity →
  enforce_permissions_boundary request identity b = Ok e → reason_consistent e.
Proof.
  unfold enforce_permissions_boundary. intros Hi. destruct b as [b|]; [|by intros [= <-]].
  destruct (bool_decide _); [by intros [= <-]|].
  intros (e0 & _ & He)%bind_ok. destruct (bool_decide _); injection He as <-; [|done].
  destruct (applicable_deny e0); by apply deny_consistent.
Qed.

Lemma scp_consistent request identity levels e :
  reason_consistent identity →
  enforce_service_control_policies request identity levels = Ok e → reason_consistent e.
Proof.
  unfold enforce_service_control_policies. intros Hi.
  destruct (bool_decide _); [by intros [= <-]|].
  intros (o & Ho & He)%bind_ok.
  destruct o as [e'|[|]]; injection He as <-; [|by apply deny_consistent | done].
  clear Hi. revert Ho. generalize false at 1.
  induction levels as [|l levels IH]; intros no_allow; simpl; [done|].
  intros (e0 & _ & Hr)%bind_ok.
  destruct (applicable_deny e0); [injection Hr as <-; by apply deny_consistent | eauto].
Qed.

Lemma session_consistent request identity b e :
  reason_consistent identity →
  enforce_session_policy request identity b = Ok e → reason_consistent e.
Proof.
  unfold enforce_session_policy. intros Hi.
  destruct (bool_decide _) eqn:Ed; [by intros [= <-]|].
  intros (e0 & H0 & [= <-])%bind_ok. apply boundary_consistent in H0 as Hc; [|done].
  unfold session_reason. destruct e0 as [d a dd r]; simpl in *.
  destruct (String.eqb_spec r "permissions_boundary_explicit_deny") as [->|];
    [|destruct (String.eqb_spec r "permissions_boundary_no_allow") as [->|]; [|done]].
  all: destruct d; [destruct Hc as [Hc _]; specialize (Hc eq_refl);
                    by apply not_in_allow_reasons in Hc | by apply deny_consistent].
Qed.

Lemma self_service_decision b c e : decision (self_service_reason b c e) = decision e.
Proof. unfold self_service_reason. by destruct (_ && _). Qed.

Lemma self_service_consistent b c e :
  reason_consistent e → reason_consistent (self_service_reason b c e).
Proof.
  unfold self_service_reason. destruct (_ && _) eqn:Hb; [|done]. intros Hc.
  apply andb_true_iff in Hb as [_ Hr%String.eqb_eq].
  destruct e as [[] ? ? r]; simpl in *; subst; [by apply allow_consistent|].
  destruct Hc as [_ Hc]. simpl in Hc. exfalso. discriminate Hc. by apply in_allow_reasons.
Qed.

End Order.

(** ** Properties *)

Section Properties.
Context `{Chrono}.

Lemma evaluate_actor_allows context levels session org act res implicit at_ :
  let request := {| principal_organization_id := org; resource_organization_id := org;
                    action := act; resource := res; evaluated_at := at_ |} in
  allows (evaluate_actor context levels session org act res implicit at_) ↔
  all_valid (policies context) ∧
  (has_effect request Allow (policies context) ∨ implicit = true ∨ is_administrator context = true) ∧
  ¬ has_effect request Deny (policies context) ∧
  (∀ b, permissions_boundary context = Some b → all_valid [b] ∧ passes request [b]) ∧
  (∀ l, l ∈ levels → all_valid l ∧ passes request l) ∧
  (∀ b, session = Some b → all_valid [b] ∧ passes request [b]).
Proof.
  intros request. assert (Hs : same_organization request) by done.
  unfold evaluate_actor, evaluate_account_permissions. fold request.
  rewrite allows_bind by (intros e; by apply session_allows).
  rewrite allows_bind.
  2: { intros e. rewrite allows_bind by (intros e'; by apply scp_allows).
       rewrite boundary_allows, self_service_decision by done. symmetry. refine (and_assoc _ _ _). }
  rewrite administrator_allows, orb_true_iff by done. tauto.
Qed.

(** C1: Access is granted exactly when every document consulted is valid, the
    identity policies allow the action or the caller is an administrator or
    self-service applies, and no layer (identity, permissions boundary, each
    service control level, session policy) denies it while each restricting
    layer allows it. *)
Theorem access_granted_iff context levels session org act res implicit at_ :
  let request := {| principal_organization_id := org; resource_organization_id := org;
                    action := act; resource := res; evaluated_at := at_ |} in
  (∃ e, evaluate_actor context levels session org act res implicit at_ = Ok e ∧
        decision e = Decision.Allow) ↔
  all_valid (policies context) ∧
  (has_effect request Allow (policies context) ∨ implicit = true ∨ is_administrator context = true) ∧
  ¬ has_effect request Deny (policies context) ∧
  (∀ b, permissions_boundary context = Some b → all_valid [b] ∧ passes request [b]) ∧
  (∀ l, l ∈ levels → all_valid l ∧ passes request l) ∧
  (∀ b, session = Some b → all_valid [b] ∧ passes request [b]).
Proof. apply evaluate_actor_allows. Qed.

(** The audit reason of an evaluation tells the decision: it is one of the
    three allow reasons exactly when the decision is to allow. *)
Lemma audit_reason_matches_decision context levels session org act res implicit at_ e :
  evaluate_actor context levels session org act res implicit at_ = Ok e →
  decision e = Decision.Allow ↔ reason e ∈ allow_reasons.
Proof.
  unfold evaluate_actor, evaluate_account_permissions.
  intros (e3 & (e1 & H1 & (e2 & H2 & H3)%bind_ok)%bind_ok & H4)%bind_ok.
  eapply session_consistent; [|exact H4]. eapply scp_consistent; [|exact H3].
  eapply boundary_consistent; [|exact H2].
  by eapply self_service_consistent, administrator_consistent.
Qed.

(** The result of [authorize] does not depend on the order of the policies. *)
Lemma authorize_order_independent request ps qs e :
  ps ≡ₚ qs → authorize request ps = Ok e → authorize request qs = Ok e.
Proof.
  intros Hp. destruct (decide (same_organization request)) as [Hs|Hs].
  - rewrite !authorize_same by done. intros [Hv ->].
    rewrite !(effect_flag_permutation _ _ _ _ Hp). split; [by rewrite <- Hp | done].
  - unfold authorize. by rewrite bool_decide_false.
Qed.

(** A request across organizations is denied whatever the policies are, even
    if they are invalid. *)
Lemma cross_organization_denied request ps administrator :
  principal_organization_id request ≠ resource_organization_id request →
  ∃ e, authorize_with_administrator request ps administrator = Ok e ∧
       decision e = Decision.Deny ∧ reason e = "cross_organization".
Proof.
  intros Hne. unfold authorize_with_administrator, authorize.
  rewrite bool_decide_false by done. simpl. rewrite andb_false_r. eauto.
Qed.

(** Evaluation fails closed: within an organization, evaluating the
    policies of an identity returns an error exactly when one of them does not
    pass validation, administrators included; it never skips a broken document. *)
Lemma evaluation_error_iff request ps administrator :
  same_organization request →
  (∃ err, authorize_with_administrator request ps administrator = Err err) ↔ ¬ all_valid ps.
Proof.
  intros Hs. unfold authorize_with_administrator. split.
  - intros (err & [He|(e & _ & He)]%bind_err); [|by case_match].
    intros Hv. pose proof (proj2 (authorize_same request ps _ Hs) (conj Hv eq_refl)). congruence.
  - intros Hv. destruct (authorize request ps) as [e|err] eqn:He; [|by exists err].
    by apply authorize_same in He as [? _].
Qed.

(** The meaning of the condition operators on instants. *)
Definition operator_holds (operator : string) (at_ date : DateTime) : Prop :=
  (operator = "DateEquals" ∧ at_ = date) ∨
  (operator = "DateLessThan" ∧ at_ < date) ∨
  (operator = "DateLessThanEquals" ∧ at_ ≤ date) ∨
  (operator = "DateGreaterThan" ∧ date < at_) ∨
  (operator = "DateGreaterThanEquals" ∧ date ≤ at_).

(** One operator with its values holds at an instant. *)
Definition condition_holds (operator : string) (values : list string) (at_ : DateTime) : Prop :=
  (operator ≠ "DateNotEquals" ∧
   ∃ v date, v ∈ values ∧ parse_iam_condition_date v = Some date ∧ operator_holds operator at_ date) ∨
  (operator = "DateNotEquals" ∧
   ∀ v date, v ∈ values → parse_iam_condition_date v = Some date → at_ ≠ date).

(** An element with its negation: some pattern matches, or, for the negated
    form, none does. *)
Definition selects (m : string → Prop) (positive negative : list string) : Prop :=
  (negative = [] ∧ ∃ p, p ∈ positive ∧ m p) ∨ (negative ≠ [] ∧ ∀ p, p ∈ negative → ¬ m p).

Lemma selects_spec (f : string → bool) (m : string → Prop) positive negative :
  (∀ p, f p = true ↔ m p) →
  (if is_nil negative then existsb f positive else negb (existsb f negative)) = true ↔
  selects m positive negative.
Proof.
  intros Hf. unfold selects. destruct negative as [|n ns]; simpl.
  - rewrite existsb_true. setoid_rewrite Hf. naive_solver.
  - change (f n || existsb f ns) with (existsb f (n :: ns)).
    rewrite negb_true_iff, existsb_false. split.
    + intros Hn. right. split; [done|]. intros p Hp Hm%Hf. rewrite Hn in Hm; done.
    + intros [[? _]|[_ Hn]]; [done|]. intros p Hp. specialize (Hn p Hp).
      rewrite <- Hf in Hn. by destruct (f p).
Qed.

Lemma condition_value_matches_spec operator at_ v :
  is_condition_operator operator = true → operator ≠ "DateNotEquals" →
  condition_value_matches operator at_ v = true ↔
  ∃ date, parse_iam_condition_date v = Some date ∧ operator_holds operator at_ date.
Proof.
  intros Hop Hne. unfold condition_value_matches, operator_holds.
  destruct (parse_iam_condition_date v) as [date|]; simpl; [|naive_solver].
  unfold is_condition_operator in Hop. apply existsb_true in Hop as (o & Ho & <-%String.eqb_eq).
  repeat (apply elem_of_cons in Ho as [->|Ho]); [..|by apply not_elem_of_nil in Ho];
    try done; simpl; rewrite ?Z.eqb_eq, ?Z.ltb_lt, ?Z.leb_le; naive_solver.
Qed.

Lemma condition_not_equals_spec at_ v :
  negb (condition_value_matches "DateNotEquals" at_ v) = true ↔
  ∀ date, parse_iam_condition_date v = Some date → at_ ≠ date.
Proof.
  unfold condition_value_matches.
  destruct (parse_iam_condition_date v) as [date|]; simpl; [|naive_solver].
  rewrite negb_true_iff, Z.eqb_neq. naive_solver.
Qed.

Lemma conditions_match_spec s request :
  statement_wf s →
  conditions_match s request = true ↔
  ∀ operator keys key values, (operator, keys) ∈ conditions s → (key, values) ∈ keys →
    condition_holds operator values (evaluated_at request).
Proof.
  intros Hwf. unfold conditions_match. rewrite forallb_true.
  assert (Hone : ∀ operator keys values, (operator, keys) ∈ conditions s →
    (if String.eqb operator "DateNotEquals" then
        forallb (λ v, negb (condition_value_matches operator (evaluated_at request) v)) values
      else existsb (condition_value_matches operator (evaluated_at request)) values) = true ↔
    condition_holds operator values (evaluated_at request)).
  { intros operator keys values Hc.
    apply (swf_conditions _ Hwf) in Hc as [Hop _].
    unfold condition_holds. destruct (String.eqb_spec operator "DateNotEquals") as [->|Hne].
    - rewrite forallb_true. setoid_rewrite condition_not_equals_spec. naive_solver.
    - rewrite existsb_true. setoid_rewrite condition_value_matches_spec; [naive_solver|done..]. }
  split.
  - intros Hall operator keys key values Hc Hk. specialize (Hall _ Hc). simpl in Hall.
    rewrite forallb_true in Hall. specialize (Hall _ Hk). simpl in Hall. by eapply Hone.
  - intros Hall [operator keys] Hc. apply forallb_true. intros [key values] Hk.
    eapply Hone; eauto.
Qed.

(** When a valid statement is applicable: on a request whose action and
    resource contain no asterisk, the statement applies exactly when its
    action element and its resource element select them (wildcards in the
    glob sense, actions without regard to case, NotAction and NotResource by
    exclusion) and each of its date conditions holds at the instant of the
    evaluation. *)
Lemma applies_meaning request s :
  statement_wf s →
  STAR ∉ chars (to_ascii_lowercase (action request)) → STAR ∉ chars (resource request) →
  applies request s = true ↔
  selects (λ p, glob (chars (to_ascii_lowercase p)) (chars (to_ascii_lowercase (action request))))
    (actions s) (not_actions s) ∧
  selects (λ p, glob (chars p) (chars (resource request))) (resources s) (not_resources s) ∧
  ∀ operator keys key values, (operator, keys) ∈ conditions s → (key, values) ∈ keys →
    condition_holds operator values (evaluated_at request).
Proof.
  intros Hwf Hact Hres. unfold applies. rewrite !andb_true_iff, conditions_match_spec by done.
  unfold action_matches, resource_matches.
  rewrite !selects_spec; [symmetry; refine (and_assoc _ _ _)|..];
    intros p; apply chars_match_glob; by intros c Hc ->.
Qed.

End Properties.

(** The Rust decision function is the function the repository proves correct
    in Lean. *)
Lemma decide_matches_lean same allow deny :
  decide_request same allow deny = lean_authorize same allow deny.
Proof. by destruct same, allow, deny. Qed.

(** ** Witnesses *)

Definition witness_request : AuthorizationRequest := {|
  principal_organization_id := 1%N; resource_organization_id := 1%N;
  action := "project:read"; resource := "hc:org:1:project/demo";
  evaluated_at := 1600000000 * NANOS_PER_SECOND |}.

Definition witness_context : AuthorizationContext := {|
  context_principal_id := 7%N; role := "member"; policies := [witness_policy];
  permissions_boundary := None |}.

