(* ===== verification/RoleTrust.v ===== *)
(** * Role trust policies

    [heterocloud-iam/src/role_trust.rs]: which callers may assume a role. *)
From S2P Require Import Prelude Text Glob Json Policy.

(** ** Data *)

(** [OneOrMany::items]. *)
Definition items {T} (x : OneOrMany T) : list T :=
  match x with One item => [item] | Many items => items end.

Inductive TrustPrincipal :=
| Wildcard (value : string)
| Accounts (aws : OneOrMany string).

Record TrustStatement := {
  trust_sid : option string;
  trust_effect : PolicyEffect;
  trust_action : OneOrMany string;
  trust_principal : TrustPrincipal;
}.

Record RoleTrustDocument := {
  trust_version : option string;
  trust_statements : OneOrMany TrustStatement;
}.

Inductive RoleTrustError :=
| Invalid (message : string).

(** ** Operations *)

Definition is_account_number (s : string) : bool :=
  (len s =? 12) && forallb is_ascii_digit (bytes s).

Definition is_principal_name_byte (b : Z) : bool :=
  is_ascii_alphanumeric b || existsb (Z.eqb b) (bytes "+=,.@_-/").

Definition valid_principal (value : string) : bool :=
  if String.eqb value "*" then true
  else if is_account_number value then true
  else match strip_prefix "arn:aws:iam::" value with
       | None => false
       | Some rest =>
           match split_once COLON rest with
           | None => false
           | Some (account, path) =>
               if negb (is_account_number account) then false
               else if String.eqb path "root" then true
               else match (match strip_prefix "user/" path with
                           | Some name => Some name
                           | None => strip_prefix "role/" path
                           end) with
                    | None => false
                    | Some name =>
                        negb (is_empty name) && (len name <=? 256)
                        && forallb is_principal_name_byte (bytes name)
                    end
           end
       end.

Definition invalid_trust_action (action : string) : bool :=
  is_empty action || (128 <? len action) || existsb is_whitespace (chars action).

Definition validate_trust_statement (statement : TrustStatement) : result RoleTrustError () :=
  let acts := items (trust_action statement) in
  fail_if (is_nil acts || (128 <? Z.of_nat (length acts)) || existsb invalid_trust_action acts)
    (Invalid "invalid Action") ;;
  match trust_principal statement with
  | Wildcard value =>
      if String.eqb value "*" then Ok () else Err (Invalid "Principal string must be *")
  | Accounts aws =>
      let principals := items aws in
      fail_if (is_nil principals || (128 <? Z.of_nat (length principals))
               || existsb (λ p, negb (valid_principal p)) principals)
        (Invalid "unsupported AWS Principal")
  end.

(** [RoleTrustDocument::validate]. *)
Definition RoleTrustDocument_validate (d : RoleTrustDocument) : result RoleTrustError () :=
  fail_if (is_some_and (λ v, negb (String.eqb v "2012-10-17") && negb (String.eqb v "2008-10-17"))
             (trust_version d))
    (Invalid "unsupported Version") ;;
  fail_if (is_nil (items (trust_statements d))
           || (128 <? Z.of_nat (length (items (trust_statements d)))))
    (Invalid "expected 1..128 statements") ;;
  for_each validate_trust_statement (items (trust_statements d)).

Definition principal_matches (caller_account caller_arn : string) (p : TrustPrincipal) : bool :=
  match p with
  | Wildcard value => String.eqb value "*"
  | Accounts aws =>
      existsb (λ value,
        String.eqb value "*" || String.eqb value caller_arn || String.eqb value caller_account
        || String.eqb value ("arn:aws:iam::" +:+ caller_account +:+ ":root")) (items aws)
  end.

Definition assume_role_action (statement : TrustStatement) : bool :=
  existsb (λ a, action_pattern_matches a "sts:AssumeRole") (items (trust_action statement)).

Fixpoint permits_loop (caller_account caller_arn : string) (allowed : bool)
    (l : list TrustStatement) : bool :=
  match l with
  | [] => allowed
  | statement :: l =>
      if negb (assume_role_action statement) then permits_loop caller_account caller_arn allowed l
      else if principal_matches caller_account caller_arn (trust_principal statement) then
        match trust_effect statement with
        | Deny => false
        | Allow => permits_loop caller_account caller_arn true l
        end
      else permits_loop caller_account caller_arn allowed l
  end.

(** [RoleTrustDocument::permits]. *)
Definition permits (d : RoleTrustDocument) (caller_account caller_arn : string)
    : result RoleTrustError bool :=
  RoleTrustDocument_validate d ;;
  Ok (permits_loop caller_account caller_arn false (items (trust_statements d))).

(** ** Lemmas *)

(** A statement speaks about this caller and about assuming the role. *)
Definition trust_applies (account arn : string) (s : TrustStatement) : bool :=
  assume_role_action s && principal_matches account arn (trust_principal s).

(** Some statement with this effect speaks about this caller. *)
Definition trust_flag (account arn : string) (e : PolicyEffect) (l : list TrustStatement) : bool :=
  existsb (λ s, trust_applies account arn s && bool_decide (trust_effect s = e)) l.

Lemma permits_loop_flags account arn allowed l :
  permits_loop account arn allowed l =
  (allowed || trust_flag account arn Allow l) && negb (trust_flag account arn Deny l).
Proof.
  revert allowed. induction l as [|s l IH]; intros allowed; simpl.
  - by rewrite orb_false_r, andb_true_r.
  - unfold trust_applies at 1 2. rewrite !IH.
    destruct (assume_role_action s), (principal_matches account arn (trust_principal s)),
      (trust_effect s); simpl; by rewrite ?orb_true_r, ?andb_false_r.
Qed.

Lemma trust_flag_true account arn e l :
  trust_flag account arn e l = true ↔
  ∃ s, s ∈ l ∧ trust_effect s = e ∧ trust_applies account arn s = true.
Proof.
  unfold trust_flag. rewrite existsb_true.
  split.
  - intros (s & ? & [? ?%bool_decide_true_iff]%andb_true_iff). eauto.
  - intros (s & ? & ? & ?). exists s. split; [done|].
    apply andb_true_iff. split; [done | by apply bool_decide_true_iff].
Qed.

Lemma trust_flag_false account arn e l :
  trust_flag account arn e l = false ↔
  ∀ s, s ∈ l → trust_effect s = e → trust_applies account arn s = false.
Proof.
  unfold trust_flag. rewrite existsb_false. split; intros Hl s Hs.
  - intros He. specialize (Hl s Hs). by rewrite bool_decide_true, andb_true_r in Hl.
  - specialize (Hl s Hs). case_bool_decide as He; [by rewrite Hl | apply andb_false_r].
Qed.

Lemma no_star_forallb (f : Z → bool) s :
  forallb f (bytes s) = true → f STAR = false → ∀ c, c ∈ bytes s → c ≠ STAR.
Proof. intros Hs Hf c Hc ->. rewrite forallb_true in Hs. specialize (Hs _ Hc). congruence. Qed.

(** A principal that validation accepts has no wildcard inside it. *)
Lemma valid_principal_no_wildcard v :
  valid_principal v = true → v = "*" ∨ contains_byte STAR v = false.
Proof.
  unfold valid_principal. destruct (String.eqb_spec v "*") as [->|_]; [by left|].
  intros Hv. right. apply contains_byte_false. destruct (is_account_number v) eqn:En.
  { apply andb_true_iff in En as [_ En]. by apply (no_star_forallb is_ascii_digit). }
  destruct (strip_prefix _ v) as [rest|] eqn:Es; [|done]. apply strip_prefix_spec in Es as ->.
  destruct (split_once COLON rest) as [[account path]|] eqn:Eo; [|done].
  apply split_once_spec in Eo. rewrite bytes_app, Eo.
  destruct (is_account_number account) eqn:Ea; [|done]. cbn [negb] in Hv.
  apply andb_true_iff in Ea as [_ Ea].
  assert (Hpath : ∀ c, c ∈ bytes path → c ≠ STAR).
  { destruct (String.eqb_spec path "root") as [->|_].
    - intros c Hc. vm_compute in Hc. set_solver.
    - assert (∃ pre name, (pre = "user/" ∨ pre = "role/") ∧ path = pre +:+ name ∧
                forallb is_principal_name_byte (bytes name) = true) as (pre & name & Hpre & -> & Hn).
      { destruct (strip_prefix "user/" path) as [name|] eqn:E1.
        - apply andb_true_iff in Hv as [_ Hv]. apply strip_prefix_spec in E1.
          exists "user/", name. auto.
        - destruct (strip_prefix "role/" path) as [name|] eqn:E2; [|done].
          apply andb_true_iff in Hv as [_ Hv]. apply strip_prefix_spec in E2.
          exists "role/", name. auto. }
      rewrite bytes_app. intros c [Hc|Hc]%elem_of_app; [|by apply (no_star_forallb is_principal_name_byte name)].
      destruct Hpre as [->| ->]; vm_compute in Hc; set_solver. }
  intros c. rewrite !elem_of_app, elem_of_cons. intros [Hc|[Hc|[->|Hc]]].
  - vm_compute in Hc. set_solver.
  - by apply (no_star_forallb is_ascii_digit account).
  - done.
  - by apply Hpath.
Qed.

(** ** Properties *)

(** A role trust policy lets a caller assume the role exactly when the
    document is valid, some Allow statement names the action and the caller,
    and no Deny statement does, wherever it stands in the document. *)
Lemma permits_iff d account arn :
  permits d account arn = Ok true ↔
  RoleTrustDocument_validate d = Ok () ∧
  (∃ s, s ∈ items (trust_statements d) ∧ trust_effect s = Allow ∧
        trust_applies account arn s = true) ∧
  (∀ s, s ∈ items (trust_statements d) → trust_effect s = Deny →
        trust_applies account arn s = false).
Proof.
  unfold permits. rewrite bind_ok. split.
  - intros ([] & Hv & Hp). injection Hp as Hp.
    rewrite permits_loop_flags in Hp; simpl in Hp.
    rewrite andb_true_iff, negb_true_iff, trust_flag_true, trust_flag_false in Hp.
    naive_solver.
  - intros (Hv & Ha%trust_flag_true & Hd%trust_flag_false). exists tt. split; [done|].
    by rewrite permits_loop_flags, Ha, Hd.
Qed.

(** A trust policy that validation accepts names its principals in full: each
    account principal is the single asterisk or contains none. *)
Lemma trust_principals_not_partial d s aws p :
  RoleTrustDocument_validate d = Ok () → s ∈ items (trust_statements d) →
  trust_principal s = Accounts aws → p ∈ items aws → p = "*" ∨ contains_byte STAR p = false.
Proof.
  unfold RoleTrustDocument_validate. intros Hv Hs Hp Hin. inv_ok Hv.
  rewrite Forall_forall in Hv. specialize (Hv _ Hs). unfold validate_trust_statement in Hv.
  apply bind_ok in Hv as ([] & _ & Hv). rewrite Hp, fail_if_ok, !orb_false_iff in Hv.
  destruct Hv as [_ Hv]. rewrite existsb_false in Hv. specialize (Hv _ Hin).
  apply valid_principal_no_wildcard. by apply negb_false_iff.
Qed.

Definition witness_trust : RoleTrustDocument := {|
  trust_version := Some "2012-10-17";
  trust_statements := Many [{|
    trust_sid := None; trust_effect := Allow; trust_action := One "sts:AssumeRole";
    trust_principal := Accounts (One "arn:aws:iam::111111111111:root") |}] |}.

