(* ===== verification/Quota.v ===== *)
(** * Resource quotas

    The quota limits of [heterocloud-domain/src/lib.rs] with their validation,
    and the capping of a member's limits by those of the organization
    ([capped_limits] of [heterocloud-store/src/organizations.rs]), which walks
    the JSON form of the two records. *)
From S2P Require Import Prelude Text Json Policy.

(** ** Errors of the store crate *)

Inductive StoreError :=
| AlreadyExists
| Conflict
| Migration
| NotFound
| RequestRejected (message : string)
| Invariant (message : string)
| InvitationUnavailable
| Sql
| JsonError.

#[export] Instance StoreError_eq_dec : EqDecision StoreError.
Proof. solve_decision. Defined.

(** [error.to_string()]: the message of the domain error. *)
Definition domain_message (e : DomainError) : string :=
  match e with
  | InvalidVpcSpec m => "invalid VPC spec: " +:+ m
  | InvalidResourceQuota m => "invalid resource quota: " +:+ m
  | InvalidFlashSpec m => "invalid Flash spec: " +:+ m
  | InvalidSyouyuSpec m => "invalid Syouyu spec: " +:+ m
  | InvalidPolicy m => "invalid policy: " +:+ m
  | UnsupportedPolicyVersion m => "unsupported policy version: " +:+ m
  end.

Definition reject_domain (e : DomainError) : StoreError := RequestRejected (domain_message e).

(** ** Limits

    Each record comes with its JSON form as [serde] derives it (an object with
    the field names of the struct), the ranges of its integer types, and the
    field by field minimum and order used to specify capping. *)

Module FlowQuotaLimits.
Record t := {
  max_services : Z;
  max_rooms_per_service : Z;
  max_total_rooms : Z;
  max_participants_per_service : Z;
  max_rate_limit_requests_per_second : Z;
  max_rate_limit_burst : Z;
  max_developer_credentials_per_service : Z;
}.

Definition to_value (q : t) : Value :=
  Object [
    ("max_services", Num (Int (max_services q)));
    ("max_rooms_per_service", Num (Int (max_rooms_per_service q)));
    ("max_total_rooms", Num (Int (max_total_rooms q)));
    ("max_participants_per_service", Num (Int (max_participants_per_service q)));
    ("max_rate_limit_requests_per_second", Num (Int (max_rate_limit_requests_per_second q)));
    ("max_rate_limit_burst", Num (Int (max_rate_limit_burst q)));
    ("max_developer_credentials_per_service", Num (Int (max_developer_credentials_per_service q)))
  ].

Definition representable (q : t) : Prop :=
  is_u32 (max_services q) ∧
  is_u32 (max_rooms_per_service q) ∧
  is_u64 (max_total_rooms q) ∧
  is_u32 (max_participants_per_service q) ∧
  is_u32 (max_rate_limit_requests_per_second q) ∧
  is_u32 (max_rate_limit_burst q) ∧
  is_u32 (max_developer_credentials_per_service q).

(** Field by field minimum. *)
Definition min (a b : t) : t := {|
  max_services := Z.min (max_services a) (max_services b);
  max_rooms_per_service := Z.min (max_rooms_per_service a) (max_rooms_per_service b);
  max_total_rooms := Z.min (max_total_rooms a) (max_total_rooms b);
  max_participants_per_service := Z.min (max_participants_per_service a) (max_participants_per_service b);
  max_rate_limit_requests_per_second := Z.min (max_rate_limit_requests_per_second a) (max_rate_limit_requests_per_second b);
  max_rate_limit_burst := Z.min (max_rate_limit_burst a) (max_rate_limit_burst b);
  max_developer_credentials_per_service := Z.min (max_developer_credentials_per_service a) (max_developer_credentials_per_service b)
|}.

(** Field by field order. *)
Definition le (a b : t) : Prop :=
  max_services a ≤ max_services b ∧
  max_rooms_per_service a ≤ max_rooms_per_service b ∧
  max_total_rooms a ≤ max_total_rooms b ∧
  max_participants_per_service a ≤ max_participants_per_service b ∧
  max_rate_limit_requests_per_second a ≤ max_rate_limit_requests_per_second b ∧
  max_rate_limit_burst a ≤ max_rate_limit_burst b ∧
  max_developer_credentials_per_service a ≤ max_developer_credentials_per_service b.
End FlowQuotaLimits.

#[export] Instance FlowQuotaLimits_eq_dec : EqDecision FlowQuotaLimits.t.
Proof. solve_decision. Defined.

Module FlashQuotaLimits.
Record t := {
  max_services : Z;
  max_replicas_per_service : Z;
  max_cpu_millis_per_vm : Z;
  max_memory_mib_per_vm : Z;
  max_disk_gib_per_vm : Z;
  max_total_replicas : Z;
  max_total_cpu_millis : Z;
  max_total_memory_mib : Z;
  max_total_disk_gib : Z;
  max_weekly_cpu_millicore_seconds : Z;
  max_weekly_memory_mib_seconds : Z;
  max_weekly_gpu_seconds : Z;
}.

Definition to_value (q : t) : Value :=
  Object [
    ("max_services", Num (Int (max_services q)));
    ("max_replicas_per_service", Num (Int (max_replicas_per_service q)));
    ("max_cpu_millis_per_vm", Num (Int (max_cpu_millis_per_vm q)));
    ("max_memory_mib_per_vm", Num (Int (max_memory_mib_per_vm q)));
    ("max_disk_gib_per_vm", Num (Int (max_disk_gib_per_vm q)));
    ("max_total_replicas", Num (Int (max_total_replicas q)));
    ("max_total_cpu_millis", Num (Int (max_total_cpu_millis q)));
    ("max_total_memory_mib", Num (Int (max_total_memory_mib q)));
    ("max_total_disk_gib", Num (Int (max_total_disk_gib q)));
    ("max_weekly_cpu_millicore_seconds", Num (Int (max_weekly_cpu_millicore_seconds q)));
    ("max_weekly_memory_mib_seconds", Num (Int (max_weekly_memory_mib_seconds q)));
    ("max_weekly_gpu_seconds", Num (Int (max_weekly_gpu_seconds q)))
  ].

Definition representable (q : t) : Prop :=
  is_u32 (max_services q) ∧
  is_u32 (max_replicas_per_service q) ∧
  is_u32 (max_cpu_millis_per_vm q) ∧
  is_u32 (max_memory_mib_per_vm q) ∧
  is_u32 (max_disk_gib_per_vm q) ∧
  is_u64 (max_total_replicas q) ∧
  is_u64 (max_total_cpu_millis q) ∧
  is_u64 (max_total_memory_mib q) ∧
  is_u64 (max_total_disk_gib q) ∧
  is_u64 (max_weekly_cpu_millicore_seconds q) ∧
  is_u64 (max_weekly_memory_mib_seconds q) ∧
  is_u64 (max_weekly_gpu_seconds q).

(** Field by field minimum. *)
Definition min (a b : t) : t := {|
  max_services := Z.min (max_services a) (max_services b);
  max_replicas_per_service := Z.min (max_replicas_per_service a) (max_replicas_per_service b);
  max_cpu_millis_per_vm := Z.min (max_cpu_millis_per_vm a) (max_cpu_millis_per_vm b);
  max_memory_mib_per_vm := Z.min (max_memory_mib_per_vm a) (max_memory_mib_per_vm b);
  max_disk_gib_per_vm := Z.min (max_disk_gib_per_vm a) (max_disk_gib_per_vm b);
  max_total_replicas := Z.min (max_total_replicas a) (max_total_replicas b);
  max_total_cpu_millis := Z.min (max_total_cpu_millis a) (max_total_cpu_millis b);
  max_total_memory_mib := Z.min (max_total_memory_mib a) (max_total_memory_mib b);
  max_total_disk_gib := Z.min (max_total_disk_gib a) (max_total_disk_gib b);
  max_weekly_cpu_millicore_seconds := Z.min (max_weekly_cpu_millicore_seconds a) (max_weekly_cpu_millicore_seconds b);
  max_weekly_memory_mib_seconds := Z.min (max_weekly_memory_mib_seconds a) (max_weekly_memory_mib_seconds b);
  max_weekly_gpu_seconds := Z.min (max_weekly_gpu_seconds a) (max_weekly_gpu_seconds b)
|}.

(** Field by field order. *)
Definition le (a b : t) : Prop :=
  max_services a ≤ max_services b ∧
  max_replicas_per_service a ≤ max_replicas_per_service b ∧
  max_cpu_millis_per_vm a ≤ max_cpu_millis_per_vm b ∧
  max_memory_mib_per_vm a ≤ max_memory_mib_per_vm b ∧
  max_disk_gib_per_vm a ≤ max_disk_gib_per_vm b ∧
  max_total_replicas a ≤ max_total_replicas b ∧
  max_total_cpu_millis a ≤ max_total_cpu_millis b ∧
  max_total_memory_mib a ≤ max_total_memory_mib b ∧
  max_total_disk_gib a ≤ max_total_disk_gib b ∧
  max_weekly_cpu_millicore_seconds a ≤ max_weekly_cpu_millicore_seconds b ∧
  max_weekly_memory_mib_seconds a ≤ max_weekly_memory_mib_seconds b ∧
  max_weekly_gpu_seconds a ≤ max_weekly_gpu_seconds b.
End FlashQuotaLimits.

#[export] Instance FlashQuotaLimits_eq_dec : EqDecision FlashQuotaLimits.t.
Proof. solve_decision. Defined.

Module RegistryQuotaLimits.
Record t := {
  storage_gib : Z;
  max_credentials : Z;
}.

Definition to_value (q : t) : Value :=
  Object [
    ("storage_gib", Num (Int (storage_gib q)));
    ("max_credentials", Num (Int (max_credentials q)))
  ].

Definition representable (q : t) : Prop :=
  is_u32 (storage_gib q) ∧
  is_u32 (max_credentials q).

(** Field by field minimum. *)
Definition min (a b : t) : t := {|
  storage_gib := Z.min (storage_gib a) (storage_gib b);
  max_credentials := Z.min (max_credentials a) (max_credentials b)
|}.

(** Field by field order. *)
Definition le (a b : t) : Prop :=
  storage_gib a ≤ storage_gib b ∧
  max_credentials a ≤ max_credentials b.
End RegistryQuotaLimits.

#[export] Instance RegistryQuotaLimits_eq_dec : EqDecision RegistryQuotaLimits.t.
Proof. solve_decision. Defined.

Module SyouyuQuotaLimits.
Record t := {
  max_buckets : Z;
  max_bytes_per_bucket : Z;
  max_objects_per_bucket : Z;
  max_total_bytes : Z;
  max_credentials_per_bucket : Z;
  max_total_credentials : Z;
}.

Definition to_value (q : t) : Value :=
  Object [
    ("max_buckets", Num (Int (max_buckets q)));
    ("max_bytes_per_bucket", Num (Int (max_bytes_per_bucket q)));
    ("max_objects_per_bucket", Num (Int (max_objects_per_bucket q)));
    ("max_total_bytes", Num (Int (max_total_bytes q)));
    ("max_credentials_per_bucket", Num (Int (max_credentials_per_bucket q)));
    ("max_total_credentials", Num (Int (max_total_credentials q)))
  ].

Definition representable (q : t) : Prop :=
  is_u32 (max_buckets q) ∧
  is_u64 (max_bytes_per_bucket q) ∧
  is_u64 (max_objects_per_bucket q) ∧
  is_u64 (max_total_bytes q) ∧
  is_u32 (max_credentials_per_bucket q) ∧
  is_u32 (max_total_credentials q).

(** Field by field minimum. *)
Definition min (a b : t) : t := {|
  max_buckets := Z.min (max_buckets a) (max_buckets b);
  max_bytes_per_bucket := Z.min (max_bytes_per_bucket a) (max_bytes_per_bucket b);
  max_objects_per_bucket := Z.min (max_objects_per_bucket a) (max_objects_per_bucket b);
  max_total_bytes := Z.min (max_total_bytes a) (max_total_bytes b);
  max_credentials_per_bucket := Z.min (max_credentials_per_bucket a) (max_credentials_per_bucket b);
  max_total_credentials := Z.min (max_total_credentials a) (max_total_credentials b)
|}.

(** Field by field order. *)
Definition le (a b : t) : Prop :=
  max_buckets a ≤ max_buckets b ∧
  max_bytes_per_bucket a ≤ max_bytes_per_bucket b ∧
  max_objects_per_bucket a ≤ max_objects_per_bucket b ∧
  max_total_bytes a ≤ max_total_bytes b ∧
  max_credentials_per_bucket a ≤ max_credentials_per_bucket b ∧
  max_total_credentials a ≤ max_total_credentials b.
End SyouyuQuotaLimits.

#[export] Instance SyouyuQuotaLimits_eq_dec : EqDecision SyouyuQuotaLimits.t.
Proof. solve_decision. Defined.

Module ResourceQuotaLimits.
Record t := {
  flow : FlowQuotaLimits.t;
  flash : FlashQuotaLimits.t;
  registry : RegistryQuotaLimits.t;
  syouyu : SyouyuQuotaLimits.t;
}.

Definition to_value (q : t) : Value :=
  Object [
    ("flow", FlowQuotaLimits.to_value (flow q));
    ("flash", FlashQuotaLimits.to_value (flash q));
    ("registry", RegistryQuotaLimits.to_value (registry q));
    ("syouyu", SyouyuQuotaLimits.to_value (syouyu q))
  ].

Definition representable (q : t) : Prop :=
  FlowQuotaLimits.representable (flow q) ∧ FlashQuotaLimits.representable (flash q) ∧
  RegistryQuotaLimits.representable (registry q) ∧ SyouyuQuotaLimits.representable (syouyu q).

Definition min (a b : t) : t := {|
  flow := FlowQuotaLimits.min (flow a) (flow b);
  flash := FlashQuotaLimits.min (flash a) (flash b);
  registry := RegistryQuotaLimits.min (registry a) (registry b);
  syouyu := SyouyuQuotaLimits.min (syouyu a) (syouyu b);
|}.

Definition le (a b : t) : Prop :=
  FlowQuotaLimits.le (flow a) (flow b) ∧ FlashQuotaLimits.le (flash a) (flash b) ∧
  RegistryQuotaLimits.le (registry a) (registry b) ∧ SyouyuQuotaLimits.le (syouyu a) (syouyu b).
End ResourceQuotaLimits.

#[export] Instance ResourceQuotaLimits_eq_dec : EqDecision ResourceQuotaLimits.t.
Proof. solve_decision. Defined.

Abbreviation ResourceQuotaLimits := ResourceQuotaLimits.t.

(** ** Constants *)

Definition DEFAULT_FLOW_MAX_ROOMS : Z := 100.
Definition MAX_FLOW_ROOMS : Z := 1000000.
Definition DEFAULT_FLOW_RATE_LIMIT_REQUESTS_PER_SECOND : Z := 20.
Definition DEFAULT_FLOW_RATE_LIMIT_BURST : Z := 40.
Definition MAX_FLOW_RATE_LIMIT_REQUESTS_PER_SECOND : Z := 1000.
Definition MAX_FLOW_RATE_LIMIT_BURST : Z := 5000.
Definition MAX_FLOW_PARTICIPANTS : Z := 100000.
Definition MAX_TENANT_SERVICES : Z := 10000.
Definition MAX_TENANT_FLOW_ROOMS : Z := 100000000.
Definition MIN_SYOUYU_QUOTA_BYTES : Z := 1048576.
Definition MAX_SYOUYU_QUOTA_BYTES : Z := 10 * 1024 * 1024 * 1024 * 1024.
Definition MAX_SYOUYU_QUOTA_OBJECTS : Z := 1000000000.
Definition DEFAULT_SYOUYU_BUCKET_QUOTA_BYTES : Z := 10 * 1024 * 1024 * 1024.
Definition DEFAULT_SYOUYU_BUCKET_QUOTA_OBJECTS : Z := 1000000.
Definition DEFAULT_SYOUYU_MAX_BUCKETS : Z := 10.
Definition DEFAULT_SYOUYU_TOTAL_QUOTA_BYTES : Z := 30 * 1024 * 1024 * 1024.
Definition DEFAULT_SYOUYU_MAX_CREDENTIALS_PER_BUCKET : Z := 10.
Definition DEFAULT_SYOUYU_MAX_TOTAL_CREDENTIALS : Z := 1000.
Definition MIN_FLASH_REPLICAS : Z := 1.
Definition MAX_FLASH_REPLICAS : Z := 100000.
Definition MIN_FLASH_CPU_MILLIS : Z := 10.
Definition MAX_FLASH_CPU_MILLIS : Z := 100000000.
Definition MIN_FLASH_MEMORY_MIB : Z := 16.
Definition MAX_FLASH_MEMORY_MIB : Z := 1048576.
Definition MIN_FLASH_EPHEMERAL_STORAGE_GIB : Z := 1.
Definition MAX_FLASH_EPHEMERAL_STORAGE_GIB : Z := 1000000.
Definition DEFAULT_FLASH_MAX_REPLICAS_PER_SERVICE : Z := 100.
Definition DEFAULT_FLASH_MAX_CPU_MILLIS_PER_VM : Z := 4000.
Definition DEFAULT_FLASH_MAX_MEMORY_MIB_PER_VM : Z := 8128.
Definition DEFAULT_FLASH_MAX_DISK_GIB_PER_VM : Z := 10.
Definition DEFAULT_FLASH_ORGANIZATION_CPU_MILLIS : Z := 20000.
Definition DEFAULT_FLASH_ORGANIZATION_MEMORY_MIB : Z := 32768.
Definition DEFAULT_FLASH_ORGANIZATION_EPHEMERAL_STORAGE_GIB : Z := 100.
Definition DEFAULT_FLASH_ORGANIZATION_REPLICAS : Z := 100.
Definition DEFAULT_FLASH_WEEKLY_CPU_MILLICORE_SECONDS : Z := 3245760000.
Definition DEFAULT_FLASH_WEEKLY_MEMORY_MIB_SECONDS : Z := 2836280317.
Definition DEFAULT_FLASH_WEEKLY_GPU_SECONDS : Z := 40320.
Definition MAX_FLASH_WEEKLY_CPU_MILLICORE_SECONDS : Z := 3153600000000000.
Definition MAX_FLASH_WEEKLY_MEMORY_MIB_SECONDS : Z := 33067892736000.
Definition MAX_FLASH_WEEKLY_GPU_SECONDS : Z := 31536000.
Definition MAX_FLASH_ORGANIZATION_CPU_MILLIS : Z := 100000000.
Definition MAX_FLASH_ORGANIZATION_MEMORY_MIB : Z := 1048576.
Definition MAX_FLASH_ORGANIZATION_EPHEMERAL_STORAGE_GIB : Z := 1000000.
Definition MAX_FLASH_ORGANIZATION_REPLICAS : Z := 100000.

Definition SyouyuQuotaLimits_default : SyouyuQuotaLimits.t := {|
  SyouyuQuotaLimits.max_buckets := DEFAULT_SYOUYU_MAX_BUCKETS;
  SyouyuQuotaLimits.max_bytes_per_bucket := DEFAULT_SYOUYU_BUCKET_QUOTA_BYTES;
  SyouyuQuotaLimits.max_objects_per_bucket := DEFAULT_SYOUYU_BUCKET_QUOTA_OBJECTS;
  SyouyuQuotaLimits.max_total_bytes := DEFAULT_SYOUYU_TOTAL_QUOTA_BYTES;
  SyouyuQuotaLimits.max_credentials_per_bucket := DEFAULT_SYOUYU_MAX_CREDENTIALS_PER_BUCKET;
  SyouyuQuotaLimits.max_total_credentials := DEFAULT_SYOUYU_MAX_TOTAL_CREDENTIALS;
|}.

Definition ResourceQuotaLimits_default : ResourceQuotaLimits := {|
  ResourceQuotaLimits.flow := {|
    FlowQuotaLimits.max_services := 100;
    FlowQuotaLimits.max_rooms_per_service := MAX_FLOW_ROOMS;
    FlowQuotaLimits.max_total_rooms := MAX_FLOW_ROOMS;
    FlowQuotaLimits.max_participants_per_service := MAX_FLOW_PARTICIPANTS;
    FlowQuotaLimits.max_rate_limit_requests_per_second := MAX_FLOW_RATE_LIMIT_REQUESTS_PER_SECOND;
    FlowQuotaLimits.max_rate_limit_burst := MAX_FLOW_RATE_LIMIT_BURST;
    FlowQuotaLimits.max_developer_credentials_per_service := 100;
  |};
  ResourceQuotaLimits.flash := {|
    FlashQuotaLimits.max_services := 100;
    FlashQuotaLimits.max_replicas_per_service := DEFAULT_FLASH_MAX_REPLICAS_PER_SERVICE;
    FlashQuotaLimits.max_cpu_millis_per_vm := DEFAULT_FLASH_MAX_CPU_MILLIS_PER_VM;
    FlashQuotaLimits.max_memory_mib_per_vm := DEFAULT_FLASH_MAX_MEMORY_MIB_PER_VM;
    FlashQuotaLimits.max_disk_gib_per_vm := DEFAULT_FLASH_MAX_DISK_GIB_PER_VM;
    FlashQuotaLimits.max_total_replicas := DEFAULT_FLASH_ORGANIZATION_REPLICAS;
    FlashQuotaLimits.max_total_cpu_millis := DEFAULT_FLASH_ORGANIZATION_CPU_MILLIS;
    FlashQuotaLimits.max_total_memory_mib := DEFAULT_FLASH_ORGANIZATION_MEMORY_MIB;
    FlashQuotaLimits.max_total_disk_gib := DEFAULT_FLASH_ORGANIZATION_EPHEMERAL_STORAGE_GIB;
    FlashQuotaLimits.max_weekly_cpu_millicore_seconds := DEFAULT_FLASH_WEEKLY_CPU_MILLICORE_SECONDS;
    FlashQuotaLimits.max_weekly_memory_mib_seconds := DEFAULT_FLASH_WEEKLY_MEMORY_MIB_SECONDS;
    FlashQuotaLimits.max_weekly_gpu_seconds := DEFAULT_FLASH_WEEKLY_GPU_SECONDS;
  |};
  ResourceQuotaLimits.registry := {|
    RegistryQuotaLimits.storage_gib := 10;
    RegistryQuotaLimits.max_credentials := 10;
  |};
  ResourceQuotaLimits.syouyu := SyouyuQuotaLimits_default;
|}.

(** ** Validation *)

Definition invalid_quota (message : string) : DomainError := InvalidResourceQuota message.

Definition validate_flow_quota (flow : FlowQuotaLimits.t) : result DomainError () :=
  fail_if (negb (in_range 1 MAX_TENANT_SERVICES (FlowQuotaLimits.max_services flow)))
    (invalid_quota "flow.max_services is outside the safety range") ;;
  fail_if (negb (in_range 1 MAX_FLOW_ROOMS (FlowQuotaLimits.max_rooms_per_service flow))
           || (FlowQuotaLimits.max_total_rooms flow <? FlowQuotaLimits.max_rooms_per_service flow)
           || (MAX_TENANT_FLOW_ROOMS <? FlowQuotaLimits.max_total_rooms flow))
    (invalid_quota "Flow room limits are inconsistent or outside the safety range") ;;
  fail_if (negb (in_range 1 MAX_FLOW_PARTICIPANTS
                   (FlowQuotaLimits.max_participants_per_service flow)))
    (invalid_quota "flow.max_participants_per_service is outside the safety range") ;;
  fail_if (negb (in_range 1 MAX_FLOW_RATE_LIMIT_REQUESTS_PER_SECOND
                   (FlowQuotaLimits.max_rate_limit_requests_per_second flow))
           || negb (in_range 1 MAX_FLOW_RATE_LIMIT_BURST (FlowQuotaLimits.max_rate_limit_burst flow))
           || (FlowQuotaLimits.max_rate_limit_burst flow
               <? FlowQuotaLimits.max_rate_limit_requests_per_second flow))
    (invalid_quota "Flow API rate limits are inconsistent or outside the safety range") ;;
  fail_if (negb (in_range 1 10000 (FlowQuotaLimits.max_developer_credentials_per_service flow)))
    (invalid_quota "flow.max_developer_credentials_per_service is outside the safety range").

Definition validate_syouyu_quota (syouyu : SyouyuQuotaLimits.t) : result DomainError () :=
  fail_if (negb (in_range 1 MAX_TENANT_SERVICES (SyouyuQuotaLimits.max_buckets syouyu)))
    (invalid_quota "syouyu.max_buckets is outside the safety range") ;;
  fail_if (negb (in_range MIN_SYOUYU_QUOTA_BYTES MAX_SYOUYU_QUOTA_BYTES
                   (SyouyuQuotaLimits.max_bytes_per_bucket syouyu))
           || (SyouyuQuotaLimits.max_total_bytes syouyu
               <? SyouyuQuotaLimits.max_bytes_per_bucket syouyu)
           || (MAX_SYOUYU_QUOTA_BYTES <? SyouyuQuotaLimits.max_total_bytes syouyu))
    (invalid_quota "Syouyu byte limits are inconsistent or outside the safety range") ;;
  fail_if (negb (in_range 1 MAX_SYOUYU_QUOTA_OBJECTS
                   (SyouyuQuotaLimits.max_objects_per_bucket syouyu)))
    (invalid_quota "syouyu.max_objects_per_bucket is outside the safety range") ;;
  fail_if (negb (in_range 1 10000 (SyouyuQuotaLimits.max_credentials_per_bucket syouyu))
           || (SyouyuQuotaLimits.max_total_credentials syouyu
               <? SyouyuQuotaLimits.max_credentials_per_bucket syouyu)
           || (1000000 <? SyouyuQuotaLimits.max_total_credentials syouyu))
    (invalid_quota "Syouyu credential limits are inconsistent or outside the safety range").

Definition validate_flash_quota (flash : FlashQuotaLimits.t) : result DomainError () :=
  fail_if (negb (in_range 1 MAX_TENANT_SERVICES (FlashQuotaLimits.max_services flash)))
    (invalid_quota "flash.max_services must be between 1 and {MAX_TENANT_SERVICES}") ;;
  fail_if (negb (in_range MIN_FLASH_REPLICAS MAX_FLASH_REPLICAS
                   (FlashQuotaLimits.max_replicas_per_service flash)))
    (invalid_quota "flash.max_replicas_per_service must be between {MIN_FLASH_REPLICAS} and {MAX_FLASH_REPLICAS}") ;;
  fail_if (negb (in_range MIN_FLASH_CPU_MILLIS MAX_FLASH_CPU_MILLIS
                   (FlashQuotaLimits.max_cpu_millis_per_vm flash)))
    (invalid_quota "flash.max_cpu_millis_per_vm must be between {MIN_FLASH_CPU_MILLIS} and {MAX_FLASH_CPU_MILLIS}") ;;
  fail_if (negb (in_range MIN_FLASH_MEMORY_MIB MAX_FLASH_MEMORY_MIB
                   (FlashQuotaLimits.max_memory_mib_per_vm flash)))
    (invalid_quota "flash.max_memory_mib_per_vm must be between {MIN_FLASH_MEMORY_MIB} and {MAX_FLASH_MEMORY_MIB}") ;;
  fail_if (negb (in_range MIN_FLASH_EPHEMERAL_STORAGE_GIB MAX_FLASH_EPHEMERAL_STORAGE_GIB
                   (FlashQuotaLimits.max_disk_gib_per_vm flash)))
    (invalid_quota "flash.max_disk_gib_per_vm must be between {MIN_FLASH_EPHEMERAL_STORAGE_GIB} and {MAX_FLASH_EPHEMERAL_STORAGE_GIB}") ;;
  fail_if (negb (in_range (FlashQuotaLimits.max_replicas_per_service flash)
                   MAX_FLASH_ORGANIZATION_REPLICAS (FlashQuotaLimits.max_total_replicas flash)))
    (invalid_quota "flash.max_total_replicas must be between {} and {MAX_FLASH_ORGANIZATION_REPLICAS}") ;;
  fail_if (negb (in_range (FlashQuotaLimits.max_cpu_millis_per_vm flash)
                   MAX_FLASH_ORGANIZATION_CPU_MILLIS (FlashQuotaLimits.max_total_cpu_millis flash)))
    (invalid_quota "flash.max_total_cpu_millis must be between {} and {MAX_FLASH_ORGANIZATION_CPU_MILLIS}") ;;
  fail_if (negb (in_range (FlashQuotaLimits.max_memory_mib_per_vm flash)
                   MAX_FLASH_ORGANIZATION_MEMORY_MIB (FlashQuotaLimits.max_total_memory_mib flash)))
    (invalid_quota "flash.max_total_memory_mib must be between {} and {MAX_FLASH_ORGANIZATION_MEMORY_MIB}") ;;
  fail_if (negb (in_range (FlashQuotaLimits.max_disk_gib_per_vm flash)
                   MAX_FLASH_ORGANIZATION_EPHEMERAL_STORAGE_GIB
                   (FlashQuotaLimits.max_total_disk_gib flash)))
    (invalid_quota "flash.max_total_disk_gib must be between {} and {MAX_FLASH_ORGANIZATION_EPHEMERAL_STORAGE_GIB}") ;;
  fail_if (MAX_FLASH_WEEKLY_GPU_SECONDS <? FlashQuotaLimits.max_weekly_gpu_seconds flash)
    (invalid_quota "flash.max_weekly_gpu_seconds must be between 0 and {MAX_FLASH_WEEKLY_GPU_SECONDS}") ;;
  fail_if (MAX_FLASH_WEEKLY_CPU_MILLICORE_SECONDS
           <? FlashQuotaLimits.max_weekly_cpu_millicore_seconds flash)
    (invalid_quota "flash.max_weekly_cpu_millicore_seconds must be between 0 and {MAX_FLASH_WEEKLY_CPU_MILLICORE_SECONDS}") ;;
  fail_if (MAX_FLASH_WEEKLY_MEMORY_MIB_SECONDS
           <? FlashQuotaLimits.max_weekly_memory_mib_seconds flash)
    (invalid_quota "flash.max_weekly_memory_mib_seconds must be between 0 and {MAX_FLASH_WEEKLY_MEMORY_MIB_SECONDS}").

Definition validate_registry_quota (registry : RegistryQuotaLimits.t) : result DomainError () :=
  fail_if (negb (in_range 1 10240 (RegistryQuotaLimits.storage_gib registry)))
    (invalid_quota "registry.storage_gib must be between 1 and 10240") ;;
  fail_if (negb (in_range 1 1000 (RegistryQuotaLimits.max_credentials registry)))
    (invalid_quota "registry.max_credentials must be between 1 and 1000").

(** [ResourceQuotaLimits::validate]. *)
Definition ResourceQuotaLimits_validate (q : ResourceQuotaLimits) : result DomainError () :=
  validate_flow_quota (ResourceQuotaLimits.flow q) ;;
  validate_syouyu_quota (ResourceQuotaLimits.syouyu q) ;;
  validate_flash_quota (ResourceQuotaLimits.flash q) ;;
  validate_registry_quota (ResourceQuotaLimits.registry q).

Definition validate_resource_quota (limits : ResourceQuotaLimits) : result StoreError () :=
  map_err reject_domain (ResourceQuotaLimits_validate limits).

(** ** Capping *)

Fixpoint cap (value ceiling : Value) {struct value} : result StoreError Value :=
  match value, ceiling with
  | Object values, Object ceilings =>
      if (length values =? length ceilings)%nat then
        fields ← (fix cap_fields (l : list (string * Value)) :=
          match l with
          | [] => Ok []
          | (key, v) :: l =>
              c ← ok_or (Invariant "quota shape differs") (field key ceilings);
              v' ← cap v c;
              l' ← cap_fields l;
              Ok ((key, v') :: l')
          end) values;
        Ok (Object fields)
      else Err (Invariant "quota shape differs")
  | Num value, Num ceiling =>
      value_u64 ← ok_or (Invariant "negative quota") (number_as_u64 value);
      maximum ← ok_or (Invariant "negative quota") (number_as_u64 ceiling);
      Ok (Num (Int (Z.min value_u64 maximum)))
  | _, _ => Err (Invariant "quota shape differs")
  end.

Section Capping.

(** [serde_json::from_value::<ResourceQuotaLimits>]. *)
Context (from_value : Value → option ResourceQuotaLimits).

Definition parse_resource_quota (value : Value) : result StoreError ResourceQuotaLimits :=
  limits ← ok_or JsonError (from_value value);
  validate_resource_quota limits ;;
  Ok limits.

(** The fields that belong to the organization as a whole. *)
Definition shared_limits (organization limits : ResourceQuotaLimits) : ResourceQuotaLimits := {|
  ResourceQuotaLimits.flow := ResourceQuotaLimits.flow limits;
  ResourceQuotaLimits.flash := ResourceQuotaLimits.flash limits;
  ResourceQuotaLimits.registry := ResourceQuotaLimits.registry organization;
  ResourceQuotaLimits.syouyu :=
    let syouyu := ResourceQuotaLimits.syouyu limits in {|
    SyouyuQuotaLimits.max_buckets := SyouyuQuotaLimits.max_buckets syouyu;
    SyouyuQuotaLimits.max_bytes_per_bucket := SyouyuQuotaLimits.max_bytes_per_bucket syouyu;
    SyouyuQuotaLimits.max_objects_per_bucket := SyouyuQuotaLimits.max_objects_per_bucket syouyu;
    SyouyuQuotaLimits.max_total_bytes := SyouyuQuotaLimits.max_total_bytes syouyu;
    SyouyuQuotaLimits.max_credentials_per_bucket :=
      SyouyuQuotaLimits.max_credentials_per_bucket (ResourceQuotaLimits.syouyu organization);
    SyouyuQuotaLimits.max_total_credentials :=
      SyouyuQuotaLimits.max_total_credentials (ResourceQuotaLimits.syouyu organization);
  |};
|}.

Definition capped_limits (organization member : ResourceQuotaLimits)
    : result StoreError ResourceQuotaLimits :=
  capped ← cap (ResourceQuotaLimits.to_value member) (ResourceQuotaLimits.to_value organization);
  limits ← parse_resource_quota capped;
  Ok (shared_limits organization limits).

End Capping.

(** ** The walk over the JSON form computes the field by field minimum *)

Lemma u32_u64 x : is_u32 x → is_u64 x.
Proof. unfold is_u32, is_u64, u32_max, u64_max. lia. Qed.

Lemma cap_num a b :
  is_u64 a → is_u64 b → cap (Num (Int a)) (Num (Int b)) = Ok (Num (Int (Z.min a b))).
Proof.
  intros Ha Hb. simpl. unfold number_as_u64.
  rewrite (proj2 (in_range_spec 0 u64_max a) Ha), (proj2 (in_range_spec 0 u64_max b) Hb). done.
Qed.

(** The loop over the entries of an object, seen as a relation: every entry is
    capped by the entry of the ceiling with the same key. *)
Inductive capped_fields (ceilings : list (string * Value)) :
    list (string * Value) → list (string * Value) → Prop :=
| capped_nil : capped_fields ceilings [] []
| capped_cons key v c v' l l' :
    field key ceilings = Some c → cap v c = Ok v' → capped_fields ceilings l l' →
    capped_fields ceilings ((key, v) :: l) ((key, v') :: l').

Lemma cap_object values ceilings fields :
  length values = length ceilings → capped_fields ceilings values fields →
  cap (Object values) (Object ceilings) = Ok (Object fields).
Proof.
  intros Hlen Hcap. simpl. rewrite (proj2 (Nat.eqb_eq _ _) Hlen). clear Hlen.
  assert (Hgo : (fix cap_fields (l : list (string * Value)) :=
          match l with
          | [] => Ok []
          | (key, v) :: l =>
              c ← ok_or (Invariant "quota shape differs") (field key ceilings);
              v' ← cap v c;
              l' ← cap_fields l;
              Ok ((key, v') :: l')
          end) values = Ok fields); [|by rewrite Hgo].
  induction Hcap as [|key v c v' l l' Hf Hv _ IH]; [done|].
  rewrite Hf. simpl. rewrite Hv. simpl. rewrite IH. done.
Qed.

Create HintDb quota.
#[export] Hint Resolve u32_u64 cap_num : quota.

Ltac cap_fields :=
  repeat (eapply capped_cons; [reflexivity | auto with quota |]); apply capped_nil.

Lemma cap_flow a b :
  FlowQuotaLimits.representable a → FlowQuotaLimits.representable b →
  cap (FlowQuotaLimits.to_value a) (FlowQuotaLimits.to_value b)
  = Ok (FlowQuotaLimits.to_value (FlowQuotaLimits.min a b)).
Proof.
  unfold FlowQuotaLimits.representable. intros; destruct_and?.
  apply cap_object; [done | cap_fields].
Qed.

Lemma cap_flash a b :
  FlashQuotaLimits.representable a → FlashQuotaLimits.representable b →
  cap (FlashQuotaLimits.to_value a) (FlashQuotaLimits.to_value b)
  = Ok (FlashQuotaLimits.to_value (FlashQuotaLimits.min a b)).
Proof.
  unfold FlashQuotaLimits.representable. intros; destruct_and?.
  apply cap_object; [done | cap_fields].
Qed.

Lemma cap_registry a b :
  RegistryQuotaLimits.representable a → RegistryQuotaLimits.representable b →
  cap (RegistryQuotaLimits.to_value a) (RegistryQuotaLimits.to_value b)
  = Ok (RegistryQuotaLimits.to_value (RegistryQuotaLimits.min a b)).
Proof.
  unfold RegistryQuotaLimits.representable. intros; destruct_and?.
  apply cap_object; [done | cap_fields].
Qed.

Lemma cap_syouyu a b :
  SyouyuQuotaLimits.representable a → SyouyuQuotaLimits.representable b →
  cap (SyouyuQuotaLimits.to_value a) (SyouyuQuotaLimits.to_value b)
  = Ok (SyouyuQuotaLimits.to_value (SyouyuQuotaLimits.min a b)).
Proof.
  unfold SyouyuQuotaLimits.representable. intros; destruct_and?.
  apply cap_object; [done | cap_fields].
Qed.

#[export] Hint Resolve cap_flow cap_flash cap_registry cap_syouyu : quota.

Lemma cap_limits a b :
  ResourceQuotaLimits.representable a → ResourceQuotaLimits.representable b →
  cap (ResourceQuotaLimits.to_value a) (ResourceQuotaLimits.to_value b)
  = Ok (ResourceQuotaLimits.to_value (ResourceQuotaLimits.min a b)).
Proof.
  unfold ResourceQuotaLimits.representable. intros; destruct_and?.
  apply cap_object; [done | cap_fields].
Qed.

(** ** What validation establishes, and that it is closed under capping *)

Definition flow_quota_wf (q : FlowQuotaLimits.t) : Prop :=
  1 ≤ FlowQuotaLimits.max_services q ≤ MAX_TENANT_SERVICES ∧
  1 ≤ FlowQuotaLimits.max_rooms_per_service q ≤ MAX_FLOW_ROOMS ∧
  FlowQuotaLimits.max_rooms_per_service q ≤ FlowQuotaLimits.max_total_rooms q
    ≤ MAX_TENANT_FLOW_ROOMS ∧
  1 ≤ FlowQuotaLimits.max_participants_per_service q ≤ MAX_FLOW_PARTICIPANTS ∧
  1 ≤ FlowQuotaLimits.max_rate_limit_requests_per_second q
    ≤ MAX_FLOW_RATE_LIMIT_REQUESTS_PER_SECOND ∧
  FlowQuotaLimits.max_rate_limit_requests_per_second q ≤ FlowQuotaLimits.max_rate_limit_burst q
    ≤ MAX_FLOW_RATE_LIMIT_BURST ∧
  1 ≤ FlowQuotaLimits.max_developer_credentials_per_service q ≤ 10000.

Definition syouyu_quota_wf (q : SyouyuQuotaLimits.t) : Prop :=
  1 ≤ SyouyuQuotaLimits.max_buckets q ≤ MAX_TENANT_SERVICES ∧
  MIN_SYOUYU_QUOTA_BYTES ≤ SyouyuQuotaLimits.max_bytes_per_bucket q ∧
  SyouyuQuotaLimits.max_bytes_per_bucket q ≤ SyouyuQuotaLimits.max_total_bytes q
    ≤ MAX_SYOUYU_QUOTA_BYTES ∧
  1 ≤ SyouyuQuotaLimits.max_objects_per_bucket q ≤ MAX_SYOUYU_QUOTA_OBJECTS ∧
  1 ≤ SyouyuQuotaLimits.max_credentials_per_bucket q ≤ 10000 ∧
  SyouyuQuotaLimits.max_credentials_per_bucket q ≤ SyouyuQuotaLimits.max_total_credentials q
    ≤ 1000000.

Definition flash_quota_wf (q : FlashQuotaLimits.t) : Prop :=
  1 ≤ FlashQuotaLimits.max_services q ≤ MAX_TENANT_SERVICES ∧
  MIN_FLASH_REPLICAS ≤ FlashQuotaLimits.max_replicas_per_service q
    ≤ FlashQuotaLimits.max_total_replicas q ∧
  FlashQuotaLimits.max_total_replicas q ≤ MAX_FLASH_ORGANIZATION_REPLICAS ∧
  MIN_FLASH_CPU_MILLIS ≤ FlashQuotaLimits.max_cpu_millis_per_vm q
    ≤ FlashQuotaLimits.max_total_cpu_millis q ∧
  FlashQuotaLimits.max_total_cpu_millis q ≤ MAX_FLASH_ORGANIZATION_CPU_MILLIS ∧
  MIN_FLASH_MEMORY_MIB ≤ FlashQuotaLimits.max_memory_mib_per_vm q
    ≤ FlashQuotaLimits.max_total_memory_mib q ∧
  FlashQuotaLimits.max_total_memory_mib q ≤ MAX_FLASH_ORGANIZATION_MEMORY_MIB ∧
  MIN_FLASH_EPHEMERAL_STORAGE_GIB ≤ FlashQuotaLimits.max_disk_gib_per_vm q
    ≤ FlashQuotaLimits.max_total_disk_gib q ∧
  FlashQuotaLimits.max_total_disk_gib q ≤ MAX_FLASH_ORGANIZATION_EPHEMERAL_STORAGE_GIB ∧
  FlashQuotaLimits.max_weekly_gpu_seconds q ≤ MAX_FLASH_WEEKLY_GPU_SECONDS ∧
  FlashQuotaLimits.max_weekly_cpu_millicore_seconds q ≤ MAX_FLASH_WEEKLY_CPU_MILLICORE_SECONDS ∧
  FlashQuotaLimits.max_weekly_memory_mib_seconds q ≤ MAX_FLASH_WEEKLY_MEMORY_MIB_SECONDS.

Definition registry_quota_wf (q : RegistryQuotaLimits.t) : Prop :=
  1 ≤ RegistryQuotaLimits.storage_gib q ≤ 10240 ∧
  1 ≤ RegistryQuotaLimits.max_credentials q ≤ 1000.

Definition quota_wf (q : ResourceQuotaLimits) : Prop :=
  flow_quota_wf (ResourceQuotaLimits.flow q) ∧ syouyu_quota_wf (ResourceQuotaLimits.syouyu q) ∧
  flash_quota_wf (ResourceQuotaLimits.flash q) ∧
  registry_quota_wf (ResourceQuotaLimits.registry q).

Ltac unfold_limits :=
  unfold MAX_TENANT_SERVICES, MAX_TENANT_FLOW_ROOMS, MAX_FLOW_ROOMS, MAX_FLOW_PARTICIPANTS,
    MAX_FLOW_RATE_LIMIT_REQUESTS_PER_SECOND, MAX_FLOW_RATE_LIMIT_BURST,
    MIN_SYOUYU_QUOTA_BYTES, MAX_SYOUYU_QUOTA_BYTES, MAX_SYOUYU_QUOTA_OBJECTS,
    MIN_FLASH_REPLICAS, MAX_FLASH_REPLICAS, MIN_FLASH_CPU_MILLIS, MAX_FLASH_CPU_MILLIS,
    MIN_FLASH_MEMORY_MIB, MAX_FLASH_MEMORY_MIB, MIN_FLASH_EPHEMERAL_STORAGE_GIB,
    MAX_FLASH_EPHEMERAL_STORAGE_GIB, MAX_FLASH_ORGANIZATION_REPLICAS,
    MAX_FLASH_ORGANIZATION_CPU_MILLIS, MAX_FLASH_ORGANIZATION_MEMORY_MIB,
    MAX_FLASH_ORGANIZATION_EPHEMERAL_STORAGE_GIB in *.

Lemma validate_flow_quota_ok q : validate_flow_quota q = Ok () ↔ flow_quota_wf q.
Proof. unfold validate_flow_quota, flow_quota_wf. guards. unfold_limits. lia. Qed.

Lemma validate_syouyu_quota_ok q : validate_syouyu_quota q = Ok () ↔ syouyu_quota_wf q.
Proof. unfold validate_syouyu_quota, syouyu_quota_wf. guards. unfold_limits. lia. Qed.

Lemma validate_flash_quota_ok q : validate_flash_quota q = Ok () ↔ flash_quota_wf q.
Proof. unfold validate_flash_quota, flash_quota_wf. guards. unfold_limits. lia. Qed.

Lemma validate_registry_quota_ok q : validate_registry_quota q = Ok () ↔ registry_quota_wf q.
Proof. unfold validate_registry_quota, registry_quota_wf. guards. lia. Qed.

Lemma ResourceQuotaLimits_validate_ok q : ResourceQuotaLimits_validate q = Ok () ↔ quota_wf q.
Proof.
  unfold ResourceQuotaLimits_validate, quota_wf.
  by rewrite !seq_ok, validate_flow_quota_ok, validate_syouyu_quota_ok, validate_flash_quota_ok,
    validate_registry_quota_ok.
Qed.

Lemma quota_wf_min a b : quota_wf a → quota_wf b → quota_wf (ResourceQuotaLimits.min a b).
Proof.
  intros (Hf & Hs & Hv & Hr) (Hf' & Hs' & Hv' & Hr'). refine (conj _ (conj _ (conj _ _))).
  - unfold flow_quota_wf in *. simpl. split_and!; lia.
  - unfold syouyu_quota_wf in *. simpl. split_and!; lia.
  - unfold flash_quota_wf in *. simpl. split_and!; lia.
  - unfold registry_quota_wf in *. simpl. split_and!; lia.
Qed.

Lemma quota_wf_shared organization limits :
  quota_wf organization → quota_wf limits → quota_wf (shared_limits organization limits).
Proof.
  intros (_ & Hs & _ & Hr) (Hf' & Hs' & Hv' & _).
  refine (conj _ (conj _ (conj _ _))); try done.
  unfold syouyu_quota_wf in *. simpl. lia.
Qed.

(** The specification of capping: the minimum of the two limits, except for
    the limits of the organization as a whole. *)
Definition effective_limits (organization member : ResourceQuotaLimits) : ResourceQuotaLimits :=
  shared_limits organization (ResourceQuotaLimits.min member organization).

Lemma effective_limits_le organization member :
  ResourceQuotaLimits.le (effective_limits organization member) organization.
Proof.
  unfold ResourceQuotaLimits.le, FlowQuotaLimits.le, FlashQuotaLimits.le, RegistryQuotaLimits.le,
    SyouyuQuotaLimits.le. simpl. split_and!; lia.
Qed.

Lemma effective_limits_idemp organization member :
  effective_limits organization (effective_limits organization member)
  = effective_limits organization member.
Proof.
  unfold effective_limits, shared_limits, ResourceQuotaLimits.min, FlowQuotaLimits.min,
    FlashQuotaLimits.min, SyouyuQuotaLimits.min. simpl.
  by rewrite <- !Z.min_assoc, !Z.min_id.
Qed.

Section CappingSpec.
Context (from_value : Value → option ResourceQuotaLimits).
Hypothesis from_to_value : ∀ q, ResourceQuotaLimits.representable q →
  from_value (ResourceQuotaLimits.to_value q) = Some q.

Lemma representable_min a b :
  ResourceQuotaLimits.representable a → ResourceQuotaLimits.representable b →
  ResourceQuotaLimits.representable (ResourceQuotaLimits.min a b).
Proof.
  unfold ResourceQuotaLimits.representable, FlowQuotaLimits.representable,
    FlashQuotaLimits.representable, RegistryQuotaLimits.representable,
    SyouyuQuotaLimits.representable, is_u32, is_u64. simpl. intros. destruct_and?. split_and!; lia.
Qed.

Lemma representable_effective a b :
  ResourceQuotaLimits.representable a → ResourceQuotaLimits.representable b →
  ResourceQuotaLimits.representable (effective_limits a b).
Proof.
  unfold ResourceQuotaLimits.representable, FlowQuotaLimits.representable,
    FlashQuotaLimits.representable, RegistryQuotaLimits.representable,
    SyouyuQuotaLimits.representable, is_u32, is_u64. simpl. intros. destruct_and?. split_and!; lia.
Qed.

Lemma capped_limits_eq organization member :
  ResourceQuotaLimits.representable organization → ResourceQuotaLimits.representable member →
  quota_wf organization → quota_wf member →
  capped_limits from_value organization member = Ok (effective_limits organization member).
Proof.
  intros Ho Hm Hwo Hwm. unfold capped_limits, parse_resource_quota, validate_resource_quota.
  rewrite cap_limits by done. simpl. rewrite from_to_value by auto using representable_min. simpl.
  assert (quota_wf (ResourceQuotaLimits.min member organization)) as ->%ResourceQuotaLimits_validate_ok
    by auto using quota_wf_min.
  done.
Qed.

(** A member's effective quota always exists and never exceeds the
    organization's: for validated limits [capped_limits] succeeds, its result
    is the field by field minimum of the two (with the registry and the
    Syouyu credential limits, which are shared, taken from the organization),
    it is at most the organization's limits in every field, it passes
    validation again, and capping it once more changes nothing. *)
Lemma capped_limits_within_organization organization member :
  ResourceQuotaLimits.representable organization → ResourceQuotaLimits.representable member →
  ResourceQuotaLimits_validate organization = Ok () → ResourceQuotaLimits_validate member = Ok () →
  ∃ limits, capped_limits from_value organization member = Ok limits ∧
    limits = shared_limits organization (ResourceQuotaLimits.min member organization) ∧
    ResourceQuotaLimits.le limits organization ∧
    ResourceQuotaLimits_validate limits = Ok () ∧
    capped_limits from_value organization limits = Ok limits.
Proof.
  intros Ho Hm Hwo%ResourceQuotaLimits_validate_ok Hwm%ResourceQuotaLimits_validate_ok.
  exists (effective_limits organization member).
  assert (Hwf : quota_wf (effective_limits organization member))
    by (apply quota_wf_shared; [done | by apply quota_wf_min]).
  split; [by apply capped_limits_eq|]. split; [done|]. split; [apply effective_limits_le|].
  split; [by apply ResourceQuotaLimits_validate_ok|].
  rewrite capped_limits_eq; [| done | by apply representable_effective | done | done].
  by rewrite effective_limits_idemp.
Qed.

End CappingSpec.

(** ** A decoder

    A concrete decoder of the JSON form, as [serde] derives it for the fields
    the records declare, which shows that the hypothesis on [from_value] can be
    met. *)

Definition uint_field (max : Z) (key : string) (v : Value) : option Z :=
  n ← get key v ≫= as_u64;
  if n <=? max then Some n else None.

Definition flow_of_value (v : Value) : option FlowQuotaLimits.t :=
  x0 ← uint_field u32_max "max_services" v;
  x1 ← uint_field u32_max "max_rooms_per_service" v;
  x2 ← uint_field u64_max "max_total_rooms" v;
  x3 ← uint_field u32_max "max_participants_per_service" v;
  x4 ← uint_field u32_max "max_rate_limit_requests_per_second" v;
  x5 ← uint_field u32_max "max_rate_limit_burst" v;
  x6 ← uint_field u32_max "max_developer_credentials_per_service" v;
  Some (FlowQuotaLimits.Build_t x0 x1 x2 x3 x4 x5 x6).

Definition flash_of_value (v : Value) : option FlashQuotaLimits.t :=
  x0 ← uint_field u32_max "max_services" v;
  x1 ← uint_field u32_max "max_replicas_per_service" v;
  x2 ← uint_field u32_max "max_cpu_millis_per_vm" v;
  x3 ← uint_field u32_max "max_memory_mib_per_vm" v;
  x4 ← uint_field u32_max "max_disk_gib_per_vm" v;
  x5 ← uint_field u64_max "max_total_replicas" v;
  x6 ← uint_field u64_max "max_total_cpu_millis" v;
  x7 ← uint_field u64_max "max_total_memory_mib" v;
  x8 ← uint_field u64_max "max_total_disk_gib" v;
  x9 ← uint_field u64_max "max_weekly_cpu_millicore_seconds" v;
  x10 ← uint_field u64_max "max_weekly_memory_mib_seconds" v;
  x11 ← uint_field u64_max "max_weekly_gpu_seconds" v;
  Some (FlashQuotaLimits.Build_t x0 x1 x2 x3 x4 x5 x6 x7 x8 x9 x10 x11).

Definition registry_of_value (v : Value) : option RegistryQuotaLimits.t :=
  x0 ← uint_field u32_max "storage_gib" v;
  x1 ← uint_field u32_max "max_credentials" v;
  Some (RegistryQuotaLimits.Build_t x0 x1).

Definition syouyu_of_value (v : Value) : option SyouyuQuotaLimits.t :=
  x0 ← uint_field u32_max "max_buckets" v;
  x1 ← uint_field u64_max "max_bytes_per_bucket" v;
  x2 ← uint_field u64_max "max_objects_per_bucket" v;
  x3 ← uint_field u64_max "max_total_bytes" v;
  x4 ← uint_field u32_max "max_credentials_per_bucket" v;
  x5 ← uint_field u32_max "max_total_credentials" v;
  Some (SyouyuQuotaLimits.Build_t x0 x1 x2 x3 x4 x5).

Definition limits_of_value (v : Value) : option ResourceQuotaLimits :=
  flow ← get "flow" v ≫= flow_of_value;
  flash ← get "flash" v ≫= flash_of_value;
  registry ← get "registry" v ≫= registry_of_value;
  syouyu ← get "syouyu" v ≫= syouyu_of_value;
  Some (ResourceQuotaLimits.Build_t flow flash registry syouyu).

Lemma uint_field_ok max key v n :
  get key v = Some (Num (Int n)) → max ≤ u64_max → 0 ≤ n ≤ max → uint_field max key v = Some n.
Proof.
  intros Hget Hmax Hn. unfold uint_field. rewrite Hget. simpl.
  rewrite (proj2 (in_range_spec 0 u64_max n)) by lia. simpl.
  by rewrite (proj2 (Z.leb_le n max)) by lia.
Qed.

Lemma u32_le_u64 : u32_max ≤ u64_max.
Proof. done. Qed.

Ltac decode_fields :=
  repeat (erewrite uint_field_ok; [simpl | reflexivity | done | assumption]).

Lemma flow_of_to_value q : FlowQuotaLimits.representable q → flow_of_value (FlowQuotaLimits.to_value q) = Some q.
Proof. destruct q. intros Hq. red in Hq. simpl in Hq. destruct_and?. unfold flow_of_value. by decode_fields. Qed.

Lemma flash_of_to_value q : FlashQuotaLimits.representable q → flash_of_value (FlashQuotaLimits.to_value q) = Some q.
Proof. destruct q. intros Hq. red in Hq. simpl in Hq. destruct_and?. unfold flash_of_value. by decode_fields. Qed.

Lemma registry_of_to_value q : RegistryQuotaLimits.representable q → registry_of_value (RegistryQuotaLimits.to_value q) = Some q.
Proof. destruct q. intros Hq. red in Hq. simpl in Hq. destruct_and?. unfold registry_of_value. by decode_fields. Qed.

Lemma syouyu_of_to_value q : SyouyuQuotaLimits.representable q → syouyu_of_value (SyouyuQuotaLimits.to_value q) = Some q.
Proof. destruct q. intros Hq. red in Hq. simpl in Hq. destruct_and?. unfold syouyu_of_value. by decode_fields. Qed.

Lemma limits_of_to_value q :
  ResourceQuotaLimits.representable q → limits_of_value (ResourceQuotaLimits.to_value q) = Some q.
Proof.
  destruct q. intros (? & ? & ? & ?). unfold limits_of_value. simpl.
  rewrite flow_of_to_value by done. simpl. rewrite flash_of_to_value by done. simpl.
  rewrite registry_of_to_value by done. simpl. by rewrite syouyu_of_to_value by done.
Qed.

(** The default limits, with a smaller room and replica allowance for a member. *)
Definition witness_member : ResourceQuotaLimits :=
  ResourceQuotaLimits.min ResourceQuotaLimits_default {|
    ResourceQuotaLimits.flow := FlowQuotaLimits.Build_t 5 1000 1000 50 10 20 3;
    ResourceQuotaLimits.flash := FlashQuotaLimits.Build_t 5 4 1000 1024 10 8 4000 8192 40 0 0 0;
    ResourceQuotaLimits.registry := RegistryQuotaLimits.Build_t 20 20;
    ResourceQuotaLimits.syouyu := SyouyuQuotaLimits.Build_t 2 2097152 1000 4194304 2 4;
  |}.

