(* ===== verification/Specs.v ===== *)
(** * Specifications of deployments, VPCs, Flow rooms and Syouyu buckets

    The request types of [heterocloud-domain] other than Flash services:
    [deployment.rs], [vpc.rs], and [FlowSpec] and [SyouyuSpec] of [lib.rs],
    with their validation. *)
From S2P Require Import Prelude Text Json Net Policy Quota.

(** [serde_json::to_vec]: the text of a JSON value, as bytes. *)
Class JsonText := {
  to_vec : Value → option (list Z);
}.

(** ** Deployment policies *)

Record HealthCheck := {
  check_port : Z;
  check_path : option string;
}.

Record DeploymentPolicy := {
  strategy : string;
  stateless : bool;
  deadline_seconds : Z;
  auto_rollback : bool;
  health_check : option HealthCheck;
}.

#[export] Instance HealthCheck_eq_dec : EqDecision HealthCheck.
Proof. solve_decision. Defined.
#[export] Instance DeploymentPolicy_eq_dec : EqDecision DeploymentPolicy.
Proof. solve_decision. Defined.

Definition DeploymentPolicy_default : DeploymentPolicy := {|
  strategy := "auto";
  stateless := false;
  deadline_seconds := 600;
  auto_rollback := true;
  health_check := None;
|}.

Definition invalid_health_path (p : string) : bool :=
  negb (starts_with_byte SLASH p) || (1024 <? len p) || existsb is_control (chars p).

Definition DeploymentPolicy_validate (d : DeploymentPolicy) : result string () :=
  fail_if (negb (bool_decide (strategy d ∈ ["auto"; "rolling"; "recreate"])))
    "deployment strategy must be auto, rolling, or recreate" ;;
  fail_if (String.eqb (strategy d) "rolling" && negb (stateless d))
    "rolling deployments require stateless=true; persistent homes are retained without being mounted" ;;
  fail_if (negb (in_range 60 3600 (deadline_seconds d)))
    "deployment deadline must be between 60 and 3600 seconds" ;;
  fail_if (is_some_and (λ check, (check_port check =? 0)
                                 || is_some_and invalid_health_path (check_path check))
             (health_check d))
    "health check requires a nonzero port and an absolute HTTP path".

(** ** Virtual private clouds *)

Definition MAX_VPC_SECURITY_GROUPS : Z := 32.
Definition MAX_VPC_RULES : Z := 128.
Definition MAX_FLASH_SECURITY_GROUPS : Z := 8.

Inductive FlashProtocol := Tcp | Udp.

Inductive VpcPeer :=
| SecurityGroup (name : string)
| Service (service_id : Uuid)
| All.

Record VpcRule := {
  rule_description : string;
  source : VpcPeer;
  destination : VpcPeer;
  rule_protocol : FlashProtocol;
  rule_port : Z;
  end_port : option Z;
}.

Record VpcSpec := {
  vpc_region : string;
  description : string;
  nat_enabled : bool;
  security_groups : list string;
  rules : list VpcRule;
}.

Record FlashVpcAttachment := {
  vpc_id : Uuid;
  attached_groups : list string;
  private_name : option string;
}.

#[export] Instance FlashProtocol_eq_dec : EqDecision FlashProtocol.
Proof. solve_decision. Defined.
#[export] Instance VpcPeer_eq_dec : EqDecision VpcPeer.
Proof. solve_decision. Defined.
#[export] Instance FlashVpcAttachment_eq_dec : EqDecision FlashVpcAttachment.
Proof. solve_decision. Defined.

Definition lowercase_digit_hyphen (b : Z) : bool :=
  is_ascii_lowercase b || is_ascii_digit b || (b =? HYPHEN).

Definition valid_private_name (value : string) : bool :=
  negb (is_empty value) && (len value <=? 63)
  && is_some_and is_ascii_lowercase (first_byte value)
  && is_some_and is_ascii_alphanumeric (last_byte value)
  && forallb lowercase_digit_hyphen (bytes value).

Definition invalid_vpc (message : string) : DomainError := InvalidVpcSpec message.

Definition validate_groups (groups : list string) (maximum : Z) : result DomainError () :=
  fail_if (is_nil groups || (maximum <? Z.of_nat (length groups)))
    (invalid_vpc "security_groups must contain 1..{maximum} names") ;;
  fail_if (any_bad_or_repeated (λ name, negb (valid_private_name name)) [] groups)
    (invalid_vpc "security group names must be unique lowercase DNS labels").

Definition is_nil_uuid (id : Uuid) : bool := (id =? 0)%N.

Definition validate_peer (groups : list string) (peer : VpcPeer) : result DomainError () :=
  match peer with
  | SecurityGroup name =>
      fail_if (negb (bool_decide (name ∈ groups)))
        (invalid_vpc "rule references an unknown security group")
  | Service service_id =>
      fail_if (is_nil_uuid service_id) (invalid_vpc "rule service_id must be a non-nil UUID")
  | All => Ok ()
  end.

Definition validate_rule (groups : list string) (rule : VpcRule) : result DomainError () :=
  fail_if (256 <? len (rule_description rule))
    (invalid_vpc "rule description must be at most 256 bytes") ;;
  fail_if ((rule_port rule =? 0) || is_some_and (λ last, last <? rule_port rule) (end_port rule))
    (invalid_vpc "rule ports must be within 1..65535 in ascending order") ;;
  for_each (validate_peer groups) [source rule; destination rule].

Definition VpcSpec_validate (s : VpcSpec) : result DomainError () :=
  fail_if (is_empty (vpc_region s) || (128 <? len (vpc_region s)))
    (invalid_vpc "region is required and must be at most 128 bytes") ;;
  fail_if (2048 <? len (description s))
    (invalid_vpc "description must be at most 2048 bytes") ;;
  validate_groups (security_groups s) MAX_VPC_SECURITY_GROUPS ;;
  fail_if (MAX_VPC_RULES <? Z.of_nat (length (rules s)))
    (invalid_vpc "a VPC may have at most 128 connection rules") ;;
  for_each (validate_rule (security_groups s)) (rules s).

Definition FlashVpcAttachment_validate (a : FlashVpcAttachment) : result DomainError () :=
  fail_if (is_nil_uuid (vpc_id a)) (invalid_vpc "vpc_id must be a non-nil UUID") ;;
  validate_groups (attached_groups a) MAX_FLASH_SECURITY_GROUPS ;;
  fail_if (is_some_and (λ name, negb (valid_private_name name)) (private_name a))
    (invalid_vpc "private_name must be a lowercase DNS label starting with a letter").

(** ** Flow and Syouyu *)

Record FlowRateLimit := {
  requests_per_second : Z;
  burst : Z;
}.

Definition FlowRateLimit_default : FlowRateLimit := {|
  requests_per_second := DEFAULT_FLOW_RATE_LIMIT_REQUESTS_PER_SECOND;
  burst := DEFAULT_FLOW_RATE_LIMIT_BURST;
|}.

Record FlowSpec := {
  flow_region : string;
  max_participants : Z;
  max_rooms : Z;
  rate_limit : FlowRateLimit;
  flow_metadata : Value;
}.

Definition SYOUYU_REGION : string := "heteronet-global".

Record SyouyuSpec := {
  syouyu_region : string;
  bucket_name : string;
  quota_bytes : Z;
  quota_objects : Z;
  syouyu_metadata : Value;
}.

#[export] Instance flow_representable : Representable FlowSpec := λ s,
  is_u32 (max_participants s) ∧ is_u32 (max_rooms s) ∧
  is_u32 (requests_per_second (rate_limit s)) ∧ is_u32 (burst (rate_limit s)).
#[export] Instance syouyu_representable : Representable SyouyuSpec := λ s,
  is_u64 (quota_bytes s) ∧ is_u64 (quota_objects s).

Definition invalid_syouyu_spec (message : string) : DomainError := InvalidSyouyuSpec message.

Definition validate_s3_bucket_name (name : string) : result DomainError () :=
  fail_if (negb (in_range 3 63 (len name))
           || negb (is_some_and is_ascii_alphanumeric (first_byte name))
           || negb (is_some_and is_ascii_alphanumeric (last_byte name))
           || contains_str ".." name
           || existsb (λ b, negb (is_ascii_lowercase b) && negb (is_ascii_digit b)
                            && negb (b =? HYPHEN) && negb (b =? DOT)) (bytes name)
           || is_some (parse_ip_addr name))
    (invalid_syouyu_spec "bucket_name must be a 3..63 character lowercase S3 bucket name").

Definition SyouyuSpec_validate `{JsonText} (s : SyouyuSpec) : result DomainError () :=
  fail_if (negb (String.eqb (syouyu_region s) SYOUYU_REGION))
    (invalid_syouyu_spec "region must be heteronet-global for the current Syouyu deployment") ;;
  validate_s3_bucket_name (bucket_name s) ;;
  fail_if (negb (in_range MIN_SYOUYU_QUOTA_BYTES MAX_SYOUYU_QUOTA_BYTES (quota_bytes s)))
    (invalid_syouyu_spec "quota_bytes must be between {MIN_SYOUYU_QUOTA_BYTES} and {MAX_SYOUYU_QUOTA_BYTES}") ;;
  fail_if (negb (in_range 1 MAX_SYOUYU_QUOTA_OBJECTS (quota_objects s)))
    (invalid_syouyu_spec "quota_objects must be between 1 and {MAX_SYOUYU_QUOTA_OBJECTS}") ;;
  metadata_bytes ← ok_or (invalid_syouyu_spec "metadata must be valid JSON")
                     (to_vec (syouyu_metadata s));
  fail_if (64 * 1024 <? Z.of_nat (length metadata_bytes))
    (invalid_syouyu_spec "metadata must not exceed 65536 serialized bytes").

(** ** What validation establishes *)

Definition peer_wf (groups : list string) (peer : VpcPeer) : Prop :=
  match peer with
  | SecurityGroup name => name ∈ groups
  | Service id => id ≠ 0%N
  | All => True
  end.

Record rule_wf (groups : list string) (rule : VpcRule) : Prop := {
  rule_ports_positive : rule_port rule ≠ 0;
  rule_ports_ascending last : end_port rule = Some last → rule_port rule ≤ last;
  rule_source_known : peer_wf groups (source rule);
  rule_destination_known : peer_wf groups (destination rule);
}.

Record vpc_wf (s : VpcSpec) : Prop := {
  vpc_groups_some : security_groups s ≠ [];
  vpc_groups_bounded : Z.of_nat (length (security_groups s)) ≤ MAX_VPC_SECURITY_GROUPS;
  vpc_groups_unique : NoDup (security_groups s);
  vpc_groups_names : Forall (λ g, valid_private_name g = true) (security_groups s);
  vpc_rules_bounded : Z.of_nat (length (rules s)) ≤ MAX_VPC_RULES;
  vpc_rules_wf : Forall (rule_wf (security_groups s)) (rules s);
}.

Lemma is_nil_false {A} (l : list A) : is_nil l = false ↔ l ≠ [].
Proof. destruct l; naive_solver. Qed.

Lemma is_some_and_false {A} (f : A → bool) o :
  is_some_and f o = false ↔ ∀ a, o = Some a → f a = false.
Proof. destruct o; naive_solver. Qed.

Lemma validate_groups_ok groups maximum :
  validate_groups groups maximum = Ok () ↔
  groups ≠ [] ∧ Z.of_nat (length groups) ≤ maximum ∧ NoDup groups ∧
  Forall (λ g, valid_private_name g = true) groups.
Proof.
  unfold validate_groups. guards. rewrite any_bad_or_repeated_false, is_nil_false.
  setoid_rewrite negb_false_iff. set_solver.
Qed.

Lemma validate_peer_ok groups peer : validate_peer groups peer = Ok () ↔ peer_wf groups peer.
Proof.
  destruct peer; simpl; [| | done]; guards.
  - by rewrite bool_decide_true_iff.
  - unfold is_nil_uuid. by rewrite N.eqb_neq.
Qed.

Lemma validate_rule_wf groups rule : validate_rule groups rule = Ok () → rule_wf groups rule.
Proof.
  unfold validate_rule. guards. rewrite is_some_and_false, !Forall_cons, !validate_peer_ok.
  intros (_ & [Hport Hend] & Hs & Hd & _). constructor; try done.
  intros last Hlast. specialize (Hend last Hlast). lia.
Qed.

(** A VPC specification that passes validation is closed and well
    formed: its security group names are non-empty, bounded in number,
    pairwise different DNS labels; there are at most 128 rules; every rule
    covers a non-empty ascending port range that starts above zero, and both
    of its peers are the VPC itself, a non-nil service or a security group
    that this specification declares. *)
Lemma vpc_validate_sound s : VpcSpec_validate s = Ok () → vpc_wf s.
Proof.
  unfold VpcSpec_validate. repeat setoid_rewrite guard_ok. rewrite seq_ok, validate_groups_ok.
  guards. intros (_ & _ & (? & ? & ? & ?) & ? & Hrules). constructor; try done.
  eapply Forall_impl; [exact Hrules | apply validate_rule_wf].
Qed.

Definition witness_vpc : VpcSpec := {|
  vpc_region := "tokyo";
  description := "coder";
  nat_enabled := false;
  security_groups := ["coder"; "workspaces"];
  rules := [{| rule_description := "ssh"; source := SecurityGroup "coder";
               destination := SecurityGroup "workspaces"; rule_protocol := Tcp;
               rule_port := 22; end_port := Some 23 |}];
|}.

