(* ===== verification/Flash.v ===== *)
(** * Flash service specifications

    [FlashSpec] of [heterocloud-domain/src/lib.rs] with its validation
    ([FlashSpec::validate] and [validate_request], both [validate_inner]).
    [validate_inner] is one long function of consecutive checks; it is split
    here into the sections of checks it consists of, run in the same order. *)
From S2P Require Import Prelude Text Json Net Policy Quota Specs.

(** ** What is used of the [url] crate *)

(** A parsed URL, by the accessors the program calls. *)
Record Url := {
  scheme : string;
  host_str : option string;
  (** The address, if the host is one. *)
  host_address : option IpAddr;
  path : string;
  username : string;
  password : option string;
  query : option string;
  fragment : option string;
}.

Class UrlLib := {
  url_parse : string → option Url;
}.

(** ** Ordered maps

    [BTreeMap<String, V>] as the list of its entries in iteration order. *)
Definition BTreeMap (V : Type) := list (string * V).

Definition contains_key {V} (k : string) (m : BTreeMap V) : bool := is_some (field k m).

(** [BTreeMap::insert]: the previous value and the new map. *)
Fixpoint bt_insert {V} (k : string) (v : V) (m : BTreeMap V) : option V * BTreeMap V :=
  match m with
  | [] => (None, [(k, v)])
  | (k', v') :: m' =>
      match String.compare k k' with
      | Lt => (None, (k, v) :: m)
      | Eq => (Some v', (k, v) :: m')
      | Gt => let '(old, m'') := bt_insert k v m' in (old, (k', v') :: m'')
      end
  end.

(** ** Data *)

Definition MAX_FLASH_GPU_TYPE_LENGTH : Z := 63.
Definition DEFAULT_FLASH_EPHEMERAL_STORAGE_GIB : Z := 10.
Definition DEFAULT_FLASH_IDLE_TIMEOUT_SECONDS : Z := 900.
Definition MIN_FLASH_IDLE_TIMEOUT_SECONDS : Z := 60.
Definition MAX_FLASH_IDLE_TIMEOUT_SECONDS : Z := 86400.
Definition MIN_FLASH_SERVICE_PORT : Z := 30000.
Definition MAX_FLASH_SERVICE_PORT : Z := 32767.
Definition MAX_FLASH_PORTS : Z := 16.
Definition MAX_FLASH_SOURCE_CIDRS : Z := 64.
Definition MAX_FLASH_DESTINATION_CIDRS : Z := 64.
Definition MAX_FLASH_REGION_LENGTH : Z := 63.
Definition MAX_FLASH_IMAGE_LENGTH : Z := 512.
Definition MAX_FLASH_PORT_NAME_LENGTH : Z := 63.
Definition MAX_FLASH_ENV_VARS : Z := 128.
Definition MAX_FLASH_SECRET_ENV : Z := 32.
Definition MAX_FLASH_ENV_KEY_LENGTH : Z := 253.
Definition MAX_FLASH_ENV_VALUE_LENGTH : Z := 16 * 1024.
Definition MAX_FLASH_COMMAND_PARTS : Z := 128.
Definition MAX_FLASH_ARGS : Z := 256.
Definition MAX_FLASH_PROCESS_VALUE_LENGTH : Z := 4 * 1024.
Definition MAX_FLASH_METADATA_BYTES : Z := 64 * 1024.

Record FlashPort := {
  port_name : string;
  protocol : FlashProtocol;
  container_port : Z;
  service_port : Z;
}.

Inductive FlashExposureType := Internal | Public.
Inductive FlashTrafficMode := Forwarded | Direct.
Inductive FlashEndpointMode := Ip | LoadBalancer | Web.
Inductive FlashEgressMode := Disabled | Restricted | Internet.

#[export] Instance FlashExposureType_eq_dec : EqDecision FlashExposureType.
Proof. solve_decision. Defined.
#[export] Instance FlashTrafficMode_eq_dec : EqDecision FlashTrafficMode.
Proof. solve_decision. Defined.
#[export] Instance FlashEndpointMode_eq_dec : EqDecision FlashEndpointMode.
Proof. solve_decision. Defined.
#[export] Instance FlashEgressMode_eq_dec : EqDecision FlashEgressMode.
Proof. solve_decision. Defined.

Record FlashOidcAuthentication := {
  issuer_url : string;
  client_id : string;
  client_secret_ref : string;
  scopes : list string;
}.

Record FlashExposure := {
  exposure_type : FlashExposureType;
  traffic_mode : FlashTrafficMode;
  endpoint_mode : FlashEndpointMode;
  allowed_source_cidrs : list string;
  denied_source_cidrs : list string;
  authentication : option FlashOidcAuthentication;
}.

Record FlashEgress := {
  mode : FlashEgressMode;
  allow_same_organization : bool;
  allowed_destination_cidrs : list string;
  denied_destination_cidrs : list string;
}.

Definition FlashEgress_default : FlashEgress := {|
  mode := Internet;
  allow_same_organization := false;
  allowed_destination_cidrs := [];
  denied_destination_cidrs := [];
|}.

Record FlashAutoscaling := {
  min_replicas : Z;
  max_replicas : Z;
  target_cpu_utilization_percent : option Z;
  target_memory_utilization_percent : option Z;
  idle_timeout_seconds : Z;
}.

Record FlashSpec := {
  region : string;
  image : string;
  deployment : option DeploymentPolicy;
  task_role : option Uuid;
  replicas : Z;
  stopped : bool;
  autoscaling : option FlashAutoscaling;
  cpu_millis : Z;
  memory_mib : Z;
  gpu_type : option string;
  ephemeral_storage_gib : Z;
  rootfs_storage_gib : option Z;
  persistent_storage_gib : option Z;
  restore_from_backup_id : option Uuid;
  ports : list FlashPort;
  exposure : FlashExposure;
  egress : FlashEgress;
  network : option FlashVpcAttachment;
  env : BTreeMap string;
  secret_env : BTreeMap string;
  secret_files : BTreeMap string;
  command : list string;
  args : list string;
  metadata : BTreeMap Value;
}.

Definition option_u32 (o : option Z) : Prop := from_option is_u32 True o.

#[export] Instance flash_representable : Representable FlashSpec := λ s,
  is_u32 (replicas s) ∧ is_u32 (cpu_millis s) ∧ is_u32 (memory_mib s) ∧
  is_u32 (ephemeral_storage_gib s) ∧ option_u32 (rootfs_storage_gib s) ∧
  option_u32 (persistent_storage_gib s) ∧
  match autoscaling s with
  | Some a => is_u32 (min_replicas a) ∧ is_u32 (max_replicas a) ∧
      option_u32 (target_cpu_utilization_percent a) ∧
      option_u32 (target_memory_utilization_percent a) ∧ is_u32 (idle_timeout_seconds a)
  | None => True
  end ∧
  match deployment s with
  | Some d => is_u32 (deadline_seconds d) ∧
      from_option (λ c, is_u16 (check_port c)) True (health_check d)
  | None => True
  end ∧
  Forall (λ p, is_u16 (container_port p) ∧ is_u16 (service_port p)) (ports s).

(** The ceiling of the autoscaler, not the current number of replicas. *)
Definition reserved_replicas (s : FlashSpec) : Z :=
  match autoscaling s with Some scaling => max_replicas scaling | None => replicas s end.

(** ** Names *)

Definition lowercase_or_digit (b : Z) : bool := is_ascii_lowercase b || is_ascii_digit b.

Definition valid_flash_port_name (name : string) : bool :=
  negb (is_empty name) && (len name <=? MAX_FLASH_PORT_NAME_LENGTH)
  && is_some_and is_ascii_lowercase (first_byte name)
  && is_some_and lowercase_or_digit (last_byte name)
  && forallb lowercase_digit_hyphen (bytes name).

Definition valid_flash_gpu_type (gpu_type : string) : bool :=
  negb (is_empty gpu_type) && (len gpu_type <=? MAX_FLASH_GPU_TYPE_LENGTH)
  && forallb lowercase_digit_hyphen (bytes gpu_type)
  && negb (starts_with_byte HYPHEN gpu_type) && negb (ends_with_byte HYPHEN gpu_type).

Definition valid_flash_env_name (name : string) : bool :=
  negb (is_empty name) && (len name <=? MAX_FLASH_ENV_KEY_LENGTH)
  && is_some_and (λ b, is_ascii_alphabetic b || (b =? UNDERSCORE)) (first_byte name)
  && forallb (λ b, is_ascii_alphanumeric b || (b =? UNDERSCORE)) (bytes name).

Definition invalid_flash_spec (message : string) : DomainError := InvalidFlashSpec message.
Definition oidc_error (message : string) : DomainError := invalid_flash_spec message.

Definition validate_process_values (values : list string) (maximum_parts : Z)
    : result DomainError () :=
  fail_if (maximum_parts <? Z.of_nat (length values))
    (invalid_flash_spec "{field} must contain at most {maximum_parts} entries") ;;
  fail_if (existsb (λ value, is_empty value || (MAX_FLASH_PROCESS_VALUE_LENGTH <? len value)
                             || contains_byte 0 value) values)
    (invalid_flash_spec "{field} entries must be non-empty, at most {MAX_FLASH_PROCESS_VALUE_LENGTH} bytes, and cannot contain NUL").

(** ** Browser authentication *)

Definition invalid_secret_ref (r : string) : bool :=
  is_empty r || (63 <? len r)
  || negb (is_some_and is_ascii_alphanumeric (first_byte r))
  || negb (is_some_and is_ascii_alphanumeric (last_byte r))
  || existsb (λ b, negb (is_ascii_lowercase b) && negb (is_ascii_digit b) && negb (b =? HYPHEN))
       (bytes r).

Definition invalid_scope (scope : string) : bool :=
  is_empty scope || (128 <? len scope)
  || existsb (λ b, negb (in_range 0x21 0x7e b) || (b =? 34) || (b =? 92)) (bytes scope).

Definition FlashOidcAuthentication_validate `{UrlLib} (a : FlashOidcAuthentication)
    : result DomainError () :=
  issuer ← ok_or (oidc_error "issuer_url must be an absolute HTTPS issuer URL")
             (url_parse (issuer_url a));
  fail_if ((2048 <? len (issuer_url a))
           || negb (String.eqb (scheme issuer) "https")
           || negb (is_some (host_str issuer))
           || negb (is_empty (username issuer))
           || is_some (password issuer) || is_some (query issuer) || is_some (fragment issuer)
           || existsb is_whitespace (chars (issuer_url a))
           || existsb is_control (chars (issuer_url a)))
    (oidc_error "issuer_url must be HTTPS without credentials, query or fragment") ;;
  fail_if (is_empty (client_id a) || (256 <? len (client_id a))
           || existsb is_control (chars (client_id a)))
    (oidc_error "OIDC client_id must contain 1 to 256 characters without controls") ;;
  fail_if (invalid_secret_ref (client_secret_ref a))
    (oidc_error "client_secret_ref must be a lowercase DNS label of at most 63 characters") ;;
  fail_if ((16 <? Z.of_nat (length (scopes a))) || existsb invalid_scope (scopes a)
           || negb (length (remove_dups (scopes a)) =? length (scopes a))%nat)
    (oidc_error "OIDC scopes must be at most 16 unique nonempty scope tokens").

(** ** Networks a service may reach or be reached from *)

Section Cidrs.
Context `{IpNetLib}.

(** One entry: a CIDR block, or an address as a block of its own. *)
Definition parse_flash_cidr (value : string) : option IpNet :=
  trunc <$> match parse_ip_net value with
            | Some network => Some network
            | None => ip_net_from <$> parse_ip_addr value
            end.

Fixpoint parse_cidrs_loop (normalized : list IpNet) (values : list string)
    : result DomainError (list IpNet) :=
  match values with
  | [] => Ok normalized
  | value :: values =>
      fail_if (is_empty value || not_trimmed value)
        (invalid_flash_spec "{field} entries must be trimmed IP addresses or CIDRs") ;;
      network ← ok_or (invalid_flash_spec "{field} entry {value:?} must be an IPv4/IPv6 address or CIDR")
                  (parse_flash_cidr value);
      fail_if (bool_decide (network ∈ normalized))
        (invalid_flash_spec "{field} must not contain duplicate networks") ;;
      parse_cidrs_loop (normalized ++ [network]) values
  end.

(** The networks come in the order of the entries; the source's set sorts
    them, which only the text of a message depends on. *)
Definition parse_flash_cidrs (values : list string) (maximum : Z)
    : result DomainError (list IpNet) :=
  fail_if (maximum <? Z.of_nat (length values))
    (invalid_flash_spec "{field} must contain at most {maximum} entries") ;;
  parse_cidrs_loop [] values.

Definition validate_flash_source_cidrs (values : list string) : result DomainError () :=
  _ ← parse_flash_cidrs values MAX_FLASH_SOURCE_CIDRS; Ok ().

Definition protected_cidrs : list string :=
  ["::/128"; "::1/128"; "0.0.0.0/8"; "10.0.0.0/8"; "100.64.0.0/10"; "127.0.0.0/8";
   "169.254.0.0/16"; "172.16.0.0/12"; "192.0.0.0/24"; "192.88.99.0/24"; "192.168.0.0/16";
   "198.18.0.0/15"; "224.0.0.0/3"; "fc00::/7"; "fe80::/10"; "ff00::/8"].

Definition overlaps (a b : IpNet) : bool := net_contains a b || net_contains b a.

Definition validate_flash_egress (e : FlashEgress) : result DomainError () :=
  allowed ← parse_flash_cidrs (allowed_destination_cidrs e) MAX_FLASH_DESTINATION_CIDRS;
  _ ← parse_flash_cidrs (denied_destination_cidrs e) MAX_FLASH_DESTINATION_CIDRS;
  fail_if (negb (bool_decide (mode e = Restricted)) && negb (is_nil allowed))
    (invalid_flash_spec "allowed_destination_cidrs requires restricted egress mode") ;;
  protected ← collect (λ s, ok_or (invalid_flash_spec "protected destination CIDR configuration is invalid")
                              (parse_ip_net s)) protected_cidrs;
  fail_if (existsb (λ network, existsb (overlaps network) protected) allowed)
    (invalid_flash_spec "allowed destination {network} overlaps a protected private or infrastructure network").

End Cidrs.

(** ** The sections of [validate_inner] *)

Definition validate_flash_identity (s : FlashSpec) : result DomainError () :=
  match deployment s with
  | Some policy => map_err invalid_flash_spec (DeploymentPolicy_validate policy)
  | None => Ok ()
  end ;;
  fail_if (is_empty (region s) || (MAX_FLASH_REGION_LENGTH <? len (region s))
           || existsb (λ b, negb (is_ascii_lowercase b) && negb (is_ascii_digit b)
                            && negb (b =? HYPHEN)) (bytes (region s))
           || starts_with_byte HYPHEN (region s) || ends_with_byte HYPHEN (region s))
    (invalid_flash_spec "region must be a 1..{MAX_FLASH_REGION_LENGTH} character lowercase DNS label") ;;
  fail_if (is_empty (image s) || (MAX_FLASH_IMAGE_LENGTH <? len (image s))
           || existsb is_whitespace (chars (image s)) || existsb is_control (chars (image s)))
    (invalid_flash_spec "image must be a 1..512 character container image reference without whitespace").

Definition validate_flash_autoscaling (s : FlashSpec) (scaling : FlashAutoscaling)
    : result DomainError () :=
  fail_if ((max_replicas scaling <? min_replicas scaling)
           || negb (in_range (Z.max (min_replicas scaling) 1) (max_replicas scaling) (replicas s)))
    (invalid_flash_spec "autoscaling requires min_replicas >= 0, max_replicas >= min_replicas, and replicas within these bounds") ;;
  fail_if ((min_replicas scaling =? 0) && negb (bool_decide (endpoint_mode (exposure s) = Web)))
    (invalid_flash_spec "min_replicas=0 requires the HTTP/HTTPS web endpoint mode") ;;
  fail_if (negb (in_range MIN_FLASH_IDLE_TIMEOUT_SECONDS MAX_FLASH_IDLE_TIMEOUT_SECONDS
                   (idle_timeout_seconds scaling)))
    (invalid_flash_spec "idle_timeout_seconds must be between {MIN_FLASH_IDLE_TIMEOUT_SECONDS} and {MAX_FLASH_IDLE_TIMEOUT_SECONDS}") ;;
  let targets := [target_cpu_utilization_percent scaling;
                  target_memory_utilization_percent scaling] in
  fail_if (forallb (λ t, negb (is_some t)) targets
           || existsb (λ t, is_some_and (λ target, negb (in_range 1 100 target)) t) targets)
    (invalid_flash_spec "autoscaling requires at least one CPU or memory utilization target, each between 1 and 100").

Definition validate_flash_scaling (s : FlashSpec) : result DomainError () :=
  fail_if (negb (in_range MIN_FLASH_REPLICAS MAX_FLASH_REPLICAS (replicas s)))
    (invalid_flash_spec "replicas must be between {MIN_FLASH_REPLICAS} and {MAX_FLASH_REPLICAS}") ;;
  match autoscaling s with
  | Some scaling => validate_flash_autoscaling s scaling
  | None => Ok ()
  end.

Definition validate_flash_compute (s : FlashSpec) : result DomainError () :=
  fail_if (negb (in_range MIN_FLASH_CPU_MILLIS MAX_FLASH_CPU_MILLIS (cpu_millis s)))
    (invalid_flash_spec "cpu_millis must be between {MIN_FLASH_CPU_MILLIS} and {MAX_FLASH_CPU_MILLIS}") ;;
  fail_if (negb (in_range MIN_FLASH_MEMORY_MIB MAX_FLASH_MEMORY_MIB (memory_mib s)))
    (invalid_flash_spec "memory_mib must be between {MIN_FLASH_MEMORY_MIB} and {MAX_FLASH_MEMORY_MIB}") ;;
  fail_if (is_some_and (λ g, negb (valid_flash_gpu_type g)) (gpu_type s))
    (invalid_flash_spec "gpu_type must be a lowercase DNS label of at most {MAX_FLASH_GPU_TYPE_LENGTH} bytes") ;;
  fail_if (is_some (gpu_type s)
           && (negb (replicas s =? 1)
               || is_some_and (λ scaling, negb (max_replicas scaling =? 1)) (autoscaling s)))
    (invalid_flash_spec "GPU services require replicas=1 and autoscaling.max_replicas=1").

Definition validate_flash_storage (s : FlashSpec) : result DomainError () :=
  fail_if (negb (in_range MIN_FLASH_EPHEMERAL_STORAGE_GIB MAX_FLASH_EPHEMERAL_STORAGE_GIB
                   (ephemeral_storage_gib s)))
    (invalid_flash_spec "ephemeral_storage_gib must be between {MIN_FLASH_EPHEMERAL_STORAGE_GIB} and {MAX_FLASH_EPHEMERAL_STORAGE_GIB}") ;;
  fail_if (is_some_and (λ rootfs, (rootfs =? 0) || (ephemeral_storage_gib s <=? rootfs))
             (rootfs_storage_gib s))
    (invalid_flash_spec "rootfs_storage_gib must be at least 1 and less than ephemeral_storage_gib") ;;
  fail_if (is_some_and (λ persistent, (persistent =? 0)
              || (ephemeral_storage_gib s <=? persistent + default 1 (rootfs_storage_gib s)))
             (persistent_storage_gib s))
    (invalid_flash_spec "persistent_storage_gib must be at least 1 and leave room for the image and container filesystem within ephemeral_storage_gib").

(** Whether the service is reached only inside its VPC, on the port the
    container listens on. *)
Definition vpc_internal (s : FlashSpec) : bool :=
  is_some (network s) && bool_decide (exposure_type (exposure s) = Internal).

Definition bad_service_port (s : FlashSpec) (port : FlashPort) : bool :=
  if vpc_internal s then negb (service_port port =? container_port port)
  else negb (in_range MIN_FLASH_SERVICE_PORT MAX_FLASH_SERVICE_PORT (service_port port)).

Fixpoint validate_ports_loop (s : FlashSpec) (require_assigned : bool)
    (port_names : list string) (service_ports : list (FlashProtocol * Z)) (l : list FlashPort)
    : result DomainError () :=
  match l with
  | [] => Ok ()
  | port :: l =>
      fail_if (negb (valid_flash_port_name (port_name port)))
        (invalid_flash_spec "port names must be unique lowercase DNS labels of at most 63 characters") ;;
      fail_if (bool_decide (port_name port ∈ port_names))
        (invalid_flash_spec "port names must be unique") ;;
      fail_if (container_port port =? 0)
        (invalid_flash_spec "container_port must be between 1 and 65535") ;;
      fail_if (require_assigned && bad_service_port s port)
        (invalid_flash_spec "service_port must be assigned between {MIN_FLASH_SERVICE_PORT} and {MAX_FLASH_SERVICE_PORT}") ;;
      fail_if (require_assigned
               && bool_decide ((protocol port, service_port port) ∈ service_ports))
        (invalid_flash_spec "service_port must be unique within each protocol") ;;
      validate_ports_loop s require_assigned (port_name port :: port_names)
        ((protocol port, service_port port) :: service_ports) l
  end.

Definition validate_flash_ports (require_assigned : bool) (s : FlashSpec) : result DomainError () :=
  fail_if (MAX_FLASH_PORTS <? Z.of_nat (length (ports s)))
    (invalid_flash_spec "ports must contain at most {MAX_FLASH_PORTS} entries") ;;
  validate_ports_loop s require_assigned [] [] (ports s).

Definition one_tcp_port (s : FlashSpec) : bool :=
  match ports s with [port] => bool_decide (protocol port = Tcp) | _ => false end.

Section Validate.
Context `{IpNetLib, UrlLib, JsonText}.

Definition validate_flash_exposure (s : FlashSpec) : result DomainError () :=
  let e := exposure s in
  fail_if (bool_decide (exposure_type e = Internal) && negb (bool_decide (traffic_mode e = Forwarded)))
    (invalid_flash_spec "internal exposure requires forwarded traffic_mode") ;;
  fail_if ((bool_decide (endpoint_mode e = LoadBalancer) || bool_decide (endpoint_mode e = Web))
           && (negb (bool_decide (exposure_type e = Public))
               || negb (bool_decide (traffic_mode e = Forwarded))))
    (invalid_flash_spec "load_balancer and web endpoint_mode require public exposure and forwarded traffic_mode") ;;
  match authentication e with
  | Some authentication =>
      fail_if (negb (bool_decide (endpoint_mode e = Web)))
        (invalid_flash_spec "OIDC authentication requires the HTTP/HTTPS web endpoint mode") ;;
      FlashOidcAuthentication_validate authentication
  | None => Ok ()
  end ;;
  (if bool_decide (endpoint_mode e = Web) then
     fail_if (negb (one_tcp_port s))
       (invalid_flash_spec "web endpoint_mode requires exactly one TCP port") ;;
     fail_if (negb (is_nil (allowed_source_cidrs e)) || negb (is_nil (denied_source_cidrs e)))
       (invalid_flash_spec "web endpoint_mode does not support allowed_source_cidrs or denied_source_cidrs")
   else Ok ()) ;;
  validate_flash_source_cidrs (allowed_source_cidrs e) ;;
  validate_flash_source_cidrs (denied_source_cidrs e).

Definition validate_flash_network (s : FlashSpec) : result DomainError () :=
  validate_flash_egress (egress s) ;;
  match network s with
  | Some network =>
      FlashVpcAttachment_validate network ;;
      fail_if (allow_same_organization (egress s))
        (invalid_flash_spec "VPC attachments use VPC connection rules; allow_same_organization must be false")
  | None => Ok ()
  end.

Definition validate_env_entry (entry : string * string) : result DomainError () :=
  fail_if (negb (valid_flash_env_name (fst entry)))
    (invalid_flash_spec "environment variable names must be valid C identifiers") ;;
  fail_if ((MAX_FLASH_ENV_VALUE_LENGTH <? len (snd entry)) || contains_byte 0 (snd entry))
    (invalid_flash_spec "environment variable values must be at most {MAX_FLASH_ENV_VALUE_LENGTH} bytes and cannot contain NUL").

(** The environment variable a secret file stands for. *)
Definition secret_file_env_name (file_name : string) : string :=
  replace_byte HYPHEN UNDERSCORE (to_ascii_uppercase file_name).

Definition add_secret_file (effective : BTreeMap string) (entry : string * string)
    : result DomainError (BTreeMap string) :=
  match bt_insert (secret_file_env_name (fst entry)) (snd entry) effective with
  | (None, effective) => Ok effective
  | (Some _, _) =>
      Err (invalid_flash_spec "secret environment variable {env_name} is configured more than once")
  end.

Definition effective_secret_env (s : FlashSpec) : result DomainError (BTreeMap string) :=
  fold_result add_secret_file (secret_env s) (secret_files s).

Definition workload_identity_env : list string :=
  ["HETEROCLOUD_ENDPOINT"; "HETEROCLOUD_ORGANIZATION_ID"; "HETEROCLOUD_WORKLOAD_TOKEN_FILE"].

Definition validate_secret_env_entry (s : FlashSpec) (entry : string * string)
    : result DomainError () :=
  fail_if (negb (valid_flash_env_name (fst entry)) || negb (valid_flash_port_name (snd entry)))
    (invalid_flash_spec "secret_env must map valid environment variable names to secret names") ;;
  fail_if (contains_key (fst entry) (env s))
    (invalid_flash_spec "environment variable {env_name} is configured as both plain text and a secret").

Definition validate_flash_env (s : FlashSpec) : result DomainError () :=
  fail_if (MAX_FLASH_ENV_VARS <? Z.of_nat (length (env s)))
    (invalid_flash_spec "env must contain at most {MAX_FLASH_ENV_VARS} entries") ;;
  for_each validate_env_entry (env s) ;;
  secret_env ← effective_secret_env s;
  fail_if (MAX_FLASH_SECRET_ENV <? Z.of_nat (length secret_env))
    (invalid_flash_spec "secret_env must contain at most {MAX_FLASH_SECRET_ENV} entries") ;;
  for_each (λ entry,
    fail_if (negb (valid_flash_port_name (fst entry)) || negb (valid_flash_port_name (snd entry)))
      (invalid_flash_spec "secret_files names must be lowercase DNS labels of at most 63 bytes"))
    (secret_files s) ;;
  fail_if (is_some (task_role s)
           && existsb (λ key, contains_key key (env s) || contains_key key secret_env)
                workload_identity_env)
    (invalid_flash_spec "task_role reserves the HeteroCloud workload identity environment settings") ;;
  for_each (validate_secret_env_entry s) secret_env.

Definition validate_flash_process (s : FlashSpec) : result DomainError () :=
  validate_process_values (command s) MAX_FLASH_COMMAND_PARTS ;;
  validate_process_values (args s) MAX_FLASH_ARGS ;;
  metadata_bytes ← ok_or (invalid_flash_spec "metadata must be valid JSON")
                     (to_vec (Object (metadata s)));
  fail_if (MAX_FLASH_METADATA_BYTES <? Z.of_nat (length metadata_bytes))
    (invalid_flash_spec "metadata must not exceed {MAX_FLASH_METADATA_BYTES} serialized bytes").

Definition FlashSpec_validate_inner (s : FlashSpec) (require_assigned_service_ports : bool)
    : result DomainError () :=
  validate_flash_identity s ;;
  validate_flash_scaling s ;;
  validate_flash_compute s ;;
  validate_flash_storage s ;;
  validate_flash_ports require_assigned_service_ports s ;;
  validate_flash_exposure s ;;
  validate_flash_network s ;;
  validate_flash_env s ;;
  validate_flash_process s.

Definition FlashSpec_validate (s : FlashSpec) : result DomainError () :=
  FlashSpec_validate_inner s true.
Definition FlashSpec_validate_request (s : FlashSpec) : result DomainError () :=
  FlashSpec_validate_inner s false.

End Validate.

(** ** What validation establishes *)

Definition port_key (p : FlashPort) : FlashProtocol * Z := (protocol p, service_port p).

Definition port_wf (s : FlashSpec) (require_assigned : bool) (p : FlashPort) : Prop :=
  valid_flash_port_name (port_name p) = true ∧ container_port p ≠ 0 ∧
  (require_assigned = true → bad_service_port s p = false).

Lemma validate_ports_loop_ok s req names keys l :
  validate_ports_loop s req names keys l = Ok () ↔
  Forall (port_wf s req) l ∧
  NoDup (port_name <$> l) ∧ (∀ p, p ∈ l → port_name p ∉ names) ∧
  (req = true → NoDup (port_key <$> l) ∧ ∀ p, p ∈ l → port_key p ∉ keys).
Proof.
  revert names keys. induction l as [|p l IH]; intros names keys; simpl.
  - split; [intros _ | done]. split_and!; auto using NoDup_nil_2; [set_solver|].
    intros _. split; [apply NoDup_nil_2 | set_solver].
  - guards. rewrite IH, Forall_cons, !NoDup_cons, !bool_decide_false_iff.
    unfold port_wf. setoid_rewrite elem_of_cons. setoid_rewrite list_elem_of_fmap.
    fold (port_key p). split.
    + intros (Hn & Hseen & Hc & Hb & Hk & Hf & Hnd & Hdisj & Hreq). split_and!; try done.
      * intros ->. by destruct Hb.
      * intros (q & Hq & Hql). apply (Hdisj q Hql). auto.
      * intros q [->|Hq]; [done|]. intros ?. apply (Hdisj q Hq). auto.
      * intros ->. destruct Hk as [|Hk]; [done|]. destruct (Hreq eq_refl) as [Hnk Hkd].
        split_and!; try done.
        -- intros (q & Hq & Hql). apply (Hkd q Hql). auto.
        -- intros q [->|Hq]; [done|]. intros ?. apply (Hkd q Hq). auto.
    + intros ((( Hn & Hc & Hb) & Hf) & (Hnin & Hnd) & Hdisj & Hreq). split_and!; auto.
      * destruct req; auto.
      * destruct req; [right|left; done]. by apply (Hreq eq_refl); left.
      * intros q Hq [Heq|Hin]; [apply Hnin; eauto | by apply (Hdisj q); auto].
      * intros ->. destruct (Hreq eq_refl) as [[Hnk ?] Hkd].
        split; [done|]. intros q Hq [Heq|Hin]; [apply Hnk; eauto | by apply (Hkd q); auto].
Qed.

(** The ports of a validated service. *)
Record ports_wf (s : FlashSpec) : Prop := {
  ports_bounded : Z.of_nat (length (ports s)) ≤ MAX_FLASH_PORTS;
  port_names_unique : NoDup (port_name <$> ports s);
  port_names_valid : Forall (λ p, valid_flash_port_name (port_name p) = true) (ports s);
  container_ports_nonzero : Forall (λ p, container_port p ≠ 0) (ports s);
  service_ports_unique : NoDup (port_key <$> ports s);
  service_ports_public : vpc_internal s = false →
    Forall (λ p, MIN_FLASH_SERVICE_PORT ≤ service_port p ≤ MAX_FLASH_SERVICE_PORT) (ports s);
  service_ports_internal : vpc_internal s = true →
    Forall (λ p, service_port p = container_port p) (ports s);
}.

Lemma validate_flash_ports_ok req s :
  validate_flash_ports req s = Ok () ↔
  Z.of_nat (length (ports s)) ≤ MAX_FLASH_PORTS ∧ Forall (port_wf s req) (ports s) ∧
  NoDup (port_name <$> ports s) ∧ (req = true → NoDup (port_key <$> ports s)).
Proof. unfold validate_flash_ports. guards. rewrite validate_ports_loop_ok. set_solver. Qed.

Lemma validate_flash_ports_wf s : validate_flash_ports true s = Ok () → ports_wf s.
Proof.
  rewrite validate_flash_ports_ok. intros (? & Hwf & ? & Hkeys). specialize (Hkeys eq_refl).
  constructor; try done.
  - eapply Forall_impl; [exact Hwf|]. by intros p (? & _).
  - eapply Forall_impl; [exact Hwf|]. by intros p (_ & ? & _).
  - intros Hint. eapply Forall_impl; [exact Hwf|]. intros p (_ & _ & Hp).
    specialize (Hp eq_refl). unfold bad_service_port in Hp. rewrite Hint in Hp.
    by autorewrite with guards in Hp.
  - intros Hint. eapply Forall_impl; [exact Hwf|]. intros p (_ & _ & Hp).
    specialize (Hp eq_refl). unfold bad_service_port in Hp. rewrite Hint in Hp.
    by autorewrite with guards in Hp.
Qed.

(** The disk budget: the container filesystem and the persistent home, and at
    least one GiB for the image, fit into the disk. *)
Definition storage_wf (s : FlashSpec) : Prop :=
  (∀ r, rootfs_storage_gib s = Some r → r ≠ 0 ∧ r < ephemeral_storage_gib s) ∧
  (∀ p, persistent_storage_gib s = Some p →
     p ≠ 0 ∧ p + default 1 (rootfs_storage_gib s) < ephemeral_storage_gib s).

Lemma validate_flash_storage_wf s : validate_flash_storage s = Ok () → storage_wf s.
Proof.
  unfold validate_flash_storage, storage_wf. guards. rewrite !is_some_and_false.
  intros (_ & Hr & Hp). split.
  - intros r Hrs. specialize (Hr r Hrs). autorewrite with guards in Hr. lia.
  - intros p Hps. specialize (Hp p Hps). autorewrite with guards in Hp. lia.
Qed.

(** What is deployed, and how. *)
Record deployment_wf (d : DeploymentPolicy) : Prop := {
  deployment_strategy : strategy d ∈ ["auto"; "rolling"; "recreate"];
  deployment_rolling : strategy d = "rolling" → stateless d = true;
  deployment_deadline : 60 ≤ deadline_seconds d ≤ 3600;
  deployment_check c : health_check d = Some c →
    check_port c ≠ 0 ∧ ∀ p, check_path c = Some p →
      starts_with_byte SLASH p = true ∧ len p ≤ 1024 ∧ ∀ x, x ∈ chars p → is_control x = false;
}.

Lemma deployment_validate_wf d : DeploymentPolicy_validate d = Ok () → deployment_wf d.
Proof.
  unfold DeploymentPolicy_validate. guards. rewrite bool_decide_true_iff, is_some_and_false, String.eqb_neq.
  intros (Hs & Hr & Hd & Hc). constructor; try done.
  - intros E. by destruct Hr.
  - intros c [Hport%Z.eqb_neq Hpath]%Hc%orb_false_iff. split; [done|]. intros p Hp.
    apply (proj1 (is_some_and_false _ _)) with (a := p) in Hpath; [|done]. unfold invalid_health_path in Hpath.
    autorewrite with guards in Hpath. tauto.
Qed.

Record described_wf (s : FlashSpec) : Prop := {
  described_deployment d : deployment s = Some d → deployment_wf d;
  described_region : is_empty (region s) = false ∧ len (region s) ≤ MAX_FLASH_REGION_LENGTH ∧
    (∀ b, b ∈ bytes (region s) → lowercase_digit_hyphen b = true) ∧
    starts_with_byte HYPHEN (region s) = false ∧ ends_with_byte HYPHEN (region s) = false;
  described_image : is_empty (image s) = false ∧ len (image s) ≤ MAX_FLASH_IMAGE_LENGTH ∧
    ∀ c, c ∈ chars (image s) → is_whitespace c = false ∧ is_control c = false;
}.

Lemma validate_flash_identity_wf s : validate_flash_identity s = Ok () → described_wf s.
Proof.
  unfold validate_flash_identity. rewrite seq_ok, guard_ok, fail_if_ok, !orb_false_iff. intros (Hd & Hr & Hi).
  autorewrite with guards in Hr, Hi. destruct Hr as ((((? & ?) & Hb) & ?) & ?), Hi as (((? & ?) & Hw) & Hc).
  constructor.
  - intros d E. rewrite E in Hd. apply map_err_ok in Hd. by apply deployment_validate_wf.
  - split_and!; try done. intros b Hin. specialize (Hb b Hin). unfold lowercase_digit_hyphen.
    autorewrite with guards in *. tauto.
  - split_and!; try done. auto.
Qed.

(** The size of a replica. *)
Record compute_wf (s : FlashSpec) : Prop := {
  compute_cpu : MIN_FLASH_CPU_MILLIS ≤ cpu_millis s ≤ MAX_FLASH_CPU_MILLIS;
  compute_memory : MIN_FLASH_MEMORY_MIB ≤ memory_mib s ≤ MAX_FLASH_MEMORY_MIB;
  compute_disk : MIN_FLASH_EPHEMERAL_STORAGE_GIB ≤ ephemeral_storage_gib s ≤ MAX_FLASH_EPHEMERAL_STORAGE_GIB;
  compute_gpu g : gpu_type s = Some g → valid_flash_gpu_type g = true;
}.

Lemma validate_flash_compute_wf s :
  validate_flash_compute s = Ok () → validate_flash_storage s = Ok () → compute_wf s.
Proof.
  unfold validate_flash_compute, validate_flash_storage. guards. rewrite is_some_and_false.
  intros (? & ? & Hg & _) (? & _). constructor; try done.
  intros g Hs. by apply negb_false_iff, Hg.
Qed.

(** How a service scales: an idle time, and a target that can be met. *)
Record autoscaling_wf (a : FlashAutoscaling) : Prop := {
  autoscaling_range : min_replicas a ≤ max_replicas a;
  autoscaling_idle : MIN_FLASH_IDLE_TIMEOUT_SECONDS ≤ idle_timeout_seconds a ≤ MAX_FLASH_IDLE_TIMEOUT_SECONDS;
  autoscaling_target : target_cpu_utilization_percent a ≠ None ∨ target_memory_utilization_percent a ≠ None;
  autoscaling_percent t : Some t ∈ [target_cpu_utilization_percent a; target_memory_utilization_percent a] → 1 ≤ t ≤ 100;
}.

Lemma validate_flash_autoscaling_wf s a :
  validate_flash_scaling s = Ok () → autoscaling s = Some a → autoscaling_wf a.
Proof.
  unfold validate_flash_scaling. intros Hok E. rewrite guard_ok, E in Hok. destruct Hok as [_ Hok].
  unfold validate_flash_autoscaling in Hok. rewrite !guard_ok, fail_if_ok, !orb_false_iff in Hok.
  destruct Hok as ([Hrange%Z.ltb_ge _] & _ & Hidle%negb_false_iff%in_range_spec & Hsome & Hall).
  autorewrite with guards in Hall. constructor; try done.
  - simpl in Hsome. rewrite !andb_false_iff, !negb_false_iff in Hsome. destruct Hsome as [Hs|[Hs|Hs]]; [| |done].
    + left. by destruct (target_cpu_utilization_percent a).
    + right. by destruct (target_memory_utilization_percent a).
  - intros t Hin. specialize (Hall _ Hin). simpl in Hall. by apply negb_false_iff, in_range_spec in Hall.
Qed.

(** Scaling: the quota reserves at least the replicas that run, a GPU is never
    shared between replicas. *)
Record scaling_wf (s : FlashSpec) : Prop := {
  replicas_positive : 1 ≤ replicas s ≤ MAX_FLASH_REPLICAS;
  replicas_reserved : replicas s ≤ reserved_replicas s;
  gpu_single : gpu_type s ≠ None → replicas s = 1 ∧ reserved_replicas s = 1;
  autoscaling_bounds a : autoscaling s = Some a →
    min_replicas a ≤ replicas s ≤ max_replicas a;
  scale_to_zero_web a : autoscaling s = Some a → min_replicas a = 0 →
    endpoint_mode (exposure s) = Web;
}.

Lemma validate_flash_scaling_wf s :
  validate_flash_scaling s = Ok () → validate_flash_compute s = Ok () → scaling_wf s.
Proof.
  unfold validate_flash_scaling, validate_flash_compute. guards.
  intros [Hr Ha] (_ & _ & _ & Hgpu).
  assert (Hauto : ∀ a, autoscaling s = Some a →
    (Z.max (min_replicas a) 1 ≤ replicas s ≤ max_replicas a)
    ∧ (min_replicas a = 0 → endpoint_mode (exposure s) = Web)).
  { intros a E. rewrite E in Ha. unfold validate_flash_autoscaling in Ha. guards_in Ha.
    rewrite bool_decide_true_iff in Ha. destruct Ha as ([_ ?] & Hweb & _). split; [done|].
    intros. destruct Hweb; [lia | done]. }
  unfold MIN_FLASH_REPLICAS in Hr. constructor; try done.
  - unfold reserved_replicas. destruct (autoscaling s) as [a|] eqn:E; [|done]. by apply (Hauto a).
  - intros Hsome. unfold reserved_replicas. destruct (gpu_type s); [|done]. simpl in Hgpu.
    destruct Hgpu as [|[H1 H2]]; [done|]. split; [done|].
    destruct (autoscaling s); simpl in *; autorewrite with guards in *; done.
  - intros a E. destruct (Hauto a E). lia.
  - intros a E. by apply (Hauto a).
Qed.

(** *** Lists of networks *)

Section CidrLists.
Context `{IpNetLib}.

Lemma parse_cidrs_loop_ok values acc nets :
  parse_cidrs_loop acc values = Ok nets ↔
  ∃ new, nets = acc ++ new ∧
    Forall2 (λ v n, is_empty v = false ∧ not_trimmed v = false ∧ parse_flash_cidr v = Some n)
      values new ∧
    NoDup new ∧ (∀ n, n ∈ new → n ∉ acc).
Proof.
  revert acc. induction values as [|v values IH]; intros acc; simpl.
  - split.
    + intros [= <-]. exists []. rewrite app_nil_r. split_and!; auto using NoDup_nil_2. set_solver.
    + intros (new & -> & Hf & _). inversion Hf. by rewrite app_nil_r.
  - rewrite guard_ok, bind_ok. setoid_rewrite guard_ok. setoid_rewrite ok_or_ok.
    setoid_rewrite IH. setoid_rewrite bool_decide_false_iff. rewrite orb_false_iff. split.
    + intros (? & n & Hn & Hnew & new & -> & Hf & Hnd & Hdisj). exists (n :: new).
      rewrite <- app_assoc. split; [done|]. rewrite NoDup_cons. split_and!; try set_solver.
    + intros (new & -> & Hf & Hnd & Hdisj). inversion Hf as [|? n ? new' Hv Hf' ]; simplify_eq.
      apply NoDup_cons in Hnd as [Hnin Hnd]. split; [tauto|]. exists n.
      split; [tauto|]. split; [set_solver|]. exists new'. rewrite <- app_assoc. set_solver.
Qed.

(** A list of networks: bounded, each entry a trimmed address or block, no network
    twice. *)
Definition cidrs_wf (maximum : Z) (values : list string) (nets : list IpNet) : Prop :=
  Z.of_nat (length values) ≤ maximum ∧
  Forall2 (λ v n, is_empty v = false ∧ not_trimmed v = false ∧ parse_flash_cidr v = Some n) values nets ∧ NoDup nets.

Lemma parse_flash_cidrs_ok values maximum nets :
  parse_flash_cidrs values maximum = Ok nets → cidrs_wf maximum values nets.
Proof.
  unfold parse_flash_cidrs, cidrs_wf. guards. rewrite parse_cidrs_loop_ok.
  intros (? & new & -> & ? & ? & _). done.
Qed.

(** What a service may reach: destinations are listed only in the restricted mode,
    and none overlaps a protected block. *)
Record egress_wf (e : FlashEgress) : Prop := {
  egress_allowed : ∃ nets, cidrs_wf MAX_FLASH_DESTINATION_CIDRS (allowed_destination_cidrs e) nets ∧
    ∀ n block net, n ∈ nets → block ∈ protected_cidrs → parse_ip_net block = Some net → overlaps n net = false;
  egress_denied : ∃ nets, cidrs_wf MAX_FLASH_DESTINATION_CIDRS (denied_destination_cidrs e) nets;
  egress_restricted : allowed_destination_cidrs e ≠ [] → mode e = Restricted;
}.

Lemma validate_flash_egress_wf e : validate_flash_egress e = Ok () → egress_wf e.
Proof.
  unfold validate_flash_egress. intros Hok. inv_ok Hok. rename x into allowed, x0 into denied, x1 into protected.
  apply parse_flash_cidrs_ok in Hok0 as Ha, Hok1 as Hd. apply collect_ok in Hok3. constructor.
  - exists allowed. split; [done|]. intros n block net Hn Hb Hnet. specialize (Hok n Hn). autorewrite with guards in Hok.
    apply list_elem_of_lookup in Hb as [j Hj].
    eapply Forall2_lookup_l in Hok3 as (m & Hm & Em%ok_or_ok); [|exact Hj]. simplify_eq.
    apply Hok. by eapply list_elem_of_lookup_2.
  - by exists denied.
  - intros Hne. destruct Hok2 as [->%bool_decide_true_iff | ->%is_nil_spec]; [done|].
    destruct Ha as (_ & Hf & _). by inversion Hf.
Qed.

End CidrLists.

(** Exposure: who can reach the service. *)
Record exposure_wf (s : FlashSpec) : Prop := {
  internal_forwarded : exposure_type (exposure s) = Internal →
    traffic_mode (exposure s) = Forwarded ∧ endpoint_mode (exposure s) = Ip;
  gateway_public : endpoint_mode (exposure s) ≠ Ip →
    exposure_type (exposure s) = Public ∧ traffic_mode (exposure s) = Forwarded;
  authentication_web : authentication (exposure s) ≠ None → endpoint_mode (exposure s) = Web;
  web_one_port : endpoint_mode (exposure s) = Web →
    ∃ p, ports s = [p] ∧ protocol p = Tcp;
  web_no_cidrs : endpoint_mode (exposure s) = Web →
    allowed_source_cidrs (exposure s) = [] ∧ denied_source_cidrs (exposure s) = [];
}.

Lemma one_tcp_port_true s : one_tcp_port s = true → ∃ p, ports s = [p] ∧ protocol p = Tcp.
Proof.
  unfold one_tcp_port. destruct (ports s) as [|p [|]]; try done.
  rewrite bool_decide_true_iff. eauto.
Qed.

Section Sound.
Context `{IpNetLib, UrlLib, JsonText}.

Lemma validate_flash_exposure_wf s : validate_flash_exposure s = Ok () → exposure_wf s.
Proof.
  unfold validate_flash_exposure. repeat setoid_rewrite guard_ok.
  setoid_rewrite seq_ok. setoid_rewrite seq_ok. autorewrite with guards.
  rewrite !bool_decide_true_iff, !bool_decide_false_iff.
  intros (Hint & Hgw & Hauth & Hweb & _).
  assert (Hw : endpoint_mode (exposure s) = Web →
    one_tcp_port s = true ∧ allowed_source_cidrs (exposure s) = []
    ∧ denied_source_cidrs (exposure s) = []).
  { intros E. rewrite (bool_decide_true _ E) in Hweb. guards_in Hweb.
    by rewrite !is_nil_spec in Hweb. }
  constructor.
  - intros E. destruct Hint as [|Hf]; [done|]. split; [done|].
    clear Hauth Hweb. destruct Hgw as [[]|[]]; [|congruence]. by destruct (endpoint_mode (exposure s)).
  - intros E. clear Hauth Hweb. destruct Hgw as [[]|]; [|done].
    by destruct (endpoint_mode (exposure s)).
  - intros E. destruct (authentication (exposure s)); [|done]. guards_in Hauth.
    rewrite bool_decide_true_iff in Hauth. tauto.
  - intros E. by apply one_tcp_port_true, Hw.
  - intros E. by destruct (Hw E) as (_ & ?).
Qed.

(** The provider a web endpoint signs browsers in with. *)
Record oidc_wf (a : FlashOidcAuthentication) : Prop := {
  oidc_issuer : ∃ url, url_parse (issuer_url a) = Some url ∧ scheme url = "https" ∧ host_str url ≠ None ∧
    is_empty (username url) = true ∧ password url = None ∧ query url = None ∧ fragment url = None;
  oidc_issuer_text : len (issuer_url a) ≤ 2048 ∧
    ∀ c, c ∈ chars (issuer_url a) → is_whitespace c = false ∧ is_control c = false;
  oidc_client : is_empty (client_id a) = false ∧ len (client_id a) ≤ 256 ∧
    ∀ c, c ∈ chars (client_id a) → is_control c = false;
  oidc_secret : invalid_secret_ref (client_secret_ref a) = false;
  oidc_scopes : Z.of_nat (length (scopes a)) ≤ 16 ∧ NoDup (scopes a) ∧ ∀ x, x ∈ scopes a → invalid_scope x = false;
}.

Lemma remove_dups_length (l : list string) : (length (remove_dups l) ≤ length l)%nat.
Proof. induction l; simpl; [done|]. case_decide; simpl; lia. Qed.
Lemma remove_dups_full (l : list string) : length (remove_dups l) = length l → NoDup l.
Proof.
  induction l as [|x l IH]; simpl; [constructor|]. pose proof (remove_dups_length l). case_decide; simpl; intros Hl; [lia|].
  constructor; [done|]. apply IH. lia.
Qed.

Lemma oidc_validate_wf a : FlashOidcAuthentication_validate a = Ok () → oidc_wf a.
Proof.
  unfold FlashOidcAuthentication_validate. intros (url & Hurl%ok_or_ok & Hok)%bind_ok.
  rewrite !guard_ok, fail_if_ok, !orb_false_iff, !negb_false_iff in Hok.
  destruct Hok as ((((((((( Hlen & Hs) & Hh) & Hu) & Hp) & Hq) & Hf) & Hw) & Hc) & ((Hce & Hcl) & Hcc) & Hsec & (Hn & Hsc) & Hd).
  autorewrite with guards in *. constructor; try done.
  - exists url. apply String.eqb_eq in Hs. split_and!; try done;
      [by destruct (host_str url) | by destruct (password url) | by destruct (query url) | by destruct (fragment url)].
  - auto.
  - split_and!; try done. by apply remove_dups_full, Nat.eqb_eq.
Qed.

(** Where a service can be reached from, and who signs in. *)
Record sources_wf (s : FlashSpec) : Prop := {
  sources_allowed : ∃ nets, cidrs_wf MAX_FLASH_SOURCE_CIDRS (allowed_source_cidrs (exposure s)) nets;
  sources_denied : ∃ nets, cidrs_wf MAX_FLASH_SOURCE_CIDRS (denied_source_cidrs (exposure s)) nets;
  sources_oidc a : authentication (exposure s) = Some a → oidc_wf a;
}.

Lemma validate_source_cidrs_wf values :
  validate_flash_source_cidrs values = Ok () → ∃ nets, cidrs_wf MAX_FLASH_SOURCE_CIDRS values nets.
Proof. intros (nets & Hn%parse_flash_cidrs_ok & _)%bind_ok. by exists nets. Qed.

Lemma validate_flash_sources_wf s : validate_flash_exposure s = Ok () → sources_wf s.
Proof.
  unfold validate_flash_exposure. cbv zeta. rewrite !guard_ok, !seq_ok. intros (_ & _ & Ha & _ & Hallow & Hdeny).
  constructor; [by apply validate_source_cidrs_wf.. |].
  intros a E. rewrite E, guard_ok in Ha. by apply oidc_validate_wf, Ha.
Qed.

(** The networks of a service. *)
Record attachment_wf (a : FlashVpcAttachment) : Prop := {
  attachment_vpc : vpc_id a ≠ 0%N;
  attachment_groups : attached_groups a ≠ [] ∧ Z.of_nat (length (attached_groups a)) ≤ MAX_FLASH_SECURITY_GROUPS ∧
    NoDup (attached_groups a) ∧ Forall (λ g, valid_private_name g = true) (attached_groups a);
  attachment_name n : private_name a = Some n → valid_private_name n = true;
}.

(** What a service runs with: bounded values without a zero byte. *)
Definition process_values_wf (maximum : Z) (l : list string) : Prop :=
  Z.of_nat (length l) ≤ maximum ∧
  ∀ v, v ∈ l → is_empty v = false ∧ len v ≤ MAX_FLASH_PROCESS_VALUE_LENGTH ∧ contains_byte 0 v = false.

Lemma validate_process_values_wf l maximum :
  validate_process_values l maximum = Ok () → process_values_wf maximum l.
Proof.
  unfold validate_process_values, process_values_wf. guards. intros [? Hall]. split; [done|].
  intros v Hv. specialize (Hall v Hv). autorewrite with guards in Hall. tauto.
Qed.

Record process_wf (s : FlashSpec) : Prop := {
  process_command : process_values_wf MAX_FLASH_COMMAND_PARTS (command s);
  process_args : process_values_wf MAX_FLASH_ARGS (args s);
  process_metadata : ∃ text, to_vec (Object (metadata s)) = Some text ∧ Z.of_nat (length text) ≤ MAX_FLASH_METADATA_BYTES;
}.

Lemma validate_flash_process_wf s : validate_flash_process s = Ok () → process_wf s.
Proof.
  unfold validate_flash_process. rewrite !seq_ok. intros (Hc & Ha & (text & Ht%ok_or_ok & Hl%fail_if_ok)%bind_ok).
  constructor; [by apply validate_process_values_wf.. |]. exists text. split; [done|]. by apply Z.ltb_ge.
Qed.

(** The environment: no variable is both plain and secret, and the names the
    workload identity uses are free. *)
Record env_wf (s : FlashSpec) : Prop := {
  env_bounded : Z.of_nat (length (env s)) ≤ MAX_FLASH_ENV_VARS;
  env_names : Forall (λ e, valid_flash_env_name (fst e) = true ∧ len (snd e) ≤ MAX_FLASH_ENV_VALUE_LENGTH ∧
    contains_byte 0 (snd e) = false) (env s);
  secret_file_names : Forall (λ e, valid_flash_port_name (fst e) = true ∧ valid_flash_port_name (snd e) = true)
    (secret_files s);
  secret_env_effective : ∃ m, effective_secret_env s = Ok m ∧
    Z.of_nat (length m) ≤ MAX_FLASH_SECRET_ENV ∧
    Forall (λ e, valid_flash_env_name (fst e) = true ∧ valid_flash_port_name (snd e) = true ∧
      field (fst e) (env s) = None) m ∧
    (task_role s ≠ None → ∀ k, k ∈ workload_identity_env →
       field k (env s) = None ∧ field k m = None);
}.

Lemma contains_key_false {V} k (m : BTreeMap V) : contains_key k m = false ↔ field k m = None.
Proof. unfold contains_key. destruct (field k m); done. Qed.

Lemma validate_flash_env_wf s : validate_flash_env s = Ok () → env_wf s.
Proof.
  unfold validate_flash_env. rewrite guard_ok, seq_ok, bind_ok.
  intros (Hn & Henv & m & Hm & Hrest). rewrite guard_ok, seq_ok, guard_ok in Hrest.
  destruct Hrest as (Hlen & Hfiles & Hrole & Hsecret). autorewrite with guards in *. constructor; [lia|..].
  - eapply Forall_impl; [exact Henv|]. intros e He. unfold validate_env_entry in He.
    guards_in He. tauto.
  - eapply Forall_impl; [exact Hfiles|]. intros e He. by guards_in He.
  - exists m. split_and!; [done | lia | |].
    + eapply Forall_impl; [exact Hsecret|]. intros e He. unfold validate_secret_env_entry in He.
      guards_in He. rewrite contains_key_false in He. tauto.
    + intros Hr k Hk. destruct Hrole as [Hr'|Hrole]; [by destruct (task_role s)|].
      specialize (Hrole k Hk). autorewrite with guards in Hrole.
      by rewrite !contains_key_false in Hrole.
Qed.

Record flash_wf (s : FlashSpec) : Prop := {
  flash_described : described_wf s;
  flash_compute : compute_wf s;
  flash_scaling : scaling_wf s;
  flash_autoscaling a : autoscaling s = Some a → autoscaling_wf a;
  flash_storage : storage_wf s;
  flash_ports : ports_wf s;
  flash_exposure : exposure_wf s;
  flash_sources : sources_wf s;
  flash_egress : egress_wf (egress s);
  flash_vpc a : network s = Some a → attachment_wf a ∧ allow_same_organization (egress s) = false;
  flash_env : env_wf s;
  flash_process : process_wf s;
}.

Lemma validate_flash_network_wf s :
  validate_flash_network s = Ok () →
  egress_wf (egress s) ∧
  ∀ a, network s = Some a → attachment_wf a ∧ allow_same_organization (egress s) = false.
Proof.
  unfold validate_flash_network, FlashVpcAttachment_validate. rewrite seq_ok. intros [He Hok].
  split; [by apply validate_flash_egress_wf|]. intros a E.
  rewrite E, !seq_ok, !fail_if_ok, validate_groups_ok, is_some_and_false in Hok. unfold is_nil_uuid in Hok.
  rewrite N.eqb_neq in Hok. destruct Hok as ((Hv & Hg & Hn) & Hs). split; [|done]. constructor; [done..|].
  intros n Hname. by apply negb_false_iff, Hn.
Qed.

(** C32: A Flash specification that passes [validate] satisfies the
    invariant the store and the providers rely on, guard by guard: the
    deployment policy, the region and the image are well formed; CPU, memory,
    disk and the type of GPU are in range; the replicas that run are
    at least one and never more than the replicas the quota reserves; a GPU
    service has exactly one replica; scaling has an idle time and at least one target in range, and
    scaling to zero happens only behind the
    web gateway; the container filesystem and the persistent home fit into
    the disk with room for the image; port names and (protocol, service port)
    pairs are unique, and service ports lie in the node port range, or equal
    the container port for services reached only inside a VPC; internal
    services are forwarded on an IP, gateways are public; web endpoints have
    exactly one TCP port, no address filters, and only they authenticate
    browsers, with a well-formed provider; lists of source and destination networks are bounded, parse and
    repeat nothing, and no destination overlaps a protected block; an attachment to a VPC
    names it and its groups; environment variables, command, arguments and metadata are bounded;
    no environment variable is both plain text and secret; the
    workload identity variables are free when a task role is set. *)
Theorem flash_validate_sound s : FlashSpec_validate s = Ok () → flash_wf s.
Proof.
  unfold FlashSpec_validate, FlashSpec_validate_inner. rewrite !seq_ok.
  intros (Hi & Hs & Hc & Hd & Hp & He & [Hout Hvpc]%validate_flash_network_wf & Henv & Hproc).
  constructor; eauto using validate_flash_identity_wf, validate_flash_compute_wf, validate_flash_scaling_wf,
    validate_flash_autoscaling_wf, validate_flash_storage_wf, validate_flash_ports_wf, validate_flash_exposure_wf,
    validate_flash_sources_wf, validate_flash_env_wf, validate_flash_process_wf.
Qed.

Lemma validate_flash_ports_weaken s :
  validate_flash_ports true s = Ok () → validate_flash_ports false s = Ok ().
Proof.
  rewrite !validate_flash_ports_ok. intros (? & Hp & ? & _). split_and!; try done.
  eapply Forall_impl; [exact Hp|]. unfold port_wf. naive_solver.
Qed.

(** What is left to check between [validate_request] and [validate]: only the
    assigned service ports. *)
Lemma validate_request_ports s :
  FlashSpec_validate s = Ok () ↔
  FlashSpec_validate_request s = Ok () ∧ validate_flash_ports true s = Ok ().
Proof.
  unfold FlashSpec_validate, FlashSpec_validate_request, FlashSpec_validate_inner.
  rewrite !seq_ok. pose proof (validate_flash_ports_weaken s). tauto.
Qed.

End Sound.

(** ** Egress *)

Section Egress.
Context `{L : IpNetLib} `{!IpNetLaws L}.

(** An address an entry of an allow list stands for. *)
Definition entry_address (entry : string) (a : IpAddr) : Prop :=
  ∃ n, parse_flash_cidr entry = Some n ∧ addresses n a.

Lemma overlaps_spec n m a : addresses n a → addresses m a → overlaps n m = true.
Proof.
  intros Hn Hm. unfold overlaps. rewrite orb_true_iff. eapply contains_or_disjoint; eauto.
Qed.

(** A service cannot be given a route into the platform's private
    networks: if the egress settings pass validation, no address of an
    allowed destination lies in a protected block (loopback, link local,
    private, carrier grade, multicast and infrastructure ranges), and
    destinations are listed only in the restricted mode. *)
Lemma egress_avoids_protected e entry block net a :
  validate_flash_egress e = Ok () →
  entry ∈ allowed_destination_cidrs e →
  block ∈ protected_cidrs → parse_ip_net block = Some net →
  entry_address entry a →
  ¬ addresses net a ∧ mode e = Restricted.
Proof.
  intros [(nets & (_ & Hf & _) & Hdisjoint) _ Hmode]%validate_flash_egress_wf Hentry Hblock Hnet (n & Hn & Ha). split.
  - intros Hin. apply list_elem_of_lookup in Hentry as [i Hi].
    eapply Forall2_lookup_l in Hf as (n' & Hi' & _ & _ & E); [|exact Hi]. simplify_eq.
    specialize (Hdisjoint n block net ltac:(by eapply list_elem_of_lookup_2) Hblock Hnet).
    by rewrite (overlaps_spec n net a) in Hdisjoint.
  - apply Hmode. intros E. rewrite E in Hentry. set_solver.
Qed.

End Egress.

(** ** Concrete instances *)

(** The text of a JSON value, without escapes in strings. *)
Fixpoint json_bytes (v : Value) : list Z :=
  match v with
  | Null => bytes "null"
  | Bool b => bytes (if b then "true" else "false")
  | Num n => bytes (number_to_string n)
  | Str s => 34 :: bytes s ++ [34]
  | Array l => 91 :: concat ((λ v, json_bytes v ++ [44]) <$> l) ++ [93]
  | Object l => 123 :: concat ((λ e, 34 :: bytes (fst e) ++ [34; 58] ++ json_bytes (snd e) ++ [44]) <$> l) ++ [125]
  end.

Definition witness_json_text : JsonText := {| to_vec v := Some (json_bytes v) |}.

(** URLs that consist of a scheme and a host. *)
Definition witness_url_lib : UrlLib := {|
  url_parse s :=
    '(scheme, rest) ← split_once COLON s;
    host ← strip_prefix "//" rest;
    Some {| scheme := scheme; host_str := Some host; host_address := None; path := ""; username := ""; password := None;
            query := None; fragment := None |};
|}.

Definition witness_egress : FlashEgress := {|
  mode := Restricted;
  allow_same_organization := false;
  allowed_destination_cidrs := ["8.8.8.0/24"; "2001:db8::1"];
  denied_destination_cidrs := ["8.8.8.8"];
|}.

Definition witness_flash : FlashSpec := {|
  region := "tokyo-1";
  image := "registry.example/app:1";
  deployment := Some DeploymentPolicy_default;
  task_role := Some 7%N;
  replicas := 1;
  stopped := false;
  autoscaling := Some {| min_replicas := 0; max_replicas := 1;
                         target_cpu_utilization_percent := Some 80;
                         target_memory_utilization_percent := None;
                         idle_timeout_seconds := DEFAULT_FLASH_IDLE_TIMEOUT_SECONDS |};
  cpu_millis := 1000;
  memory_mib := 1024;
  gpu_type := Some "a100";
  ephemeral_storage_gib := 10;
  rootfs_storage_gib := Some 2;
  persistent_storage_gib := Some 4;
  restore_from_backup_id := None;
  ports := [{| port_name := "http"; protocol := Tcp; container_port := 8080;
               service_port := 30001 |}];
  exposure := {| exposure_type := Public; traffic_mode := Forwarded; endpoint_mode := Web;
                 allowed_source_cidrs := []; denied_source_cidrs := [];
                 authentication := Some {| issuer_url := "https://login.example";
                                           client_id := "app"; client_secret_ref := "oidc";
                                           scopes := ["openid"; "email"] |} |};
  egress := witness_egress;
  network := Some {| vpc_id := 9%N; attached_groups := ["default"]; private_name := Some "app" |};
  env := [("MODE", "production")];
  secret_env := [("API_KEY", "api-key")];
  secret_files := [("db-password", "db")];
  command := ["/bin/app"];
  args := ["--serve"];
  metadata := [("owner", Str "team")];
|}.

Lemma flash_validate_sound_witness :
  @FlashSpec_validate Blocks.lib witness_url_lib witness_json_text witness_flash = Ok () ∧
  @flash_wf Blocks.lib witness_url_lib witness_json_text witness_flash.
Proof.
  split; [vm_compute; reflexivity|].
  apply (@flash_validate_sound Blocks.lib witness_url_lib witness_json_text).
  vm_compute. reflexivity.
Defined.

