(* ===== verification/Store.v ===== *)
(** * The database

    The tables of the PostgreSQL schema that the modelled operations of
    [heterocloud-store] read and write, as finite maps keyed by primary key,
    and the transactions over them.  A transaction is a function from the
    database to a result: an error leaves the database as it was (rollback),
    and the advisory and row locks the source takes make each transaction one
    atomic step.  [now()] is fixed within a transaction, as in PostgreSQL. *)
From S2P Require Import Prelude Text Json Policy Quota Specs Flash.

(** ** Rows *)

Inductive ServiceState := Provisioning | Ready | Updating | Deleting | Error.

#[export] Instance ServiceState_eq_dec : EqDecision ServiceState.
Proof. solve_decision. Defined.

(** A row of [service_instances]; the key is its id.  The [state] column holds
    the text of a [ServiceState] (a CHECK constraint of the table). *)
Record ServiceRow := {
  organization_id : OrganizationId;
  project_id : ProjectId;
  provider : string;
  name : string;
  generation : Z;
  state : ServiceState;
  spec : Value;
  status : Value;
  quota_user_id : option UserId;
}.

(** [ServiceInstance] of the domain crate. *)
Record ServiceInstance := {
  instance_id : ServiceInstanceId;
  instance_row : ServiceRow;
}.

(** The body of the events about a service. *)
Record ReconcilePayload := {
  service_instance_id : ServiceInstanceId;
  payload_organization_id : OrganizationId;
  payload_project_id : ProjectId;
  principal_id : PrincipalId;
  payload_provider : string;
  payload_generation : Z;
}.

Record PrincipalContextRevocationPayload := {
  context_id : Uuid;
  revoked_service_instance_id : ServiceInstanceId;
  revoked_organization_id : OrganizationId;
  revoked_project_id : ProjectId;
  revoked_principal_id : PrincipalId;
  revoked_provider : string;
  revoked_generation : Z;
  expires_at : Z;
}.

(** The [payload] column: the JSON object of one of the two forms, or anything
    else, which fails to decode. *)
Inductive Payload :=
| ReconcileBody (p : ReconcilePayload)
| RevocationBody (p : PrincipalContextRevocationPayload)
| OtherBody.

(** A row of [outbox_events]; times are in seconds. *)
Record OutboxRow := {
  topic : string;
  aggregate_id : Uuid;
  payload : Payload;
  attempts : Z;
  available_at : Z;
  locked_at : option Z;
  delivered_at : option Z;
  created_at : Z;
}.

(** A row of [users]; [password_hash] is NULL for users of an OIDC issuer. *)
Record UserRow := {
  email : string;
  display_name : string;
  password_hash : option string;
  user_status : string;
}.

Record PrincipalRow := {
  principal_organization_id : OrganizationId;
  kind : string;
  principal_name : string;
  user_id : option UserId;
  principal_quota_user_id : option UserId;
  enabled : bool;
  permissions_boundary_policy_id : option Uuid;
}.

(** A row of [organization_memberships]; the key is organization and user. *)
Record MembershipRow := {
  member_principal_id : PrincipalId;
  member_role : string;
  identity_center_membership_id : Uuid;
}.

(** The 32 bytes of a digest. *)
Definition Digest := list Z.

(** A row of [workload_access_tokens]. *)
Record WorkloadTokenRow := {
  token_organization : OrganizationId;
  token_service : ServiceInstanceId;
  token_principal : PrincipalId;
  pod_uid : Uuid;
  token_digest : Digest;
  token_expires_at : Z;
}.

(** A row of [audit_events], without its time and source address. *)
Record AuditRow := {
  audit_organization_id : option OrganizationId;
  audit_principal_id : option PrincipalId;
  audit_user_id : option UserId;
  audit_request_id : string;
  audit_action : string;
  audit_resource : string;
  audit_decision : string;
  audit_reason : string;
  audit_metadata : Value;
}.

(** A row of [flow_developer_credentials]. *)
Record CredentialRow := {
  credential_organization : OrganizationId;
  credential_service : ServiceInstanceId;
  created_by : PrincipalId;
  credential_name : string;
  credential_prefix : string;
  secret_hash : Digest;
  credential_permissions : list string;
  credential_expires_at : Z;
  credential_created_at : Z;
  last_used_at : option Z;
  credential_revoked_at : option Z;
}.

(** A row of [flow_access_contexts]. *)
Record ContextRow := {
  context_organization : OrganizationId;
  context_project : ProjectId;
  context_service : ServiceInstanceId;
  context_credential : option Uuid;
  context_principal : PrincipalId;
  context_permissions : list string;
  context_issued_at : Z;
  context_expires_at : Z;
  context_revoked_at : option Z;
}.

Definition set_context_credential (c : option Uuid) (r : ContextRow) : ContextRow :=
  Build_ContextRow (context_organization r) (context_project r) (context_service r) c
    (context_principal r) (context_permissions r) (context_issued_at r) (context_expires_at r)
    (context_revoked_at r).

Record FlowTables := {
  flow_developer_credentials : gmap Uuid CredentialRow;
  flow_access_contexts : gmap Uuid ContextRow;
}.

(** A row of [sessions]. *)
Record SessionRow := {
  session_user_id : UserId;
  session_token_hash : Digest;
  session_expires_at : Z;
  last_seen_at : Z;
  active_role_session_id : option Uuid;
}.

(** A row of [user_login_events]; the key is its serial number. *)
Record LoginRow := {
  login_user_id : UserId;
  login_session_id : option Uuid;
  authentication_method : string;
  occurred_at : Z;
}.

(** A row of [invitations]. *)
Record InvitationRow := {
  code_hash : Digest;
  invited_by : UserId;
  invitation_organization : option OrganizationId;
  max_uses : Z;
  used_count : Z;
  invitation_expires_at : Z;
  invitation_revoked_at : option Z;
  invitation_created_at : Z;
}.

(** A row of [cli_device_authorizations]. *)
Record DeviceRow := {
  device_code_hash : Digest;
  user_code_hash : Digest;
  device_organization : OrganizationId;
  approved_user_id : option UserId;
  device_status : string;
  interval_seconds : Z;
  device_expires_at : Z;
  last_polled_at : option Z;
  approved_at : option Z;
  consumed_at : option Z;
}.

(** A row of [cli_access_tokens]. *)
Record CliTokenRow := {
  cli_user : UserId;
  cli_organization : OrganizationId;
  cli_prefix : string;
  cli_token_hash : Digest;
  cli_expires_at : Z;
  cli_last_used_at : option Z;
  cli_revoked_at : option Z;
}.

(** Rows of the tables of IAM; the key of [iam_roles] is the principal. *)
Record PolicyRow := {
  policy_organization : OrganizationId;
  policy_name : string;
  policy_document : Value;
  semantics_digest : string;
}.

Record BindingRow := {
  binding_organization : OrganizationId;
  binding_principal : PrincipalId;
  binding_policy : Uuid;
}.

Record GroupRow := {
  group_organization : OrganizationId;
  group_name : string;
}.

Record ApiKeyRow := {
  key_organization : OrganizationId;
  key_principal : PrincipalId;
  key_name : string;
  key_prefix : string;
  key_secret_hash : Digest;
  key_expires_at : option Z;
  key_last_used_at : option Z;
  key_revoked_at : option Z;
}.

Record RoleRow := {
  role_organization : OrganizationId;
  role_name : string;
  trust_policy : Value;
  max_session_seconds : Z;
}.

(** The columns [identity_center_*] of a role session, which are all NULL or
    name the assignment, its generation and the user; the others become NULL
    with the row they refer to. *)
Record CenterGrant := {
  grant_assignment : Uuid;
  grant_generation : Z;
  grant_user : UserId;
  grant_group_membership : option Uuid;
  grant_target_principal : option PrincipalId;
  grant_source_membership : option Uuid;
  grant_target_membership : option Uuid;
}.

Record RoleSessionRow := {
  role_session_organization : OrganizationId;
  role_session_role : PrincipalId;
  source_organization : OrganizationId;
  source_principal : PrincipalId;
  source_arn : string;
  role_session_name : string;
  role_session_policy : option Value;
  role_session_hash : Digest;
  role_session_expires_at : Z;
  role_session_revoked_at : option Z;
  role_session_grant : option CenterGrant;
}.

(** The switches of [cloud_security_activation] for roles, their use in a
    browser, policy conditions and the identity center. *)
Record Activation := {
  roles_enabled : bool;
  browser_roles_enabled : bool;
  iam_conditions_enabled : bool;
  identity_center_enabled : bool;
}.

(** Rows of the tables of the identity center.  A member of a group, and the
    role of a permission set in an account, belong to the organization of the
    group and of the set (foreign keys). *)
Record PermissionSetRow := {
  set_organization : Uuid;
  set_name : string;
  set_document : Value;
  session_duration_seconds : Z;
  set_deleted_at : option Z;
}.

Record CenterGroupRow := {
  center_group_organization : Uuid;
  center_group_name : string;
  center_group_deleted_at : option Z;
}.

Record CenterMemberRow := {
  center_member_group : Uuid;
  center_member_user : UserId;
}.

Record AccountRoleRow := {
  account_role_principal : PrincipalId;
  account_role_policy : Uuid;
}.

Record AssignmentRow := {
  assignment_organization : Uuid;
  assignment_set : Uuid;
  assignment_account : OrganizationId;
  assignment_role : PrincipalId;
  subject_type : string;
  subject_id : Uuid;
  assignment_generation : Z;
  assignment_revoked_at : option Z;
}.

Record AccessTables := {
  iam_policies : gmap Uuid PolicyRow;
  iam_bindings : gmap Uuid BindingRow;
  iam_groups : gmap Uuid GroupRow;
  (** Group and principal, group and policy. *)
  iam_group_members : gset (Uuid * Uuid);
  iam_group_policy_attachments : gset (Uuid * Uuid);
  api_keys : gmap Uuid ApiKeyRow;
  iam_roles : gmap Uuid RoleRow;
  iam_role_sessions : gmap Uuid RoleSessionRow;
  identity_center_permission_sets : gmap Uuid PermissionSetRow;
  identity_center_groups : gmap Uuid CenterGroupRow;
  identity_center_group_members : gmap Uuid CenterMemberRow;
  (** Permission set and account. *)
  identity_center_account_roles : gmap (Uuid * Uuid) AccountRoleRow;
  identity_center_assignments : gmap Uuid AssignmentRow;
  activation : Activation;
}.

Record IdentityTables := {
  (** The user of an issuer and a subject. *)
  user_external_identities : gmap (string * string) UserId;
  sessions : gmap Uuid SessionRow;
  user_login_events : gmap N LoginRow;
  next_login_event : N;
  invitations : gmap Uuid InvitationRow;
  cli_device_authorizations : gmap Uuid DeviceRow;
  cli_access_tokens : gmap Uuid CliTokenRow;
}.

Record ProjectRow := {
  project_organization : OrganizationId;
  project_slug : string;
  project_name : string;
}.

Record GpuDeviceRow := {
  management_id : string;
  device_gpu_type : string;
  device_display_name : string;
  visibility_open : bool;
  device_available : bool;
  device_updated_at : Z;
}.

(** [registry_credentials], and the gate of the limit of organizations in
    [cloud_security_activation]. *)
Record RegistryCredentialRow := {
  registry_organization : OrganizationId;
  registry_created_by : PrincipalId;
  registry_name : string;
  registry_username : option string;
  harbor_robot_id : option Z;
  registry_status : string;
  registry_created_at : Z;
}.

Record RegistryTables := {
  registry_credentials : gmap Uuid RegistryCredentialRow;
  organization_registry_credentials_enabled : bool;
}.

Record GpuRequestRow := {
  request_gpu_type : string;
  requested_by_principal_id : option PrincipalId;
  requested_by_user_id : option UserId;
}.

(** The tables of Flash operations: the revisions of a service by generation,
    its notifications, backups with their schedules, destinations and restores,
    custom domains and SSH keys. *)
Record RevisionRow := {
  revision_organization : OrganizationId;
  revision_project : ProjectId;
  revision_principal : option PrincipalId;
  revision_name : string;
  revision_spec : Value;
  revision_phase : string;
  revision_created_at : Z;
  revision_ready_at : option Z;
  activation_started_at : option Z;
}.

Record NoticeRow := {
  notice_organization : OrganizationId;
  notice_service : ServiceInstanceId;
  notice_generation : Z;
  notice_code : string;
  notice_severity : string;
  notice_message : string;
  notice_created_at : Z;
  last_observed_at : Z;
  resolved_at : option Z;
  acknowledged_at : option Z;
}.

Record BackupPolicyRow := {
  schedule_organization : OrganizationId;
  schedule_principal : PrincipalId;
  schedule_enabled : bool;
  schedule_interval : Z;
  retention_count : Z;
  verify_restore : bool;
  schedule_destination : option Uuid;
  next_run_at : Z;
  last_run_at : option Z;
  last_backup_id : option Uuid;
  last_error : option string;
  schedule_updated_at : Z;
  lease_until : option Z;
}.

Record BackupRow := {
  backup_organization_id : OrganizationId;
  backup_project : ProjectId;
  backup_service : ServiceInstanceId;
  schedule_service_id : option Uuid;
  backup_destination : option Uuid;
  backup_principal : PrincipalId;
  backup_request_id : Uuid;
  backup_name : string;
  source_name : string;
  source_generation : Z;
  source_pvc_uid : string;
  source_spec : Value;
  volume_size_bytes : Z;
  backup_phase : string;
  backup_status : Value;
  delete_requested : bool;
  deleted_at : option Z;
  backup_created_at : Z;
  backup_updated_at : Z;
}.

Record RestoreRow := {
  restore_backup : Uuid;
  restore_project : ProjectId;
  restore_name : string;
  restore_service : ServiceInstanceId;
}.

Record DestinationRow := {
  destination_organization : OrganizationId;
  destination_principal : PrincipalId;
  destination_request_id : Uuid;
  destination_name : string;
  destination_endpoint : string;
  destination_bucket : string;
  destination_region : string;
  destination_prefix : string;
  virtual_hosted : bool;
  destination_state : string;
  destination_created_at : Z;
  destination_updated_at : Z;
}.

Record DomainRow := {
  domain_organization : OrganizationId;
  domain_service : ServiceInstanceId;
  domain_principal : PrincipalId;
  hostname : string;
  verification_value : string;
  domain_delete_requested : bool;
  reconcile_pending : bool;
  domain_created_at : Z;
  domain_updated_at : Z;
}.

Record SshKeyRow := {
  ssh_organization : OrganizationId;
  ssh_user : UserId;
  ssh_name : string;
  public_key : string;
  fingerprint : string;
  github_username : option string;
  ssh_created_at : Z;
}.

(** Keys: service and generation of a revision; account, principal and request
    of a restore; account, service and key of an SSH binding. *)
Record FlashTables := {
  flash_service_revisions : gmap (Uuid * Z) RevisionRow;
  flash_service_events : gmap Uuid NoticeRow;
  flash_backup_policies : gmap Uuid BackupPolicyRow;
  flash_backups : gmap Uuid BackupRow;
  flash_backup_restore_requests : gmap (Uuid * Uuid * Uuid) RestoreRow;
  flash_backup_destinations : gmap Uuid DestinationRow;
  flash_domain_bindings : gmap Uuid DomainRow;
  flash_ssh_keys : gmap Uuid SshKeyRow;
  flash_ssh_key_bindings : gset (Uuid * Uuid * Uuid);
}.

Definition empty_flash : FlashTables := {|
  flash_service_revisions := ∅; flash_service_events := ∅; flash_backup_policies := ∅;
  flash_backups := ∅; flash_backup_restore_requests := ∅; flash_backup_destinations := ∅;
  flash_domain_bindings := ∅; flash_ssh_keys := ∅; flash_ssh_key_bindings := ∅;
|}.

(** The tables of a cloud organization.  A row of the two attachment tables
    belongs to the organization of its target (foreign keys), and its key is
    target and policy: the policies of a target form a set. *)
Record UnitRow := {
  unit_organization : Uuid;
  unit_parent : option Uuid;
  unit_name : string;
}.

Record ScpRow := {
  scp_organization : Uuid;
  scp_name : string;
  scp_document : Value;
  is_managed : bool;
}.

Record AccountRow := {
  slug : string;
  account_name : string;
  account_number : Z;
}.

Record CloudTables := {
  scp_enabled : bool;
  cloud_names : gmap Uuid string;
  account_rows : gmap Uuid AccountRow;
  (** The sequence [cloud_account_number_seq]. *)
  next_account_number : Z;
  organizational_units : gmap Uuid UnitRow;
  (** The unit an account is in. *)
  account_parents : gmap Uuid Uuid;
  service_control_policies : gmap Uuid ScpRow;
  unit_attachments : gmap Uuid (gset Uuid);
  account_attachments : gmap Uuid (gset Uuid);
}.

Definition empty_cloud : CloudTables := {|
  scp_enabled := false;
  cloud_names := ∅;
  account_rows := ∅;
  next_account_number := 100000000000;
  organizational_units := ∅;
  account_parents := ∅;
  service_control_policies := ∅;
  unit_attachments := ∅;
  account_attachments := ∅;
|}.

Definition empty_flow : FlowTables := {|
  flow_developer_credentials := ∅;
  flow_access_contexts := ∅;
|}.

Definition empty_registry : RegistryTables := Build_RegistryTables ∅ false.
Definition empty_identity : IdentityTables := {|
  user_external_identities := ∅;
  sessions := ∅;
  user_login_events := ∅;
  next_login_event := 1%N;
  invitations := ∅;
  cli_device_authorizations := ∅;
  cli_access_tokens := ∅;
|}.

Definition empty_access : AccessTables := {|
  iam_policies := ∅;
  iam_bindings := ∅;
  iam_groups := ∅;
  iam_group_members := ∅;
  iam_group_policy_attachments := ∅;
  api_keys := ∅;
  iam_roles := ∅;
  iam_role_sessions := ∅;
  identity_center_permission_sets := ∅;
  identity_center_groups := ∅;
  identity_center_group_members := ∅;
  identity_center_account_roles := ∅;
  identity_center_assignments := ∅;
  activation := Build_Activation false false false false;
|}.

Record Db := {
  now : Z;
  (** The next identifier [Uuid::now_v7] gives out. *)
  next_uuid : Uuid;
  service_instances : gmap Uuid ServiceRow;
  outbox_events : gmap Uuid OutboxRow;
  principals : gmap Uuid PrincipalRow;
  users : gmap Uuid UserRow;
  projects : gmap Uuid ProjectRow;
  organizations : gset Uuid;
  organization_memberships : gmap (Uuid * Uuid) MembershipRow;
  resource_quota_defaults : Value;
  organization_resource_quotas : gmap Uuid Value;
  member_resource_quotas : gmap (Uuid * Uuid) Value;
  (** The cloud organization of an account, and its management account. *)
  cloud_organization_accounts : gmap Uuid Uuid;
  cloud_management_accounts : gmap Uuid Uuid;
  organization_service_quotas_enabled : bool;
  organization_flash_weekly_quotas_enabled : bool;
  gpu_devices : gmap Uuid GpuDeviceRow;
  gpu_device_user_assignments : gset (Uuid * Uuid);
  flash_gpu_service_requests : gmap Uuid GpuRequestRow;
  workload_access_tokens : gmap Uuid WorkloadTokenRow;
  flash : FlashTables;
  service_quota_owners : gmap Uuid (OrganizationId * option UserId);
  cloud : CloudTables;
  flow : FlowTables;
  identity : IdentityTables;
  audit_events : list AuditRow;
  access : AccessTables;
  registry : RegistryTables;
}.

(** ** Updates of one table *)

Definition set_next_uuid (u : Uuid) (db : Db) : Db :=
  Build_Db (now db) u (service_instances db) (outbox_events db) (principals db) (users db)
    (projects db) (organizations db) (organization_memberships db) (resource_quota_defaults db)
    (organization_resource_quotas db) (member_resource_quotas db)
    (cloud_organization_accounts db) (cloud_management_accounts db)
    (organization_service_quotas_enabled db) (organization_flash_weekly_quotas_enabled db)
    (gpu_devices db) (gpu_device_user_assignments db) (flash_gpu_service_requests db)
    (workload_access_tokens db) (flash db) (service_quota_owners db) (cloud db) (flow db)
    (identity db) (audit_events db) (access db) (registry db).
Definition set_now (t : Z) (db : Db) : Db :=
  Build_Db t (next_uuid db) (service_instances db) (outbox_events db) (principals db) (users db)
    (projects db) (organizations db) (organization_memberships db) (resource_quota_defaults db)
    (organization_resource_quotas db) (member_resource_quotas db)
    (cloud_organization_accounts db) (cloud_management_accounts db)
    (organization_service_quotas_enabled db) (organization_flash_weekly_quotas_enabled db)
    (gpu_devices db) (gpu_device_user_assignments db) (flash_gpu_service_requests db)
    (workload_access_tokens db) (flash db) (service_quota_owners db) (cloud db) (flow db)
    (identity db) (audit_events db) (access db) (registry db).
Definition set_services (s : gmap Uuid ServiceRow) (db : Db) : Db :=
  Build_Db (now db) (next_uuid db) s (outbox_events db) (principals db) (users db) (projects db)
    (organizations db) (organization_memberships db) (resource_quota_defaults db)
    (organization_resource_quotas db) (member_resource_quotas db)
    (cloud_organization_accounts db) (cloud_management_accounts db)
    (organization_service_quotas_enabled db) (organization_flash_weekly_quotas_enabled db)
    (gpu_devices db) (gpu_device_user_assignments db) (flash_gpu_service_requests db)
    (workload_access_tokens db) (flash db) (service_quota_owners db) (cloud db) (flow db)
    (identity db) (audit_events db) (access db) (registry db).
Definition set_outbox (o : gmap Uuid OutboxRow) (db : Db) : Db :=
  Build_Db (now db) (next_uuid db) (service_instances db) o (principals db) (users db)
    (projects db) (organizations db) (organization_memberships db) (resource_quota_defaults db)
    (organization_resource_quotas db) (member_resource_quotas db)
    (cloud_organization_accounts db) (cloud_management_accounts db)
    (organization_service_quotas_enabled db) (organization_flash_weekly_quotas_enabled db)
    (gpu_devices db) (gpu_device_user_assignments db) (flash_gpu_service_requests db)
    (workload_access_tokens db) (flash db) (service_quota_owners db) (cloud db) (flow db)
    (identity db) (audit_events db) (access db) (registry db).
Definition set_quotas (defaults : Value) (organization : gmap Uuid Value)
    (member : gmap (Uuid * Uuid) Value) (db : Db) : Db :=
  Build_Db (now db) (next_uuid db) (service_instances db) (outbox_events db) (principals db)
    (users db) (projects db) (organizations db) (organization_memberships db) defaults
    organization member (cloud_organization_accounts db) (cloud_management_accounts db)
    (organization_service_quotas_enabled db) (organization_flash_weekly_quotas_enabled db)
    (gpu_devices db) (gpu_device_user_assignments db) (flash_gpu_service_requests db)
    (workload_access_tokens db) (flash db) (service_quota_owners db) (cloud db) (flow db)
    (identity db) (audit_events db) (access db) (registry db).
Definition set_gpu_requests (r : gmap Uuid GpuRequestRow) (db : Db) : Db :=
  Build_Db (now db) (next_uuid db) (service_instances db) (outbox_events db) (principals db)
    (users db) (projects db) (organizations db) (organization_memberships db)
    (resource_quota_defaults db) (organization_resource_quotas db) (member_resource_quotas db)
    (cloud_organization_accounts db) (cloud_management_accounts db)
    (organization_service_quotas_enabled db) (organization_flash_weekly_quotas_enabled db)
    (gpu_devices db) (gpu_device_user_assignments db) r (workload_access_tokens db) (flash db)
    (service_quota_owners db) (cloud db) (flow db) (identity db) (audit_events db) (access db)
    (registry db).
Definition set_workload_tokens (t : gmap Uuid WorkloadTokenRow) (db : Db) : Db :=
  Build_Db (now db) (next_uuid db) (service_instances db) (outbox_events db) (principals db)
    (users db) (projects db) (organizations db) (organization_memberships db)
    (resource_quota_defaults db) (organization_resource_quotas db) (member_resource_quotas db)
    (cloud_organization_accounts db) (cloud_management_accounts db)
    (organization_service_quotas_enabled db) (organization_flash_weekly_quotas_enabled db)
    (gpu_devices db) (gpu_device_user_assignments db) (flash_gpu_service_requests db) t
    (flash db) (service_quota_owners db) (cloud db) (flow db) (identity db) (audit_events db)
    (access db) (registry db).
Definition set_quota_owners (o : gmap Uuid (OrganizationId * option UserId)) (db : Db) : Db :=
  Build_Db (now db) (next_uuid db) (service_instances db) (outbox_events db) (principals db)
    (users db) (projects db) (organizations db) (organization_memberships db)
    (resource_quota_defaults db) (organization_resource_quotas db) (member_resource_quotas db)
    (cloud_organization_accounts db) (cloud_management_accounts db)
    (organization_service_quotas_enabled db) (organization_flash_weekly_quotas_enabled db)
    (gpu_devices db) (gpu_device_user_assignments db) (flash_gpu_service_requests db)
    (workload_access_tokens db) (flash db) o (cloud db) (flow db) (identity db) (audit_events db)
    (access db) (registry db).
Definition set_weekly_quotas (b : bool) (db : Db) : Db :=
  Build_Db (now db) (next_uuid db) (service_instances db) (outbox_events db) (principals db)
    (users db) (projects db) (organizations db) (organization_memberships db)
    (resource_quota_defaults db) (organization_resource_quotas db) (member_resource_quotas db)
    (cloud_organization_accounts db) (cloud_management_accounts db)
    (organization_service_quotas_enabled db) b (gpu_devices db) (gpu_device_user_assignments db)
    (flash_gpu_service_requests db) (workload_access_tokens db) (flash db)
    (service_quota_owners db) (cloud db) (flow db) (identity db) (audit_events db) (access db)
    (registry db).
Definition set_cloud (c : CloudTables) (db : Db) : Db :=
  Build_Db (now db) (next_uuid db) (service_instances db) (outbox_events db) (principals db)
    (users db) (projects db) (organizations db) (organization_memberships db)
    (resource_quota_defaults db) (organization_resource_quotas db) (member_resource_quotas db)
    (cloud_organization_accounts db) (cloud_management_accounts db)
    (organization_service_quotas_enabled db) (organization_flash_weekly_quotas_enabled db)
    (gpu_devices db) (gpu_device_user_assignments db) (flash_gpu_service_requests db)
    (workload_access_tokens db) (flash db) (service_quota_owners db) c (flow db) (identity db)
    (audit_events db) (access db) (registry db).
Definition set_cloud_accounts (accounts management : gmap Uuid Uuid) (db : Db) : Db :=
  Build_Db (now db) (next_uuid db) (service_instances db) (outbox_events db) (principals db)
    (users db) (projects db) (organizations db) (organization_memberships db)
    (resource_quota_defaults db) (organization_resource_quotas db) (member_resource_quotas db)
    accounts management (organization_service_quotas_enabled db)
    (organization_flash_weekly_quotas_enabled db) (gpu_devices db)
    (gpu_device_user_assignments db) (flash_gpu_service_requests db) (workload_access_tokens db)
    (flash db) (service_quota_owners db) (cloud db) (flow db) (identity db) (audit_events db)
    (access db) (registry db).
Definition set_organizations (o : gset Uuid) (db : Db) : Db :=
  Build_Db (now db) (next_uuid db) (service_instances db) (outbox_events db) (principals db)
    (users db) (projects db) o (organization_memberships db) (resource_quota_defaults db)
    (organization_resource_quotas db) (member_resource_quotas db)
    (cloud_organization_accounts db) (cloud_management_accounts db)
    (organization_service_quotas_enabled db) (organization_flash_weekly_quotas_enabled db)
    (gpu_devices db) (gpu_device_user_assignments db) (flash_gpu_service_requests db)
    (workload_access_tokens db) (flash db) (service_quota_owners db) (cloud db) (flow db)
    (identity db) (audit_events db) (access db) (registry db).
Definition set_users (u : gmap Uuid UserRow) (db : Db) : Db :=
  Build_Db (now db) (next_uuid db) (service_instances db) (outbox_events db) (principals db) u
    (projects db) (organizations db) (organization_memberships db) (resource_quota_defaults db)
    (organization_resource_quotas db) (member_resource_quotas db)
    (cloud_organization_accounts db) (cloud_management_accounts db)
    (organization_service_quotas_enabled db) (organization_flash_weekly_quotas_enabled db)
    (gpu_devices db) (gpu_device_user_assignments db) (flash_gpu_service_requests db)
    (workload_access_tokens db) (flash db) (service_quota_owners db) (cloud db) (flow db)
    (identity db) (audit_events db) (access db) (registry db).
Definition set_principals (p : gmap Uuid PrincipalRow) (db : Db) : Db :=
  Build_Db (now db) (next_uuid db) (service_instances db) (outbox_events db) p (users db)
    (projects db) (organizations db) (organization_memberships db) (resource_quota_defaults db)
    (organization_resource_quotas db) (member_resource_quotas db)
    (cloud_organization_accounts db) (cloud_management_accounts db)
    (organization_service_quotas_enabled db) (organization_flash_weekly_quotas_enabled db)
    (gpu_devices db) (gpu_device_user_assignments db) (flash_gpu_service_requests db)
    (workload_access_tokens db) (flash db) (service_quota_owners db) (cloud db) (flow db)
    (identity db) (audit_events db) (access db) (registry db).
Definition set_memberships (m : gmap (Uuid * Uuid) MembershipRow) (db : Db) : Db :=
  Build_Db (now db) (next_uuid db) (service_instances db) (outbox_events db) (principals db)
    (users db) (projects db) (organizations db) m (resource_quota_defaults db)
    (organization_resource_quotas db) (member_resource_quotas db)
    (cloud_organization_accounts db) (cloud_management_accounts db)
    (organization_service_quotas_enabled db) (organization_flash_weekly_quotas_enabled db)
    (gpu_devices db) (gpu_device_user_assignments db) (flash_gpu_service_requests db)
    (workload_access_tokens db) (flash db) (service_quota_owners db) (cloud db) (flow db)
    (identity db) (audit_events db) (access db) (registry db).
Definition set_flow (f : FlowTables) (db : Db) : Db :=
  Build_Db (now db) (next_uuid db) (service_instances db) (outbox_events db) (principals db)
    (users db) (projects db) (organizations db) (organization_memberships db)
    (resource_quota_defaults db) (organization_resource_quotas db) (member_resource_quotas db)
    (cloud_organization_accounts db) (cloud_management_accounts db)
    (organization_service_quotas_enabled db) (organization_flash_weekly_quotas_enabled db)
    (gpu_devices db) (gpu_device_user_assignments db) (flash_gpu_service_requests db)
    (workload_access_tokens db) (flash db) (service_quota_owners db) (cloud db) f (identity db)
    (audit_events db) (access db) (registry db).
Definition set_identity (i : IdentityTables) (db : Db) : Db :=
  Build_Db (now db) (next_uuid db) (service_instances db) (outbox_events db) (principals db)
    (users db) (projects db) (organizations db) (organization_memberships db)
    (resource_quota_defaults db) (organization_resource_quotas db) (member_resource_quotas db)
    (cloud_organization_accounts db) (cloud_management_accounts db)
    (organization_service_quotas_enabled db) (organization_flash_weekly_quotas_enabled db)
    (gpu_devices db) (gpu_device_user_assignments db) (flash_gpu_service_requests db)
    (workload_access_tokens db) (flash db) (service_quota_owners db) (cloud db) (flow db) i
    (audit_events db) (access db) (registry db).
Definition set_audit (a : list AuditRow) (db : Db) : Db :=
  Build_Db (now db) (next_uuid db) (service_instances db) (outbox_events db) (principals db)
    (users db) (projects db) (organizations db) (organization_memberships db)
    (resource_quota_defaults db) (organization_resource_quotas db) (member_resource_quotas db)
    (cloud_organization_accounts db) (cloud_management_accounts db)
    (organization_service_quotas_enabled db) (organization_flash_weekly_quotas_enabled db)
    (gpu_devices db) (gpu_device_user_assignments db) (flash_gpu_service_requests db)
    (workload_access_tokens db) (flash db) (service_quota_owners db) (cloud db) (flow db)
    (identity db) a (access db) (registry db).
Definition set_access (x : AccessTables) (db : Db) : Db :=
  Build_Db (now db) (next_uuid db) (service_instances db) (outbox_events db) (principals db)
    (users db) (projects db) (organizations db) (organization_memberships db)
    (resource_quota_defaults db) (organization_resource_quotas db) (member_resource_quotas db)
    (cloud_organization_accounts db) (cloud_management_accounts db)
    (organization_service_quotas_enabled db) (organization_flash_weekly_quotas_enabled db)
    (gpu_devices db) (gpu_device_user_assignments db) (flash_gpu_service_requests db)
    (workload_access_tokens db) (flash db) (service_quota_owners db) (cloud db) (flow db)
    (identity db) (audit_events db) x (registry db).
Definition set_flash (x : FlashTables) (db : Db) : Db :=
  Build_Db (now db) (next_uuid db) (service_instances db) (outbox_events db) (principals db)
    (users db) (projects db) (organizations db) (organization_memberships db)
    (resource_quota_defaults db) (organization_resource_quotas db) (member_resource_quotas db)
    (cloud_organization_accounts db) (cloud_management_accounts db)
    (organization_service_quotas_enabled db) (organization_flash_weekly_quotas_enabled db)
    (gpu_devices db) (gpu_device_user_assignments db) (flash_gpu_service_requests db)
    (workload_access_tokens db) x (service_quota_owners db) (cloud db) (flow db) (identity db)
    (audit_events db) (access db) (registry db).
Definition set_projects (p : gmap Uuid ProjectRow) (db : Db) : Db :=
  Build_Db (now db) (next_uuid db) (service_instances db) (outbox_events db) (principals db)
    (users db) p (organizations db) (organization_memberships db) (resource_quota_defaults db)
    (organization_resource_quotas db) (member_resource_quotas db)
    (cloud_organization_accounts db) (cloud_management_accounts db)
    (organization_service_quotas_enabled db) (organization_flash_weekly_quotas_enabled db)
    (gpu_devices db) (gpu_device_user_assignments db) (flash_gpu_service_requests db)
    (workload_access_tokens db) (flash db) (service_quota_owners db) (cloud db) (flow db)
    (identity db) (audit_events db) (access db) (registry db).
Definition set_gpus (devices : gmap Uuid GpuDeviceRow) (assignments : gset (Uuid * Uuid)) (db : Db) : Db :=
  Build_Db (now db) (next_uuid db) (service_instances db) (outbox_events db) (principals db)
    (users db) (projects db) (organizations db) (organization_memberships db)
    (resource_quota_defaults db) (organization_resource_quotas db) (member_resource_quotas db)
    (cloud_organization_accounts db) (cloud_management_accounts db)
    (organization_service_quotas_enabled db) (organization_flash_weekly_quotas_enabled db)
    devices assignments (flash_gpu_service_requests db) (workload_access_tokens db) (flash db)
    (service_quota_owners db) (cloud db) (flow db) (identity db) (audit_events db) (access db)
    (registry db).
Definition set_registry (x : RegistryTables) (db : Db) : Db :=
  Build_Db (now db) (next_uuid db) (service_instances db) (outbox_events db) (principals db)
    (users db) (projects db) (organizations db) (organization_memberships db)
    (resource_quota_defaults db) (organization_resource_quotas db) (member_resource_quotas db)
    (cloud_organization_accounts db) (cloud_management_accounts db)
    (organization_service_quotas_enabled db) (organization_flash_weekly_quotas_enabled db)
    (gpu_devices db) (gpu_device_user_assignments db) (flash_gpu_service_requests db)
    (workload_access_tokens db) (flash db) (service_quota_owners db) (cloud db) (flow db)
    (identity db) (audit_events db) (access db) x.

Definition set_revisions x (f : FlashTables) : FlashTables :=
  Build_FlashTables x (flash_service_events f) (flash_backup_policies f) (flash_backups f)
    (flash_backup_restore_requests f) (flash_backup_destinations f) (flash_domain_bindings f)
    (flash_ssh_keys f) (flash_ssh_key_bindings f).
Definition set_notices x (f : FlashTables) : FlashTables :=
  Build_FlashTables (flash_service_revisions f) x (flash_backup_policies f) (flash_backups f)
    (flash_backup_restore_requests f) (flash_backup_destinations f) (flash_domain_bindings f)
    (flash_ssh_keys f) (flash_ssh_key_bindings f).
Definition set_backup_policies x (f : FlashTables) : FlashTables :=
  Build_FlashTables (flash_service_revisions f) (flash_service_events f) x (flash_backups f)
    (flash_backup_restore_requests f) (flash_backup_destinations f) (flash_domain_bindings f)
    (flash_ssh_keys f) (flash_ssh_key_bindings f).
Definition set_backups x (f : FlashTables) : FlashTables :=
  Build_FlashTables (flash_service_revisions f) (flash_service_events f) (flash_backup_policies f) x
    (flash_backup_restore_requests f) (flash_backup_destinations f) (flash_domain_bindings f)
    (flash_ssh_keys f) (flash_ssh_key_bindings f).
Definition set_restores x (f : FlashTables) : FlashTables :=
  Build_FlashTables (flash_service_revisions f) (flash_service_events f) (flash_backup_policies f)
    (flash_backups f) x (flash_backup_destinations f) (flash_domain_bindings f) (flash_ssh_keys f)
    (flash_ssh_key_bindings f).
Definition set_destinations x (f : FlashTables) : FlashTables :=
  Build_FlashTables (flash_service_revisions f) (flash_service_events f) (flash_backup_policies f)
    (flash_backups f) (flash_backup_restore_requests f) x (flash_domain_bindings f)
    (flash_ssh_keys f) (flash_ssh_key_bindings f).
Definition set_domains x (f : FlashTables) : FlashTables :=
  Build_FlashTables (flash_service_revisions f) (flash_service_events f) (flash_backup_policies f)
    (flash_backups f) (flash_backup_restore_requests f) (flash_backup_destinations f) x
    (flash_ssh_keys f) (flash_ssh_key_bindings f).
Definition set_ssh_keys x (f : FlashTables) : FlashTables :=
  Build_FlashTables (flash_service_revisions f) (flash_service_events f) (flash_backup_policies f)
    (flash_backups f) (flash_backup_restore_requests f) (flash_backup_destinations f)
    (flash_domain_bindings f) x (flash_ssh_key_bindings f).
Definition set_ssh_bindings x (f : FlashTables) : FlashTables :=
  Build_FlashTables (flash_service_revisions f) (flash_service_events f) (flash_backup_policies f)
    (flash_backups f) (flash_backup_restore_requests f) (flash_backup_destinations f)
    (flash_domain_bindings f) (flash_ssh_keys f) x.

(** The users with status [active]. *)
Definition active_users (db : Db) : gset Uuid :=
  dom (filter (λ e, user_status (snd e) = "active") (users db)).

(** [EXISTS (SELECT 1 FROM organization_memberships WHERE ...)]. *)
Definition is_member (org : OrganizationId) (user : UserId) (db : Db) : bool :=
  is_some (organization_memberships db !! (org, user)).

(** [EXISTS (SELECT 1 FROM projects WHERE id = .. AND organization_id = ..)]. *)
Definition project_in (org : OrganizationId) (project : ProjectId) (db : Db) : bool :=
  is_some_and (λ p, bool_decide (project_organization p = org)) (projects db !! project).

(** ** Transactions *)

Definition tx (A : Type) : Type := Db → result StoreError (A * Db).

#[export] Instance tx_ret : MRet tx := λ A a db, Ok (a, db).
#[export] Instance tx_bind : MBind tx := λ A B f m db,
  match m db with Ok (a, db') => f a db' | Err e => Err e end.

(** A query that changes nothing, a statement, an error, a fallible pure step. *)
Definition query {A} (f : Db → A) : tx A := λ db, Ok (f db, db).
Definition statement (f : Db → Db) : tx () := λ db, Ok ((), f db).
Definition lift {A} (m : result StoreError A) : tx A := λ db,
  match m with Ok a => Ok (a, db) | Err e => Err e end.
Definition reject {A} (e : StoreError) : tx A := λ _, Err e.
Definition tx_fail_if (b : bool) (e : StoreError) : tx () := lift (fail_if b e).
(** A read-only computation that may fail. *)
Definition read {A} (f : Db → result StoreError A) : tx A := λ db,
  match f db with Ok a => Ok (a, db) | Err e => Err e end.

(** [Uuid::now_v7]. *)
Definition now_v7 : tx Uuid := λ db, Ok (next_uuid db, set_next_uuid (N.succ (next_uuid db)) db).

(** The trigger [flash_revision_actor] on [outbox_events]: the principal that
    asked for a generation of a Flash service is recorded with its revision. *)
Definition set_revision_principal (p : PrincipalId) (r : RevisionRow) : RevisionRow :=
  Build_RevisionRow (revision_organization r) (revision_project r) (Some p) (revision_name r)
    (revision_spec r) (revision_phase r) (revision_created_at r) (revision_ready_at r)
    (activation_started_at r).

Definition capture_flash_revision_actor (event_topic : string) (aggregate : Uuid) (body : Payload)
    (f : FlashTables) : FlashTables :=
  match body with
  | ReconcileBody p =>
      if String.eqb event_topic "service-instance.reconcile" && String.eqb (payload_provider p) "flash"
      then set_revisions (alter (set_revision_principal (principal_id p))
             (aggregate, payload_generation p) (flash_service_revisions f)) f
      else f
  | _ => f
  end.

(** [INSERT INTO outbox_events (id, topic, aggregate_id, payload)]; the other
    columns have their defaults.  A repeated primary key is a database error. *)
Definition insert_event (event_topic : string) (aggregate : Uuid) (body : Payload) : tx () :=
  id ← now_v7;
  occupied ← query (λ db, is_some (outbox_events db !! id));
  tx_fail_if occupied Sql ;;
  statement (λ db, set_flash (capture_flash_revision_actor event_topic aggregate body (flash db)) (set_outbox
    (<[id := {| topic := event_topic; aggregate_id := aggregate; payload := body;
                attempts := 0; available_at := now db; locked_at := None; delivered_at := None;
                created_at := now db |}]> (outbox_events db)) db)).

Definition insert_outbox (event_topic : string) (aggregate : Uuid) (body : ReconcilePayload) : tx () :=
  insert_event event_topic aggregate (ReconcileBody body).

(** A violated constraint is a database error. *)
Definition require (p : Db → bool) : tx () :=
  ok ← query p; tx_fail_if (negb ok) Sql.

(** [INSERT INTO audit_events]. *)
Definition append_audit (row : AuditRow) : tx () :=
  require (λ db, bool_decide (audit_decision row ∈ ["allow"; "deny"; "error"])
    && match audit_organization_id row with Some o => bool_decide (o ∈ organizations db) | None => true end
    && match audit_principal_id row with Some p => is_some (principals db !! p) | None => true end
    && match audit_user_id row with Some u => is_some (users db !! u) | None => true end) ;;
  statement (λ db, set_audit (audit_events db ++ [row]) db).

Definition valid_name_column (n : string) : bool := in_range 1 120 (Z.of_nat (length (chars n))).

(** [INSERT INTO principals]: the constraints of the table, and an enabled row. *)
Definition insert_principal (id org : Uuid) (new_kind new_name : string)
    (user quota_user : option UserId) : tx () :=
  require (λ db,
    negb (is_some (principals db !! id)) && bool_decide (org ∈ organizations db)
    && valid_name_column new_name
    && match user with
       | Some u => String.eqb new_kind "user" && is_some (users db !! u)
       | None => String.eqb new_kind "service_account"
       end
    && negb (existsb (λ e, bool_decide (principal_organization_id (snd e) = org)
                           && (String.eqb (principal_name (snd e)) new_name
                               || (is_some user && bool_decide (user_id (snd e) = user))))
               (map_to_list (principals db)))) ;;
  statement (λ db, set_principals
    (<[id := {| principal_organization_id := org; kind := new_kind; principal_name := new_name;
                user_id := user; principal_quota_user_id := quota_user; enabled := true;
                permissions_boundary_policy_id := None |}]> (principals db)) db).

(** [INSERT INTO organization_memberships]; the identifier of the membership is
    its default, [gen_random_uuid()]. *)
Definition insert_membership (org : OrganizationId) (user : UserId) (principal : PrincipalId)
    (new_role : string) : tx () :=
  membership ← now_v7;
  require (λ db,
    negb (is_member org user db) && bool_decide (org ∈ organizations db) && is_some (users db !! user)
    && is_some (principals db !! principal) && bool_decide (new_role ∈ ["owner"; "admin"; "member"])
    && negb (existsb (λ e, bool_decide (fst (fst e) = org)
                           && bool_decide (member_principal_id (snd e) = principal)
                           || bool_decide (identity_center_membership_id (snd e) = membership))
               (map_to_list (organization_memberships db)))) ;;
  statement (λ db, set_memberships
    (<[(org, user) := Build_MembershipRow principal new_role membership]> (organization_memberships db)) db).

(** ** Text of identifiers, and JSON paths *)

(** [Uuid::to_string], and [Uuid::parse_str] as serde uses it. *)
Class UuidText := {
  uuid_to_string : Uuid → string;
  uuid_parse : string → option Uuid;
}.

(** [replace(id::text, '-', '')], which is also [Uuid::simple]. *)
Definition uuid_simple `{UuidText} (id : Uuid) : string :=
  of_bytes (filter (λ b, b ≠ HYPHEN) (bytes (uuid_to_string id))).

(** The text [->>] and [#>>] give for a scalar; [null] and absent values are
    NULL.  An object or array is never the text of an identifier or a name. *)
Definition scalar_text (v : option Value) : option string :=
  match v with
  | Some (Str s) => Some s
  | Some (Num n) => Some (number_to_string n)
  | Some (Bool b) => Some (if b then "true" else "false")
  | _ => None
  end.

(** Casts of texts to the types of the database: what [::bigint], [::integer]
    and [::boolean] accept. *)
Class SqlCast := {
  to_bigint : string → option Z;
  to_integer : string → option Z;
  to_boolean : string → option bool;
}.

(** [(v ->> key)::type]: NULL stays NULL, and a text that is not of the type is
    an error; that of an object or an array never is. *)
Definition cast_text {A} (cast : string → option A) (v : option Value) : result StoreError (option A) :=
  match v with
  | None | Some Null => Ok None
  | Some (Object _) | Some (Array _) => Err Sql
  | _ => match scalar_text v ≫= cast with Some a => Ok (Some a) | None => Err Sql end
  end.

Definition path_text (outer inner : string) (v : Value) : option string :=
  scalar_text (get outer v ≫= get inner).

(** [SELECT ... FROM service_instances WHERE ...]. *)
Definition select_services (p : Uuid → ServiceRow → bool) (db : Db) : list (Uuid * ServiceRow) :=
  filter (λ e, p (fst e) (snd e) = true) (map_to_list (service_instances db)).

Definition not_deleting (r : ServiceRow) : bool := negb (bool_decide (state r = Deleting)).
Definition in_org (org : OrganizationId) (r : ServiceRow) : bool :=
  bool_decide (organization_id r = org).
Definition has_provider (p : string) (r : ServiceRow) : bool := String.eqb (provider r) p.
Definition attached_to `{UuidText} (vpc : Uuid) (r : ServiceRow) : bool :=
  bool_decide (path_text "network" "vpc_id" (spec r) = Some (uuid_to_string vpc)).

(** [SELECT EXISTS (SELECT 1 FROM service_instances WHERE ...)]. *)
Definition exists_service (p : Uuid → ServiceRow → bool) (db : Db) : bool :=
  negb (is_nil (select_services p db)).

(** A database with the default quota and nothing else. *)
Definition empty_db : Db := {|
  now := 0;
  next_uuid := 1000%N;
  service_instances := ∅;
  outbox_events := ∅;
  principals := ∅;
  users := ∅;
  projects := ∅;
  organizations := ∅;
  organization_memberships := ∅;
  resource_quota_defaults := ResourceQuotaLimits.to_value ResourceQuotaLimits_default;
  organization_resource_quotas := ∅;
  member_resource_quotas := ∅;
  cloud_organization_accounts := ∅;
  cloud_management_accounts := ∅;
  organization_service_quotas_enabled := false;
  organization_flash_weekly_quotas_enabled := false;
  gpu_devices := ∅;
  gpu_device_user_assignments := ∅;
  flash_gpu_service_requests := ∅;
  workload_access_tokens := ∅;
  flash := empty_flash;
  service_quota_owners := ∅;
  cloud := empty_cloud;
  flow := empty_flow;
  identity := empty_identity;
  audit_events := [];
  access := empty_access;
  registry := empty_registry;
|}.
