(* ===== verification/Usage.v ===== *)
(** * Quota accounting

    [ResourceQuotaUsage] of [heterocloud-store/src/lib.rs] and the two
    admission checks of [organizations.rs]: the allocation of a member within
    an account ([validate_member_allocation]) and of all accounts of a cloud
    organization ([validate_cloud_organization_allocation]). *)
From S2P Require Import Prelude Text Json Policy Quota Specs Flash Store.

(** ** Usage, grouped by service *)

Record FlowUsage := {
  flow_services : Z;
  flow_max_rooms_per_service : Z;
  flow_configured_rooms : Z;
  flow_max_participants_per_service : Z;
  flow_max_rate_limit_requests_per_second : Z;
  flow_max_rate_limit_burst : Z;
}.

Record FlashUsage := {
  flash_services : Z;
  flash_max_replicas_per_service : Z;
  flash_max_cpu_millis_per_vm : Z;
  flash_max_memory_mib_per_vm : Z;
  flash_max_disk_gib_per_vm : Z;
  flash_replicas : Z;
  flash_cpu_millis : Z;
  flash_memory_mib : Z;
  flash_disk_gib : Z;
}.

Record SyouyuUsage := {
  syouyu_buckets : Z;
  syouyu_max_bytes_per_bucket : Z;
  syouyu_max_objects_per_bucket : Z;
  syouyu_configured_bytes : Z;
}.

(** The fields the admission checks compute; the counters of credentials and
    of stored bytes are filled in for display only. *)
Record ResourceQuotaUsage := {
  flow_usage : FlowUsage;
  flash_usage : FlashUsage;
  syouyu_usage : SyouyuUsage;
}.

Definition ResourceQuotaUsage_default : ResourceQuotaUsage := {|
  flow_usage := Build_FlowUsage 0 0 0 0 0 0;
  flash_usage := Build_FlashUsage 0 0 0 0 0 0 0 0 0;
  syouyu_usage := Build_SyouyuUsage 0 0 0 0;
|}.

Definition add_flow (u : FlowUsage) (s : FlowSpec) : FlowUsage := {|
  flow_services := u64_saturating_add (flow_services u) 1;
  flow_max_rooms_per_service := Z.max (flow_max_rooms_per_service u) (max_rooms s);
  flow_configured_rooms := u64_saturating_add (flow_configured_rooms u) (max_rooms s);
  flow_max_participants_per_service :=
    Z.max (flow_max_participants_per_service u) (max_participants s);
  flow_max_rate_limit_requests_per_second :=
    Z.max (flow_max_rate_limit_requests_per_second u) (requests_per_second (rate_limit s));
  flow_max_rate_limit_burst := Z.max (flow_max_rate_limit_burst u) (burst (rate_limit s));
|}.

Definition add_flash (u : FlashUsage) (s : FlashSpec) : FlashUsage :=
  let replicas := reserved_replicas s in {|
  flash_services := u64_saturating_add (flash_services u) 1;
  flash_max_replicas_per_service := Z.max (flash_max_replicas_per_service u) replicas;
  flash_max_cpu_millis_per_vm := Z.max (flash_max_cpu_millis_per_vm u) (cpu_millis s);
  flash_max_memory_mib_per_vm := Z.max (flash_max_memory_mib_per_vm u) (memory_mib s);
  flash_max_disk_gib_per_vm := Z.max (flash_max_disk_gib_per_vm u) (ephemeral_storage_gib s);
  flash_replicas := u64_saturating_add (flash_replicas u) replicas;
  flash_cpu_millis :=
    u64_saturating_add (flash_cpu_millis u) (u64_saturating_mul replicas (cpu_millis s));
  flash_memory_mib :=
    u64_saturating_add (flash_memory_mib u) (u64_saturating_mul replicas (memory_mib s));
  flash_disk_gib :=
    u64_saturating_add (flash_disk_gib u) (u64_saturating_mul replicas (ephemeral_storage_gib s));
|}.

Definition add_syouyu (u : SyouyuUsage) (s : SyouyuSpec) : SyouyuUsage := {|
  syouyu_buckets := u64_saturating_add (syouyu_buckets u) 1;
  syouyu_max_bytes_per_bucket := Z.max (syouyu_max_bytes_per_bucket u) (quota_bytes s);
  syouyu_max_objects_per_bucket := Z.max (syouyu_max_objects_per_bucket u) (quota_objects s);
  syouyu_configured_bytes := u64_saturating_add (syouyu_configured_bytes u) (quota_bytes s);
|}.

Definition add_flow_spec (u : ResourceQuotaUsage) (s : FlowSpec) : ResourceQuotaUsage :=
  Build_ResourceQuotaUsage (add_flow (flow_usage u) s) (flash_usage u) (syouyu_usage u).
Definition add_flash_spec (u : ResourceQuotaUsage) (s : FlashSpec) : ResourceQuotaUsage :=
  Build_ResourceQuotaUsage (flow_usage u) (add_flash (flash_usage u) s) (syouyu_usage u).
Definition add_syouyu_spec (u : ResourceQuotaUsage) (s : SyouyuSpec) : ResourceQuotaUsage :=
  Build_ResourceQuotaUsage (flow_usage u) (flash_usage u) (add_syouyu (syouyu_usage u) s).

(** ** Over a limit *)

(** [over]: above the limit, and not merely a service that was already above it
    and does not grow. *)
Definition over (has_previous : bool) (after limit old : Z) : bool :=
  (limit <? after) && (negb has_previous || (old <? after)).

Section Exceeded.
Context (has_previous : bool) (limits : ResourceQuotaLimits)
  (after before requested_service previous_service : ResourceQuotaUsage).

Definition flow_exceeded : bool :=
  let l := ResourceQuotaLimits.flow limits in
  let over := over has_previous in
  over (flow_services (flow_usage after)) (FlowQuotaLimits.max_services l)
    (flow_services (flow_usage before))
  || over (flow_configured_rooms (flow_usage after)) (FlowQuotaLimits.max_total_rooms l)
       (flow_configured_rooms (flow_usage before))
  || over (flow_max_rooms_per_service (flow_usage requested_service))
       (FlowQuotaLimits.max_rooms_per_service l)
       (flow_max_rooms_per_service (flow_usage previous_service))
  || over (flow_max_participants_per_service (flow_usage requested_service))
       (FlowQuotaLimits.max_participants_per_service l)
       (flow_max_participants_per_service (flow_usage previous_service))
  || over (flow_max_rate_limit_requests_per_second (flow_usage requested_service))
       (FlowQuotaLimits.max_rate_limit_requests_per_second l)
       (flow_max_rate_limit_requests_per_second (flow_usage previous_service))
  || over (flow_max_rate_limit_burst (flow_usage requested_service))
       (FlowQuotaLimits.max_rate_limit_burst l)
       (flow_max_rate_limit_burst (flow_usage previous_service)).

Definition flash_exceeded : bool :=
  let l := ResourceQuotaLimits.flash limits in
  let over := over has_previous in
  over (flash_services (flash_usage after)) (FlashQuotaLimits.max_services l)
    (flash_services (flash_usage before))
  || over (flash_replicas (flash_usage after)) (FlashQuotaLimits.max_total_replicas l)
       (flash_replicas (flash_usage before))
  || over (flash_cpu_millis (flash_usage after)) (FlashQuotaLimits.max_total_cpu_millis l)
       (flash_cpu_millis (flash_usage before))
  || over (flash_memory_mib (flash_usage after)) (FlashQuotaLimits.max_total_memory_mib l)
       (flash_memory_mib (flash_usage before))
  || over (flash_disk_gib (flash_usage after)) (FlashQuotaLimits.max_total_disk_gib l)
       (flash_disk_gib (flash_usage before))
  || over (flash_max_replicas_per_service (flash_usage requested_service))
       (FlashQuotaLimits.max_replicas_per_service l)
       (flash_max_replicas_per_service (flash_usage previous_service))
  || over (flash_max_cpu_millis_per_vm (flash_usage requested_service))
       (FlashQuotaLimits.max_cpu_millis_per_vm l)
       (flash_max_cpu_millis_per_vm (flash_usage previous_service))
  || over (flash_max_memory_mib_per_vm (flash_usage requested_service))
       (FlashQuotaLimits.max_memory_mib_per_vm l)
       (flash_max_memory_mib_per_vm (flash_usage previous_service))
  || over (flash_max_disk_gib_per_vm (flash_usage requested_service))
       (FlashQuotaLimits.max_disk_gib_per_vm l)
       (flash_max_disk_gib_per_vm (flash_usage previous_service)).

Definition syouyu_exceeded : bool :=
  let l := ResourceQuotaLimits.syouyu limits in
  let over := over has_previous in
  over (syouyu_buckets (syouyu_usage after)) (SyouyuQuotaLimits.max_buckets l)
    (syouyu_buckets (syouyu_usage before))
  || over (syouyu_configured_bytes (syouyu_usage after)) (SyouyuQuotaLimits.max_total_bytes l)
       (syouyu_configured_bytes (syouyu_usage before))
  || over (syouyu_max_bytes_per_bucket (syouyu_usage requested_service))
       (SyouyuQuotaLimits.max_bytes_per_bucket l)
       (syouyu_max_bytes_per_bucket (syouyu_usage previous_service))
  || over (syouyu_max_objects_per_bucket (syouyu_usage requested_service))
       (SyouyuQuotaLimits.max_objects_per_bucket l)
       (syouyu_max_objects_per_bucket (syouyu_usage previous_service)).

Definition exceeded (provider : string) : bool :=
  if String.eqb provider "flow" then flow_exceeded
  else if String.eqb provider "flash" then flash_exceeded
  else if String.eqb provider "syouyu" then syouyu_exceeded
  else false.

End Exceeded.

(** ** Reading quotas *)

(** [serde_json::from_value::<ResourceQuotaLimits>]. *)
Class LimitsDecoder := limits_from_value : Value → option ResourceQuotaLimits.

Section Admission.
Context `{LimitsDecoder, Serde FlowSpec, Serde FlashSpec, Serde SyouyuSpec}.

Definition resource_quota_in_transaction (org : OrganizationId) (db : Db)
    : result StoreError ResourceQuotaLimits :=
  fail_if (negb (bool_decide (org ∈ organizations db))) NotFound ;;
  parse_resource_quota limits_from_value
    (default (resource_quota_defaults db) (organization_resource_quotas db !! org)).

Definition member_quota_in_transaction (org : OrganizationId) (user : UserId)
    (organization_limits : ResourceQuotaLimits) (db : Db) : result StoreError ResourceQuotaLimits :=
  fail_if (negb (is_member org user db)) NotFound ;;
  match member_resource_quotas db !! (org, user) with
  | Some member =>
      member ← parse_resource_quota limits_from_value member;
      capped_limits limits_from_value organization_limits member
  | None => Ok organization_limits
  end.

(** ** Admission *)

(** The nested function [add]. *)
Definition add_usage (provider : string) (usage : ResourceQuotaUsage) (value : Value)
    : result StoreError ResourceQuotaUsage :=
  if String.eqb provider "flow" then
    s ← ok_or JsonError (from_value value); Ok (add_flow_spec usage s)
  else if String.eqb provider "flash" then
    s ← ok_or JsonError (from_value value); Ok (add_flash_spec usage s)
  else
    s ← ok_or JsonError (from_value value); Ok (add_syouyu_spec usage s).

Definition metered (provider : string) : bool :=
  bool_decide (provider ∈ ["flow"; "flash"; "syouyu"]).

(** The part the two checks have in common: usage before and after, per
    service and in total. *)
Definition allocation_exceeds (provider : string) (limits : ResourceQuotaLimits)
    (rows : list Value) (previous : option Value) (requested : Value) : result StoreError bool :=
  others ← fold_result (add_usage provider) ResourceQuotaUsage_default rows;
  '(before, previous_service) ←
    match previous with
    | Some value =>
        before ← add_usage provider others value;
        previous_service ← add_usage provider ResourceQuotaUsage_default value;
        Ok (before, previous_service)
    | None => Ok (others, ResourceQuotaUsage_default)
    end;
  usage ← add_usage provider others requested;
  requested_service ← add_usage provider ResourceQuotaUsage_default requested;
  Ok (exceeded (is_some previous) limits usage before requested_service previous_service provider).

(** [$n::uuid IS NULL OR id <> $n]. *)
Definition other_than (excluded : option Uuid) (id : Uuid) : bool :=
  match excluded with Some e => negb (bool_decide (id = e)) | None => true end.

Definition service_spec (p : ServiceRow → bool) (id : option Uuid) (db : Db) : option Value :=
  r ← (id ≫= λ id, service_instances db !! id);
  if p r then Some (spec r) else None.

Definition validate_member_allocation (org : OrganizationId) (user : UserId)
    (excluded_service : option ServiceInstanceId) (provider : string) (requested : Value)
    (organization_limits : ResourceQuotaLimits) (allow_reduction : bool) (db : Db)
    : result StoreError () :=
  if negb (metered provider) then Ok () else
  limits ← member_quota_in_transaction org user organization_limits db;
  let charged r := in_org org r && bool_decide (quota_user_id r = Some user)
                   && has_provider provider r && not_deleting r in
  let rows := spec ∘ snd <$>
    select_services (λ id r, charged r && other_than excluded_service id) db in
  let previous := if allow_reduction then service_spec charged excluded_service db else None in
  exceeds ← allocation_exceeds provider limits rows previous requested;
  fail_if exceeds (RequestRejected "{provider} allocation exceeds the member quota").

Definition validate_cloud_organization_allocation (account : OrganizationId)
    (excluded_service : option ServiceInstanceId) (provider : string) (requested : Value)
    (allow_reduction : bool) (db : Db) : result StoreError () :=
  if negb (metered provider) then Ok () else
  if negb (organization_service_quotas_enabled db) then Ok () else
  cloud ← ok_or NotFound (cloud_organization_accounts db !! account);
  management ← ok_or NotFound (cloud_management_accounts db !! cloud);
  limits ← parse_resource_quota limits_from_value
    (default (resource_quota_defaults db) (organization_resource_quotas db !! management));
  let in_cloud r :=
    bool_decide (cloud_organization_accounts db !! organization_id r = Some cloud) in
  let rows := spec ∘ snd <$>
    select_services (λ id r, in_cloud r && has_provider provider r && other_than excluded_service id)
      db in
  let previous :=
    if allow_reduction then
      service_spec (λ r, in_org account r && has_provider provider r && not_deleting r)
        excluded_service db
    else None in
  exceeds ← allocation_exceeds provider limits rows previous requested;
  fail_if exceeds
    (RequestRejected "{provider} allocation exceeds the cloud organization service quota").

End Admission.

(** ** Totals

    The saturating counters against exact sums. *)

Definition total {S} (f : S → Z) (l : list S) : Z := foldr (λ s acc, f s + acc) 0 l.

Lemma total_nonneg {S} (f : S → Z) l : Forall (λ s, 0 ≤ f s) l → 0 ≤ total f l.
Proof. induction 1; simpl; lia. Qed.

Lemma sat_add_mul a r x :
  0 ≤ a → 0 ≤ r * x → u64_saturating_add a (u64_saturating_mul r x) = Z.min (a + r * x) u64_max.
Proof. unfold u64_saturating_add, u64_saturating_mul, u64_max. lia. Qed.

Section Counter.
Context {U S : Type} (add : U → S → U) (counter : U → Z) (f : S → Z).
Hypothesis counter_add : ∀ u s, 0 ≤ counter u → 0 ≤ f s →
  counter (add u s) = Z.min (counter u + f s) u64_max.

Lemma counter_fold u l :
  0 ≤ counter u ≤ u64_max → Forall (λ s, 0 ≤ f s) l →
  counter (foldl add u l) = Z.min (counter u + total f l) u64_max.
Proof.
  intros Hu Hl. revert u Hu. induction Hl as [|s l Hs Hl IH]; intros u Hu; simpl.
  - lia.
  - pose proof (total_nonneg f l Hl). rewrite IH; rewrite counter_add by lia; lia.
Qed.

(** A counter that is not over its limit: the exact total is within the limit,
    or it did not grow. *)
Lemma not_over u0 others old new limit :
  counter u0 = 0 → limit < u64_max → Forall (λ s, 0 ≤ f s) others → 0 ≤ f new →
  (∀ o, old = Some o → 0 ≤ f o) →
  over (is_some old) (counter (add (foldl add u0 others) new)) limit
    (counter (match old with Some o => add (foldl add u0 others) o | None => foldl add u0 others end))
  = false →
  total f (new :: others) ≤ limit ∨
  ∃ o, old = Some o ∧ Z.min (total f (new :: others)) u64_max ≤ total f (o :: others).
Proof.
  intros H0 Hlim Hothers Hnew Hold. pose proof (total_nonneg f others Hothers) as Ht.
  pose proof (counter_fold u0 others ltac:(rewrite H0; done) Hothers) as Hc. rewrite H0 in Hc.
  assert (0 ≤ counter (foldl add u0 others)) by (rewrite Hc; unfold u64_max; lia).
  unfold over. rewrite counter_add by done. rewrite Hc. autorewrite with guards. simpl.
  intros [Hle | [Hp Hle]]; [left; lia|]. right. destruct old as [o|]; [|done]. exists o.
  split; [done|]. rewrite counter_add in Hle by auto. rewrite Hc in Hle. lia.
Qed.

End Counter.

Definition flash_totals : list ((FlashSpec → Z) * (FlashQuotaLimits.t → Z)) :=
  [(λ _, 1, FlashQuotaLimits.max_services);
   (reserved_replicas, FlashQuotaLimits.max_total_replicas);
   (λ s, reserved_replicas s * cpu_millis s, FlashQuotaLimits.max_total_cpu_millis);
   (λ s, reserved_replicas s * memory_mib s, FlashQuotaLimits.max_total_memory_mib);
   (λ s, reserved_replicas s * ephemeral_storage_gib s, FlashQuotaLimits.max_total_disk_gib)].

Definition flash_ceilings : list ((FlashSpec → Z) * (FlashQuotaLimits.t → Z)) :=
  [(reserved_replicas, FlashQuotaLimits.max_replicas_per_service);
   (cpu_millis, FlashQuotaLimits.max_cpu_millis_per_vm);
   (memory_mib, FlashQuotaLimits.max_memory_mib_per_vm);
   (ephemeral_storage_gib, FlashQuotaLimits.max_disk_gib_per_vm)].

Lemma reserved_replicas_u32 s : representable s → is_u32 (reserved_replicas s).
Proof.
  unfold representable, flash_representable, reserved_replicas. intros (Hr & _ & _ & _ & _ & _ & Ha & _).
  destruct (autoscaling s); tauto.
Qed.

(** The measured quantities are not negative. *)
Lemma flash_measures_nonneg s f limit :
  representable s → (f, limit) ∈ flash_totals ++ flash_ceilings → 0 ≤ f s.
Proof.
  intros Hs. pose proof (reserved_replicas_u32 s Hs) as Hr.
  unfold representable, flash_representable in Hs. unfold is_u32 in *.
  destruct Hs as (_ & ? & ? & ? & _). unfold flash_totals, flash_ceilings. simpl.
  rewrite !elem_of_cons. intros Hin.
  destruct_or?; simplify_eq; try lia; try nia. by apply not_elem_of_nil in Hin.
Qed.

Section FlashAdmission.
Context `{LimitsDecoder, Serde FlowSpec, Serde FlashSpec, Serde SyouyuSpec, !SerdeRange FlashSpec}.

Lemma add_usage_flash u v u' :
  add_usage "flash" u v = Ok u' ↔ ∃ s, from_value v = Some s ∧ u' = add_flash_spec u s.
Proof.
  unfold add_usage. simpl. rewrite bind_ok. setoid_rewrite ok_or_ok. naive_solver.
Qed.

Lemma fold_usage_flash rows u u' :
  fold_result (add_usage "flash") u rows = Ok u' →
  ∃ specs, Forall2 (λ v s, from_value v = Some s) rows specs ∧
    flash_usage u' = foldl add_flash (flash_usage u) specs.
Proof.
  revert u. induction rows as [|v rows IH]; intros u; simpl.
  - intros [= <-]. by exists [].
  - rewrite bind_ok. intros (u1 & (s & Hs & ->)%add_usage_flash & Hrest).
    apply IH in Hrest as (specs & Hf & Hu). exists (s :: specs). split; [by constructor|].
    by rewrite Hu.
Qed.

Lemma decoded_representable rows (specs : list FlashSpec) :
  Forall2 (λ v s, from_value v = Some s) rows specs → Forall representable specs.
Proof. induction 1; constructor; eauto using from_value_representable. Qed.

(** What admission means for the specifications [others] that stay, the
    requested one and, for an update that may reduce, the previous one. *)
Record flash_admitted (l : FlashQuotaLimits.t) (others : list FlashSpec) (new : FlashSpec)
    (old : option FlashSpec) : Prop := {
  totals_admitted f limit : (f, limit) ∈ flash_totals →
    total f (new :: others) ≤ limit l ∨
    ∃ o, old = Some o ∧ Z.min (total f (new :: others)) u64_max ≤ total f (o :: others);
  ceilings_admitted f limit : (f, limit) ∈ flash_ceilings →
    f new ≤ limit l ∨ ∃ o, old = Some o ∧ f new ≤ f o;
}.

Lemma flash_limits_small l f limit :
  flash_quota_wf l → (f, limit) ∈ flash_totals → limit l < u64_max.
Proof.
  unfold flash_quota_wf, flash_totals. unfold_limits. unfold u64_max. rewrite !elem_of_cons.
  intros Hwf Hin. destruct_or?; simplify_eq; try lia. by apply not_elem_of_nil in Hin.
Qed.

Lemma not_over_ceiling (old : option FlashSpec) f new limit :
  0 ≤ f new → (∀ o, old = Some o → 0 ≤ f o) →
  over (is_some old) (Z.max 0 (f new)) limit (from_option (λ o, Z.max 0 (f o)) 0 old) = false →
  f new ≤ limit ∨ ∃ o, old = Some o ∧ f new ≤ f o.
Proof.
  intros Hnew Hold. unfold over. autorewrite with guards. intros [|[Hp Hle]]; [left; lia|].
  right. destruct old as [o|]; [|done]. exists o. simpl in Hle. specialize (Hold o eq_refl).
  split; [done | lia].
Qed.

Lemma flash_exceeded_admitted limits u others new old :
  flash_quota_wf (ResourceQuotaLimits.flash limits) →
  Forall representable others → representable new → (∀ o, old = Some o → representable o) →
  flash_usage u = foldl add_flash (flash_usage ResourceQuotaUsage_default) others →
  flash_exceeded (is_some old) limits (add_flash_spec u new)
    (match old with Some o => add_flash_spec u o | None => u end)
    (add_flash_spec ResourceQuotaUsage_default new)
    (match old with Some o => add_flash_spec ResourceQuotaUsage_default o
                  | None => ResourceQuotaUsage_default end) = false →
  flash_admitted (ResourceQuotaLimits.flash limits) others new old.
Proof.
  intros Hwf Hothers Hnew Hold Hu Hex.
  assert (Hnn : ∀ f limit, (f, limit) ∈ flash_totals ++ flash_ceilings →
    Forall (λ s, 0 ≤ f s) others ∧ 0 ≤ f new ∧ (∀ o, old = Some o → 0 ≤ f o)).
  { intros f limit Hin. split_and!.
    - eapply Forall_impl; [exact Hothers|]. eauto using flash_measures_nonneg.
    - eauto using flash_measures_nonneg.
    - eauto using flash_measures_nonneg. }
  pose proof (λ f limit, flash_limits_small _ f limit Hwf) as Hsmall.
  assert (Ha : ∀ u, flash_usage (add_flash_spec u new) = add_flash (flash_usage u) new) by done.
  assert (Hb : ∀ u, flash_usage (match old with Some o => add_flash_spec u o | None => u end)
                = match old with Some o => add_flash (flash_usage u) o | None => flash_usage u end)
    by (by destruct old).
  unfold flash_exceeded in Hex. rewrite !orb_false_iff, !Ha, !Hb in Hex. destruct_and?.
  set (u0 := flash_usage ResourceQuotaUsage_default) in *. constructor; intros f limit Hin.
  - assert (Hc : ∃ counter, counter u0 = 0 ∧
      (∀ u s, 0 ≤ counter u → 0 ≤ f s → counter (add_flash u s) = Z.min (counter u + f s) u64_max) ∧
      over (is_some old) (counter (add_flash (foldl add_flash u0 others) new))
        (limit (ResourceQuotaLimits.flash limits))
        (counter (match old with Some o => add_flash (foldl add_flash u0 others) o
                               | None => foldl add_flash u0 others end)) = false).
    { unfold flash_totals in Hin. rewrite !elem_of_cons in Hin.
      rewrite Hu in *.
      destruct_or? Hin; simplify_eq.
      - exists flash_services. auto.
      - exists flash_replicas. auto.
      - exists flash_cpu_millis. split_and!; [done | intros; by apply sat_add_mul | done].
      - exists flash_memory_mib. split_and!; [done | intros; by apply sat_add_mul | done].
      - exists flash_disk_gib. split_and!; [done | intros; by apply sat_add_mul | done].
      - by apply not_elem_of_nil in Hin. }
    destruct Hc as (counter & H0' & Hadd & Hover).
    destruct (Hnn f limit) as (Ho & Hn & Hp); [apply elem_of_app; by left|].
    eapply (not_over add_flash counter f); eauto.
  - destruct (Hnn f limit) as (_ & Hn & Hp); [apply elem_of_app; by right|].
    apply (not_over_ceiling old f new); try done.
    unfold flash_ceilings in Hin. rewrite !elem_of_cons in Hin.
    destruct_or? Hin; simplify_eq; try (destruct old; done).
    by apply not_elem_of_nil in Hin.
Qed.

Definition decodes (v : Value) (s : FlashSpec) : Prop := from_value v = Some s.

Lemma allocation_exceeds_flash limits rows previous requested :
  flash_quota_wf (ResourceQuotaLimits.flash limits) →
  allocation_exceeds "flash" limits rows previous requested = Ok false →
  ∃ others new old, Forall2 decodes rows others ∧ decodes requested new ∧
    option_Forall2 decodes previous old ∧
    flash_admitted (ResourceQuotaLimits.flash limits) others new old.
Proof.
  unfold allocation_exceeds. intros Hwf. rewrite bind_ok. intros (u & Hu & Hrest).
  rewrite bind_ok in Hrest. destruct Hrest as ([before prev] & Hprev & Hrest).
  rewrite bind_ok in Hrest. destruct Hrest as (after & (new & Hnew & ->)%add_usage_flash & Hrest).
  rewrite bind_ok in Hrest. destruct Hrest as (single & (new' & Hnew' & ->)%add_usage_flash & Hex).
  simplify_eq. apply fold_usage_flash in Hu as (others & Hothers & Hfu).
  assert (Hold : ∃ old, option_Forall2 decodes previous old ∧ is_some previous = is_some old ∧
    before = (match old with Some o => add_flash_spec u o | None => u end) ∧
    prev = (match old with Some o => add_flash_spec ResourceQuotaUsage_default o
                         | None => ResourceQuotaUsage_default end)).
  { destruct previous as [v|].
    - rewrite bind_ok in Hprev. destruct Hprev as (b & (o & Ho & ->)%add_usage_flash & Hprev).
      rewrite bind_ok in Hprev. destruct Hprev as (p' & (o' & Ho' & ->)%add_usage_flash & [= <- <-]).
      simplify_eq. exists (Some o). split_and!; [by constructor | done | done | done].
    - simplify_eq. exists None. split_and!; [constructor | done | done | done]. }
  destruct Hold as (old & Hold & Hsome & -> & ->). exists others, new, old.
  split_and!; try done. rewrite Hsome in Hex.
  apply (flash_exceeded_admitted _ u); try done.
  - eauto using decoded_representable.
  - eauto using from_value_representable.
  - intros o ->. inversion Hold. eauto using from_value_representable.
Qed.

Lemma parse_resource_quota_wf v l :
  parse_resource_quota limits_from_value v = Ok l → limits_from_value v = Some l ∧ quota_wf l.
Proof.
  unfold parse_resource_quota, validate_resource_quota. intros H'. inv_ok H'.
  injection H' as <-. by rewrite <- ResourceQuotaLimits_validate_ok.
Qed.

Lemma capped_limits_wf organization member l :
  quota_wf organization → capped_limits limits_from_value organization member = Ok l → quota_wf l.
Proof.
  unfold capped_limits. intros Ho H'. inv_ok H'. injection H' as <-.
  apply parse_resource_quota_wf in Hok0 as [_ ?]. by apply quota_wf_shared.
Qed.

Lemma member_quota_wf org user ol db l :
  quota_wf ol → member_quota_in_transaction org user ol db = Ok l → quota_wf l.
Proof.
  unfold member_quota_in_transaction. intros Hol. rewrite guard_ok. intros [_ Hm].
  destruct (member_resource_quotas db !! (org, user)); [|by simplify_eq].
  inv_ok Hm. eauto using capped_limits_wf.
Qed.

(** The rows a member is charged for. *)
Definition charged_to (org : OrganizationId) (user : UserId) (provider : string) (r : ServiceRow)
    : bool :=
  in_org org r && bool_decide (quota_user_id r = Some user) && has_provider provider r
  && not_deleting r.

Definition charged_specs (org : OrganizationId) (user : UserId) (provider : string)
    (excluded : option ServiceInstanceId) (db : Db) : list Value :=
  spec ∘ snd <$> select_services (λ id r, charged_to org user provider r && other_than excluded id) db.

(** The specification that an update which may reduce starts from: the one stored in
    the row of the service. *)
Definition stored_spec (p : ServiceRow → bool) (id : option ServiceInstanceId) (db : Db) (o : FlashSpec) : Prop :=
  ∃ service r, id = Some service ∧ service_instances db !! service = Some r ∧ p r = true ∧ decodes (spec r) o.

Lemma previous_is_stored (allow : bool) p id db old :
  option_Forall2 decodes (if allow then service_spec p id db else None) old →
  ∀ o, old = Some o → allow = true ∧ stored_spec p id db o.
Proof.
  intros Hall o ->. destruct allow; [|by inversion Hall]. split; [done|].
  destruct (service_spec p id db) as [v|] eqn:Hv; [|by inversion Hall].
  assert (Hd : decodes v o) by by inversion Hall.
  apply bind_Some in Hv as (r & (service & -> & Hr)%bind_Some & Hp). destruct (p r) eqn:Hpr; [|done]. injection Hp as <-.
  by exists service, r.
Qed.

(** C28: Admission of a Flash service against a member's quota is sound: when
    [validate_member_allocation] accepts, then in each of the five measured
    totals (services, reserved replicas, CPU, memory and disk, each counted
    with the full autoscaling ceiling and without overflow) the services
    charged to the member together with the requested one stay within the
    member's effective limits, and the service itself within the per-VM
    ceilings; the only exception is an update that is allowed to reduce, of a
    service that is itself charged to the member: it may stay above a limit lowered
    meanwhile, but in that dimension it never grows beyond the specification that is
    stored for the service.  Creations and starts are always strict. *)
Theorem member_flash_allocation_within_quota org user excluded requested ol allow db :
  ResourceQuotaLimits_validate ol = Ok () →
  validate_member_allocation org user excluded "flash" requested ol allow db = Ok () →
  ∃ limits others new old,
    member_quota_in_transaction org user ol db = Ok limits ∧
    Forall2 decodes (charged_specs org user "flash" excluded db) others ∧
    decodes requested new ∧
    flash_admitted (ResourceQuotaLimits.flash limits) others new old ∧
    (∀ o, old = Some o → allow = true ∧ stored_spec (charged_to org user "flash") excluded db o).
Proof.
  intros Hol%ResourceQuotaLimits_validate_ok Hok. unfold validate_member_allocation in Hok.
  simpl in Hok. rewrite bind_ok in Hok. destruct Hok as (limits & Hlimits & Hok).
  rewrite bind_ok in Hok. destruct Hok as (b & Hex & ->%fail_if_ok).
  apply allocation_exceeds_flash in Hex as (others & new & old & ? & ? & Hold & ?);
    [| by eapply member_quota_wf].
  exists limits, others, new, old. split_and!; try done. exact (previous_is_stored _ _ _ _ _ Hold).
Qed.

(** The same across all accounts of a cloud organization: when the
    organization-wide quota is enabled and the check accepts, the Flash
    services of all its accounts, those being deleted included, together with
    the requested one stay within the quota of the management account. *)
Lemma cloud_flash_allocation_within_quota account excluded requested allow db :
  organization_service_quotas_enabled db = true →
  validate_cloud_organization_allocation account excluded "flash" requested allow db = Ok () →
  ∃ cloud management limits others new old,
    cloud_organization_accounts db !! account = Some cloud ∧
    cloud_management_accounts db !! cloud = Some management ∧
    limits_from_value (default (resource_quota_defaults db)
                         (organization_resource_quotas db !! management)) = Some limits ∧
    Forall2 decodes
      (spec ∘ snd <$> select_services (λ id r,
         bool_decide (cloud_organization_accounts db !! organization_id r = Some cloud)
         && has_provider "flash" r && other_than excluded id) db) others ∧
    decodes requested new ∧
    flash_admitted (ResourceQuotaLimits.flash limits) others new old ∧
    (∀ o, old = Some o → allow = true ∧
       stored_spec (λ r, in_org account r && has_provider "flash" r && not_deleting r) excluded db o).
Proof.
  intros Hen Hok. unfold validate_cloud_organization_allocation in Hok. rewrite Hen in Hok.
  simpl in Hok. rewrite bind_ok in Hok. destruct Hok as (cloud & Hcloud%ok_or_ok & Hok).
  rewrite bind_ok in Hok. destruct Hok as (mgmt & Hmgmt%ok_or_ok & Hok).
  rewrite bind_ok in Hok. destruct Hok as (limits & Hlimits & Hok).
  rewrite bind_ok in Hok. destruct Hok as (b & Hex & ->%fail_if_ok).
  apply parse_resource_quota_wf in Hlimits as [Hl Hwf].
  apply allocation_exceeds_flash in Hex as (others & new & old & ? & ? & Hold & ?);
    [| apply Hwf].
  exists cloud, mgmt, limits, others, new, old. split_and!; try done. exact (previous_is_stored _ _ _ _ _ Hold).
Qed.

End FlashAdmission.

(** ** Concrete instances

    A codec that names its specifications, and a small account. *)

Definition sample_serde {A} (samples : list (string * A)) : Serde A := {|
  to_value _ := Null;
  from_value v := s ← as_str v; field s samples;
|}.

Definition witness_flow_serde : Serde FlowSpec := sample_serde [].
Definition witness_syouyu_serde : Serde SyouyuSpec := sample_serde [].
Definition witness_flash_serde : Serde FlashSpec := sample_serde [("web", witness_flash)].

Lemma witness_flash_representable : representable witness_flash.
Proof.
  unfold representable, flash_representable, option_u32, is_u32, is_u16, u32_max, u16_max. simpl.
  split_and!; try lia; try done. apply Forall_singleton. simpl. lia.
Qed.

Lemma witness_flash_range : @SerdeRange FlashSpec witness_flash_serde _.
Proof.
  intros v a. simpl. destruct v; try done. simpl. destruct (String.eqb s "web"); [|done].
  intros [= <-]. apply witness_flash_representable.
Qed.

(** Account 1 with member 5, who has one Flash service 20; cloud organization
    90 managed by account 1. *)
Definition witness_row : ServiceRow := {|
  organization_id := 1%N;
  project_id := 2%N;
  provider := "flash";
  name := "web";
  generation := 3;
  state := Ready;
  spec := Str "web";
  status := Object [];
  quota_user_id := Some 5%N;
|}.

Definition witness_db : Db := {|
  now := 100;
  next_uuid := 1000%N;
  service_instances := {[20%N := witness_row]};
  outbox_events := ∅;
  principals := {[3%N := {| principal_organization_id := 1%N; kind := "user"; principal_name := "Owner";
                            user_id := Some 5%N; principal_quota_user_id := None; enabled := true;
                            permissions_boundary_policy_id := None |}]};
  users := {[5%N := {| email := "owner@example.com"; display_name := "Owner";
                       password_hash := None; user_status := "active" |}]};
  projects := {[2%N := Build_ProjectRow 1%N "main" "Main"]};
  organizations := {[1%N]};
  organization_memberships := {[(1%N, 5%N) := {| member_principal_id := 3%N; member_role := "owner"; identity_center_membership_id := 90%N |}]};
  resource_quota_defaults := ResourceQuotaLimits.to_value ResourceQuotaLimits_default;
  organization_resource_quotas := ∅;
  member_resource_quotas := {[(1%N, 5%N) := ResourceQuotaLimits.to_value witness_member]};
  cloud_organization_accounts := {[1%N := 90%N]};
  cloud_management_accounts := {[90%N := 1%N]};
  organization_service_quotas_enabled := true;
  organization_flash_weekly_quotas_enabled := false;
  gpu_devices := {[70%N := Build_GpuDeviceRow "gpu-0" "a100" "A100" true true 0]};
  gpu_device_user_assignments := ∅;
  flash_gpu_service_requests := ∅;
  workload_access_tokens := {[80%N := {| token_organization := 1%N; token_service := 20%N;
    token_principal := 3%N; pod_uid := 81%N; token_digest := []; token_expires_at := 1000 |}]};
  flash := empty_flash;
  service_quota_owners := {[20%N := (1%N, Some 5%N)]};
  cloud := empty_cloud;
  flow := empty_flow;
  identity := empty_identity;
  audit_events := [];
  access := empty_access;
  registry := empty_registry;
|}.

Lemma member_flash_allocation_within_quota_witness :
  let _ : LimitsDecoder := limits_of_value in
  let _ := witness_flash_serde in
  ∃ limits others new old,
    member_quota_in_transaction 1%N 5%N ResourceQuotaLimits_default witness_db = Ok limits ∧
    Forall2 decodes (charged_specs 1%N 5%N "flash" (Some 20%N) witness_db) others ∧
    decodes (Str "web") new ∧
    flash_admitted (ResourceQuotaLimits.flash limits) others new old ∧
    (∀ o, old = Some o → true = true ∧ stored_spec (charged_to 1%N 5%N "flash") (Some 20%N) witness_db o).
Proof.
  intros.
  apply (@member_flash_allocation_within_quota limits_of_value witness_flow_serde
           witness_flash_serde witness_syouyu_serde witness_flash_range).
  - vm_compute. reflexivity.
  - vm_compute. reflexivity.
Defined.

