(* ===== verification/Provider.v ===== *)
(** * Requests to providers

    [heterocloud-provider/src/lib.rs] (the signed context, the body of a
    request) and the reads of [heterocloud-store] the weekly policy of a Flash
    service is made of. *)
From stdpp Require Import sorting.
From S2P Require Import Prelude Text Json Policy Quota Specs Store Usage.

Definition PROVIDER_TOKEN_TTL_SECONDS : Z := 60.
Definition PRINCIPAL_CONTEXT_REVOKE_ACTION : string := "principal-context.revoke".
Definition PRINCIPAL_CONTEXT_REVOCATION_GRACE_SECONDS : Z := 15.

(** ** The signed context *)

Record ProviderContext := {
  context_principal_id : PrincipalId;
  context_user_id : option UserId;
  context_organization_id : OrganizationId;
  context_project_id : ProjectId;
  context_service_instance_id : ServiceInstanceId;
  context_action : string;
  context_generation : Z;
}.

Record ProviderSigner := {
  issuer : string;
  audience : string;
}.

Record ProviderClaims := {
  claims_issuer : string;
  claims_audience : string;
  subject : string;
  claims_user_id : option UserId;
  claims_organization_id : OrganizationId;
  claims_project_id : ProjectId;
  claims_service_instance_id : ServiceInstanceId;
  claims_action : string;
  claims_generation : Z;
  jwt_id : Uuid;
  issued_at : Z;
  not_before : Z;
  claims_expires_at : Z;
}.

(** The claims [ProviderSigner::sign] puts into the token at time [now]; the
    signature itself is a matter of the [jsonwebtoken] crate. *)
Definition sign_claims `{UuidText} (signer : ProviderSigner) (jti : Uuid) (now : Z)
    (context : ProviderContext) : ProviderClaims := {|
  claims_issuer := issuer signer;
  claims_audience := audience signer;
  subject := uuid_to_string (context_principal_id context);
  claims_user_id := context_user_id context;
  claims_organization_id := context_organization_id context;
  claims_project_id := context_project_id context;
  claims_service_instance_id := context_service_instance_id context;
  claims_action := context_action context;
  claims_generation := context_generation context;
  jwt_id := jti;
  issued_at := now;
  not_before := now - 5;
  claims_expires_at := now + PROVIDER_TOKEN_TTL_SECONDS;
|}.

(** ** Weekly limits of a Flash service *)

Module WeeklyLimits.
Record t := {
  max_weekly_cpu_millicore_seconds : Z;
  max_weekly_memory_mib_seconds : Z;
  max_weekly_gpu_seconds : Z;
}.

(** The weekly ceilings among the limits of a quota. *)
Definition of_quota (q : ResourceQuotaLimits) : t := {|
  max_weekly_cpu_millicore_seconds :=
    FlashQuotaLimits.max_weekly_cpu_millicore_seconds (ResourceQuotaLimits.flash q);
  max_weekly_memory_mib_seconds :=
    FlashQuotaLimits.max_weekly_memory_mib_seconds (ResourceQuotaLimits.flash q);
  max_weekly_gpu_seconds :=
    FlashQuotaLimits.max_weekly_gpu_seconds (ResourceQuotaLimits.flash q);
|}.

Definition min (a b : t) : t := {|
  max_weekly_cpu_millicore_seconds :=
    Z.min (max_weekly_cpu_millicore_seconds a) (max_weekly_cpu_millicore_seconds b);
  max_weekly_memory_mib_seconds :=
    Z.min (max_weekly_memory_mib_seconds a) (max_weekly_memory_mib_seconds b);
  max_weekly_gpu_seconds := Z.min (max_weekly_gpu_seconds a) (max_weekly_gpu_seconds b);
|}.

Definition le (a b : t) : Prop :=
  max_weekly_cpu_millicore_seconds a ≤ max_weekly_cpu_millicore_seconds b ∧
  max_weekly_memory_mib_seconds a ≤ max_weekly_memory_mib_seconds b ∧
  max_weekly_gpu_seconds a ≤ max_weekly_gpu_seconds b.

Lemma min_le_r a b : le (min a b) b.
Proof. unfold le, min. simpl. lia. Qed.
End WeeklyLimits.

Record FlashCloudOrganizationWeeklyLimits := {
  account_ids : list OrganizationId;
  cloud_limits : WeeklyLimits.t;
}.

Record FlashProviderPolicy := {
  account_limits : WeeklyLimits.t;
  member : option WeeklyLimits.t;
  cloud_organization : option FlashCloudOrganizationWeeklyLimits;
}.

Record ReconcileRequest := {
  request_generation : Z;
  request_name : string;
  request_spec : Value;
  policy : option FlashProviderPolicy;
  request_quota_user_id : option UserId;
  quota_only : bool;
}.

(** ** Reads of the store *)

Section Reads.
Context `{LimitsDecoder}.

(** [Store::principal_user_id]. *)
Definition active_principal_user (principal : PrincipalId) (db : Db) : option UserId :=
  p ← principals db !! principal;
  u ← user_id p;
  if enabled p && bool_decide (u ∈ active_users db) then Some u else None.

Definition service_quota_user (org : OrganizationId) (id : ServiceInstanceId) (db : Db)
    : result StoreError (option UserId) :=
  match service_instances db !! id with
  | Some r => fail_if (negb (in_org org r)) NotFound ;; Ok (quota_user_id r)
  | None => Err NotFound
  end.

Definition effective_resource_quota := resource_quota_in_transaction.

Definition effective_member_quota (org : OrganizationId) (user : UserId) (db : Db)
    : result StoreError ResourceQuotaLimits :=
  organization_limits ← resource_quota_in_transaction org db;
  member_quota_in_transaction org user organization_limits db.

(** [SELECT account_id ... ORDER BY account_id]. *)
Definition accounts_of (cloud : Uuid) (db : Db) : list OrganizationId :=
  merge_sort N.le (fst <$> filter (λ e, snd e = cloud) (map_to_list (cloud_organization_accounts db))).

Definition cloud_flash_weekly_quota (account : OrganizationId) (db : Db)
    : result StoreError (option (list OrganizationId * ResourceQuotaLimits)) :=
  cloud ← ok_or NotFound (cloud_organization_accounts db !! account);
  management ← ok_or NotFound (cloud_management_accounts db !! cloud);
  if negb (organization_flash_weekly_quotas_enabled db) then Ok None else
  let accounts := take (Z.to_nat 10001) (accounts_of cloud db) in
  fail_if (is_nil accounts || (10000 <? Z.of_nat (length accounts)))
    (Invariant "invalid cloud organization account count") ;;
  limits ← parse_resource_quota limits_from_value
    (default (resource_quota_defaults db) (organization_resource_quotas db !! management));
  Ok (Some (accounts, limits)).

End Reads.

(** The policy of a Flash service, of the quotas read for it. *)
Definition flash_provider_policy (quota : ResourceQuotaLimits) (member_quota : option ResourceQuotaLimits)
    (cloud : option (list OrganizationId * ResourceQuotaLimits)) : FlashProviderPolicy := {|
  account_limits := WeeklyLimits.of_quota quota;
  member := (λ limits, WeeklyLimits.min (WeeklyLimits.of_quota limits) (WeeklyLimits.of_quota quota))
            <$> member_quota;
  cloud_organization := (λ c, Build_FlashCloudOrganizationWeeklyLimits (fst c) (WeeklyLimits.of_quota (snd c)))
                        <$> cloud;
|}.
