(* ===== verification/Prepare.v ===== *)
(** * Preparing a specification for storage

    The functions of [heterocloud-store/src/lib.rs] that check a requested
    specification against the quota and the other services, and complete it:
    [prepare_flow_spec], [prepare_syouyu_spec], [prepare_flash_spec] (which
    assigns the service ports), [prepare_vpc_spec], [validate_vpc_attachment]
    and [validate_flash_disk_update].  They only read the database. *)
From S2P Require Import Prelude Text Json Net Policy Quota Specs Flash Store Usage.

(** Arithmetic on [u64] with [+] and [*] in a release build wraps around. *)
Definition u64_add (a b : Z) : Z := (a + b) mod 2 ^ 64.
Definition u64_mul (a b : Z) : Z := (a * b) mod 2 ^ 64.

Definition is_excluded (excluded : option ServiceInstanceId) (id : Uuid) : bool :=
  bool_decide (excluded = Some id).

(** ** Flow *)

Section Flow.
Context `{Serde FlowSpec}.

(** The loop over the stored services. *)
Definition flow_totals (excluded : option ServiceInstanceId) (acc : Z * Z)
    (row : Uuid * ServiceRow) : result StoreError (Z * Z) :=
  let '(services, rooms) := acc in
  if is_excluded excluded (fst row) then Ok acc
  else
    stored ← ok_or JsonError (from_value (spec (snd row)));
    Ok (u64_add services 1, u64_saturating_add rooms (max_rooms stored)).

Definition prepare_flow_spec (org : OrganizationId) (excluded : option ServiceInstanceId)
    (value : Value) (quota : ResourceQuotaLimits) (db : Db) : result StoreError Value :=
  let l := ResourceQuotaLimits.flow quota in
  requested ← ok_or JsonError (from_value value);
  fail_if (FlowQuotaLimits.max_rooms_per_service l <? max_rooms requested)
    (RequestRejected "Flow room limit exceeded: {} requested, limit is {} per service") ;;
  fail_if (FlowQuotaLimits.max_participants_per_service l <? max_participants requested)
    (RequestRejected "Flow participant limit exceeded: {} requested, limit is {} per service") ;;
  fail_if ((FlowQuotaLimits.max_rate_limit_requests_per_second l
              <? requests_per_second (rate_limit requested))
           || (FlowQuotaLimits.max_rate_limit_burst l <? burst (rate_limit requested)))
    (RequestRejected "Flow API rate limit exceeds the tenant ceiling of {} RPS and {} burst") ;;
  let rows := select_services (λ _ r, in_org org r && has_provider "flow" r && not_deleting r) db in
  '(services, rooms) ← fold_result (flow_totals excluded) (1, max_rooms requested) rows;
  fail_if (FlowQuotaLimits.max_services l <? services)
    (RequestRejected "Flow service limit exceeded: {services} requested, limit is {}") ;;
  fail_if (FlowQuotaLimits.max_total_rooms l <? rooms)
    (RequestRejected "Flow tenant room limit exceeded: {rooms} requested, limit is {}") ;;
  Ok (to_value requested).

End Flow.

(** ** Syouyu *)

Section Syouyu.
Context `{Serde SyouyuSpec, JsonText}.

Definition syouyu_totals (excluded : option ServiceInstanceId) (requested : SyouyuSpec)
    (acc : Z * Z) (row : Uuid * ServiceRow) : result StoreError (Z * Z) :=
  let '(buckets, bytes) := acc in
  stored ← ok_or JsonError (from_value (spec (snd row)));
  if is_excluded excluded (fst row) then
    fail_if (negb (String.eqb (bucket_name requested) (bucket_name stored))
             || negb (String.eqb (syouyu_region requested) (syouyu_region stored)))
      (RequestRejected "Syouyu bucket_name and region cannot be changed after creation") ;;
    Ok acc
  else Ok (u64_saturating_add buckets 1, u64_saturating_add bytes (quota_bytes stored)).

(** The owner of a bucket name, in any account. *)
Definition bucket_owner (bucket : string) (db : Db) : option ServiceInstanceId :=
  fst <$> head (select_services (λ _ r, has_provider "syouyu" r
    && bool_decide (scalar_text (get "bucket_name" (spec r)) = Some bucket)) db).

Definition prepare_syouyu_spec (org : OrganizationId) (excluded : option ServiceInstanceId)
    (value : Value) (quota : ResourceQuotaLimits) (db : Db) : result StoreError Value :=
  let l := ResourceQuotaLimits.syouyu quota in
  requested ← ok_or JsonError (from_value value);
  map_err reject_domain (SyouyuSpec_validate requested) ;;
  fail_if (SyouyuQuotaLimits.max_bytes_per_bucket l <? quota_bytes requested)
    (RequestRejected "Syouyu bucket byte quota exceeded: {} requested, limit is {}") ;;
  fail_if (SyouyuQuotaLimits.max_objects_per_bucket l <? quota_objects requested)
    (RequestRejected "Syouyu bucket object quota exceeded: {} requested, limit is {}") ;;
  fail_if (is_some_and (λ id, negb (is_excluded excluded id)) (bucket_owner (bucket_name requested) db))
    Conflict ;;
  let rows := select_services (λ _ r, in_org org r && has_provider "syouyu" r && not_deleting r) db in
  '(buckets, bytes) ← fold_result (syouyu_totals excluded requested) (1, quota_bytes requested) rows;
  fail_if (SyouyuQuotaLimits.max_buckets l <? buckets)
    (RequestRejected "Syouyu bucket limit exceeded: {buckets} requested, limit is {}") ;;
  fail_if (SyouyuQuotaLimits.max_total_bytes l <? bytes)
    (RequestRejected "Syouyu tenant byte quota exceeded: {bytes} requested, limit is {}") ;;
  Ok (to_value requested).

End Syouyu.

(** ** Flash *)

(** [principal_user_id] of the store: the user of an enabled principal. *)
Definition principal_user_id (org : OrganizationId) (principal : PrincipalId) (db : Db)
    : result StoreError (option UserId) :=
  p ← ok_or (Invariant "authorized principal is missing") (principals db !! principal);
  if bool_decide (principal_organization_id p = org) && enabled p
     && match user_id p with Some u => bool_decide (u ∈ active_users db) | None => true end
  then Ok (user_id p)
  else Err (Invariant "authorized principal is missing").

Definition gpu_accessible (gpu : string) (user : option UserId) (db : Db) : bool :=
  existsb (λ e, String.eqb (device_gpu_type (snd e)) gpu
                && (visibility_open (snd e)
                    || is_some_and (λ u, bool_decide ((fst e, u) ∈ gpu_device_user_assignments db)) user))
    (map_to_list (gpu_devices db)).

Definition validate_flash_gpu_access (org : OrganizationId) (principal : PrincipalId)
    (requested : FlashSpec) (db : Db) : result StoreError () :=
  match gpu_type requested with
  | None => Ok ()
  | Some gpu =>
      user ← principal_user_id org principal db;
      fail_if (negb (gpu_accessible gpu user db))
        (RequestRejected "GPU type {gpu_type} does not exist or is not accessible to the authenticated principal")
  end.

Definition PortKey : Type := FlashProtocol * Z.

(** What the loop over the stored services accumulates. *)
Record FlashTotals := {
  occupied_ports : list PortKey;
  organization_services : Z;
  organization_replicas : Z;
  organization_cpu_millis : Z;
  organization_memory_mib : Z;
  organization_ephemeral_storage_gib : Z;
}.

Definition totals_start : FlashTotals := Build_FlashTotals [] 1 0 0 0 0.

Definition add_totals (t : FlashTotals) (services : Z) (s : FlashSpec) : FlashTotals := {|
  occupied_ports := occupied_ports t;
  organization_services := u64_add (organization_services t) services;
  organization_replicas := u64_add (organization_replicas t) (reserved_replicas s);
  organization_cpu_millis :=
    u64_add (organization_cpu_millis t) (u64_mul (reserved_replicas s) (cpu_millis s));
  organization_memory_mib :=
    u64_add (organization_memory_mib t) (u64_mul (reserved_replicas s) (memory_mib s));
  organization_ephemeral_storage_gib :=
    u64_add (organization_ephemeral_storage_gib t)
      (u64_mul (reserved_replicas s) (ephemeral_storage_gib s));
|}.

Definition add_occupied (keys : list PortKey) (t : FlashTotals) : FlashTotals :=
  Build_FlashTotals (keys ++ occupied_ports t) (organization_services t) (organization_replicas t)
    (organization_cpu_millis t) (organization_memory_mib t) (organization_ephemeral_storage_gib t).

(** Whether the service ports are node ports, shared by all services. *)
Definition uses_node_ports (s : FlashSpec) : bool :=
  bool_decide (exposure_type (exposure s) = Public) || negb (is_some (network s)).

Definition service_port_range : list Z :=
  seqZ MIN_FLASH_SERVICE_PORT (MAX_FLASH_SERVICE_PORT - MIN_FLASH_SERVICE_PORT + 1).

(** [BTreeMap<(FlashProtocol, String), u16>] of the existing ports: a later
    port of the same key replaces an earlier one. *)
Abbreviation ExistingPorts := (list (FlashProtocol * string * Z)).
Definition existing_port (m : ExistingPorts) (protocol : FlashProtocol) (port : string) : option Z :=
  snd <$> last (filter (λ e, fst e = (protocol, port)) m).

Definition with_service_port (value : Z) (p : FlashPort) : FlashPort :=
  Build_FlashPort (port_name p) (protocol p) (container_port p) value.

Definition free_port (occupied : list PortKey) (p : FlashProtocol) (value : Z) : bool :=
  negb (bool_decide ((p, value) ∈ occupied)).

Definition preserved_port (existing : ExistingPorts) (occupied : list PortKey) (p : FlashPort)
    : option Z :=
  value ← existing_port existing (protocol p) (port_name p);
  if in_range MIN_FLASH_SERVICE_PORT MAX_FLASH_SERVICE_PORT value
     && free_port occupied (protocol p) value
  then Some value else None.

Definition assign_port (existing : ExistingPorts) (occupied : list PortKey) (p : FlashPort)
    : option Z :=
  match preserved_port existing occupied p with
  | Some value => Some value
  | None => List.find (free_port occupied (protocol p)) service_port_range
  end.

(** The loop [for port in &mut requested.ports]. *)
Fixpoint assign_ports (internal : bool) (existing : ExistingPorts) (occupied : list PortKey)
    (l : list FlashPort) : result StoreError (list FlashPort) :=
  match l with
  | [] => Ok []
  | p :: l =>
      if internal then
        l' ← assign_ports internal existing occupied l;
        Ok (with_service_port (container_port p) p :: l')
      else
        assigned ← ok_or (RequestRejected "no free {} service ports remain in {MIN_FLASH_SERVICE_PORT}..={MAX_FLASH_SERVICE_PORT}")
                     (assign_port existing occupied p);
        l' ← assign_ports internal existing ((protocol p, assigned) :: occupied) l;
        Ok (with_service_port assigned p :: l')
  end.

Definition with_ports (l : list FlashPort) (s : FlashSpec) : FlashSpec :=
  Build_FlashSpec (region s) (image s) (deployment s) (task_role s) (replicas s) (stopped s)
    (autoscaling s) (cpu_millis s) (memory_mib s) (gpu_type s) (ephemeral_storage_gib s)
    (rootfs_storage_gib s) (persistent_storage_gib s) (restore_from_backup_id s) l (exposure s)
    (egress s) (network s) (env s) (secret_env s) (secret_files s) (command s) (args s) (metadata s).

Section Flash.
Context `{Serde FlashSpec, IpNetLib, UrlLib, JsonText}.

Definition flash_row_totals (org : OrganizationId) (excluded : option ServiceInstanceId)
    (t : FlashTotals) (row : Uuid * ServiceRow) : result StoreError FlashTotals :=
  if is_excluded excluded (fst row) then Ok t
  else
    stored ← ok_or JsonError (from_value (spec (snd row)));
    let t := if uses_node_ports stored then add_occupied (port_key <$> ports stored) t else t in
    Ok (if in_org org (snd row) then add_totals t 1 stored else t).

Definition existing_ports (existing_spec : option Value) : result StoreError ExistingPorts :=
  match existing_spec with
  | None => Ok []
  | Some value =>
      stored ← ok_or JsonError (from_value value);
      Ok ((λ p, (protocol p, port_name p, service_port p)) <$> ports stored)
  end.

(** The quota of the account, checked against the totals with the request. *)
Definition check_flash_totals (l : FlashQuotaLimits.t) (t : FlashTotals) : result StoreError () :=
  fail_if (FlashQuotaLimits.max_services l <? organization_services t)
    (RequestRejected "Flash service limit exceeded: {organization_services} requested, limit is {}") ;;
  fail_if (FlashQuotaLimits.max_total_replicas l <? organization_replicas t)
    (RequestRejected "Flash tenant replica limit exceeded: {organization_replicas} requested, limit is {}") ;;
  fail_if (FlashQuotaLimits.max_total_cpu_millis l <? organization_cpu_millis t)
    (RequestRejected "Flash tenant CPU limit exceeded: {organization_cpu_millis} millicores requested, limit is {}") ;;
  fail_if (FlashQuotaLimits.max_total_memory_mib l <? organization_memory_mib t)
    (RequestRejected "Flash tenant memory limit exceeded: {organization_memory_mib} MiB requested, limit is {} MiB") ;;
  fail_if (FlashQuotaLimits.max_total_disk_gib l <? organization_ephemeral_storage_gib t)
    (RequestRejected "Flash tenant disk limit exceeded: {organization_ephemeral_storage_gib} GiB requested, limit is {} GiB").

Definition prepare_flash_spec (org : OrganizationId) (principal : PrincipalId)
    (excluded : option ServiceInstanceId) (existing_spec : option Value) (value : Value)
    (quota : ResourceQuotaLimits) (db : Db) : result StoreError Value :=
  let l := ResourceQuotaLimits.flash quota in
  requested ← ok_or JsonError (from_value value);
  map_err reject_domain (FlashSpec_validate_request requested) ;;
  validate_flash_gpu_access org principal requested db ;;
  fail_if (FlashQuotaLimits.max_replicas_per_service l <? reserved_replicas requested)
    (RequestRejected "Flash replica limit exceeded: {} requested, limit is {} per service") ;;
  fail_if ((FlashQuotaLimits.max_cpu_millis_per_vm l <? cpu_millis requested)
           || (FlashQuotaLimits.max_memory_mib_per_vm l <? memory_mib requested)
           || (FlashQuotaLimits.max_disk_gib_per_vm l <? ephemeral_storage_gib requested))
    (RequestRejected "Flash VM resources exceed the tenant ceiling of {} millicores, {} MiB memory, and {} GiB disk") ;;
  let rows := select_services (λ _ r, has_provider "flash" r && not_deleting r) db in
  t ← fold_result (flash_row_totals org excluded) totals_start rows;
  existing ← existing_ports existing_spec;
  assigned ← assign_ports (vpc_internal requested) existing (occupied_ports t) (ports requested);
  let requested := with_ports assigned requested in
  check_flash_totals l (add_totals t 0 requested) ;;
  map_err reject_domain (FlashSpec_validate requested) ;;
  Ok (to_value requested).

End Flash.

(** ** Disks *)

Definition GIB : Z := 1024 * 1024 * 1024.

Definition gib_field (key : string) (v : Value) : option Z := get key v ≫= as_u64.

Definition reported_status (status : Value) : Value := default status (get "status" status).

(** The size in bytes the persistent disk is known to have. *)
Definition retained_bytes (existing status : Value) : Z :=
  Z.max (default 0 (gib_field "persistent_storage_bytes" (reported_status status)))
    (u64_mul (default 0 (gib_field "persistent_storage_gib" existing)) GIB).

Definition disk_too_small (existing status requested : Value) (persistent : option Z) : bool :=
  match gib_field "image_size_bytes" (reported_status status),
        gib_field "rootfs_storage_gib" requested, gib_field "ephemeral_storage_gib" requested with
  | Some image, Some rootfs, Some total =>
      u64_mul total GIB
        <? u64_add (u64_add image (u64_mul rootfs GIB))
             (default (retained_bytes existing status) persistent)
  | _, _, _ => false
  end.

Fixpoint value_eqb (v w : Value) {struct v} : bool :=
  match v, w with
  | Null, Null => true
  | Bool a, Bool b => eqb a b
  | Num (Int a), Num (Int b) => a =? b
  | Num (Float a), Num (Float b) => String.eqb a b
  | Str a, Str b => String.eqb a b
  | Array a, Array b =>
      (fix list_eqb (l k : list Value) : bool :=
         match l, k with
         | [], [] => true
         | x :: l, y :: k => value_eqb x y && list_eqb l k
         | _, _ => false
         end) a b
  | Object a, Object b =>
      (length a =? length b)%nat
      && (fix fields_eqb (l : list (string * Value)) : bool :=
            match l with
            | [] => true
            | (key, x) :: l => is_some_and (value_eqb x) (field key b) && fields_eqb l
            end) a
  | _, _ => false
  end.

Definition same_field (key : string) (v w : Value) : bool :=
  match get key v, get key w with
  | Some a, Some b => value_eqb a b
  | None, None => true
  | _, _ => false
  end.

Definition validate_flash_disk_update (existing status requested : Value) : result StoreError () :=
  let persistent := (λ gib, u64_mul gib GIB) <$> gib_field "persistent_storage_gib" requested in
  fail_if (is_some_and (λ bytes, bytes <? retained_bytes existing status) persistent)
    (RequestRejected "persistent disks cannot be shrunk; choose a size at least as large as the existing disk") ;;
  fail_if (same_field "image" existing requested
           && disk_too_small existing status requested persistent)
    (RequestRejected "increase ephemeral_storage_gib to fit the image, requested container filesystem and existing persistent disk").

(** ** VPCs *)

Section Vpc.
Context `{Serde FlashSpec, Serde VpcSpec, UuidText}.

Definition groups_known (vpc : VpcSpec) (groups : list string) : bool :=
  forallb (λ g, bool_decide (g ∈ security_groups vpc)) groups.

(** The name a service has inside its VPC. *)
Definition stored_private_name (id : Uuid) (r : ServiceRow) : string :=
  default ("f-" +:+ uuid_simple id) (path_text "network" "private_name" (spec r)).

Definition validate_vpc_attachment (org : OrganizationId) (project : ProjectId)
    (id : ServiceInstanceId) (value : Value) (db : Db) : result StoreError () :=
  flash ← ok_or (RequestRejected "{e}") (from_value value);
  match network flash with
  | None => Ok ()
  | Some network =>
      row ← ok_or (RequestRejected "VPC must belong to this organization and project")
              (r ← service_instances db !! vpc_id network;
               if in_org org r && bool_decide (project_id r = project) && has_provider "vpc" r
               then Some r else None);
      fail_if (negb (not_deleting row)) Conflict ;;
      vpc ← ok_or (Invariant "invalid VPC specification") (from_value (spec row));
      fail_if (negb (String.eqb (vpc_region vpc) (region flash))
               || negb (groups_known vpc (attached_groups network)))
        (RequestRejected "VPC region and security groups must match the attachment") ;;
      let wanted := default ("f-" +:+ uuid_simple id) (private_name network) in
      fail_if (exists_service (λ id' r, in_org org r && has_provider "flash" r
                 && negb (bool_decide (id' = id)) && attached_to (vpc_id network) r
                 && String.eqb (stored_private_name id' r) wanted) db)
        (RequestRejected "private_name is already in use in this VPC")
  end.

Definition validate_rule_peer (org : OrganizationId) (project : ProjectId)
    (id : ServiceInstanceId) (db : Db) (peer : VpcPeer) : result StoreError () :=
  match peer with
  | Service service_id =>
      fail_if (negb (exists_service (λ id' r, bool_decide (id' = service_id) && in_org org r
                 && bool_decide (project_id r = project) && has_provider "flash" r
                 && not_deleting r && attached_to id r) db))
        (RequestRejected "rule service must be attached to this VPC")
  | _ => Ok ()
  end.

Definition prepare_vpc_spec (org : OrganizationId) (project : ProjectId) (id : ServiceInstanceId)
    (value : Value) (creating : bool) (db : Db) : result StoreError Value :=
  vpc ← ok_or (RequestRejected "{e}") (from_value value);
  map_err reject_domain (VpcSpec_validate vpc) ;;
  fail_if (creating
           && (16 <=? length (select_services (λ _ r, in_org org r && has_provider "vpc" r) db))%nat)
    (RequestRejected "at most 16 VPCs are supported per organization") ;;
  for_each (λ row,
    flash ← ok_or (Invariant "invalid Flash specification") (from_value (spec (snd row)));
    fail_if (negb (String.eqb (region flash) (vpc_region vpc))
             || is_some_and (λ n, negb (groups_known vpc (attached_groups n))) (network flash))
      (RequestRejected "cannot remove an attached security group or change the region of an attached VPC"))
    (select_services (λ _ r, in_org org r && has_provider "flash" r && attached_to id r) db) ;;
  for_each (λ rule, for_each (validate_rule_peer org project id db) [source rule; destination rule])
    (rules vpc) ;;
  Ok (to_value vpc).

End Vpc.
