(* ===== verification/PrepareFacts.v ===== *)
(** * What preparation establishes

    Theorems about [Prepare]: assigned service ports never collide, resubmitted
    services keep theirs, totals stay within the account's quota, disks are
    not shrunk, VPC references are closed. *)
From S2P Require Import Prelude Text Json Net Policy Quota Specs Flash Store Usage Prepare.

Lemma filter_none {A} (P : A → Prop) `{∀ x, Decision (P x)} l :
  (∀ x, x ∈ l → ¬ P x) → filter P l = [].
Proof.
  induction l as [|x l IH]; intros Hno; [done|].
  rewrite filter_cons_False by (apply Hno; by left). apply IH. intros y Hy. apply Hno. by right.
Qed.

(** ** Selecting rows *)

Lemma elem_of_select p db id r :
  (id, r) ∈ select_services p db ↔ service_instances db !! id = Some r ∧ p id r = true.
Proof.
  unfold select_services. rewrite list_elem_of_filter, elem_of_map_to_list. simpl. tauto.
Qed.

Lemma exists_service_true p db :
  exists_service p db = true ↔ ∃ id r, service_instances db !! id = Some r ∧ p id r = true.
Proof.
  unfold exists_service. setoid_rewrite <- elem_of_select.
  destruct (select_services p db) as [|[id r] l]; simpl.
  - split; [done | intros (? & ? & Hin); by apply not_elem_of_nil in Hin].
  - split; [intros _; exists id, r; by left | done].
Qed.

(** ** Assigned ports *)

Lemma elem_of_service_port_range v :
  v ∈ service_port_range ↔ MIN_FLASH_SERVICE_PORT ≤ v ≤ MAX_FLASH_SERVICE_PORT.
Proof.
  unfold service_port_range. rewrite elem_of_seqZ. unfold MIN_FLASH_SERVICE_PORT,
    MAX_FLASH_SERVICE_PORT. lia.
Qed.

Lemma free_port_spec occupied p v : free_port occupied p v = true ↔ (p, v) ∉ occupied.
Proof. unfold free_port. by rewrite negb_true_iff, bool_decide_false_iff. Qed.

Lemma find_some {A} (f : A → bool) l x : List.find f l = Some x → x ∈ l ∧ f x = true.
Proof. intros Hf%List.find_some. by rewrite list_elem_of_In. Qed.

Lemma preserved_port_some existing occupied p v :
  preserved_port existing occupied p = Some v ↔
  existing_port existing (protocol p) (port_name p) = Some v ∧
  MIN_FLASH_SERVICE_PORT ≤ v ≤ MAX_FLASH_SERVICE_PORT ∧ (protocol p, v) ∉ occupied.
Proof.
  unfold preserved_port. destruct (existing_port _ _ _) as [w|]; simpl; [|naive_solver].
  rewrite <- in_range_spec, <- free_port_spec, <- andb_true_iff.
  destruct (_ && _) eqn:E.
  - split; [intros [= <-]; auto | tauto].
  - split; [done | intros [[= <-] ?]; congruence].
Qed.

Lemma assign_port_some existing occupied p v :
  assign_port existing occupied p = Some v →
  MIN_FLASH_SERVICE_PORT ≤ v ≤ MAX_FLASH_SERVICE_PORT ∧ (protocol p, v) ∉ occupied.
Proof.
  unfold assign_port. destruct (preserved_port _ _ _) as [w|] eqn:E.
  - intros [= <-]. by apply preserved_port_some in E as (_ & ?).
  - intros [Hin Hfree]%find_some. by rewrite <- elem_of_service_port_range, <- free_port_spec.
Qed.

(** Assignment changes nothing but the service port. *)
Definition same_port (p q : FlashPort) : Prop :=
  port_name q = port_name p ∧ protocol q = protocol p ∧ container_port q = container_port p.

Lemma assign_ports_node existing occupied l l' :
  assign_ports false existing occupied l = Ok l' →
  Forall2 same_port l l' ∧ NoDup (port_key <$> l') ∧
  Forall (λ q, MIN_FLASH_SERVICE_PORT ≤ service_port q ≤ MAX_FLASH_SERVICE_PORT) l' ∧
  (∀ k, k ∈ port_key <$> l' → k ∉ occupied).
Proof.
  revert occupied l'. induction l as [|p l IH]; intros occupied l'; simpl.
  - intros [= <-]. split_and!; [constructor | apply NoDup_nil_2 | constructor | set_solver].
  - rewrite bind_ok. intros (v & Hv%ok_or_ok & Hrest).
    rewrite bind_ok in Hrest. destruct Hrest as (l1 & (Hs & Hnd & Hr & Hfree)%IH & [= <-]).
    apply assign_port_some in Hv as [Hrange Hocc]. split_and!.
    + constructor; [done | exact Hs].
    + rewrite fmap_cons, NoDup_cons. split; [|done]. intros Hin.
      apply (Hfree _ Hin). by left.
    + constructor; [done | exact Hr].
    + intros k. rewrite fmap_cons, elem_of_cons. intros [-> | Hk]; [done|].
      intros ?. apply (Hfree k Hk). by right.
Qed.

Lemma assign_ports_internal existing occupied l :
  assign_ports true existing occupied l
  = Ok ((λ p, with_service_port (container_port p) p) <$> l).
Proof. induction l as [|p l IH]; simpl; [done|]. by rewrite IH. Qed.

(** A free port exists as long as the range is not used up. *)
Lemma find_free_port occupied p :
  (length occupied < length service_port_range)%nat →
  is_Some (List.find (free_port occupied p) service_port_range).
Proof.
  intros Hlen. destruct (List.find _ _) eqn:E; [eauto|]. exfalso.
  assert (Hsub : (pair p <$> service_port_range) ⊆+ occupied).
  { apply NoDup_submseteq.
    - apply NoDup_fmap_2; [by intros ?? [= ->]|]. apply NoDup_seqZ.
    - intros k (v & -> & Hv)%list_elem_of_fmap. apply list_elem_of_In in Hv.
      pose proof (List.find_none _ _ E v Hv) as Hnone. unfold free_port in Hnone.
      by apply negb_false_iff, bool_decide_true_iff in Hnone. }
  apply submseteq_length in Hsub. rewrite length_fmap in Hsub. lia.
Qed.

Lemma assign_ports_total existing occupied l :
  (length occupied + length l ≤ length service_port_range)%nat →
  ∃ l', assign_ports false existing occupied l = Ok l'.
Proof.
  revert occupied. induction l as [|p l IH]; intros occupied Hlen; [by exists []|].
  rewrite length_cons in Hlen.
  assert (∃ v, assign_port existing occupied p = Some v) as [v Hv].
  { unfold assign_port. destruct (preserved_port _ _ _); [eauto|].
    apply find_free_port. lia. }
  simpl. rewrite Hv. simpl.
  destruct (IH ((protocol p, v) :: occupied)) as [l' ->]; [rewrite length_cons; lia|].
  simpl. eauto.
Qed.

(** ** Resubmitting a service *)

Definition existing_of (l : list FlashPort) : ExistingPorts :=
  (λ p, (protocol p, port_name p, service_port p)) <$> l.

Lemma existing_port_of l p :
  NoDup (port_name <$> l) → p ∈ l →
  existing_port (existing_of l) (protocol p) (port_name p) = Some (service_port p).
Proof.
  unfold existing_port, existing_of. intros Hnd Hin.
  induction l as [|q l IH]; [by apply not_elem_of_nil in Hin|].
  rewrite fmap_cons in Hnd. apply NoDup_cons in Hnd as [Hq Hnd].
  rewrite fmap_cons. apply elem_of_cons in Hin as [<- | Hin].
  - rewrite filter_cons_True by done.
    rewrite filter_none; [done|].
    intros [[pr nm] sp] (r & [= -> -> ->] & Hr)%list_elem_of_fmap.
    simpl. intros [= _ E]. apply Hq. rewrite <- E. by apply list_elem_of_fmap_2.
  - rewrite filter_cons_False; [by apply IH|]. simpl. intros [= _ E]. apply Hq. rewrite E.
    by apply list_elem_of_fmap_2.
Qed.

Lemma assign_ports_preserved l0 l occupied :
  NoDup (port_name <$> l0) → (∀ p, p ∈ l → p ∈ l0) → NoDup (port_key <$> l) →
  Forall (λ p, MIN_FLASH_SERVICE_PORT ≤ service_port p ≤ MAX_FLASH_SERVICE_PORT) l →
  (∀ p, p ∈ l → port_key p ∉ occupied) →
  assign_ports false (existing_of l0) occupied l = Ok l.
Proof.
  intros Hnames. revert occupied. induction l as [|p l IH]; intros occupied Hsub Hnd Hr Hocc; [done|].
  rewrite fmap_cons in Hnd. apply NoDup_cons in Hnd as [Hp Hnd]. apply Forall_cons in Hr as [Hrp Hr].
  assert (Hpres : preserved_port (existing_of l0) occupied p = Some (service_port p)).
  { apply preserved_port_some. split_and!; [|lia|lia|].
    - apply existing_port_of; [done|]. apply Hsub. by left.
    - apply Hocc. by left. }
  simpl. unfold assign_port. rewrite Hpres. simpl. rewrite IH; try done.
  - simpl. by destruct p.
  - intros q Hq. apply Hsub. by right.
  - intros q Hq. rewrite elem_of_cons. intros [E | Hin].
    + apply Hp. fold (port_key p) in E. rewrite <- E. by apply list_elem_of_fmap_2.
    + apply (Hocc q); [by right | done].
Qed.

(** ** Totals of an account *)

Lemma u64_add_mod a b : u64_add a (b mod 2 ^ 64) = (a + b) mod 2 ^ 64.
Proof. unfold u64_add. by rewrite Z.add_mod_idemp_r. Qed.

Section Wrapping.
Context {U S : Type} (add : U → S → U) (counter : U → Z) (f : S → Z).
Hypothesis counter_add : ∀ u s, counter (add u s) = (counter u + f s) mod 2 ^ 64.

Lemma wrapping_fold u l :
  0 ≤ counter u < 2 ^ 64 → counter (foldl add u l) = (counter u + total f l) mod 2 ^ 64.
Proof.
  revert u. induction l as [|s l IH]; intros u Hu; simpl.
  - rewrite Z.add_0_r, Z.mod_small by done. done.
  - rewrite IH by (rewrite counter_add; apply Z.mod_pos_bound; lia).
    rewrite counter_add, Z.add_mod_idemp_l by lia. f_equal. lia.
Qed.

End Wrapping.

(** The counters of [FlashTotals], each with what a service adds to it and its
    limit, in the order of [flash_totals]. *)
Definition totals_counters : list (FlashTotals → Z) :=
  [organization_services; organization_replicas; organization_cpu_millis;
   organization_memory_mib; organization_ephemeral_storage_gib].

Lemma totals_counter_add i counter f limit t s :
  totals_counters !! i = Some counter → flash_totals !! i = Some (f, limit) →
  counter (add_totals t 1 s) = (counter t + f s) mod 2 ^ 64.
Proof.
  intros Hc Hf. do 5 (destruct i as [|i]; [simplify_eq/=; unfold u64_mul; by rewrite ?u64_add_mod|]).
  done.
Qed.

(** With no services counted, the final addition of the request. *)
Lemma totals_counter_final i counter f limit t s :
  totals_counters !! i = Some counter → flash_totals !! i = Some (f, limit) →
  0 ≤ counter t < 2 ^ 64 →
  counter (add_totals t 0 s) = (counter t + (if (i =? 0)%nat then 0 else f s)) mod 2 ^ 64.
Proof.
  intros Hc Hf Ht.
  do 5 (destruct i as [|i]; [simplify_eq/=; unfold u64_mul; by rewrite ?u64_add_mod|]).
  done.
Qed.

Lemma check_flash_totals_ok l t i counter f limit :
  check_flash_totals l t = Ok () → totals_counters !! i = Some counter →
  flash_totals !! i = Some (f, limit) → counter t ≤ limit l.
Proof.
  unfold check_flash_totals. guards. intros Hok Hc Hf.
  do 5 (destruct i as [|i]; [simplify_eq/=; lia|]). done.
Qed.

Section FlashFold.
Context `{Serde FlashSpec}.

Definition own_row (org : OrganizationId) (excluded : option ServiceInstanceId)
    (row : Uuid * ServiceRow) : Prop :=
  is_excluded excluded (fst row) = false ∧ in_org org (snd row) = true.

#[export] Instance own_row_dec org excluded row : Decision (own_row org excluded row).
Proof. unfold own_row. apply _. Defined.

Lemma flash_fold_occupied org excluded rows t t' :
  fold_result (flash_row_totals org excluded) t rows = Ok t' →
  (∀ k, k ∈ occupied_ports t → k ∈ occupied_ports t') ∧
  ∀ id r, (id, r) ∈ rows → is_excluded excluded id = false →
    ∃ s, from_value (spec r) = Some s ∧
      (uses_node_ports s = true → ∀ p, p ∈ ports s → port_key p ∈ occupied_ports t').
Proof.
  revert t. induction rows as [|[id0 r0] rows IH]; intros t; simpl.
  - intros [= <-]. split; [done|]. intros id r Hin. by apply not_elem_of_nil in Hin.
  - rewrite bind_ok. intros (t1 & Ht1 & Hrest). apply IH in Hrest as [Hmono Hrows].
    unfold flash_row_totals in Ht1. simpl in Ht1. destruct (is_excluded excluded id0) eqn:Ex.
    + injection Ht1 as <-. split; [done|]. intros id r [[= -> ->] | Hin]%elem_of_cons Hne;
        [congruence | eauto].
    + rewrite bind_ok in Ht1. destruct Ht1 as (s0 & Hs0%ok_or_ok & [= <-]).
      assert (Hocc : ∀ k, k ∈ occupied_ports
          (if uses_node_ports s0 then add_occupied (port_key <$> ports s0) t else t)
          → k ∈ occupied_ports t').
      { intros k Hk. apply Hmono. by destruct (in_org org r0). }
      split.
      * intros k Hk. apply Hocc. destruct (uses_node_ports s0); [|done]. simpl.
        apply elem_of_app. by right.
      * intros id r [[= -> ->] | Hin]%elem_of_cons Hne; [|eauto]. exists s0. split; [done|].
        intros Hnode p Hp. apply Hocc. rewrite Hnode. simpl. apply elem_of_app. left.
        by apply list_elem_of_fmap_2.
Qed.

Lemma flash_fold_totals org excluded rows t t' :
  fold_result (flash_row_totals org excluded) t rows = Ok t' →
  ∃ mine, Forall2 decodes (spec ∘ snd <$> filter (own_row org excluded) rows) mine ∧
    ∀ i counter f limit, totals_counters !! i = Some counter → flash_totals !! i = Some (f, limit) →
      0 ≤ counter t < 2 ^ 64 → counter t' = (counter t + total f mine) mod 2 ^ 64.
Proof.
  revert t. induction rows as [|[id0 r0] rows IH]; intros t; simpl.
  - intros [= <-]. exists []. split; [constructor|]. intros. simpl.
    by rewrite Z.add_0_r, Z.mod_small.
  - rewrite bind_ok. intros (t1 & Ht1 & Hrest). apply IH in Hrest as (mine & Hf2 & Hc).
    assert (Hocc : ∀ keys (t : FlashTotals) i counter, totals_counters !! i = Some counter →
      counter (add_occupied keys t) = counter t).
    { intros keys u i counter Hi. do 5 (destruct i as [|i]; [by simplify_eq/=|]). done. }
    unfold flash_row_totals in Ht1. simpl in Ht1. destruct (is_excluded excluded id0) eqn:Ex.
    + injection Ht1 as <-. exists mine. split; [|done].
      rewrite filter_cons_False; [done|]. unfold own_row. simpl. rewrite Ex. naive_solver.
    + rewrite bind_ok in Ht1. destruct Ht1 as (s0 & Hs0%ok_or_ok & [= Ht1]).
      remember (if uses_node_ports s0 then _ else t) as t0 eqn:Et0 in Ht1.
      assert (Hsame : ∀ i counter, totals_counters !! i = Some counter → counter t0 = counter t).
      { intros i counter Hi. rewrite Et0. destruct (uses_node_ports s0); [|done].
        by apply (Hocc _ _ i). }
      destruct (in_org org r0) eqn:Eo.
      * exists (s0 :: mine). split.
        -- rewrite filter_cons_True by done. simpl. by constructor.
        -- intros i counter f limit Hi Hl Ht.
           assert (E1 : counter t1 = (counter t + f s0) mod 2 ^ 64).
           { rewrite <- Ht1. rewrite (totals_counter_add i counter f limit) by done.
             by rewrite (Hsame i). }
           rewrite (Hc i counter f limit Hi Hl) by (rewrite E1; apply Z.mod_pos_bound; lia).
           rewrite E1, Z.add_mod_idemp_l by lia. simpl. f_equal. lia.
      * exists mine. split.
        -- rewrite filter_cons_False; [done|]. unfold own_row. simpl. rewrite Eo. naive_solver.
        -- intros i counter f limit Hi Hl Ht. rewrite (Hc i counter f limit Hi Hl);
             rewrite <- Ht1, (Hsame i) by done; done.
Qed.

End FlashFold.

(** ** Preparing a Flash service *)

Section PrepareFlash.
Context `{Serde FlashSpec, IpNetLib, UrlLib, JsonText}.

Definition flash_rows (db : Db) : list (Uuid * ServiceRow) :=
  select_services (λ _ r, has_provider "flash" r && not_deleting r) db.

(** The run of a successful preparation. *)
Record prepared (org : OrganizationId) (excluded : option ServiceInstanceId)
    (existing_spec : option Value) (value : Value) (l : FlashQuotaLimits.t) (db : Db) (v : Value)
    (requested : FlashSpec) (assigned : list FlashPort) (t : FlashTotals)
    (existing : ExistingPorts) : Prop := {
  prepared_request : from_value value = Some requested;
  prepared_replicas : reserved_replicas requested ≤ FlashQuotaLimits.max_replicas_per_service l;
  prepared_cpu : cpu_millis requested ≤ FlashQuotaLimits.max_cpu_millis_per_vm l;
  prepared_memory : memory_mib requested ≤ FlashQuotaLimits.max_memory_mib_per_vm l;
  prepared_disk : ephemeral_storage_gib requested ≤ FlashQuotaLimits.max_disk_gib_per_vm l;
  prepared_fold : fold_result (flash_row_totals org excluded) totals_start (flash_rows db) = Ok t;
  prepared_existing : existing_ports existing_spec = Ok existing;
  prepared_ports :
    assign_ports (vpc_internal requested) existing (occupied_ports t) (ports requested) = Ok assigned;
  prepared_totals : check_flash_totals l (add_totals t 0 (with_ports assigned requested)) = Ok ();
  prepared_valid : FlashSpec_validate (with_ports assigned requested) = Ok ();
  prepared_value : v = to_value (with_ports assigned requested);
}.

Lemma prepare_flash_spec_prepared org principal excluded existing_spec value quota db v :
  prepare_flash_spec org principal excluded existing_spec value quota db = Ok v →
  ∃ requested assigned t existing,
    prepared org excluded existing_spec value (ResourceQuotaLimits.flash quota) db v
      requested assigned t existing.
Proof.
  unfold prepare_flash_spec. rewrite bind_ok. intros (requested & Hreq%ok_or_ok & Hok).
  rewrite !seq_ok, bind_ok in Hok. destruct Hok as (_ & _ & Hrep & Hvm & t & Ht & Hok).
  rewrite bind_ok in Hok. destruct Hok as (existing & Hex & Hok).
  rewrite bind_ok in Hok. destruct Hok as (assigned & Has & Hok).
  rewrite !seq_ok in Hok. destruct Hok as (Htot & Hval & [= <-]).
  autorewrite with guards in *. exists requested, assigned, t, existing.
  constructor; try done; lia.
Qed.

(** Every Flash specification the store writes is complete and free of
    port conflicts: [prepare_flash_spec] returns the requested specification
    with nothing changed but the service ports; the result passes full
    validation (so it satisfies [flash_wf]); and unless the service is
    reached only inside its VPC, none of its (protocol, service port) pairs
    is used by any other Flash service of any account that occupies node
    ports and is not being deleted. *)
Lemma prepare_flash_spec_ports org principal excluded existing_spec value quota db v :
  prepare_flash_spec org principal excluded existing_spec value quota db = Ok v →
  ∃ requested assigned, let s := with_ports assigned requested in
    from_value value = Some requested ∧ v = to_value s ∧
    FlashSpec_validate s = Ok () ∧
    Forall2 same_port (ports requested) assigned ∧
    (vpc_internal s = false →
     ∀ id r, service_instances db !! id = Some r → has_provider "flash" r = true →
       not_deleting r = true → excluded ≠ Some id →
       ∃ stored, from_value (spec r) = Some stored ∧
         (uses_node_ports stored = true →
          ∀ p q, p ∈ assigned → q ∈ ports stored → port_key p ≠ port_key q)).
Proof.
  intros (requested & assigned & t & existing & Hp)%prepare_flash_spec_prepared.
  exists requested, assigned. simpl. split_and!; try apply Hp.
  - pose proof (prepared_ports _ _ _ _ _ _ _ _ _ _ _ Hp) as Has.
    destruct (vpc_internal requested).
    + rewrite assign_ports_internal in Has. injection Has as <-. apply Forall2_fmap_r.
      by apply Forall_Forall2_diag, Forall_true.
    + by apply assign_ports_node in Has as (? & _).
  - intros Hint id r Hr Hprov Hdel Hne.
    pose proof (prepared_ports _ _ _ _ _ _ _ _ _ _ _ Hp) as Has.
    change (vpc_internal requested = false) in Hint. rewrite Hint in Has.
    apply assign_ports_node in Has as (_ & _ & _ & Hfree).
    destruct (flash_fold_occupied _ _ _ _ _ (prepared_fold _ _ _ _ _ _ _ _ _ _ _ Hp)) as [_ Hocc].
    destruct (Hocc id r) as (stored & Hdec & Hports).
    + apply elem_of_select. by rewrite Hprov, Hdel.
    + by apply bool_decide_false_iff.
    + exists stored. split; [done|]. intros Hnode p q Hp' Hq E.
      apply (Hfree (port_key p)); [by apply list_elem_of_fmap_2|]. rewrite E. by apply Hports.
Qed.

(** The bounds every stored specification satisfies. *)
Definition flash_bounded (s : FlashSpec) : Prop :=
  0 ≤ reserved_replicas s ≤ MAX_FLASH_REPLICAS ∧ 0 ≤ cpu_millis s ≤ MAX_FLASH_CPU_MILLIS ∧
  0 ≤ memory_mib s ≤ MAX_FLASH_MEMORY_MIB ∧
  0 ≤ ephemeral_storage_gib s ≤ MAX_FLASH_EPHEMERAL_STORAGE_GIB.

Lemma total_bounded {S} (f : S → Z) l b :
  Forall (λ s, 0 ≤ f s ≤ b) l → 0 ≤ total f l ≤ b * Z.of_nat (length l).
Proof. induction 1 as [|s l Hs _ IH]; simpl; [lia|]. nia. Qed.

Lemma flash_bounded_measure s i f limit :
  flash_bounded s → flash_totals !! i = Some (f, limit) → 0 ≤ f s ≤ 10 ^ 13.
Proof.
  unfold flash_bounded. unfold_limits. intros Hs Hi.
  do 5 (destruct i as [|i]; [simplify_eq/=; nia|]). done.
Qed.

(** The specifications of an account that stay next to the requested one. *)
Definition account_specs (org : OrganizationId) (excluded : option ServiceInstanceId) (db : Db)
    : list Value :=
  spec ∘ snd <$> filter (own_row org excluded) (flash_rows db).

Lemma prepared_bounded org excluded ex value l db v requested assigned t existing :
  flash_quota_wf l → prepared org excluded ex value l db v requested assigned t existing →
  flash_bounded (with_ports assigned requested).
Proof.
  intros Hwf Hp. pose proof (prepared_valid _ _ _ _ _ _ _ _ _ _ _ Hp) as Hval.
  unfold FlashSpec_validate, FlashSpec_validate_inner in Hval. rewrite !seq_ok in Hval.
  destruct Hval as (_ & Hsc & Hco & Hst & _).
  pose proof (validate_flash_scaling_wf _ Hsc Hco) as [Hr Hrr _ _ _].
  unfold validate_flash_compute in Hco. unfold validate_flash_storage in Hst.
  guards_in Hco. guards_in Hst. destruct Hp. unfold flash_bounded, flash_quota_wf in *.
  unfold reserved_replicas in *. simpl in *. unfold_limits. lia.
Qed.

(** The account's quota holds exactly, without overflow: if the stored
    Flash services of the account are within the bounds every preparation
    enforces and there are at most a million of them, then after a successful
    preparation each of the five totals (services, reserved replicas, CPU,
    memory, disk), taken over those services and the new specification, is
    within the account's quota even though the program adds them up with
    wrapping 64-bit arithmetic; and the new specification is within the
    bounds again. *)
Lemma prepare_flash_spec_within_quota org principal excluded existing_spec value quota db v :
  ResourceQuotaLimits_validate quota = Ok () →
  prepare_flash_spec org principal excluded existing_spec value quota db = Ok v →
  (∀ mine, Forall2 decodes (account_specs org excluded db) mine →
     Forall flash_bounded mine ∧ Z.of_nat (length mine) ≤ 1000000) →
  ∃ new mine, v = to_value new ∧ Forall2 decodes (account_specs org excluded db) mine ∧
    flash_bounded new ∧
    ∀ f limit, (f, limit) ∈ flash_totals →
      total f (new :: mine) ≤ limit (ResourceQuotaLimits.flash quota).
Proof.
  intros (_ & _ & Hwf & _)%ResourceQuotaLimits_validate_ok.
  intros (requested & assigned & t & existing & Hp)%prepare_flash_spec_prepared Hbound.
  pose proof (prepared_bounded _ _ _ _ _ _ _ _ _ _ _ Hwf Hp) as Hnew.
  destruct (flash_fold_totals _ _ _ _ _ (prepared_fold _ _ _ _ _ _ _ _ _ _ _ Hp))
    as (mine & Hmine & Hc).
  exists (with_ports assigned requested), mine.
  split_and!; [apply Hp | exact Hmine | exact Hnew |].
  destruct (Hbound mine Hmine) as [Hb Hlen]. intros f limit Hin.
  apply list_elem_of_lookup in Hin as [i Hi].
  assert (∃ counter, totals_counters !! i = Some counter) as [counter Hcnt].
  { apply lookup_lt_is_Some. change (length totals_counters) with (length flash_totals).
    by eapply lookup_lt_Some. }
  pose proof (total_bounded f mine (10 ^ 13)) as Htot.
  assert (0 ≤ total f mine ≤ 10 ^ 13 * Z.of_nat (length mine)).
  { apply Htot. eapply Forall_impl; [exact Hb|]. intros s Hs. by eapply flash_bounded_measure. }
  pose proof (flash_bounded_measure _ i f limit Hnew Hi) as Hf.
  pose proof (check_flash_totals_ok _ _ i counter f limit
    (prepared_totals _ _ _ _ _ _ _ _ _ _ _ Hp) Hcnt Hi) as Hle.
  assert (Hstart : counter totals_start = if (i =? 0)%nat then 1 else 0).
  { do 5 (destruct i as [|i]; [by simplify_eq/=|]). done. }
  assert (Hct : counter t = counter totals_start + total f mine).
  { rewrite (Hc i counter f limit Hcnt Hi) by (rewrite Hstart; destruct (i =? 0)%nat; lia).
    rewrite Hstart. apply Z.mod_small. destruct (i =? 0)%nat; lia. }
  rewrite (totals_counter_final i counter f limit) in Hle; try done;
    [|rewrite Hct, Hstart; destruct (i =? 0)%nat; lia].
  rewrite Hct, Hstart in Hle. simpl.
  assert (Hone : (i =? 0)%nat = true → f (with_ports assigned requested) = 1)
    by (intros ->%Nat.eqb_eq; by simplify_eq/=).
  destruct (i =? 0)%nat; rewrite Z.mod_small in Hle; lia.
Qed.

Lemma flash_fold_occupied_inv org excluded rows t t' k :
  fold_result (flash_row_totals org excluded) t rows = Ok t' → k ∈ occupied_ports t' →
  k ∈ occupied_ports t ∨
  ∃ id r s p, (id, r) ∈ rows ∧ is_excluded excluded id = false ∧ from_value (spec r) = Some s ∧
    uses_node_ports s = true ∧ p ∈ ports s ∧ k = port_key p.
Proof.
  revert t. induction rows as [|[id0 r0] rows IH]; intros t; simpl.
  - intros [= <-]. auto.
  - rewrite bind_ok. intros (t1 & Ht1 & Hrest) Hk.
    destruct (IH _ Hrest Hk) as [Hk1 | (id & r & s & p & Hin & ?)];
      [|right; exists id, r, s, p; split; [by right | done]].
    unfold flash_row_totals in Ht1. simpl in Ht1. destruct (is_excluded excluded id0) eqn:Ex.
    + injection Ht1 as <-. auto.
    + rewrite bind_ok in Ht1. destruct Ht1 as (s0 & Hs0%ok_or_ok & [= <-]).
      destruct (uses_node_ports s0) eqn:En; [|left; by destruct (in_org org r0)].
      assert (Hk2 : k ∈ (port_key <$> ports s0) ++ occupied_ports t)
        by (by destruct (in_org org r0)).
      apply elem_of_app in Hk2 as [(p & -> & Hp)%list_elem_of_fmap | ?]; [|by left].
      right. exists id0, r0, s0, p. split_and!; try done. by left.
Qed.

Lemma with_own_ports s : with_ports (ports s) s = s.
Proof. by destruct s. Qed.

(** Updating a service without touching its ports keeps its addresses:
    when the stored specification of service [id] has the ports the request
    names, within the node port range and not used by another service, the
    prepared specification is the requested one, every service port included. *)
Lemma resubmitted_service_keeps_ports org principal id stored value old new quota db v :
  prepare_flash_spec org principal (Some id) (Some stored) value quota db = Ok v →
  from_value stored = Some old → from_value value = Some new → ports new = ports old →
  vpc_internal new = false → NoDup (port_name <$> ports old) → NoDup (port_key <$> ports old) →
  Forall (λ p, MIN_FLASH_SERVICE_PORT ≤ service_port p ≤ MAX_FLASH_SERVICE_PORT) (ports old) →
  (∀ id' r s p q, service_instances db !! id' = Some r → id' ≠ id → from_value (spec r) = Some s →
     uses_node_ports s = true → p ∈ ports s → q ∈ ports old → port_key p ≠ port_key q) →
  v = to_value new.
Proof.
  intros (requested & assigned & t & existing & Hp)%prepare_flash_spec_prepared
    Hold Hnew Hports Hint Hnames Hkeys Hrange Hfree.
  destruct Hp as [Hreq _ _ _ _ Hfold Hex Has _ _ ->].
  simplify_eq. unfold existing_ports in Hex. rewrite Hold in Hex. simpl in Hex.
  injection Hex as <-. fold (existing_of (ports old)) in Has. rewrite Hint, Hports in Has.
  rewrite assign_ports_preserved in Has; try done.
  - injection Has as <-. by rewrite <- Hports, with_own_ports.
  - intros q Hq Hocc.
    destruct (flash_fold_occupied_inv _ _ _ _ _ _ Hfold Hocc)
      as [Hnil | (id' & r & s & p & Hin & Hne & Hdec & Hnode & Hps & E)];
      [by apply not_elem_of_nil in Hnil|].
    apply elem_of_select in Hin as [Hr _]. apply bool_decide_false_iff in Hne.
    apply (Hfree id' r s p q); try done. by intros ->.
Qed.

End PrepareFlash.

(** A new port listed before an existing one takes over its service port, and
    the existing port moves: the ports of the service itself are not reserved
    while its new ports are assigned. *)
Example new_port_takes_existing_service_port :
  let old := Build_FlashPort "http" Tcp 80 30000 in
  let new := Build_FlashPort "admin" Tcp 81 0 in
  assign_ports false (existing_of [old]) [] [new; old]
  = Ok [with_service_port 30000 new; with_service_port 30001 old].
Proof. vm_compute. reflexivity. Qed.

(** ** Disks *)

Lemma u64_mul_gib g : is_u32 g → u64_mul g GIB = g * GIB.
Proof.
  unfold is_u32, u32_max, u64_mul, GIB. intros. apply Z.mod_small. lia.
Qed.

(** An accepted update never shrinks a persistent disk whose size is
    known: the requested size is at least the size in the stored
    specification and at least what the provider last reported; and when the
    image stays the same and its size is known, image, container filesystem
    and persistent disk fit into the requested disk. *)
Lemma disk_update_never_shrinks existing status requested gib :
  validate_flash_disk_update existing status requested = Ok () →
  gib_field "persistent_storage_gib" requested = Some gib → is_u32 gib →
  (∀ old, gib_field "persistent_storage_gib" existing = Some old → is_u32 old → old ≤ gib) ∧
  (∀ bytes, gib_field "persistent_storage_bytes" (reported_status status) = Some bytes →
     bytes ≤ gib * GIB) ∧
  (∀ image rootfs total, same_field "image" existing requested = true →
     gib_field "image_size_bytes" (reported_status status) = Some image →
     gib_field "rootfs_storage_gib" requested = Some rootfs → is_u32 rootfs →
     gib_field "ephemeral_storage_gib" requested = Some total → is_u32 total →
     0 ≤ image < 2 ^ 62 → image + rootfs * GIB + gib * GIB ≤ total * GIB).
Proof.
  unfold validate_flash_disk_update. guards. intros [Hshrink Hfit] Hgib Hu.
  rewrite Hgib in Hshrink, Hfit. simpl in Hshrink, Hfit. rewrite Z.ltb_ge, u64_mul_gib in Hshrink by done.
  unfold retained_bytes in Hshrink. split_and!.
  - intros old Hold Hou. rewrite Hold in Hshrink. simpl in Hshrink. rewrite u64_mul_gib in Hshrink by done.
    unfold GIB in *. lia.
  - intros bytes Hb. rewrite Hb in Hshrink. simpl in Hshrink. lia.
  - intros image rootfs total Hsame Himg Hroot Hru Htot Htu Hi.
    destruct Hfit as [Hfit | Hfit]; [congruence|]. unfold disk_too_small in Hfit.
    rewrite Himg, Hroot, Htot in Hfit. simpl in Hfit. rewrite Z.ltb_ge in Hfit.
    rewrite !u64_mul_gib in Hfit by done. unfold u64_add, GIB, is_u32, u32_max in *.
    rewrite (Z.mod_small (image + _)) in Hfit by lia. rewrite Z.mod_small in Hfit by lia. lia.
Qed.

(** The size is forgotten when an update omits it before the provider has
    reported it: a disk of 20 GiB, then no size, then 10 GiB is accepted. *)
Example disk_size_forgotten :
  let size n := Object [("persistent_storage_gib", Num (Int n))] in
  validate_flash_disk_update (size 20) (Object []) (Object []) = Ok () ∧
  validate_flash_disk_update (Object []) (Object []) (size 10) = Ok () ∧
  is_ok (validate_flash_disk_update (size 20) (Object []) (size 10)) = false.
Proof. vm_compute. auto. Qed.

(** ** Concrete runs *)

(** A new service next to the stored one, in the account of [witness_db]. *)
Definition witness_new_flash : FlashSpec := {|
  region := "tokyo-1";
  image := "registry.example/api:2";
  deployment := None;
  task_role := None;
  replicas := 2;
  stopped := false;
  autoscaling := None;
  cpu_millis := 500;
  memory_mib := 512;
  gpu_type := None;
  ephemeral_storage_gib := 5;
  rootfs_storage_gib := None;
  persistent_storage_gib := None;
  restore_from_backup_id := None;
  ports := [Build_FlashPort "grpc" Tcp 9000 0; Build_FlashPort "dns" Udp 53 0];
  exposure := {| exposure_type := Public; traffic_mode := Direct; endpoint_mode := Ip;
                 allowed_source_cidrs := ["203.0.113.0/24"]; denied_source_cidrs := [];
                 authentication := None |};
  egress := FlashEgress_default;
  network := None;
  env := [];
  secret_env := [];
  secret_files := [];
  command := [];
  args := [];
  metadata := [];
|}.

Definition prepare_serde : Serde FlashSpec :=
  sample_serde [("web", witness_flash); ("new", witness_new_flash)].

Lemma witness_flash_bounded : flash_bounded witness_flash.
Proof. vm_compute. intuition discriminate. Qed.

