(* ===== verification/Services.v ===== *)
(** * The life of a service instance

    The transactions of [heterocloud-store/src/lib.rs] on [service_instances]
    and the transactional outbox: creation, update, start and stop, deletion,
    the reports of the worker, quota changes, and claiming, delivering and
    retrying events. *)
From stdpp Require Import sorting.
From S2P Require Import Prelude Text Json Net Policy Quota Specs Flash Store Usage Prepare.

(** ** Constraints of the [service_instances] table *)

Definition valid_provider_column (p : string) : bool :=
  match bytes p with
  | b :: l => is_ascii_lowercase b && in_range 1 62 (Z.of_nat (length l))
              && forallb lowercase_digit_hyphen l
  | [] => false
  end.

(** The CHECK constraints on a row and UNIQUE (project_id, provider, name). *)
Definition row_allowed (id : Uuid) (r : ServiceRow) (db : Db) : bool :=
  valid_provider_column (provider r)
  && in_range 1 120 (Z.of_nat (length (chars (name r))))
  && (0 <? generation r)
  && negb (exists_service (λ id' r', negb (bool_decide (id' = id))
            && bool_decide (project_id r' = project_id r)
            && String.eqb (provider r') (provider r) && String.eqb (name r') (name r)) db).

(** ** Revisions of Flash services

    The trigger [flash_revision_changed], which runs after a row is inserted or
    its generation or state is set.  A revision is verified ([healthy]) when the
    application was seen running: ready at this generation, with a replica, and
    not stopped. *)
Definition revision_healthy `{SqlCast} (r : ServiceRow) : result StoreError bool :=
  let runtime := default (status r) (get "status" (status r)) in
  if negb (bool_decide (state r = Ready)) then Ok false
  else
    observed ← cast_text to_bigint (get "observed_generation" runtime);
    if negb (bool_decide (observed = Some (generation r))) then Ok false
    else
      replicas ← cast_text to_integer (get "ready_replicas" runtime);
      if negb (0 <? default 0 replicas) then Ok false
      else
        stop ← cast_text to_boolean (get "stopped" (spec r));
        Ok (negb (default false stop)).

Definition captured_revision (healthy : bool) (t : Z) (r : ServiceRow) (old : option RevisionRow) : RevisionRow :=
  let phase := if healthy then "ready" else if bool_decide (state r = Error) then "failed" else "pending" in
  let ready := if healthy then Some t else None in
  match old with
  | None => Build_RevisionRow (organization_id r) (project_id r) None (name r) (spec r) phase t ready None
  | Some o =>
      Build_RevisionRow (revision_organization o) (revision_project o) (revision_principal o)
        (revision_name o) (revision_spec o) (if is_some (revision_ready_at o) then "ready" else phase)
        (revision_created_at o) (match revision_ready_at o with Some u => Some u | None => ready end)
        (activation_started_at o)
  end.

Definition capture_flash_revision `{SqlCast} (id : Uuid) (r : ServiceRow) : tx () :=
  if has_provider "flash" r then
    healthy ← lift (revision_healthy r);
    statement (λ db, set_flash (set_revisions (<[(id, generation r) :=
      captured_revision healthy (now db) r (flash_service_revisions (flash db) !! (id, generation r))]>
        (flash_service_revisions (flash db))) (flash db)) db)
  else mret ().

(** ** Writing rows *)

(** The row and what the trigger does. *)
Definition put_service `{SqlCast} (id : Uuid) (r : ServiceRow) : tx () :=
  statement (λ db, set_services (<[id := r]> (service_instances db)) db) ;;
  capture_flash_revision id r.

(** INSERT or UPDATE of one row; a violated constraint is a database error. *)
Definition write_service `{SqlCast} (id : Uuid) (r : ServiceRow) : tx () :=
  allowed ← query (row_allowed id r);
  tx_fail_if (negb allowed) Sql ;;
  put_service id r.

Definition find_service (id : Uuid) (p : ServiceRow → bool) : tx (option ServiceRow) :=
  query (λ db, r ← service_instances db !! id; if p r then Some r else None).

Definition optional {A} (e : StoreError) (m : tx (option A)) : tx A :=
  o ← m; lift (ok_or e o).

(** ** Field updates of a row *)

Definition set_desired (new_name : string) (new_project : ProjectId) (new_spec : Value) (g : Z)
    (r : ServiceRow) : ServiceRow :=
  Build_ServiceRow (organization_id r) new_project (provider r) new_name g Updating new_spec
    (Object []) (quota_user_id r).
Definition set_deleting (g : Z) (r : ServiceRow) : ServiceRow :=
  Build_ServiceRow (organization_id r) (project_id r) (provider r) (name r) g Deleting (spec r)
    (Object []) (quota_user_id r).
Definition set_reported (s : ServiceState) (v : Value) (r : ServiceRow) : ServiceRow :=
  Build_ServiceRow (organization_id r) (project_id r) (provider r) (name r) (generation r) s
    (spec r) v (quota_user_id r).

(** What a service without owner is charged to, in its row and in the table of
    owners ([UPDATE service_quota_owners SET user_id = .. WHERE .. AND user_id IS NULL]). *)
Definition set_quota_user (user : UserId) (r : ServiceRow) : ServiceRow :=
  Build_ServiceRow (organization_id r) (project_id r) (provider r) (name r) (generation r) (state r) (spec r)
    (status r) (Some user).
Definition assign_owner (org : OrganizationId) (user : UserId) (o : OrganizationId * option UserId)
    : OrganizationId * option UserId :=
  if bool_decide (o = (org, None)) then (org, Some user) else o.

Definition event_body (id : ServiceInstanceId) (org : OrganizationId) (project : ProjectId)
    (principal : PrincipalId) (prov : string) (g : Z) : ReconcilePayload :=
  Build_ReconcilePayload id org project principal prov g.

Section Services.
Context `{LimitsDecoder, Serde FlowSpec, Serde FlashSpec, Serde SyouyuSpec, Serde VpcSpec}.
Context `{IpNetLib, UrlLib, JsonText, UuidText, SqlCast}.

(** ** Auxiliary statements *)

Definition replace_flash_gpu_service_request (id : ServiceInstanceId) (org : OrganizationId)
    (principal : PrincipalId) (value : Value) : tx () :=
  requested ← lift (ok_or JsonError (from_value value));
  match gpu_type requested with
  | None => statement (λ db, set_gpu_requests (delete id (flash_gpu_service_requests db)) db)
  | Some gpu =>
      user ← read (principal_user_id org principal);
      statement (λ db, set_gpu_requests
        (<[id := Build_GpuRequestRow gpu (Some principal) user]> (flash_gpu_service_requests db)) db)
  end.

(** [DELETE FROM workload_access_tokens WHERE service_instance_id = $1]. *)
Definition revoke_workload_tokens (id : ServiceInstanceId) : tx () :=
  statement (λ db, set_workload_tokens
    (filter (λ e, token_service (snd e) ≠ id) (workload_access_tokens db)) db).

(** The specification to store, by provider. *)
Definition prepare_spec (org : OrganizationId) (project : ProjectId) (principal : PrincipalId)
    (id : ServiceInstanceId) (existing : option Value) (prov : string) (value : Value)
    (db : Db) : result StoreError Value :=
  let excluded := if is_some existing then Some id else None in
  if String.eqb prov "flow" then
    quota ← resource_quota_in_transaction org db;
    prepare_flow_spec org excluded value quota db
  else if String.eqb prov "flash" then
    quota ← resource_quota_in_transaction org db;
    prepare_flash_spec org principal excluded existing value quota db
  else if String.eqb prov "syouyu" then
    quota ← resource_quota_in_transaction org db;
    prepare_syouyu_spec org excluded value quota db
  else if String.eqb prov "vpc" then
    prepare_vpc_spec org project id value (negb (is_some existing)) db
  else Ok value.

(** The member allocation, for a service that is charged to a member. *)
Definition check_member (org : OrganizationId) (user : option UserId)
    (excluded : option ServiceInstanceId) (prov : string) (value : Value) (allow_reduction : bool)
    (db : Db) : result StoreError () :=
  match user with
  | None => Ok ()
  | Some u =>
      organization_limits ← resource_quota_in_transaction org db;
      validate_member_allocation org u excluded prov value organization_limits allow_reduction db
  end.

(** ** Creation *)

Definition backup_usable (org : OrganizationId) (backup : string) (db : Db) : bool :=
  existsb (λ e, String.eqb (uuid_to_string (fst e)) backup
                && bool_decide (backup_organization_id (snd e) = org)
                && String.eqb (backup_phase (snd e)) "ready" && negb (delete_requested (snd e)))
    (map_to_list (flash_backups (flash db))).

(** The user a new service is charged to, and that it can be charged. *)
Definition charge_to (org : OrganizationId) (principal : PrincipalId) (prov : string)
    (requested_quota_user : option (option UserId)) : tx (option UserId) :=
  p ← optional NotFound (query (λ db, p ← principals db !! principal;
        if bool_decide (principal_organization_id p = org) && enabled p then Some p else None));
  let principal_user := match user_id p with Some u => Some u | None => principal_quota_user_id p end in
  let user := default principal_user requested_quota_user in
  match user with
  | Some u =>
      member ← query (λ db, is_member org u db);
      tx_fail_if (negb member) NotFound
  | None =>
      limited ← query (λ db, existsb (λ e, bool_decide (fst (fst e) = org))
                               (map_to_list (member_resource_quotas db)));
      tx_fail_if (metered prov && limited)
        (RequestRejected "a service account must have an allocation owner before creating resources")
  end ;;
  mret user.

Definition insert_quota_owner (id : ServiceInstanceId) (org : OrganizationId)
    (user : option UserId) : tx () :=
  occupied ← query (λ db, is_some (service_quota_owners db !! id));
  tx_fail_if occupied Sql ;;
  statement (λ db, set_quota_owners (<[id := (org, user)]> (service_quota_owners db)) db).

Definition create_service_instance_with_id_for_user (org : OrganizationId) (project : ProjectId)
    (principal : PrincipalId) (prov new_name : string) (value : Value) (id : ServiceInstanceId)
    (requested_quota_user : option (option UserId)) : tx ServiceInstance :=
  existing ← find_service id (λ _, true);
  match existing with
  | Some r =>
      tx_fail_if (negb (in_org org r) || negb (has_provider prov r)) Conflict ;;
      mret (Build_ServiceInstance id r)
  | None =>
      user ← charge_to org principal prov requested_quota_user;
      unusable ← query (λ db, String.eqb prov "flash"
        && is_some_and (λ b, negb (backup_usable org b db))
             (get "restore_from_backup_id" value ≫= as_str));
      tx_fail_if unusable Conflict ;;
      stored ← read (prepare_spec org project principal id None prov value);
      read (validate_cloud_organization_allocation org None prov stored false) ;;
      read (check_member org user None prov stored false) ;;
      (if String.eqb prov "flash" then read (validate_vpc_attachment org project id stored)
       else mret ()) ;;
      known ← query (λ db, project_in org project db);
      tx_fail_if (negb known) NotFound ;;
      let row := Build_ServiceRow org project prov new_name 1 Provisioning stored (Object []) user in
      write_service id row ;;
      insert_quota_owner id org user ;;
      (if String.eqb prov "flash" then replace_flash_gpu_service_request id org principal stored
       else mret ()) ;;
      insert_outbox "service-instance.reconcile" id (event_body id org project principal prov 1) ;;
      mret (Build_ServiceInstance id row)
  end.

Definition create_service_instance (org : OrganizationId) (project : ProjectId)
    (principal : PrincipalId) (prov new_name : string) (value : Value) : tx ServiceInstance :=
  id ← now_v7;
  create_service_instance_with_id_for_user org project principal prov new_name value id None.

(** ** Update *)

Definition json_true (key : string) (v : Value) : bool :=
  bool_decide ((get key v ≫= as_bool) = Some true).

(** [existing.generation.checked_add(1)]. *)
Definition next_generation (r : ServiceRow) : result StoreError Z :=
  ok_or (Invariant "service generation overflow") (i64_checked_add (generation r) 1).

Definition update_service_instance_checked (org : OrganizationId) (id : ServiceInstanceId)
    (prov : string) (principal : PrincipalId) (requested_project : option ProjectId)
    (new_name : string) (value : Value) (expected_generation : option Z) : tx ServiceInstance :=
  tx_fail_if (is_some requested_project && negb (String.eqb prov "flash"))
    (RequestRejected "project updates are supported for Flash services only") ;;
  existing ← optional NotFound (find_service id (λ r, in_org org r && has_provider prov r));
  tx_fail_if (is_some_and (λ g, negb (g =? generation existing)) expected_generation) Conflict ;;
  tx_fail_if (negb (not_deleting existing)) Conflict ;;
  let project := default (project_id existing) requested_project in
  known ← query (λ db, bool_decide (project = project_id existing)
                       || project_in org project db);
  tx_fail_if (negb known) NotFound ;;
  stored ← read (prepare_spec org (project_id existing) principal id (Some (spec existing)) prov value);
  let starting_flash := String.eqb prov "flash" && json_true "stopped" (spec existing)
                        && negb (json_true "stopped" stored) in
  read (validate_cloud_organization_allocation org (Some id) prov stored (negb starting_flash)) ;;
  read (check_member org (quota_user_id existing) (Some id) prov stored (negb starting_flash)) ;;
  (if String.eqb prov "flash" then
     lift (validate_flash_disk_update (spec existing) (status existing) stored) ;;
     read (validate_vpc_attachment org project id stored)
   else mret ()) ;;
  (if String.eqb prov "flash"
      && (negb (same_field "task_role" (spec existing) stored)
          || negb (bool_decide (project = project_id existing)) || json_true "stopped" stored)
   then revoke_workload_tokens id else mret ()) ;;
  g ← lift (next_generation existing);
  let row := set_desired new_name project stored g existing in
  write_service id row ;;
  (if String.eqb prov "flash" then replace_flash_gpu_service_request id org principal stored
   else mret ()) ;;
  insert_outbox "service-instance.reconcile" id (event_body id org project principal prov g) ;;
  mret (Build_ServiceInstance id row).

(** ** Start and stop *)

Definition set_flash_service_stopped (org : OrganizationId) (id : ServiceInstanceId)
    (principal : PrincipalId) (stop : bool) : tx ServiceInstance :=
  existing ← optional NotFound (find_service id (λ r, in_org org r && has_provider "flash" r));
  tx_fail_if (negb (not_deleting existing)) Conflict ;;
  current ← lift (ok_or JsonError (from_value (spec existing)));
  if eqb (stopped current) stop then mret (Build_ServiceInstance id existing)
  else
    fields ← lift (match spec existing with
                   | Object fields => Ok fields
                   | _ => Err (Invariant "invalid Flash spec")
                   end);
    new_spec ←
      (if stop then mret (Object (field_insert "stopped" (Bool true) fields))
       else
         quota ← read (resource_quota_in_transaction org);
         stored ← read (prepare_flash_spec org principal (Some id) (Some (spec existing))
                          (Object (field_remove "stopped" fields)) quota);
         read (validate_cloud_organization_allocation org (Some id) "flash" stored false) ;;
         read (λ db, match quota_user_id existing with
                     | Some u => validate_member_allocation org u (Some id) "flash" stored quota false db
                     | None => Ok ()
                     end) ;;
         read (validate_vpc_attachment org (project_id existing) id stored) ;;
         mret stored);
    (if stop then revoke_workload_tokens id else mret ()) ;;
    g ← lift (next_generation existing);
    let row := set_desired (name existing) (project_id existing) new_spec g existing in
    write_service id row ;;
    (if stop then mret () else replace_flash_gpu_service_request id org principal new_spec) ;;
    insert_outbox "service-instance.reconcile" id
      (event_body id org (project_id existing) principal "flash" g) ;;
    mret (Build_ServiceInstance id row).

(** ** Deletion *)

Definition begin_delete_service_instance (org : OrganizationId) (id : ServiceInstanceId)
    (prov : string) (principal : PrincipalId) : tx ServiceInstance :=
  in_use ← query (λ db, String.eqb prov "vpc"
             && exists_service (λ _ r, in_org org r && has_provider "flash" r && attached_to id r) db);
  tx_fail_if in_use
    (RequestRejected "VPC is still attached to Flash services; detach or delete them first") ;;
  existing ← optional NotFound (find_service id (λ r, in_org org r && has_provider prov r));
  if negb (not_deleting existing) then mret (Build_ServiceInstance id existing)
  else
    g ← lift (next_generation existing);
    let row := set_deleting g existing in
    write_service id row ;;
    insert_outbox "service-instance.delete" id
      (event_body id org (project_id existing) principal prov g) ;;
    mret (Build_ServiceInstance id row).

End Services.

(** ** Reports of the worker

    Single statements, whose [rows_affected() == 1] is the result. *)

Definition service_instance (id : ServiceInstanceId) : tx (option ServiceInstance) :=
  query (λ db, Build_ServiceInstance id <$> service_instances db !! id).

(** The row a report about a generation applies to. *)
Definition report_row (id : ServiceInstanceId) (prov : string) (g : Z) (db : Db) : option ServiceRow :=
  r ← service_instances db !! id;
  if (generation r =? g) && has_provider prov r then Some r else None.

Definition report_status `{UuidText} (operation_id : Uuid) (provider_status : Value) : Value :=
  Object [("operation_id", Str (uuid_to_string operation_id)); ("status", provider_status)].

(** The statement of the two reports, which differ in the state they set. *)
Definition mark_service_instance `{UuidText, SqlCast} (s : ServiceState) (id : ServiceInstanceId)
    (prov : string) (g : Z) (operation_id : Uuid) (provider_status : Value) : tx bool :=
  found ← query (report_row id prov g);
  match found with
  | Some r => put_service id (set_reported s (report_status operation_id provider_status) r) ;; mret true
  | None => mret false
  end.

Definition mark_service_instance_ready `{UuidText, SqlCast} := mark_service_instance Ready.
Definition mark_service_instance_error `{UuidText, SqlCast} := mark_service_instance Error.

(** ** Observations of Flash services

    A report read from the provider outside of the event delivery, and the
    notifications of a service. *)
Definition as_i64 (v : Value) : option Z :=
  match v with
  | Num (Int z) => if in_range i64_min i64_max z then Some z else None
  | _ => None
  end.

Definition observed_state (provider_status : Value) : ServiceState :=
  let phase := default "provisioning" (get "phase" provider_status ≫= as_str) in
  if String.eqb phase "ready" then Ready
  else if String.eqb phase "error" then Error
  else Updating.

Definition start_activation (t : Z) (r : RevisionRow) : RevisionRow :=
  Build_RevisionRow (revision_organization r) (revision_project r) (revision_principal r) (revision_name r)
    (revision_spec r) (revision_phase r) (revision_created_at r) (revision_ready_at r)
    (match activation_started_at r with Some u => Some u | None => Some t end).

Definition on_flash (f : Db → FlashTables → FlashTables) : tx () :=
  statement (λ db, set_flash (f db (flash db)) db).

Definition set_noticed (seen : Z) (resolved : option Z) (severity message : string) (n : NoticeRow) : NoticeRow :=
  Build_NoticeRow (notice_organization n) (notice_service n) (notice_generation n) (notice_code n) severity
    message (notice_created_at n) seen resolved (acknowledged_at n).

(** [INSERT INTO flash_service_events ... ON CONFLICT (service_instance_id,
    generation, code) DO UPDATE]; [refresh] says whether severity and message are
    replaced. *)
Definition same_notice (id : ServiceInstanceId) (g : Z) (code : string) (n : NoticeRow) : bool :=
  bool_decide (notice_service n = id) && (notice_generation n =? g) && String.eqb (notice_code n) code.

Definition upsert_notice (refresh : bool) (i : ServiceInstance) (code severity message : string) : tx () :=
  let seen := instance_row i in
  id ← now_v7;
  require (λ db, bool_decide (organization_id seen ∈ organizations db)
    && (Z.of_nat (length (chars code)) <=? 80) && bool_decide (severity ∈ ["info"; "warning"; "error"])
    && (Z.of_nat (length (chars message)) <=? 1024)) ;;
  existing ← query (λ db, existsb (λ e, same_notice (instance_id i) (generation seen) code (snd e))
                            (map_to_list (flash_service_events (flash db))));
  if (existing : bool) then
    on_flash (λ db f, set_notices
      ((λ n, if same_notice (instance_id i) (generation seen) code n
             then set_noticed (now db) None (if refresh then severity else notice_severity n)
                    (if refresh then message else notice_message n) n
             else n) <$> flash_service_events f) f)
  else
    require (λ db, negb (is_some (flash_service_events (flash db) !! id))) ;;
    on_flash (λ db f, set_notices
      (<[id := Build_NoticeRow (organization_id seen) (instance_id i) (generation seen) code severity message
                 (now db) (now db) None None]> (flash_service_events f)) f).

(** A diagnostic that is well formed. *)
Definition diagnostic_of (v : Value) : option (string * string * string) :=
  code ← get "code" v ≫= as_str;
  let severity := default "warning" (get "severity" v ≫= as_str) in
  let message := default "Service requires attention." (get "message" v ≫= as_str) in
  if in_range 1 80 (len code) && forallb (λ b, is_ascii_lowercase b || (b =? 95)) (bytes code)
     && bool_decide (severity ∈ ["info"; "warning"; "error"]) && (len message <=? 1024)
  then Some (code, severity, message) else None.

Fixpoint record_diagnostics (i : ServiceInstance) (l : list (string * string * string)) : tx () :=
  match l with
  | [] => mret ()
  | (code, severity, message) :: l => upsert_notice true i code severity message ;; record_diagnostics i l
  end.

Definition resolve_notices (i : ServiceInstance) (codes : list string) : tx () :=
  on_flash (λ db f, set_notices
    ((λ n, if bool_decide (notice_service n = instance_id i) && negb (is_some (resolved_at n))
              && (negb (notice_generation n =? generation (instance_row i))
                  || negb (bool_decide (notice_code n ∈ codes)))
           then set_noticed (last_observed_at n) (Some (now db)) (notice_severity n) (notice_message n) n
           else n) <$> flash_service_events f) f).

Definition as_list (v : option Value) : list Value :=
  match v with Some (Array l) => l | _ => [] end.

Definition record_flash_observation `{SqlCast} (i : ServiceInstance) (provider_status : Value) : tx () :=
  let seen := instance_row i in
  if negb (bool_decide ((get "observed_generation" provider_status ≫= as_i64)
                        = Some (generation seen)))
  then mret ()
  else
    found ← query (λ db, r ← report_row (instance_id i) "flash" (generation seen) db;
                     if in_org (organization_id seen) r && not_deleting r then Some r else None);
    match found with
    | None => mret ()
    | Some r =>
        put_service (instance_id i)
          (set_reported (observed_state provider_status) (Object [("status", provider_status)]) r) ;;
        (if is_some_and (λ n, 0 <? n) (get "desired_replicas" provider_status ≫= as_u64)
            && negb (json_true "stopped" (spec seen))
         then on_flash (λ db f, set_revisions
                (alter (start_activation (now db)) (instance_id i, generation seen)
                   (flash_service_revisions f)) f)
         else mret ()) ;;
        let diagnostics := omap diagnostic_of (take 16 (as_list (get "diagnostics" provider_status))) in
        record_diagnostics i diagnostics ;;
        resolve_notices i (fst <$> (fst <$> diagnostics))
    end.

(** [record_flash_event], [acknowledge_flash_event]. *)
Definition record_flash_event (i : ServiceInstance) (code severity message : string) : tx () :=
  upsert_notice false i code severity message.

Definition set_acknowledged (t : Z) (n : NoticeRow) : NoticeRow :=
  Build_NoticeRow (notice_organization n) (notice_service n) (notice_generation n) (notice_code n)
    (notice_severity n) (notice_message n) (notice_created_at n) (last_observed_at n) (resolved_at n) (Some t).

Definition acknowledge_flash_event (org : OrganizationId) (id : Uuid) : tx () :=
  found ← query (λ db, is_some_and (λ n, bool_decide (notice_organization n = org))
                         (flash_service_events (flash db) !! id));
  tx_fail_if (negb found) NotFound ;;
  on_flash (λ db f, set_notices (alter (set_acknowledged (now db)) id (flash_service_events f)) f).

(** The rows that go with a deleted service (ON DELETE CASCADE); an access
    context forgets a credential that is deleted (ON DELETE SET NULL). *)
Definition cascade_flow (id : ServiceInstanceId) (f : FlowTables) : FlowTables := {|
  flow_developer_credentials :=
    filter (λ e, credential_service (snd e) ≠ id) (flow_developer_credentials f);
  flow_access_contexts :=
    (λ r, match context_credential r ≫= λ c, flow_developer_credentials f !! c with
          | Some c => if bool_decide (credential_service c = id) then set_context_credential None r else r
          | None => r
          end)
    <$> filter (λ e, context_service (snd e) ≠ id) (flow_access_contexts f);
|}.

Definition cascade_flash (id : ServiceInstanceId) (f : FlashTables) : FlashTables :=
  set_domains (filter (λ e, domain_service (snd e) ≠ id) (flash_domain_bindings f))
    (set_ssh_bindings (filter (λ b, snd (fst b) ≠ id) (flash_ssh_key_bindings f)) f).

Definition cascade_delete (id : ServiceInstanceId) (db : Db) : Db :=
  set_flash (cascade_flash id (flash db)) (set_flow (cascade_flow id (flow db))
    (set_workload_tokens (filter (λ e, token_service (snd e) ≠ id) (workload_access_tokens db))
       (set_gpu_requests (delete id (flash_gpu_service_requests db))
          (set_services (delete id (service_instances db)) db)))).

Definition complete_delete_service_instance (id : ServiceInstanceId) (prov : string) (g : Z)
    : tx bool := λ db,
  match report_row id prov g db with
  | Some r =>
      if bool_decide (state r = Deleting) then Ok (true, cascade_delete id db) else Ok (false, db)
  | None => Ok (false, db)
  end.

(** ** The outbox *)

Record OutboxEvent := {
  event_id : Uuid;
  event_topic : string;
  event_aggregate_id : Uuid;
  event_payload : Payload;
  event_attempts : Z;
}.

Definition LOCK_SECONDS : Z := 120.

Definition claimable (now : Z) (e : OutboxRow) : bool :=
  negb (is_some (delivered_at e)) && (available_at e <=? now)
  && match locked_at e with Some t => t <? now - LOCK_SECONDS | None => true end.

(** [ORDER BY available_at, id LIMIT 1]. *)
Definition earlier (a b : Uuid * OutboxRow) : bool :=
  (available_at (snd a) <? available_at (snd b))
  || ((available_at (snd a) =? available_at (snd b)) && (fst a <? fst b)%N).

Fixpoint earliest (l : list (Uuid * OutboxRow)) : option (Uuid * OutboxRow) :=
  match l with
  | [] => None
  | e :: l =>
      match earliest l with
      | Some e' => Some (if earlier e' e then e' else e)
      | None => Some e
      end
  end.

Definition set_lock (lock : option Z) (tries available : Z) (delivered : option Z) (e : OutboxRow)
    : OutboxRow :=
  Build_OutboxRow (topic e) (aggregate_id e) (payload e) tries available lock delivered
    (created_at e).

Definition update_event (id : Uuid) (f : OutboxRow → OutboxRow) (db : Db) : Db :=
  set_outbox (alter f id (outbox_events db)) db.

Definition claim_outbox_event : tx (option OutboxEvent) := λ db,
  match earliest (filter (λ e, claimable (now db) (snd e) = true) (map_to_list (outbox_events db))) with
  | None => Ok (None, db)
  | Some (id, e) =>
      let tries := attempts e + 1 in
      Ok (Some (Build_OutboxEvent id (topic e) (aggregate_id e) (payload e) tries),
          update_event id (set_lock (Some (now db)) tries (available_at e) (delivered_at e)) db)
  end.

Definition mark_outbox_delivered (id : Uuid) : tx () := λ db,
  Ok ((), update_event id (λ e, set_lock None (attempts e) (available_at e) (Some (now db)) e) db).

(** [2_i32.saturating_pow(attempts.clamp(1, 8)).min(300)]. *)
Definition retry_delay (tries : Z) : Z := Z.min (2 ^ Z.max 1 (Z.min tries 8)) 300.

Definition retry_outbox_event (id : Uuid) (tries : Z) : tx () := λ db,
  Ok ((), update_event id (λ e, if is_some (delivered_at e) then e
                                else set_lock None (attempts e) (now db + retry_delay tries) None e) db).

(** ** Events for existing services *)

(** Fetch rows in the order of their ids. *)
Fixpoint insert_row {A} (e : Uuid * A) (l : list (Uuid * A)) : list (Uuid * A) :=
  match l with
  | [] => [e]
  | e' :: l' => if (fst e <? fst e')%N then e :: l else e' :: insert_row e l'
  end.
Definition order_by_id {A} (l : list (Uuid * A)) : list (Uuid * A) :=
  foldr insert_row [] l.

(** The principal that last asked for the current generation of a service. *)
Definition last_requester (id : Uuid) (g : Z) (db : Db) : option PrincipalId :=
  let events := filter (λ e, aggregate_id (snd e) = id ∧ topic (snd e) = "service-instance.reconcile")
                  (map_to_list (outbox_events db)) in
  let matching := omap (λ e, match payload (snd e) with
                             | ReconcileBody p =>
                                 if payload_generation p =? g
                                 then Some (created_at (snd e), fst e, principal_id p) else None
                             | _ => None
                             end) events in
  let later a b := (a.1.1 <? b.1.1) || ((a.1.1 =? b.1.1) && (a.1.2 <? b.1.2)%N) in
  snd <$> foldr (λ e best, match best with
                           | Some b => Some (if later b e then e else b)
                           | None => Some e
                           end) None matching.

(** An enabled principal of the account, the last requester first, then by id. *)
Definition pick_principal (id : Uuid) (r : ServiceRow) (db : Db) : option PrincipalId :=
  let candidates := fst <$> filter (λ e, principal_organization_id (snd e) = organization_id r
                                         ∧ enabled (snd e) = true) (map_to_list (principals db)) in
  let first := foldr (λ p best, match best with
                                | Some b => Some (if (p <? b)%N then p else b)
                                | None => Some p
                                end) None candidates in
  match last_requester id (generation r) db with
  | Some p => if bool_decide (p ∈ candidates) then Some p else first
  | None => first
  end.

Fixpoint enqueue_events (event_topic : string) (principal_of : Uuid → ServiceRow → option PrincipalId)
    (rows : list (Uuid * ServiceRow)) : tx Z :=
  match rows with
  | [] => mret 0
  | (id, r) :: rows =>
      match principal_of id r with
      | None => enqueue_events event_topic principal_of rows
      | Some p =>
          insert_outbox event_topic id
            (event_body id (organization_id r) (project_id r) p "flash" (generation r)) ;;
          n ← enqueue_events event_topic principal_of rows;
          mret (n + 1)
      end
  end.

Definition enqueue_flash_quota_reconcile_tx (org : option OrganizationId) : tx Z := λ db,
  let rows := order_by_id (select_services (λ _ r, has_provider "flash" r && not_deleting r
    && match org with Some o => in_org o r | None => true end) db) in
  enqueue_events "service-instance.flash-quota" (λ id r, pick_principal id r db) rows db.

(** [enqueue_flash_gpu_reconciles]: services that asked for one of the types. *)
Definition enqueue_flash_gpu_reconciles (gpu_types : list string) : tx Z := λ db,
  if is_nil gpu_types then Ok (0, db)
  else
    let wanted id :=
      is_some_and (λ q, bool_decide (request_gpu_type q ∈ gpu_types)) (flash_gpu_service_requests db !! id) in
    let rows := order_by_id (select_services (λ id r, wanted id && not_deleting r) db) in
    enqueue_events "service-instance.reconcile" (λ id r,
      q ← flash_gpu_service_requests db !! id;
      requester ← requested_by_principal_id q;
      p ← principals db !! requester;
      if bool_decide (principal_organization_id p = organization_id r)
      then Some requester else None) rows db.

(** ** Quotas *)

(** The accounts of the cloud organization that [account] manages, in the order
    of their ids, or [account] alone. *)
Definition enqueue_organization_flash_quotas_tx (account : OrganizationId) : tx () :=
  accounts ← query (λ db, merge_sort N.le
    (fst <$> filter (λ e, cloud_management_accounts db !! snd e = Some account)
       (map_to_list (cloud_organization_accounts db))));
  foldr (λ account rest, _ ← enqueue_flash_quota_reconcile_tx (Some account); rest) (mret ())
    (if is_nil accounts then [account] else accounts).

Section QuotaChanges.
Context `{LimitsDecoder}.

Definition set_organization_resource_quota (org : OrganizationId) (limits : ResourceQuotaLimits)
    : tx ResourceQuotaLimits :=
  lift (validate_resource_quota limits) ;;
  known ← query (λ db, bool_decide (org ∈ organizations db));
  tx_fail_if (negb known) NotFound ;;
  let stored := ResourceQuotaLimits.to_value limits in
  statement (λ db, set_quotas (resource_quota_defaults db)
    (<[org := stored]> (organization_resource_quotas db)) (member_resource_quotas db) db) ;;
  enqueue_organization_flash_quotas_tx org ;;
  lift (parse_resource_quota limits_from_value stored).

Definition clear_organization_resource_quota (org : OrganizationId) : tx ResourceQuotaLimits :=
  known ← query (λ db, bool_decide (org ∈ organizations db));
  tx_fail_if (negb known) NotFound ;;
  statement (λ db, set_quotas (resource_quota_defaults db)
    (delete org (organization_resource_quotas db)) (member_resource_quotas db) db) ;;
  limits ← read (resource_quota_in_transaction org);
  enqueue_organization_flash_quotas_tx org ;;
  mret limits.

Definition update_resource_quota_defaults (limits : ResourceQuotaLimits) : tx ResourceQuotaLimits :=
  lift (validate_resource_quota limits) ;;
  let stored := ResourceQuotaLimits.to_value limits in
  statement (λ db, set_quotas stored (organization_resource_quotas db) (member_resource_quotas db) db) ;;
  _ ← enqueue_flash_quota_reconcile_tx None;
  lift (parse_resource_quota limits_from_value stored).

End QuotaChanges.

Definition enable_organization_flash_weekly_quotas : tx Z :=
  statement (set_weekly_quotas true) ;;
  enqueue_flash_quota_reconcile_tx None.
