(* ===== verification/FlowAccess.v ===== *)
(** * Flow developer credentials and access contexts

    The operations of [heterocloud-store/src/lib.rs] on the tables
    [flow_developer_credentials] and [flow_access_contexts]: a developer holds a
    long-lived credential of a Flow service and mints short-lived access
    contexts with it; revoking either tells the provider through the outbox. *)
From stdpp Require Import sorting.
From S2P Require Import Prelude Text Json Policy Quota Store Usage Provider Services.

(** Times in JSON documents, in the form of RFC 3339. *)
Class TimeText := rfc3339 : Z → string.

Definition MAX_FLOW_ACCESS_CONTEXT_RECORDS_PER_SERVICE : nat := 100.
Definition MAX_FLOW_ACCESS_CONTEXT_LIST_SIZE : nat := MAX_FLOW_ACCESS_CONTEXT_RECORDS_PER_SERVICE.
Definition MAX_FLOW_DEVELOPER_CREDENTIAL_LIST_SIZE : nat := 100.

(** ** Rows *)

Definition set_contexts (c : gmap Uuid ContextRow) (db : Db) : Db :=
  set_flow (Build_FlowTables (flow_developer_credentials (flow db)) c) db.
Definition set_credentials (c : gmap Uuid CredentialRow) (db : Db) : Db :=
  set_flow (Build_FlowTables c (flow_access_contexts (flow db))) db.

Definition contexts (db : Db) : gmap Uuid ContextRow := flow_access_contexts (flow db).
Definition credentials (db : Db) : gmap Uuid CredentialRow := flow_developer_credentials (flow db).

Definition revoke_context (t : Z) (r : ContextRow) : ContextRow :=
  Build_ContextRow (context_organization r) (context_project r) (context_service r)
    (context_credential r) (context_principal r) (context_permissions r) (context_issued_at r)
    (context_expires_at r) (Some t).

Definition set_secret (prefix : string) (hash : Digest) (r : CredentialRow) : CredentialRow :=
  Build_CredentialRow (credential_organization r) (credential_service r) (created_by r)
    (credential_name r) prefix hash (credential_permissions r) (credential_expires_at r)
    (credential_created_at r) None (credential_revoked_at r).

Definition set_last_used (t : Z) (r : CredentialRow) : CredentialRow :=
  Build_CredentialRow (credential_organization r) (credential_service r) (created_by r)
    (credential_name r) (credential_prefix r) (secret_hash r) (credential_permissions r)
    (credential_expires_at r) (credential_created_at r) (Some t) (credential_revoked_at r).

Definition revoke_credential (t : Z) (r : CredentialRow) : CredentialRow :=
  Build_CredentialRow (credential_organization r) (credential_service r) (created_by r)
    (credential_name r) (credential_prefix r) (secret_hash r) (credential_permissions r)
    (credential_expires_at r) (credential_created_at r) (last_used_at r) (Some t).

(** [revoked_at IS NULL AND expires_at > now()]. *)
Definition context_live (t : Z) (r : ContextRow) : bool :=
  negb (is_some (context_revoked_at r)) && (t <? context_expires_at r).
Definition credential_live (t : Z) (r : CredentialRow) : bool :=
  negb (is_some (credential_revoked_at r)) && (t <? credential_expires_at r).

(** ** Constraints of the tables *)

Definition flow_permissions : list string :=
  ["flow.queue.read"; "flow.queue.write"; "flow.room.create"; "flow.room.read"; "flow.room.join";
   "flow.turn.issue"; "flow.signal.connect"; "flow.metrics.read"].

Definition valid_permissions (l : list string) : bool :=
  in_range 1 8 (Z.of_nat (length l)) && forallb (λ p, bool_decide (p ∈ flow_permissions)) l.

Definition DAY_SECONDS : Z := 86400.

(** [prefix ~ '^hcf_[0-9a-f]{16}$']. *)
Definition valid_prefix (s : string) : bool :=
  match bytes s with
  | h :: c :: f :: u :: l =>
      String.eqb (of_bytes [h; c; f; u]) "hcf_" && (length l =? 16)%nat
      && forallb (λ b, is_ascii_digit b || in_range 97 102 b) l
  | _ => false
  end.

Definition prefix_free (prefix : string) (id : Uuid) (db : Db) : bool :=
  negb (existsb (λ e, String.eqb (credential_prefix (snd e)) prefix && negb (bool_decide (fst e = id)))
          (map_to_list (credentials db))).

Definition credential_allowed (id : Uuid) (r : CredentialRow) (db : Db) : bool :=
  negb (is_some (credentials db !! id)) && bool_decide (credential_organization r ∈ organizations db)
  && is_some (service_instances db !! credential_service r) && is_some (principals db !! created_by r)
  && valid_name_column (credential_name r) && valid_prefix (credential_prefix r)
  && prefix_free (credential_prefix r) id db && valid_permissions (credential_permissions r)
  && (credential_created_at r + DAY_SECONDS <=? credential_expires_at r)
  && (credential_expires_at r <=? credential_created_at r + 365 * DAY_SECONDS).

Definition context_allowed (id : Uuid) (r : ContextRow) (db : Db) : bool :=
  negb (is_some (contexts db !! id)) && bool_decide (context_organization r ∈ organizations db)
  && is_some (projects db !! context_project r) && is_some (service_instances db !! context_service r)
  && match context_credential r with Some c => is_some (credentials db !! c) | None => true end
  && valid_permissions (context_permissions r)
  && (context_issued_at r + 30 <=? context_expires_at r) && (context_expires_at r <=? context_issued_at r + 300).

Definition insert_context (id : Uuid) (r : ContextRow) : tx () :=
  require (context_allowed id r) ;;
  statement (λ db, set_contexts (<[id := r]> (contexts db)) db).

(** ** Credentials *)

Record NewFlowDeveloperCredential := {
  new_organization : OrganizationId;
  new_service : ServiceInstanceId;
  new_created_by : PrincipalId;
  new_name : string;
  new_prefix : string;
  new_secret_hash : Digest;
  new_permissions : list string;
  new_expires_at : Z;
  new_created_at : Z;
}.

(** [permissions.windows(2).any(|pair| pair[0] >= pair[1])]. *)
Fixpoint not_ascending (l : list string) : bool :=
  match l with
  | a :: (b :: _) as l' => negb (String.ltb a b) || not_ascending l'
  | _ => false
  end.

Definition active_credentials (service : ServiceInstanceId) (db : Db) : Z :=
  Z.of_nat (length (filter (λ e, credential_service (snd e) = service
    ∧ credential_live (now db) (snd e) = true) (map_to_list (credentials db)))).

Section Credentials.
Context `{LimitsDecoder}.

Definition credential_limit (org : OrganizationId) (owner : option UserId) (db : Db)
    : result StoreError Z :=
  quota ← resource_quota_in_transaction org db;
  let account := FlowQuotaLimits.max_developer_credentials_per_service (ResourceQuotaLimits.flow quota) in
  match owner with
  | Some user =>
      member ← member_quota_in_transaction org user quota db;
      Ok (Z.min (FlowQuotaLimits.max_developer_credentials_per_service (ResourceQuotaLimits.flow member))
            account)
  | None => Ok account
  end.

Definition create_flow_developer_credential (input : NewFlowDeveloperCredential)
    : tx (Uuid * CredentialRow) :=
  tx_fail_if (not_ascending (new_permissions input)) Conflict ;;
  _ ← read (resource_quota_in_transaction (new_organization input));
  service ← optional NotFound (find_service (new_service input)
              (λ r, in_org (new_organization input) r && has_provider "flow" r));
  limit ← read (credential_limit (new_organization input) (quota_user_id service));
  active ← query (active_credentials (new_service input));
  tx_fail_if (limit <=? active)
    (RequestRejected "Flow developer credential limit exceeded: limit is {} per service") ;;
  id ← now_v7;
  _ ← optional NotFound (query (λ db,
    p ← principals db !! new_created_by input;
    if bool_decide (principal_organization_id p = new_organization input) && enabled p
    then Some p else None));
  let row := Build_CredentialRow (new_organization input) (new_service input) (new_created_by input)
    (new_name input) (new_prefix input) (new_secret_hash input) (new_permissions input)
    (new_expires_at input) (new_created_at input) None None in
  require (credential_allowed id row) ;;
  statement (λ db, set_credentials (<[id := row]> (credentials db)) db) ;;
  mret (id, row).

End Credentials.

(** A credential joined with its Flow service. *)
Record CredentialScope := {
  scope_credential_id : Uuid;
  scope_credential : CredentialRow;
  scope_service : ServiceRow;
}.

Definition flow_service (id : Uuid) (db : Db) : option ServiceRow :=
  s ← service_instances db !! id; if has_provider "flow" s then Some s else None.

Definition credential_scope (org : OrganizationId) (service : ServiceInstanceId) (id : Uuid) (db : Db)
    : option CredentialScope :=
  c ← credentials db !! id;
  s ← flow_service (credential_service c) db;
  if bool_decide (credential_organization c = org) && bool_decide (credential_service c = service)
  then Some (Build_CredentialScope id c s) else None.

(** The live credential with this prefix and secret; prefixes are unique. *)
Definition credential_by_secret (prefix : string) (hash : Digest) (db : Db) : option CredentialScope :=
  e ← head (filter (λ e, credential_prefix (snd e) = prefix ∧ secret_hash (snd e) = hash
                         ∧ credential_live (now db) (snd e) = true) (map_to_list (credentials db)));
  s ← flow_service (credential_service (snd e)) db;
  Some (Build_CredentialScope (fst e) (snd e) s).

(** ORDER BY time DESC, id DESC LIMIT. *)
Definition newest {A} (time : A → Z) : relation (Uuid * A) := λ a b,
  time (snd b) < time (snd a) ∨ (time (snd b) = time (snd a) ∧ (fst b ≤ fst a)%N).

#[export] Instance newest_dec {A} (time : A → Z) : RelDecision (newest time).
Proof. unfold newest. intros a b. apply _. Defined.

Definition clamp_limit (limit : Z) (max : nat) : nat := Z.to_nat (Z.max 1 (Z.min limit (Z.of_nat max))).

Definition list_flow_developer_credentials (org : OrganizationId) (service : ServiceInstanceId)
    (limit : Z) (db : Db) : list (Uuid * CredentialRow) :=
  match flow_service service db with
  | Some s =>
      if in_org org s then
        take (clamp_limit limit MAX_FLOW_DEVELOPER_CREDENTIAL_LIST_SIZE)
          (merge_sort (newest credential_created_at)
             (filter (λ e, credential_organization (snd e) = org ∧ credential_service (snd e) = service)
                (map_to_list (credentials db))))
      else []
  | None => []
  end.

Definition flow_developer_credential (org : OrganizationId) (service : ServiceInstanceId) (id : Uuid)
    (db : Db) : option CredentialRow :=
  c ← credentials db !! id;
  if bool_decide (credential_organization c = org) && bool_decide (credential_service c = service)
  then Some c else None.

(** ** Revocation *)

(** A context of the credential that is still usable. *)
Definition cascaded (scope : CredentialScope) (t : Z) (r : ContextRow) : bool :=
  bool_decide (context_credential r = Some (scope_credential_id scope))
  && bool_decide (context_organization r = credential_organization (scope_credential scope))
  && bool_decide (context_service r = credential_service (scope_credential scope))
  && context_live t r.

Definition revocation_body (context service org project principal : Uuid) (g expires : Z)
    : PrincipalContextRevocationPayload :=
  Build_PrincipalContextRevocationPayload context service org project principal "flow" g expires.

Fixpoint enqueue_revocations (scope : CredentialScope) (principal : PrincipalId)
    (rows : list (Uuid * ContextRow)) : tx () :=
  match rows with
  | [] => mret ()
  | (id, r) :: rows =>
      insert_event PRINCIPAL_CONTEXT_REVOKE_ACTION id
        (RevocationBody (revocation_body id (credential_service (scope_credential scope))
           (credential_organization (scope_credential scope)) (project_id (scope_service scope))
           principal (generation (scope_service scope)) (context_expires_at r))) ;;
      enqueue_revocations scope principal rows
  end.

Definition cascade_flow_developer_credential_contexts (scope : CredentialScope)
    (principal : PrincipalId) : tx Z :=
  rows ← query (λ db, order_by_id
    (filter (λ e, cascaded scope (now db) (snd e) = true) (map_to_list (contexts db))));
  if is_nil rows then mret 0
  else
    let ids : gset Uuid := list_to_set (fst <$> rows) in
    updated ← query (λ db, Z.of_nat (size (filter (λ e, fst e ∈ ids ∧ context_revoked_at (snd e) = None)
                                             (contexts db))));
    statement (λ db, set_contexts
      (map_imap (λ id r, Some (if bool_decide (id ∈ ids) && negb (is_some (context_revoked_at r))
                               then revoke_context (now db) r else r)) (contexts db)) db) ;;
    tx_fail_if (negb (updated =? Z.of_nat (length rows)))
      (Invariant "developer credential context cascade lost a locked row") ;;
    enqueue_revocations scope principal rows ;;
    mret (Z.of_nat (length rows)).

Record FlowDeveloperCredentialRevocation := {
  credential_revoked : bool;
  contexts_revoked : Z;
}.

Definition alter_credential (id : Uuid) (f : Db → CredentialRow → CredentialRow) : tx () :=
  statement (λ db, set_credentials (alter (f db) id (credentials db)) db).

Definition revoke_flow_developer_credential (org : OrganizationId) (service : ServiceInstanceId)
    (id : Uuid) (principal : PrincipalId) : tx FlowDeveloperCredentialRevocation :=
  scope ← query (credential_scope org service id);
  match scope with
  | None => mret (Build_FlowDeveloperCredentialRevocation false 0)
  | Some scope =>
      let revoked := negb (is_some (credential_revoked_at (scope_credential scope))) in
      (if revoked then alter_credential id (λ db, revoke_credential (now db)) else mret ()) ;;
      n ← cascade_flow_developer_credential_contexts scope principal;
      mret (Build_FlowDeveloperCredentialRevocation revoked n)
  end.

Definition rotate_flow_developer_credential (org : OrganizationId) (service : ServiceInstanceId)
    (id : Uuid) (prefix : string) (hash : Digest) (principal : PrincipalId) : tx Z :=
  scope ← optional Conflict (query (λ db,
    scope ← credential_scope org service id db;
    if credential_live (now db) (scope_credential scope) then Some scope else None));
  require (λ db, valid_prefix prefix && prefix_free prefix id db) ;;
  alter_credential id (λ _, set_secret prefix hash) ;;
  cascade_flow_developer_credential_contexts scope principal.

(** ** Access contexts *)

Record NewFlowAccessContext := {
  new_context_id : Uuid;
  new_context : ContextRow;
}.

Definition newest_contexts (service : ServiceInstanceId) (db : Db) : list (Uuid * ContextRow) :=
  merge_sort (newest context_issued_at)
    (filter (λ e, context_service (snd e) = service) (map_to_list (contexts db))).

(** The history beyond the newest records goes, but live contexts stay. *)
Definition prune_flow_access_context_history (service : ServiceInstanceId) : tx () :=
  statement (λ db,
    let beyond : gset Uuid := list_to_set
      (fst <$> drop MAX_FLOW_ACCESS_CONTEXT_RECORDS_PER_SERVICE (newest_contexts service db)) in
    set_contexts (filter (λ e, ¬ (context_service (snd e) = service ∧ fst e ∈ beyond
                                  ∧ context_live (now db) (snd e) = false)) (contexts db)) db).

Definition record_flow_access_context (input : NewFlowAccessContext) : tx () :=
  let r := new_context input in
  ready ← query (λ db, is_some_and (λ s, in_org (context_organization r) s
    && bool_decide (project_id s = context_project r) && bool_decide (state s = Ready))
    (flow_service (context_service r) db));
  tx_fail_if (negb ready) Conflict ;;
  insert_context (new_context_id input) r ;;
  prune_flow_access_context_history (context_service r).

Record DeveloperCredentialMint := {
  mint_prefix : string;
  mint_secret_hash : Digest;
  mint_context_id : Uuid;
  mint_principal_id : PrincipalId;
  mint_permissions : list string;
  mint_issued_at : Z;
  mint_expires_at : Z;
}.

Record DeveloperCredentialMintScope := {
  minted_credential_id : Uuid;
  minted_organization_id : OrganizationId;
  minted_project_id : ProjectId;
  minted_service_instance_id : ServiceInstanceId;
  minted_service_spec : Value;
}.

Inductive DeveloperCredentialMintOutcome :=
| Issued (scope : DeveloperCredentialMintScope)
| InvalidCredential
| PermissionDenied
| ServiceInstanceNotReady.

Section Mint.
Context `{UuidText, TimeText}.

Definition json_uuid (id : Uuid) : Value := Str (uuid_to_string id).

Definition realtime_service_resource (org service : Uuid) : string :=
  ("hc:org:" ++ uuid_to_string org ++ ":realtime/service/" ++ uuid_to_string service)%string.

Definition credential_actor (id : Uuid) : Value :=
  Object [("actor", Str "flow_developer_credential"); ("credential_id", json_uuid id)].

Definition minted_context (scope : CredentialScope) (input : DeveloperCredentialMint) : ContextRow :=
  let c := scope_credential scope in
  Build_ContextRow (credential_organization c) (project_id (scope_service scope)) (credential_service c)
    (Some (scope_credential_id scope)) (mint_principal_id input) (mint_permissions input)
    (mint_issued_at input) (mint_expires_at input) None.

Definition mint_audit (scope : CredentialScope) (input : DeveloperCredentialMint) : AuditRow :=
  let c := scope_credential scope in
  {| audit_organization_id := Some (credential_organization c);
     audit_principal_id := Some (created_by c); audit_user_id := None;
     audit_request_id := uuid_to_string (mint_context_id input);
     audit_action := "realtime:MintAccessCredential";
     audit_resource := realtime_service_resource (credential_organization c) (credential_service c);
     audit_decision := "allow"; audit_reason := "developer_credential_scope";
     audit_metadata := Object [
       ("authentication", credential_actor (scope_credential_id scope));
       ("context_id", json_uuid (mint_context_id input));
       ("service_instance_id", json_uuid (credential_service c));
       ("issued_principal_id", json_uuid (mint_principal_id input));
       ("permissions", Array (Str <$> mint_permissions input));
       ("expires_at", Str (rfc3339 (mint_expires_at input)))] |}.

Definition mint_flow_access_context_with_developer_credential (input : DeveloperCredentialMint)
    : tx DeveloperCredentialMintOutcome :=
  row ← query (credential_by_secret (mint_prefix input) (mint_secret_hash input));
  match row with
  | None => mret InvalidCredential
  | Some scope =>
      let c := scope_credential scope in
      if negb (bool_decide (state (scope_service scope) = Ready)) then mret ServiceInstanceNotReady
      else if negb (forallb (λ p, bool_decide (p ∈ credential_permissions c)) (mint_permissions input))
      then mret PermissionDenied
      else
        insert_context (mint_context_id input) (minted_context scope input) ;;
        prune_flow_access_context_history (credential_service c) ;;
        alter_credential (scope_credential_id scope) (λ db, set_last_used (now db)) ;;
        append_audit (mint_audit scope input) ;;
        mret (Issued (Build_DeveloperCredentialMintScope (scope_credential_id scope)
          (credential_organization c) (project_id (scope_service scope)) (credential_service c)
          (spec (scope_service scope))))
  end.

Definition list_flow_access_contexts (org : OrganizationId) (service : ServiceInstanceId) (limit : Z)
    (db : Db) : list (Uuid * ContextRow) :=
  match flow_service service db with
  | Some s =>
      if in_org org s then
        take (clamp_limit limit MAX_FLOW_ACCESS_CONTEXT_LIST_SIZE)
          (filter (λ e, context_organization (snd e) = org) (newest_contexts service db))
      else []
  | None => []
  end.

Definition list_flow_access_contexts_for_developer_credential (prefix : string) (hash : Digest)
    (limit : Z) : tx (option (list (Uuid * ContextRow))) :=
  row ← query (credential_by_secret prefix hash);
  match row with
  | None => mret None
  | Some scope =>
      items ← query (λ db, take (clamp_limit limit MAX_FLOW_ACCESS_CONTEXT_LIST_SIZE)
        (merge_sort (newest context_issued_at)
           (filter (λ e, context_credential (snd e) = Some (scope_credential_id scope))
              (map_to_list (contexts db)))));
      alter_credential (scope_credential_id scope) (λ db, set_last_used (now db)) ;;
      mret (Some items)
  end.

(** UPDATE ... SET revoked_at = now(), and the event for the provider. *)
Definition revoke_and_notify (id : Uuid) (body : PrincipalContextRevocationPayload) : tx () :=
  statement (λ db, set_contexts (alter (revoke_context (now db)) id (contexts db)) db) ;;
  insert_event PRINCIPAL_CONTEXT_REVOKE_ACTION id (RevocationBody body).

Definition revocation_audit (scope : CredentialScope) (request context : Uuid)
    (row : option ContextRow) (changed : bool) : AuditRow :=
  let c := scope_credential scope in
  {| audit_organization_id := Some (credential_organization c);
     audit_principal_id := Some (created_by c); audit_user_id := None;
     audit_request_id := uuid_to_string request;
     audit_action := "realtime:RevokeAccessContext";
     audit_resource := realtime_service_resource (credential_organization c) (credential_service c);
     audit_decision := "allow"; audit_reason := "developer_credential_scope";
     audit_metadata := Object [
       ("authentication", credential_actor (scope_credential_id scope));
       ("context_id", json_uuid context);
       ("service_instance_id", json_uuid (credential_service c));
       ("context_principal_id", match row with Some r => json_uuid (context_principal r) | None => Null end);
       ("revoked_now", Bool changed)] |}.

Definition revoke_flow_access_context_with_developer_credential (prefix : string) (hash : Digest)
    (id : Uuid) : tx (option bool) :=
  row ← query (credential_by_secret prefix hash);
  match row with
  | None => mret None
  | Some scope =>
      let c := scope_credential scope in
      context ← query (λ db,
        r ← contexts db !! id;
        if bool_decide (context_credential r = Some (scope_credential_id scope))
           && bool_decide (context_organization r = credential_organization c)
           && bool_decide (context_service r = credential_service c) then Some r else None);
      let changed := is_some_and (λ r, negb (is_some (context_revoked_at r))) context in
      match context with
      | Some r =>
          if changed then
            revoke_and_notify id (revocation_body id (credential_service c) (credential_organization c)
              (project_id (scope_service scope)) (created_by c) (generation (scope_service scope))
              (context_expires_at r))
          else mret ()
      | None => mret ()
      end ;;
      alter_credential (scope_credential_id scope) (λ db, set_last_used (now db)) ;;
      request ← now_v7;
      append_audit (revocation_audit scope request id context changed) ;;
      mret (Some changed)
  end.

Definition revoke_flow_access_context (org : OrganizationId) (service : ServiceInstanceId) (id : Uuid)
    (principal : PrincipalId) : tx bool :=
  row ← query (λ db,
    r ← contexts db !! id;
    s ← flow_service (context_service r) db;
    if bool_decide (context_organization r = org) && bool_decide (context_service r = service)
    then Some (r, s) else None);
  match row with
  | None => mret false
  | Some (r, s) =>
      if is_some (context_revoked_at r) then mret false
      else
        revoke_and_notify id (revocation_body id service org (project_id s) principal (generation s)
          (context_expires_at r)) ;;
        mret true
  end.

End Mint.
