(* ===== verification/Cloud.v ===== *)
(** * Cloud organizations

    [heterocloud-store/src/cloud_organizations.rs] and the triggers of
    [migrations/0026_cloud_organizations.sql]: the tree of organizational
    units, its accounts, and the service control policies attached to them. *)
From stdpp Require Import sorting.
From S2P Require Import Prelude Text Json Policy Quota Store Services.

(** [lower] of the database. *)
Class SqlText := sql_lower : string → string.

(** ** Updates of the tables *)

Definition set_cloud_names n (c : CloudTables) : CloudTables :=
  Build_CloudTables (scp_enabled c) n (account_rows c) (next_account_number c)
    (organizational_units c) (account_parents c) (service_control_policies c) (unit_attachments c)
    (account_attachments c).
Definition set_account_rows r (c : CloudTables) : CloudTables :=
  Build_CloudTables (scp_enabled c) (cloud_names c) r (next_account_number c)
    (organizational_units c) (account_parents c) (service_control_policies c) (unit_attachments c)
    (account_attachments c).
Definition set_account_number n (c : CloudTables) : CloudTables :=
  Build_CloudTables (scp_enabled c) (cloud_names c) (account_rows c) n (organizational_units c)
    (account_parents c) (service_control_policies c) (unit_attachments c) (account_attachments c).
Definition set_units u (c : CloudTables) : CloudTables :=
  Build_CloudTables (scp_enabled c) (cloud_names c) (account_rows c) (next_account_number c) u
    (account_parents c) (service_control_policies c) (unit_attachments c) (account_attachments c).
Definition set_parents p (c : CloudTables) : CloudTables :=
  Build_CloudTables (scp_enabled c) (cloud_names c) (account_rows c) (next_account_number c)
    (organizational_units c) p (service_control_policies c) (unit_attachments c)
    (account_attachments c).
Definition set_policies p (c : CloudTables) : CloudTables :=
  Build_CloudTables (scp_enabled c) (cloud_names c) (account_rows c) (next_account_number c)
    (organizational_units c) (account_parents c) p (unit_attachments c) (account_attachments c).
Definition set_unit_attachments a (c : CloudTables) : CloudTables :=
  Build_CloudTables (scp_enabled c) (cloud_names c) (account_rows c) (next_account_number c)
    (organizational_units c) (account_parents c) (service_control_policies c) a
    (account_attachments c).
Definition set_account_attachments a (c : CloudTables) : CloudTables :=
  Build_CloudTables (scp_enabled c) (cloud_names c) (account_rows c) (next_account_number c)
    (organizational_units c) (account_parents c) (service_control_policies c) (unit_attachments c) a.

Definition on_cloud (f : CloudTables → CloudTables) : tx () :=
  statement (λ db, set_cloud (f (cloud db)) db).

(** [slug ~ '^[a-z][a-z0-9-]{1,61}[a-z0-9]$']. *)
Definition valid_slug_column (s : string) : bool :=
  match bytes s with
  | b :: l => is_ascii_lowercase b && in_range 2 62 (Z.of_nat (length l))
              && forallb (λ b, is_ascii_lowercase b || is_ascii_digit b || (b =? HYPHEN)) l
              && match last l with Some b => is_ascii_lowercase b || is_ascii_digit b | None => false end
  | [] => false
  end.

(** ** Rows with their triggers *)

Section Cloud.
Context `{SqlText}.

(** The policies [FullAWSAccess] of an organization. *)
Definition managed_policies (org : Uuid) (c : CloudTables) : gset Uuid :=
  dom (filter (λ e, scp_organization (snd e) = org ∧ is_managed (snd e) = true)
         (service_control_policies c)).

Definition unit_in (org id : Uuid) (c : CloudTables) : bool :=
  is_some_and (λ u, bool_decide (unit_organization u = org)) (organizational_units c !! id).

(** UNIQUE (organization_id, parent_id, lower(name)), and one root. *)
Definition sibling_free (org : Uuid) (parent : option Uuid) (name : string) (c : CloudTables) : bool :=
  negb (existsb (λ e, bool_decide (unit_organization (snd e) = org)
                      && bool_decide (unit_parent (snd e) = parent)
                      && (negb (is_some parent)
                          || String.eqb (sql_lower (unit_name (snd e))) (sql_lower name)))
          (map_to_list (organizational_units c))).

(** INSERT INTO cloud_organizational_units, with [attach_default_unit_scp]. *)
Definition insert_unit (id org : Uuid) (parent : option Uuid) (name : string) : tx () :=
  require (λ db,
    negb (is_some (organizational_units (cloud db) !! id)) && valid_name_column name
    && is_some (cloud_management_accounts db !! org)
    && match parent with
       | Some p => negb (bool_decide (p = id)) && unit_in org p (cloud db)
       | None => true
       end
    && sibling_free org parent name (cloud db)) ;;
  on_cloud (λ c, set_unit_attachments (<[id := managed_policies org c]> (unit_attachments c))
    (set_units (<[id := Build_UnitRow org parent name]> (organizational_units c)) c)).

(** INSERT INTO cloud_organization_accounts, with [attach_default_account_scp]. *)
Definition insert_account (account org parent : Uuid) : tx () :=
  require (λ db,
    negb (is_some (cloud_organization_accounts db !! account))
    && bool_decide (account ∈ organizations db)
    && is_some (cloud_management_accounts db !! org) && unit_in org parent (cloud db)) ;;
  statement (λ db, set_cloud_accounts (<[account := org]> (cloud_organization_accounts db))
                     (cloud_management_accounts db) db) ;;
  on_cloud (λ c, set_account_attachments (<[account := managed_policies org c]> (account_attachments c))
    (set_parents (<[account := parent]> (account_parents c)) c)).

Definition insert_policy (id org : Uuid) (name : string) (document : Value) (managed : bool) : tx () :=
  require (λ db,
    negb (is_some (service_control_policies (cloud db) !! id)) && valid_name_column name
    && is_some (cloud_management_accounts db !! org)
    && negb (existsb (λ e, bool_decide (scp_organization (snd e) = org)
                           && String.eqb (scp_name (snd e)) name)
               (map_to_list (service_control_policies (cloud db))))) ;;
  on_cloud (λ c, set_policies
    (<[id := Build_ScpRow org name document managed]> (service_control_policies c)) c).

(** The document of [FullAWSAccess]. *)
Definition full_access : Value :=
  Object [("version", Str "2026-07-31");
          ("statements", Array [Object [("effect", Str "Allow"); ("actions", Array [Str "*"]);
                                        ("resources", Array [Str "*"])]])].

Definition MAX_ACCOUNT_NUMBER : Z := 999999999999.

(** INSERT INTO organizations, with [create_account_organization]. *)
Definition insert_organization (id : Uuid) (new_slug name : string) : tx () :=
  require (λ db,
    negb (bool_decide (id ∈ organizations db)) && valid_slug_column new_slug && valid_name_column name
    && negb (existsb (λ e, String.eqb (slug (snd e)) new_slug) (map_to_list (account_rows (cloud db))))) ;;
  require (λ db, next_account_number (cloud db) <=? MAX_ACCOUNT_NUMBER) ;;
  statement (λ db, set_organizations ({[id]} ∪ organizations db) db) ;;
  on_cloud (λ c, set_account_number (next_account_number c + 1) (set_account_rows
    (<[id := Build_AccountRow new_slug name (next_account_number c)]> (account_rows c)) c)) ;;
  new_organization_id ← now_v7;
  new_root_id ← now_v7;
  require (λ db, negb (is_some (cloud_management_accounts db !! new_organization_id))
    && negb (existsb (λ e, bool_decide (snd e = id)) (map_to_list (cloud_management_accounts db)))) ;;
  statement (λ db, set_cloud_accounts (cloud_organization_accounts db)
                     (<[new_organization_id := id]> (cloud_management_accounts db)) db) ;;
  on_cloud (λ c, set_cloud_names (<[new_organization_id := name]> (cloud_names c)) c) ;;
  policy ← now_v7;
  insert_policy policy new_organization_id "FullAWSAccess" full_access true ;;
  insert_unit new_root_id new_organization_id None "Root" ;;
  insert_account id new_organization_id new_root_id.

(** DELETE FROM cloud_organizations WHERE management_account_id = $1, with the
    rows that go with it (ON DELETE CASCADE). *)
Definition cascade_cloud (org : Uuid) (db : Db) : Db :=
  let c := cloud db in
  let ours id := cloud_organization_accounts db !! id = Some org in
  set_cloud_accounts (filter (λ e, snd e ≠ org) (cloud_organization_accounts db))
    (delete org (cloud_management_accounts db))
    (set_cloud
       (set_cloud_names (delete org (cloud_names c))
       (set_units (filter (λ e, unit_organization (snd e) ≠ org) (organizational_units c))
       (set_parents (filter (λ e, ¬ ours (fst e)) (account_parents c))
       (set_policies (filter (λ e, scp_organization (snd e) ≠ org) (service_control_policies c))
       (set_unit_attachments (filter (λ e, unit_in org (fst e) c = false) (unit_attachments c))
       (set_account_attachments (filter (λ e, ¬ ours (fst e)) (account_attachments c)) c)))))) db).

Definition delete_cloud_of (account : Uuid) : tx () :=
  statement (λ db, foldr cascade_cloud db
    (fst <$> filter (λ e, snd e = account) (map_to_list (cloud_management_accounts db)))).

(** ** Operations *)

(** SELECT id FROM cloud_organizations WHERE management_account_id = $1. *)
Definition cloud_managed_by (account : Uuid) (db : Db) : option Uuid :=
  fst <$> head (filter (λ e, snd e = account) (map_to_list (cloud_management_accounts db))).

(** The organization of unit [id], if [account] manages it. *)
Definition managed_unit (account id : Uuid) (db : Db) : option Uuid :=
  u ← organizational_units (cloud db) !! id;
  if bool_decide (cloud_management_accounts db !! unit_organization u = Some account)
  then Some (unit_organization u) else None.

Definition rename_cloud_organization (management : OrganizationId) (name : string) : tx () :=
  org ← optional NotFound (query (cloud_managed_by management));
  require (λ _, valid_name_column name) ;;
  on_cloud (λ c, set_cloud_names (<[org := name]> (cloud_names c)) c).

Definition rename_cloud_account (management account : OrganizationId) (name : string) : tx () :=
  row ← optional NotFound (query (λ db,
    org ← cloud_organization_accounts db !! account;
    if bool_decide (cloud_management_accounts db !! org = Some management)
    then account_rows (cloud db) !! account else None));
  require (λ _, valid_name_column name) ;;
  on_cloud (λ c, set_account_rows (<[account := Build_AccountRow (slug row) name (account_number row)]> (account_rows c)) c).

Definition rename_cloud_unit (management : OrganizationId) (id : Uuid) (name : string) : tx () :=
  u ← optional NotFound (query (λ db,
    u ← organizational_units (cloud db) !! id;
    if bool_decide (cloud_management_accounts db !! unit_organization u = Some management)
       && is_some (unit_parent u) then Some u else None));
  require (λ db, valid_name_column name
    && (String.eqb (sql_lower (unit_name u)) (sql_lower name)
        || sibling_free (unit_organization u) (unit_parent u) name (cloud db))) ;;
  on_cloud (λ c, set_units
    (<[id := Build_UnitRow (unit_organization u) (unit_parent u) name]> (organizational_units c)) c).

Definition create_service_control_policy `{Serde PolicyDocument} (management : OrganizationId)
    (name : string) (document : PolicyDocument) : tx Uuid :=
  id ← now_v7;
  org ← optional NotFound (query (cloud_managed_by management));
  insert_policy id org name (to_value document) false ;;
  mret id.

Inductive ScpTarget := UnitTarget | AccountTarget.
Definition scp_target (target_type : string) : option ScpTarget :=
  if String.eqb target_type "unit" then Some UnitTarget
  else if String.eqb target_type "account" then Some AccountTarget else None.

Definition attachments (t : ScpTarget) (c : CloudTables) : gmap Uuid (gset Uuid) :=
  match t with UnitTarget => unit_attachments c | AccountTarget => account_attachments c end.
Definition set_attachments (t : ScpTarget) (m : gmap Uuid (gset Uuid)) (c : CloudTables) : CloudTables :=
  match t with UnitTarget => set_unit_attachments m c | AccountTarget => set_account_attachments m c end.
Definition target_exists (t : ScpTarget) (org id : Uuid) (db : Db) : bool :=
  match t with
  | UnitTarget => unit_in org id (cloud db)
  | AccountTarget => bool_decide (cloud_organization_accounts db !! id = Some org)
  end.
Definition policy_in (org id : Uuid) (c : CloudTables) : bool :=
  is_some_and (λ p, bool_decide (scp_organization p = org)) (service_control_policies c !! id).

Definition MAX_ATTACHED_POLICIES : Z := 10.

Definition change_service_control_attachment (management : OrganizationId) (target_type : string)
    (target policy : Uuid) (attach : bool) : tx () :=
  org ← optional NotFound (query (cloud_managed_by management));
  t ← lift (ok_or NotFound (scp_target target_type));
  exists_ ← query (λ db, target_exists t org target db && policy_in org policy (cloud db));
  tx_fail_if (negb exists_) NotFound ;;
  attached ← query (λ db, default ∅ (attachments t (cloud db) !! target));
  let count := Z.of_nat (size attached) in
  if attach then
    tx_fail_if ((MAX_ATTACHED_POLICIES <=? count) && negb (bool_decide (policy ∈ attached)))
      (RequestRejected "A maximum of 10 service control policies can be attached to a target.") ;;
    on_cloud (λ c, set_attachments t (<[target := {[policy]} ∪ attached]> (attachments t c)) c)
  else
    tx_fail_if (count <=? 1)
      (RequestRejected "At least one service control policy must remain attached.") ;;
    tx_fail_if (negb (bool_decide (policy ∈ attached))) NotFound ;;
    on_cloud (λ c, set_attachments t (<[target := attached ∖ {[policy]}]> (attachments t c)) c).

(** The recursive query [ancestors]: a unit and the units above it, as long as
    they are of the organization and were not visited before. *)
Fixpoint ancestors (fuel : nat) (units : gmap Uuid UnitRow) (org : Uuid) (visited : list Uuid)
    (id : Uuid) : list (Uuid * UnitRow) :=
  match fuel with
  | O => []
  | S fuel =>
      if bool_decide (id ∈ visited) then []
      else match units !! id with
           | Some u =>
               if bool_decide (unit_organization u = org) then
                 (id, u) :: match unit_parent u with
                            | Some p => ancestors fuel units org (id :: visited) p
                            | None => []
                            end
               else []
           | None => []
           end
  end.

(** Every unit is visited at most once. *)
Definition ancestors_of (c : CloudTables) (org id : Uuid) : list (Uuid * UnitRow) :=
  ancestors (S (size (organizational_units c))) (organizational_units c) org [] id.

Definition reaches_root (l : list (Uuid * UnitRow)) : bool :=
  existsb (λ e, negb (is_some (unit_parent (snd e)))) l.

Definition MAX_UNIT_DEPTH : Z := 5.

(** The source counts the levels and inserts in two statements; here they are one
    step.  No operation moves or removes a unit, so nothing that happens between them
    changes the count. *)
Definition create_cloud_organizational_unit (management : OrganizationId) (parent : Uuid)
    (name : string) : tx Uuid :=
  depth ← query (λ db,
    match managed_unit management parent db with
    | Some org =>
        let l := ancestors_of (cloud db) org parent in
        if reaches_root l then Z.of_nat (length l) else 0
    | None => 0
    end);
  tx_fail_if (depth =? 0) NotFound ;;
  tx_fail_if (MAX_UNIT_DEPTH <? depth)
    (RequestRejected "Organizational units can be nested at most five levels below the root.") ;;
  id ← now_v7;
  org ← optional NotFound (query (managed_unit management parent));
  insert_unit id org (Some parent) name ;;
  mret id.

Definition create_cloud_member_account (management : OrganizationId) (parent : Uuid)
    (user : UserId) (new_slug name : string) : tx OrganizationId :=
  org ← optional NotFound (query (managed_unit management parent));
  owner ← optional NotFound (query (λ db,
    u ← users db !! user; if String.eqb (user_status u) "active" then Some u else None));
  account ← now_v7;
  principal ← now_v7;
  insert_organization account new_slug name ;;
  delete_cloud_of account ;;
  insert_account account org parent ;;
  insert_principal principal account "user" (display_name owner) (Some user) (Some user) ;;
  insert_membership account user principal "owner" ;;
  enqueue_organization_flash_quotas_tx management ;;
  mret account.

Definition move_cloud_member_account (management account : OrganizationId) (parent : Uuid) : tx () :=
  movable ← query (λ db,
    match cloud_organization_accounts db !! account with
    | Some org =>
        bool_decide (cloud_management_accounts db !! org = Some management)
        && negb (bool_decide (account = management)) && unit_in org parent (cloud db)
    | None => false
    end);
  tx_fail_if (negb movable) NotFound ;;
  on_cloud (λ c, set_parents (<[account := parent]> (account_parents c)) c).

End Cloud.

(** ** Service control levels *)

Section Levels.
Context `{Serde PolicyDocument}.

(** [cloud_organization_for_account]: the organization and its management
    account. *)
Definition cloud_organization_for_account (account : OrganizationId) (db : Db) : option (Uuid * Uuid) :=
  org ← cloud_organization_accounts db !! account;
  management ← cloud_management_accounts db !! org;
  if bool_decide (management ∈ organizations db) && bool_decide (account ∈ organizations db)
     && existsb (λ e, bool_decide (unit_organization (snd e) = org) && negb (is_some (unit_parent (snd e))))
          (map_to_list (organizational_units (cloud db)))
  then Some (org, management) else None.

(** [ScpRow] of the query: target, whether it is the root, and a document. *)
Record LevelRow := {
  target_id : Uuid;
  is_root : bool;
  document : option Value;
}.

(** LEFT JOIN: a target without policies has one row without a document. *)
Definition target_rows (c : CloudTables) (id : Uuid) (root : bool) (attached : option (gset Uuid))
    : list LevelRow :=
  let ps := elements (default ∅ attached) in
  if is_nil ps then [Build_LevelRow id root None]
  else (λ p, Build_LevelRow id root (scp_document <$> service_control_policies c !! p)) <$> ps.

Definition level_rows (account org : Uuid) (db : Db) : list LevelRow :=
  let c := cloud db in
  let units := match account_parents c !! account with
               | Some p => ancestors_of c org p
               | None => []
               end in
  concat ((λ e, target_rows c (fst e) (negb (is_some (unit_parent (snd e))))
                  (unit_attachments c !! fst e)) <$> units)
  ++ target_rows c account false (account_attachments c !! account).

(** [levels.entry(target_id).or_default()], and [push]. *)
Fixpoint level_push (id : Uuid) (d : list PolicyDocument) (m : list (Uuid * list PolicyDocument))
    : list (Uuid * list PolicyDocument) :=
  match m with
  | [] => [(id, d)]
  | (k, l) :: m' =>
      if (id =? k)%N then (k, l ++ d) :: m'
      else if (id <? k)%N then (id, d) :: m
      else (k, l) :: level_push id d m'
  end.

Definition add_level_row (m : list (Uuid * list PolicyDocument)) (row : LevelRow)
    : result StoreError (list (Uuid * list PolicyDocument)) :=
  match document row with
  | None => Ok (level_push (target_id row) [] m)
  | Some v => d ← ok_or JsonError (from_value v); Ok (level_push (target_id row) [d] m)
  end.

Definition service_control_levels (account : OrganizationId) (db : Db)
    : result StoreError (list (list PolicyDocument)) :=
  if negb (scp_enabled (cloud db)) then Ok [] else
  match cloud_organization_for_account account db with
  | None => Err (Invariant "account is missing its organization")
  | Some (org, management) =>
      if bool_decide (management = account) then Ok [] else
      let rows := level_rows account org db in
      fail_if (negb (existsb is_root rows)) (Invariant "account organization has no reachable root") ;;
      levels ← fold_result add_level_row [] rows;
      Ok (map snd levels)
  end.

End Levels.
