(* ===== verification/Identity.v ===== *)
(** * Users, sessions, invitations and the device flow of the command line

    The operations of [heterocloud-store/src/lib.rs] by which people get into
    the system: registration with an invitation, accounts of an OIDC issuer,
    browser sessions, and the device authorization of the command line, which
    turns an approved device code into one access token. *)
From stdpp Require Import sorting.
From S2P Require Import Prelude Text Json Policy Quota Store Services FlowAccess Cloud.

(** The collation of the database, by which names are ordered. *)
Class SqlCollation := collate : string → string → comparison.

(** ** Tables *)

Definition set_external e (i : IdentityTables) : IdentityTables :=
  Build_IdentityTables e (sessions i) (user_login_events i) (next_login_event i) (invitations i)
    (cli_device_authorizations i) (cli_access_tokens i).
Definition set_sessions s (i : IdentityTables) : IdentityTables :=
  Build_IdentityTables (user_external_identities i) s (user_login_events i) (next_login_event i)
    (invitations i) (cli_device_authorizations i) (cli_access_tokens i).
Definition set_logins l n (i : IdentityTables) : IdentityTables :=
  Build_IdentityTables (user_external_identities i) (sessions i) l n (invitations i)
    (cli_device_authorizations i) (cli_access_tokens i).
Definition set_invitations v (i : IdentityTables) : IdentityTables :=
  Build_IdentityTables (user_external_identities i) (sessions i) (user_login_events i)
    (next_login_event i) v (cli_device_authorizations i) (cli_access_tokens i).
Definition set_devices d (i : IdentityTables) : IdentityTables :=
  Build_IdentityTables (user_external_identities i) (sessions i) (user_login_events i)
    (next_login_event i) (invitations i) d (cli_access_tokens i).
Definition set_tokens t (i : IdentityTables) : IdentityTables :=
  Build_IdentityTables (user_external_identities i) (sessions i) (user_login_events i)
    (next_login_event i) (invitations i) (cli_device_authorizations i) t.

Definition on_identity (f : Db → IdentityTables → IdentityTables) : tx () :=
  statement (λ db, set_identity (f db (identity db)) db).

Definition session_rows (db : Db) := sessions (identity db).
Definition invitation_rows (db : Db) := invitations (identity db).
Definition device_rows (db : Db) := cli_device_authorizations (identity db).
Definition token_rows (db : Db) := cli_access_tokens (identity db).

(** The row of a unique column value. *)
Definition find_row {A} (p : A → bool) (m : gmap Uuid A) : option (Uuid * A) :=
  head (filter (λ e, p (snd e) = true) (map_to_list m)).

(** ** Users *)

Inductive UserStatus := Active | Suspended.

Record User := {
  user_key : UserId;
  user_email : string;
  user_display_name : string;
  status_of_user : UserStatus;
}.

Definition user_from_row (id : UserId) (r : UserRow) : result StoreError User :=
  s ← (if String.eqb (user_status r) "active" then Ok Active
       else if String.eqb (user_status r) "suspended" then Ok Suspended
       else Err (Invariant "unknown user status"));
  Ok (Build_User id (email r) (display_name r) s).

(** One row of the query of [session_user]. *)
Record Membership := {
  membership_organization : OrganizationId;
  membership_slug : string;
  membership_name : string;
  membership_principal : PrincipalId;
  membership_role : string;
}.

Record SessionUser := {
  session_owner : User;
  memberships : list Membership;
}.

Definition is_role (r : string) : bool := bool_decide (r ∈ ["owner"; "admin"; "member"]).

Section Users.
Context `{SqlText, SqlCollation}.

Definition find_user_by_email (mail : string) (db : Db) : option (Uuid * UserRow) :=
  find_row (λ r, String.eqb (sql_lower (email r)) (sql_lower mail)) (users db).

Definition lookup_user_by_email (mail : string) (db : Db) : result StoreError (option User) :=
  match find_user_by_email mail db with
  | Some (id, r) => u ← user_from_row id r; Ok (Some u)
  | None => Ok None
  end.

(** [INSERT INTO users ... lower($2) ... 'active']. *)
Definition insert_user (id : UserId) (mail new_display_name : string) (hash : option string) : tx () :=
  require (λ db, negb (is_some (users db !! id)) && valid_name_column new_display_name
    && negb (is_some (find_user_by_email (sql_lower mail) db))) ;;
  statement (λ db, set_users
    (<[id := Build_UserRow (sql_lower mail) new_display_name hash "active"]> (users db)) db).

(** The memberships of a user whose principal is enabled. *)
Definition membership_of (user : UserId) (db : Db) (e : Uuid * Uuid * MembershipRow) : option Membership :=
  let '((org, u), m) := e in
  a ← account_rows (cloud db) !! org;
  p ← principals db !! member_principal_id m;
  if bool_decide (u = user) && bool_decide (org ∈ organizations db)
     && bool_decide (principal_organization_id p = org) && bool_decide (user_id p = Some user) && enabled p
  then Some (Build_Membership org (slug a) (account_name a) (member_principal_id m) (member_role m))
  else None.

Definition membership_le : relation Membership := λ a b,
  match collate (membership_name a) (membership_name b) with
  | Lt => True
  | Eq => (membership_organization a ≤ membership_organization b)%N
  | Gt => False
  end.

#[export] Instance membership_le_dec : RelDecision membership_le.
Proof. intros a b. unfold membership_le. destruct (collate _ _); apply _. Defined.

Definition session_user (user : UserId) (db : Db) : result StoreError (option SessionUser) :=
  match users db !! user with
  | None => Ok None
  | Some r =>
      u ← user_from_row user r;
      let rows := merge_sort membership_le
        (omap (membership_of user db) (map_to_list (organization_memberships db))) in
      fail_if (existsb (λ m, negb (is_role (membership_role m))) rows)
        (Invariant "unknown membership role") ;;
      Ok (Some (Build_SessionUser u rows))
  end.

(** A committed transaction followed by a read: the read may fail, the
    transaction stays. *)
Definition and_then {A B} (t : tx A) (f : A → Db → result StoreError B) (db : Db)
    : result StoreError B * Db :=
  match t db with Ok (a, db') => (f a db', db') | Err e => (Err e, db) end.

Definition session_user_or (message : string) (user : UserId) (db : Db) : result StoreError SessionUser :=
  u ← session_user user db; ok_or (Invariant message) u.

(** A user with an account of their own. *)
Definition insert_owner (user : UserId) (org : OrganizationId) (principal : PrincipalId)
    (new_slug new_name new_display_name : string) : tx () :=
  insert_organization org new_slug new_name ;;
  insert_principal principal org "user" new_display_name (Some user) (Some user) ;;
  insert_membership org user principal "owner".

Definition bootstrap_admin (mail new_display_name hash new_slug new_name : string) (db : Db)
    : result StoreError SessionUser * Db :=
  match lookup_user_by_email mail db with
  | Err e => (Err e, db)
  | Ok (Some u) =>
      (session_user_or "bootstrap user exists without an organization membership" (user_key u) db, db)
  | Ok None =>
      and_then (user ← now_v7; org ← now_v7; principal ← now_v7;
                insert_user user mail new_display_name (Some hash) ;;
                insert_owner user org principal new_slug new_name new_display_name ;;
                mret user)
        (session_user_or "bootstrap transaction did not produce a session user") db
  end.

Definition create_organization (user : UserId) (new_slug new_name : string) : tx OrganizationId :=
  owner ← optional NotFound (query (λ db,
    u ← users db !! user; if String.eqb (user_status u) "active" then Some u else None));
  org ← now_v7;
  principal ← now_v7;
  insert_owner user org principal new_slug new_name (display_name owner) ;;
  mret org.

Definition rename_user (user : UserId) (new_name : string) : tx () :=
  u ← optional NotFound (query (λ db,
    u ← users db !! user; if String.eqb (user_status u) "active" then Some u else None));
  require (λ _, valid_name_column new_name) ;;
  statement (λ db, set_users
    (<[user := Build_UserRow (email u) new_name (password_hash u) (user_status u)]> (users db)) db).

End Users.

(** ** Sessions *)

Definition MAX_USER_LOGIN_EVENTS_PER_USER : nat := 100.

(** ORDER BY occurred_at DESC, id DESC. *)
Definition latest_logins (user : UserId) (db : Db) : list (N * LoginRow) :=
  merge_sort (newest occurred_at)
    (filter (λ e, login_user_id (snd e) = user) (map_to_list (user_login_events (identity db)))).

Definition prune_logins (user : UserId) : tx () :=
  on_identity (λ db i,
    let kept : gset N := list_to_set (fst <$> take MAX_USER_LOGIN_EVENTS_PER_USER (latest_logins user db)) in
    set_logins (filter (λ e, ¬ (login_user_id (snd e) = user ∧ fst e ∉ kept)) (user_login_events i))
      (next_login_event i) i).

Definition create_session (user : UserId) (hash : Digest) (expires : Z) (method : string) : tx Uuid :=
  tx_fail_if (negb (bool_decide (method ∈ ["local"; "oidc"])))
    (RequestRejected "unsupported authentication method") ;;
  id ← now_v7;
  require (λ db, negb (is_some (session_rows db !! id)) && is_some (users db !! user)
    && negb (is_some (find_row (λ s, bool_decide (session_token_hash s = hash)) (session_rows db)))) ;;
  on_identity (λ db i,
    set_sessions (<[id := Build_SessionRow user hash expires (now db) None]> (sessions i)) i) ;;
  on_identity (λ db i, set_logins
    (<[next_login_event i := Build_LoginRow user (Some id) method (now db)]> (user_login_events i))
    (N.succ (next_login_event i)) i) ;;
  prune_logins user ;;
  mret id.

(** The session with this token, if it has not expired and its user is active. *)
Definition session_by_token (hash : Digest) (db : Db) : option (Uuid * SessionRow) :=
  e ← find_row (λ s, bool_decide (session_token_hash s = hash)) (session_rows db);
  if (now db <? session_expires_at (snd e)) && bool_decide (session_user_id (snd e) ∈ active_users db)
  then Some e else None.

Definition touch_session (t : Z) (s : SessionRow) : SessionRow :=
  Build_SessionRow (session_user_id s) (session_token_hash s) (session_expires_at s) t
    (active_role_session_id s).

Section SessionUser.
Context `{SqlText, SqlCollation}.

Definition session_user_by_token_hash (hash : Digest) (db : Db)
    : result StoreError (option SessionUser) * Db :=
  match session_by_token hash db with
  | None => (Ok None, db)
  | Some (id, s) =>
      let db' := set_identity (set_sessions (<[id := touch_session (now db) s]> (session_rows db))
                                 (identity db)) db in
      (session_user (session_user_id s) db', db')
  end.

End SessionUser.

Definition forget_session (ids : gset Uuid) (l : LoginRow) : LoginRow :=
  match login_session_id l with
  | Some s => if bool_decide (s ∈ ids)
              then Build_LoginRow (login_user_id l) None (authentication_method l) (occurred_at l) else l
  | None => l
  end.

Definition delete_session (hash : Digest) : tx () :=
  on_identity (λ db i,
    let gone := filter (λ e, session_token_hash (snd e) = hash) (sessions i) in
    set_logins (forget_session (dom gone) <$> user_login_events i) (next_login_event i)
      (set_sessions (filter (λ e, session_token_hash (snd e) ≠ hash) (sessions i)) i)).

(** ** Invitations *)

(** [revoked_at IS NULL AND expires_at > now() AND max_uses = 1 AND used_count = 0]. *)
Definition invitation_usable (t : Z) (v : InvitationRow) : bool :=
  negb (is_some (invitation_revoked_at v)) && (t <? invitation_expires_at v)
  && (max_uses v =? 1) && (used_count v =? 0).

Definition usable_invitation (hash : Digest) (db : Db) : option (Uuid * InvitationRow) :=
  e ← find_row (λ v, bool_decide (code_hash v = hash)) (invitation_rows db);
  if invitation_usable (now db) (snd e) then Some e else None.

Definition WEEK_SECONDS : Z := 7 * DAY_SECONDS.

(** Expired device codes, and tokens that ended a week ago. *)
Definition purge_cli_rows : tx () :=
  on_identity (λ db i,
    set_tokens (filter (λ e, ¬ (cli_expires_at (snd e) ≤ now db - WEEK_SECONDS
                                ∨ is_some_and (λ t, t <=? now db - WEEK_SECONDS) (cli_revoked_at (snd e)) = true))
                  (cli_access_tokens i))
      (set_devices (filter (λ e, ¬ device_expires_at (snd e) ≤ now db) (cli_device_authorizations i)) i)).

Definition create_invitation (org : OrganizationId) (creator : UserId) (hash : Digest) (expires : Z)
    : tx Uuid :=
  id ← now_v7;
  purge_cli_rows ;;
  allowed ← query (λ db, is_some_and (λ m, bool_decide (member_role m ∈ ["owner"; "admin"]))
                           (organization_memberships db !! (org, creator)));
  tx_fail_if (negb allowed) NotFound ;;
  require (λ db, negb (is_some (invitation_rows db !! id)) && is_some (users db !! creator)
    && bool_decide (org ∈ organizations db)
    && negb (is_some (find_row (λ v, bool_decide (code_hash v = hash)) (invitation_rows db)))
    && (now db <? expires) && (expires <=? now db + DAY_SECONDS)) ;;
  on_identity (λ db i, set_invitations
    (<[id := Build_InvitationRow hash creator (Some org) 1 0 expires None (now db)]> (invitations i)) i) ;;
  mret id.

Definition invitation_available (hash : Digest) (db : Db) : bool := is_some (usable_invitation hash db).

Definition use_invitation (v : InvitationRow) : InvitationRow :=
  Build_InvitationRow (code_hash v) (invited_by v) (invitation_organization v) (max_uses v) 1
    (invitation_expires_at v) (invitation_revoked_at v) (invitation_created_at v).

Definition consume_invitation (id : Uuid) : tx () :=
  on_identity (λ _ i, set_invitations (alter use_invitation id (invitations i)) i).

Section Invitations.
Context `{SqlText, SqlCollation, UuidText}.

Definition join_organization_with_invitation (user : UserId) (hash : Digest) : tx OrganizationId :=
  found ← optional InvitationUnavailable (query (λ db,
    e ← usable_invitation hash db;
    org ← invitation_organization (snd e); Some (fst e, org)));
  let '(invitation, org) := found in
  active ← query (λ db, bool_decide (user ∈ active_users db));
  tx_fail_if (negb active) NotFound ;;
  already ← query (is_member org user);
  tx_fail_if already Conflict ;;
  principal ← now_v7;
  insert_principal principal org "user" ("user-" ++ uuid_simple user)%string (Some user) (Some user) ;;
  insert_membership org user principal "member" ;;
  consume_invitation invitation ;;
  mret org.

Definition register_with_invitation (hash : Digest) (mail new_display_name password : string) (db : Db)
    : result StoreError SessionUser * Db :=
  and_then (
    found ← optional InvitationUnavailable (query (usable_invitation hash));
    org ← lift (ok_or InvitationUnavailable (invitation_organization (snd found)));
    available ← query (λ db, is_some_and (invitation_usable (now db)) (invitation_rows db !! fst found));
    tx_fail_if (negb available) InvitationUnavailable ;;
    consume_invitation (fst found) ;;
    existing ← read (lookup_user_by_email mail);
    tx_fail_if (is_some existing) AlreadyExists ;;
    user ← now_v7;
    principal ← now_v7;
    insert_user user mail new_display_name (Some password) ;;
    insert_principal principal org "user" new_display_name (Some user) (Some user) ;;
    insert_membership org user principal "member" ;;
    mret user)
    (session_user_or "registration transaction did not produce a session user") db.

(** ** Users of an OIDC issuer *)

Definition find_or_create_oidc_user (issuer subject mail new_display_name : string) (db : Db)
    : result StoreError SessionUser * Db :=
  match user_external_identities (identity db) !! (issuer, subject) with
  | Some user => (session_user_or "OIDC identity exists without a complete user membership" user db, db)
  | None =>
      and_then (
        existing ← read (lookup_user_by_email mail);
        tx_fail_if (is_some existing) AlreadyExists ;;
        user ← now_v7; org ← now_v7; principal ← now_v7;
        insert_user user mail new_display_name None ;;
        require (λ db, in_range 1 2048 (Z.of_nat (length (chars issuer)))
          && in_range 1 255 (Z.of_nat (length (chars subject)))
          && negb (is_some (user_external_identities (identity db) !! (issuer, subject)))
          && negb (existsb (λ e, String.eqb (fst (fst e)) issuer && bool_decide (snd e = user))
                     (map_to_list (user_external_identities (identity db))))) ;;
        on_identity (λ _ i, set_external (<[(issuer, subject) := user]> (user_external_identities i)) i) ;;
        insert_owner user org principal ("user-" ++ uuid_simple user)%string new_display_name
          new_display_name ;;
        mret user)
        (session_user_or "OIDC registration transaction did not produce a session user") db
  end.

End Invitations.

(** ** The device authorization of the command line *)

(** [Invariant] unless the status is one of the four of the table. *)
Definition is_device_status (s : string) : bool :=
  bool_decide (s ∈ ["pending"; "approved"; "denied"; "consumed"]).

Record CliDeviceAuthorization := {
  authorization_id : Uuid;
  authorization_organization : OrganizationId;
  authorization_slug : string;
  authorization_name : string;
  authorization_status : string;
  authorization_expires_at : Z;
}.

Inductive CliDeviceApprovalOutcome :=
  | DeviceApproved
  | DeviceNotFound
  | DeviceExpired
  | DeviceInvalidState
  | DeviceForbidden.

Inductive CliDeviceExchangeOutcome :=
  | ExchangePending
  | ExchangeSlowDown
  | ExchangeExpired
  | ExchangeDenied
  | ExchangeInvalidDeviceCode
  | ExchangeIssued (token_id : Uuid) (user : UserId) (org : OrganizationId) (expires : Z).

Definition device_by_code (hash : Digest) (db : Db) : option (Uuid * DeviceRow) :=
  find_row (λ d, bool_decide (device_code_hash d = hash)) (device_rows db).
Definition device_by_user_code (hash : Digest) (db : Db) : option (Uuid * DeviceRow) :=
  find_row (λ d, bool_decide (user_code_hash d = hash)) (device_rows db).

Definition create_cli_device_authorization (device user : Digest) (org : OrganizationId)
    (interval expires : Z) : tx Uuid :=
  id ← now_v7;
  purge_cli_rows ;;
  known ← query (λ db, bool_decide (org ∈ organizations db));
  tx_fail_if (negb known) NotFound ;;
  require (λ db, negb (is_some (device_rows db !! id)) && negb (is_some (device_by_code device db))
    && negb (is_some (device_by_user_code user db)) && in_range 1 60 interval) ;;
  on_identity (λ _ i, set_devices
    (<[id := Build_DeviceRow device user org None "pending" interval expires None None None]>
       (cli_device_authorizations i)) i) ;;
  mret id.

Definition cli_device_authorization_by_user_code (user : Digest) (db : Db)
    : result StoreError (option CliDeviceAuthorization) :=
  match device_by_user_code user db with
  | Some (id, d) =>
      match account_rows (cloud db) !! device_organization d with
      | Some a =>
          fail_if (negb (is_device_status (device_status d)))
            (Invariant "unknown CLI device authorization state") ;;
          Ok (Some (Build_CliDeviceAuthorization id (device_organization d) (slug a) (account_name a)
                      (device_status d) (device_expires_at d)))
      | None => Ok None
      end
  | None => Ok None
  end.

Definition approve_device (user : UserId) (t : Z) (d : DeviceRow) : DeviceRow :=
  Build_DeviceRow (device_code_hash d) (user_code_hash d) (device_organization d) (Some user) "approved"
    (interval_seconds d) (device_expires_at d) (last_polled_at d) (Some t) (consumed_at d).
Definition poll_device (t : Z) (d : DeviceRow) : DeviceRow :=
  Build_DeviceRow (device_code_hash d) (user_code_hash d) (device_organization d) (approved_user_id d)
    (device_status d) (interval_seconds d) (device_expires_at d) (Some t) (approved_at d) (consumed_at d).
Definition consume_device (t : Z) (d : DeviceRow) : DeviceRow :=
  Build_DeviceRow (device_code_hash d) (user_code_hash d) (device_organization d) (approved_user_id d)
    "consumed" (interval_seconds d) (device_expires_at d) (last_polled_at d) (approved_at d) (Some t).

Definition update_device (id : Uuid) (f : Z → DeviceRow → DeviceRow) : tx () :=
  on_identity (λ db i, set_devices (alter (f (now db)) id (cli_device_authorizations i)) i).

Definition approve_cli_device_authorization (code : Digest) (user : UserId)
    : tx CliDeviceApprovalOutcome :=
  found ← query (device_by_user_code code);
  match found with
  | None => mret DeviceNotFound
  | Some (id, d) =>
      t ← query now;
      if device_expires_at d <=? t then mret DeviceExpired
      else if negb (String.eqb (device_status d) "pending") then mret DeviceInvalidState
      else
        member ← query (is_member (device_organization d) user);
        if negb member then mret DeviceForbidden
        else
          require (λ db, is_some (users db !! user)) ;;
          update_device id (approve_device user) ;;
          mret DeviceApproved
  end.

(** [last + interval > now]: the device polls too fast. *)
Definition polled_too_fast (t : Z) (d : DeviceRow) : bool :=
  is_some_and (λ last, t <? last + interval_seconds d) (last_polled_at d).

(** The transaction is rolled back, and the operation still answers. *)
Definition rollback_to {A} (start : Db) (a : A) : tx A := λ _, Ok (a, start).

Definition insert_cli_token (id : Uuid) (user : UserId) (org : OrganizationId) (prefix : string)
    (hash : Digest) (expires : Z) : tx () :=
  require (λ db, negb (is_some (token_rows db !! id)) && is_some (users db !! user)
    && bool_decide (org ∈ organizations db) && (length (chars prefix) =? 16)%nat
    && negb (is_some (find_row (λ t, String.eqb (cli_prefix t) prefix
                                     || bool_decide (cli_token_hash t = hash)) (token_rows db)))) ;;
  on_identity (λ _ i, set_tokens
    (<[id := Build_CliTokenRow user org prefix hash expires None None]> (cli_access_tokens i)) i).

Definition exchange_cli_device_authorization (code : Digest) (prefix : string) (hash : Digest)
    (expires : Z) : tx CliDeviceExchangeOutcome :=
  start ← query id;
  match device_by_code code start with
  | None => mret ExchangeInvalidDeviceCode
  | Some (id, d) =>
      if device_expires_at d <=? now start then mret ExchangeExpired
      else if String.eqb (device_status d) "denied" then mret ExchangeDenied
      else if String.eqb (device_status d) "consumed" then mret ExchangeInvalidDeviceCode
      else if polled_too_fast (now start) d then mret ExchangeSlowDown
      else
        update_device id poll_device ;;
        if String.eqb (device_status d) "pending" then mret ExchangePending
        else
          tx_fail_if (negb (String.eqb (device_status d) "approved"))
            (Invariant "unknown CLI device authorization state") ;;
          user ← lift (ok_or (Invariant "approved CLI device authorization has no user")
                         (approved_user_id d));
          member ← query (is_member (device_organization d) user);
          if negb member then rollback_to start ExchangeDenied
          else
            token ← now_v7;
            insert_cli_token token user (device_organization d) prefix hash expires ;;
            update_device id consume_device ;;
            mret (ExchangeIssued token user (device_organization d) expires)
  end.

Record CliAccessTokenPrincipal := {
  cli_token_id : Uuid;
  cli_token_user : SessionUser;
  cli_token_organization : OrganizationId;
  cli_token_expires_at : Z;
}.

(** The token is good: neither revoked nor expired, of an active user who is a
    member with an enabled principal. *)
Definition token_usable (db : Db) (t : CliTokenRow) : bool :=
  negb (is_some (cli_revoked_at t)) && (now db <? cli_expires_at t)
  && bool_decide (cli_user t ∈ active_users db)
  && is_some_and (λ m, is_some_and (λ p,
        bool_decide (principal_organization_id p = cli_organization t)
        && bool_decide (user_id p = Some (cli_user t)) && enabled p)
       (principals db !! member_principal_id m))
     (organization_memberships db !! (cli_organization t, cli_user t)).

Definition cli_token_by_secret (prefix : string) (hash : Digest) (db : Db) : option (Uuid * CliTokenRow) :=
  e ← find_row (λ t, String.eqb (cli_prefix t) prefix && bool_decide (cli_token_hash t = hash))
        (token_rows db);
  if token_usable db (snd e) then Some e else None.

Definition touch_token (now : Z) (t : CliTokenRow) : CliTokenRow :=
  Build_CliTokenRow (cli_user t) (cli_organization t) (cli_prefix t) (cli_token_hash t) (cli_expires_at t)
    (Some now) (cli_revoked_at t).

Section Tokens.
Context `{SqlText, SqlCollation}.

Definition authenticate_cli_access_token (prefix : string) (hash : Digest) (db : Db)
    : result StoreError (option CliAccessTokenPrincipal) * Db :=
  match cli_token_by_secret prefix hash db with
  | None => (Ok None, db)
  | Some (id, t) =>
      let db' := set_identity (set_tokens (<[id := touch_token (now db) t]> (token_rows db))
                                 (identity db)) db in
      (user ← session_user_or "CLI token refers to a missing user" (cli_user t) db';
       Ok (Some (Build_CliAccessTokenPrincipal id user (cli_organization t) (cli_expires_at t))), db')
  end.

(** The password hash of the user with this address, for the login form. *)
Record PasswordUser := {
  password_user : User;
  stored_password_hash : string;
}.

Definition password_user_by_email (mail : string) (db : Db) : result StoreError (option PasswordUser) :=
  match find_row (λ r, String.eqb (sql_lower (email r)) (sql_lower mail) && is_some (password_hash r))
          (users db) with
  | Some (id, r) =>
      hash ← ok_or (Invariant "password user has no password hash") (password_hash r);
      u ← user_from_row id r;
      Ok (Some (Build_PasswordUser u hash))
  | None => Ok None
  end.

End Tokens.

Definition revoke_token (now : Z) (t : CliTokenRow) : CliTokenRow :=
  Build_CliTokenRow (cli_user t) (cli_organization t) (cli_prefix t) (cli_token_hash t) (cli_expires_at t)
    (cli_last_used_at t) (Some now).

Definition revoke_cli_access_token (id : Uuid) : tx () :=
  on_identity (λ db i, set_tokens
    (alter (λ t, if is_some (cli_revoked_at t) then t else revoke_token (now db) t) id
       (cli_access_tokens i)) i).
