(* ===== verification/Access.v ===== *)
(** * IAM in the store: policies, groups, keys, roles and sessions

    The operations of [heterocloud-store/src/lib.rs], [iam_groups.rs],
    [iam_roles.rs] and [workload_identity.rs] on the tables of IAM: what is
    attached to a principal, which credentials stand for it, and the context of
    an authorization that is read from there. *)
From S2P Require Import Prelude Text Json Policy Iam Quota Store Usage Prepare Services FlowAccess Cloud Identity.

(** ** Tables *)

Definition set_iam_policies x (a : AccessTables) : AccessTables :=
  Build_AccessTables x (iam_bindings a) (iam_groups a) (iam_group_members a)
    (iam_group_policy_attachments a) (api_keys a) (iam_roles a) (iam_role_sessions a)
    (identity_center_permission_sets a) (identity_center_groups a)
    (identity_center_group_members a) (identity_center_account_roles a)
    (identity_center_assignments a) (activation a).
Definition set_bindings x (a : AccessTables) : AccessTables :=
  Build_AccessTables (iam_policies a) x (iam_groups a) (iam_group_members a)
    (iam_group_policy_attachments a) (api_keys a) (iam_roles a) (iam_role_sessions a)
    (identity_center_permission_sets a) (identity_center_groups a)
    (identity_center_group_members a) (identity_center_account_roles a)
    (identity_center_assignments a) (activation a).
Definition set_groups x (a : AccessTables) : AccessTables :=
  Build_AccessTables (iam_policies a) (iam_bindings a) x (iam_group_members a)
    (iam_group_policy_attachments a) (api_keys a) (iam_roles a) (iam_role_sessions a)
    (identity_center_permission_sets a) (identity_center_groups a)
    (identity_center_group_members a) (identity_center_account_roles a)
    (identity_center_assignments a) (activation a).
Definition set_group_members x (a : AccessTables) : AccessTables :=
  Build_AccessTables (iam_policies a) (iam_bindings a) (iam_groups a) x
    (iam_group_policy_attachments a) (api_keys a) (iam_roles a) (iam_role_sessions a)
    (identity_center_permission_sets a) (identity_center_groups a)
    (identity_center_group_members a) (identity_center_account_roles a)
    (identity_center_assignments a) (activation a).
Definition set_group_policies x (a : AccessTables) : AccessTables :=
  Build_AccessTables (iam_policies a) (iam_bindings a) (iam_groups a) (iam_group_members a) x
    (api_keys a) (iam_roles a) (iam_role_sessions a) (identity_center_permission_sets a)
    (identity_center_groups a) (identity_center_group_members a) (identity_center_account_roles
    a) (identity_center_assignments a) (activation a).
Definition set_api_keys x (a : AccessTables) : AccessTables :=
  Build_AccessTables (iam_policies a) (iam_bindings a) (iam_groups a) (iam_group_members a)
    (iam_group_policy_attachments a) x (iam_roles a) (iam_role_sessions a)
    (identity_center_permission_sets a) (identity_center_groups a)
    (identity_center_group_members a) (identity_center_account_roles a)
    (identity_center_assignments a) (activation a).
Definition set_roles x (a : AccessTables) : AccessTables :=
  Build_AccessTables (iam_policies a) (iam_bindings a) (iam_groups a) (iam_group_members a)
    (iam_group_policy_attachments a) (api_keys a) x (iam_role_sessions a)
    (identity_center_permission_sets a) (identity_center_groups a)
    (identity_center_group_members a) (identity_center_account_roles a)
    (identity_center_assignments a) (activation a).
Definition set_role_sessions x (a : AccessTables) : AccessTables :=
  Build_AccessTables (iam_policies a) (iam_bindings a) (iam_groups a) (iam_group_members a)
    (iam_group_policy_attachments a) (api_keys a) (iam_roles a) x
    (identity_center_permission_sets a) (identity_center_groups a)
    (identity_center_group_members a) (identity_center_account_roles a)
    (identity_center_assignments a) (activation a).
Definition set_permission_sets x (a : AccessTables) : AccessTables :=
  Build_AccessTables (iam_policies a) (iam_bindings a) (iam_groups a) (iam_group_members a)
    (iam_group_policy_attachments a) (api_keys a) (iam_roles a) (iam_role_sessions a) x
    (identity_center_groups a) (identity_center_group_members a) (identity_center_account_roles
    a) (identity_center_assignments a) (activation a).
Definition set_center_groups x (a : AccessTables) : AccessTables :=
  Build_AccessTables (iam_policies a) (iam_bindings a) (iam_groups a) (iam_group_members a)
    (iam_group_policy_attachments a) (api_keys a) (iam_roles a) (iam_role_sessions a)
    (identity_center_permission_sets a) x (identity_center_group_members a)
    (identity_center_account_roles a) (identity_center_assignments a) (activation a).
Definition set_center_members x (a : AccessTables) : AccessTables :=
  Build_AccessTables (iam_policies a) (iam_bindings a) (iam_groups a) (iam_group_members a)
    (iam_group_policy_attachments a) (api_keys a) (iam_roles a) (iam_role_sessions a)
    (identity_center_permission_sets a) (identity_center_groups a) x
    (identity_center_account_roles a) (identity_center_assignments a) (activation a).
Definition set_account_roles x (a : AccessTables) : AccessTables :=
  Build_AccessTables (iam_policies a) (iam_bindings a) (iam_groups a) (iam_group_members a)
    (iam_group_policy_attachments a) (api_keys a) (iam_roles a) (iam_role_sessions a)
    (identity_center_permission_sets a) (identity_center_groups a)
    (identity_center_group_members a) x (identity_center_assignments a) (activation a).
Definition set_assignments x (a : AccessTables) : AccessTables :=
  Build_AccessTables (iam_policies a) (iam_bindings a) (iam_groups a) (iam_group_members a)
    (iam_group_policy_attachments a) (api_keys a) (iam_roles a) (iam_role_sessions a)
    (identity_center_permission_sets a) (identity_center_groups a)
    (identity_center_group_members a) (identity_center_account_roles a) x (activation a).

Definition set_activation x (a : AccessTables) : AccessTables :=
  Build_AccessTables (iam_policies a) (iam_bindings a) (iam_groups a) (iam_group_members a)
    (iam_group_policy_attachments a) (api_keys a) (iam_roles a) (iam_role_sessions a)
    (identity_center_permission_sets a) (identity_center_groups a)
    (identity_center_group_members a) (identity_center_account_roles a) (identity_center_assignments a) x.

Definition on_access (f : Db → AccessTables → AccessTables) : tx () :=
  statement (λ db, set_access (f db (access db)) db).

Definition policy_rows (db : Db) := iam_policies (access db).
Definition binding_rows (db : Db) := iam_bindings (access db).
Definition group_rows (db : Db) := iam_groups (access db).
Definition key_rows (db : Db) := api_keys (access db).
Definition role_rows (db : Db) := iam_roles (access db).
Definition role_session_rows (db : Db) := iam_role_sessions (access db).

(** [EXISTS (SELECT 1 FROM table WHERE ...)]. *)
Definition exists_row {A} (p : Uuid → A → bool) (m : gmap Uuid A) : bool :=
  existsb (λ e, p (fst e) (snd e)) (map_to_list m).

(** [EXISTS (SELECT 1 FROM iam_roles WHERE ...)], and the same for the roles of
    the identity center. *)
Definition is_role_principal (principal : PrincipalId) (db : Db) : bool :=
  is_some (role_rows db !! principal).
Definition is_iam_role_principal (account : OrganizationId) (principal : PrincipalId) (db : Db) : bool :=
  is_some_and (λ r, bool_decide (role_organization r = account)) (role_rows db !! principal).
Definition is_identity_center_role (account : OrganizationId) (principal : PrincipalId) (db : Db) : bool :=
  existsb (λ e, bool_decide (snd (fst e) = account)
                && bool_decide (account_role_principal (snd e) = principal))
    (map_to_list (identity_center_account_roles (access db))).

(** The principal of an account. *)
Definition principal_of (account : OrganizationId) (principal : PrincipalId) (db : Db) : option PrincipalRow :=
  p ← principals db !! principal;
  if bool_decide (principal_organization_id p = account) then Some p else None.
Definition policy_of (account : OrganizationId) (policy : Uuid) (db : Db) : option PolicyRow :=
  p ← policy_rows db !! policy;
  if bool_decide (policy_organization p = account) then Some p else None.
Definition group_of (account : OrganizationId) (group : Uuid) (db : Db) : option GroupRow :=
  g ← group_rows db !! group;
  if bool_decide (group_organization g = account) then Some g else None.

(** ** Policies and bindings *)

Definition insert_iam_policy (id : Uuid) (row : PolicyRow) : tx () :=
  require (λ db, negb (is_some (policy_rows db !! id))
    && bool_decide (policy_organization row ∈ organizations db) && valid_name_column (policy_name row)
    && (length (chars (semantics_digest row)) =? 64)%nat
    && negb (exists_row (λ _ p, bool_decide (policy_organization p = policy_organization row)
                                && String.eqb (policy_name p) (policy_name row)) (policy_rows db))) ;;
  on_access (λ _ a, set_iam_policies (<[id := row]> (iam_policies a)) a).

Definition insert_binding (id : Uuid) (row : BindingRow) : tx () :=
  require (λ db, negb (is_some (binding_rows db !! id))
    && bool_decide (binding_organization row ∈ organizations db)
    && is_some (principals db !! binding_principal row) && is_some (policy_rows db !! binding_policy row)
    && negb (exists_row (λ _ b, bool_decide (binding_organization b = binding_organization row)
                                && bool_decide (binding_principal b = binding_principal row)
                                && bool_decide (binding_policy b = binding_policy row)) (binding_rows db))) ;;
  on_access (λ _ a, set_bindings (<[id := row]> (iam_bindings a)) a).

Definition create_binding (org : OrganizationId) (principal : PrincipalId) (policy : Uuid) : tx Uuid :=
  id ← now_v7;
  found ← query (λ db, is_some (principal_of org principal db) && is_some (policy_of org policy db)
                       && negb (is_identity_center_role org principal db));
  tx_fail_if (negb found) NotFound ;;
  insert_binding id (Build_BindingRow org principal policy) ;;
  mret id.

Definition delete_binding (org : OrganizationId) (id : Uuid) : tx () :=
  found ← query (λ db, is_some_and (λ b, bool_decide (binding_organization b = org)
    && negb (is_identity_center_role org (binding_principal b) db)) (binding_rows db !! id));
  tx_fail_if (negb found) NotFound ;;
  on_access (λ _ a, set_bindings (delete id (iam_bindings a)) a).

(** The policies bound to a principal, or attached to a group it is in. *)
Definition attached_policy (org : OrganizationId) (principal : PrincipalId) (db : Db) (id : Uuid)
    (p : PolicyRow) : bool :=
  bool_decide (policy_organization p = org)
  && (exists_row (λ _ b, bool_decide (binding_organization b = org)
                         && bool_decide (binding_principal b = principal)
                         && bool_decide (binding_policy b = id)) (binding_rows db)
      || exists_row (λ g row, bool_decide (group_organization row = org)
                              && bool_decide ((g, principal) ∈ iam_group_members (access db))
                              && bool_decide ((g, id) ∈ iam_group_policy_attachments (access db)))
           (group_rows db)).

Section Contexts.
Context `{Serde PolicyDocument}.

Definition create_policy (org : OrganizationId) (name : string) (document : PolicyDocument)
    (digest : string) (db : Db) : result StoreError Uuid * Db :=
  and_then (id ← now_v7;
            insert_iam_policy id (Build_PolicyRow org name (to_value document) digest) ;;
            mret id)
    (λ id _, _ ← ok_or JsonError (from_value (A := PolicyDocument) (to_value document)); Ok id) db.

Definition attached_documents (org : OrganizationId) (principal : PrincipalId) (db : Db)
    : result StoreError (list PolicyDocument) :=
  collect (λ e, ok_or JsonError (from_value (policy_document (snd e))))
    (order_by_id (filter (λ e, attached_policy org principal db (fst e) (snd e) = true)
                    (map_to_list (policy_rows db)))).

Definition permissions_boundary_of (account : OrganizationId) (principal : PrincipalId) (db : Db)
    : result StoreError (option PolicyDocument) :=
  match p ← principal_of account principal db;
        b ← permissions_boundary_policy_id p;
        policy_of account b db with
  | Some row => d ← ok_or JsonError (from_value (policy_document row)); Ok (Some d)
  | None => Ok None
  end.

Definition read_context (org : OrganizationId) (principal : PrincipalId) (as_role : string) (db : Db)
    : result StoreError AuthorizationContext :=
  ps ← attached_documents org principal db;
  boundary ← permissions_boundary_of org principal db;
  Ok (Build_AuthorizationContext principal as_role ps boundary).

(** The membership of an active user whose principal is enabled. *)
Definition active_membership (user : UserId) (org : OrganizationId) (db : Db) : option MembershipRow :=
  m ← organization_memberships db !! (org, user);
  p ← principal_of org (member_principal_id m) db;
  if bool_decide (user_id p = Some user) && enabled p && bool_decide (user ∈ active_users db)
  then Some m else None.

Definition authorization_context (user : UserId) (org : OrganizationId) (db : Db)
    : result StoreError (option AuthorizationContext) :=
  match active_membership user org db with
  | None => Ok None
  | Some m => c ← read_context org (member_principal_id m) (member_role m) db; Ok (Some c)
  end.

(** An enabled principal of the account, of an active user if it has one. *)
Definition usable_principal (principal : PrincipalId) (org : OrganizationId) (db : Db) : bool :=
  is_some_and (λ p, enabled p && match user_id p with
                                 | Some u => bool_decide (u ∈ active_users db)
                                 | None => true
                                 end) (principal_of org principal db).

Definition authorization_context_for_principal (principal : PrincipalId) (org : OrganizationId) (db : Db)
    : result StoreError (option AuthorizationContext) :=
  if negb (usable_principal principal org db) then Ok None
  else c ← read_context org principal "service_account" db; Ok (Some c).

End Contexts.

(** ** Boundaries, service accounts and groups *)

Definition set_boundary (policy : option Uuid) (p : PrincipalRow) : PrincipalRow :=
  Build_PrincipalRow (principal_organization_id p) (kind p) (principal_name p) (user_id p)
    (principal_quota_user_id p) (enabled p) policy.
Definition set_enabled (b : bool) (p : PrincipalRow) : PrincipalRow :=
  Build_PrincipalRow (principal_organization_id p) (kind p) (principal_name p) (user_id p)
    (principal_quota_user_id p) b (permissions_boundary_policy_id p).

Definition update_principal (id : PrincipalId) (f : PrincipalRow → PrincipalRow) : tx () :=
  statement (λ db, set_principals (alter f id (principals db)) db).

Definition set_permissions_boundary (account : OrganizationId) (principal : PrincipalId)
    (policy : option Uuid) : tx () :=
  found ← query (λ db, is_some (principal_of account principal db)
    && negb (is_identity_center_role account principal db)
    && match policy with Some id => is_some (policy_of account id db) | None => true end);
  tx_fail_if (negb found) NotFound ;;
  update_principal principal (set_boundary policy).

Definition create_service_account_owned (org : OrganizationId) (name : string)
    (quota_user : option UserId) : tx PrincipalId :=
  id ← now_v7;
  allowed ← query (λ db, match quota_user with Some u => is_member org u db | None => true end);
  tx_fail_if (negb allowed) NotFound ;;
  insert_principal id org "service_account" name None quota_user ;;
  mret id.

Definition create_iam_group (account : OrganizationId) (name : string) : tx Uuid :=
  id ← now_v7;
  require (λ db, negb (is_some (group_rows db !! id)) && bool_decide (account ∈ organizations db)
    && valid_name_column name
    && negb (exists_row (λ _ g, bool_decide (group_organization g = account)
                                && String.eqb (group_name g) name) (group_rows db))) ;;
  on_access (λ _ a, set_groups (<[id := Build_GroupRow account name]> (iam_groups a)) a) ;;
  mret id.

Definition group_in_use (group : Uuid) (db : Db) : bool :=
  existsb (λ e, bool_decide (fst e = group)) (elements (iam_group_members (access db)))
  || existsb (λ e, bool_decide (fst e = group)) (elements (iam_group_policy_attachments (access db))).

Definition delete_iam_group (account : OrganizationId) (group : Uuid) : tx () :=
  _ ← optional NotFound (query (group_of account group));
  attached ← query (group_in_use group);
  tx_fail_if attached (RequestRejected "Remove group users and policies before deleting the group.") ;;
  on_access (λ _ a, set_groups (delete group (iam_groups a)) a).

(** One row is added or removed, or the answer is [NotFound]; a pair that is
    there already is not added again (ON CONFLICT DO NOTHING). *)
Definition change_iam_group_member (account : OrganizationId) (group principal : Uuid) (add : bool) : tx () :=
  found ← query (λ db,
    let present := bool_decide ((group, principal) ∈ iam_group_members (access db)) in
    is_some (group_of account group db)
    && (if add then is_some_and (λ p, String.eqb (kind p) "user" && enabled p)
                      (principal_of account principal db) && negb present
        else present));
  tx_fail_if (negb found) NotFound ;;
  on_access (λ _ a, set_group_members
    (if add then {[(group, principal)]} ∪ iam_group_members a
     else iam_group_members a ∖ {[(group, principal)]}) a).

Definition change_iam_group_policy (account : OrganizationId) (group policy : Uuid) (attach : bool) : tx () :=
  found ← query (λ db,
    let present := bool_decide ((group, policy) ∈ iam_group_policy_attachments (access db)) in
    is_some (group_of account group db)
    && (if attach then is_some (policy_of account policy db) && negb present else present));
  tx_fail_if (negb found) NotFound ;;
  on_access (λ _ a, set_group_policies
    (if attach then {[(group, policy)]} ∪ iam_group_policy_attachments a
     else iam_group_policy_attachments a ∖ {[(group, policy)]}) a).

(** ** API keys *)

Definition create_api_key (org : OrganizationId) (principal : PrincipalId) (name prefix : string)
    (hash : Digest) (expires : option Z) : tx Uuid :=
  id ← now_v7;
  allowed ← query (λ db, is_some_and (λ p, String.eqb (kind p) "service_account" && enabled p)
                           (principal_of org principal db) && negb (is_role_principal principal db));
  tx_fail_if (negb allowed) NotFound ;;
  require (λ db, negb (is_some (key_rows db !! id)) && bool_decide (org ∈ organizations db)
    && valid_name_column name
    && negb (exists_row (λ _ k, String.eqb (key_prefix k) prefix
                                || bool_decide (key_organization k = org)
                                   && bool_decide (key_principal k = principal)
                                   && String.eqb (key_name k) name) (key_rows db))) ;;
  on_access (λ _ a, set_api_keys
    (<[id := Build_ApiKeyRow org principal name prefix hash expires None None]> (api_keys a)) a) ;;
  mret id.

Record ApiKeyPrincipal := {
  api_key_id : Uuid;
  api_key_organization : OrganizationId;
  api_key_principal : PrincipalId;
}.

Definition key_usable (db : Db) (k : ApiKeyRow) : bool :=
  negb (is_some (key_revoked_at k))
  && match key_expires_at k with Some t => now db <? t | None => true end
  && is_some_and enabled (principal_of (key_organization k) (key_principal k) db).

Definition key_by_secret (prefix : string) (hash : Digest) (db : Db) : option (Uuid * ApiKeyRow) :=
  e ← find_row (λ k, String.eqb (key_prefix k) prefix && bool_decide (key_secret_hash k = hash)) (key_rows db);
  if key_usable db (snd e) then Some e else None.

Definition touch_key (t : Z) (k : ApiKeyRow) : ApiKeyRow :=
  Build_ApiKeyRow (key_organization k) (key_principal k) (key_name k) (key_prefix k) (key_secret_hash k)
    (key_expires_at k) (Some t) (key_revoked_at k).
Definition revoke_key (t : Z) (k : ApiKeyRow) : ApiKeyRow :=
  Build_ApiKeyRow (key_organization k) (key_principal k) (key_name k) (key_prefix k) (key_secret_hash k)
    (key_expires_at k) (key_last_used_at k) (Some (default t (key_revoked_at k))).

Definition authenticate_api_key (prefix : string) (hash : Digest) : tx (option ApiKeyPrincipal) :=
  found ← query (key_by_secret prefix hash);
  match found with
  | None => mret None
  | Some (id, k) =>
      on_access (λ db a, set_api_keys (alter (touch_key (now db)) id (api_keys a)) a) ;;
      mret (Some (Build_ApiKeyPrincipal id (key_organization k) (key_principal k)))
  end.

Definition revoke_iam_api_key (org : OrganizationId) (principal : PrincipalId) (id : Uuid) : tx () :=
  found ← query (λ db, is_some_and (λ k, bool_decide (key_organization k = org)
                                         && bool_decide (key_principal k = principal)) (key_rows db !! id));
  tx_fail_if (negb found) NotFound ;;
  on_access (λ db a, set_api_keys (alter (revoke_key (now db)) id (api_keys a)) a).

(** ** Roles *)

Definition role_arn (number : Z) (name : string) : string :=
  ("arn:aws:iam::" ++ int_to_string number ++ ":role/" ++ name)%string.

Record IamRole := {
  iam_role_principal : PrincipalId;
  iam_role_organization : OrganizationId;
  iam_role_name : string;
  iam_role_arn : string;
  iam_role_trust : Value;
  iam_role_max_session : Z;
  managed_by_identity_center : bool;
}.

(** [ROLE_SELECT]. *)
Definition role_select (db : Db) (e : Uuid * RoleRow) : option IamRole :=
  a ← account_rows (cloud db) !! role_organization (snd e);
  let r := snd e in
  Some (Build_IamRole (fst e) (role_organization r) (role_name r) (role_arn (account_number a) (role_name r))
          (trust_policy r) (max_session_seconds r)
          (is_identity_center_role (role_organization r) (fst e) db)).

Definition insert_role (principal : PrincipalId) (row : RoleRow) : tx () :=
  require (λ db, negb (is_some (role_rows db !! principal))
    && is_some (principal_of (role_organization row) principal db)
    && in_range 1 64 (Z.of_nat (length (chars (role_name row))))
    && in_range 3600 43200 (max_session_seconds row)
    && negb (exists_row (λ _ r, bool_decide (role_organization r = role_organization row)
                                && String.eqb (role_name r) (role_name row)) (role_rows db))) ;;
  on_access (λ _ a, set_roles (<[principal := row]> (iam_roles a)) a).

Definition create_iam_role (account : OrganizationId) (name : string) (trust : Value) (max_seconds : Z)
    (quota_user : option UserId) : tx IamRole :=
  principal ← now_v7;
  allowed ← query (λ db, match quota_user with Some u => is_member account u db | None => true end);
  tx_fail_if (negb allowed) NotFound ;;
  insert_principal principal account "service_account" name None quota_user ;;
  insert_role principal (Build_RoleRow account name trust max_seconds) ;;
  optional Sql (query (λ db,
    r ← role_rows db !! principal;
    if bool_decide (role_organization r = account) then role_select db (principal, r) else None)).

Definition find_iam_role (number name : string) (db : Db) : option IamRole :=
  head (filter (λ r, is_some_and (λ a, String.eqb (int_to_string (account_number a)) number)
                       (account_rows (cloud db) !! iam_role_organization r) && String.eqb (iam_role_name r) name = true)
          (omap (role_select db) (map_to_list (role_rows db)))).

Definition set_trust (trust : Value) (r : RoleRow) : RoleRow :=
  Build_RoleRow (role_organization r) (role_name r) trust (max_session_seconds r).

Definition update_iam_role_trust (account : OrganizationId) (principal : PrincipalId) (trust : Value) : tx () :=
  found ← query (λ db, is_iam_role_principal account principal db
                       && negb (is_identity_center_role account principal db));
  tx_fail_if (negb found) NotFound ;;
  on_access (λ _ a, set_roles (alter (set_trust trust) principal (iam_roles a)) a).

(** ** Role sessions *)

Definition role_session_live (t : Z) (s : RoleSessionRow) : bool :=
  negb (is_some (role_session_revoked_at s)) && (t <? role_session_expires_at s).

(** [identity_center_session_is_active]: the assignment the session was opened
    with is in force at the generation it had then, the user is active and has
    the memberships of then, and, for an assignment to a group, is still the
    same member of it. *)
Definition membership_is (org : OrganizationId) (user : UserId) (principal membership : option Uuid) (db : Db) : bool :=
  is_some_and (λ m, bool_decide (Some (member_principal_id m) = principal)
    && bool_decide (Some (identity_center_membership_id m) = membership)
    && is_some_and enabled (principal_of org (member_principal_id m) db))
    (organization_memberships db !! (org, user)).

Definition subject_is (a : AssignmentRow) (g : CenterGrant) (db : Db) : bool :=
  String.eqb (subject_type a) "user" && bool_decide (subject_id a = grant_user g)
    && negb (is_some (grant_group_membership g))
  || String.eqb (subject_type a) "group"
    && is_some_and (λ group, bool_decide (center_group_organization group = assignment_organization a)
         && negb (is_some (center_group_deleted_at group)))
       (identity_center_groups (access db) !! subject_id a)
    && is_some_and (λ member, bool_decide (center_member_group member = subject_id a)
         && bool_decide (center_member_user member = grant_user g))
       (mid ← grant_group_membership g; identity_center_group_members (access db) !! mid).

Definition grant_active (s : RoleSessionRow) (g : CenterGrant) (db : Db) : bool :=
  is_some_and (λ a,
    negb (is_some (assignment_revoked_at a)) && (assignment_generation a =? grant_generation g)
    && bool_decide (assignment_account a = role_session_organization s)
    && bool_decide (assignment_role a = role_session_role s)
    && is_some_and (λ ps, bool_decide (set_organization ps = assignment_organization a)
         && negb (is_some (set_deleted_at ps)))
       (identity_center_permission_sets (access db) !! assignment_set a)
    && is_some_and (λ management, bool_decide (source_organization s = management)
         && membership_is management (grant_user g) (Some (source_principal s)) (grant_source_membership g) db)
       (cloud_management_accounts db !! assignment_organization a)
    && bool_decide (grant_user g ∈ active_users db)
    && membership_is (assignment_account a) (grant_user g) (grant_target_principal g)
         (grant_target_membership g) db
    && subject_is a g db)
  (identity_center_assignments (access db) !! grant_assignment g).

Definition identity_center_session_is_active (s : RoleSessionRow) (db : Db) : bool :=
  match role_session_grant s with Some g => grant_active s g db | None => true end.

Definition MAX_ROLE_SESSIONS : Z := 1000.

(** A session no browser session refers to. *)
Definition unreferenced (id : Uuid) (db : Db) : bool :=
  negb (exists_row (λ _ s, bool_decide (active_role_session_id s = Some id)) (session_rows db)).

(** Sessions of the role that ended more than a week ago. *)
Definition prune_role_sessions (role : PrincipalId) : tx () :=
  on_access (λ db a, set_role_sessions
    (filter (λ e, ¬ (role_session_role (snd e) = role
                     ∧ (role_session_expires_at (snd e) < now db - WEEK_SECONDS
                        ∨ is_some_and (λ t, t <? now db - WEEK_SECONDS) (role_session_revoked_at (snd e)) = true)
                     ∧ unreferenced (fst e) db = true)) (iam_role_sessions a)) a).

Definition live_role_sessions (role : PrincipalId) (db : Db) : Z :=
  Z.of_nat (size (filter (λ e, role_session_role (snd e) = role
                               ∧ role_session_live (now db) (snd e) = true) (role_session_rows db))).

Definition insert_role_session (id : Uuid) (row : RoleSessionRow) : tx () :=
  require (λ db, negb (is_some (role_session_rows db !! id))
    && is_iam_role_principal (role_session_organization row) (role_session_role row) db
    && in_range 2 64 (Z.of_nat (length (chars (role_session_name row))))
    && negb (is_some (find_row (λ s, bool_decide (role_session_hash s = role_session_hash row))
                        (role_session_rows db)))) ;;
  on_access (λ _ a, set_role_sessions (<[id := row]> (iam_role_sessions a)) a).

Record NewIamRoleSession := {
  new_session_organization : OrganizationId;
  new_session_role : PrincipalId;
  new_source_organization : OrganizationId;
  new_source_principal : PrincipalId;
  new_source_arn : string;
  new_session_name : string;
  new_session_policy : option PolicyDocument;
  new_session_hash : Digest;
  new_session_expires_at : Z;
  new_duration_seconds : Z;
  expected_trust_policy : Value;
}.

(** A role session as it was authenticated. *)
Record IamRoleSession := {
  session_id : Uuid;
  session_organization : OrganizationId;
  session_principal : PrincipalId;
  session_source_organization : OrganizationId;
  session_source_principal : PrincipalId;
  session_source_arn : string;
  session_name : string;
  session_ends_at : Z;
  session_policy : option PolicyDocument;
  session_center_user : option UserId;
}.

Section RoleSessions.
Context `{Serde PolicyDocument}.

Definition create_iam_role_session (s : NewIamRoleSession) : tx Uuid :=
  let account := new_session_organization s in
  let role := new_session_role s in
  r ← optional NotFound (query (λ db,
    r ← role_rows db !! role;
    p ← principal_of account role db;
    if bool_decide (role_organization r = account) && enabled p then Some r else None));
  tx_fail_if (negb (value_eqb (trust_policy r) (expected_trust_policy s))) Conflict ;;
  tx_fail_if (max_session_seconds r <? new_duration_seconds s)
    (RequestRejected "Session duration exceeds the role maximum.") ;;
  prune_role_sessions role ;;
  live ← query (live_role_sessions role);
  tx_fail_if (MAX_ROLE_SESSIONS <=? live) (RequestRejected "Too many active role sessions.") ;;
  id ← now_v7;
  insert_role_session id (Build_RoleSessionRow account role (new_source_organization s)
    (new_source_principal s) (new_source_arn s) (new_session_name s)
    (to_value <$> new_session_policy s) (new_session_hash s) (new_session_expires_at s) None None) ;;
  mret id.

Definition role_session_from_row (id : Uuid) (s : RoleSessionRow) : result StoreError IamRoleSession :=
  policy ← match role_session_policy s with
           | Some v => d ← ok_or JsonError (from_value v); Ok (Some d)
           | None => Ok None
           end;
  Ok (Build_IamRoleSession id (role_session_organization s) (role_session_role s) (source_organization s)
        (source_principal s) (source_arn s) (role_session_name s) (role_session_expires_at s) policy
        (grant_user <$> role_session_grant s)).

Definition role_session_usable (db : Db) (s : RoleSessionRow) : bool :=
  role_session_live (now db) s
  && is_some_and enabled (principal_of (role_session_organization s) (role_session_role s) db)
  && identity_center_session_is_active s db.

Definition usable_role_session (db : Db) (e : Uuid * RoleSessionRow)
    : result StoreError (option IamRoleSession) :=
  if role_session_usable db (snd e)
  then s ← role_session_from_row (fst e) (snd e); Ok (Some s) else Ok None.

Definition authenticate_iam_role_session (hash : Digest) (db : Db) : result StoreError (option IamRoleSession) :=
  match find_row (λ s, bool_decide (role_session_hash s = hash)) (role_session_rows db) with
  | Some e => usable_role_session db e
  | None => Ok None
  end.

Definition authenticate_browser_role_session (id : Uuid) (db : Db)
    : result StoreError (option IamRoleSession) :=
  match role_session_rows db !! id with
  | Some s => usable_role_session db (id, s)
  | None => Ok None
  end.

End RoleSessions.

Definition revoke_role_session (t : Z) (s : RoleSessionRow) : RoleSessionRow :=
  Build_RoleSessionRow (role_session_organization s) (role_session_role s) (source_organization s)
    (source_principal s) (source_arn s) (role_session_name s) (role_session_policy s) (role_session_hash s)
    (role_session_expires_at s) (Some (default t (role_session_revoked_at s))) (role_session_grant s).

Definition alter_role_session (id : Uuid) : tx () :=
  on_access (λ db a, set_role_sessions (alter (revoke_role_session (now db)) id (iam_role_sessions a)) a).

Definition revoke_iam_role_session (account : OrganizationId) (role : PrincipalId) (session : Uuid) : tx () :=
  found ← query (λ db, is_some_and (λ s, bool_decide (role_session_organization s = account)
    && bool_decide (role_session_role s = role) && negb (is_some (role_session_revoked_at s)))
    (role_session_rows db !! session));
  tx_fail_if (negb found) NotFound ;;
  alter_role_session session.

(** ** The role of a browser session *)

Definition set_active_role (r : option Uuid) (s : SessionRow) : SessionRow :=
  Build_SessionRow (session_user_id s) (session_token_hash s) (session_expires_at s) (last_seen_at s) r.

Definition browser_session (hash : Digest) (db : Db) : option (Uuid * SessionRow) :=
  e ← find_row (λ s, bool_decide (session_token_hash s = hash)) (session_rows db);
  if now db <? session_expires_at (snd e) then Some e else None.

(** The role session lives and its role is enabled. *)
Definition role_session_open (id : Uuid) (db : Db) : bool :=
  is_some_and (λ s, role_session_live (now db) s
    && is_some_and enabled (principal_of (role_session_organization s) (role_session_role s) db))
    (role_session_rows db !! id).

Definition update_session (id : Uuid) (f : SessionRow → SessionRow) : tx () :=
  on_identity (λ _ i, set_sessions (alter f id (sessions i)) i).

Definition switch_browser_role (hash : Digest) (expected : option Uuid) (new_session : Uuid) : tx () :=
  id ← optional Conflict (query (λ db,
    e ← browser_session hash db;
    if bool_decide (active_role_session_id (snd e) = expected)
       && match expected with Some previous => role_session_open previous db | None => true end
       && role_session_open new_session db
    then Some (fst e) else None));
  require (λ db, negb (exists_row (λ i s, negb (bool_decide (i = id))
                                          && bool_decide (active_role_session_id s = Some new_session))
                         (session_rows db))) ;;
  update_session id (set_active_role (Some new_session)) ;;
  match expected with Some previous => alter_role_session previous | None => mret () end.

Definition clear_browser_role (hash : Digest) : tx () :=
  e ← optional NotFound (query (browser_session hash));
  update_session (fst e) (set_active_role None) ;;
  match active_role_session_id (snd e) with Some id => alter_role_session id | None => mret () end.

Record BrowserRoleSession := {
  browser_role_session : Uuid;
  browser_role_organization : OrganizationId;
  browser_account_number : string;
  browser_account_name : string;
  browser_role_principal : PrincipalId;
  browser_role_arn : string;
  browser_session_name : string;
  browser_expires_at : Z;
  browser_role_is_active : bool;
}.

Definition browser_active_role (hash : Digest) (db : Db) : option BrowserRoleSession :=
  e ← browser_session hash db;
  id ← active_role_session_id (snd e);
  s ← role_session_rows db !! id;
  r ← role_rows db !! role_session_role s;
  p ← principal_of (role_session_organization s) (role_session_role s) db;
  a ← account_rows (cloud db) !! role_session_organization s;
  if bool_decide (role_organization r = role_session_organization s) then
    Some (Build_BrowserRoleSession id (role_session_organization s) (int_to_string (account_number a))
      (account_name a) (role_session_role s) (role_arn (account_number a) (role_name r))
      (role_session_name s) (role_session_expires_at s)
      (role_session_live (now db) s && enabled p && identity_center_session_is_active s db))
  else None.

(** ** Removal of a role *)

Definition bound_principal (account : OrganizationId) (principal : PrincipalId) (db : Db) : bool :=
  exists_row (λ _ b, bool_decide (binding_organization b = account)
                     && bool_decide (binding_principal b = principal)) (binding_rows db).

(** A session of the role that lives, or that a browser session refers to. *)
Definition role_in_session (account : OrganizationId) (role : PrincipalId) (db : Db) : bool :=
  exists_row (λ id s, bool_decide (role_session_organization s = account)
                      && bool_decide (role_session_role s = role)
                      && (role_session_live (now db) s || negb (unreferenced id db))) (role_session_rows db).

Definition map_grant (f : CenterGrant → CenterGrant) (s : RoleSessionRow) : RoleSessionRow :=
  Build_RoleSessionRow (role_session_organization s) (role_session_role s) (source_organization s)
    (source_principal s) (source_arn s) (role_session_name s) (role_session_policy s)
    (role_session_hash s) (role_session_expires_at s) (role_session_revoked_at s)
    (f <$> role_session_grant s).

(** A reference that becomes NULL with the row it refers to. *)
Definition forget_reference (gone : Uuid → bool) (r : option Uuid) : option Uuid :=
  id ← r; if gone id then None else Some id.

Definition forget_target (principal : PrincipalId) : RoleSessionRow → RoleSessionRow :=
  map_grant (λ g, Build_CenterGrant (grant_assignment g) (grant_generation g) (grant_user g)
    (grant_group_membership g) (forget_reference (λ id, bool_decide (id = principal)) (grant_target_principal g))
    (grant_source_membership g) (grant_target_membership g)).

Definition forget_requester (principal : PrincipalId) (r : GpuRequestRow) : GpuRequestRow :=
  if bool_decide (requested_by_principal_id r = Some principal)
  then Build_GpuRequestRow (request_gpu_type r) None (requested_by_user_id r) else r.

Definition forget_audited (principal : PrincipalId) (r : AuditRow) : AuditRow :=
  if bool_decide (audit_principal_id r = Some principal)
  then Build_AuditRow (audit_organization_id r) None (audit_user_id r) (audit_request_id r) (audit_action r)
         (audit_resource r) (audit_decision r) (audit_reason r) (audit_metadata r)
  else r.

(** DELETE FROM principals, with the rows that go or forget the principal.  A
    role is a service account, so that no membership goes with it. *)
Definition cascade_principal (id : PrincipalId) (db : Db) : Db :=
  let a := access db in
  let a := set_bindings (filter (λ e, binding_principal (snd e) ≠ id) (iam_bindings a)) a in
  let a := set_group_members (filter (λ e, snd e ≠ id) (iam_group_members a)) a in
  let a := set_api_keys (filter (λ e, key_principal (snd e) ≠ id) (api_keys a)) a in
  let a := set_roles (delete id (iam_roles a)) a in
  let a := set_role_sessions (forget_target id <$>
             filter (λ e, role_session_role (snd e) ≠ id) (iam_role_sessions a)) a in
  let db := set_access a db in
  let db := set_audit (forget_audited id <$> audit_events db) db in
  let db := set_gpu_requests (forget_requester id <$> flash_gpu_service_requests db) db in
  let db := set_workload_tokens (filter (λ e, token_principal (snd e) ≠ id) (workload_access_tokens db)) db in
  set_principals (delete id (principals db)) db.

Definition delete_iam_role (account : OrganizationId) (role : PrincipalId) : tx () :=
  present ← query (λ db, is_iam_role_principal account role db && is_some (principal_of account role db));
  tx_fail_if (negb present) NotFound ;;
  managed ← query (is_identity_center_role account role);
  tx_fail_if managed (RequestRejected "Identity Center roles are managed by their permission sets.") ;;
  in_use ← query (λ db, bound_principal account role db || role_in_session account role db);
  tx_fail_if in_use
    (RequestRejected "Detach role policies and revoke active sessions before deleting the role.") ;;
  require (λ db, negb (exists_row (λ _ c, bool_decide (created_by c = role)) (credentials db))
    && negb (existsb (λ e, bool_decide (account_role_principal (snd e) = role))
               (map_to_list (identity_center_account_roles (access db))))
    && negb (exists_row (λ id s, bool_decide (role_session_role s = role) && negb (unreferenced id db))
               (role_session_rows db))
    && negb (exists_row (λ _ d, bool_decide (destination_organization d = account)
                                && bool_decide (destination_principal d = role))
               (flash_backup_destinations (flash db)))
    && negb (exists_row (λ _ c, bool_decide (registry_created_by c = role)) (registry_credentials (registry db)))) ;;
  statement (cascade_principal role).

(** The account number and the ARN of an enabled principal. *)
Definition user_arn `{UuidText} (number : Z) (principal : PrincipalId) : string :=
  ("arn:aws:iam::" ++ int_to_string number ++ ":user/" ++ uuid_to_string principal)%string.

Definition iam_principal_arn `{UuidText} (account : OrganizationId) (principal : PrincipalId) (db : Db)
    : option (string * string) :=
  p ← principal_of account principal db;
  a ← account_rows (cloud db) !! account;
  if enabled p then
    Some (int_to_string (account_number a),
          match role_rows db !! principal with
          | Some r => if bool_decide (role_organization r = account)
                      then role_arn (account_number a) (role_name r)
                      else user_arn (account_number a) principal
          | None => user_arn (account_number a) principal
          end)
  else None.

(** ** Workload identity *)

Definition MAX_WORKLOAD_TOKENS : Z := 4096.

Record WorkloadTokenPrincipal := {
  workload_token_id : Uuid;
  workload_organization : OrganizationId;
  workload_principal : PrincipalId;
  workload_service : ServiceInstanceId;
  workload_pod : Uuid;
}.

(** [COALESCE(spec->>'stopped', 'false') = 'false']. *)
Definition not_stopped (v : Value) : bool := String.eqb (default "false" (scalar_text (get "stopped" v))) "false".

Section Workload.
Context `{UuidText}.

(** The service runs with this task role. *)
Definition runs_as (role : PrincipalId) (r : ServiceRow) : bool :=
  has_provider "flash" r && not_deleting r && not_stopped (spec r)
  && bool_decide (scalar_text (get "task_role" (spec r)) = Some (uuid_to_string role)).

Definition enabled_task_role (org : OrganizationId) (role : PrincipalId) (db : Db) : bool :=
  is_some_and (λ p, String.eqb (kind p) "service_account" && enabled p) (principal_of org role db)
  && negb (is_role_principal role db).

Definition mint_workload_token (service : ServiceInstanceId) (role : PrincipalId) (pod : Uuid)
    (digest : Digest) (expires : Z) : tx WorkloadTokenPrincipal :=
  org ← optional NotFound (query (λ db,
    r ← service_instances db !! service;
    if runs_as role r && enabled_task_role (organization_id r) role db then Some (organization_id r) else None));
  statement (λ db, set_workload_tokens
    (filter (λ e, ¬ token_expires_at (snd e) ≤ now db) (workload_access_tokens db)) db) ;;
  count ← query (λ db, Z.of_nat (size (filter (λ e, token_service (snd e) = service ∧ pod_uid (snd e) = pod)
                                         (workload_access_tokens db))));
  tx_fail_if (MAX_WORKLOAD_TOKENS <=? count)
    (RequestRejected "Too many active workload sessions for this Pod") ;;
  id ← now_v7;
  require (λ db, negb (is_some (workload_access_tokens db !! id)) && bool_decide (org ∈ organizations db)
    && negb (is_some (find_row (λ t, bool_decide (token_digest t = digest)) (workload_access_tokens db)))) ;;
  statement (λ db, set_workload_tokens
    (<[id := Build_WorkloadTokenRow org service role pod digest expires]> (workload_access_tokens db)) db) ;;
  mret (Build_WorkloadTokenPrincipal id org role service pod).

(** Current attachment and enabled principal are checked on every request. *)
Definition workload_token_usable (db : Db) (t : WorkloadTokenRow) : bool :=
  (now db <? token_expires_at t)
  && is_some_and (λ r, bool_decide (organization_id r = token_organization t) && runs_as (token_principal t) r)
       (service_instances db !! token_service t)
  && is_some_and (λ p, String.eqb (kind p) "service_account" && enabled p)
       (principal_of (token_organization t) (token_principal t) db).

Definition authenticate_workload_token (digest : Digest) (db : Db) : option WorkloadTokenPrincipal :=
  e ← find_row (λ t, bool_decide (token_digest t = digest)) (workload_access_tokens db);
  let t := snd e in
  if workload_token_usable db t
  then Some (Build_WorkloadTokenPrincipal (fst e) (token_organization t) (token_principal t)
               (token_service t) (pod_uid t))
  else None.

End Workload.

Definition set_service_account_enabled (org : OrganizationId) (role : PrincipalId) (enable : bool) : tx () :=
  found ← query (λ db, is_some_and (λ p, String.eqb (kind p) "service_account") (principal_of org role db));
  tx_fail_if (negb found) NotFound ;;
  update_principal role (set_enabled enable) ;;
  if enable then mret ()
  else statement (λ db, set_workload_tokens
         (filter (λ e, ¬ (token_organization (snd e) = org ∧ token_principal (snd e) = role))
            (workload_access_tokens db)) db).
