(* ===== verification/Admin.v ===== *)
(** * Administration in the store

    The rest of [heterocloud-store]: projects and names, the members of an account
    with their roles and limits ([organizations.rs]), registry credentials, and
    the catalog of GPUs with its private assignments ([lib.rs]). *)
From stdpp Require Import sorting.
From S2P Require Import Prelude Text Json Net Policy Quota Specs Flash Store Usage Provider Prepare Services FlowAccess Cloud Identity Access.

(** ** Projects and names *)

Definition project_allowed (id : Uuid) (r : ProjectRow) (db : Db) : bool :=
  bool_decide (project_organization r ∈ organizations db) && valid_slug_column (project_slug r)
  && valid_name_column (project_name r)
  && negb (exists_row (λ id' r', negb (bool_decide (id' = id))
            && bool_decide (project_organization r' = project_organization r)
            && String.eqb (project_slug r') (project_slug r)) (projects db)).

Definition put_project (id : Uuid) (r : ProjectRow) : tx () :=
  require (project_allowed id r) ;;
  statement (λ db, set_projects (<[id := r]> (projects db)) db).

Definition create_project (org : OrganizationId) (new_slug new_name : string) : tx (Uuid * ProjectRow) :=
  id ← now_v7;
  require (λ db, negb (is_some (projects db !! id))) ;;
  let row := Build_ProjectRow org new_slug new_name in
  put_project id row ;;
  mret (id, row).

Definition rename_project (org : OrganizationId) (id : ProjectId) (new_name : string) : tx ProjectRow :=
  p ← optional NotFound (query (λ db, p ← projects db !! id;
        if bool_decide (project_organization p = org) then Some p else None));
  let row := Build_ProjectRow org (project_slug p) new_name in
  put_project id row ;;
  mret row.

Definition rename_account (account : OrganizationId) (new_name : string) : tx AccountRow :=
  a ← optional NotFound (query (λ db, account_rows (cloud db) !! account));
  require (λ _, valid_name_column new_name) ;;
  let row := Build_AccountRow (slug a) new_name (account_number a) in
  on_cloud (λ c, set_account_rows (<[account := row]> (account_rows c)) c) ;;
  mret row.

Definition set_principal_name (new_name : string) (p : PrincipalRow) : PrincipalRow :=
  Build_PrincipalRow (principal_organization_id p) (kind p) new_name (user_id p) (principal_quota_user_id p)
    (enabled p) (permissions_boundary_policy_id p).

Definition rename_iam_user (org : OrganizationId) (principal : PrincipalId) (new_name : string) : tx PrincipalRow :=
  p ← optional NotFound (query (λ db, p ← principal_of org principal db;
        if String.eqb (kind p) "user" then Some p else None));
  require (λ db, valid_name_column new_name
    && negb (exists_row (λ id q, negb (bool_decide (id = principal))
               && bool_decide (principal_organization_id q = org) && String.eqb (principal_name q) new_name)
               (principals db))) ;;
  let row := set_principal_name new_name p in
  statement (λ db, set_principals (<[principal := row]> (principals db)) db) ;;
  mret row.

(** ** Members *)

Definition set_member_role (r : string) (m : MembershipRow) : MembershipRow :=
  Build_MembershipRow (member_principal_id m) r (identity_center_membership_id m).

Definition set_organization_member_role (org : OrganizationId) (user : UserId) (new_role : string) : tx () :=
  tx_fail_if (negb (bool_decide (new_role ∈ ["admin"; "member"]))) (RequestRejected "role must be admin or member") ;;
  m ← optional NotFound (query (λ db, m ← organization_memberships db !! (org, user);
        if negb (String.eqb (member_role m) "owner") then Some m else None));
  statement (λ db, set_memberships (<[(org, user) := set_member_role new_role m]> (organization_memberships db)) db).

(** What is not charged to a member: metered services and service accounts. *)
Definition unassigned_service (org : OrganizationId) (r : ServiceRow) : bool :=
  in_org org r && negb (is_some (quota_user_id r)) && not_deleting r && metered (provider r).

Definition unassigned_account (org : OrganizationId) (id : PrincipalId) (p : PrincipalRow) (db : Db) : bool :=
  bool_decide (principal_organization_id p = org) && negb (is_some (principal_quota_user_id p))
  && String.eqb (kind p) "service_account" && enabled p && negb (is_identity_center_role org id db).

Definition set_principal_quota_user (user : UserId) (p : PrincipalRow) : PrincipalRow :=
  Build_PrincipalRow (principal_organization_id p) (kind p) (principal_name p) (user_id p) (Some user)
    (enabled p) (permissions_boundary_policy_id p).

Definition assign_quota_resource (org : OrganizationId) (resource : Uuid) (user : UserId) (service_account : bool)
    : tx () :=
  member ← query (is_member org user);
  tx_fail_if (negb member) NotFound ;;
  if service_account then
    p ← optional Conflict (query (λ db, p ← principals db !! resource;
          if unassigned_account org resource p db then Some p else None));
    statement (λ db, set_principals (<[resource := set_principal_quota_user user p]> (principals db)) db)
  else
    r ← optional Conflict (query (λ db, r ← service_instances db !! resource;
          if unassigned_service org r then Some r else None));
    statement (λ db, set_services (<[resource := set_quota_user user r]> (service_instances db)) db) ;;
    statement (λ db, set_quota_owners (alter (assign_owner org user) resource (service_quota_owners db)) db) ;;
    _ ← enqueue_flash_quota_reconcile_tx (Some org);
    mret ().

Section Limits.
Context `{LimitsDecoder}.

Definition any_unassigned (org : OrganizationId) (db : Db) : bool :=
  exists_service (λ _ r, unassigned_service org r) db
  || exists_row (λ id p, unassigned_account org id p db) (principals db).

(** The limits that are shared by the account. *)
Definition same_shared (organization limits : ResourceQuotaLimits) : bool :=
  bool_decide (ResourceQuotaLimits.registry limits = ResourceQuotaLimits.registry organization)
  && (SyouyuQuotaLimits.max_credentials_per_bucket (ResourceQuotaLimits.syouyu limits)
      =? SyouyuQuotaLimits.max_credentials_per_bucket (ResourceQuotaLimits.syouyu organization))
  && (SyouyuQuotaLimits.max_total_credentials (ResourceQuotaLimits.syouyu limits)
      =? SyouyuQuotaLimits.max_total_credentials (ResourceQuotaLimits.syouyu organization)).

Definition set_member_quotas (f : gmap (Uuid * Uuid) Value → gmap (Uuid * Uuid) Value) : tx () :=
  statement (λ db, set_quotas (resource_quota_defaults db) (organization_resource_quotas db)
    (f (member_resource_quotas db)) db).

Definition set_member_resource_quota (org : OrganizationId) (user : UserId) (limits : option ResourceQuotaLimits)
    : tx ResourceQuotaLimits :=
  organization_limits ← read (resource_quota_in_transaction org);
  member ← query (is_member org user);
  tx_fail_if (negb member) NotFound ;;
  effective ← match limits with
    | Some limits =>
        lift (validate_resource_quota limits) ;;
        unassigned ← query (any_unassigned org);
        tx_fail_if unassigned (RequestRejected
          "assign existing services and service accounts to a member before setting personal limits") ;;
        tx_fail_if (negb (same_shared organization_limits limits))
          (RequestRejected "registry and Syouyu credential limits are shared by the organization") ;;
        capped ← lift (capped_limits limits_from_value organization_limits limits);
        tx_fail_if (negb (bool_decide (capped = limits)))
          (RequestRejected "member limits cannot exceed organization limits") ;;
        set_member_quotas (insert (org, user) (ResourceQuotaLimits.to_value limits)) ;;
        mret limits
    | None =>
        set_member_quotas (delete (org, user)) ;;
        mret organization_limits
    end;
  _ ← enqueue_flash_quota_reconcile_tx (Some org);
  mret effective.

(** ** Registry credentials *)

Definition registry_rows (db : Db) : gmap Uuid RegistryCredentialRow := registry_credentials (registry db).
Definition on_registry (f : Db → gmap Uuid RegistryCredentialRow → gmap Uuid RegistryCredentialRow) : tx () :=
  statement (λ db, set_registry
    (Build_RegistryTables (f db (registry_rows db)) (organization_registry_credentials_enabled (registry db))) db).

Definition account_credentials (org : OrganizationId) (db : Db) : Z :=
  Z.of_nat (size (filter (λ e, registry_organization (snd e) = org
                               ∧ registry_status (snd e) ∈ ["provisioning"; "active"]) (registry_rows db))).
Definition cloud_credentials (cloud : Uuid) (db : Db) : Z :=
  Z.of_nat (size (filter (λ e, cloud_organization_accounts db !! registry_organization (snd e) = Some cloud
                               ∧ registry_status (snd e) ∈ ["provisioning"; "active"]) (registry_rows db))).

Definition cloud_registry_limit (org : OrganizationId) (db : Db) : result StoreError (Uuid * Z) :=
  cloud ← ok_or NotFound (cloud_organization_accounts db !! org);
  management ← ok_or NotFound (cloud_management_accounts db !! cloud);
  limits ← parse_resource_quota limits_from_value
    (default (resource_quota_defaults db) (organization_resource_quotas db !! management));
  Ok (cloud, RegistryQuotaLimits.max_credentials (ResourceQuotaLimits.registry limits)).

Definition registry_name_free (org : OrganizationId) (new_name : string) (db : Db) : bool :=
  negb (exists_row (λ _ c, bool_decide (registry_organization c = org) && String.eqb (registry_name c) new_name)
          (registry_rows db)).

Definition reserve_registry_credential (org : OrganizationId) (principal : PrincipalId) (new_name : string)
    : tx (Uuid * RegistryCredentialRow) :=
  quota ← read (resource_quota_in_transaction org);
  active ← query (account_credentials org);
  tx_fail_if (RegistryQuotaLimits.max_credentials (ResourceQuotaLimits.registry quota) <=? active)
    (RequestRejected "registry credential limit exceeded: limit is {}") ;;
  gate ← query (λ db, organization_registry_credentials_enabled (registry db));
  (if (gate : bool) then
     limit ← read (cloud_registry_limit org);
     organization_active ← query (cloud_credentials (fst limit));
     tx_fail_if (snd limit <=? organization_active)
       (RequestRejected "cloud organization registry credential limit exceeded: limit is {limit}")
   else mret ()) ;;
  id ← now_v7;
  known ← query (λ db, is_some_and enabled (principal_of org principal db));
  tx_fail_if (negb known) NotFound ;;
  require (λ db, negb (is_some (registry_rows db !! id)) && valid_name_column new_name
    && registry_name_free org new_name db) ;;
  row ← query (λ db, Build_RegistryCredentialRow org principal new_name None None "provisioning" (now db));
  on_registry (λ _, insert id row) ;;
  mret (id, row).

End Limits.

Definition set_active (robot : Z) (user : string) (c : RegistryCredentialRow) : RegistryCredentialRow :=
  Build_RegistryCredentialRow (registry_organization c) (registry_created_by c) (registry_name c) (Some user)
    (Some robot) "active" (registry_created_at c).

Definition registry_with_status (org : OrganizationId) (id : Uuid) (st : string) (db : Db)
    : option RegistryCredentialRow :=
  c ← registry_rows db !! id;
  if bool_decide (registry_organization c = org) && String.eqb (registry_status c) st then Some c else None.

Definition activate_registry_credential (org : OrganizationId) (id : Uuid) (robot : Z) (user : string)
    : tx RegistryCredentialRow :=
  c ← optional Conflict (query (registry_with_status org id "provisioning"));
  require (λ db, negb (exists_row (λ id' c', negb (bool_decide (id' = id))
    && bool_decide (harbor_robot_id c' = Some robot)) (registry_rows db))) ;;
  let row := set_active robot user c in
  on_registry (λ _, insert id row) ;;
  mret row.

Definition cancel_registry_credential_reservation (org : OrganizationId) (id : Uuid) : tx () :=
  on_registry (λ db m, if is_some (registry_with_status org id "provisioning" db) then delete id m else m).

Definition registry_credential_for_delete (org : OrganizationId) (id : Uuid) (db : Db)
    : result StoreError RegistryCredentialRow :=
  ok_or NotFound (registry_with_status org id "active" db).

Definition delete_registry_credential (org : OrganizationId) (id : Uuid) : tx () :=
  found ← query (registry_with_status org id "active");
  tx_fail_if (negb (is_some found)) NotFound ;;
  on_registry (λ _, delete id).

Definition enable_organization_registry_credentials : tx () :=
  statement (λ db, set_registry (Build_RegistryTables (registry_rows db) true) db).

(** ** The catalog of GPUs *)

Record GpuCatalogDevice := {
  catalog_management_id : string;
  catalog_gpu_type : string;
  catalog_display_name : string;
  catalog_open : bool;
  catalog_available : bool;
  catalog_assigned : list UserId;
}.

Definition MAX_GPU_CATALOG_DEVICES : Z := 4096.
Definition MAX_GPU_PRIVATE_ASSIGNMENTS : Z := 10000.

(** Management ids are unique, and the display name belongs to the type. *)
Fixpoint check_catalog (ids : list string) (names : BTreeMap string) (l : list GpuCatalogDevice)
    : result StoreError () :=
  match l with
  | [] => Ok ()
  | d :: l =>
      fail_if (bool_decide (catalog_management_id d ∈ ids))
        (RequestRejected "GPU catalog management_id values must be unique") ;;
      let '(existing, names) := bt_insert (catalog_gpu_type d) (catalog_display_name d) names in
      fail_if (is_some_and (λ n, negb (String.eqb n (catalog_display_name d))) existing)
        (RequestRejected "all devices of one gpu_type must use the same display_name") ;;
      check_catalog (catalog_management_id d :: ids) names l
  end.

(** [retain], [sort_unstable], [dedup]. *)
Definition retain_active (active : gset UserId) (d : GpuCatalogDevice) : GpuCatalogDevice :=
  Build_GpuCatalogDevice (catalog_management_id d) (catalog_gpu_type d) (catalog_display_name d) (catalog_open d)
    (catalog_available d)
    (merge_sort N.le (remove_dups (filter (λ u, u ∈ active) (catalog_assigned d)))).

Definition device_by_management (m : string) (db : Db) : option (Uuid * GpuDeviceRow) :=
  find_row (λ d, String.eqb (management_id d) m) (gpu_devices db).
Definition incoming_device (m : string) (l : list GpuCatalogDevice) : option GpuCatalogDevice :=
  head (filter (λ d, catalog_management_id d = m) l).

Definition assigned_users (device : Uuid) (db : Db) : list UserId :=
  merge_sort N.le (snd <$> filter (λ a, fst a = device) (elements (gpu_device_user_assignments db))).

Definition device_changed (id : Uuid) (old : GpuDeviceRow) (d : GpuCatalogDevice) (db : Db) : bool :=
  negb (String.eqb (device_gpu_type old) (catalog_gpu_type d))
  || negb (String.eqb (device_display_name old) (catalog_display_name d))
  || negb (eqb (visibility_open old) (catalog_open d))
  || negb (bool_decide (assigned_users id db = merge_sort N.le (catalog_assigned d))).

(** The types whose access or description changes. *)
Definition affected_by_old (l : list GpuCatalogDevice) (db : Db) (e : Uuid * GpuDeviceRow) : list string :=
  match incoming_device (management_id (snd e)) l with
  | None => [device_gpu_type (snd e)]
  | Some d => if device_changed (fst e) (snd e) d db then [device_gpu_type (snd e); catalog_gpu_type d] else []
  end.
Definition affected_types (l : list GpuCatalogDevice) (db : Db) : list string :=
  mjoin (affected_by_old l db <$> map_to_list (gpu_devices db))
  ++ (catalog_gpu_type <$> filter (λ d, device_by_management (catalog_management_id d) db = None) l).

Definition validate_gpu_device_config_fields (d : GpuCatalogDevice) (db : Db) : result StoreError () :=
  fail_if (is_empty (catalog_management_id d) || (512 <? len (catalog_management_id d))
      || not_trimmed (catalog_management_id d)
      || existsb is_control (chars (catalog_management_id d)))
    (RequestRejected "GPU management_id must be a trimmed, non-control string of at most 512 bytes") ;;
  fail_if (negb (valid_flash_gpu_type (catalog_gpu_type d)))
    (RequestRejected "GPU gpu_type must be a lowercase DNS label of at most 63 bytes") ;;
  fail_if (is_empty (catalog_display_name d) || (120 <? len (catalog_display_name d))
      || not_trimmed (catalog_display_name d)
      || existsb is_control (chars (catalog_display_name d)))
    (RequestRejected "GPU display_name must be a trimmed, non-control string of at most 120 bytes") ;;
  fail_if (catalog_open d && negb (is_nil (catalog_assigned d)))
    (RequestRejected "open GPUs cannot have private user assignments") ;;
  fail_if (MAX_GPU_PRIVATE_ASSIGNMENTS <? Z.of_nat (length (catalog_assigned d)))
    (RequestRejected "a GPU can have at most {MAX_GPU_PRIVATE_ASSIGNMENTS} private user assignments") ;;
  fail_if (negb (bool_decide (NoDup (catalog_assigned d))))
    (RequestRejected "assigned_user_ids must not contain duplicates") ;;
  fail_if (negb (forallb (λ u, bool_decide (u ∈ active_users db)) (catalog_assigned d)))
    (RequestRejected "assigned_user_ids must reference active users").

(** [validate_gpu_access_update]: the same rules for a change by the owner. *)
Definition validate_gpu_access_update (open : bool) (assigned : list UserId) (db : Db) : result StoreError () :=
  fail_if (open && negb (is_nil assigned)) (RequestRejected "open GPUs cannot have private user assignments") ;;
  fail_if (MAX_GPU_PRIVATE_ASSIGNMENTS <? Z.of_nat (length assigned))
    (RequestRejected "a GPU can have at most {MAX_GPU_PRIVATE_ASSIGNMENTS} private user assignments") ;;
  fail_if (negb (bool_decide (NoDup assigned)))
    (RequestRejected "assigned_user_ids must not contain duplicates") ;;
  fail_if (negb (forallb (λ u, bool_decide (u ∈ active_users db)) assigned))
    (RequestRejected "assigned_user_ids must reference active users").

Definition touch_device (t : Z) (d : GpuDeviceRow) : GpuDeviceRow :=
  Build_GpuDeviceRow (management_id d) (device_gpu_type d) (device_display_name d) (visibility_open d)
    (device_available d) t.

Definition replace_gpu_device_assignments (device : Uuid) (users : list UserId) : tx () :=
  existing ← query (assigned_users device);
  if bool_decide (existing = merge_sort N.le users) then mret ()
  else
    statement (λ db, set_gpus (alter (touch_device (now db)) device (gpu_devices db))
      (filter (λ a, fst a ≠ device) (gpu_device_user_assignments db) ∪ list_to_set ((λ u, (device, u)) <$> users)) db).

(** [INSERT .. ON CONFLICT (management_id) DO UPDATE]. *)
Definition upsert_row (t : Z) (d : GpuCatalogDevice) (old : option GpuDeviceRow) : GpuDeviceRow :=
  let changed := match old with
    | Some o => negb (String.eqb (device_gpu_type o) (catalog_gpu_type d)
                      && String.eqb (device_display_name o) (catalog_display_name d)
                      && eqb (visibility_open o) (catalog_open d) && eqb (device_available o) (catalog_available d))
    | None => true
    end in
  Build_GpuDeviceRow (catalog_management_id d) (catalog_gpu_type d) (catalog_display_name d) (catalog_open d)
    (catalog_available d)
    (match old with Some o => if changed then t else device_updated_at o | None => t end).

Definition upsert_device (d : GpuCatalogDevice) : tx Uuid :=
  fresh ← now_v7;
  existing ← query (device_by_management (catalog_management_id d));
  let id := match existing with Some e => fst e | None => fresh end in
  require (λ db, is_some existing || negb (is_some (gpu_devices db !! id))) ;;
  statement (λ db, set_gpus (<[id := upsert_row (now db) d (snd <$> existing)]> (gpu_devices db))
    (gpu_device_user_assignments db) db) ;;
  mret id.

Definition sync_device (d : GpuCatalogDevice) : tx () :=
  read (validate_gpu_device_config_fields d) ;;
  id ← upsert_device d;
  replace_gpu_device_assignments id (catalog_assigned d).

(** Devices that are not in the catalog go, with their assignments. *)
Definition remove_devices (l : list GpuCatalogDevice) : tx () :=
  statement (λ db,
    let kept := filter (λ e, management_id (snd e) ∈ (catalog_management_id <$> l)) (gpu_devices db) in
    set_gpus kept (filter (λ a, is_Some (kept !! fst a)) (gpu_device_user_assignments db)) db).

Definition sync_gpu_catalog (devices : list GpuCatalogDevice) : tx () :=
  tx_fail_if (MAX_GPU_CATALOG_DEVICES <? Z.of_nat (length devices))
    (RequestRejected "GPU catalog contains more than {MAX_GPU_CATALOG_DEVICES} devices") ;;
  lift (check_catalog [] [] devices) ;;
  devices ← query (λ db, retain_active (active_users db) <$> devices);
  affected ← query (affected_types devices);
  remove_devices devices ;;
  foldr (λ d rest, sync_device d ;; rest) (mret ()) devices ;;
  _ ← enqueue_flash_gpu_reconciles (remove_dups affected);
  mret ().
