(* ===== verification/FlashStore.v ===== *)
(** * Flash operations in the store

    [heterocloud-store/src/flash_operations.rs], [flash_backups.rs],
    [flash_backup_destinations.rs], [flash_domains.rs] and [flash_ssh_keys.rs]:
    revisions and their roll-back, backup schedules, backups and restores, the
    places backups go to, custom domains and SSH keys.  Where rows are ordered by
    a time only, equal times are ordered by identifier. *)
From stdpp Require Import sorting.
From S2P Require Import Prelude Text Json Net Policy Iam Quota Specs Flash Store Usage Prepare Services FlowAccess Cloud Identity Access.

(** ** Assignment to a key of a JSON value

    [value[key] = v] of [serde_json]: [null] becomes an object; anything else
    than an object panics, which is [None]. *)
Definition index_set (k : string) (v value : Value) : option Value :=
  match value with
  | Object fields => Some (Object (field_insert k v fields))
  | Null => Some (Object [(k, v)])
  | _ => None
  end.

(** A panic within a transaction rolls it back. *)
Definition PANIC : StoreError := Invariant "panic".

(** ** Revisions *)

Definition revision_rows (db : Db) := flash_service_revisions (flash db).

(** The settings a roll-back takes from the current specification. *)
Definition current_keys : list string :=
  ["task_role"; "env"; "secret_env"; "secret_files"; "network"; "exposure"; "egress"; "stopped";
   "restore_from_backup_id"; "metadata"; "region"].
Definition disk_keys : list string := ["ephemeral_storage_gib"; "persistent_storage_gib"].

Definition keep_current (current : Value) (key : string) (next : Value) : option Value :=
  match get key current with
  | Some v => index_set key v next
  | None => Some (match next with Object fields => Object (field_remove key fields) | _ => next end)
  end.

Definition keep_disk (current : Value) (key : string) (next : Value) : option Value :=
  match get key current ≫= as_u64 with
  | Some v => index_set key (Num (Int (Z.max (default 0 (get key next ≫= as_u64)) v))) next
  | None => Some next
  end.

Definition rollback_spec (target current : Value) : option Value :=
  next ← foldl (λ next key, next ≫= keep_current current key) (Some target) current_keys;
  foldl (λ next key, next ≫= keep_disk current key) (Some next) disk_keys.

Definition set_rolled_back (r : RevisionRow) : RevisionRow :=
  Build_RevisionRow (revision_organization r) (revision_project r) (revision_principal r) (revision_name r)
    (revision_spec r) (if is_some (revision_ready_at r) then revision_phase r else "rolled_back")
    (revision_created_at r) (revision_ready_at r) (activation_started_at r).

Definition mark_flash_revision_rolled_back (id : ServiceInstanceId) (g : Z) : tx () :=
  on_flash (λ _ f, set_revisions (alter set_rolled_back (id, g) (flash_service_revisions f)) f).

(** Latest first, at most thirty. *)
Definition later_generation : relation (Uuid * Z * RevisionRow) := λ a b, snd (fst b) ≤ snd (fst a).
#[export] Instance later_generation_dec a b : Decision (later_generation a b).
Proof. unfold later_generation. apply _. Defined.

Definition flash_revisions (org : OrganizationId) (id : ServiceInstanceId) (db : Db)
    : list (Uuid * Z * RevisionRow) :=
  take 30 (merge_sort later_generation
    (filter (λ e, fst (fst e) = id ∧ revision_organization (snd e) = org) (map_to_list (revision_rows db)))).

Definition flash_revision (org : OrganizationId) (id : ServiceInstanceId) (g : Z) (db : Db)
    : result StoreError RevisionRow :=
  ok_or NotFound (r ← revision_rows db !! (id, g);
                  if bool_decide (revision_organization r = org) then Some r else None).

Definition flash_operation_targets (db : Db) : list ServiceInstance :=
  (λ e, Build_ServiceInstance (fst e) (snd e)) <$>
  order_by_id (select_services (λ _ r, has_provider "flash" r && not_deleting r) db).

(** ** Backup schedules *)

Definition schedule_rows (db : Db) := flash_backup_policies (flash db).
Definition destination_rows (db : Db) := flash_backup_destinations (flash db).
Definition backup_rows (db : Db) := flash_backups (flash db).

Definition on_policies (f : Db → gmap Uuid BackupPolicyRow → gmap Uuid BackupPolicyRow) : tx () :=
  on_flash (λ db t, set_backup_policies (f db (flash_backup_policies t)) t).
Definition on_backups (f : Db → gmap Uuid BackupRow → gmap Uuid BackupRow) : tx () :=
  on_flash (λ db t, set_backups (f db (flash_backups t)) t).

Record BackupPolicyInput := {
  input_enabled : bool;
  input_interval : Z;
  input_retention : Z;
  input_verify : bool;
  input_destination : option Uuid;
}.

Definition destination_ready (org : OrganizationId) (destination : option Uuid) (db : Db) : bool :=
  match destination with
  | None => true
  | Some id => is_some_and (λ d, bool_decide (destination_organization d = org)
                 && String.eqb (destination_state d) "ready") (destination_rows db !! id)
  end.

Definition schedule_row (org : OrganizationId) (principal : PrincipalId) (input : BackupPolicyInput) (t : Z)
    (old : option BackupPolicyRow) : BackupPolicyRow :=
  match old with
  | None =>
      Build_BackupPolicyRow org principal (input_enabled input) (input_interval input) (input_retention input)
        (input_verify input) (input_destination input) t None None None t None
  | Some p =>
      Build_BackupPolicyRow (schedule_organization p) principal (input_enabled input) (input_interval input)
        (input_retention input) (input_verify input) (input_destination input) (next_run_at p) (last_run_at p)
        (last_backup_id p) (last_error p) t (lease_until p)
  end.

Definition live_flash (org : OrganizationId) (r : ServiceRow) : bool :=
  in_org org r && has_provider "flash" r && not_deleting r.

(** The check of the destination and the insertion are two statements of the
    source, here one step. *)
Definition put_flash_backup_policy (org : OrganizationId) (service : ServiceInstanceId) (principal : PrincipalId)
    (input : BackupPolicyInput) : tx BackupPolicyRow :=
  tx_fail_if (negb (in_range 3600 604800 (input_interval input)) || negb (in_range 1 8 (input_retention input)))
    (RequestRejected "Backup interval must be 1 hour to 7 days and retention 1 to 8 generations.") ;;
  ready ← query (destination_ready org (input_destination input));
  tx_fail_if (negb ready) (RequestRejected "Backup destination is not ready.") ;;
  optional NotFound (find_service service (live_flash org)) ;;
  row ← query (λ db, schedule_row org principal input (now db) (schedule_rows db !! service));
  on_policies (λ _, insert service row) ;;
  mret row.

Definition set_schedule_times (next : Z) (lease : option Z) (updated : Z) (p : BackupPolicyRow) : BackupPolicyRow :=
  Build_BackupPolicyRow (schedule_organization p) (schedule_principal p) (schedule_enabled p)
    (schedule_interval p) (retention_count p) (verify_restore p) (schedule_destination p) next (last_run_at p)
    (last_backup_id p) (last_error p) updated lease.

Definition lease_free (t : Z) (p : BackupPolicyRow) : bool :=
  match lease_until p with Some u => u <? t | None => true end.

Definition run_flash_backup_policy_now (org : OrganizationId) (service : ServiceInstanceId) : tx () :=
  found ← query (λ db, is_some_and (λ p, bool_decide (schedule_organization p = org) && schedule_enabled p
                          && lease_free (now db) p) (schedule_rows db !! service));
  tx_fail_if (negb found) Conflict ;;
  on_policies (λ db, alter (λ p, set_schedule_times (now db) (lease_until p) (now db) p) service).

(** The due schedules, the longest due first, at most four, are leased for two
    minutes. *)
Definition schedule_active (service : Uuid) (p : BackupPolicyRow) (db : Db) : bool :=
  schedule_enabled p && is_some_and not_deleting (service_instances db !! service).
Definition due (service : Uuid) (p : BackupPolicyRow) (db : Db) : bool :=
  schedule_active service p db && (next_run_at p <=? now db) && lease_free (now db) p.

Definition due_earlier : relation (Uuid * BackupPolicyRow) := λ a b,
  next_run_at (snd a) < next_run_at (snd b)
  ∨ next_run_at (snd a) = next_run_at (snd b) ∧ (fst a ≤ fst b)%N.
#[export] Instance due_earlier_dec a b : Decision (due_earlier a b).
Proof. unfold due_earlier. apply _. Defined.

Definition due_policies (db : Db) : list (Uuid * BackupPolicyRow) :=
  take 4 (merge_sort due_earlier (filter (λ e, due (fst e) (snd e) db = true) (map_to_list (schedule_rows db)))).

Definition LEASE_SECONDS : Z := 120.

Definition take_lease (db : Db) (p : BackupPolicyRow) : BackupPolicyRow :=
  set_schedule_times (next_run_at p) (Some (now db + LEASE_SECONDS)) (schedule_updated_at p) p.

Definition claim_backup_policies : tx (list (Uuid * BackupPolicyRow)) :=
  claimed ← query (λ db, (λ e, (fst e, take_lease db (snd e))) <$> due_policies db);
  on_policies (λ _ m, foldr (λ e m, <[fst e := snd e]> m) m claimed) ;;
  mret claimed.

Definition active_backup_policies (db : Db) : list (Uuid * BackupPolicyRow) :=
  merge_sort due_earlier (filter (λ e, schedule_active (fst e) (snd e) db = true) (map_to_list (schedule_rows db))).

(** The result is recorded for the lease, the principal and the version that
    were claimed only. *)
Definition set_finished (t : Z) (backup : option Uuid) (error : option string) (p : BackupPolicyRow)
    : BackupPolicyRow :=
  Build_BackupPolicyRow (schedule_organization p) (schedule_principal p) (schedule_enabled p)
    (schedule_interval p) (retention_count p) (verify_restore p) (schedule_destination p)
    (t + match error with None => schedule_interval p | Some _ => Z.min (schedule_interval p) 900 end)
    (Some t) (match backup with Some b => Some b | None => last_backup_id p end) error t None.

Definition still_claimed (claimed p : BackupPolicyRow) : bool :=
  is_some_and (λ t, bool_decide (lease_until p = Some t)) (lease_until claimed)
  && bool_decide (schedule_principal p = schedule_principal claimed)
  && (schedule_updated_at p =? schedule_updated_at claimed).

Definition finish_backup_policy (service : Uuid) (claimed : BackupPolicyRow) (backup : option Uuid)
    (error : option string) : tx () :=
  on_policies (λ db, alter (λ p, if still_claimed claimed p then set_finished (now db) backup error p else p)
                       service).

(** ** Backups *)

Definition alter_backup (id : Uuid) (p : BackupRow → bool) (f : Z → BackupRow → BackupRow) : tx () :=
  on_backups (λ db, alter (λ b, if p b then f (now db) b else b) id).

Definition set_phase (phase : string) (st : Value) (delete : bool) (deleted : option Z) (t : Z) (b : BackupRow)
    : BackupRow :=
  Build_BackupRow (backup_organization_id b) (backup_project b) (backup_service b) (schedule_service_id b)
    (backup_destination b) (backup_principal b) (backup_request_id b) (backup_name b) (source_name b)
    (source_generation b) (source_pvc_uid b) (source_spec b) (volume_size_bytes b) phase st delete deleted
    (backup_created_at b) t.

Definition set_schedule (service : Uuid) (b : BackupRow) : BackupRow :=
  Build_BackupRow (backup_organization_id b) (backup_project b) (backup_service b) (Some service)
    (backup_destination b) (backup_principal b) (backup_request_id b) (backup_name b) (source_name b)
    (source_generation b) (source_pvc_uid b) (source_spec b) (volume_size_bytes b) (backup_phase b)
    (backup_status b) (delete_requested b) (deleted_at b) (backup_created_at b) (backup_updated_at b).

Definition attach_scheduled_backup (service : Uuid) (policy : BackupPolicyRow) (id : Uuid) : tx () :=
  alter_backup id (λ b, bool_decide (backup_organization_id b = schedule_organization policy))
    (λ _, set_schedule service).

(** The retention of a schedule: of the uploaded (and, if asked for, verified)
    backups of the schedule at its destination, all but the newest. *)
Definition restore_verified (b : BackupRow) : bool :=
  bool_decide (scalar_text (get "restore_verification" (backup_status b) ≫= get "phase") = Some "passed").

Definition retained (service : Uuid) (p : BackupPolicyRow) (b : BackupRow) : bool :=
  bool_decide (schedule_service_id b = Some service)
  && bool_decide (backup_organization_id b = schedule_organization p)
  && String.eqb (backup_phase b) "ready" && negb (delete_requested b)
  && bool_decide (backup_destination b = schedule_destination p)
  && (negb (verify_restore p) || restore_verified b).

Definition expired_backups (service : Uuid) (p : BackupPolicyRow) (db : Db) : list Uuid :=
  fst <$> drop (Z.to_nat (retention_count p))
    (merge_sort (newest backup_created_at)
       (filter (λ e, retained service p (snd e) = true) (map_to_list (backup_rows db)))).

Definition request_delete (t : Z) (b : BackupRow) : BackupRow :=
  set_phase "deleting" (backup_status b) true (deleted_at b) t b.

Definition expire_scheduled_backups (service : Uuid) (p : BackupPolicyRow) : tx () :=
  expired ← query (expired_backups service p);
  on_backups (λ db m, foldr (λ id m, alter (request_delete (now db)) id m) m expired).

(** A request is identified by account and request id, and can be repeated. *)
Definition backup_by_request (org : OrganizationId) (request : Uuid) (db : Db) : option (Uuid * BackupRow) :=
  find_row (λ b, bool_decide (backup_organization_id b = org) && bool_decide (backup_request_id b = request))
    (backup_rows db).

Definition same_request (principal : PrincipalId) (service : ServiceInstanceId) (new_name : string)
    (destination : option Uuid) (b : BackupRow) : bool :=
  bool_decide (backup_principal b = principal) && bool_decide (backup_service b = service)
  && String.eqb (backup_name b) new_name && bool_decide (backup_destination b = destination)
  && negb (delete_requested b).

Definition flash_backup_request_to (org : OrganizationId) (principal : PrincipalId) (request : Uuid)
    (service : ServiceInstanceId) (new_name : string) (destination : option Uuid) (db : Db)
    : result StoreError (option (Uuid * BackupRow)) :=
  match backup_by_request org request db with
  | Some e => if same_request principal service new_name destination (snd e) then Ok (Some e) else Err Conflict
  | None => Ok None
  end.

Definition flash_backup_restore_pending `{UuidText} (id : Uuid) (db : Db) : bool :=
  exists_service (λ _ r, has_provider "flash" r
    && bool_decide (scalar_text (get "restore_from_backup_id" (spec r)) = Some (uuid_to_string id))
    && bool_decide (state r ∈ [Provisioning; Updating])) db.

Definition MAX_BACKUPS : Z := 100.
Definition MAX_SERVICE_BACKUPS : Z := 10.
Definition MAX_BACKUP_BYTES : Z := 128 * 1024 ^ 3.

(** The rows that count towards the quota of an account. *)
Definition counted_backups (org : OrganizationId) (db : Db) : gmap Uuid BackupRow :=
  filter (λ e, backup_organization_id (snd e) = org ∧ backup_phase (snd e) ≠ "deleted") (backup_rows db).
Definition backup_bytes (m : gmap Uuid BackupRow) : Z :=
  map_fold (λ _ b n, volume_size_bytes b + n) 0 m.

(** What is kept of the specification: nothing that gives access. *)
Definition backup_spec (value : Value) (resolved_image : option string) : option Value :=
  spec ← index_set "env" (Object []) value;
  spec ← index_set "secret_env" (Object []) spec;
  spec ← index_set "secret_files" (Object []) spec;
  spec ← index_set "task_role" Null spec;
  spec ← index_set "network" Null spec;
  exposure ← index_set "authentication" Null (default Null (get "exposure" spec));
  spec ← index_set "exposure" exposure spec;
  match resolved_image with Some image => index_set "image" (Str image) spec | None => Some spec end.

Definition request_flash_backup_to (org : OrganizationId) (service : ServiceInstanceId) (principal : PrincipalId)
    (request : Uuid) (new_name : string) (bytes_size : Z) (pvc_uid : string) (resolved_image : option string)
    (expected_generation : Z) (destination : option Uuid) : tx (Uuid * BackupRow) :=
  tx_fail_if ((bytes_size <=? 0) || String.eqb pvc_uid "") (RequestRejected "Persistent disk is not ready.") ;;
  existing ← query (backup_by_request org request);
  match existing with
  | Some e =>
      tx_fail_if (negb (same_request principal service new_name destination (snd e))) Conflict ;;
      mret e
  | None =>
      ready ← query (destination_ready org destination);
      tx_fail_if (negb ready) (RequestRejected "Backup destination is not ready.") ;;
      source ← optional NotFound (find_service service (live_flash org));
      tx_fail_if (negb (generation source =? expected_generation)) Conflict ;;
      counted ← query (counted_backups org);
      used ← lift (ok_or Sql (i64_checked_add (backup_bytes counted) 0));
      tx_fail_if ((MAX_BACKUPS <=? Z.of_nat (size counted))
          || (MAX_SERVICE_BACKUPS <=? Z.of_nat (size (filter (λ e, backup_service (snd e) = service) counted)))
          || match i64_checked_add used bytes_size with Some n => MAX_BACKUP_BYTES <? n | None => true end)
        (RequestRejected "Backup quota exceeded (10 per service, 100 and 128 GiB of source disks per organization).") ;;
      kept ← lift (ok_or PANIC (backup_spec (spec source) resolved_image));
      id ← now_v7;
      require (λ db, negb (is_some (backup_rows db !! id)) && bool_decide (org ∈ organizations db)) ;;
      row ← query (λ db, Build_BackupRow org (project_id source) service None destination principal request
               new_name (name source) (generation source) pvc_uid kept bytes_size "pending" (Object []) false None
               (now db) (now db));
      on_backups (λ _, insert id row) ;;
      mret (id, row)
  end.

Definition flash_backup (org : OrganizationId) (id : Uuid) (db : Db) : result StoreError BackupRow :=
  ok_or NotFound (b ← backup_rows db !! id;
    if bool_decide (backup_organization_id b = org) && negb (String.eqb (backup_phase b) "deleted")
    then Some b else None).

Definition list_flash_backups (org : OrganizationId) (service : option ServiceInstanceId) (db : Db)
    : list (Uuid * BackupRow) :=
  take 100 (merge_sort (newest backup_created_at)
    (filter (λ e, backup_organization_id (snd e) = org ∧ backup_phase (snd e) ≠ "deleted"
                  ∧ is_some_and (λ s, negb (bool_decide (backup_service (snd e) = s))) service = false)
       (map_to_list (backup_rows db)))).

Definition request_flash_backup_delete (org : OrganizationId) (id : Uuid) : tx BackupRow :=
  b ← read (flash_backup org id);
  alter_backup id (λ _, true) request_delete ;;
  query (λ db, request_delete (now db) b).

Definition pending_flash_backups (db : Db) : list (Uuid * BackupRow) :=
  take 32 (merge_sort (λ a b, newest backup_updated_at b a)
    (filter (λ e, is_some_and (λ t, t <=? now db - 86400) (deleted_at (snd e)) = false)
       (map_to_list (backup_rows db)))).

Definition update_flash_backup_status (id : Uuid) (phase : string) (st : Value) : tx () :=
  alter_backup id (λ _, true) (λ t b,
    set_phase (if is_some (deleted_at b) then "deleted" else if delete_requested b then "deleting" else phase)
      st (delete_requested b) (deleted_at b) t b).

Definition release_flash_backup (id : Uuid) : tx () :=
  alter_backup id delete_requested (λ t b,
    set_phase "deleted" (Object []) true (match deleted_at b with Some u => Some u | None => Some t end) t b).

(** *** Restores *)

Definition restore_rows (db : Db) := flash_backup_restore_requests (flash db).

Definition reserve_flash_restore (org : OrganizationId) (principal : PrincipalId) (request backup : Uuid)
    (project : ProjectId) (new_name : string) : tx ServiceInstanceId :=
  existing ← query (λ db, restore_rows db !! (org, principal, request));
  match existing with
  | Some r =>
      tx_fail_if (negb (bool_decide (restore_backup r = backup) && bool_decide (restore_project r = project)
                        && String.eqb (restore_name r) new_name)) Conflict ;;
      mret (restore_service r)
  | None =>
      usable ← query (λ db, is_some_and (λ b, bool_decide (backup_organization_id b = org)
        && String.eqb (backup_phase b) "ready" && negb (delete_requested b)) (backup_rows db !! backup));
      tx_fail_if (negb usable) Conflict ;;
      id ← now_v7;
      require (λ db, bool_decide (org ∈ organizations db)
        && negb (existsb (λ e, bool_decide (restore_service (snd e) = id)) (map_to_list (restore_rows db)))) ;;
      on_flash (λ _ f, set_restores
        (<[(org, principal, request) := Build_RestoreRow backup project new_name id]>
           (flash_backup_restore_requests f)) f) ;;
      mret id
  end.

(** ** Destinations of backups *)

Record NewFlashBackupDestination := {
  new_destination_name : string;
  new_destination_request : Uuid;
  new_destination_endpoint : string;
  new_destination_bucket : string;
  new_destination_region : string;
  new_destination_prefix : string;
  new_virtual_hosted : bool;
  access_key : string;
  secret_key : string;
}.

Definition on_destinations (f : Db → gmap Uuid DestinationRow → gmap Uuid DestinationRow) : tx () :=
  on_flash (λ db t, set_destinations (f db (flash_backup_destinations t)) t).

Definition destination_row (org : OrganizationId) (principal : PrincipalId) (input : NewFlashBackupDestination)
    (t : Z) : DestinationRow :=
  Build_DestinationRow org principal (new_destination_request input) (new_destination_name input)
    (new_destination_endpoint input) (new_destination_bucket input) (new_destination_region input)
    (new_destination_prefix input) (new_virtual_hosted input) "pending" t t.

Definition same_destination (principal : PrincipalId) (input : NewFlashBackupDestination) (d : DestinationRow)
    : bool :=
  bool_decide (destination_principal d = principal)
  && String.eqb (destination_name d) (new_destination_name input)
  && String.eqb (destination_endpoint d) (new_destination_endpoint input)
  && String.eqb (destination_bucket d) (new_destination_bucket input)
  && String.eqb (destination_region d) (new_destination_region input)
  && String.eqb (destination_prefix d) (new_destination_prefix input)
  && eqb (virtual_hosted d) (new_virtual_hosted input).

Definition reserve_flash_backup_destination (org : OrganizationId) (principal : PrincipalId)
    (input : NewFlashBackupDestination) : tx (Uuid * DestinationRow) :=
  existing ← query (λ db, find_row (λ d, bool_decide (destination_organization d = org)
               && bool_decide (destination_request_id d = new_destination_request input)) (destination_rows db));
  match existing with
  | Some e => tx_fail_if (negb (same_destination principal input (snd e))) Conflict ;; mret e
  | None =>
      owned ← query (λ db, filter (λ e, destination_organization (snd e) = org) (destination_rows db));
      tx_fail_if (20 <=? Z.of_nat (size owned))
        (RequestRejected "At most 20 backup destinations per organization.") ;;
      tx_fail_if (exists_row (λ _ d, String.eqb (destination_name d) (new_destination_name input)) owned) Conflict ;;
      id ← now_v7;
      require (λ db, negb (is_some (destination_rows db !! id)) && bool_decide (org ∈ organizations db)
        && is_some (principal_of org principal db)) ;;
      row ← query (λ db, destination_row org principal input (now db));
      on_destinations (λ _, insert id row) ;;
      mret (id, row)
  end.

Definition flash_backup_destination (org : OrganizationId) (id : Uuid) (db : Db) : result StoreError DestinationRow :=
  ok_or NotFound (d ← destination_rows db !! id;
    if bool_decide (destination_organization d = org) then Some d else None).

Definition flash_backup_destinations_to_refresh (db : Db) : list (Uuid * DestinationRow) :=
  take 32 (merge_sort (λ a b, newest destination_updated_at b a) (map_to_list (destination_rows db))).

Definition set_destination_state (st : string) (t : Z) (d : DestinationRow) : DestinationRow :=
  Build_DestinationRow (destination_organization d) (destination_principal d) (destination_request_id d)
    (destination_name d) (destination_endpoint d) (destination_bucket d) (destination_region d)
    (destination_prefix d) (virtual_hosted d) st (destination_created_at d) t.

Definition ready_text (ready : bool) : string := if ready then "ready" else "pending".

(** Only the version that was observed is refreshed. *)
Definition refresh_flash_backup_destination (org : OrganizationId) (id : Uuid) (observed_at : Z)
    (ready : option bool) : tx () :=
  on_destinations (λ db, alter (λ d,
    if bool_decide (destination_organization d = org) && (destination_updated_at d =? observed_at)
    then set_destination_state (match ready with Some b => ready_text b | None => destination_state d end) (now db) d
    else d) id).

Definition update_flash_backup_destination_state (org : OrganizationId) (id : Uuid) (ready : bool)
    : tx DestinationRow :=
  d ← read (flash_backup_destination org id);
  on_destinations (λ db, alter (set_destination_state (ready_text ready) (now db)) id) ;;
  query (λ db, set_destination_state (ready_text ready) (now db) d).

(** ** Custom domains *)

Definition domain_rows (db : Db) := flash_domain_bindings (flash db).

Definition on_domains (f : Db → gmap Uuid DomainRow → gmap Uuid DomainRow) : tx () :=
  on_flash (λ db t, set_domains (f db (flash_domain_bindings t)) t).

Definition exposure_is (key text : string) (v : Value) : bool :=
  bool_decide (((get "exposure" v ≫= get key) ≫= as_str) = Some text).

Definition public_web (r : ServiceRow) : bool :=
  has_provider "flash" r && not_deleting r && exposure_is "endpoint_mode" "web" (spec r)
  && exposure_is "type" "public" (spec r) && exposure_is "traffic_mode" "forwarded" (spec r).

Definition MAX_DOMAINS : Z := 128.
Definition MAX_SERVICE_DOMAINS : Z := 8.

Section Domains.
Context `{UuidText, SqlText}.

Definition reserve_flash_domain (org : OrganizationId) (service : ServiceInstanceId) (principal : PrincipalId)
    (host : string) : tx (Uuid * DomainRow) :=
  r ← optional NotFound (find_service service (in_org org));
  tx_fail_if (negb (public_web r))
    (RequestRejected "Custom domains require a public HTTP/HTTPS Flash service.") ;;
  existing ← query (λ db, find_row (λ d, String.eqb (hostname d) host) (domain_rows db));
  match existing with
  | Some e =>
      tx_fail_if (negb (bool_decide (domain_organization (snd e) = org) && bool_decide (domain_service (snd e) = service)
                        && negb (domain_delete_requested (snd e)))) AlreadyExists ;;
      mret e
  | None =>
      domains ← query domain_rows;
      tx_fail_if ((MAX_DOMAINS <=? Z.of_nat (size domains))
          || (MAX_SERVICE_DOMAINS <=? Z.of_nat (size (filter (λ e, domain_service (snd e) = service) domains))))
        (RequestRejected "Custom domain capacity reached (8 per service).") ;;
      id ← now_v7;
      secret ← now_v7;
      require (λ db, negb (is_some (domain_rows db !! id)) && in_range 3 253 (Z.of_nat (length (chars host)))
        && String.eqb host (sql_lower host)) ;;
      row ← query (λ db, Build_DomainRow org service principal host
               ("heterocloud-domain=" ++ uuid_simple id ++ ":" ++ uuid_simple secret)%string false true
               (now db) (now db));
      on_domains (λ _, insert id row) ;;
      mret (id, row)
  end.

End Domains.

Definition set_domain (delete pending : bool) (t : Z) (d : DomainRow) : DomainRow :=
  Build_DomainRow (domain_organization d) (domain_service d) (domain_principal d) (hostname d)
    (verification_value d) delete pending (domain_created_at d) t.

Definition request_flash_domain_delete (org : OrganizationId) (service : ServiceInstanceId) (id : Uuid) : tx () :=
  found ← query (λ db, is_some_and (λ d, bool_decide (domain_organization d = org)
                          && bool_decide (domain_service d = service)) (domain_rows db !! id));
  tx_fail_if (negb found) NotFound ;;
  on_domains (λ db, alter (set_domain true true (now db)) id).

Definition pending_flash_domains (db : Db) : list (Uuid * DomainRow) :=
  take 64 (merge_sort (λ a b, newest domain_updated_at b a) (map_to_list (domain_rows db))).

Definition mark_flash_domain_attempted (id : Uuid) : tx () :=
  on_domains (λ db, alter (λ d, set_domain (domain_delete_requested d) (reconcile_pending d) (now db) d) id).

Definition mark_flash_domain_synced (id : Uuid) : tx () :=
  on_domains (λ db, alter (λ d, if domain_delete_requested d then d else set_domain false false (now db) d) id).

Definition release_flash_domain (id : Uuid) : tx () :=
  on_domains (λ _, filter (λ e, ¬ (fst e = id ∧ domain_delete_requested (snd e) = true))).

(** ** SSH keys *)

Definition ssh_key_rows (db : Db) := flash_ssh_keys (flash db).
Definition ssh_binding_rows (db : Db) := flash_ssh_key_bindings (flash db).

Definition MAX_KEYS_PER_USER : Z := 50.
Definition MAX_BINDINGS_PER_SERVICE : Z := 50.

(** A user with status active, who is a member with an enabled principal. *)
Definition enabled_member (org : OrganizationId) (user : UserId) (db : Db) : bool :=
  is_some_and (λ m, is_some_and enabled (principals db !! member_principal_id m))
    (organization_memberships db !! (org, user)).

Definition create_flash_ssh_key (org : OrganizationId) (user : UserId) (new_name key print : string)
    (github : option string) : tx (Uuid * SshKeyRow) :=
  active ← query (λ db, bool_decide (user ∈ active_users db));
  tx_fail_if (negb active) NotFound ;;
  member ← query (enabled_member org user);
  tx_fail_if (negb member) NotFound ;;
  owned ← query (λ db, filter (λ e, ssh_organization (snd e) = org ∧ ssh_user (snd e) = user) (ssh_key_rows db));
  tx_fail_if (MAX_KEYS_PER_USER <=? Z.of_nat (size owned)) (RequestRejected "Too many SSH keys") ;;
  id ← now_v7;
  require (λ _, in_range 1 120 (Z.of_nat (length (chars new_name))) && in_range 1 16384 (len key)
    && in_range 1 128 (Z.of_nat (length (chars print)))) ;;
  taken ← query (λ db, is_some (ssh_key_rows db !! id)
    || exists_row (λ _ k, bool_decide (ssh_organization k = org) && String.eqb (fingerprint k) print) (ssh_key_rows db));
  tx_fail_if taken AlreadyExists ;;
  row ← query (λ db, Build_SshKeyRow org user new_name key print github (now db));
  on_flash (λ _ f, set_ssh_keys (<[id := row]> (flash_ssh_keys f)) f) ;;
  mret (id, row).

(** The bindings of a deleted key go with it (ON DELETE CASCADE). *)
Definition delete_flash_ssh_key (org : OrganizationId) (user : UserId) (key : Uuid) : tx () :=
  found ← query (λ db, is_some_and (λ k, bool_decide (ssh_organization k = org) && bool_decide (ssh_user k = user))
                         (ssh_key_rows db !! key));
  tx_fail_if (negb found) NotFound ;;
  on_flash (λ _ f, set_ssh_bindings (filter (λ b, snd b ≠ key) (flash_ssh_key_bindings f))
                     (set_ssh_keys (delete key (flash_ssh_keys f)) f)).

Definition service_bindings (org : OrganizationId) (service : ServiceInstanceId) (db : Db) : gset (Uuid * Uuid * Uuid) :=
  filter (λ b, fst b = (org, service)) (ssh_binding_rows db).

Definition flash_service_ssh_key_ids (org : OrganizationId) (service : ServiceInstanceId) (db : Db) : list Uuid :=
  merge_sort N.le (snd <$> elements (service_bindings org service db)).

Definition set_flash_service_ssh_key (org : OrganizationId) (service : ServiceInstanceId) (key : Uuid)
    (on : bool) : tx (list Uuid) :=
  optional NotFound (find_service service (live_flash org)) ;;
  (if on then
     optional NotFound (query (λ db, k ← ssh_key_rows db !! key;
                                 if bool_decide (ssh_organization k = org) then Some k else None)) ;;
     bound ← query (service_bindings org service);
     tx_fail_if (negb (bool_decide ((org, service, key) ∈ bound)) && (MAX_BINDINGS_PER_SERVICE <=? Z.of_nat (size bound)))
       (RequestRejected "Too many SSH keys on this service") ;;
     on_flash (λ _ f, set_ssh_bindings ({[(org, service, key)]} ∪ flash_ssh_key_bindings f) f)
   else on_flash (λ _ f, set_ssh_bindings (flash_ssh_key_bindings f ∖ {[(org, service, key)]}) f)) ;;
  query (flash_service_ssh_key_ids org service).

Definition authorized_flash_ssh_key (org : OrganizationId) (service : ServiceInstanceId) (print : string) (db : Db)
    : option (Uuid * SshKeyRow) :=
  e ← find_row (λ k, bool_decide (ssh_organization k = org) && String.eqb (fingerprint k) print) (ssh_key_rows db);
  if bool_decide ((org, service, fst e) ∈ ssh_binding_rows db) && bool_decide (ssh_user (snd e) ∈ active_users db)
     && is_some_and (λ m, is_some_and enabled (principal_of org (member_principal_id m) db))
          (organization_memberships db !! (org, ssh_user (snd e)))
     && is_some_and (live_flash org) (service_instances db !! service)
  then Some e else None.
