(* ===== verification/Authorize.v ===== *)
(** * Authentication and authorization of API requests

    The part of [heterocloud-api/src/routes.rs] every handler begins with: who
    makes the request ([authenticated_session], [authenticated_actor]), whether
    a change asked for by a browser comes from the console
    ([require_same_origin], [require_csrf]), and whether the account lets the
    caller do it ([authorize_organization], [authorize_actor]), with the audit
    record of the decision; and [error.rs], [heterocloud-auth].

    A handler is a sequence of transactions: its error leaves what was committed
    before.  Hashing, the keyed digest of the CSRF token and the digest of the
    semantics are parameters. *)
From S2P Require Import Prelude Text Json Policy Iam Quota Store Usage Prepare Services FlowAccess Cloud Identity Access.

(** ** Errors *)

Inductive ApiError :=
| BadRequest (message : string)
| ApiConflict
| Forbidden
| TemporaryCredentialCannotIssueDurable
| Internal
| ApiNotFound
| ServiceControlUnavailable
| BrowserRoleSessionExpired
| FlashProviderUnavailable
| SecretManagerUnavailable
| RegistryProviderUnavailable
| TooManyRequests
| ApiServiceInstanceNotReady
| ApiIdentityProviderUnavailable
| SyouyuProviderUnavailable
| SyouyuBucketNotReady
| Unauthorized
(** An error of the database: a conflict if a unique constraint was violated,
    and an internal error otherwise. *)
| DatabaseError.

Definition from_store (e : StoreError) : ApiError :=
  match e with
  | AlreadyExists => ApiConflict
  | Conflict => ApiConflict
  | InvitationUnavailable => BadRequest "The invitation is invalid or no longer available."
  | NotFound => ApiNotFound
  | RequestRejected message => BadRequest message
  | Sql => DatabaseError
  | _ => Internal
  end.

(** ** Handlers *)

Definition api (A : Type) : Type := Db → result ApiError A * Db.

#[export] Instance api_ret : MRet api := λ A a db, (Ok a, db).
#[export] Instance api_bind : MBind api := λ A B f m db,
  match m db with
  | (Ok a, db') => f a db'
  | (Err e, db') => (Err e, db')
  end.

Definition api_fail {A} (e : ApiError) : api A := λ db, (Err e, db).
Definition check (b : bool) (e : ApiError) : api () := if b then mret () else api_fail e.
Definition from_result {A} (m : result ApiError A) : api A := λ db, (m, db).
Definition some_or {A} (e : ApiError) (o : option A) : api A := from_result (ok_or e o).

(** A call of the store: a transaction, a read, a committed transaction with a
    read after it. *)
Definition run {A} (t : tx A) : api A := λ db,
  match t db with
  | Ok (a, db') => (Ok a, db')
  | Err e => (Err (from_store e), db)
  end.
Definition fetch {A} (f : Db → result StoreError A) : api A := λ db, (map_err from_store (f db), db).
Definition ask {A} (f : Db → A) : api A := λ db, (Ok (f db), db).
Definition exec {A} (f : Db → result StoreError A * Db) : api A := λ db,
  let '(m, db') := f db in (map_err from_store m, db').

(** ** Requests *)

(** The headers by name, and the cookies. *)
Record Request := {
  headers : string → option (list Z);
  cookies : string → option string;
}.

Record RuntimeConfig := {
  csrf_key : string;
  allowed_origins : list string;
}.

(** [HeaderValue::to_str], SHA-256, HMAC-SHA-256 and the digest of the
    evaluator's specification. *)
Class WebLib := {
  to_str : list Z → option string;
  token_hash : string → Digest;
  csrf_token : string → string → option string;
  iam_semantics_digest : string;
}.

Definition SESSION_COOKIE : string := "hc_session".
Definition CSRF_HEADER : string := "x-heterocloud-csrf".
Definition AUTHORIZATION : string := "authorization".
Definition ORIGIN : string := "origin".

Definition has_header (name : string) (r : Request) : bool := is_some (headers r name).

Section Requests.
Context `{WebLib}.

(** [headers.get(name).and_then(|value| value.to_str().ok())]. *)
Definition header_text (name : string) (r : Request) : option string := v ← headers r name; to_str v.

Definition constant_time_token_eq (left right : string) : bool :=
  bool_decide (token_hash left = token_hash right).

Definition require_same_origin (config : RuntimeConfig) (r : Request) : result ApiError () :=
  origin ← ok_or Forbidden (header_text ORIGIN r);
  fail_if (negb (existsb (λ allowed, String.eqb allowed origin) (allowed_origins config))) Forbidden.

Definition require_csrf (r : Request) (expected : string) : result ApiError () :=
  supplied ← ok_or Forbidden (header_text CSRF_HEADER r);
  fail_if (negb (constant_time_token_eq supplied expected)) Forbidden.

End Requests.

(** ** Bearer tokens *)

Definition UNDERSCORE : Z := 95.

Definition parse_api_key_prefix (token : string) : result ApiError string :=
  first ← ok_or Unauthorized (split_once UNDERSCORE token);
  fail_if (negb (String.eqb (fst first) "hc")) Unauthorized ;;
  rest ← ok_or Unauthorized (split_once UNDERSCORE (snd first));
  fail_if (negb (len (fst rest) =? 16) || (len (snd rest) <? 32)) Unauthorized ;;
  Ok (fst rest).

Definition is_token_char (b : Z) : bool :=
  is_ascii_alphanumeric b || (b =? HYPHEN) || (b =? UNDERSCORE).

(** [value.get(..16)] and [value.get(16..)] fail at the middle of a character.
    A token whose prefix is cut there has a character that is not ASCII, and is
    refused all the same. *)
Definition parse_cli_access_token_prefix (token : string) : result ApiError string :=
  value ← ok_or Unauthorized (strip_prefix "hcu_" token);
  fail_if (len value <? 16) Unauthorized ;;
  let prefix := of_bytes (take 16 (bytes value)) in
  secret ← ok_or Unauthorized (strip_prefix "_" (of_bytes (drop 16 (bytes value))));
  fail_if ((len secret <? 32) || negb (forallb is_token_char (bytes prefix ++ bytes secret))) Unauthorized ;;
  Ok prefix.

(** Tokens of workloads and role sessions. *)
Definition opaque_token (token : string) : bool :=
  (len token <=? 256) && negb (existsb is_whitespace (chars token)).

(** ** The caller *)

Record AuthenticatedSession := {
  auth_user : SessionUser;
  auth_csrf : string;
  auth_token_hash : Digest;
}.

Inductive AuthenticatedActor :=
| ActorUser (session : AuthenticatedSession)
| ActorWorkload (identity : WorkloadTokenPrincipal)
| ActorCliToken (token : CliAccessTokenPrincipal)
| ActorRoleSession (session : IamRoleSession) (browser : option AuthenticatedSession)
| ActorApiKey (key : ApiKeyPrincipal).

Definition require_durable_credential_issuer (actor : AuthenticatedActor) : result ApiError () :=
  match actor with
  | ActorRoleSession _ _ | ActorWorkload _ => Err TemporaryCredentialCannotIssueDurable
  | _ => Ok ()
  end.

Definition session_user_id_of (s : AuthenticatedSession) : UserId := user_key (session_owner (auth_user s)).
Definition token_user_id (t : CliAccessTokenPrincipal) : UserId := user_key (session_owner (cli_token_user t)).

Section Authentication.
Context `{WebLib, SqlCollation, UuidText, Serde PolicyDocument}.
Context (config : RuntimeConfig).

Definition authenticated_session (r : Request) : api AuthenticatedSession :=
  raw_token ← some_or Unauthorized (cookies r SESSION_COOKIE);
  let digest := token_hash raw_token in
  found ← exec (session_user_by_token_hash digest);
  user ← some_or Unauthorized found;
  csrf ← some_or Internal (csrf_token raw_token (csrf_key config));
  mret (Build_AuthenticatedSession user csrf digest).

Definition authenticated_mutation (r : Request) : api AuthenticatedSession :=
  check (negb (has_header AUTHORIZATION r)) Forbidden ;;
  from_result (require_same_origin config r) ;;
  authenticated ← authenticated_session r;
  from_result (require_csrf r (auth_csrf authenticated)) ;;
  active ← ask (browser_active_role (auth_token_hash authenticated));
  check (negb (is_some active)) Forbidden ;;
  mret authenticated.

Definition authenticated_cli_access_token_value (token : string) : api CliAccessTokenPrincipal :=
  prefix ← from_result (parse_cli_access_token_prefix token);
  found ← exec (authenticate_cli_access_token prefix (token_hash token));
  some_or Unauthorized found.

Definition bearer_actor (token : string) : api AuthenticatedActor :=
  if is_some (strip_prefix "hcw_" token) then
    check (opaque_token token) Unauthorized ;;
    found ← ask (authenticate_workload_token (token_hash token));
    identity ← some_or Unauthorized found;
    mret (ActorWorkload identity)
  else if is_some (strip_prefix "hcr_" token) then
    check (opaque_token token) Unauthorized ;;
    found ← fetch (authenticate_iam_role_session (token_hash token));
    session ← some_or Unauthorized found;
    mret (ActorRoleSession session None)
  else if is_some (strip_prefix "hcu_" token) then
    token ← authenticated_cli_access_token_value token;
    mret (ActorCliToken token)
  else
    prefix ← from_result (parse_api_key_prefix token);
    found ← run (authenticate_api_key prefix (token_hash token));
    key ← some_or Unauthorized found;
    mret (ActorApiKey key).

Definition authenticated_actor (r : Request) : api AuthenticatedActor :=
  match headers r AUTHORIZATION with
  | Some value =>
      authorization ← some_or Unauthorized (to_str value);
      token ← some_or Unauthorized (strip_prefix "Bearer " authorization);
      bearer_actor token
  | None =>
      browser ← authenticated_session r;
      active ← ask (browser_active_role (auth_token_hash browser));
      match active with
      | Some a =>
          check (browser_role_is_active a) BrowserRoleSessionExpired ;;
          found ← fetch (authenticate_browser_role_session (browser_role_session a));
          session ← some_or BrowserRoleSessionExpired found;
          mret (ActorRoleSession session (Some browser))
      | None => mret (ActorUser browser)
      end
  end.

Definition browser_of (actor : AuthenticatedActor) : option AuthenticatedSession :=
  match actor with
  | ActorUser s => Some s
  | ActorRoleSession _ b => b
  | _ => None
  end.

Definition authenticated_actor_mutation (r : Request) : api AuthenticatedActor :=
  actor ← authenticated_actor r;
  match browser_of actor with
  | Some session =>
      from_result (require_same_origin config r) ;;
      from_result (require_csrf r (auth_csrf session))
  | None => mret ()
  end ;;
  mret actor.

(** ** Decisions *)

Definition organization_resource (org : Uuid) (suffix : string) : string :=
  ("hc:org:" ++ uuid_to_string org ++ ":" ++ suffix)%string.

(** [evaluate_account_permissions]: the evaluation with the levels of service
    control policies that the store has. *)
Definition evaluate_account `{Chrono} (context : AuthorizationContext) (org : OrganizationId)
    (act res : string) (implicit_allow : bool) (evaluated_at : DateTime) : api Evaluation :=
  levels ← fetch (service_control_levels org);
  from_result (map_err (λ _, Internal)
    (evaluate_account_permissions context levels org act res implicit_allow evaluated_at)).

Definition decision_text (d : Decision.t) : string :=
  match d with Decision.Allow => "allow" | Decision.Deny => "deny" end.

(** The record of a decision, and the error of a refusal. *)
Definition record_decision (org : OrganizationId) (context : AuthorizationContext) (user : option UserId)
    (act res : string) (metadata : Value) (e : Evaluation) : api AuthorizationContext :=
  id ← run now_v7;
  run (append_audit (Build_AuditRow (Some org) (Some (context_principal_id context)) user
    (uuid_to_string id) act res (decision_text (decision e)) (reason e) metadata)) ;;
  check (bool_decide (decision e = Decision.Allow)) Forbidden ;;
  mret context.

Definition authorize_organization `{Chrono} (user : UserId) (org : OrganizationId) (act res : string)
    : api AuthorizationContext :=
  found ← fetch (authorization_context user org);
  context ← some_or Forbidden found;
  t ← ask now;
  e ← evaluate_account context org act res false (t * NANOS_PER_SECOND);
  record_decision org context (Some user) act res (Object [("semantics_digest", Str iam_semantics_digest)]) e.

(** The context the actor acts in, the user it acts for, and how it was
    authenticated.  A credential of an account is good for that account. *)
Definition actor_context (actor : AuthenticatedActor) (org : OrganizationId)
    : api (AuthorizationContext * option UserId * Value) :=
  match actor with
  | ActorUser session =>
      found ← fetch (authorization_context (session_user_id_of session) org);
      context ← some_or Forbidden found;
      mret (context, Some (session_user_id_of session), Object [("actor", Str "user")])
  | ActorRoleSession session browser =>
      check (bool_decide (session_organization session = org)) Forbidden ;;
      found ← fetch (authorization_context_for_principal (session_principal session) org);
      context ← some_or Forbidden found;
      mret (context,
            match browser with Some b => Some (session_user_id_of b) | None => session_center_user session end,
            Object [("actor", Str "role_session"); ("session_id", Str (uuid_to_string (session_id session)));
                    ("source_arn", Str (session_source_arn session))])
  | ActorCliToken token =>
      check (bool_decide (cli_token_organization token = org)) Forbidden ;;
      found ← fetch (authorization_context (token_user_id token) org);
      context ← some_or Forbidden found;
      mret (context, Some (token_user_id token),
            Object [("actor", Str "cli_oauth_token"); ("token_id", Str (uuid_to_string (cli_token_id token)))])
  | ActorWorkload w =>
      check (bool_decide (workload_organization w = org)) Forbidden ;;
      found ← fetch (authorization_context_for_principal (workload_principal w) org);
      context ← some_or Forbidden found;
      mret (context, None,
            Object [("actor", Str "workload"); ("token_id", Str (uuid_to_string (workload_token_id w)));
                    ("service_instance_id", Str (uuid_to_string (workload_service w)));
                    ("pod_uid", Str (uuid_to_string (workload_pod w)))])
  | ActorApiKey key =>
      check (bool_decide (api_key_organization key = org)) Forbidden ;;
      found ← fetch (authorization_context_for_principal (api_key_principal key) org);
      context ← some_or Forbidden found;
      mret (context, None,
            Object [("actor", Str "api_key"); ("api_key_id", Str (uuid_to_string (api_key_id key)))])
  end.

Definition actor_session_policy (actor : AuthenticatedActor) : option PolicyDocument :=
  match actor with ActorRoleSession session _ => session_policy session | _ => None end.

Definition authorize_actor_with_implicit_allow `{Chrono} (actor : AuthenticatedActor) (org : OrganizationId)
    (act res : string) (implicit_allow : bool) : api AuthorizationContext :=
  found ← actor_context actor org;
  let '(context, user, metadata) := found in
  t ← ask now;
  let evaluated_at := t * NANOS_PER_SECOND in
  e ← evaluate_account context org act res implicit_allow evaluated_at;
  e ← from_result (map_err (λ _, Internal) (enforce_session_policy
         (Build_AuthorizationRequest org org act res evaluated_at) e (actor_session_policy actor)));
  record_decision org context user act res
    (Object [("semantics_digest", Str iam_semantics_digest); ("authentication", metadata)]) e.

Definition authorize_actor `{Chrono} (actor : AuthenticatedActor) (org : OrganizationId) (act res : string)
    : api AuthorizationContext :=
  authorize_actor_with_implicit_allow actor org act res false.

End Authentication.
