(* ===== verification/Outside.v ===== *)
(** * Calls that reach outside

    A handler that asks another system to change something: the database, and the
    requests that were sent there, in their order, whether they were answered or
    not.  What the other system answers is given by the client of it; requests
    that only read are not recorded. *)
From S2P Require Import Prelude Text Json Net Policy Iam RoleTrust Quota Specs Flash Store Usage Provider Prepare Services FlowAccess Cloud Identity Access Authorize.

Definition outside (Q A : Type) : Type := Db → result ApiError A * Db * list Q.

#[export] Instance outside_ret {Q} : MRet (outside Q) := λ A a db, (Ok a, db, []).
#[export] Instance outside_bind {Q} : MBind (outside Q) := λ A B f m db,
  match m db with
  | (Ok a, db1, sent) => let '(x, db', more) := f a db1 in (x, db', sent ++ more)
  | (Err e, db', sent) => (Err e, db', sent)
  end.

(** Nothing is sent. *)
Definition inside {Q A} (m : api A) : outside Q A := λ db, let '(x, db') := m db in (x, db', []).

(** A request, and its answer. *)
Definition emit {Q A} (q : Q) (answer : result ApiError A) : outside Q A := λ db, (answer, db, [q]).

Section Outside.
Context {Q : Type}.

Lemma inside_ok {A} (m : api A) db x db' (sent : list Q) :
  inside m db = (x, db', sent) → m db = (x, db') ∧ sent = [].
Proof. unfold inside. destruct (m db). by intros [= <- <- <-]. Qed.

Lemma outside_cases {A B} (m : outside Q A) (f : A → outside Q B) db x db' sent :
  (m ≫= f) db = (x, db', sent) →
  (∃ e, m db = (Err e, db', sent) ∧ x = Err e) ∨
  (∃ a db1 before after, m db = (Ok a, db1, before) ∧ f a db1 = (x, db', after) ∧ sent = before ++ after).
Proof.
  unfold mbind, outside_bind. destruct (m db) as [[[a|e] db1] before] eqn:E.
  - destruct (f a db1) as [[y d] after] eqn:Ef. intros [= <- <- <-]. right. by exists a, db1, before, after.
  - intros [= <- <- <-]. left. by exists e.
Qed.

Lemma outside_ok {A B} (m : outside Q A) (f : A → outside Q B) db b db' sent :
  (m ≫= f) db = (Ok b, db', sent) →
  ∃ a db1 before after, m db = (Ok a, db1, before) ∧ f a db1 = (Ok b, db', after) ∧ sent = before ++ after.
Proof. by intros [(e & _ & [=])|?]%outside_cases. Qed.

(** Something inside comes first. *)
Lemma inside_cases {A B} (m : api A) (f : A → outside Q B) db x db' sent :
  (inside m ≫= f) db = (x, db', sent) →
  (∃ e, m db = (Err e, db') ∧ x = Err e ∧ sent = []) ∨ (∃ a db1, m db = (Ok a, db1) ∧ f a db1 = (x, db', sent)).
Proof.
  intros [(e & [Hm ->]%inside_ok & ->)|(a & db1 & before & after & [Hm ->]%inside_ok & Hf & ->)]%outside_cases.
  - left. by exists e.
  - right. by exists a, db1.
Qed.

Lemma inside_bind {A B} (m : api A) (f : A → api B) db :
  (inside (m ≫= f) : outside Q B) db = (inside m ≫= λ a, inside (f a)) db.
Proof.
  unfold inside, mbind, api_bind, outside_bind. destruct (m db) as [[a|e] db1]; [|done]. by destruct (f a db1).
Qed.

Lemma inside_ret {A B} (a : A) (f : A → outside Q B) db : (inside (mret a) ≫= f) db = f a db.
Proof. unfold mbind, outside_bind. simpl. by destruct (f a db) as [[]]. Qed.

Lemma inside_assoc {A B C} (m : api A) (g : A → api B) (f : B → outside Q C) db :
  (inside (m ≫= g) ≫= f) db = (inside m ≫= λ a, inside (g a) ≫= f) db.
Proof.
  unfold inside, mbind, api_bind, outside_bind. destruct (m db) as [[a|e] db1]; [|done].
  destruct (g a db1) as [[b|e] db2]; [|done]. by destruct (f b db2) as [[]].
Qed.

Lemma outside_assoc {A B C} (m : outside Q A) (f : A → outside Q B) (g : B → outside Q C) db :
  ((m ≫= f) ≫= g) db = (m ≫= λ a, f a ≫= g) db.
Proof.
  unfold mbind, outside_bind. destruct (m db) as [[[a|e] db1] s1]; [|done].
  destruct (f a db1) as [[[b|e] db2] s2]; [|done]. destruct (g b db2) as [[y db3] s3]. by rewrite app_assoc.
Qed.

(** Whatever is sent has a property. *)
Definition asks {A} (P : Q → Prop) (m : outside Q A) : Prop :=
  ∀ db x db' sent, m db = (x, db', sent) → Forall P sent.

Lemma asks_inside {A} P (m : api A) : asks P (inside m).
Proof. intros db x db' sent [_ ->]%inside_ok. constructor. Qed.

Lemma asks_send {A} (P : Q → Prop) q (answer : result ApiError A) : P q → asks P (emit q answer).
Proof. intros Hq db x db' sent [= _ _ <-]. by repeat constructor. Qed.

Lemma asks_bind {A B} P (m : outside Q A) (f : A → outside Q B) : asks P m → (∀ a, asks P (f a)) → asks P (m ≫= f).
Proof.
  intros Hm Hf db x db' sent [(e & He & _)|(a & db1 & before & after & Ha & Hb & ->)]%outside_cases; [by eapply Hm|].
  apply Forall_app. split; [by eapply Hm | by eapply Hf].
Qed.

End Outside.
