(* ===== verification/IdentityCenter.v ===== *)
(** * The identity center of an organization

    The operations of [heterocloud-store/src/identity_center.rs]: permission
    sets, groups of the directory, assignments of a permission set in an account
    to a user or a group, and the role sessions opened with an assignment. *)
From stdpp Require Import sorting.
From S2P Require Import Prelude Text Json Policy Iam Quota Store Usage Prepare Services FlowAccess Cloud Identity Access.

Definition permission_set_rows (db : Db) := identity_center_permission_sets (access db).
Definition center_group_rows (db : Db) := identity_center_groups (access db).
Definition center_member_rows (db : Db) := identity_center_group_members (access db).
Definition assignment_rows (db : Db) := identity_center_assignments (access db).

(** The organization an account manages, and the number of the account. *)
Definition management_organization (management : OrganizationId) (db : Db) : option (Uuid * Z) :=
  e ← find_row (λ m, bool_decide (m = management)) (cloud_management_accounts db);
  a ← account_rows (cloud db) !! management;
  Some (fst e, account_number a).

(** The principal of an active user of the management account. *)
Definition directory_user (management : OrganizationId) (user : UserId) (db : Db) : option PrincipalId :=
  m ← organization_memberships db !! (management, user);
  p ← principal_of management (member_principal_id m) db;
  if enabled p && bool_decide (user ∈ active_users db) then Some (member_principal_id m) else None.

Definition require_directory_user (management : OrganizationId) (user : UserId) : tx PrincipalId :=
  optional NotFound (query (directory_user management user)).

(** ** Permission sets *)

(** [name ~ '^[A-Za-z0-9+=,.@_-]{1,32}$']. *)
Definition valid_set_name (s : string) : bool :=
  in_range 1 32 (Z.of_nat (length (bytes s)))
  && forallb (λ b, is_ascii_alphanumeric b || bool_decide (b ∈ bytes "+=,.@_-")) (bytes s).

Definition active_set (org id : Uuid) (db : Db) : option PermissionSetRow :=
  ps ← permission_set_rows db !! id;
  if bool_decide (set_organization ps = org) && negb (is_some (set_deleted_at ps)) then Some ps else None.

Definition active_center_group (org id : Uuid) (db : Db) : option CenterGroupRow :=
  g ← center_group_rows db !! id;
  if bool_decide (center_group_organization g = org) && negb (is_some (center_group_deleted_at g))
  then Some g else None.

Definition on_permission_sets (f : Db → gmap Uuid PermissionSetRow → gmap Uuid PermissionSetRow) : tx () :=
  on_access (λ db a, set_permission_sets (f db (identity_center_permission_sets a)) a).

Definition set_session_policy (document : Value) (duration : Z) (ps : PermissionSetRow) : PermissionSetRow :=
  Build_PermissionSetRow (set_organization ps) (set_name ps) document duration (set_deleted_at ps).
Definition delete_set (t : Z) (ps : PermissionSetRow) : PermissionSetRow :=
  Build_PermissionSetRow (set_organization ps) (set_name ps) (set_document ps) (session_duration_seconds ps) (Some t).

Definition valid_duration (d : Z) : bool := in_range 3600 43200 d.

(** Rewrite the policies of the roles of a permission set. *)
Definition rewrite_policies (org id : Uuid) (document : Value) (digest : string) (db : Db)
    (a : AccessTables) : AccessTables :=
  let policy_of_set pid row :=
    existsb (λ e, bool_decide (fst (fst e) = id) && bool_decide (account_role_policy (snd e) = pid)
                  && bool_decide (snd (fst e) = policy_organization row))
      (map_to_list (identity_center_account_roles a))
    && is_some_and (λ ps, bool_decide (set_organization ps = org)) (permission_set_rows db !! id) in
  set_iam_policies
    (map_imap (λ pid row, Some (if policy_of_set pid row
       then Build_PolicyRow (policy_organization row) (policy_name row) document digest else row)) (iam_policies a)) a.

Section Sets.
Context `{SqlText, Serde PolicyDocument}.

Definition create_identity_center_permission_set (management : OrganizationId) (name : string)
    (document : PolicyDocument) (duration : Z) : tx Uuid :=
  org ← optional NotFound (query (management_organization management));
  id ← now_v7;
  require (λ db, negb (is_some (permission_set_rows db !! id)) && valid_set_name name
    && valid_duration duration
    && negb (exists_row (λ _ ps, bool_decide (set_organization ps = fst org)
                                 && negb (is_some (set_deleted_at ps))
                                 && String.eqb (sql_lower (set_name ps)) (sql_lower name)) (permission_set_rows db))) ;;
  on_permission_sets (λ _, insert id (Build_PermissionSetRow (fst org) name (to_value document) duration None)) ;;
  mret id.

Definition update_identity_center_permission_set (management : OrganizationId) (id : Uuid)
    (document : PolicyDocument) (duration : Z) (digest : string) : tx () :=
  org ← optional NotFound (query (management_organization management));
  _ ← optional NotFound (query (active_set (fst org) id));
  require (λ _, valid_duration duration) ;;
  on_permission_sets (λ _, alter (set_session_policy (to_value document) duration) id) ;;
  require (λ _, (length (chars digest) =? 64)%nat) ;;
  on_access (rewrite_policies (fst org) id (to_value document) digest).

Definition delete_identity_center_permission_set (management : OrganizationId) (id : Uuid) : tx () :=
  org ← optional NotFound (query (management_organization management));
  _ ← optional NotFound (query (active_set (fst org) id));
  active ← query (λ db, exists_row (λ _ a, bool_decide (assignment_organization a = fst org)
    && bool_decide (assignment_set a = id) && negb (is_some (assignment_revoked_at a))) (assignment_rows db));
  tx_fail_if active (RequestRejected "Remove all account assignments before deleting the permission set.") ;;
  on_permission_sets (λ db, alter (delete_set (now db)) id).

(** ** Groups of the directory *)

Definition create_identity_center_group (management : OrganizationId) (name : string) : tx Uuid :=
  org ← optional NotFound (query (management_organization management));
  id ← now_v7;
  require (λ db, negb (is_some (center_group_rows db !! id)) && valid_name_column name
    && negb (exists_row (λ _ g, bool_decide (center_group_organization g = fst org)
                                && negb (is_some (center_group_deleted_at g))
                                && String.eqb (sql_lower (center_group_name g)) (sql_lower name)) (center_group_rows db))) ;;
  on_access (λ _ a, set_center_groups
    (<[id := Build_CenterGroupRow (fst org) name None]> (identity_center_groups a)) a) ;;
  mret id.

End Sets.

Section Directory.
Context `{UuidText}.

(** A member of the account without permissions, as the owner of its quota. *)
Definition ensure_account_user (account : OrganizationId) (user : UserId) : tx () :=
  known ← query (λ db, bool_decide (account ∈ organizations db));
  tx_fail_if (negb known) NotFound ;;
  exists_already ← query (is_member account user);
  if exists_already : bool then mret ()
  else
    detached ← query (λ db, exists_row (λ _ p, bool_decide (principal_organization_id p = account)
                                               && bool_decide (user_id p = Some user)) (principals db));
    tx_fail_if detached (RequestRejected "The account has a detached principal for this user; reconcile it before assigning access.") ;;
    principal ← now_v7;
    insert_principal principal account "user" ("IdentityCenter-" ++ uuid_simple user)%string (Some user) (Some user) ;;
    insert_membership account user principal "member".

Fixpoint for_each_tx {A} (f : A → tx ()) (l : list A) : tx () :=
  match l with
  | [] => mret ()
  | x :: l => f x ;; for_each_tx f l
  end.

(** SELECT DISTINCT account_id ... ORDER BY account_id. *)
Definition assigned_accounts (org group : Uuid) (db : Db) : list OrganizationId :=
  elements (list_to_set (omap (λ e, if bool_decide (assignment_organization (snd e) = org)
      && String.eqb (subject_type (snd e)) "group" && bool_decide (subject_id (snd e) = group)
      && negb (is_some (assignment_revoked_at (snd e)))
    then Some (assignment_account (snd e)) else None) (map_to_list (assignment_rows db))) : gset Uuid).

Definition is_center_member (group : Uuid) (user : UserId) (_ : Uuid) (m : CenterMemberRow) : bool :=
  bool_decide (center_member_group m = group) && bool_decide (center_member_user m = user).

(** DELETE FROM identity_center_group_members; role sessions forget the
    membership they were opened with (ON DELETE SET NULL). *)
Definition forget_membership (gone : gset Uuid) : RoleSessionRow → RoleSessionRow :=
  map_grant (λ g, Build_CenterGrant (grant_assignment g) (grant_generation g) (grant_user g)
    (forget_reference (λ id, bool_decide (id ∈ gone)) (grant_group_membership g)) (grant_target_principal g)
    (grant_source_membership g) (grant_target_membership g)).

Definition delete_center_members (p : Uuid → CenterMemberRow → bool) : tx () :=
  on_access (λ _ a,
    let gone := filter (λ e, p (fst e) (snd e) = true) (identity_center_group_members a) in
    set_role_sessions (forget_membership (dom gone) <$> iam_role_sessions a)
      (set_center_members (filter (λ e, p (fst e) (snd e) = false) (identity_center_group_members a)) a)).

Definition change_identity_center_group_member (management : OrganizationId) (group : Uuid)
    (user : UserId) (add : bool) : tx () :=
  org ← optional NotFound (query (management_organization management));
  _ ← optional NotFound (query (active_center_group (fst org) group));
  if add then
    _ ← require_directory_user management user;
    accounts ← query (assigned_accounts (fst org) group);
    for_each_tx (λ account, ensure_account_user account user) (merge_sort N.le accounts) ;;
    id ← now_v7;
    present ← query (λ db, exists_row (is_center_member group user) (center_member_rows db));
    tx_fail_if present AlreadyExists ;;
    require (λ db, negb (is_some (center_member_rows db !! id)) && is_some (users db !! user)) ;;
    on_access (λ _ a, set_center_members
      (<[id := Build_CenterMemberRow group user]> (identity_center_group_members a)) a)
  else
    present ← query (λ db, exists_row (is_center_member group user) (center_member_rows db));
    tx_fail_if (negb present) NotFound ;;
    delete_center_members (is_center_member group user).

Definition delete_center_group (t : Z) (g : CenterGroupRow) : CenterGroupRow :=
  Build_CenterGroupRow (center_group_organization g) (center_group_name g) (Some t).

Definition delete_identity_center_group (management : OrganizationId) (group : Uuid) : tx () :=
  org ← optional NotFound (query (management_organization management));
  _ ← optional NotFound (query (active_center_group (fst org) group));
  active ← query (λ db, exists_row (λ _ a, bool_decide (assignment_organization a = fst org)
    && String.eqb (subject_type a) "group" && bool_decide (subject_id a = group)
    && negb (is_some (assignment_revoked_at a))) (assignment_rows db));
  tx_fail_if active (RequestRejected "Remove all account assignments before deleting the group.") ;;
  delete_center_members (λ _ m, bool_decide (center_member_group m = group)) ;;
  on_access (λ db a, set_center_groups (alter (delete_center_group (now db)) group (identity_center_groups a)) a).

End Directory.

(** ** Assignments *)

Definition bump_assignment (a : AssignmentRow) : AssignmentRow :=
  Build_AssignmentRow (assignment_organization a) (assignment_set a) (assignment_account a) (assignment_role a)
    (subject_type a) (subject_id a) (assignment_generation a + 1) None.
Definition revoke_assignment (t : Z) (a : AssignmentRow) : AssignmentRow :=
  Build_AssignmentRow (assignment_organization a) (assignment_set a) (assignment_account a) (assignment_role a)
    (subject_type a) (subject_id a) (assignment_generation a) (Some t).

Definition same_assignment (org set : Uuid) (account : OrganizationId) (ty : string) (subject : Uuid)
    (a : AssignmentRow) : bool :=
  bool_decide (assignment_organization a = org) && bool_decide (assignment_set a = set)
  && bool_decide (assignment_account a = account) && String.eqb (subject_type a) ty
  && bool_decide (subject_id a = subject).

Definition on_assignments (f : Db → gmap Uuid AssignmentRow → gmap Uuid AssignmentRow) : tx () :=
  on_access (λ db a, set_assignments (f db (identity_center_assignments a)) a).

Section Assignments.
Context `{UuidText}.

(** The trust policy of a role of the identity center. *)
Definition center_trust (management_number : Z) : Value :=
  Object [("Version", Str "2012-10-17");
          ("Statement", Object [("Effect", Str "Allow"); ("Action", Str "sts:AssumeRole");
             ("Principal", Object [("AWS", Str ("arn:aws:iam::" ++ int_to_string management_number ++ ":root")%string)])])].

(** The role of a permission set in an account, with its policy. *)
Definition create_account_role (set : Uuid) (account : OrganizationId) (management_number : Z)
    (document : Value) (digest : string) : tx PrincipalId :=
  role ← now_v7;
  policy ← now_v7;
  let name := ("HCIdentityCenter_" ++ uuid_simple set)%string in
  insert_principal role account "service_account" name None None ;;
  insert_role role (Build_RoleRow account name (center_trust management_number) 43200) ;;
  insert_iam_policy policy (Build_PolicyRow account name document digest) ;;
  binding ← now_v7;
  insert_binding binding (Build_BindingRow account role policy) ;;
  on_access (λ _ a, set_account_roles
    (<[(set, account) := Build_AccountRoleRow role policy]> (identity_center_account_roles a)) a) ;;
  mret role.

(** The subject is a user or a group of the directory, and its users are
    members of the account. *)
Definition assign_subject (management org account : Uuid) (ty : string) (subject : Uuid) : tx () :=
  if String.eqb ty "user" then
    _ ← require_directory_user management subject;
    ensure_account_user account subject
  else if String.eqb ty "group" then
    _ ← optional NotFound (query (active_center_group org subject));
    members ← query (λ db, omap (λ e, if bool_decide (center_member_group (snd e) = subject)
                                      then Some (center_member_user (snd e)) else None)
                             (map_to_list (center_member_rows db)));
    for_each_tx (λ user, _ ← require_directory_user management user; ensure_account_user account user)
      (merge_sort N.le members)
  else reject (RequestRejected "Subject type must be user or group.").

Definition create_identity_center_assignment (management : OrganizationId) (set : Uuid)
    (account : OrganizationId) (ty : string) (subject : Uuid) (digest : string) : tx Uuid :=
  org ← optional NotFound (query (management_organization management));
  ps ← optional NotFound (query (active_set (fst org) set));
  inside ← query (λ db, bool_decide (cloud_organization_accounts db !! account = Some (fst org)));
  tx_fail_if (negb inside) NotFound ;;
  assign_subject management (fst org) account ty subject ;;
  existing ← query (λ db, identity_center_account_roles (access db) !! (set, account));
  role ← (match existing with
          | Some r => mret (account_role_principal r)
          | None => create_account_role set account (snd org) (set_document ps) digest
          end : tx PrincipalId);
  id ← now_v7;
  previous ← query (λ db, find_row (same_assignment (fst org) set account ty subject) (assignment_rows db));
  match previous with
  | Some (old, a) =>
      tx_fail_if (negb (is_some (assignment_revoked_at a))) AlreadyExists ;;
      on_assignments (λ _, alter bump_assignment old) ;;
      mret old
  | None =>
      require (λ db, negb (is_some (assignment_rows db !! id))) ;;
      on_assignments (λ _, insert id (Build_AssignmentRow (fst org) set account role ty subject 1 None)) ;;
      mret id
  end.

Definition revoke_identity_center_assignment (management : OrganizationId) (id : Uuid) : tx () :=
  found ← query (λ db, is_some_and (λ a,
    bool_decide (cloud_management_accounts db !! assignment_organization a = Some management)
    && negb (is_some (assignment_revoked_at a))) (assignment_rows db !! id));
  tx_fail_if (negb found) NotFound ;;
  on_assignments (λ db, alter (revoke_assignment (now db)) id).

(** ** Sessions *)

Record IdentityCenterSession := {
  center_session : Uuid;
  center_account : OrganizationId;
  center_principal : PrincipalId;
  center_role_arn : string;
  center_expires_at : Z;
}.

(** The assignment, its permission set, role and account. *)
Definition open_assignment (org assignment : Uuid) (db : Db)
    : option (AssignmentRow * PermissionSetRow * RoleRow * AccountRow) :=
  a ← assignment_rows db !! assignment;
  ps ← active_set (assignment_organization a) (assignment_set a) db;
  r ← role_rows db !! assignment_role a;
  p ← principals db !! assignment_role a;
  account ← account_rows (cloud db) !! assignment_account a;
  if bool_decide (assignment_organization a = org) && negb (is_some (assignment_revoked_at a))
     && bool_decide (role_organization r = assignment_account a) && enabled p
  then Some (a, ps, r, account) else None.

(** The membership in the group, for an assignment to a group. *)
Definition group_membership_for (org : Uuid) (a : AssignmentRow) (user : UserId) (db : Db)
    : result StoreError (option Uuid) :=
  if String.eqb (subject_type a) "user" && bool_decide (subject_id a = user) then Ok None
  else if String.eqb (subject_type a) "group" then
    match active_center_group org (subject_id a) db with
    | Some _ => e ← ok_or NotFound (find_row (is_center_member (subject_id a) user 0%N) (center_member_rows db));
                Ok (Some (fst e))
    | None => Err NotFound
    end
  else Err NotFound.

Definition create_identity_center_session (management : OrganizationId) (assignment : Uuid)
    (user : UserId) (hash : Digest) : tx IdentityCenterSession :=
  org ← optional NotFound (query (management_organization management));
  source ← require_directory_user management user;
  found ← optional NotFound (query (open_assignment (fst org) assignment));
  let '(a, ps, r, account) := found in
  group_membership ← read (group_membership_for (fst org) a user);
  target ← optional NotFound (query (λ db,
    m ← organization_memberships db !! (assignment_account a, user);
    p ← principal_of (assignment_account a) (member_principal_id m) db;
    if enabled p then Some m else None));
  source_member ← optional NotFound (query (λ db,
    m ← organization_memberships db !! (management, user);
    if bool_decide (member_principal_id m = source) then Some m else None));
  prune_role_sessions (assignment_role a) ;;
  live ← query (live_role_sessions (assignment_role a));
  tx_fail_if (MAX_ROLE_SESSIONS <=? live) (RequestRejected "Too many active role sessions.") ;;
  id ← now_v7;
  t ← query now;
  let expires := t + session_duration_seconds ps in
  insert_role_session id (Build_RoleSessionRow (assignment_account a) (assignment_role a) management source
    (user_arn (snd org) source) ("identity-center-" ++ uuid_simple user)%string None hash expires None
    (Some (Build_CenterGrant assignment (assignment_generation a) user group_membership
       (Some (member_principal_id target)) (Some (identity_center_membership_id source_member))
       (Some (identity_center_membership_id target))))) ;;
  mret (Build_IdentityCenterSession id (assignment_account a) (assignment_role a)
          (role_arn (account_number account) (role_name r)) expires).

End Assignments.
