(* ===== verification/Routes.v ===== *)
(** * The handlers of IAM, roles and the identity center

    The handlers of [heterocloud-api/src/routes.rs] and
    [identity_center_routes.rs] that change the tables of IAM, from the request
    to the calls of the store. *)
From S2P Require Import Prelude Text Json Net Policy Iam RoleTrust Quota Specs Store Usage Provider Prepare Services FlowAccess Cloud Identity Access IdentityCenter Authorize.

(** ** Validation *)

Definition MAX_NAME_LENGTH : Z := 120.
Definition validate_name (name : string) : result ApiError () :=
  fail_if (negb (in_range 1 MAX_NAME_LENGTH (Z.of_nat (length (trim_chars (chars name))))))
    (BadRequest "name must contain between 1 and 120 characters").

Definition is_iam_name_byte (b : Z) : bool := is_ascii_alphanumeric b || bool_decide (b ∈ bytes "+=,.@_-").

Definition validate_iam_role_name (name : string) : result ApiError () :=
  fail_if ((len name =? 0) || (64 <? len name) || negb (forallb is_iam_name_byte (bytes name)))
    (BadRequest "Role names must use 1 to 64 ASCII letters, numbers, or +=,.@_-").

Definition validate_set_name (name : string) : result ApiError () :=
  fail_if ((len name =? 0) || (32 <? len name) || negb (forallb is_iam_name_byte (bytes name)))
    (BadRequest "Permission set names must use 1 to 32 ASCII letters, numbers, or +=,.@_-.").

Definition validate_session_name (name : string) : result ApiError () :=
  fail_if ((len name <? 2) || (64 <? len name) || negb (forallb is_iam_name_byte (bytes name)))
    (BadRequest "Session names must use 2 to 64 ASCII letters, numbers, or +=,.@_-").

Definition validate_duration (d : Z) : result ApiError () :=
  fail_if (negb (in_range 3600 43200 d)) (BadRequest "Session duration must be between one and twelve hours.").

Definition validate_invitation_ttl (hours : Z) : result ApiError () :=
  fail_if (negb (in_range 1 24 hours)) (BadRequest "expires_in_hours must be 1..24").

(** [str::split_once] on a string: the first place it occurs at. *)
Fixpoint split_once_str (sep s : string) : option (string * string) :=
  match strip_prefix sep s with
  | Some rest => Some (EmptyString, rest)
  | None =>
      match s with
      | EmptyString => None
      | String a s' => e ← split_once_str sep s'; Some (String a (fst e), snd e)
      end
  end.

Definition parse_iam_role_arn (arn : string) : result ApiError (string * string) :=
  rest ← ok_or (BadRequest "Invalid role ARN.") (strip_prefix "arn:aws:iam::" arn);
  parts ← ok_or (BadRequest "Invalid role ARN.") (split_once_str ":role/" rest);
  fail_if (negb (len (fst parts) =? 12) || negb (forallb is_ascii_digit (bytes (fst parts))))
    (BadRequest "Invalid role ARN.") ;;
  validate_iam_role_name (snd parts) ;;
  Ok parts.

Definition role_trust_message (e : RoleTrustError) : string :=
  match e with Invalid m => ("invalid role trust policy: " ++ m)%string end.

Section Documents.
Context `{Chrono, JsonText, Serde PolicyDocument, Serde AwsPolicy, Serde RoleTrustDocument}.

(** [serde_json::to_string(value)?.chars().count()]. *)
Definition json_characters (v : Value) : result ApiError Z :=
  text ← ok_or Internal (to_vec v); Ok (Z.of_nat (length (chars (of_bytes text)))).

Definition validate_role_trust (v : Value) : result ApiError RoleTrustDocument :=
  size ← json_characters v;
  fail_if (4096 <? size) (BadRequest "Role trust policies are limited to 4,096 characters.") ;;
  trust ← ok_or (BadRequest "Invalid role trust policy: {error}") (from_value v);
  map_err (λ e, BadRequest (role_trust_message e)) (RoleTrustDocument_validate trust) ;;
  Ok trust.

Definition parse_policy_document (v : Value) : result ApiError PolicyDocument :=
  document ← (if is_some (get "Statement" v)
              then map_err (λ e, BadRequest (domain_message e)) (from_aws_json from_value v)
              else ok_or (BadRequest "Invalid policy: {error}") (from_value v));
  map_err (λ e, BadRequest (domain_message e)) (PolicyDocument_validate document) ;;
  Ok document.

Definition parse_session_policy (v : option Value) : result ApiError (option PolicyDocument) :=
  match v with
  | None => Ok None
  | Some v =>
      size ← json_characters v;
      fail_if (2048 <? size) (BadRequest "Session policies are limited to 2,048 characters.") ;;
      d ← parse_policy_document v; Ok (Some d)
  end.

End Documents.

(** ** Switches *)

Definition require_service_control_enabled : api () :=
  on ← ask (λ db, scp_enabled (cloud db)); check on ServiceControlUnavailable.
Definition require_roles_enabled : api () :=
  on ← ask (λ db, roles_enabled (activation (access db))); check on ServiceControlUnavailable.

Definition has_conditions (d : PolicyDocument) : bool :=
  existsb (λ s, negb (is_nil (conditions s))) (statements d).
Definition require_policy_conditions_enabled (d : PolicyDocument) : api () :=
  if has_conditions d then
    on ← ask (λ db, iam_conditions_enabled (activation (access db)));
    check on (BadRequest "IAM policy conditions are not enabled yet.")
  else mret ().

(** ** Quota owners *)

Definition principal_quota_user (org : OrganizationId) (principal : PrincipalId) (db : Db)
    : result StoreError (option UserId) :=
  match principal_of org principal db with
  | Some p => fail_if (negb (enabled p)) NotFound ;;
              Ok (match user_id p with Some u => Some u | None => principal_quota_user_id p end)
  | None => Err NotFound
  end.

Definition quota_user_for_actor (actor : AuthenticatedActor) (org : OrganizationId) : api (option UserId) :=
  match actor with
  | ActorUser session => mret (Some (session_user_id_of session))
  | ActorCliToken token =>
      check (bool_decide (cli_token_organization token = org)) Forbidden ;; mret (Some (token_user_id token))
  | ActorWorkload w =>
      check (bool_decide (workload_organization w = org)) Forbidden ;;
      fetch (service_quota_user org (workload_service w))
  | ActorApiKey key =>
      check (bool_decide (api_key_organization key = org)) Forbidden ;;
      fetch (principal_quota_user org (api_key_principal key))
  | ActorRoleSession session _ =>
      check (bool_decide (session_organization session = org)) Forbidden ;;
      match session_center_user session with
      | Some user => mret (Some user)
      | None => fetch (principal_quota_user org (session_principal session))
      end
  end.

(** ** The identity of a workload *)

Definition AUDIENCE : string := "heterocloud-workload".

Record ReviewUser := {
  username : string;
  review_extra : list (string * list string);
}.
Record ReviewStatus := {
  review_authenticated : bool;
  review_audiences : list string;
  review_user : option ReviewUser;
}.
Record VerifiedWorkload := {
  verified_service : Uuid;
  verified_pod : Uuid;
  verified_role : Uuid;
}.

Definition valid_label (value : string) : bool :=
  (1 <=? len value) && (len value <=? 253)
  && forallb (λ b, is_ascii_lowercase b || is_ascii_digit b || (b =? HYPHEN) || (b =? DOT)) (bytes value).

Definition extra_one (extra : list (string * list string)) (name : string) : option string :=
  match field name extra with Some [v] => Some v | _ => None end.

(** [pod["a"]["b"]], and its comparison with a string. *)
Definition at_key (k : string) (v : Value) : Value := default Null (get k v).
Definition is_text (s : string) (v : Value) : bool :=
  match v with Str t => String.eqb t s | _ => false end.
Definition is_null (v : Value) : bool := match v with Null => true | _ => false end.

Section Workload.
Context `{UuidText}.

Definition verify_pod (pod : Value) (user namespace uid : string) : option VerifiedWorkload :=
  let metadata := at_key "metadata" pod in
  if negb (is_text uid (at_key "uid" metadata)) || negb (is_text namespace (at_key "namespace" metadata))
     || is_some_and (λ v, negb (is_null v)) (get "deletionTimestamp" metadata)
     || negb (is_text "Running" (at_key "phase" (at_key "status" pod)))
  then None else
  label ← as_str (at_key "flash.heterocloud.io/instance" (at_key "labels" metadata));
  service ← uuid_parse label;
  let account := ("flash-" ++ uuid_simple service)%string in
  if negb (String.eqb user ("system:serviceaccount:" ++ namespace ++ ":" ++ account)%string)
     || negb (is_text account (at_key "serviceAccountName" (at_key "spec" pod)))
  then None else
  annotation ← as_str (at_key "iam.heterocloud.io/task-role" (at_key "annotations" metadata));
  task_role ← uuid_parse annotation;
  pod_uid ← uuid_parse uid;
  Some (Build_VerifiedWorkload service pod_uid task_role).

(** [review] and [get_pod] are the answers of the Kubernetes API. *)
Definition verify_workload (review : string → option ReviewStatus) (get_pod : string → option Value)
    (namespace subject_token : string) : option VerifiedWorkload :=
  if (len subject_token =? 0) || (16384 <? len subject_token) then None else
  status ← review subject_token;
  if negb (review_authenticated status && existsb (λ a, String.eqb a AUDIENCE) (review_audiences status))
  then None else
  user ← review_user status;
  pod_name ← extra_one (review_extra user) "authentication.kubernetes.io/pod-name";
  pod_uid ← extra_one (review_extra user) "authentication.kubernetes.io/pod-uid";
  if negb (valid_label pod_name) then None else
  pod ← get_pod pod_name;
  verify_pod pod (username user) namespace pod_uid.

Definition flash_service_resource (org service : Uuid) : string :=
  organization_resource org ("flash/instance/" ++ uuid_to_string service)%string.

Definition exchange_workload_identity `{WebLib} (verify : string → option VerifiedWorkload)
    (grant_type subject_token_type subject_token secret : string) : api (WorkloadTokenPrincipal * string) :=
  check (String.eqb grant_type "urn:ietf:params:oauth:grant-type:token-exchange"
         && String.eqb subject_token_type "urn:ietf:params:oauth:token-type:jwt")
    (BadRequest "Use a workload JWT with the token-exchange grant") ;;
  workload ← some_or Unauthorized (verify subject_token);
  let access_token := ("hcw_" ++ secret)%string in
  t ← ask now;
  identity ← run (mint_workload_token (verified_service workload) (verified_role workload)
                    (verified_pod workload) (token_hash access_token) (t + 900));
  id ← run now_v7;
  run (append_audit (Build_AuditRow (Some (workload_organization identity)) (Some (workload_principal identity)) None
    (uuid_to_string id) "iam:AssumeTaskRole"
    (flash_service_resource (workload_organization identity) (workload_service identity)) "allow"
    "verified_pod_bound_identity"
    (Object [("pod_uid", Str (uuid_to_string (workload_pod identity)));
             ("token_id", Str (uuid_to_string (workload_token_id identity)))]))) ;;
  mret (identity, access_token).

End Workload.

Section Handlers.
Context `{WebLib, SqlText, SqlCollation, UuidText, Chrono, JsonText}.
Context `{Serde PolicyDocument, Serde AwsPolicy, Serde RoleTrustDocument}.
Context (config : RuntimeConfig).

Definition principal_resource (org : OrganizationId) (principal : PrincipalId) : string :=
  organization_resource org ("iam/principal/" ++ uuid_to_string principal)%string.
Definition role_resource (org : OrganizationId) (principal : PrincipalId) : string :=
  organization_resource org ("iam/role/" ++ uuid_to_string principal)%string.
Definition group_resource (org : OrganizationId) (group : Uuid) : string :=
  organization_resource org ("iam/group/" ++ uuid_to_string group)%string.

Definition authorize_task_role (actor : AuthenticatedActor) (org : OrganizationId) (task_role : option PrincipalId)
    : api () :=
  match task_role with
  | Some r =>
      authorize_actor actor org "iam:PassRole" (principal_resource org r) ;;
      usable ← ask (enabled_task_role org r);
      check usable (BadRequest "task_role must be an enabled service account in this organization")
  | None => mret ()
  end.

(** *** Policies, bindings, boundaries *)

Definition post_policy (r : Request) (org : OrganizationId) (name : string) (document : Value) : api Uuid :=
  actor ← authenticated_actor_mutation config r;
  from_result (validate_name name) ;;
  d ← from_result (parse_policy_document document);
  require_policy_conditions_enabled d ;;
  authorize_actor actor org "iam:CreatePolicy" (organization_resource org "iam/policy/*") ;;
  exec (create_policy org name d iam_semantics_digest).

Definition post_binding (r : Request) (org : OrganizationId) (principal : PrincipalId) (policy : Uuid) : api Uuid :=
  actor ← authenticated_actor_mutation config r;
  authorize_actor actor org "iam:CreateBinding" (organization_resource org "iam/binding/*") ;;
  run (create_binding org principal policy).

Definition delete_iam_binding (r : Request) (org : OrganizationId) (id : Uuid) : api () :=
  actor ← authenticated_actor_mutation config r;
  authorize_actor actor org "iam:DeleteBinding"
    (organization_resource org ("iam/binding/" ++ uuid_to_string id)%string) ;;
  run (delete_binding org id).

Definition change_permissions_boundary (actor : AuthenticatedActor) (account : OrganizationId)
    (principal : PrincipalId) (policy : option Uuid) : api () :=
  authorize_actor actor account
    (if is_some policy then "iam:PutPermissionsBoundary" else "iam:DeletePermissionsBoundary")
    (principal_resource account principal) ;;
  require_service_control_enabled ;;
  run (set_permissions_boundary account principal policy).

Definition put_permissions_boundary (r : Request) (account : OrganizationId) (principal : PrincipalId)
    (policy : Uuid) : api () :=
  actor ← authenticated_actor_mutation config r;
  change_permissions_boundary actor account principal (Some policy).
Definition delete_permissions_boundary (r : Request) (account : OrganizationId) (principal : PrincipalId) : api () :=
  actor ← authenticated_actor_mutation config r;
  change_permissions_boundary actor account principal None.

(** *** Groups *)

Definition post_iam_group (r : Request) (account : OrganizationId) (name : string) : api Uuid :=
  actor ← authenticated_actor_mutation config r;
  from_result (validate_name name) ;;
  authorize_actor actor account "iam:CreateGroup" (organization_resource account "iam/group/*") ;;
  require_service_control_enabled ;;
  run (create_iam_group account name).

Definition remove_iam_group (r : Request) (account : OrganizationId) (group : Uuid) : api () :=
  actor ← authenticated_actor_mutation config r;
  authorize_actor actor account "iam:DeleteGroup" (group_resource account group) ;;
  require_service_control_enabled ;;
  run (delete_iam_group account group).

Definition put_iam_group_member (r : Request) (account : OrganizationId) (group : Uuid) (principal : PrincipalId)
    (add : bool) : api () :=
  actor ← authenticated_actor_mutation config r;
  authorize_actor actor account (if add then "iam:AddUserToGroup" else "iam:RemoveUserFromGroup")
    (group_resource account group) ;;
  require_service_control_enabled ;;
  run (change_iam_group_member account group principal add).

Definition put_iam_group_policy (r : Request) (account : OrganizationId) (group policy : Uuid)
    (attach : bool) : api () :=
  actor ← authenticated_actor_mutation config r;
  authorize_actor actor account (if attach then "iam:AttachGroupPolicy" else "iam:DetachGroupPolicy")
    (group_resource account group) ;;
  require_service_control_enabled ;;
  run (change_iam_group_policy account group policy attach).

(** *** Service accounts and their keys *)

Definition post_service_account (r : Request) (org : OrganizationId) (name : string) : api PrincipalId :=
  actor ← authenticated_actor_mutation config r;
  from_result (validate_name name) ;;
  authorize_actor actor org "iam:CreatePrincipal" (organization_resource org "iam/principal/*") ;;
  quota_user ← quota_user_for_actor actor org;
  run (create_service_account_owned org name quota_user).

Definition put_service_account_enabled (r : Request) (org : OrganizationId) (principal : PrincipalId)
    (enable : bool) : api () :=
  actor ← authenticated_actor_mutation config r;
  authorize_actor actor org "iam:UpdatePrincipal" (principal_resource org principal) ;;
  run (set_service_account_enabled org principal enable).

(** [secret] is the token that was drawn. *)
Definition post_api_key (r : Request) (org : OrganizationId) (principal : PrincipalId) (name : string)
    (expires_in_days : option Z) (secret : string) : api (Uuid * string) :=
  actor ← authenticated_actor_mutation config r;
  from_result (validate_name name) ;;
  check (match expires_in_days with Some d => in_range 1 365 d | None => true end)
    (BadRequest "expires_in_days must be between 1 and 365") ;;
  authorize_actor actor org "iam:CreateApiKey" (organization_resource org "iam/api-key/*") ;;
  authorize_task_role actor org (Some principal) ;;
  fresh ← run now_v7;
  let prefix := of_bytes (take 16 (bytes (uuid_simple fresh))) in
  let api_key := ("hc_" ++ prefix ++ "_" ++ secret)%string in
  t ← ask now;
  id ← run (create_api_key org principal name prefix (token_hash api_key)
              ((λ days, t + days * DAY_SECONDS) <$> expires_in_days));
  mret (id, api_key).

Definition delete_api_key (r : Request) (org : OrganizationId) (principal : PrincipalId) (id : Uuid) : api () :=
  actor ← authenticated_actor_mutation config r;
  authorize_actor actor org "iam:RevokeApiKey"
    (organization_resource org ("iam/api-key/" ++ uuid_to_string id)%string) ;;
  run (revoke_iam_api_key org principal id).

(** *** Roles and role sessions *)

Definition post_iam_role (r : Request) (account : OrganizationId) (name : string) (trust : Value)
    (max_seconds : Z) : api IamRole :=
  actor ← authenticated_actor_mutation config r;
  from_result (validate_iam_role_name name) ;;
  from_result (validate_role_trust trust) ;;
  check (in_range 3600 43200 max_seconds)
    (BadRequest "Maximum session duration must be between one and twelve hours.") ;;
  authorize_actor actor account "iam:CreateRole" (organization_resource account "iam/role/*") ;;
  require_roles_enabled ;;
  quota_user ← quota_user_for_actor actor account;
  run (create_iam_role account name trust max_seconds quota_user).

Definition put_iam_role_trust (r : Request) (account : OrganizationId) (principal : PrincipalId)
    (trust : Value) : api () :=
  actor ← authenticated_actor_mutation config r;
  from_result (validate_role_trust trust) ;;
  authorize_actor actor account "iam:UpdateAssumeRolePolicy" (role_resource account principal) ;;
  require_roles_enabled ;;
  run (update_iam_role_trust account principal trust).

Definition remove_iam_role (r : Request) (account : OrganizationId) (principal : PrincipalId) : api () :=
  actor ← authenticated_actor_mutation config r;
  authorize_actor actor account "iam:DeleteRole" (role_resource account principal) ;;
  require_roles_enabled ;;
  run (delete_iam_role account principal).

Definition end_iam_role_session (r : Request) (account : OrganizationId) (principal : PrincipalId)
    (session : Uuid) : api () :=
  actor ← authenticated_actor_mutation config r;
  authorize_actor actor account "iam:RevokeRoleSession" (role_resource account principal) ;;
  require_roles_enabled ;;
  run (revoke_iam_role_session account principal session).

Record AssumeIamRole := {
  assume_role_arn : string;
  assume_session_name : string;
  assume_duration_seconds : Z;
  assume_session_policy : option Value;
  switch_console : bool;
}.

Definition is_center_session (actor : AuthenticatedActor) : bool :=
  match actor with ActorRoleSession session _ => is_some (session_center_user session) | _ => false end.
Definition is_role_session (actor : AuthenticatedActor) : bool :=
  match actor with ActorRoleSession _ _ => true | _ => false end.

(** The browser session to switch, and the role session it has. *)
Definition browser_switch (actor : AuthenticatedActor) (switch : bool)
    : api (option (AuthenticatedSession * option Uuid)) :=
  if switch then
    on ← ask (λ db, browser_roles_enabled (activation (access db)));
    check on ServiceControlUnavailable ;;
    match actor with
    | ActorUser browser => mret (Some (browser, None))
    | ActorRoleSession session (Some browser) => mret (Some (browser, Some (session_id session)))
    | _ => api_fail Forbidden
    end
  else mret None.

(** Switch the browser session to the new role session, which ends if that
    fails. *)
Definition switch_or_revoke (switch : option (AuthenticatedSession * option Uuid)) (account : OrganizationId)
    (principal : PrincipalId) (session : Uuid) : api () :=
  match switch with
  | None => mret ()
  | Some (browser, previous) => λ db,
      match run (switch_browser_role (auth_token_hash browser) previous session) db with
      | (Ok u, db') => (Ok u, db')
      | (Err e, db') => (Err e, snd (run (revoke_iam_role_session account principal session) db'))
      end
  end.

(** What the trust policy of the role says of the caller, with its record. *)
Definition decide_trust (source : OrganizationId) (caller : PrincipalId) (source_arn role_arn : string)
    (target : OrganizationId) (trusted : bool) : api () :=
  id ← run now_v7;
  run (append_audit (Build_AuditRow (Some source) (Some caller) None (uuid_to_string id) "sts:AssumeRole" role_arn
    (if trusted then "allow" else "deny") (if trusted then "role_trust_allow" else "role_trust_deny")
    (Object [("stage", Str "trust"); ("source_arn", Str source_arn);
             ("target_account_id", Str (uuid_to_string target))]))) ;;
  check trusted Forbidden.

Definition assume_iam_role (r : Request) (source : OrganizationId) (input : AssumeIamRole) (secret : string)
    : api (Uuid * string) :=
  actor ← authenticated_actor_mutation config r;
  check (negb (is_center_session actor)) Forbidden ;;
  require_roles_enabled ;;
  switch ← browser_switch actor (switch_console input);
  target ← from_result (parse_iam_role_arn (assume_role_arn input));
  from_result (validate_session_name (assume_session_name input)) ;;
  check (in_range 900 43200 (assume_duration_seconds input)
         && negb (is_role_session actor && (3600 <? assume_duration_seconds input)))
    (BadRequest "Invalid role session duration.") ;;
  policy ← from_result (parse_session_policy (assume_session_policy input));
  match policy with Some d => require_policy_conditions_enabled d | None => mret () end ;;
  context ← authorize_actor actor source "sts:AssumeRole" (assume_role_arn input);
  caller ← ask (iam_principal_arn source (Iam.context_principal_id context));
  caller ← some_or Forbidden caller;
  found ← ask (find_iam_role (fst target) (snd target));
  role ← some_or ApiNotFound found;
  managed ← ask (is_identity_center_role (iam_role_organization role) (iam_role_principal role));
  check (negb managed) Forbidden ;;
  trust ← from_result (validate_role_trust (iam_role_trust role));
  trusted ← from_result (map_err (λ _, Internal) (permits trust (fst caller) (snd caller)));
  decide_trust source (Iam.context_principal_id context) (snd caller) (assume_role_arn input)
    (iam_role_organization role) trusted ;;
  let token := ("hcr_" ++ secret)%string in
  t ← ask now;
  id ← run (create_iam_role_session (Build_NewIamRoleSession (iam_role_organization role)
         (iam_role_principal role) source (Iam.context_principal_id context) (snd caller)
         (assume_session_name input) policy (token_hash token) (t + assume_duration_seconds input)
         (assume_duration_seconds input) (iam_role_trust role)));
  switch_or_revoke switch (iam_role_organization role) (iam_role_principal role) id ;;
  mret (id, token).

Definition exit_browser_role (r : Request) : api () :=
  check (negb (has_header AUTHORIZATION r)) Forbidden ;;
  from_result (require_same_origin config r) ;;
  browser ← authenticated_session config r;
  from_result (require_csrf r (auth_csrf browser)) ;;
  run (clear_browser_role (auth_token_hash browser)).

Definition logout (r : Request) : api () :=
  from_result (require_same_origin config r) ;;
  authenticated ← authenticated_session config r;
  from_result (require_csrf r (auth_csrf authenticated)) ;;
  run (delete_session (auth_token_hash authenticated)).

Definition post_invitation (r : Request) (org : OrganizationId) (hours : Z) (code : string) : api (Uuid * string) :=
  check (negb (has_header AUTHORIZATION r)) Forbidden ;;
  authenticated ← authenticated_mutation config r;
  from_result (validate_invitation_ttl hours) ;;
  authorize_organization (session_user_id_of authenticated) org "identity:CreateInvitation"
    (organization_resource org "identity/invitation/*") ;;
  t ← ask now;
  id ← run (create_invitation org (session_user_id_of authenticated) (token_hash code) (t + hours * 3600));
  mret (id, code).

(** *** The identity center *)

Definition management_account (account : OrganizationId) : api () :=
  found ← ask (cloud_organization_for_account account);
  org ← some_or ApiNotFound found;
  check (bool_decide (snd org = account)) Forbidden.

Definition require_identity_center : api () :=
  on ← ask (λ db, identity_center_enabled (activation (access db))); check on ServiceControlUnavailable.

Definition require_management_at (actor : AuthenticatedActor) (account : OrganizationId) (act suffix : string)
    : api () :=
  management_account account ;;
  authorize_actor actor account act (organization_resource account suffix) ;;
  require_identity_center.

Definition require_human (actor : AuthenticatedActor) (account : OrganizationId) (act suffix : string) : api UserId :=
  user ← match actor with
         | ActorUser session => mret (session_user_id_of session)
         | ActorCliToken token =>
             check (bool_decide (cli_token_organization token = account)) Forbidden ;; mret (token_user_id token)
         | _ => api_fail Forbidden
         end;
  management_account account ;;
  authorize_actor_with_implicit_allow actor account act (organization_resource account suffix) true ;;
  require_identity_center ;;
  mret user.

Definition post_permission_set (r : Request) (account : OrganizationId) (name : string) (document : Value)
    (duration : Z) : api Uuid :=
  actor ← authenticated_actor_mutation config r;
  from_result (validate_set_name name) ;;
  require_management_at actor account "sso:CreatePermissionSet" ("identity-center/permission-set/" ++ name)%string ;;
  from_result (validate_duration duration) ;;
  d ← from_result (parse_policy_document document);
  require_policy_conditions_enabled d ;;
  run (create_identity_center_permission_set account name d duration).

Definition put_permission_set (r : Request) (account : OrganizationId) (id : Uuid) (document : Value)
    (duration : Z) : api () :=
  actor ← authenticated_actor_mutation config r;
  require_management_at actor account "sso:UpdatePermissionSet"
    ("identity-center/permission-set/" ++ uuid_to_string id)%string ;;
  from_result (validate_duration duration) ;;
  d ← from_result (parse_policy_document document);
  require_policy_conditions_enabled d ;;
  run (update_identity_center_permission_set account id d duration iam_semantics_digest).

Definition remove_permission_set (r : Request) (account : OrganizationId) (id : Uuid) : api () :=
  actor ← authenticated_actor_mutation config r;
  require_management_at actor account "sso:DeletePermissionSet"
    ("identity-center/permission-set/" ++ uuid_to_string id)%string ;;
  run (delete_identity_center_permission_set account id).

Definition post_center_group (r : Request) (account : OrganizationId) (name : string) : api Uuid :=
  actor ← authenticated_actor_mutation config r;
  from_result (validate_name name) ;;
  require_management_at actor account "identitystore:CreateGroup" "identity-center/group/*" ;;
  run (create_identity_center_group account name).

Definition remove_center_group (r : Request) (account : OrganizationId) (group : Uuid) : api () :=
  actor ← authenticated_actor_mutation config r;
  require_management_at actor account "identitystore:DeleteGroup"
    ("identity-center/group/" ++ uuid_to_string group)%string ;;
  run (delete_identity_center_group account group).

Definition group_user (r : Request) (account : OrganizationId) (group : Uuid) (user : UserId) (add : bool) : api () :=
  actor ← authenticated_actor_mutation config r;
  require_management_at actor account
    (if add then "identitystore:CreateGroupMembership" else "identitystore:DeleteGroupMembership")
    ("identity-center/group/" ++ uuid_to_string group ++ "/user/" ++ uuid_to_string user)%string ;;
  run (change_identity_center_group_member account group user add).

Definition post_assignment (r : Request) (account : OrganizationId) (set : Uuid) (target : OrganizationId)
    (ty : string) (subject : Uuid) : api Uuid :=
  actor ← authenticated_actor_mutation config r;
  require_management_at actor account "sso:CreateAccountAssignment"
    ("identity-center/account/" ++ uuid_to_string target ++ "/permission-set/" ++ uuid_to_string set
     ++ "/subject/" ++ uuid_to_string subject)%string ;;
  check (String.eqb ty "user" || String.eqb ty "group") (BadRequest "Subject type must be user or group.") ;;
  run (create_identity_center_assignment account set target ty subject iam_semantics_digest).

Definition remove_assignment (r : Request) (account : OrganizationId) (id : Uuid) : api () :=
  actor ← authenticated_actor_mutation config r;
  require_management_at actor account "sso:DeleteAccountAssignment"
    ("identity-center/assignment/" ++ uuid_to_string id)%string ;;
  run (revoke_identity_center_assignment account id).

Definition start_identity_center_session (r : Request) (account : OrganizationId) (id : Uuid) (switch : bool)
    (secret : string) : api (IdentityCenterSession * string) :=
  actor ← authenticated_actor_mutation config r;
  user ← require_human actor account "sso:StartAccountSession"
           ("identity-center/self/assignment/" ++ uuid_to_string id)%string;
  browser ← (if switch then match actor with
                            | ActorUser browser => mret (Some (browser, None))
                            | _ => api_fail Forbidden
                            end
             else mret None);
  let token := ("hcr_" ++ secret)%string in
  session ← run (create_identity_center_session account id user (token_hash token));
  switch_or_revoke browser (center_account session) (center_principal session) (center_session session) ;;
  mret (session, token).

End Handlers.
