(* ===== verification/FlashOps.v ===== *)
(** * Flash operations of the API

    [heterocloud-api/src/flash_operations.rs], [flash_backups.rs] and
    [flash_domains.rs], the tasks that run in the background - observing services
    and rolling a failed deployment back, scheduled backups and their retention,
    the reconciliation of backups, destinations and domains with the provider -
    and the handlers of [flash_operation_routes.rs], [flash_backup_routes.rs],
    [flash_backup_destination_routes.rs], [flash_ssh_routes.rs] and the domain
    handlers of [routes.rs].

    The provider behind [flash_provider.rs] is a record of functions: what it
    answers to a request.  So are the secret manager, the SSH key library and
    GitHub.  A task is one element of the loops of the source. *)
From S2P Require Import Prelude Text Json Net Policy Iam RoleTrust Quota Specs Flash Store Usage Provider Prepare Services FlowAccess Cloud Identity Access FlashStore Authorize IdentityCenter Routes.

(** ** The provider *)

(** The status of a refusal; the other kinds of failure are treated alike. *)
Inductive FlashProviderError :=
| ProviderStatus (code : Z)
| ProviderFailure.

Record FlashProviderContext := {
  call_principal : PrincipalId;
  call_user : option UserId;
  call_organization : OrganizationId;
  call_project : ProjectId;
  call_service : ServiceInstanceId;
  call_generation : Z;
}.

(** The [FlashProviderProxy], by the requests the modelled code makes. *)
Record FlashGateway := {
  get_status : FlashProviderContext → result FlashProviderError Value;
  backup_request : FlashProviderContext → string → option Uuid → option Value → result FlashProviderError Value;
  backup_destination_request : FlashProviderContext → option Value → result FlashProviderError Value;
  put_custom_domain : FlashProviderContext → string → Uuid → string → result FlashProviderError ();
  delete_custom_domain : FlashProviderContext → string → result FlashProviderError bool;
}.

Definition flash_provider_context (i : ServiceInstance) (principal : PrincipalId) : FlashProviderContext := {|
  call_principal := principal;
  call_user := None;
  call_organization := organization_id (instance_row i);
  call_project := project_id (instance_row i);
  call_service := instance_id i;
  call_generation := generation (instance_row i);
|}.

Definition backup_context (b : BackupRow) : FlashProviderContext := {|
  call_principal := backup_principal b;
  call_user := None;
  call_organization := backup_organization_id b;
  call_project := backup_project b;
  call_service := backup_service b;
  call_generation := source_generation b;
|}.

Definition destination_context (org : OrganizationId) (id : Uuid) (principal : PrincipalId) : FlashProviderContext := {|
  call_principal := principal;
  call_user := None;
  call_organization := org;
  call_project := 0%N;
  call_service := id;
  call_generation := 1;
|}.

(** A call whose error is not passed on. *)
Definition attempt {A} (m : api A) : api (result ApiError A) := λ db,
  let '(x, db') := m db in (Ok x, db').
Definition ignore {A} (m : api A) : api () := x ← attempt m; mret ().

(** ** Answers of the provider *)

Definition one_of (l : list string) (v : Value) : bool :=
  is_some_and (λ s, existsb (String.eqb s) l) (as_str v).

Definition short_text (n : Z) (v : Value) : Value :=
  match as_str v with Some s => if len s <=? n then Str s else Null | None => Null end.
Definition unsigned (v : Value) : Value :=
  match as_u64 v with Some n => Num (Int n) | None => Null end.
Definition is_true (v : Value) : bool := bool_decide (as_bool v = Some true).
Definition is_ascii_hexdigit (b : Z) : bool := is_ascii_digit b || in_range 65 70 b || in_range 97 102 b.

Definition validated_verification (v : Value) : Value :=
  if negb (one_of ["queued"; "restoring"; "cleaning"; "passed"; "failed"] (at_key "phase" v)) then Null
  else
    let hash := match as_str (at_key "sha256" v) with
                | Some s => if (len s =? 64) && forallb is_ascii_hexdigit (bytes s) then Str s else Null
                | None => Null
                end in
    Object [("phase", at_key "phase" v); ("started_at", short_text 40 (at_key "started_at" v));
            ("completed_at", short_text 40 (at_key "completed_at" v));
            ("sampled_files", unsigned (at_key "sampled_files" v));
            ("sampled_bytes", unsigned (at_key "sampled_bytes" v)); ("sha256", hash);
            ("cleanup_verified", Bool (is_true (at_key "cleanup_verified" v)))].

(** ** Host names *)

Definition bad_label (label : string) : bool :=
  is_empty label || (63 <? len label)
  || negb (is_some_and is_ascii_alphanumeric (first_byte label))
  || negb (is_some_and is_ascii_alphanumeric (last_byte label))
  || existsb (λ b, negb (is_ascii_lowercase b) && negb (is_ascii_digit b) && negb (b =? HYPHEN)) (bytes label).

Definition validate_hostname (value : string) : result string () :=
  fail_if ((253 <? len value) || (len value <? 3) || negb (contains_byte DOT value)
      || is_some (parse_ip_addr value) || ends_with ".internal" value || ends_with ".localhost" value
      || ends_with ".local" value || existsb bad_label (split_at DOT value))
    "Use a lowercase public DNS hostname without scheme, path, port, wildcard or IP address.".

Definition COMMA : Z := 44.
Definition reserved_hostname (host names suffixes : string) : bool :=
  existsb (λ x, negb (is_empty x) && String.eqb host x) (split_at COMMA names)
  || existsb (λ x, negb (is_empty x) && (String.eqb host x || ends_with ("." ++ x)%string host))
       (split_at COMMA suffixes).

(** ** Destinations *)

Definition credential_valid (value : string) : bool :=
  negb (is_empty value) && (len value <=? 4096) && negb (existsb is_control (chars value)).

Definition protected_ranges : list string :=
  ["0.0.0.0/8"; "10.0.0.0/8"; "100.64.0.0/10"; "127.0.0.0/8"; "169.254.0.0/16"; "172.16.0.0/12";
   "192.168.0.0/16"; "224.0.0.0/4"; "240.0.0.0/4"; "::/128"; "::1/128"; "::ffff:0:0/96"; "fc00::/7";
   "fe80::/10"; "ff00::/8"].

Definition protected_ip `{IpNetLib} (ip : IpAddr) : bool :=
  existsb (λ range, is_some_and (λ net, net_contains net (ip_net_from ip)) (parse_ip_net range)) protected_ranges.

Definition valid_bucket (bucket : string) : bool :=
  in_range 3 63 (len bucket) && is_some_and is_ascii_alphanumeric (first_byte bucket)
  && is_some_and is_ascii_alphanumeric (last_byte bucket)
  && forallb (λ b, is_ascii_lowercase b || is_ascii_digit b || (b =? HYPHEN) || (b =? DOT)) (bytes bucket)
  && negb (contains_str ".." bucket) && negb (contains_str ".-" bucket) && negb (contains_str "-." bucket)
  && match parse_ip_addr bucket with Some (V4 _) => false | _ => true end.

Definition valid_object_prefix (prefix : string) : bool :=
  (len prefix <=? 512) && negb (starts_with_byte SLASH prefix)
  && forallb (λ part, negb (String.eqb part ".") && negb (String.eqb part "..")) (split_at SLASH prefix)
  && forallb (λ b, is_ascii_alphanumeric b || (b =? HYPHEN) || (b =? UNDERSCORE) || (b =? DOT) || (b =? SLASH))
       (bytes prefix).

(** [str::trim_end_matches] with a byte. *)
Fixpoint drop_leading (b : Z) (l : list Z) : list Z :=
  match l with
  | c :: l' => if c =? b then drop_leading b l' else l
  | [] => []
  end.
Definition trim_end_byte (b : Z) (s : string) : string := of_bytes (rev (drop_leading b (rev (bytes s)))).

Definition validate_destination `{IpNetLib, UrlLib} (input : NewFlashBackupDestination) : result ApiError () :=
  validate_name (new_destination_name input) ;;
  origin ← ok_or (BadRequest "Invalid S3 endpoint.") (url_parse (new_destination_endpoint input));
  let host := to_ascii_lowercase (trim_end_byte DOT (default "" (host_str origin))) in
  let forbidden_address := is_some_and (λ ip, new_virtual_hosted input || protected_ip ip) (host_address origin) in
  let region := new_destination_region input in
  fail_if (bool_decide (new_destination_request input = 0%N) || negb (String.eqb (scheme origin) "https")
      || is_empty host || forbidden_address || negb (is_empty (Flash.username origin)) || is_some (password origin)
      || negb (String.eqb (path origin) "" || String.eqb (path origin) "/") || is_some (Flash.query origin)
      || is_some (fragment origin) || String.eqb host "localhost"
      || existsb (λ suffix, ends_with suffix host)
           [".localhost"; ".local"; ".internal"; ".svc"; ".cluster.local"]
      || negb (valid_bucket (new_destination_bucket input)) || negb (valid_object_prefix (new_destination_prefix input))
      || is_empty region || (128 <? len region)
      || negb (forallb (λ b, is_ascii_alphanumeric b || (b =? HYPHEN) || (b =? UNDERSCORE) || (b =? DOT)) (bytes region))
      || negb (credential_valid (access_key input)) || negb (credential_valid (secret_key input)))
    (BadRequest "Invalid S3 destination. Use a public HTTPS endpoint, bucket, region and credentials.").

(** ** SSH keys *)

Definition valid_github_username (value : string) : bool :=
  negb (is_empty value) && (len value <=? 39) && negb (starts_with_byte HYPHEN value)
  && negb (ends_with_byte HYPHEN value) && negb (contains_str "--" value)
  && forallb (λ b, is_ascii_alphanumeric b || (b =? HYPHEN)) (bytes value).

(** [PublicKey::from_openssh], and what is used of the result. *)
Inductive KeyData := Ed25519 | Ecdsa | Rsa (key_size : Z) | OtherKey.
Class SshLib := {
  PublicKey : Type;
  from_openssh : string → option PublicKey;
  key_data : PublicKey → KeyData;
  to_openssh : PublicKey → option string;
  key_fingerprint : PublicKey → string;
}.

Definition MAX_PUBLIC_KEY_BYTES : Z := 16 * 1024.

Definition accepted_key (d : KeyData) : bool :=
  match d with Ed25519 | Ecdsa => true | Rsa size => 2048 <=? size | OtherKey => false end.

Definition parse_key `{SshLib} (value : string) : result ApiError (string * string) :=
  let value := of_chars (trim_chars (chars value)) in
  fail_if ((MAX_PUBLIC_KEY_BYTES <? len value) || contains_byte 10 value || contains_byte 13 value
           || contains_byte 0 value) (BadRequest "Invalid SSH public key") ;;
  key ← ok_or (BadRequest "Invalid SSH public key") (from_openssh value);
  fail_if (negb (accepted_key (key_data key))) (BadRequest "Unsupported SSH public key") ;;
  text ← ok_or Internal (to_openssh key);
  Ok (text, key_fingerprint key).

(** ** Background tasks *)

Section Tasks.
Context `{LimitsDecoder, Serde FlowSpec, Serde FlashSpec, Serde SyouyuSpec, Serde VpcSpec}.
Context `{IpNetLib, UrlLib, JsonText, UuidText, SqlCast, Chrono, TimeText}.
Context `{Serde PolicyDocument, Serde DeploymentPolicy}.
Context (provider : option FlashGateway).

Definition validated_status (id : Uuid) (v : Value) : result FlashProviderError Value :=
  fail_if (negb (bool_decide ((get "id" v ≫= as_str) = Some (uuid_to_string id)))
      || negb (one_of ["pending"; "creating"; "ready"; "error"; "deleting"] (at_key "phase" v)))
    (ProviderStatus 502) ;;
  Ok (Object [("id", Str (uuid_to_string id)); ("phase", at_key "phase" v);
              ("completed_at", at_key "completed_at" v);
              ("message", if one_of ["backup_storage_error"; "backup_storage_missing"; "backup_source_unavailable"]
                               (at_key "message" v) then at_key "message" v else Null);
              ("restore_verification", validated_verification (at_key "restore_verification" v))]).

(** The permission of a stored principal for an action in the background. *)
Definition allowed (principal : PrincipalId) (org : OrganizationId) (act res : string) : api bool :=
  is_role ← ask (is_iam_role_principal org principal);
  if (is_role : bool) then mret false else
  usable ← attempt (fetch (authorization_context_for_principal principal org));
  match usable with
  | Ok (Some _) =>
      user ← ask (active_principal_user principal);
      found ← attempt (match user with
                       | Some u => fetch (authorization_context u org)
                       | None => fetch (authorization_context_for_principal principal org)
                       end);
      match found with
      | Ok (Some context) =>
          t ← ask now;
          e ← attempt (evaluate_account context org act res false (t * NANOS_PER_SECOND));
          mret (match e with Ok e => bool_decide (decision e = Decision.Allow) | Err _ => false end)
      | _ => mret false
      end
  | _ => mret false
  end.

(** *** Observation and roll-back of a deployment *)

Definition quota_exhausted (status : Value) : bool :=
  existsb (λ key, json_true key status) ["cpu_quota_exhausted"; "memory_quota_exhausted"; "gpu_quota_exhausted"].

Definition deployment_policy (spec : Value) : DeploymentPolicy :=
  match get "deployment" spec with
  | Some v => if is_null v then DeploymentPolicy_default else default DeploymentPolicy_default (from_value v)
  | None => DeploymentPolicy_default
  end.

(** When the deadline of a revision began to run: services that may scale to
    zero are given time from their first activation. *)
Definition activation_time (spec : Value) (current : RevisionRow) : option Z :=
  match activation_started_at current with
  | Some t => Some t
  | None => if bool_decide (((get "autoscaling" spec ≫= get "min_replicas") ≫= as_i64) = Some 0) then None
            else Some (revision_created_at current)
  end.

Definition deployment_failed (spec : Value) (current : RevisionRow) (t : Z) : bool :=
  let policy := deployment_policy spec in
  match activation_time spec current with
  | Some activation => auto_rollback policy && negb (is_some (revision_ready_at current))
                       && negb (t - activation <? deadline_seconds policy)
  | None => false
  end.

Definition previous_revision (g : Z) (l : list (Uuid * Z * RevisionRow)) : option RevisionRow :=
  snd <$> head (filter (λ e, snd (fst e) < g ∧ revision_phase (snd e) = "ready") l).

Definition roll_back (i : ServiceInstance) (principal : PrincipalId) (previous : RevisionRow) : api () :=
  let org := organization_id (instance_row i) in
  let g := generation (instance_row i) in
  next ← some_or Internal (rollback_spec (revision_spec previous) (spec (instance_row i)));
  updated ← attempt (run (update_service_instance_checked org (instance_id i) "flash" principal None
                            (name (instance_row i)) next (Some g)));
  match updated with
  | Ok _ =>
      ignore (run (mark_flash_revision_rolled_back (instance_id i) g)) ;;
      ignore (run (record_flash_event i "deployment_rolled_back" "warning"
        "The new revision did not become healthy before its deadline. Execution settings were rolled back; current access controls and persistent data were retained."))
  | Err _ => mret ()
  end.

(** The part after the report is recorded. *)
Definition consider_rollback (i : ServiceInstance) (status : Value) : api () :=
  let row := instance_row i in
  let org := organization_id row in
  if json_true "stopped" (spec row) || bool_decide (state row = Deleting) || quota_exhausted status then mret ()
  else
    found ← attempt (fetch (flash_revision org (instance_id i) (generation row)));
    match found with
    | Err _ => mret ()
    | Ok current =>
        t ← ask now;
        if negb (deployment_failed (spec row) current t) then mret () else
        revisions ← ask (flash_revisions org (instance_id i));
        match previous_revision (generation row) revisions, revision_principal current with
        | Some previous, Some principal =>
            permitted ← allowed principal org "flash:UpdateInstance" (flash_service_resource org (instance_id i));
            if (permitted : bool) then roll_back i principal previous else mret ()
        | _, _ => mret ()
        end
    end.

Definition observe (i : ServiceInstance) : api () :=
  match provider with
  | None => mret ()
  | Some p =>
      match get_status p (flash_provider_context i 0%N) with
      | Err _ =>
          ignore (run (record_flash_event i "provider_unavailable" "warning"
            "The current service status could not be retrieved. The last observed state is retained."))
      | Ok status =>
          if negb (bool_decide ((get "observed_generation" status ≫= as_i64) = Some (generation (instance_row i))))
          then mret ()
          else
            recorded ← attempt (run (record_flash_observation i status));
            match recorded with Ok _ => consider_rollback i status | Err _ => mret () end
      end
  end.

(** *** Scheduled backups *)

Definition any_backup (org : OrganizationId) : string := organization_resource org "flash/backup/*".

(** [schedule_request] is the digest that identifies the request of one run, and
    [schedule_name] the name of its backup, both of the time the run is due. *)
Definition run_backup_policy (schedule_request : Uuid → Z → Uuid) (schedule_name : Z → string)
    (service : Uuid) (policy : BackupPolicyRow) : api (result string Uuid) :=
  let principal := schedule_principal policy in
  let org := schedule_organization policy in
  may_create ← allowed principal org "flash:CreateBackup" (flash_service_resource org service);
  if negb may_create then mret (Err "backup_permission_revoked") else
  may_delete ← allowed principal org "flash:DeleteBackup" (any_backup org);
  may_restore ← (if may_delete && verify_restore policy
                 then allowed principal org "flash:RestoreBackup" (any_backup org) else mret true);
  if negb (may_delete && may_restore) then mret (Err "backup_permission_revoked") else
  found ← ask (λ db, r ← service_instances db !! service; if live_flash org r then Some r else None);
  match found, provider with
  | None, _ => mret (Err "backup_source_unavailable")
  | _, None => mret (Err "backup_provider_unavailable")
  | Some row, Some p =>
      match backup_request p (flash_provider_context (Build_ServiceInstance service row) principal)
              "flash.backups.source" None None with
      | Err _ => mret (Err "backup_source_unavailable")
      | Ok observed =>
          match as_i64 (at_key "volume_size_bytes" observed), as_str (at_key "source_pvc_uid" observed) with
          | Some bytes, Some uid =>
              backup ← attempt (run (request_flash_backup_to org service principal
                         (schedule_request service (next_run_at policy)) (schedule_name (next_run_at policy)) bytes uid
                         (as_str (at_key "resolved_image" observed)) (generation row) (schedule_destination policy)));
              match backup with
              | Err _ => mret (Err "backup_quota_or_source_unavailable")
              | Ok (id, _) =>
                  attached ← attempt (run (attach_scheduled_backup service policy id));
                  mret (match attached with Ok _ => Ok id | Err _ => Err "backup_storage_unavailable" end)
              end
          | _, _ => mret (Err "backup_source_unavailable")
          end
      end
  end.

(** One claimed schedule. *)
Definition run_schedule (schedule_request : Uuid → Z → Uuid) (schedule_name : Z → string)
    (e : Uuid * BackupPolicyRow) : api () :=
  outcome ← run_backup_policy schedule_request schedule_name (fst e) (snd e);
  ignore (run (match outcome with
               | Ok id => finish_backup_policy (fst e) (snd e) (Some id) None
               | Err code => finish_backup_policy (fst e) (snd e) None (Some code)
               end)).

(** Verification and retention for one active schedule; asking the provider to
    verify a backup changes nothing here. *)
Definition enforce_retention (e : Uuid * BackupPolicyRow) : api () :=
  let policy := snd e in
  let org := schedule_organization policy in
  can_delete ← allowed (schedule_principal policy) org "flash:DeleteBackup" (any_backup org);
  can_restore ← (if verify_restore policy
                 then allowed (schedule_principal policy) org "flash:RestoreBackup" (any_backup org) else mret true);
  if can_restore && can_delete then ignore (run (expire_scheduled_backups (fst e) policy)) else mret ().

(** *** Backups, destinations and domains *)

Definition backup_body (id : Uuid) (b : BackupRow) : Value :=
  Object ((match backup_destination b with Some d => [("destination_id", Str (uuid_to_string d))] | None => [] end)
    ++ [("id", Str (uuid_to_string id)); ("name", Str (backup_name b)); ("source_pvc_uid", Str (source_pvc_uid b));
        ("volume_size_bytes", Num (Int (volume_size_bytes b)))]).

(** [value[key] = ...] on a stored status, which is always an object. *)
Definition with_field (k : string) (v : Value) (value : Value) : Value :=
  match index_set k v value with Some v' => v' | None => value end.

Definition reconcile_backup (e : Uuid * BackupRow) : api () :=
  let '(id, b) := e in
  match provider with
  | None => mret ()
  | Some p =>
      ignore (run (update_flash_backup_status id (backup_phase b) (backup_status b))) ;;
      if delete_requested b then
        pending ← ask (flash_backup_restore_pending id);
        if (pending : bool) then mret () else
        match backup_request p (backup_context b) "flash.backups.delete" (Some id) None with
        | Ok answer => if is_true (at_key "deleted" answer) then ignore (run (release_flash_backup id)) else mret ()
        | Err _ => mret ()
        end
      else
        let answer := if String.eqb (backup_phase b) "pending"
          then backup_request p (backup_context b) "flash.backups.create" None (Some (backup_body id b))
          else backup_request p (backup_context b) "flash.backups.get" (Some id) None in
        t ← ask now;
        match (v ← answer; validated_status id v) with
        | Ok v =>
            let phase := default "error" (as_str (at_key "phase" v)) in
            ignore (run (update_flash_backup_status id phase
              (with_field "provider_unavailable" (Bool false) (with_field "last_verified_at" (Str (rfc3339 t)) v))))
        | Err (ProviderStatus 400) | Err (ProviderStatus 403) | Err (ProviderStatus 404) | Err (ProviderStatus 409) =>
            ignore (run (update_flash_backup_status id "error" (Object [("message", Str "backup_source_unavailable")])))
        | Err _ =>
            ignore (run (update_flash_backup_status id (backup_phase b)
              (with_field "provider_unavailable" (Bool true) (backup_status b))))
        end
  end.

Definition answers_for (org : OrganizationId) (id : Uuid) (v : Value) : bool :=
  bool_decide (as_str (at_key "id" v) = Some (uuid_to_string id))
  && bool_decide (as_str (at_key "organization_id" v) = Some (uuid_to_string org)).

Definition refresh_destination (e : Uuid * DestinationRow) : api () :=
  let '(id, d) := e in
  let org := destination_organization d in
  match provider with
  | None => mret ()
  | Some p =>
      let ready := match backup_destination_request p (destination_context org id (destination_principal d)) None with
                   | Ok v => if answers_for org id v then as_bool (at_key "ready" v) else None
                   | Err _ => None
                   end in
      ignore (run (refresh_flash_backup_destination org id (destination_updated_at d) ready))
  end.

Definition reconcile_domain (e : Uuid * DomainRow) : api () :=
  let '(id, d) := e in
  match provider with
  | None => mret ()
  | Some p =>
      ignore (run (mark_flash_domain_attempted id)) ;;
      found ← ask (λ db, service_instances db !! domain_service d);
      match found with
      | Some r =>
          if in_org (domain_organization d) r && has_provider "flash" r then
            let context := flash_provider_context (Build_ServiceInstance (domain_service d) r) (domain_principal d) in
            if domain_delete_requested d then
              match delete_custom_domain p context (hostname d) with
              | Ok true => ignore (run (release_flash_domain id))
              | _ => mret ()
              end
            else
              match put_custom_domain p context (hostname d) id (verification_value d) with
              | Ok _ => ignore (run (mark_flash_domain_synced id))
              | Err _ => mret ()
              end
          else mret ()
      | None => mret ()
      end
  end.

End Tasks.

(** ** Handlers *)

Definition flash_service (org : OrganizationId) (id : ServiceInstanceId) : api ServiceInstance :=
  found ← ask (λ db, r ← service_instances db !! id;
                 if in_org org r && has_provider "flash" r then Some (Build_ServiceInstance id r) else None);
  some_or ApiNotFound found.

(** A restored service: the disk and the resources of the source, but stopped,
    internal, without egress, identity, secrets or ports of its own. *)
Definition internal_exposure : FlashExposure :=
  Build_FlashExposure Flash.Internal Forwarded Ip [] [] None.
Definition closed_egress : FlashEgress :=
  Build_FlashEgress Disabled (allow_same_organization FlashEgress_default)
    (allowed_destination_cidrs FlashEgress_default) (denied_destination_cidrs FlashEgress_default).
Definition unassigned (p : FlashPort) : FlashPort :=
  Build_FlashPort (port_name p) (protocol p) (container_port p) 0.

Definition restored (backup : Uuid) (s : FlashSpec) : FlashSpec := {|
  region := region s; image := image s; deployment := deployment s; task_role := None; replicas := 1;
  stopped := true; autoscaling := None; cpu_millis := cpu_millis s; memory_mib := memory_mib s; gpu_type := None;
  ephemeral_storage_gib := ephemeral_storage_gib s; rootfs_storage_gib := rootfs_storage_gib s;
  persistent_storage_gib := persistent_storage_gib s; restore_from_backup_id := Some backup;
  ports := unassigned <$> ports s; exposure := internal_exposure; egress := closed_egress; network := None;
  env := []; secret_env := []; secret_files := []; command := command s; args := args s; metadata := metadata s;
|}.

Section Handlers.
Context `{LimitsDecoder, Serde FlowSpec, Serde FlashSpec, Serde SyouyuSpec, Serde VpcSpec}.
Context `{IpNetLib, UrlLib, JsonText, UuidText, SqlCast, Chrono, TimeText}.
Context `{WebLib, SqlText, SqlCollation, Serde PolicyDocument, SshLib}.
Context (config : RuntimeConfig) (provider : option FlashGateway).

Definition validate_flash_spec (s : FlashSpec) : result ApiError () :=
  map_err (λ e, BadRequest (domain_message e)) (FlashSpec_validate_request s).

Definition restored_spec (value : Value) (backup : Uuid) : result ApiError FlashSpec :=
  s ← ok_or Internal (from_value value);
  validate_flash_spec (restored backup s) ;;
  Ok (restored backup s).

(** *** Revisions and schedules *)

Definition rollback (r : Request) (org : OrganizationId) (id : ServiceInstanceId) (g expected : Z)
    : api ServiceInstance :=
  actor ← authenticated_actor_mutation config r;
  context ← authorize_actor actor org "flash:UpdateInstance" (flash_service_resource org id);
  current ← flash_service org id;
  check (generation (instance_row current) =? expected) ApiConflict ;;
  target ← fetch (flash_revision org id g);
  check (String.eqb (revision_phase target) "ready" && (g <? generation (instance_row current)))
    (BadRequest "Select an earlier healthy revision.") ;;
  next ← some_or Internal (rollback_spec (revision_spec target) (spec (instance_row current)));
  parsed ← some_or Internal (from_value next);
  from_result (validate_flash_spec parsed) ;;
  run (update_service_instance_checked org id "flash" (Iam.context_principal_id context) None
         (name (instance_row current)) next (Some (generation (instance_row current)))).

Definition put_policy (r : Request) (org : OrganizationId) (id : ServiceInstanceId) (input : BackupPolicyInput)
    : api BackupPolicyRow :=
  actor ← authenticated_actor_mutation config r;
  context ← authorize_actor actor org "flash:CreateBackup" (flash_service_resource org id);
  authorize_actor actor org "flash:DeleteBackup" (any_backup org) ;;
  (if input_verify input then c ← authorize_actor actor org "flash:RestoreBackup" (any_backup org); mret ()
   else mret ()) ;;
  check (negb (input_enabled input && is_role_session actor))
    (BadRequest "An assumed role session cannot create a persistent backup schedule. Use a user or dedicated service account.") ;;
  flash_service org id ;;
  run (put_flash_backup_policy org id (Iam.context_principal_id context) input).

Definition run_policy (r : Request) (org : OrganizationId) (id : ServiceInstanceId) : api () :=
  actor ← authenticated_actor_mutation config r;
  authorize_actor actor org "flash:CreateBackup" (flash_service_resource org id) ;;
  flash_service org id ;;
  run (run_flash_backup_policy_now org id).

(** *** Backups *)

Definition backup_resource (org : OrganizationId) (id : Uuid) : string :=
  organization_resource org ("flash/backup/" ++ uuid_to_string id)%string.

Definition create_backup (r : Request) (org : OrganizationId) (service : ServiceInstanceId) (new_name : string)
    (request : Uuid) (destination : option Uuid) : api (Uuid * BackupRow) :=
  actor ← authenticated_actor_mutation config r;
  from_result (validate_name new_name) ;;
  check (negb (bool_decide (request = 0%N))) (BadRequest "request_id must be a nonzero UUID.") ;;
  context ← authorize_actor actor org "flash:CreateBackup" (flash_service_resource org service);
  let principal := Iam.context_principal_id context in
  existing ← fetch (flash_backup_request_to org principal request service new_name destination);
  match existing with
  | Some e => mret e
  | None =>
      i ← flash_service org service;
      p ← some_or FlashProviderUnavailable provider;
      observed ← from_result (map_err (λ e, match e with
                   | ProviderStatus 400 => BadRequest "This persistent disk does not support backups."
                   | ProviderStatus 404 | ProviderStatus 409 => ApiConflict
                   | _ => FlashProviderUnavailable
                   end) (backup_request p (flash_provider_context i principal) "flash.backups.source" None None));
      bytes ← some_or FlashProviderUnavailable (n ← as_u64 (at_key "volume_size_bytes" observed);
                                                if n <=? i64_max then Some n else None);
      uid ← some_or FlashProviderUnavailable (s ← as_str (at_key "source_pvc_uid" observed);
                                              if is_empty s then None else Some s);
      g ← some_or FlashProviderUnavailable (as_i64 (at_key "generation" observed));
      run (request_flash_backup_to org service principal request new_name bytes uid
             (as_str (at_key "resolved_image" observed)) g destination)
  end.

Definition delete_backup (r : Request) (org : OrganizationId) (id : Uuid) : api BackupRow :=
  actor ← authenticated_actor_mutation config r;
  authorize_actor actor org "flash:DeleteBackup" (backup_resource org id) ;;
  run (request_flash_backup_delete org id).

Definition verify_backup (r : Request) (org : OrganizationId) (id : Uuid) : api () :=
  actor ← authenticated_actor_mutation config r;
  authorize_actor actor org "flash:RestoreBackup" (backup_resource org id) ;;
  b ← fetch (flash_backup org id);
  check (String.eqb (backup_phase b) "ready" && negb (delete_requested b)) ApiConflict ;;
  p ← some_or FlashProviderUnavailable provider;
  answer ← from_result (map_err (λ _, FlashProviderUnavailable)
             (backup_request p (backup_context b) "flash.backups.verify" (Some id) None));
  mret ().

Definition restore_backup_to (r : Request) (org : OrganizationId) (id : Uuid) (project : ProjectId)
    (new_name : string) (request : Uuid) : api ServiceInstance :=
  actor ← authenticated_actor_mutation config r;
  from_result (validate_name new_name) ;;
  check (negb (bool_decide (request = 0%N))) (BadRequest "request_id must be a nonzero UUID.") ;;
  context ← authorize_actor actor org "flash:RestoreBackup" (backup_resource org id);
  authorize_actor actor org "flash:CreateInstance" (organization_resource org "flash/*") ;;
  b ← fetch (flash_backup org id);
  check (negb (delete_requested b) && String.eqb (backup_phase b) "ready") ApiConflict ;;
  p ← some_or FlashProviderUnavailable provider;
  remote ← from_result (map_err (λ _, FlashProviderUnavailable)
             (v ← backup_request p (backup_context b) "flash.backups.get" (Some id) None; validated_status id v));
  check (is_text "ready" (at_key "phase" remote)) ApiConflict ;;
  s ← from_result (restored_spec (source_spec b) id);
  target ← run (reserve_flash_restore org (Iam.context_principal_id context) request id project new_name);
  quota_user ← quota_user_for_actor actor org;
  run (create_service_instance_with_id_for_user org project (Iam.context_principal_id context) "flash" new_name
         (to_value s) target (Some quota_user)).

(** *** Destinations *)

Definition destination_resource (org : OrganizationId) (suffix : string) : string :=
  organization_resource org ("flash/backup-destination/" ++ suffix)%string.

Definition verified_ready (org : OrganizationId) (id : Uuid) (v : Value) : result ApiError bool :=
  fail_if (negb (answers_for org id v)) FlashProviderUnavailable ;;
  ok_or FlashProviderUnavailable (as_bool (at_key "ready" v)).

(** [put_secret] stores the credential in the secret manager.  A refusal of the
    store after it leaves the secret there. *)
Definition apply_destination (put_secret : Uuid → string → string → result ApiError ()) (org : OrganizationId)
    (principal : PrincipalId) (id : Uuid) (d : DestinationRow) (access secret : string) : api DestinationRow :=
  check (credential_valid access && credential_valid secret) (BadRequest "Invalid S3 credentials.") ;;
  from_result (put_secret id access secret) ;;
  p ← some_or FlashProviderUnavailable provider;
  remote ← from_result (map_err (λ e, match e with
             | ProviderStatus 400 => BadRequest "Invalid S3 destination."
             | ProviderStatus 409 => ApiConflict
             | _ => FlashProviderUnavailable
             end) (backup_destination_request p (destination_context org id principal)
      (Some (Object [("endpoint", Str (destination_endpoint d)); ("bucket", Str (destination_bucket d));
                     ("region", Str (destination_region d)); ("prefix", Str (destination_prefix d));
                     ("virtual_hosted", Bool (virtual_hosted d)); ("access_key", Str access);
                     ("secret_key", Str secret)]))));
  ready ← from_result (verified_ready org id remote);
  run (update_flash_backup_destination_state org id ready).

Definition create_destination (put_secret : Uuid → string → string → result ApiError ()) (r : Request)
    (org : OrganizationId) (input : NewFlashBackupDestination) : api DestinationRow :=
  actor ← authenticated_actor_mutation config r;
  context ← authorize_actor actor org "flash:ManageBackupDestinations" (destination_resource org "*");
  from_result (validate_destination input) ;;
  found ← run (reserve_flash_backup_destination org (Iam.context_principal_id context) input);
  apply_destination put_secret org (Iam.context_principal_id context) (fst found) (snd found) (access_key input)
    (secret_key input).

Definition rotate_credentials (put_secret : Uuid → string → string → result ApiError ()) (r : Request)
    (org : OrganizationId) (id : Uuid) (access secret : string) : api DestinationRow :=
  actor ← authenticated_actor_mutation config r;
  context ← authorize_actor actor org "flash:ManageBackupDestinations" (destination_resource org (uuid_to_string id));
  d ← fetch (flash_backup_destination org id);
  apply_destination put_secret org (Iam.context_principal_id context) id d access secret.

(** *** Domains *)

Definition add_flash_domain (reserved_names reserved_suffixes : string) (r : Request) (org : OrganizationId)
    (service : ServiceInstanceId) (host : string) : api (Uuid * DomainRow) :=
  from_result (map_err BadRequest (validate_hostname host)) ;;
  check (negb (reserved_hostname host reserved_names reserved_suffixes))
    (BadRequest "This hostname is reserved by the platform.") ;;
  actor ← authenticated_actor_mutation config r;
  context ← authorize_actor actor org "flash:UpdateInstance" (flash_service_resource org service);
  flash_service org service ;;
  run (reserve_flash_domain org service (Iam.context_principal_id context) host).

Definition remove_flash_domain (r : Request) (org : OrganizationId) (service : ServiceInstanceId) (id : Uuid) : api () :=
  actor ← authenticated_actor_mutation config r;
  authorize_actor actor org "flash:UpdateInstance" (flash_service_resource org service) ;;
  flash_service org service ;;
  run (request_flash_domain_delete org service id).

(** *** SSH keys *)

(** Only a person may have SSH keys. *)
Definition human (actor : AuthenticatedActor) (org : OrganizationId) : api (UserId * AuthorizationContext) :=
  user ← match actor with
         | ActorUser session => mret (session_user_id_of session)
         | ActorCliToken token =>
             check (bool_decide (cli_token_organization token = org)) Forbidden ;; mret (token_user_id token)
         | _ => api_fail Forbidden
         end;
  found ← fetch (authorization_context user org);
  context ← some_or Forbidden found;
  mret (user, context).

Definition key_audit (org : OrganizationId) (user : UserId) (principal : PrincipalId) (act : string) (key : Uuid)
    : api () :=
  id ← run now_v7;
  run (append_audit (Build_AuditRow (Some org) (Some principal) (Some user) (uuid_to_string id) act
    ("urn:heterocloud:flash:" ++ uuid_to_string org ++ ":ssh-key:" ++ uuid_to_string key)%string
    "allow" "self_service" (Object [("key_id", Str (uuid_to_string key))]))).

Definition key_of (v : Value) : option (string * string) :=
  text ← get "key" v ≫= as_str;
  match parse_key text with Ok k => Some k | Err _ => None end.

(** [github_keys] is the request to GitHub: the keys of a user, as JSON. *)
Definition fetch_github_keys (github_keys : string → result ApiError (list Value)) (user : string)
    : result ApiError (list (string * string)) :=
  fail_if (negb (valid_github_username user)) (BadRequest "Invalid GitHub username") ;;
  values ← github_keys user;
  fail_if (50 <? Z.of_nat (length (values : list Value))) (BadRequest "GitHub の公開鍵が多すぎます") ;;
  Ok (omap key_of values).

Definition create_key (github_keys : string → result ApiError (list Value)) (r : Request) (org : OrganizationId)
    (new_name key : string) (github : option string) : api (Uuid * SshKeyRow) :=
  actor ← authenticated_actor_mutation config r;
  person ← human actor org;
  check (negb (not_trimmed new_name || is_empty new_name || (120 <? Z.of_nat (length (chars new_name)))))
    (BadRequest "SSH key name must contain 1–120 characters") ;;
  check (negb (is_some_and (λ s, negb (valid_github_username s)) github)) (BadRequest "Invalid GitHub username") ;;
  parsed ← from_result (parse_key key);
  (match github with
   | Some user =>
       known ← from_result (fetch_github_keys github_keys user);
       check (existsb (λ k, String.eqb (snd k) (snd parsed)) known) (BadRequest "GitHub の公開鍵が変更されています。もう一度検索してください")
   | None => mret ()
   end) ;;
  item ← run (create_flash_ssh_key org (fst person) new_name (fst parsed) (snd parsed) github);
  key_audit org (fst person) (Iam.context_principal_id (snd person)) "flash:RegisterSshKey" (fst item) ;;
  mret item.

Definition delete_key (r : Request) (org : OrganizationId) (id : Uuid) : api () :=
  actor ← authenticated_actor_mutation config r;
  person ← human actor org;
  run (delete_flash_ssh_key org (fst person) id) ;;
  key_audit org (fst person) (Iam.context_principal_id (snd person)) "flash:DeleteSshKey" id.

Definition actor_user (actor : AuthenticatedActor) : option UserId :=
  match actor with
  | ActorUser session => Some (session_user_id_of session)
  | ActorCliToken token => Some (token_user_id token)
  | _ => None
  end.

Definition change_service_key (r : Request) (org : OrganizationId) (service : ServiceInstanceId) (key : Uuid)
    (on : bool) : api (list Uuid) :=
  actor ← authenticated_actor_mutation config r;
  context ← authorize_actor actor org "flash:UpdateInstance" (flash_service_resource org service);
  ids ← run (set_flash_service_ssh_key org service key on);
  id ← run now_v7;
  run (append_audit (Build_AuditRow (Some org) (Some (Iam.context_principal_id context)) (actor_user actor)
    (uuid_to_string id) "flash:SetSshKeys" (flash_service_resource org service) "allow" "authorized_service_update"
    (Object [("key_id", Str (uuid_to_string key)); ("enabled", Bool on)]))) ;;
  mret ids.

End Handlers.
