(* ===== verification/SshGateway.v ===== *)
(** * The SSH gateway

    The part of [heterocloud-api/src/flash_ssh_gateway.rs] that decides who may open
    a channel to a Flash service, and what is started there: the name a client signs
    in with, the check of its key and its permission, the channels of a connection,
    and the requests on a channel up to the start of the command.

    The protocol itself ([russh]), the host key and the copying of bytes between a
    channel and the provider are not modelled: a client has proved that it has the
    key whose fingerprint is given. *)
From stdpp Require Import sorting.
From S2P Require Import Prelude Text Json Net Policy Iam RoleTrust Quota Specs Flash Store Usage Provider Prepare Services FlowAccess Cloud Identity Access FlashStore Authorize IdentityCenter Routes FlashOps.

Definition SSH_MAX_CONNECTIONS : Z := 64.
Definition SSH_MAX_CHANNELS : Z := 8.

(** ** The gateway *)

(** The permits that are left, and the address that is advertised. *)
Record FlashSshGateway := {
  gateway_permits : Z;
  advertised_tcp : option (string * Z);
}.

Definition from_file : FlashSshGateway := Build_FlashSshGateway SSH_MAX_CONNECTIONS None.

Definition is_advertised_byte (b : Z) : bool := is_ascii_alphanumeric b || bool_decide (b ∈ bytes ".-:").

Definition set_advertised_tcp (g : FlashSshGateway) (host : string) (port : Z) : option FlashSshGateway :=
  if is_empty host || (253 <? len host) || negb (forallb is_advertised_byte (bytes host)) || (port =? 0) then None
  else Some (Build_FlashSshGateway (gateway_permits g) (Some (host, port))).

Definition acquire_connection (g : FlashSshGateway) : option FlashSshGateway :=
  if gateway_permits g <=? 0 then None
  else Some (Build_FlashSshGateway (gateway_permits g - 1) (advertised_tcp g)).

(** ** Identities *)

Record SshIdentity := {
  identity_organization : OrganizationId;
  identity_service : ServiceInstanceId;
  identity_user : UserId;
  identity_key : Uuid;
  identity_fingerprint : string;
}.

Definition PLUS : Z := 43.

Definition ssh_username `{UuidText} (value : string) : option (Uuid * Uuid) :=
  parts ← split_once PLUS value;
  if negb (len (fst parts) =? 36) || negb (len (snd parts) =? 36) then None
  else org ← uuid_parse (fst parts); service ← uuid_parse (snd parts); Some (org, service).

(** A container, and the requests to the provider. *)
Record FlashContainer := {
  container_name : string;
  container_phase : string;
  container_ready : bool;
}.
Record SshProvider := {
  list_containers : FlashProviderContext → result FlashProviderError (list FlashContainer);
  (** [connect_ssh_forward] and [provider_started]: the provider reports the start. *)
  start_forward : FlashProviderContext → string → Z → bool;
}.

Definition by_container : relation FlashContainer := λ a b, String.leb (container_name a) (container_name b) = true.
#[export] Instance by_container_dec : RelDecision by_container.
Proof. intros a b. unfold by_container. apply _. Defined.

(** The state of a connection. *)
Record SshHandler := {
  handler_expected : option (Uuid * Uuid);
  handler_identity : option SshIdentity;
  handler_verified : bool;
  handler_channels : Z;
  handler_pod : option string;
}.
Definition new_handler (expected : option (Uuid * Uuid)) : SshHandler :=
  Build_SshHandler expected None false SSH_MAX_CHANNELS None.
Definition set_handler_identity (i : option SshIdentity) (h : SshHandler) : SshHandler :=
  Build_SshHandler (handler_expected h) i (handler_verified h) (handler_channels h) (handler_pod h).
Definition accept_identity (i : SshIdentity) (h : SshHandler) : SshHandler :=
  Build_SshHandler (handler_expected h) (Some i) true (handler_channels h) (handler_pod h).
Definition set_handler_pod (pod : string) (h : SshHandler) : SshHandler :=
  Build_SshHandler (handler_expected h) (handler_identity h) (handler_verified h) (handler_channels h) (Some pod).
Definition take_channel (h : SshHandler) : SshHandler :=
  Build_SshHandler (handler_expected h) (handler_identity h) (handler_verified h) (handler_channels h - 1) (handler_pod h).

Section Gateway.
Context `{JsonText, UuidText, Chrono, WebLib, SqlText, SqlCollation, Serde PolicyDocument}.
Context (config : RuntimeConfig) (provider : option SshProvider).

(** The upgrade of a request to a tunnel: what the handler expects then. *)
Definition websocket (gateway : option FlashSshGateway) (r : Request) (org service : Uuid)
    : result ApiError (SshHandler * FlashSshGateway) :=
  (if is_some (headers r ORIGIN) then require_same_origin config r else Ok ()) ;;
  g ← ok_or ApiNotFound gateway;
  g ← ok_or TooManyRequests (acquire_connection g);
  Ok (new_handler (Some (org, service)), g).

(** A connection that is accepted on the port of the gateway. *)
Definition accept_connection (gateway : option FlashSshGateway) : option (SshHandler * FlashSshGateway) :=
  g ← gateway; g ← acquire_connection g; Some (new_handler None, g).

Definition check_identity (i : SshIdentity) (audit : bool) : api (ServiceInstance * PrincipalId) :=
  let org := identity_organization i in
  found ← ask (authorized_flash_ssh_key org (identity_service i) (identity_fingerprint i));
  key ← some_or Forbidden found;
  check (bool_decide (fst key = identity_key i) && bool_decide (ssh_user (snd key) = identity_user i)) Forbidden ;;
  found ← fetch (authorization_context (identity_user i) org);
  context ← some_or Forbidden found;
  let res := flash_service_resource org (identity_service i) in
  t ← ask now;
  e ← evaluate_account context org "flash:ExecInstance" res false (t * NANOS_PER_SECOND);
  (if audit then
     id ← run now_v7;
     run (append_audit (Build_AuditRow (Some org) (Some (Iam.context_principal_id context)) (Some (identity_user i))
       (uuid_to_string id) "flash:ExecInstance" res (decision_text (decision e)) (reason e)
       (Object [("actor", Str "ssh_public_key"); ("key_id", json_uuid (identity_key i))])))
   else mret ()) ;;
  check (bool_decide (decision e = Decision.Allow)) Forbidden ;;
  instance ← flash_service org (identity_service i);
  mret (instance, Iam.context_principal_id context).

(** The public key of a client, by its algorithm and its fingerprint. *)
Definition auth_publickey (h : SshHandler) (user algorithm print : string) : api (bool * SshHandler) :=
  let h := set_handler_identity None h in
  if String.eqb algorithm "ssh-rsa" then mret (false, h)
  else
    match ssh_username user with
    | None => mret (false, h)
    | Some (org, service) =>
        if is_some_and (λ e, negb (bool_decide (e = (org, service)))) (handler_expected h) then mret (false, h)
        else
          found ← ask (authorized_flash_ssh_key org service print);
          match found with
          | None => mret (false, h)
          | Some (id, key) =>
              let i := Build_SshIdentity org service (ssh_user key) id print in
              checked ← attempt (check_identity i true);
              match checked with
              | Err _ => mret (false, h)
              | Ok _ => mret (true, accept_identity i h)
              end
          end
    end.

Definition first_container (l : list FlashContainer) : option string :=
  container_name <$> head (merge_sort by_container
    (filter (λ c, container_ready c = true ∧ container_phase c = "Running") l)).

(** The container of a connection is chosen once; the identity is checked for each
    channel. *)
Definition target (h : SshHandler) : api (option (SshIdentity * FlashProviderContext * string) * SshHandler) :=
  match handler_identity h with
  | None => mret (None, h)
  | Some i =>
      checked ← attempt (check_identity i false);
      match checked, provider with
      | Ok (instance, principal), Some p =>
          let context := flash_provider_context instance principal in
          match handler_pod h with
          | Some pod => mret (Some (i, context, pod), h)
          | None =>
              match list_containers p context with
              | Ok l =>
                  match first_container l with
                  | Some pod => mret (Some (i, context, pod), set_handler_pod pod h)
                  | None => mret (None, h)
                  end
              | Err _ => mret (None, h)
              end
          end
      | _, _ => mret (None, h)
      end
  end.

(** A channel that is not accepted gives its permit back. *)
Definition channel_open_session (h : SshHandler)
    : api (option (SshIdentity * FlashProviderContext * string) * SshHandler) :=
  if handler_channels h <=? 0 then mret (None, h)
  else
    found ← target h;
    match found with
    | (Some t, h) => mret (Some t, take_channel h)
    | (None, h) => mret (None, h)
    end.

Definition is_loopback (host : string) : bool :=
  String.eqb host "localhost" || String.eqb host "127.0.0.1" || String.eqb host "::1".

Definition channel_open_direct_tcpip (h : SshHandler) (host : string) (port : Z)
    : api (option (SshIdentity * FlashProviderContext * string) * SshHandler) :=
  if negb (is_loopback host) || (port =? 0) || (65535 <? port) then mret (None, h)
  else if handler_channels h <=? 0 then mret (None, h)
  else
    found ← target h;
    match found, provider with
    | (Some (i, context, pod), h), Some p =>
        if start_forward p context pod port then mret (Some (i, context, pod), take_channel h) else mret (None, h)
    | (_, h), _ => mret (None, h)
    end.

End Gateway.

(** ** The start of a session *)

Inductive ChannelMsg :=
| RequestPty (cols rows : Z)
| Exec (command : list Z)
| RequestShell
| RequestSubsystem (name : string)
| SetEnv
| WindowChange (cols rows : Z)
| OtherMsg.

(** [String::from_utf8] succeeds. *)
Definition is_continuation (b : Z) : bool := in_range 128 191 b.
Fixpoint valid_utf8 (l : list Z) : bool :=
  match l with
  | [] => true
  | a :: l1 =>
      if in_range 0 127 a then valid_utf8 l1
      else match l1 with
           | [] => false
           | b :: l2 =>
               if in_range 194 223 a then is_continuation b && valid_utf8 l2
               else match l2 with
                    | [] => false
                    | c :: l3 =>
                        if in_range 224 239 a then
                          in_range (if a =? 224 then 160 else 128) (if a =? 237 then 159 else 191) b
                          && is_continuation c && valid_utf8 l3
                        else match l3 with
                             | [] => false
                             | d :: l4 =>
                                 in_range 240 244 a
                                 && in_range (if a =? 240 then 144 else 128) (if a =? 244 then 143 else 191) b
                                 && is_continuation c && is_continuation d && valid_utf8 l4
                             end
                    end
           end
  end.

Definition QUOTE : string := String (ascii_of_byte 34) EmptyString.
Definition SFTP_COMMAND : string :=
  ("for p in /usr/lib/openssh/sftp-server /usr/lib/ssh/sftp-server /usr/libexec/openssh/sftp-server /usr/libexec/sftp-server; do if [ -x "
   ++ QUOTE ++ "$p" ++ QUOTE ++ " ]; then exec " ++ QUOTE ++ "$p" ++ QUOTE ++ "; fi; done; exec sftp-server")%string.

Record SessionStart := {
  start_command : option string;
  start_tty : bool;
  start_cols : Z;
  start_rows : Z;
}.

Definition window (cols rows : Z) : bool := in_range 1 65535 cols && in_range 1 65535 rows.

Definition startable (command : list Z) : bool :=
  valid_utf8 command && negb (is_nil command) && (Z.of_nat (length command) <=? 16 * 1024) && forallb (λ b, negb (b =? 0)) command.

(** The messages on a channel until it starts something; nothing is started when they
    end, or time out, before. *)
Fixpoint negotiate (tty : bool) (cols rows : Z) (messages : list ChannelMsg) : option SessionStart :=
  match messages with
  | [] => None
  | RequestPty c r :: l => if window c r then negotiate true c r l else negotiate tty cols rows l
  | Exec command :: _ => if startable command then Some (Build_SessionStart (Some (of_bytes command)) tty cols rows) else None
  | RequestShell :: _ => Some (Build_SessionStart None tty cols rows)
  | RequestSubsystem n :: _ =>
      if String.eqb n "sftp" && negb tty then Some (Build_SessionStart (Some SFTP_COMMAND) tty cols rows) else None
  | SetEnv :: l => negotiate tty cols rows l
  | WindowChange c r :: l => if window c r then negotiate tty c r l else negotiate tty cols rows l
  | OtherMsg :: _ => None
  end.

Definition session_start (messages : list ChannelMsg) : option SessionStart := negotiate false 80 24 messages.

Definition start_message (s : SessionStart) : Value :=
  Object [("type", Str "start");
          ("command", match start_command s with Some c => Str c | None => Null end);
          ("tty", Bool (start_tty s)); ("cols", Num (Int (start_cols s))); ("rows", Num (Int (start_rows s)))].
