(* ===== verification/ServiceRoutes.v ===== *)
(** * The handlers of services

    The handlers of [heterocloud-api/src/routes.rs] that create, change and
    delete realtime services (Flow), applications (Flash), networks (VPC) and
    buckets (Syouyu), and the secrets of applications.

    The secret manager and the part of the provider that these handlers call are
    records of functions: what they answer.  The requests that change a secret there
    are recorded ([outside]). *)
From S2P Require Import Prelude Text Json Net Policy Iam RoleTrust Quota Specs Flash Store Usage Provider Prepare Services FlowAccess Cloud Identity Access Admin FlashStore Authorize Outside IdentityCenter Routes FlashOps.

(** ** The outside *)

Inductive SecretManagerError := Missing | Unavailable.

(** A client that has logged in. *)
Record SecretManagerClient := {
  secret_list : ServiceInstanceId → result SecretManagerError (list string);
  secret_put : ServiceInstanceId → string → string → result SecretManagerError ();
  secret_delete : ServiceInstanceId → string → result SecretManagerError ();
}.

(** The [FlashProviderProxy], by the requests of these handlers. *)
Record FlashServiceGateway := {
  list_gpu_catalog : result FlashProviderError (list GpuCatalogDevice);
  update_gpu_access : string → string → string → bool → list UserId → result FlashProviderError ();
  write_load_balancer_secret : FlashProviderContext → string → option string → result FlashProviderError ();
}.

(** What is asked of the secret manager and of the provider about a secret. *)
Inductive SecretRequest :=
| RequestPut (service : ServiceInstanceId) (name value : string)
| RequestDelete (service : ServiceInstanceId) (name : string)
| RequestLoadBalancer (context : FlashProviderContext) (name : string) (value : option string).

Definition map_secret_error (e : SecretManagerError) : ApiError :=
  match e with Missing => ApiNotFound | Unavailable => SecretManagerUnavailable end.

(** ** Validation *)

Definition is_object (v : Value) : bool := match v with Object _ => true | _ => false end.

Definition validate_flow_spec (s : FlowSpec) : result ApiError () :=
  fail_if (negb (in_range 1 MAX_FLOW_ROOMS (max_rooms s)))
    (BadRequest "max_rooms must be between 1 and 1000000") ;;
  fail_if ((max_participants s =? 0) || (100000 <? max_participants s))
    (BadRequest "max_participants must be between 1 and 100000") ;;
  fail_if (negb (in_range 1 MAX_FLOW_RATE_LIMIT_REQUESTS_PER_SECOND (requests_per_second (rate_limit s))))
    (BadRequest "rate_limit.requests_per_second must be between 1 and 1000") ;;
  fail_if (negb (in_range 1 MAX_FLOW_RATE_LIMIT_BURST (burst (rate_limit s))))
    (BadRequest "rate_limit.burst must be between 1 and 5000") ;;
  fail_if (is_nil (trim_chars (chars (flow_region s))) || (64 <? len (flow_region s)))
    (BadRequest "region must contain between 1 and 64 characters") ;;
  fail_if (negb (is_object (flow_metadata s))) (BadRequest "metadata must be an object").

(** [entry(key).or_insert(value)]. *)
Definition or_insert (k : string) (v : Value) (fields : list (string * Value)) : list (string * Value) :=
  match field k fields with Some _ => fields | None => field_insert k v fields end.

Definition deserialize_stored_flow_spec `{Serde FlowSpec} (v : Value) : result ApiError FlowSpec :=
  match v with
  | Object fields =>
      let fields := or_insert "max_rooms" (Num (Int DEFAULT_FLOW_MAX_ROOMS)) fields in
      let fields := or_insert "rate_limit" (Object [
        ("requests_per_second", Num (Int DEFAULT_FLOW_RATE_LIMIT_REQUESTS_PER_SECOND));
        ("burst", Num (Int DEFAULT_FLOW_RATE_LIMIT_BURST))]) fields in
      ok_or Internal (from_value (Object fields))
  | _ => Err Internal
  end.

Definition validate_syouyu_spec `{JsonText} (s : SyouyuSpec) : result ApiError () :=
  map_err (λ e, BadRequest (domain_message e)) (SyouyuSpec_validate s).

Definition validate_vpc_spec (s : VpcSpec) : result ApiError () :=
  map_err (λ e, BadRequest (domain_message e)) (VpcSpec_validate s).

Definition is_secret_name_byte (b : Z) : bool := is_ascii_lowercase b || is_ascii_digit b || (b =? HYPHEN).

Definition validate_flash_secret_name (n : string) : result ApiError () :=
  let valid := negb (is_empty n) && (len n <=? 63) && is_some_and is_ascii_lowercase (head (bytes n))
    && is_some_and is_ascii_alphanumeric (last (bytes n)) && forallb is_secret_name_byte (bytes n) in
  if valid then Ok ()
  else Err (BadRequest "Secret names must be lowercase DNS labels (up to 63 characters).").

Section Handlers.
Context `{LimitsDecoder, Serde FlowSpec, Serde FlashSpec, Serde SyouyuSpec, Serde VpcSpec}.
Context `{IpNetLib, UrlLib, JsonText, UuidText, SqlCast, Chrono, TimeText}.
Context `{WebLib, SqlText, SqlCollation, Serde PolicyDocument}.
Context (config : RuntimeConfig) (provider : option FlashServiceGateway).
(** The configured secret manager, and what logging in there gives. *)
Context (secret_manager : option (result SecretManagerError SecretManagerClient)).

(** ** Resources *)

Definition flash_collection_resource (org : Uuid) : string := organization_resource org "flash/*".
Definition syouyu_collection_resource (org : Uuid) : string := organization_resource org "syouyu/bucket/*".
Definition syouyu_bucket_resource (org id : Uuid) : string :=
  organization_resource org ("syouyu/bucket/" ++ uuid_to_string id)%string.
Definition vpc_resource (org : Uuid) (id : option Uuid) : string :=
  organization_resource org (match id with
    | None => "vpc/*"
    | Some id => ("vpc/network/" ++ uuid_to_string id)%string
    end).
Definition security_group_resource (org vpc : Uuid) (group : string) : string :=
  (vpc_resource org (Some vpc) ++ "/security-group/" ++ group)%string.

(** ** Calls of the store *)

(** The service of a provider in an account. *)
Definition provided_service (prov : string) (org : OrganizationId) (id : ServiceInstanceId) : api ServiceInstance :=
  found ← ask (λ db, r ← service_instances db !! id;
                 if in_org org r && has_provider prov r then Some (Build_ServiceInstance id r) else None);
  some_or ApiNotFound found.

Definition realtime_service := provided_service "flow".
Definition syouyu_bucket := provided_service "syouyu".

Definition create_service_instance_for_user (org : OrganizationId) (project : ProjectId) (principal : PrincipalId)
    (prov new_name : string) (value : Value) (quota_user : option UserId) : api ServiceInstance :=
  id ← run now_v7;
  run (create_service_instance_with_id_for_user org project principal prov new_name value id (Some quota_user)).

Definition update_service_instance_in_project (org : OrganizationId) (id : ServiceInstanceId) (prov : string)
    (principal : PrincipalId) (project : option ProjectId) (new_name : string) (value : Value) : api ServiceInstance :=
  run (update_service_instance_checked org id prov principal project new_name value None).

Definition update_service_instance (org : OrganizationId) (id : ServiceInstanceId) (prov : string)
    (principal : PrincipalId) (new_name : string) (value : Value) : api ServiceInstance :=
  update_service_instance_in_project org id prov principal None new_name value.

(** A rejected catalog is the provider's fault. *)
Definition accept_gpu_catalog (catalog : list GpuCatalogDevice) : api () := λ db,
  match sync_gpu_catalog catalog db with
  | Ok (_, db') => (Ok (), db')
  | Err (RequestRejected _) => (Err FlashProviderUnavailable, db)
  | Err e => (Err (from_store e), db)
  end.

Definition sync_gpu_catalog_from_provider : api () :=
  p ← some_or FlashProviderUnavailable provider;
  catalog ← from_result (map_err (λ _, FlashProviderUnavailable) (list_gpu_catalog p));
  accept_gpu_catalog catalog.

(** ** Realtime services *)

Definition create_realtime_service (r : Request) (org : OrganizationId) (project : ProjectId) (new_name : string)
    (s : FlowSpec) : api ServiceInstance :=
  actor ← authenticated_actor_mutation config r;
  from_result (validate_name new_name) ;;
  from_result (validate_flow_spec s) ;;
  context ← authorize_actor actor org "realtime:CreateService" (organization_resource org "realtime/*");
  quota_user ← quota_user_for_actor actor org;
  create_service_instance_for_user org project (Iam.context_principal_id context) "flow" new_name (to_value s) quota_user.

Definition update_realtime_service (r : Request) (org : OrganizationId) (id : ServiceInstanceId)
    (new_name : option string) (s : option FlowSpec) : api ServiceInstance :=
  actor ← authenticated_actor_mutation config r;
  check (is_some new_name || is_some s) (BadRequest "name or spec must be supplied") ;;
  current ← realtime_service org id;
  let new_name := default (name (instance_row current)) new_name in
  from_result (validate_name new_name) ;;
  s ← (match s with
       | Some s => mret s
       | None => from_result (deserialize_stored_flow_spec (spec (instance_row current)))
       end);
  from_result (validate_flow_spec s) ;;
  context ← authorize_actor actor org "realtime:UpdateService" (realtime_service_resource org id);
  update_service_instance org id "flow" (Iam.context_principal_id context) new_name (to_value s).

Definition delete_realtime_service (r : Request) (org : OrganizationId) (id : ServiceInstanceId) : api ServiceInstance :=
  actor ← authenticated_actor_mutation config r;
  context ← authorize_actor actor org "realtime:DeleteService" (realtime_service_resource org id);
  run (begin_delete_service_instance org id "flow" (Iam.context_principal_id context)).

(** ** Networks *)

Definition create_vpc (r : Request) (org : OrganizationId) (project : ProjectId) (new_name : string) (s : VpcSpec)
    : api ServiceInstance :=
  actor ← authenticated_actor_mutation config r;
  from_result (validate_name new_name) ;;
  from_result (validate_vpc_spec s) ;;
  context ← authorize_actor actor org "vpc:CreateNetwork" (vpc_resource org None);
  quota_user ← quota_user_for_actor actor org;
  create_service_instance_for_user org project (Iam.context_principal_id context) "vpc" new_name (to_value s) quota_user.

Definition update_vpc (r : Request) (org : OrganizationId) (id : ServiceInstanceId) (new_name : string) (s : VpcSpec)
    : api ServiceInstance :=
  actor ← authenticated_actor_mutation config r;
  from_result (validate_name new_name) ;;
  from_result (validate_vpc_spec s) ;;
  context ← authorize_actor actor org "vpc:UpdateNetwork" (vpc_resource org (Some id));
  update_service_instance org id "vpc" (Iam.context_principal_id context) new_name (to_value s).

Definition delete_vpc (r : Request) (org : OrganizationId) (id : ServiceInstanceId) : api ServiceInstance :=
  actor ← authenticated_actor_mutation config r;
  context ← authorize_actor actor org "vpc:DeleteNetwork" (vpc_resource org (Some id));
  run (begin_delete_service_instance org id "vpc" (Iam.context_principal_id context)).

(** Each security group needs a permission of its own. *)
Fixpoint authorize_groups (actor : AuthenticatedActor) (org vpc : Uuid) (groups : list string) : api () :=
  match groups with
  | [] => mret ()
  | group :: groups =>
      authorize_actor actor org "vpc:AttachSecurityGroup" (security_group_resource org vpc group) ;;
      authorize_groups actor org vpc groups
  end.

Definition authorize_vpc_attachment (actor : AuthenticatedActor) (org : OrganizationId) (s : FlashSpec) : api () :=
  match network s with
  | Some n => authorize_groups actor org (vpc_id n) (attached_groups n)
  | None => mret ()
  end.

(** ** Applications *)

Definition flash_secret_manager : api SecretManagerClient :=
  login ← some_or SecretManagerUnavailable secret_manager;
  from_result (map_err map_secret_error login).

Definition list_secrets (m : SecretManagerClient) (id : ServiceInstanceId) : api (list string) :=
  from_result (map_err map_secret_error (secret_list m id)).

Definition domain_result {A} (m : result DomainError A) : api A :=
  from_result (map_err (λ e, BadRequest (domain_message e)) m).

Definition create_flash_service (r : Request) (org : OrganizationId) (project : ProjectId) (new_name : string)
    (s : FlashSpec) : api ServiceInstance :=
  actor ← authenticated_actor_mutation config r;
  from_result (validate_name new_name) ;;
  from_result (validate_flash_spec s) ;;
  check (negb (is_some (restore_from_backup_id s)))
    (BadRequest "Use the backup restore endpoint to create a restored service.") ;;
  authorize_vpc_attachment actor org s ;;
  authorize_task_role actor org (task_role s) ;;
  check (is_nil (secret_env s) && is_nil (secret_files s))
    (BadRequest "Create the Flash service before attaching secrets.") ;;
  (if is_some (gpu_type s) then sync_gpu_catalog_from_provider else mret ()) ;;
  context ← authorize_actor actor org "flash:CreateInstance" (flash_collection_resource org);
  quota_user ← quota_user_for_actor actor org;
  create_service_instance_for_user org project (Iam.context_principal_id context) "flash" new_name (to_value s) quota_user.

(** [request.spec.restore_from_backup_id = ..]. *)
Definition with_restore (backup : option Uuid) (s : FlashSpec) : FlashSpec := {|
  region := region s; image := image s; deployment := deployment s; task_role := task_role s; replicas := replicas s;
  stopped := stopped s; autoscaling := autoscaling s; cpu_millis := cpu_millis s; memory_mib := memory_mib s;
  gpu_type := gpu_type s; ephemeral_storage_gib := ephemeral_storage_gib s; rootfs_storage_gib := rootfs_storage_gib s;
  persistent_storage_gib := persistent_storage_gib s; restore_from_backup_id := backup;
  ports := ports s; exposure := exposure s; egress := egress s; network := network s;
  env := env s; secret_env := secret_env s; secret_files := secret_files s; command := command s; args := args s;
  metadata := metadata s;
|}.

Definition update_flash_service (r : Request) (org : OrganizationId) (id : ServiceInstanceId)
    (project : option ProjectId) (new_name : string) (s : FlashSpec) : api ServiceInstance :=
  actor ← authenticated_actor_mutation config r;
  existing ← flash_service org id;
  prior ← some_or Internal (from_value (spec (instance_row existing)));
  let backup := restore_from_backup_id (prior : FlashSpec) in
  check (negb (is_some (restore_from_backup_id s)) || bool_decide (restore_from_backup_id s = backup))
    (BadRequest "The disk restore source is immutable.") ;;
  let s := with_restore backup s in
  from_result (validate_name new_name) ;;
  from_result (validate_flash_spec s) ;;
  authorize_vpc_attachment actor org s ;;
  authorize_task_role actor org (task_role s) ;;
  (if is_some (gpu_type s) then sync_gpu_catalog_from_provider else mret ()) ;;
  context ← authorize_actor actor org "flash:UpdateInstance" (flash_service_resource org id);
  attached ← domain_result (effective_secret_env s);
  (if is_nil attached then mret () else
     manager ← flash_secret_manager;
     available ← list_secrets manager id;
     check (forallb (λ e, bool_decide (snd e ∈ available)) attached)
       (BadRequest "Create each referenced secret before attaching it to the service.")) ;;
  update_service_instance_in_project org id "flash" (Iam.context_principal_id context) project new_name (to_value s).

Definition set_flash_service_execution (r : Request) (org : OrganizationId) (id : ServiceInstanceId) (stop : bool)
    : api ServiceInstance :=
  actor ← authenticated_actor_mutation config r;
  context ← authorize_actor actor org "flash:UpdateInstance" (flash_service_resource org id);
  run (set_flash_service_stopped org id (Iam.context_principal_id context) stop).

Definition delete_flash_service (r : Request) (org : OrganizationId) (id : ServiceInstanceId) : api ServiceInstance :=
  actor ← authenticated_actor_mutation config r;
  flash_service org id ;;
  context ← authorize_actor actor org "flash:DeleteInstance" (flash_service_resource org id);
  (if is_some secret_manager then
     manager ← flash_secret_manager;
     secrets ← list_secrets manager id;
     check (is_nil secrets)
       (BadRequest "Detach and delete the service secrets before deleting the Flash service.")
   else mret ()) ;;
  run (begin_delete_service_instance org id "flash" (Iam.context_principal_id context)).

(** ** Secrets *)

Definition attaches_oidc (n : string) (s : FlashSpec) : bool :=
  is_some_and (λ a, String.eqb (client_secret_ref a) n) (authentication (exposure s)).
Definition attaches_secret (n : string) (l : BTreeMap string) : bool := existsb (λ e, String.eqb (snd e) n) l.

Definition put_flash_secret_value (r : Request) (org : OrganizationId) (id : ServiceInstanceId) (n value : string)
    (for_load_balancer : bool) : outside SecretRequest () :=
  inside (from_result (validate_flash_secret_name n)) ;;
  inside (check (negb (is_empty value || (16384 <? len value) || contains_byte 0 value))
    (BadRequest "Secret values must contain 1 to 16384 bytes and cannot contain NUL.")) ;;
  actor ← inside (authenticated_actor_mutation config r);
  context ← inside (authorize_actor actor org "flash:UpdateInstance" (flash_service_resource org id));
  service ← inside (flash_service org id);
  s ← inside (some_or Internal (from_value (spec (instance_row service))));
  manager ← inside flash_secret_manager;
  existing ← inside (list_secrets manager id);
  inside (check (bool_decide (n ∈ existing) || (Z.of_nat (length existing) <? 32))
    (BadRequest "A Flash service can store at most 32 secrets.")) ;;
  emit (RequestPut id n value) (map_err map_secret_error (secret_put manager id n value)) ;;
  (if for_load_balancer || attaches_oidc n (s : FlashSpec) then
     p ← inside (some_or FlashProviderUnavailable provider);
     let c := flash_provider_context service (Iam.context_principal_id context) in
     emit (RequestLoadBalancer c n (Some value))
       (map_err (λ _, FlashProviderUnavailable) (write_load_balancer_secret p c n (Some value)))
   else mret ()) ;;
  l ← inside (domain_result (effective_secret_env s));
  if attaches_secret n l then
    inside (x ← update_service_instance org id "flash" (Iam.context_principal_id context) (name (instance_row service))
                  (spec (instance_row service));
            mret ())
  else mret ().

Definition delete_flash_secret (r : Request) (org : OrganizationId) (id : ServiceInstanceId) (n : string)
    : outside SecretRequest () :=
  inside (from_result (validate_flash_secret_name n)) ;;
  actor ← inside (authenticated_actor_mutation config r);
  context ← inside (authorize_actor actor org "flash:UpdateInstance" (flash_service_resource org id));
  service ← inside (flash_service org id);
  s ← inside (some_or Internal (from_value (spec (instance_row service))));
  l ← inside (domain_result (effective_secret_env s));
  inside (check (negb (attaches_secret n l)) ApiConflict) ;;
  inside (check (negb (attaches_oidc n s)) ApiConflict) ;;
  p ← inside (some_or FlashProviderUnavailable provider);
  let c := flash_provider_context service (Iam.context_principal_id context) in
  emit (RequestLoadBalancer c n None)
    (map_err (λ _, FlashProviderUnavailable) (write_load_balancer_secret p c n None)) ;;
  manager ← inside flash_secret_manager;
  emit (RequestDelete id n) (map_err map_secret_error (secret_delete manager id n)).

(** ** Buckets *)

Definition create_syouyu_bucket (r : Request) (org : OrganizationId) (project : ProjectId) (new_name : string)
    (s : SyouyuSpec) : api ServiceInstance :=
  actor ← authenticated_actor_mutation config r;
  from_result (validate_name new_name) ;;
  from_result (validate_syouyu_spec s) ;;
  context ← authorize_actor actor org "syouyu:CreateBucket" (syouyu_collection_resource org);
  quota_user ← quota_user_for_actor actor org;
  create_service_instance_for_user org project (Iam.context_principal_id context) "syouyu" new_name (to_value s) quota_user.

Definition update_syouyu_bucket (r : Request) (org : OrganizationId) (id : ServiceInstanceId) (new_name : string)
    (s : SyouyuSpec) : api ServiceInstance :=
  actor ← authenticated_actor_mutation config r;
  syouyu_bucket org id ;;
  from_result (validate_name new_name) ;;
  from_result (validate_syouyu_spec s) ;;
  context ← authorize_actor actor org "syouyu:UpdateBucket" (syouyu_bucket_resource org id);
  update_service_instance org id "syouyu" (Iam.context_principal_id context) new_name (to_value s).

Definition delete_syouyu_bucket (r : Request) (org : OrganizationId) (id : ServiceInstanceId) : api ServiceInstance :=
  actor ← authenticated_actor_mutation config r;
  syouyu_bucket org id ;;
  context ← authorize_actor actor org "syouyu:DeleteBucket" (syouyu_bucket_resource org id);
  run (begin_delete_service_instance org id "syouyu" (Iam.context_principal_id context)).

End Handlers.
