(* ===== verification/AccountRoutes.v ===== *)
(** * The handlers of accounts

    The handlers of [heterocloud-api/src/routes.rs] that change accounts: their
    names, projects and users, the cloud organization with its units, accounts and
    service control policies, the limits and roles of members, and credentials of
    the registry.

    The registry (Harbor, behind [registry.rs]) is a record of functions: what it
    answers. *)
From S2P Require Import Prelude Text Json Net Policy Iam RoleTrust Quota Specs Flash Store Usage Provider Prepare Services FlowAccess Cloud Identity Access Admin FlashStore Authorize Outside IdentityCenter Routes FlashOps.

(** [str::trim]. *)
Definition trim (s : string) : string := of_chars (trim_chars (chars s)).

Definition is_slug_byte (b : Z) : bool := is_ascii_lowercase b || is_ascii_digit b || (b =? HYPHEN).

Definition validate_slug (slug : string) : result ApiError () :=
  let bytes := bytes slug in
  let valid_length := in_range 3 63 (Z.of_nat (length bytes)) in
  let valid_start := is_some_and is_ascii_lowercase (head bytes) in
  let valid_end := is_some_and (λ b, is_ascii_lowercase b || is_ascii_digit b) (last bytes) in
  let valid_chars := forallb is_slug_byte bytes in
  fail_if (negb valid_length || negb valid_start || negb valid_end || negb valid_chars)
    (BadRequest "slug must be a 3..63 character lowercase DNS label").

(** ** The registry *)

Record RegistryProject := {
  project_authority : option string;
  project_image_prefix : option string;
}.
Record RegistrySecret := {
  robot_id : Z;
  robot_username : string;
  robot_password : string;
}.
Record RegistryGateway := {
  ensure_project : OrganizationId → ResourceQuotaLimits → option RegistryProject;
  create_push_credential : RegistryProject → string → option RegistrySecret;
  delete_credential : Z → option ();
}.

(** What is asked of the registry. *)
Inductive RegistryRequest :=
| RequestProject (organization : OrganizationId) (limits : ResourceQuotaLimits)
| RequestRobot (project : RegistryProject) (name : string)
| RequestDeleteRobot (robot : Z).

Definition MAX_SCP_CHARACTERS : Z := 10240.

Section Handlers.
Context `{LimitsDecoder, JsonText, UuidText, Chrono, WebLib, SqlText, SqlCollation}.
Context `{Serde PolicyDocument, Serde AwsPolicy}.
Context (config : RuntimeConfig) (registry_provider : option RegistryGateway).

(** ** Names *)

Definition put_account_name (r : Request) (account : OrganizationId) (new_name : string) : api AccountRow :=
  actor ← authenticated_actor_mutation config r;
  let new_name := trim new_name in
  from_result (validate_name new_name) ;;
  authorize_actor actor account "account:PutAccountName" (organization_resource account "account/*") ;;
  run (rename_account account new_name).

Definition put_cloud_organization_name (r : Request) (management : OrganizationId) (new_name : string) : api () :=
  actor ← authenticated_actor_mutation config r;
  let new_name := trim new_name in
  from_result (validate_name new_name) ;;
  authorize_actor actor management "organizations:UpdateOrganization"
    (organization_resource management "organization/*") ;;
  run (rename_cloud_organization management new_name).

Definition put_cloud_account_name (r : Request) (management account : OrganizationId) (new_name : string) : api () :=
  actor ← authenticated_actor_mutation config r;
  let new_name := trim new_name in
  from_result (validate_name new_name) ;;
  authorize_actor actor management "account:PutAccountName"
    (organization_resource management ("organization/accounts/" ++ uuid_to_string account)%string) ;;
  run (rename_cloud_account management account new_name).

Definition put_cloud_unit_name (r : Request) (management : OrganizationId) (unit_id : Uuid) (new_name : string)
    : api () :=
  actor ← authenticated_actor_mutation config r;
  let new_name := trim new_name in
  from_result (validate_name new_name) ;;
  authorize_actor actor management "organizations:UpdateOrganizationalUnit"
    (organization_resource management ("organization/units/" ++ uuid_to_string unit_id)%string) ;;
  run (rename_cloud_unit management unit_id new_name).

Definition put_project_name (r : Request) (org : OrganizationId) (project : ProjectId) (new_name : string)
    : api ProjectRow :=
  actor ← authenticated_actor_mutation config r;
  let new_name := trim new_name in
  from_result (validate_name new_name) ;;
  authorize_actor actor org "project:Update"
    (organization_resource org ("project/" ++ uuid_to_string project)%string) ;;
  run (rename_project org project new_name).

Definition put_iam_user_name (r : Request) (org : OrganizationId) (principal : PrincipalId) (new_name : string)
    : api PrincipalRow :=
  actor ← authenticated_actor_mutation config r;
  let new_name := trim new_name in
  from_result (validate_name new_name) ;;
  authorize_actor actor org "iam:UpdateUser"
    (organization_resource org ("iam/users/" ++ uuid_to_string principal)%string) ;;
  run (rename_iam_user org principal new_name).

Definition post_project (r : Request) (org : OrganizationId) (new_slug new_name : string) : api (Uuid * ProjectRow) :=
  actor ← authenticated_actor_mutation config r;
  from_result (validate_slug new_slug) ;;
  from_result (validate_name new_name) ;;
  authorize_actor actor org "project:Create" (organization_resource org "project/*") ;;
  run (create_project org new_slug new_name).

(** ** The cloud organization *)

(** The policy is measured as it was sent. *)
Definition post_service_control_policy (r : Request) (account : OrganizationId) (new_name : string) (document : Value)
    : api Uuid :=
  actor ← authenticated_actor_mutation config r;
  from_result (validate_name new_name) ;;
  text ← some_or Internal (to_vec document);
  check (Z.of_nat (length (chars (of_bytes text))) <=? MAX_SCP_CHARACTERS)
    (BadRequest "Service control policies are limited to 10,240 characters.") ;;
  d ← from_result (parse_policy_document document);
  require_policy_conditions_enabled d ;;
  authorize_actor actor account "organizations:CreatePolicy" (organization_resource account "organization/*") ;;
  require_service_control_enabled ;;
  run (create_service_control_policy account new_name d).

Definition modify_service_control_policy_attachment (actor : AuthenticatedActor) (account : OrganizationId)
    (policy : Uuid) (target_type : string) (target : Uuid) (attach : bool) : api () :=
  authorize_actor actor account
    (if attach then "organizations:AttachPolicy" else "organizations:DetachPolicy")
    (organization_resource account "organization/*") ;;
  require_service_control_enabled ;;
  run (change_service_control_attachment account target_type target policy attach).

Definition attach_service_control_policy (r : Request) (account : OrganizationId) (policy : Uuid)
    (target_type : string) (target : Uuid) : api () :=
  actor ← authenticated_actor_mutation config r;
  modify_service_control_policy_attachment actor account policy target_type target true.

Definition detach_service_control_policy (r : Request) (account : OrganizationId) (policy : Uuid)
    (target_type : string) (target : Uuid) : api () :=
  actor ← authenticated_actor_mutation config r;
  modify_service_control_policy_attachment actor account policy target_type target false.

Definition post_organizational_unit (r : Request) (account : OrganizationId) (parent : Uuid) (new_name : string)
    : api Uuid :=
  actor ← authenticated_actor_mutation config r;
  from_result (validate_name new_name) ;;
  authorize_actor actor account "organizations:CreateOrganizationalUnit"
    (organization_resource account "organization/*") ;;
  run (create_cloud_organizational_unit account parent new_name).

(** An account belongs to a person. *)
Definition account_creator (actor : AuthenticatedActor) : option UserId :=
  match actor with
  | ActorUser session => Some (session_user_id_of session)
  | ActorCliToken token => Some (token_user_id token)
  | _ => None
  end.

Definition post_member_account (r : Request) (account : OrganizationId) (parent : Uuid) (new_name new_slug : string)
    : api OrganizationId :=
  actor ← authenticated_actor_mutation config r;
  from_result (validate_slug new_slug) ;;
  from_result (validate_name new_name) ;;
  authorize_actor actor account "organizations:CreateAccount" (organization_resource account "organization/*") ;;
  user ← some_or Forbidden (account_creator actor);
  run (create_cloud_member_account account parent user new_slug new_name).

Definition put_member_account_parent (r : Request) (management account : OrganizationId) (parent : Uuid) : api () :=
  actor ← authenticated_actor_mutation config r;
  authorize_actor actor management "organizations:MoveAccount" (organization_resource management "organization/*") ;;
  run (move_cloud_member_account management account parent).

(** ** Members *)

(** The person an actor is, in an account. *)
Definition quota_human (actor : AuthenticatedActor) (org : OrganizationId) : option UserId :=
  match actor with
  | ActorUser session => Some (session_user_id_of session)
  | ActorCliToken token =>
      if bool_decide (cli_token_organization token = org) then Some (token_user_id token) else None
  | ActorRoleSession session _ =>
      if bool_decide (session_organization session = org) then session_center_user session else None
  | _ => None
  end.

Definition quota_human_context (actor : AuthenticatedActor) (org : OrganizationId)
    : api (UserId * AuthorizationContext) :=
  user ← some_or Forbidden (quota_human actor org);
  found ← fetch (authorization_context user org);
  context ← some_or Forbidden found;
  mret (user, context).

Definition identity_center_session (actor : AuthenticatedActor) : bool :=
  match actor with ActorRoleSession session _ => is_some (session_center_user session) | _ => false end.

Definition quota_administrator (actor : AuthenticatedActor) (org : OrganizationId) (act : string)
    : api AuthorizationContext :=
  found ← quota_human_context actor org;
  check (identity_center_session actor || is_administrator (snd found)) Forbidden ;;
  authorize_actor actor org act (organization_resource org "identity/member-quota/*").

Definition update_member_quota (r : Request) (org : OrganizationId) (user : UserId) (limits : ResourceQuotaLimits)
    : api ResourceQuotaLimits :=
  actor ← authenticated_actor_mutation config r;
  quota_administrator actor org "identity:UpdateMemberQuota" ;;
  run (set_member_resource_quota org user (Some limits)).

Definition clear_member_quota (r : Request) (org : OrganizationId) (user : UserId) : api ResourceQuotaLimits :=
  actor ← authenticated_actor_mutation config r;
  quota_administrator actor org "identity:UpdateMemberQuota" ;;
  run (set_member_resource_quota org user None).

Definition quota_resource_kind (kind : string) : option bool :=
  if String.eqb kind "service" then Some false
  else if String.eqb kind "service-account" then Some true else None.

Definition put_quota_assignment (r : Request) (org : OrganizationId) (kind : string) (resource : Uuid) (user : UserId)
    : api () :=
  actor ← authenticated_actor_mutation config r;
  quota_administrator actor org "identity:AssignQuotaResource" ;;
  service_account ← some_or ApiNotFound (quota_resource_kind kind);
  run (assign_quota_resource org resource user service_account).

Definition update_member_role (r : Request) (org : OrganizationId) (user : UserId) (new_role : string) : api () :=
  actor ← authenticated_actor_mutation config r;
  found ← quota_human_context actor org;
  check (String.eqb (Iam.role (snd found)) "owner") Forbidden ;;
  quota_administrator actor org "identity:UpdateMemberRole" ;;
  run (set_organization_member_role org user new_role).

(** ** Credentials of the registry *)

(** A robot that could not be created, or whose record could not be completed,
    leaves no reservation; in the second case it is deleted again. *)
Definition post_registry_credential (r : Request) (org : OrganizationId) (new_name : string)
    : outside RegistryRequest (RegistryCredentialRow * RegistrySecret) :=
  actor ← inside (authenticated_actor_mutation config r);
  inside (from_result (validate_name new_name)) ;;
  context ← inside (authorize_actor actor org "registry:CreateCredential" (organization_resource org "registry/credential/*"));
  inside (from_result (require_durable_credential_issuer actor)) ;;
  limits ← inside (fetch (effective_resource_quota org));
  provider ← inside (some_or RegistryProviderUnavailable registry_provider);
  project ← emit (RequestProject org limits) (ok_or RegistryProviderUnavailable (ensure_project provider org limits));
  reservation ← inside (run (reserve_registry_credential org (Iam.context_principal_id context) (trim new_name)));
  let robot_name := ("hc-" ++ uuid_simple (fst reservation))%string in
  made ← emit (RequestRobot project robot_name) (Ok (create_push_credential provider project robot_name));
  match made with
  | None =>
      inside (ignore (run (cancel_registry_credential_reservation org (fst reservation)))) ;;
      inside (api_fail RegistryProviderUnavailable)
  | Some secret =>
      activated ← inside (attempt (run (activate_registry_credential org (fst reservation) (robot_id secret) (robot_username secret))));
      match activated with
      | Err e =>
          emit (RequestDeleteRobot (robot_id secret)) (Ok (delete_credential provider (robot_id secret))) ;;
          inside (ignore (run (cancel_registry_credential_reservation org (fst reservation)))) ;;
          inside (api_fail e)
      | Ok credential =>
          inside (some_or RegistryProviderUnavailable (project_authority project)) ;;
          inside (some_or RegistryProviderUnavailable (project_image_prefix project)) ;;
          mret (credential, secret)
      end
  end.

Definition remove_registry_credential (r : Request) (org : OrganizationId) (id : Uuid) : outside RegistryRequest () :=
  actor ← inside (authenticated_actor_mutation config r);
  inside (authorize_actor actor org "registry:DeleteCredential"
    (organization_resource org ("registry/credential/" ++ uuid_to_string id)%string)) ;;
  credential ← inside (fetch (registry_credential_for_delete org id));
  robot ← inside (some_or Internal (harbor_robot_id credential));
  provider ← inside (some_or RegistryProviderUnavailable registry_provider);
  emit (RequestDeleteRobot robot) (ok_or RegistryProviderUnavailable (delete_credential provider robot)) ;;
  inside (run (delete_registry_credential org id)).

End Handlers.
