(* ===== verification/SessionRoutes.v ===== *)
(** * The handlers of people

    The handlers of [heterocloud-api/src/routes.rs] that sign people in and out,
    admit them, authorize their command line, create their accounts, and those of
    the owner of the installation.

    Secrets are arguments: what [generate_token] gives.  Argon2 and the grammar of
    addresses are parameters; so is the answer of the OIDC provider. *)
From S2P Require Import Prelude Text Json Net Policy Iam RoleTrust Quota Specs Flash Store Usage Provider Prepare Services FlowAccess Cloud Identity Access Admin FlashStore Authorize IdentityCenter Routes FlashOps ServiceRoutes AccountRoutes.

(** [EmailAddress::is_valid], and Argon2id with fresh salt. *)
Class PasswordLib := {
  email_valid : string → bool;
  argon2_hash : string → option string;
  argon2_verify : string → string → bool;
}.

(** ** Passwords ([heterocloud-auth]) *)

Definition PASSWORD_MIN_LENGTH : Z := 12.
Definition PASSWORD_MAX_LENGTH : Z := 128.

Inductive AuthError := EntropyUnavailable | InvalidPassword | PasswordHash | InvalidCsrfKey.

Definition validate_password (password : string) : result AuthError () :=
  fail_if (negb (in_range PASSWORD_MIN_LENGTH PASSWORD_MAX_LENGTH (Z.of_nat (length (chars password))))) InvalidPassword ;;
  fail_if (existsb is_control (chars password)) InvalidPassword.

Definition hash_password `{PasswordLib} (password : string) : result AuthError string :=
  validate_password password ;;
  ok_or PasswordHash (argon2_hash password).

Definition verify_password `{PasswordLib} (password encoded_hash : string) : bool := argon2_verify encoded_hash password.

Definition auth_message (e : AuthError) : string :=
  match e with
  | EntropyUnavailable => "cryptographic entropy is unavailable"
  | InvalidPassword => "password does not satisfy the password policy"
  | PasswordHash => "password hashing failed"
  | InvalidCsrfKey => "CSRF key must not be empty"
  end.

(** ** Codes of the command line *)

(** Three groups of four. *)
Definition code_groups (l : list Z) : string :=
  (of_chars (take 4 l) ++ "-" ++ of_chars (take 4 (drop 4 l)) ++ "-" ++ of_chars (take 4 (drop 8 l)))%string.

Definition generate_cli_user_code (secret : string) : result ApiError string :=
  let characters := byte_to_upper <$> take 12 (filter (λ c, is_ascii_alphanumeric c = true) (chars secret)) in
  fail_if (negb (len (of_chars characters) =? 12)) Internal ;;
  Ok (code_groups characters).

Definition normalize_cli_user_code (value : string) : result ApiError string :=
  let characters := byte_to_upper <$> filter (λ c, c ≠ HYPHEN) (trim_chars (chars value)) in
  fail_if (negb (len (of_chars characters) =? 12) || negb (forallb is_ascii_alphanumeric characters))
    (BadRequest "Invalid CLI authorization code.") ;;
  Ok (code_groups characters).

Definition valid_cli_device_code (value : string) : bool :=
  is_some_and (λ secret, (32 <=? len secret) && forallb is_token_char (chars secret)) (strip_prefix "hcd_" value).

Definition CLI_DEVICE_AUTHORIZATION_TTL_SECONDS : Z := 600.
Definition CLI_DEVICE_POLL_INTERVAL_SECONDS : Z := 5.

(** The answer to a poll. *)
Inductive CliTokenAnswer :=
| CliTokenError (code description : string)
| CliTokenIssued (access_token : string) (user : SessionUser) (membership : Membership) (expires : Z).

(** The fields of [RuntimeConfig] these handlers read. *)
Record AccessConfig `{IpNetLib} := {
  session_ttl : Z;
  cli_token_ttl : Z;
  (** Host and port of the owner's console. *)
  owner_origin : option (option string * option Z);
  owner_email : option string;
  owner_console_mode : bool;
  owner_allowed_networks : list IpNet;
  trusted_proxy_networks : list IpNet;
}.

Record OidcIdentity := {
  oidc_issuer : string;
  oidc_subject : string;
  oidc_email : string;
  oidc_display_name : string;
}.

(** [user.status == UserStatus::Active]. *)
Definition is_active (u : User) : bool := match status_of_user u with Identity.Active => true | _ => false end.

Definition HOST : string := "host".
Definition EXTERNAL_ADDRESS : string := "x-envoy-external-address".

Section Handlers.
Context `{LimitsDecoder, UuidText, WebLib, PasswordLib, IpNetLib, SqlText, SqlCollation, Serde PolicyDocument}.
Context `{Serde FlowSpec, Serde FlashSpec, Serde SyouyuSpec, Serde VpcSpec, SqlCast, TimeText}.
Context (config : RuntimeConfig) (settings : AccessConfig) (provider : option FlashServiceGateway).

(** ** The owner of the installation *)

Definition network_has (a : IpAddr) (n : IpNet) : bool := net_contains n (ip_net_from a).

Definition owner_network_boundary_allows (console : bool) (allowed : list IpNet) (peer : option IpAddr) : bool :=
  console || is_some_and (λ a, existsb (network_has a) allowed) peer.

Definition owner_request_allowed (r : Request) (peer : option IpAddr) (mail : string) : bool :=
  match owner_origin settings, owner_email settings with
  | Some origin, Some owner =>
      eq_ignore_ascii_case mail owner
      && owner_network_boundary_allows (owner_console_mode settings) (owner_allowed_networks settings) peer
      && match header_text HOST r, fst origin with
         | Some host, Some expected =>
             eq_ignore_ascii_case host
               (match snd origin with
                | Some port => (expected ++ ":" ++ int_to_string port)%string
                | None => expected
                end)
         | _, _ => false
         end
  | _, _ => false
  end.

(** A trusted proxy says where the request came from. *)
Definition request_source_ip (console : bool) (trusted : list IpNet) (r : Request) (peer : option IpAddr)
    : option IpAddr :=
  peer_ip ← peer;
  if negb (negb console && existsb (network_has peer_ip) trusted) then Some peer_ip else
  match (value ← header_text EXTERNAL_ADDRESS r; parse_ip_addr (trim value)) with
  | Some a => Some a
  | None => Some peer_ip
  end.

Definition require_owner (r : Request) (peer : option IpAddr) (mutation : bool) : api AuthenticatedSession :=
  check (negb (has_header AUTHORIZATION r)) Forbidden ;;
  authenticated ← (if mutation then authenticated_mutation config r else authenticated_session config r);
  active ← ask (browser_active_role (auth_token_hash authenticated));
  check (negb (is_some active)) Forbidden ;;
  check (owner_request_allowed r peer (user_email (session_owner (auth_user authenticated)))) Forbidden ;;
  mret authenticated.

Definition update_owner_quota_defaults (r : Request) (peer : option IpAddr) (limits : ResourceQuotaLimits)
    : api ResourceQuotaLimits :=
  require_owner r peer true ;;
  run (update_resource_quota_defaults limits).

Definition update_owner_organization_quota (r : Request) (peer : option IpAddr) (org : OrganizationId)
    (limits : ResourceQuotaLimits) : api ResourceQuotaLimits :=
  require_owner r peer true ;;
  run (set_organization_resource_quota org limits).

Definition clear_owner_organization_quota (r : Request) (peer : option IpAddr) (org : OrganizationId)
    : api ResourceQuotaLimits :=
  require_owner r peer true ;;
  run (clear_organization_resource_quota org).

Definition list_owner_gpus (r : Request) (peer : option IpAddr) : api () :=
  require_owner r peer false ;;
  sync_gpu_catalog_from_provider provider.

Definition update_owner_gpu_access (r : Request) (peer : option IpAddr) (device : Uuid) (open : bool)
    (assigned : list UserId) : api GpuDeviceRow :=
  require_owner r peer true ;;
  fetch (validate_gpu_access_update open assigned) ;;
  found ← ask (λ db, gpu_devices db !! device);
  d ← some_or ApiNotFound found;
  p ← some_or FlashProviderUnavailable provider;
  from_result (map_err (λ _, FlashProviderUnavailable)
    (update_gpu_access p (management_id d) (device_gpu_type d) (device_display_name d) open assigned)) ;;
  sync_gpu_catalog_from_provider provider ;;
  updated ← ask (λ db, gpu_devices db !! device);
  some_or ApiNotFound updated.

(** ** Sessions *)

Definition create_session_cookie (user : UserId) (method token : string) : api string :=
  t ← ask now;
  run (create_session user (token_hash token) (t + session_ttl settings) method) ;;
  some_or Internal (csrf_token token (csrf_key config)).

Definition issue_session (user : SessionUser) (method token : string) : api (SessionUser * string) :=
  csrf ← create_session_cookie (user_key (session_owner user)) method token;
  mret (user, csrf).

Definition login (r : Request) (mail password token : string) : api (SessionUser * string) :=
  from_result (require_same_origin config r) ;;
  check (email_valid mail) (BadRequest "Invalid email address.") ;;
  found ← fetch (password_user_by_email mail);
  p ← some_or Unauthorized found;
  check (is_active (password_user p)
         && verify_password password (stored_password_hash p)) Unauthorized ;;
  t ← ask now;
  run (create_session (user_key (password_user p)) (token_hash token) (t + session_ttl settings) "local") ;;
  found ← fetch (session_user (user_key (password_user p)));
  user ← some_or Internal found;
  csrf ← some_or Internal (csrf_token token (csrf_key config));
  mret (user, csrf).

(** [permit]: the limiter of registrations lets the request in. *)
Definition register (r : Request) (permit : bool) (invitation mail new_display_name password token : string)
    : api (SessionUser * string) :=
  from_result (require_same_origin config r) ;;
  check (email_valid mail) (BadRequest "Invalid email address.") ;;
  from_result (validate_name new_display_name) ;;
  available ← ask (invitation_available (token_hash invitation));
  check available (from_store InvitationUnavailable) ;;
  check permit TooManyRequests ;;
  hash ← from_result (map_err (λ e, BadRequest (auth_message e)) (hash_password password));
  user ← exec (register_with_invitation (token_hash invitation) mail new_display_name hash);
  issue_session user "local" token.

(** The identity is what [complete_login] answers. *)
Definition oidc_callback (identity : result ApiError OidcIdentity) (token : string) : api string :=
  i ← from_result identity;
  check (email_valid (oidc_email i)) Unauthorized ;;
  from_result (validate_name (oidc_display_name i)) ;;
  user ← exec (find_or_create_oidc_user (oidc_issuer i) (oidc_subject i) (oidc_email i) (oidc_display_name i));
  check (is_active (session_owner user)) Unauthorized ;;
  create_session_cookie (user_key (session_owner user)) "oidc" token.

(** ** The command line *)

Definition post_cli_device_authorization (org : OrganizationId) (device_secret user_secret : string)
    : api (string * string) :=
  let device_code := ("hcd_" ++ device_secret)%string in
  user_code ← from_result (generate_cli_user_code user_secret);
  t ← ask now;
  run (create_cli_device_authorization (token_hash device_code) (token_hash user_code) org
         CLI_DEVICE_POLL_INTERVAL_SECONDS (t + CLI_DEVICE_AUTHORIZATION_TTL_SECONDS)) ;;
  mret (device_code, user_code).

Definition post_cli_token (device_code token_prefix token_secret : string) : api CliTokenAnswer :=
  if negb (valid_cli_device_code device_code) then
    mret (CliTokenError "invalid_grant" "The device code is invalid or has already been used.")
  else
  let access_token := ("hcu_" ++ token_prefix ++ "_" ++ token_secret)%string in
  t ← ask now;
  outcome ← run (exchange_cli_device_authorization (token_hash device_code) token_prefix (token_hash access_token)
                   (t + cli_token_ttl settings));
  match outcome with
  | ExchangePending => mret (CliTokenError "authorization_pending" "Authorization is still pending in the browser.")
  | ExchangeSlowDown => mret (CliTokenError "slow_down" "Polling is too frequent.")
  | ExchangeExpired => mret (CliTokenError "expired_token" "The device authorization has expired.")
  | ExchangeDenied => mret (CliTokenError "access_denied" "The device authorization was denied.")
  | ExchangeInvalidDeviceCode =>
      mret (CliTokenError "invalid_grant" "The device code is invalid or has already been used.")
  | ExchangeIssued _ user org expires =>
      found ← fetch (session_user user);
      su ← some_or Internal found;
      m ← some_or Internal (List.find (λ m, bool_decide (membership_organization m = org)) (memberships su));
      mret (CliTokenIssued access_token su m expires)
  end.

Definition post_cli_approval (r : Request) (code : string) : api () :=
  authenticated ← authenticated_mutation config r;
  code ← from_result (normalize_cli_user_code code);
  outcome ← run (approve_cli_device_authorization (token_hash code) (session_user_id_of authenticated));
  match outcome with
  | DeviceApproved => mret ()
  | DeviceNotFound => api_fail ApiNotFound
  | DeviceExpired => api_fail (BadRequest "The CLI authorization request has expired.")
  | DeviceInvalidState => api_fail ApiConflict
  | DeviceForbidden => api_fail Forbidden
  end.

Definition authenticated_cli_access_token (r : Request) : api CliAccessTokenPrincipal :=
  authorization ← some_or Unauthorized (header_text AUTHORIZATION r);
  token ← some_or Unauthorized (strip_prefix "Bearer " authorization);
  authenticated_cli_access_token_value token.

Definition cli_logout (r : Request) : api () :=
  authenticated ← authenticated_cli_access_token r;
  run (revoke_cli_access_token (cli_token_id authenticated)).

(** ** Accounts of one's own *)

Definition post_organization (r : Request) (new_slug new_name : string) : api OrganizationId :=
  actor ← authenticated_actor_mutation config r;
  from_result (validate_slug new_slug) ;;
  from_result (validate_name new_name) ;;
  user ← some_or Forbidden (match actor with ActorUser session => Some (session_user_id_of session) | _ => None end);
  run (create_organization user new_slug new_name).

Definition post_join (r : Request) (code : string) : api OrganizationId :=
  check (negb (has_header AUTHORIZATION r)) Forbidden ;;
  authenticated ← authenticated_mutation config r;
  check (negb (is_empty code || (256 <? len code)))
    (BadRequest "The invitation is invalid or no longer available.") ;;
  run (join_organization_with_invitation (session_user_id_of authenticated) (token_hash code)).

(** The record of a change of profile, in every account of the user. *)
Definition profile_audit (user : UserId) (request : string) (m : Membership) : AuditRow :=
  Build_AuditRow (Some (membership_organization m)) (Some (membership_principal m)) (Some user) request
    "user:UpdateProfile"
    (organization_resource (membership_organization m) ("users/" ++ uuid_to_string user ++ "/profile")%string)
    "allow" "self_service_allow" (Object [("authentication", Object [("actor", Str "user")])]).

Definition put_profile_name (r : Request) (new_name : string) : api () :=
  session ← authenticated_mutation config r;
  let new_name := trim new_name in
  let user := session_user_id_of session in
  from_result (validate_name new_name) ;;
  id ← run now_v7;
  foldr (λ m rest, run (append_audit (profile_audit user (uuid_to_string id) m)) ;; rest) (mret ())
    (memberships (auth_user session)) ;;
  run (rename_user user new_name).

End Handlers.
