(* ===== verification/FlowRoutes.v ===== *)
(** * The handlers of Flow credentials

    The handlers of [heterocloud-api/src/routes.rs] that issue and revoke access
    contexts and developer credentials of realtime services, for people and for
    the developer credentials themselves; and the signing of a context
    ([flow_access.rs]).

    Permissions are a [BTreeSet]: the list of its elements in ascending order, in
    which they are stored too.
    The keyed digest and the base64 encoding are parameters. *)
From S2P Require Import Prelude Text Json Net Policy Iam RoleTrust Quota Specs Flash Store Usage Provider Prepare Services FlowAccess Cloud Identity Access Admin FlashStore Authorize IdentityCenter Routes FlashOps ServiceRoutes AccountRoutes.

(** HMAC-SHA-256 with a key, and [URL_SAFE_NO_PAD]. *)
Class MacLib := {
  hmac_sha256 : list Z → list Z → list Z;
  base64_url : list Z → string;
}.

(** ** Signed contexts ([flow_access.rs]) *)

Record FlowAccessSigner := {
  signer_issuer : string;
  signer_audience : string;
  signer_secret : string;
}.

Inductive FlowAccessError := InvalidAudience | InvalidIssuer | InvalidLifetime | InvalidSecret | JsonFailed | WeakSecret.

Definition no_token (s : string) : bool := is_empty s || existsb is_whitespace (chars s).

Definition FlowAccessSigner_new (issuer audience secret : string) : result FlowAccessError FlowAccessSigner :=
  fail_if (no_token issuer) InvalidIssuer ;;
  fail_if (no_token audience) InvalidAudience ;;
  fail_if (len secret <? 32) WeakSecret ;;
  Ok (Build_FlowAccessSigner issuer audience secret).

Record FlowAccessInput := {
  input_organization : OrganizationId;
  input_project : ProjectId;
  input_service : ServiceInstanceId;
  input_principal : PrincipalId;
  input_permissions : list string;
}.

Record FlowPrincipalContext := {
  principal_context_issuer : string;
  principal_context_audience : string;
  principal_context_input : FlowAccessInput;
  principal_context_issued_at : Z;
  principal_context_expires_at : Z;
  principal_context_id : Uuid;
}.

Record SignedFlowAccessContext := {
  signed_context : FlowPrincipalContext;
  signed_encoded : string;
  signed_timestamp : string;
  signed_signature : string;
}.

(** The serialization of a context: its fields in order. *)
Definition context_value `{UuidText} (c : FlowPrincipalContext) : Value :=
  let i := principal_context_input c in
  Object [
    ("issuer", Str (principal_context_issuer c)); ("audience", Str (principal_context_audience c));
    ("organization_id", json_uuid (input_organization i)); ("project_id", json_uuid (input_project i));
    ("service_instance_id", json_uuid (input_service i)); ("principal_id", json_uuid (input_principal i));
    ("permissions", Array (Str <$> input_permissions i));
    ("issued_at", Num (Int (principal_context_issued_at c))); ("expires_at", Num (Int (principal_context_expires_at c)));
    ("context_id", json_uuid (principal_context_id c))].

Definition FlowAccessSigner_sign `{UuidText, JsonText, MacLib} (s : FlowAccessSigner) (input : FlowAccessInput)
    (issued_at expires_at : Z) (context_id : Uuid) : result FlowAccessError SignedFlowAccessContext :=
  fail_if (expires_at <=? issued_at) InvalidLifetime ;;
  let context := Build_FlowPrincipalContext (signer_issuer s) (signer_audience s) input issued_at expires_at context_id in
  text ← ok_or JsonFailed (to_vec (context_value context));
  let encoded := base64_url text in
  let timestamp := int_to_string issued_at in
  let signature := base64_url (hmac_sha256 (bytes (signer_secret s)) (bytes timestamp ++ [DOT] ++ bytes encoded)) in
  Ok (Build_SignedFlowAccessContext context encoded timestamp signature).

(** ** Validation *)

Definition FLOW_ACCESS_DEFAULT_TTL_SECONDS : Z := 300.
Definition FLOW_ACCESS_MIN_TTL_SECONDS : Z := 30.
Definition FLOW_ACCESS_MAX_TTL_SECONDS : Z := 300.
Definition FLOW_DEVELOPER_CREDENTIAL_FRAGMENT_LENGTH : Z := 16.
Definition FLOW_DEVELOPER_CREDENTIAL_SECRET_LENGTH : Z := 43.
Definition FLOW_DEVELOPER_CREDENTIAL_MIN_TTL_DAYS : Z := 1.
Definition FLOW_DEVELOPER_CREDENTIAL_MAX_TTL_DAYS : Z := 365.

Definition flow_permission_iam_action (permission : string) : option string :=
  if String.eqb permission "flow.queue.read" then Some "flow:QueueRead"
  else if String.eqb permission "flow.queue.write" then Some "flow:QueueWrite"
  else if String.eqb permission "flow.room.create" then Some "flow:RoomCreate"
  else if String.eqb permission "flow.room.read" then Some "flow:RoomRead"
  else if String.eqb permission "flow.room.join" then Some "flow:RoomJoin"
  else if String.eqb permission "flow.turn.issue" then Some "flow:TurnIssue"
  else if String.eqb permission "flow.signal.connect" then Some "flow:SignalConnect"
  else if String.eqb permission "flow.metrics.read" then Some "realtime:GetMetrics"
  else None.

Definition ASTERISK : Z := 42.

Definition validate_flow_permissions (permissions : list string) : result ApiError () :=
  fail_if (is_nil permissions) (BadRequest "permissions must contain at least one permission") ;;
  fail_if (existsb (contains_byte ASTERISK) permissions) (BadRequest "wildcard Flow permissions are not allowed") ;;
  fail_if (existsb (λ p, negb (is_some (flow_permission_iam_action p))) permissions)
    (BadRequest "permissions contains an unsupported Flow permission").

Definition validate_flow_access_ttl (expires_in_seconds : option Z) : result ApiError Z :=
  let expires_in_seconds := default FLOW_ACCESS_DEFAULT_TTL_SECONDS expires_in_seconds in
  fail_if (negb (in_range FLOW_ACCESS_MIN_TTL_SECONDS FLOW_ACCESS_MAX_TTL_SECONDS expires_in_seconds))
    (BadRequest "expires_in_seconds must be {FLOW_ACCESS_MIN_TTL_SECONDS}..{FLOW_ACCESS_MAX_TTL_SECONDS}") ;;
  Ok expires_in_seconds.

Definition validate_flow_access_target (instance : option ServiceInstance) (org : OrganizationId)
    (id : ServiceInstanceId) : result ApiError ServiceInstance :=
  i ← ok_or ApiNotFound (i ← instance;
        if bool_decide (instance_id i = id) && in_org org (instance_row i) && has_provider "flow" (instance_row i)
        then Some i else None);
  fail_if (negb (bool_decide (state (instance_row i) = Ready))) ApiServiceInstanceNotReady ;;
  Ok i.

Definition validate_developer_credential_name (new_name : string) : result ApiError string :=
  fail_if (not_trimmed new_name || existsb is_control (chars new_name))
    (BadRequest "name must not contain surrounding whitespace or control characters") ;;
  validate_name new_name ;;
  Ok new_name.

Definition validate_developer_credential_expiry (expires_in_days : Z) : result ApiError () :=
  fail_if (negb (in_range FLOW_DEVELOPER_CREDENTIAL_MIN_TTL_DAYS FLOW_DEVELOPER_CREDENTIAL_MAX_TTL_DAYS expires_in_days))
    (BadRequest "expires_in_days must be {FLOW_DEVELOPER_CREDENTIAL_MIN_TTL_DAYS}..{FLOW_DEVELOPER_CREDENTIAL_MAX_TTL_DAYS}").

Definition validate_list_limit (limit : option Z) (maximum : Z) : result ApiError Z :=
  let limit := default maximum limit in
  fail_if (negb (in_range 1 maximum limit)) (BadRequest "limit must be between 1 and {maximum}") ;;
  Ok limit.

Definition is_fragment_byte (b : Z) : bool := is_ascii_digit b || in_range 97 102 b.

(** [token.get(..prefix_length)]: the fragment is ASCII, so the cut is at a
    character. *)
Definition parse_flow_developer_credential_prefix (token : string) : result ApiError string :=
  rest ← ok_or Unauthorized (strip_prefix "hcf_" token);
  parts ← ok_or Unauthorized (split_once UNDERSCORE rest);
  let '(fragment, secret) := parts in
  fail_if (negb (len fragment =? FLOW_DEVELOPER_CREDENTIAL_FRAGMENT_LENGTH)
           || negb (forallb is_fragment_byte (bytes fragment))
           || negb (len secret =? FLOW_DEVELOPER_CREDENTIAL_SECRET_LENGTH)
           || negb (forallb is_token_char (bytes secret))) Unauthorized ;;
  Ok ("hcf_" ++ fragment)%string.

(** Prefix, secret text and digest of a new credential. *)
Definition generate_flow_developer_credential `{WebLib} (fragment secret : string) : string * string * Digest :=
  let prefix := ("hcf_" ++ fragment)%string in
  let credential := (prefix ++ "_" ++ secret)%string in
  (prefix, credential, token_hash credential).

(** The principal behind a developer credential that is good. *)
Record FlowDeveloperCredentialIssuer := {
  issuer_credential : Uuid;
  issuer_organization : OrganizationId;
  issuer_service : ServiceInstanceId;
  issuer_principal : PrincipalId;
  issuer_user : option UserId;
  issuer_is_iam_role : bool;
}.

Definition flow_developer_credential_issuer (prefix : string) (hash : Digest) (db : Db)
    : option FlowDeveloperCredentialIssuer :=
  e ← head (filter (λ e, credential_prefix (snd e) = prefix ∧ secret_hash (snd e) = hash
                         ∧ credential_live (now db) (snd e) = true) (map_to_list (credentials db)));
  let c := snd e in
  p ← principal_of (credential_organization c) (created_by c) db;
  Some (Build_FlowDeveloperCredentialIssuer (fst e) (credential_organization c) (credential_service c) (created_by c)
    (user_id p) (is_some (role_rows db !! created_by c))).

Section Handlers.
Context `{LimitsDecoder, JsonText, UuidText, TimeText, Chrono, WebLib, MacLib, SqlText, SqlCollation}.
Context `{Serde PolicyDocument, Serde FlowSpec}.
Context (config : RuntimeConfig) (signer : FlowAccessSigner).
(** What [flow_developer_mint_endpoint] gives. *)
Context (mint_endpoint : option string).

(** The window of a context: [checked_add] and the conversions of its bounds. *)
Definition flow_access_window (expires_in_seconds : Z) : api (Z * Z) :=
  t ← ask now;
  check (in_range i64_min i64_max expires_in_seconds && in_range i64_min i64_max (t + expires_in_seconds)
         && (0 <=? t) && (0 <=? t + expires_in_seconds)) Internal ;;
  some_or Internal (from_timestamp t) ;;
  some_or Internal (from_timestamp (t + expires_in_seconds)) ;;
  mret (t, t + expires_in_seconds).

Fixpoint authorize_flow_permissions (actor : AuthenticatedActor) (org : OrganizationId) (service : ServiceInstanceId)
    (permissions : list string) : api () :=
  match permissions with
  | [] => mret ()
  | permission :: permissions =>
      act ← some_or Internal (flow_permission_iam_action permission);
      authorize_actor actor org act (realtime_service_resource org service) ;;
      authorize_flow_permissions actor org service permissions
  end.

Definition authorize_flow_credential_management (actor : AuthenticatedActor) (org : OrganizationId)
    (service : ServiceInstanceId) (permissions : option (list string)) : api AuthorizationContext :=
  context ← authorize_actor actor org "realtime:IssueAccessCredential" (realtime_service_resource org service);
  (match permissions with Some l => authorize_flow_permissions actor org service l | None => mret () end) ;;
  mret context.

Definition sign_context (input : FlowAccessInput) (issued expires : Z) (context : Uuid) : api SignedFlowAccessContext :=
  from_result (map_err (λ _, Internal) (FlowAccessSigner_sign signer input issued expires context)).

(** ** For people *)

Definition create_realtime_access_credential (r : Request) (org : OrganizationId) (service : ServiceInstanceId)
    (permissions : list string) (expires_in_seconds : option Z) : api (SignedFlowAccessContext * FlowRateLimit) :=
  actor ← authenticated_actor_mutation config r;
  from_result (validate_flow_permissions permissions) ;;
  ttl ← from_result (validate_flow_access_ttl expires_in_seconds);
  instance ← ask (λ db, Build_ServiceInstance service <$> service_instances db !! service);
  i ← from_result (validate_flow_access_target instance org service);
  s ← from_result (deserialize_stored_flow_spec (spec (instance_row i)));
  context ← authorize_actor actor org "realtime:IssueAccessCredential" (realtime_service_resource org service);
  authorize_flow_permissions actor org service permissions ;;
  window ← flow_access_window ttl;
  context_id ← run now_v7;
  let row := instance_row i in
  signed ← sign_context (Build_FlowAccessInput (organization_id row) (project_id row) service
             (Iam.context_principal_id context) permissions) (fst window) (snd window) context_id;
  run (record_flow_access_context (Build_NewFlowAccessContext context_id
    (Build_ContextRow (organization_id row) (project_id row) service None (Iam.context_principal_id context)
       permissions (fst window) (snd window) None))) ;;
  mret (signed, rate_limit (s : FlowSpec)).

Definition create_realtime_developer_credential (r : Request) (org : OrganizationId) (service : ServiceInstanceId)
    (new_name : string) (permissions : list string) (expires_in_days : Z) (fragment secret : string)
    : api (Uuid * CredentialRow * string) :=
  actor ← authenticated_actor_mutation config r;
  new_name ← from_result (validate_developer_credential_name new_name);
  from_result (validate_flow_permissions permissions) ;;
  from_result (validate_developer_credential_expiry expires_in_days) ;;
  realtime_service org service ;;
  context ← authorize_flow_credential_management actor org service (Some permissions);
  from_result (require_durable_credential_issuer actor) ;;
  let '(prefix, credential, hash) := generate_flow_developer_credential fragment secret in
  created ← ask now;
  record ← run (create_flow_developer_credential (Build_NewFlowDeveloperCredential org service
             (Iam.context_principal_id context) new_name prefix hash permissions
             (created + expires_in_days * DAY_SECONDS) created));
  some_or Internal mint_endpoint ;;
  mret (record, credential).

Definition revoke_realtime_developer_credential (r : Request) (org : OrganizationId) (service : ServiceInstanceId)
    (credential : Uuid) : api () :=
  actor ← authenticated_actor_mutation config r;
  realtime_service org service ;;
  context ← authorize_flow_credential_management actor org service None;
  run (revoke_flow_developer_credential org service credential (Iam.context_principal_id context)) ;;
  mret ().

Definition rotate_realtime_developer_credential (r : Request) (org : OrganizationId) (service : ServiceInstanceId)
    (credential : Uuid) (fragment secret : string) : api string :=
  actor ← authenticated_actor_mutation config r;
  realtime_service org service ;;
  context ← authorize_flow_credential_management actor org service None;
  found ← ask (flow_developer_credential org service credential);
  existing ← some_or ApiNotFound found;
  authorize_flow_permissions actor org service (credential_permissions existing) ;;
  from_result (require_durable_credential_issuer actor) ;;
  let '(prefix, text, hash) := generate_flow_developer_credential fragment secret in
  run (rotate_flow_developer_credential org service credential prefix hash (Iam.context_principal_id context)) ;;
  some_or Internal mint_endpoint ;;
  mret text.

Definition revoke_realtime_access_context (r : Request) (org : OrganizationId) (service : ServiceInstanceId)
    (context_id : Uuid) : api () :=
  actor ← authenticated_actor_mutation config r;
  realtime_service org service ;;
  context ← authorize_flow_credential_management actor org service None;
  run (revoke_flow_access_context org service context_id (Iam.context_principal_id context)) ;;
  mret ().

(** ** For developer credentials *)

Definition authenticate_flow_developer_bearer (r : Request) : result ApiError (string * Digest) :=
  authorization ← ok_or Unauthorized (header_text AUTHORIZATION r);
  token ← ok_or Unauthorized (strip_prefix "Bearer " authorization);
  prefix ← parse_flow_developer_credential_prefix token;
  Ok (prefix, token_hash token).

(** The record of a refusal. *)
Definition refusal_audit (i : FlowDeveloperCredentialIssuer) (request act res reason : string) : AuditRow :=
  Build_AuditRow (Some (issuer_organization i)) (Some (issuer_principal i)) (issuer_user i) request act res "deny" reason
    (Object [("semantics_digest", Str iam_semantics_digest);
             ("authentication", Object [("actor", Str "flow_developer_credential");
                                        ("credential_id", json_uuid (issuer_credential i))])]).

Fixpoint evaluate_issuer (i : FlowDeveloperCredentialIssuer) (context : AuthorizationContext) (res : string)
    (evaluated_at : DateTime) (actions : list string) : api () :=
  match actions with
  | [] => mret ()
  | act :: actions =>
      e ← evaluate_account context (issuer_organization i) act res false evaluated_at;
      (if bool_decide (decision e = Decision.Deny) then
         id ← run now_v7;
         run (append_audit (refusal_audit i (uuid_to_string id) act res (reason e))) ;;
         api_fail Forbidden
       else mret ()) ;;
      evaluate_issuer i context res evaluated_at actions
  end.

Fixpoint flow_actions (permissions : list string) : option (list string) :=
  match permissions with
  | [] => Some []
  | p :: l => act ← flow_permission_iam_action p; acts ← flow_actions l; Some (act :: acts)
  end.

(** The issuer's present policies are evaluated at each use. *)
Definition authorize_flow_developer_credential (prefix : string) (hash : Digest) (permissions : list string) : api () :=
  found ← ask (flow_developer_credential_issuer prefix hash);
  i ← some_or Unauthorized found;
  check (negb (issuer_is_iam_role i)) Forbidden ;;
  found ← (match issuer_user i with
           | Some user => fetch (authorization_context user (issuer_organization i))
           | None => fetch (authorization_context_for_principal (issuer_principal i) (issuer_organization i))
           end);
  context ← some_or Forbidden (c ← found; if bool_decide (Iam.context_principal_id c = issuer_principal i)
                                          then Some c else None);
  let res := realtime_service_resource (issuer_organization i) (issuer_service i) in
  actions ← some_or Internal (flow_actions permissions);
  t ← ask now;
  evaluate_issuer i context res (t * NANOS_PER_SECOND) ("realtime:IssueAccessCredential" :: actions).

Definition create_developer_access_credential (r : Request) (principal : PrincipalId) (permissions : list string)
    (expires_in_seconds : Z) : api (SignedFlowAccessContext * FlowRateLimit) :=
  bearer ← from_result (authenticate_flow_developer_bearer r);
  from_result (validate_flow_permissions permissions) ;;
  ttl ← from_result (validate_flow_access_ttl (Some expires_in_seconds));
  authorize_flow_developer_credential (fst bearer) (snd bearer) permissions ;;
  window ← flow_access_window ttl;
  context_id ← run now_v7;
  outcome ← run (mint_flow_access_context_with_developer_credential (Build_DeveloperCredentialMint (fst bearer)
              (snd bearer) context_id principal permissions (fst window) (snd window)));
  match outcome with
  | Issued scope =>
      s ← from_result (deserialize_stored_flow_spec (minted_service_spec scope));
      signed ← sign_context (Build_FlowAccessInput (minted_organization_id scope) (minted_project_id scope)
                 (minted_service_instance_id scope) principal permissions) (fst window) (snd window) context_id;
      mret (signed, rate_limit (s : FlowSpec))
  | InvalidCredential => api_fail Unauthorized
  | PermissionDenied => api_fail Forbidden
  | ServiceInstanceNotReady => api_fail ApiServiceInstanceNotReady
  end.

Definition list_developer_access_contexts (r : Request) (limit : option Z) : api (list (Uuid * ContextRow)) :=
  bearer ← from_result (authenticate_flow_developer_bearer r);
  limit ← from_result (validate_list_limit limit (Z.of_nat MAX_FLOW_ACCESS_CONTEXT_LIST_SIZE));
  authorize_flow_developer_credential (fst bearer) (snd bearer) [] ;;
  found ← run (list_flow_access_contexts_for_developer_credential (fst bearer) (snd bearer) limit);
  some_or Unauthorized found.

Definition revoke_developer_access_context (r : Request) (context_id : Uuid) : api () :=
  bearer ← from_result (authenticate_flow_developer_bearer r);
  authorize_flow_developer_credential (fst bearer) (snd bearer) [] ;;
  found ← run (revoke_flow_access_context_with_developer_credential (fst bearer) (snd bearer) context_id);
  some_or Unauthorized found ;;
  mret ().

End Handlers.
