(* ===== verification/Worker.v ===== *)
(** * The provider worker

    [heterocloud-worker/src/main.rs]: delivering an outbox event to a provider
    and recording the answer.  [deliver] is split at its interactions: the
    checks before the request ([deliver_check]), the request to the provider,
    whose answer is arbitrary, and the recording of the answer
    ([deliver_finish]), so that other transactions can run in between. *)
From S2P Require Import Prelude Text Json Policy Quota Specs Flash Store Usage Provider Services.

Definition MAX_PROVIDER_ERROR_BODY_BYTES : Z := 8 * 1024.
Definition MAX_PROVIDER_ERROR_MESSAGE_CHARS : nat := 1024.

Inductive WorkerError :=
| InvalidClock
| InvalidPayload
| MissingInstance
| Provider
| ProviderStatus (code : Z)
| StalePayload
| StoreFailure (e : StoreError)
| UnsupportedTopic (topic : string)
| UnsupportedProvider (provider : string)
| JsonFailure
| RequestFailure
| UrlFailure.

#[export] Instance WorkerError_eq_dec : EqDecision WorkerError.
Proof. solve_decision. Defined.

(** ** Answers of a provider *)

(** A response: status code, content type, and the body. *)
Record Response := {
  status_code : Z;
  content_type : option string;
  body : list Z;
}.

(** [serde_json::from_slice]. *)
Class JsonParser := from_slice : list Z → option Value.

Record AcceptedOperation := {
  operation_id : Uuid;
  operation_status : Value;
}.

Definition is_success (code : Z) : bool := in_range 200 299 code.

Definition provider_reconcile_failed (operation_status : Value) : bool :=
  bool_decide ((get "phase" operation_status ≫= as_str) = Some "error").

Definition permanent_reconcile_rejection (code : Z) : bool :=
  (code =? 400) || (code =? 409) || (code =? 422).

Section Answers.
Context `{JsonParser, UuidText, SqlCast}.

(** [response.json::<AcceptedOperation>()]. *)
Definition accepted_operation (r : Response) : option AcceptedOperation :=
  v ← from_slice (body r);
  id ← (get "operation_id" v ≫= as_str) ≫= uuid_parse;
  s ← get "status" v;
  Some (Build_AcceptedOperation id s).

(** The text before the first [;]. *)
Definition media_type (s : string) : string :=
  match split_once 59 s with Some (a, _) => a | None => s end.

Definition is_json_content (r : Response) : bool :=
  is_some_and (λ s, bool_decide (to_ascii_lowercase (of_bytes (trim_chars (bytes (media_type s))))
                                 = "application/json")) (content_type r).

Definition not_found_envelope (v : Value) : bool :=
  is_some_and (λ e, bool_decide ((get "code" e ≫= as_str) = Some "not_found")
                    && is_some_and (λ m, negb (is_nil (trim_chars (chars m)))) (get "message" e ≫= as_str))
    (get "error" v).

Definition provider_delete_already_absent (event_topic : string) (r : Response) : bool :=
  String.eqb event_topic "service-instance.delete" && (status_code r =? 404) && is_json_content r
  && (Z.of_nat (length (body r)) <=? MAX_PROVIDER_ERROR_BODY_BYTES)
  && is_some_and not_found_envelope (from_slice (body r)).

(** The message of an error body, cut to its bound and without controls. *)
Definition bounded_provider_error_message (r : Response) : option string :=
  v ← from_slice (take (Z.to_nat MAX_PROVIDER_ERROR_BODY_BYTES) (body r));
  m ← (get "error" v ≫= get "message") ≫= as_str;
  let trimmed := trim_chars (chars m) in
  if is_nil trimmed then None else
  let message := take MAX_PROVIDER_ERROR_MESSAGE_CHARS
                   (filter (λ c, is_control c = false) trimmed) in
  if is_nil message then None else Some (of_chars message).

End Answers.

(** ** Delivery *)

Definition service_instance_matches_payload (i : ServiceInstance) (p : ReconcilePayload) : bool :=
  (generation (instance_row i) =? payload_generation p)
  && bool_decide (organization_id (instance_row i) = payload_organization_id p)
  && bool_decide (project_id (instance_row i) = payload_project_id p)
  && String.eqb (provider (instance_row i)) (payload_provider p).

Definition is_service_topic (t : string) : bool :=
  bool_decide (t ∈ ["service-instance.reconcile"; "service-instance.delete";
                    "service-instance.flash-quota"]).

(** [ProviderTargets::target]; the VPC endpoint is optional. *)
Definition has_target (vpc_configured : bool) (prov : string) : result WorkerError () :=
  if String.eqb prov "flow" then Ok ()
  else if String.eqb prov "flash" then Ok ()
  else if String.eqb prov "syouyu" then Ok ()
  else if String.eqb prov "vpc" then
    fail_if (negb vpc_configured) (UnsupportedProvider "vpc endpoint is not configured")
  else Err (UnsupportedProvider prov).

(** What the checks before the request decide. *)
Inductive Check :=
| Done                                          (* nothing left to do *)
| Request (p : ReconcilePayload) (i : ServiceInstance).

Definition deliver_check (vpc_configured : bool) (e : OutboxEvent) (db : Db)
    : result WorkerError Check :=
  fail_if (negb (is_service_topic (event_topic e))) (UnsupportedTopic (event_topic e)) ;;
  p ← match event_payload e with ReconcileBody p => Ok p | _ => Err JsonFailure end;
  fail_if (negb (bool_decide (service_instance_id p = event_aggregate_id e))) InvalidPayload ;;
  fail_if (String.eqb (event_topic e) "service-instance.flash-quota"
           && negb (String.eqb (payload_provider p) "flash")) InvalidPayload ;;
  has_target vpc_configured (payload_provider p) ;;
  match service_instances db !! service_instance_id p with
  | None =>
      if String.eqb (event_topic e) "service-instance.delete" then Ok Done else Err MissingInstance
  | Some r =>
      let i := Build_ServiceInstance (service_instance_id p) r in
      fail_if (negb (service_instance_matches_payload i p)) StalePayload ;;
      Ok (Request p i)
  end.

(** ** The request

    The reads between the checks and the request. *)

Section Request.
Context `{LimitsDecoder, Serde SyouyuSpec}.

(** The members of [SyouyuProviderSpec]; every other provider gets the stored
    document. *)
Definition provider_reconcile_spec (prov : string) (v : Value) : result WorkerError Value :=
  if negb (String.eqb prov "syouyu") then Ok v
  else
    s ← ok_or JsonFailure (from_value (A := SyouyuSpec) v);
    Ok (Object [("region", Str (syouyu_region s)); ("bucket_name", Str (bucket_name s));
                ("quota_bytes", Num (Int (quota_bytes s)));
                ("quota_objects", Num (Int (quota_objects s)))]).

Definition store_read {A} (m : result StoreError A) : result WorkerError A :=
  match m with Ok a => Ok a | Err e => Err (StoreFailure e) end.

(** What the token says; a quota update is authorized as a reconcile. *)
Definition request_context (e : OutboxEvent) (p : ReconcilePayload) (db : Db) : ProviderContext := {|
  context_principal_id := principal_id p;
  context_user_id := if String.eqb (payload_provider p) "flash"
                     then active_principal_user (principal_id p) db else None;
  context_organization_id := payload_organization_id p;
  context_project_id := payload_project_id p;
  context_service_instance_id := service_instance_id p;
  context_action := if String.eqb (event_topic e) "service-instance.flash-quota"
                    then "service-instance.reconcile" else event_topic e;
  context_generation := payload_generation p;
|}.

Definition request_policy (p : ReconcilePayload) (quota_user : option UserId) (db : Db)
    : result WorkerError (option FlashProviderPolicy) :=
  if negb (String.eqb (payload_provider p) "flash") then Ok None
  else
    quota ← store_read (effective_resource_quota (payload_organization_id p) db);
    member_quota ← match quota_user with
                   | Some user =>
                       limits ← store_read (effective_member_quota (payload_organization_id p) user db);
                       Ok (Some limits)
                   | None => Ok None
                   end;
    cloud ← store_read (cloud_flash_weekly_quota (payload_organization_id p) db);
    Ok (Some (flash_provider_policy quota member_quota cloud)).

(** The body of the request; a DELETE has none. *)
Definition request_body (e : OutboxEvent) (p : ReconcilePayload) (i : ServiceInstance) (db : Db)
    : result WorkerError (option ReconcileRequest) :=
  if String.eqb (event_topic e) "service-instance.delete" then Ok None
  else
    s ← provider_reconcile_spec (payload_provider p) (spec (instance_row i));
    quota_user ← (if String.eqb (payload_provider p) "flash"
                  then store_read (service_quota_user (payload_organization_id p) (service_instance_id p) db)
                  else Ok None);
    pol ← request_policy p quota_user db;
    Ok (Some {| request_generation := generation (instance_row i);
                request_name := name (instance_row i);
                request_spec := s;
                policy := pol;
                request_quota_user_id := quota_user;
                quota_only := String.eqb (event_topic e) "service-instance.flash-quota" |}).

End Request.

(** A statement of the store run by the worker. *)
Definition run_store {A} (m : tx A) (db : Db) : result WorkerError A * Db :=
  match m db with
  | Ok (a, db') => (Ok a, db')
  | Err e => (Err (StoreFailure e), db)
  end.

Definition require_current (r : result WorkerError bool * Db) : result WorkerError () * Db :=
  match r with
  | (Ok true, db) => (Ok (), db)
  | (Ok false, db) => (Err StalePayload, db)
  | (Err e, db) => (Err e, db)
  end.

Section Finish.
Context `{JsonParser, UuidText, SqlCast}.

Definition rejection_status (prov : string) (message : option string) (code : Z) : Value :=
  Object [("phase", Str "error");
          ("message", Str (default (prov +:+ " provider rejected the requested configuration with HTTP "
                                    +:+ int_to_string code) message));
          ("provider_http_status", Num (Int code))].

(** The rest of [deliver], from the response on. *)
Definition deliver_finish (e : OutboxEvent) (p : ReconcilePayload) (r : Response) (db : Db)
    : result WorkerError () * Db :=
  let id := service_instance_id p in
  let prov := payload_provider p in
  let g := payload_generation p in
  let absent := provider_delete_already_absent (event_topic e) r in
  let deleting := String.eqb (event_topic e) "service-instance.delete" in
  if deleting && (is_success (status_code r) || absent) then
    if negb absent && negb (is_some (accepted_operation r)) then (Err RequestFailure, db)
    else require_current (run_store (complete_delete_service_instance id prov g) db)
  else if negb (is_success (status_code r)) then
    if String.eqb (event_topic e) "service-instance.reconcile"
       && permanent_reconcile_rejection (status_code r)
    then
      require_current (run_store (mark_service_instance_error id prov g (event_id e)
        (rejection_status prov (bounded_provider_error_message r) (status_code r))) db)
    else (Err (ProviderStatus (status_code r)), db)
  else
    match accepted_operation r with
    | None => (Err RequestFailure, db)
    | Some o =>
        if String.eqb (event_topic e) "service-instance.flash-quota" then (Ok (), db)
        else if provider_reconcile_failed (operation_status o) then
          require_current (run_store (mark_service_instance_error id prov g (operation_id o)
            (operation_status o)) db)
        else
          require_current (run_store (mark_service_instance_ready id prov g (operation_id o)
            (operation_status o)) db)
    end.

(** ** Revocations *)

Definition principal_context_revocation_expired (expires now : Z) : bool :=
  i64_saturating_add expires PRINCIPAL_CONTEXT_REVOCATION_GRACE_SECONDS <=? now.

(** [deliver_principal_context_revocation], given the answer of the provider if
    a request is sent ([None] when it fails). *)
Definition deliver_principal_context_revocation (e : OutboxEvent)
    (p : PrincipalContextRevocationPayload) (now : Z) (answer : option Response)
    : result WorkerError () :=
  fail_if (negb (String.eqb (revoked_provider p) "flow")
           || negb (bool_decide (context_id p = event_aggregate_id e))
           || (revoked_generation p <=? 0)) InvalidPayload ;;
  if principal_context_revocation_expired (expires_at p) now then Ok ()
  else
    r ← ok_or RequestFailure answer;
    fail_if (negb (is_success (status_code r))) (ProviderStatus (status_code r)).

End Finish.

(** ** One event without interruption

    [deliver] and [process_one] when no other transaction runs in between;
    [answer] is the provider, which gets the context and the body of the
    request; [None] stands for any failure between them and the response
    (signing, sending, reading). *)

Section Delivery.
Context `{JsonParser, UuidText, SqlCast, LimitsDecoder, Serde SyouyuSpec}.
Context (vpc_configured : bool).
Context (answer : ProviderContext → option ReconcileRequest → option Response).
Context (revocation_answer : PrincipalContextRevocationPayload → option Response).

Definition deliver (e : OutboxEvent) (db : Db) : result WorkerError () * Db :=
  if String.eqb (event_topic e) PRINCIPAL_CONTEXT_REVOKE_ACTION then
    match event_payload e with
    | RevocationBody p =>
        (deliver_principal_context_revocation e p (now db) (revocation_answer p), db)
    | _ => (Err JsonFailure, db)
    end
  else
    match deliver_check vpc_configured e db with
    | Err x => (Err x, db)
    | Ok Done => (Ok (), db)
    | Ok (Request p i) =>
        match request_body e p i db with
        | Err x => (Err x, db)
        | Ok body =>
            match answer (request_context e p db) body with
            | None => (Err RequestFailure, db)
            | Some r => deliver_finish e p r db
            end
        end
    end.

(** What [process_one] does with the result of [deliver]. *)
Definition settle (e : OutboxEvent) (outcome : result WorkerError ()) : tx () :=
  match outcome with
  | Ok _ | Err StalePayload => mark_outbox_delivered (event_id e)
  | Err _ => retry_outbox_event (event_id e) (event_attempts e)
  end.

Definition process_event (e : OutboxEvent) : tx () := λ db,
  let '(outcome, db') := deliver e db in settle e outcome db'.

Definition process_one : tx () :=
  claimed ← claim_outbox_event;
  match claimed with
  | None => mret ()
  | Some e => process_event e
  end.

End Delivery.
