(* ===== verification/Oidc.v ===== *)
(** * Signing in with an OpenID Connect provider

    [heterocloud-api/src/oidc.rs]: the configuration, the start of a login (a
    signed cookie and a redirection to the provider) and its completion (the
    exchange of the code, the keys of the provider, the validation of the identity
    token), with the handlers [oidc_start] and [oidc_callback] of [routes.rs].

    The network is explicit: a [World] has a clock in milliseconds, the replies
    that are to come, with the time each takes, and the requests that were sent.
    The monotonic and the system clock are identified.  Reports of failures are
    log lines and are left out.  What [jsonwebtoken], [url], [hmac], [sha2] and
    [serde_json] do are parameters. *)
From S2P Require Import Prelude Text Json Net Policy Iam RoleTrust Quota Specs Flash Store Usage Provider Prepare Services FlowAccess Cloud Identity Access Admin FlashStore Authorize IdentityCenter Routes AccountRoutes SessionRoutes FlowRoutes Worker.

(** ** What is used of other crates *)

Class UrlText := {
  url_as_str : Url → string;
  (** [a.origin() == b.origin()]. *)
  same_origin : Url → Url → bool;
}.

Class CodecLib := {
  sha256 : list Z → list Z;
  base64_url_decode : string → option (list Z);
}.

(** [serde_json::from_slice]. *)
Class FromSlice (A : Type) := from_slice : list Z → option A.

(** The algorithms the source names, and the others. *)
Inductive Algorithm :=
  RS256 | RS384 | RS512 | PS256 | PS384 | PS512 | ES256 | ES384 | EdDSA | OtherAlgorithm.
Inductive PublicKeyUse := SignatureUse | OtherUse.
Inductive KeyOperations := VerifyOperation | OtherOperation.

Record Validation := {
  validation_algorithm : Algorithm;
  validation_leeway : Z;
  validation_nbf : bool;
  validation_audience : list string;
  validation_issuer : list string;
  validation_required : list string;
}.

Inductive Audience := OneAudience (value : string) | ManyAudiences (values : list string).

Record IdTokenClaims := {
  claims_subject : string;
  claims_audience : Audience;
  claims_expires_at : Z;
  claims_issued_at : Z;
  claims_nonce : string;
  claims_email : string;
  claims_name : option string;
  claims_preferred_username : option string;
  claims_authorized_party : option string;
}.

Class JwtLib := {
  Jwk : Type;
  KeyAlgorithm : Type;
  DecodingKey : Type;
  jwk_key_id : Jwk → option string;
  jwk_use : Jwk → option PublicKeyUse;
  jwk_operations : Jwk → option (list KeyOperations);
  jwk_algorithm : Jwk → option KeyAlgorithm;
  is_octet_key : Jwk → bool;
  key_algorithm_eqb : KeyAlgorithm → KeyAlgorithm → bool;
  algorithm_into : Algorithm → KeyAlgorithm;
  from_jwk : Jwk → option DecodingKey;
  decode_header : string → option (Algorithm * option string);
  (** [decode::<IdTokenClaims>], at a time in seconds. *)
  decode_claims : string → DecodingKey → Validation → Z → option IdTokenClaims;
}.

(** ** Configuration *)

Definition OIDC_TRANSACTION_COOKIE : string := "hc_oidc_transaction".
Definition OIDC_CALLBACK_PATH : string := "/api/v1/auth/oidc/callback".
Definition OIDC_TRANSACTION_TTL_SECONDS : Z := 5 * 60.
Definition OIDC_CLOCK_SKEW_SECONDS : Z := 60.
Definition MAX_DISCOVERY_BYTES : Z := 256 * 1024.
Definition MAX_TOKEN_RESPONSE_BYTES : Z := 256 * 1024.
Definition MAX_JWKS_BYTES : Z := 1024 * 1024.
Definition MAX_ID_TOKEN_BYTES : Z := 128 * 1024.
Definition MAX_CALLBACK_CODE_BYTES : Z := 16 * 1024.
Definition MAX_JWKS_KEYS : Z := 128.

Record OidcConfig := {
  config_issuer : string;
  discovery_issuer : string;
  discovery_allow_insecure_http : bool;
  config_client_id : string;
  config_client_secret : string;
  public_callback_url : Url;
  allow_insecure_http : bool;
}.

Inductive OidcConfigError :=
| InvalidOidcIssuer
| InvalidBackchannelIssuer
| InvalidClientId
| InvalidClientSecret
| InvalidCallbackUrl
| HttpClientFailed.

Inductive OidcError :=
| AuthorizationRejected
| InvalidRequest
| InvalidToken
| ProviderUnavailable
| OidcInternal.

Definition is_http (u : Url) : bool := String.eqb (scheme u) "http" || String.eqb (scheme u) "https".
Definition is_https (u : Url) : bool := String.eqb (scheme u) "https".

(** [trim_end_matches('/')]. *)
Fixpoint drop_slashes (l : list Z) : list Z :=
  match l with [] => [] | c :: l' => if c =? SLASH then drop_slashes l' else l end.
Definition trim_end_slashes (s : string) : string := of_bytes (rev (drop_slashes (rev (bytes s)))).

(** No credentials in the URL. *)
Definition bare_authority (u : Url) : bool := is_some (host_str u) && is_empty (Flash.username u) && negb (is_some (Flash.password u)).

Section Configuration.
Context `{UrlLib, UrlText}.

Definition normalize_issuer (i : Url) (insecure : bool) : result OidcConfigError string :=
  fail_if (negb (is_http i) || (negb insecure && negb (is_https i)) || negb (bare_authority i)
           || is_some (Flash.query i) || is_some (fragment i) || (2048 <? len (url_as_str i))) InvalidOidcIssuer ;;
  Ok (trim_end_slashes (url_as_str i)).

Definition normalize_backchannel_issuer (i : Url) : result OidcConfigError string :=
  fail_if (negb (is_http i) || negb (bare_authority i)
           || is_some (Flash.query i) || is_some (fragment i) || (2048 <? len (url_as_str i))) InvalidBackchannelIssuer ;;
  Ok (trim_end_slashes (url_as_str i)).

Definition validate_callback_url (callback : Url) (insecure : bool) : result OidcConfigError () :=
  fail_if (negb (is_http callback) || (negb insecure && negb (is_https callback)) || negb (bare_authority callback)
           || is_some (Flash.query callback) || is_some (fragment callback)
           || negb (String.eqb (Flash.path callback) OIDC_CALLBACK_PATH)) InvalidCallbackUrl.

Definition valid_provider_endpoint (endpoint : Url) (i : string) (insecure : bool) : bool :=
  match url_parse i with
  | None => false
  | Some i =>
      is_http endpoint && (insecure || is_https endpoint) && bare_authority endpoint
      && negb (is_some (fragment endpoint)) && same_origin endpoint i
  end.

(** [client] says whether the HTTP client could be built. *)
Definition OidcConfig_new (i : Url) (backchannel : option Url) (id secret : string) (callback : Url) (insecure client : bool)
    : result OidcConfigError OidcConfig :=
  i ← normalize_issuer i insecure;
  discovery ← (match backchannel with
               | Some b => b ← normalize_backchannel_issuer b; Ok (b, true)
               | None => Ok (i, insecure)
               end);
  let id := trim id in
  fail_if (is_empty id || (256 <? len id) || existsb is_control (chars id)) InvalidClientId ;;
  fail_if ((len secret <? 16) || (4096 <? len secret)) InvalidClientSecret ;;
  validate_callback_url callback insecure ;;
  fail_if (negb client) HttpClientFailed ;;
  Ok (Build_OidcConfig i (fst discovery) (snd discovery) id secret callback insecure).

End Configuration.

(** ** The network *)

(** The accessors of [reqwest::Error] that are called. *)
Record TransportError := {
  is_timeout : bool;
  is_connect : bool;
  is_request : bool;
  is_body : bool;
}.

Record HttpResponse := {
  response_status : Z;
  content_length : option Z;
  response_chunks : list (result TransportError (list Z));
}.

Inductive HttpRequest :=
| GetRequest (url : Url)
| PostRequest (url : Url) (basic_auth : string * string) (form : list (string * string)).

Record World := {
  clock : Z;
  replies : list (Z * result TransportError HttpResponse);
  sent : list HttpRequest;
}.

Definition at_time (t : Z) (w : World) : World := {| clock := t; replies := replies w; sent := sent w |}.

(** Sends a request: the time its reply takes, and the reply.  When there is none,
    the client gives up after its ten seconds. *)
Definition CLIENT_TIMEOUT : Z := 10000.
Definition send (r : HttpRequest) (w : World) : Z * result TransportError HttpResponse * World :=
  match replies w with
  | (t, reply) :: l => (Z.max 0 t, reply, {| clock := clock w; replies := l; sent := sent w ++ [r] |})
  | [] => (CLIENT_TIMEOUT, Err (Build_TransportError true false true false),
           {| clock := clock w; replies := []; sent := sent w ++ [r] |})
  end.

Record OidcFailure := {
  failure_class : string;
  failure_status : option Z;
  failure_retryable : bool;
}.
Definition failure_permanent (class : string) : OidcFailure := Build_OidcFailure class None false.
Definition failure_timeout : OidcFailure := Build_OidcFailure "timeout" None true.
Definition failure_transport (e : TransportError) : OidcFailure :=
  if is_timeout e then failure_timeout
  else Build_OidcFailure "transport" None (is_connect e || is_request e || is_body e).
Definition failure_of_status (code : Z) : OidcFailure := Build_OidcFailure "http_status" (Some code) (in_range 502 504 code).

(** The body, chunk by chunk, within the limit. *)
Fixpoint read_chunks (limit : Z) (body : list Z) (l : list (result TransportError (list Z))) : result OidcFailure (list Z) :=
  match l with
  | [] => Ok body
  | Err e :: _ => Err (failure_transport e)
  | Ok chunk :: l =>
      if limit <? Z.of_nat (length body) + Z.of_nat (length chunk) then Err (failure_permanent "oversized_body")
      else read_chunks limit (body ++ chunk) l
  end.

Definition bounded_json {A} `{FromSlice A} (limit : Z) (r : HttpResponse) : result OidcFailure A :=
  fail_if (is_some_and (λ length, limit <? length) (content_length r)) (failure_permanent "oversized_body") ;;
  body ← read_chunks limit [] (response_chunks r);
  ok_or (failure_permanent "invalid_json") (from_slice body).

Record GetPolicy := {
  policy_total : Z;
  policy_attempt : Z;
  policy_backoff : Z;
  policy_jitter : Z;
}.
Definition GetPolicy_default : GetPolicy := Build_GetPolicy 10000 5000 150 100.

(** What chance decides: the identifier the jitter is taken from, and by how much
    a sleep is too long. *)
Record Chance := {
  chance_uuid : Z;
  chance_late : Z;
}.

(** One attempt: the future is dropped at the deadline of the attempt. *)
Definition get_attempt {A} `{FromSlice A} (url : Url) (limit attempt_deadline : Z) (w : World)
    : result OidcFailure A * World :=
  let '(t, reply, w1) := send (GetRequest url) w in
  if attempt_deadline <? clock w + t then (Err failure_timeout, at_time (Z.max (clock w) attempt_deadline) w1)
  else (response ← map_err failure_transport reply;
        fail_if (negb (is_success (response_status response))) (failure_of_status (response_status response)) ;;
        bounded_json limit response, at_time (clock w + t) w1).

Fixpoint get_loop {A} `{FromSlice A} (url : Url) (limit : Z) (policy : GetPolicy) (chance : Chance) (deadline : Z)
    (attempts : list Z) (w : World) : result OidcError A * World :=
  match attempts with
  | [] => (Err ProviderUnavailable, w)
  | attempt :: attempts =>
      let '(result, w1) := get_attempt url limit (Z.min deadline (clock w + policy_attempt policy)) w in
      match result with
      | Ok value => (Ok value, w1)
      | Err failure =>
          if negb (failure_retryable failure) || (attempt =? 2) then (Err ProviderUnavailable, w1)
          else
            let retry_at := clock w1 + policy_backoff policy + chance_uuid chance mod (policy_jitter policy + 1) in
            if deadline <=? retry_at then (Err ProviderUnavailable, w1)
            else
              let w2 := at_time (retry_at + Z.max 0 (chance_late chance)) w1 in
              if deadline <=? clock w2 then (Err ProviderUnavailable, w2)
              else get_loop url limit policy chance deadline attempts w2
      end
  end.

Definition provider_get_json {A} `{FromSlice A} (url : Url) (limit : Z) (policy : GetPolicy) (chance : Chance) (w : World)
    : result OidcError A * World :=
  get_loop url limit policy chance (clock w + policy_total policy) [1; 2] w.

(** Calls over the network that may fail. *)
Definition net (A : Type) : Type := World → result OidcError A * World.
#[export] Instance net_ret : MRet net := λ A a w, (Ok a, w).
#[export] Instance net_bind : MBind net := λ A B f m w,
  match m w with
  | (Ok a, w') => f a w'
  | (Err e, w') => (Err e, w')
  end.
Definition pure_net {A} (m : result OidcError A) : net A := λ w, (m, w).

(** [unix_timestamp]: it fails before 1970. *)
Definition unix_timestamp : net Z := λ w, (if clock w <? 0 then Err OidcInternal else Ok (clock w / 1000), w).

(** ** Login transactions *)

Record OidcTransaction := {
  transaction_state : string;
  transaction_nonce : string;
  transaction_verifier : string;
  transaction_issued_at : Z;
}.

Definition transaction_value (t : OidcTransaction) : Value :=
  Object [("state", Str (transaction_state t)); ("nonce", Str (transaction_nonce t));
          ("verifier", Str (transaction_verifier t)); ("issued_at", Num (Int (transaction_issued_at t)))].

(** [b"heterocloud-oidc-transaction-v1\0"]. *)
Definition TRANSACTION_DOMAIN : list Z := bytes "heterocloud-oidc-transaction-v1" ++ [0].

Section Transactions.
Context `{JsonText, MacLib, CodecLib, FromSlice OidcTransaction}.

Definition transaction_mac (key payload : string) : list Z := hmac_sha256 (bytes key) (TRANSACTION_DOMAIN ++ bytes payload).

Definition sign_transaction (t : OidcTransaction) (key : string) : result OidcError string :=
  text ← ok_or OidcInternal (to_vec (transaction_value t));
  let payload := base64_url text in
  Ok (payload ++ "." ++ base64_url (transaction_mac key payload))%string.

Definition verify_transaction (value key : string) : result OidcError OidcTransaction :=
  fail_if (2048 <? len value) InvalidRequest ;;
  parts ← ok_or InvalidRequest (split_once DOT value);
  let '(payload, signature) := parts in
  fail_if (contains_byte DOT signature) InvalidRequest ;;
  signature ← ok_or InvalidRequest (base64_url_decode signature);
  fail_if (negb (bool_decide (transaction_mac key payload = signature))) InvalidRequest ;;
  text ← ok_or InvalidRequest (base64_url_decode payload);
  t ← ok_or InvalidRequest (from_slice text);
  fail_if (negb (len (transaction_state t) =? 43) || negb (len (transaction_nonce t) =? 43)
           || negb (len (transaction_verifier t) =? 43)) InvalidRequest ;;
  Ok t.

End Transactions.

Definition validate_transaction_age (issued_at : Z) : net () :=
  now ← unix_timestamp;
  pure_net (fail_if ((u64_saturating_add now OIDC_CLOCK_SKEW_SECONDS <? issued_at)
                     || (OIDC_TRANSACTION_TTL_SECONDS <? Z.max 0 (now - issued_at))) InvalidRequest).

(** The first of the candidates that is left when it is trimmed and has no control
    characters, cut to 120 characters. *)
Fixpoint first_name (candidates : list string) : string :=
  match candidates with
  | [] => "OIDC user"
  | candidate :: candidates =>
      let normalized := trim candidate in
      if negb (is_empty normalized) && negb (existsb is_control (chars normalized))
      then of_chars (take 120 (chars normalized))
      else first_name candidates
  end.
Definition token_display_name (given username : option string) (mail : string) : string :=
  first_name (option_list given ++ option_list username ++ [mail]).

(** ** Identity tokens *)

Definition supported_asymmetric_algorithm (a : Algorithm) : bool :=
  match a with
  | RS256 | RS384 | RS512 | PS256 | PS384 | PS512 | ES256 | ES384 | EdDSA => true
  | OtherAlgorithm => false
  end.

Definition algorithm_name (a : Algorithm) : string :=
  match a with
  | RS256 => "RS256"
  | RS384 => "RS384"
  | RS512 => "RS512"
  | PS256 => "PS256"
  | PS384 => "PS384"
  | PS512 => "PS512"
  | ES256 => "ES256"
  | ES384 => "ES384"
  | EdDSA => "EdDSA"
  | OtherAlgorithm => "unsupported"
  end.

Definition audience_values (a : Audience) : list string :=
  match a with OneAudience v => [v] | ManyAudiences l => l end.

Record ProviderMetadata := {
  metadata_issuer : string;
  authorization_endpoint : Url;
  token_endpoint : Url;
  jwks_uri : Url;
  id_token_signing_alg_values_supported : list string;
}.

Record TokenResponse := { id_token : string }.

Record OidcCallbackQuery := {
  callback_code : option string;
  callback_state : option string;
  callback_error : option string;
  callback_error_description : option string;
}.

Definition longer_than (n : Z) (o : option string) : bool := is_some_and (λ s, n <? len s) o.

Definition validate_size (q : OidcCallbackQuery) : result OidcError () :=
  fail_if (longer_than MAX_CALLBACK_CODE_BYTES (callback_code q) || longer_than 128 (callback_state q)
           || longer_than 1024 (callback_error q) || longer_than 4096 (callback_error_description q)) InvalidRequest.

Inductive OidcLoginIntent := Authenticate | Register.

Record TransactionCookie := {
  cookie_value : string;
  cookie_path : string;
  cookie_http_only : bool;
  cookie_secure : bool;
  cookie_max_age : Z;
}.

(** The address of the provider, and the parameters that are appended to it. *)
Record OidcLoginStart := {
  authorization_url : Url * list (string * string);
  transaction_cookie : TransactionCookie;
}.

Section Login.
Context `{UrlLib, UrlText, JsonText, MacLib, CodecLib, WebLib, JwtLib}.
Context `{FromSlice OidcTransaction, FromSlice ProviderMetadata, FromSlice TokenResponse, FromSlice (list Jwk)}.
Context (config : OidcConfig).

(** A key that may have signed a token with the header. *)
Definition usable_key (alg : Algorithm) (id : string) (k : Jwk) : bool :=
  bool_decide (jwk_key_id k = Some id)
  && match jwk_use k with Some OtherUse => false | _ => true end
  && match jwk_operations k with Some l => existsb (λ o, match o with VerifyOperation => true | _ => false end) l | None => true end
  && match jwk_algorithm k with Some a => key_algorithm_eqb a (algorithm_into alg) | None => true end
  && negb (is_octet_key k).

Definition token_validation (alg : Algorithm) : Validation := {|
  validation_algorithm := alg;
  validation_leeway := OIDC_CLOCK_SKEW_SECONDS;
  validation_nbf := true;
  validation_audience := [config_client_id config];
  validation_issuer := [config_issuer config];
  validation_required := ["exp"; "iss"; "aud"; "sub"];
|}.

Definition validate_id_token (token expected_nonce : string) (advertised : list string) (jwks : list Jwk) : net OidcIdentity :=
  header ← pure_net (ok_or InvalidToken (decode_header token));
  let '(alg, kid) := header in
  pure_net (fail_if (negb (supported_asymmetric_algorithm alg)
    || (negb (is_nil advertised) && negb (existsb (String.eqb (algorithm_name alg)) advertised))) InvalidToken) ;;
  id ← pure_net (ok_or InvalidToken kid);
  pure_net (fail_if (is_empty id || (256 <? len id)) InvalidToken) ;;
  key ← pure_net (match List.filter (usable_key alg id) jwks with [key] => Ok key | _ => Err InvalidToken end);
  decoding_key ← pure_net (ok_or InvalidToken (from_jwk key));
  t ← (λ w, (Ok (clock w / 1000), w)) : net Z;
  claims ← pure_net (ok_or InvalidToken (decode_claims token decoding_key (token_validation alg) t));
  pure_net (fail_if (negb (constant_time_token_eq (claims_nonce claims) expected_nonce)
    || is_empty (claims_subject claims) || (255 <? Z.of_nat (length (chars (claims_subject claims))))
    || existsb is_control (chars (claims_subject claims))
    || is_empty (claims_email claims) || (320 <? len (claims_email claims))) InvalidToken) ;;
  now ← unix_timestamp;
  pure_net (fail_if ((u64_saturating_add now OIDC_CLOCK_SKEW_SECONDS <? claims_issued_at claims)
    || (claims_expires_at claims <=? claims_issued_at claims)) InvalidToken) ;;
  let audiences := audience_values (claims_audience claims) in
  pure_net (fail_if (is_nil audiences
    || ((1 <? Z.of_nat (length audiences)) && negb (bool_decide (claims_authorized_party claims = Some (config_client_id config))))
    || is_some_and (λ party, negb (String.eqb party (config_client_id config))) (claims_authorized_party claims)) InvalidToken) ;;
  mret (Build_OidcIdentity (config_issuer config) (claims_subject claims) (claims_email claims)
    (token_display_name (claims_name claims) (claims_preferred_username claims) (claims_email claims))).

Definition valid_metadata (m : ProviderMetadata) : bool :=
  String.eqb (metadata_issuer m) (config_issuer config)
  && valid_provider_endpoint (authorization_endpoint m) (config_issuer config) (allow_insecure_http config)
  && valid_provider_endpoint (token_endpoint m) (discovery_issuer config) (discovery_allow_insecure_http config)
  && valid_provider_endpoint (jwks_uri m) (discovery_issuer config) (discovery_allow_insecure_http config).

Definition discovery (chance : Chance) : net ProviderMetadata :=
  url ← pure_net (ok_or OidcInternal (url_parse (discovery_issuer config ++ "/.well-known/openid-configuration")%string));
  metadata ← provider_get_json url MAX_DISCOVERY_BYTES GetPolicy_default chance;
  pure_net (fail_if (negb (valid_metadata metadata)) ProviderUnavailable) ;;
  mret metadata.

(** The secrets are what [generate_token] gives. *)
Definition begin_login (key : string) (secure : bool) (intent : OidcLoginIntent) (state nonce verifier : string)
    (chance : Chance) : net OidcLoginStart :=
  metadata ← discovery chance;
  let challenge := base64_url (sha256 (bytes verifier)) in
  issued_at ← unix_timestamp;
  value ← pure_net (sign_transaction (Build_OidcTransaction state nonce verifier issued_at) key);
  mret {|
    authorization_url := (authorization_endpoint metadata, [
      ("response_type", "code"); ("client_id", config_client_id config);
      ("redirect_uri", url_as_str (public_callback_url config)); ("scope", "openid profile email");
      ("state", state); ("nonce", nonce); ("code_challenge", challenge); ("code_challenge_method", "S256")]
      ++ match intent with Register => [("prompt", "create")] | Authenticate => [] end);
    transaction_cookie := Build_TransactionCookie value OIDC_CALLBACK_PATH true secure OIDC_TRANSACTION_TTL_SECONDS;
  |}.

Definition token_form (code verifier : string) : list (string * string) := [
  ("grant_type", "authorization_code"); ("client_id", config_client_id config); ("code", code);
  ("redirect_uri", url_as_str (public_callback_url config)); ("code_verifier", verifier)].

(** The exchange of the code, which is sent once. *)
Definition exchange_code (endpoint : Url) (code verifier : string) : net TokenResponse := λ w,
  let '(t, reply, w1) := send (PostRequest endpoint (config_client_id config, config_client_secret config)
                                 (token_form code verifier)) w in
  (response ← map_err (λ _, ProviderUnavailable) reply;
   fail_if (in_range 400 499 (response_status response)) AuthorizationRejected ;;
   fail_if (negb (is_success (response_status response))) ProviderUnavailable ;;
   tokens ← map_err (λ _, ProviderUnavailable) (bounded_json MAX_TOKEN_RESPONSE_BYTES response);
   fail_if (is_empty (id_token tokens) || (MAX_ID_TOKEN_BYTES <? len (id_token tokens))) InvalidToken ;;
   Ok tokens, at_time (clock w + t) w1).

Definition complete_login (q : OidcCallbackQuery) (cookie : option string) (key : string) (first second : Chance)
    : net OidcIdentity :=
  pure_net (validate_size q) ;;
  cookie ← pure_net (ok_or InvalidRequest cookie);
  transaction ← pure_net (verify_transaction cookie key);
  state ← pure_net (ok_or InvalidRequest (callback_state q));
  pure_net (fail_if (negb (constant_time_token_eq state (transaction_state transaction))) InvalidRequest) ;;
  validate_transaction_age (transaction_issued_at transaction) ;;
  pure_net (fail_if (is_some (callback_error q)) AuthorizationRejected) ;;
  code ← pure_net (ok_or InvalidRequest (callback_code q));
  pure_net (fail_if (is_empty code) InvalidRequest) ;;
  metadata ← discovery first;
  tokens ← exchange_code (token_endpoint metadata) code (transaction_verifier transaction);
  jwks ← provider_get_json (jwks_uri metadata) MAX_JWKS_BYTES GetPolicy_default second;
  pure_net (fail_if (is_nil jwks || (MAX_JWKS_KEYS <? Z.of_nat (length jwks))) InvalidToken) ;;
  validate_id_token (id_token tokens) (transaction_nonce transaction) (id_token_signing_alg_values_supported metadata) jwks.

End Login.

Definition oidc_api_error (e : OidcError) : ApiError :=
  match e with
  | InvalidRequest => BadRequest "Invalid or expired OIDC login transaction."
  | AuthorizationRejected | InvalidToken => Unauthorized
  | ProviderUnavailable => ApiIdentityProviderUnavailable
  | OidcInternal => Internal
  end.

Definition clear_transaction_cookie (secure : bool) : TransactionCookie :=
  Build_TransactionCookie "" OIDC_CALLBACK_PATH true secure 0.

(** ** The handlers *)

Section Handlers.
Context `{UrlLib, UrlText, JsonText, MacLib, CodecLib, WebLib, JwtLib}.
Context `{FromSlice OidcTransaction, FromSlice ProviderMetadata, FromSlice TokenResponse, FromSlice (list Jwk)}.
Context (config : RuntimeConfig) (oidc : option OidcConfig).

Definition oidc_start (secure : bool) (intent : option OidcLoginIntent) (state nonce verifier : string) (chance : Chance)
    (w : World) : result ApiError OidcLoginStart * World :=
  match oidc with
  | None => (Err ApiNotFound, w)
  | Some c =>
      let '(start, w') := begin_login c (csrf_key config) secure (default Authenticate intent) state nonce verifier chance w in
      (map_err oidc_api_error start, w')
  end.

(** The identity that [oidc_callback] goes on with. *)
Definition callback_identity (q : OidcCallbackQuery) (r : Authorize.Request) (first second : Chance) (w : World)
    : result ApiError OidcIdentity * World :=
  match oidc with
  | None => (Err ApiNotFound, w)
  | Some c =>
      let '(identity, w') := complete_login c q (cookies r OIDC_TRANSACTION_COOKIE) (csrf_key config) first second w in
      (map_err oidc_api_error identity, w')
  end.

End Handlers.
