(* ===== verification/StorageRoutes.v ===== *)
(** * Credentials of object storage

    The handlers of [heterocloud-api/src/routes.rs] that read the usage of a Syouyu
    bucket and list, issue and revoke its credentials, and the client of the
    provider that keeps them ([syouyu_provider.rs]): the signed context, the five
    requests, and what becomes of the answers.

    These handlers work on the database and over the network: a [Wire] has the
    time, the answers that are to come and the requests that were sent.  Log lines
    and the headers of responses are left out. *)
From S2P Require Import Prelude Text Json Net Policy Iam RoleTrust Quota Specs Flash Store Usage Provider Prepare Services FlowAccess Cloud Identity Access Admin FlashStore Authorize IdentityCenter Routes FlashOps ServiceRoutes AccountRoutes SessionRoutes FlowRoutes Oidc.

(** ** The client of the provider *)

Inductive SyouyuProviderRejection :=
  RejectedRequest | RejectedAuthentication | RejectedNotFound | RejectedConflict | RejectedRate | RejectedUnavailable.

Inductive SyouyuProviderError :=
| SyouyuConfiguration (message : string)
| SyouyuInvalidContext
| SyouyuSystemTime
| SyouyuInvalidResponse
| SyouyuRejected (r : SyouyuProviderRejection)
| SyouyuHttp
| SyouyuJson
| SyouyuUrl.

Record SyouyuCredentialLimits := {
  context_credentials_per_bucket : Z;
  context_total_credentials : Z;
}.

Record SyouyuProviderContext := {
  syouyu_principal : PrincipalId;
  syouyu_organization : OrganizationId;
  syouyu_project : ProjectId;
  syouyu_service : ServiceInstanceId;
  syouyu_permissions : list string;
  syouyu_limits : SyouyuCredentialLimits;
}.

(** The time to live in seconds. *)
Record SyouyuPrincipalSigner := {
  principal_issuer : string;
  principal_audience : string;
  principal_secret : string;
  principal_ttl : Z;
}.

Definition SyouyuPrincipalSigner_new (new_issuer new_audience secret : string) (ttl : Z)
    : result SyouyuProviderError SyouyuPrincipalSigner :=
  fail_if (is_empty new_issuer || is_empty new_audience)
    (SyouyuConfiguration "Syouyu principal issuer and audience are required") ;;
  fail_if (len secret <? 32) (SyouyuConfiguration "Syouyu principal HMAC secret must contain at least 32 bytes") ;;
  fail_if ((ttl =? 0) || (300 <? ttl)) (SyouyuConfiguration "Syouyu principal TTL must be between one and 300 seconds") ;;
  Ok (Build_SyouyuPrincipalSigner new_issuer new_audience secret ttl).

Record SyouyuProviderProxy := {
  proxy_endpoint : Url;
  proxy_signer : SyouyuPrincipalSigner;
}.

Definition PRINCIPAL_TTL : Z := 60.

(** An absolute HTTP(S) URL with nothing but a host. *)
Definition base_url (u : Url) : bool :=
  is_http u && bare_authority u && negb (is_some (Flash.query u)) && negb (is_some (Flash.fragment u))
  && (String.eqb (Flash.path u) "" || String.eqb (Flash.path u) "/").

Definition SyouyuProviderProxy_new (endpoint : Url) (new_issuer new_audience secret : string)
    : result SyouyuProviderError SyouyuProviderProxy :=
  fail_if (negb (base_url endpoint)) (SyouyuConfiguration "Syouyu endpoint must be an absolute HTTP(S) base URL") ;;
  signer ← SyouyuPrincipalSigner_new new_issuer new_audience secret PRINCIPAL_TTL;
  Ok (Build_SyouyuProviderProxy endpoint signer).

Record SignedSyouyuPrincipal := {
  principal_encoded : string;
  principal_timestamp : string;
  principal_signature : string;
}.

(** [PrincipalPayload], serialized. *)
Definition principal_value `{UuidText} (s : SyouyuPrincipalSigner) (c : SyouyuProviderContext) (issued expires : Z) (id : Uuid) : Value :=
  Object [
    ("issuer", Str (principal_issuer s)); ("audience", Str (principal_audience s));
    ("organization_id", json_uuid (syouyu_organization c)); ("project_id", json_uuid (syouyu_project c));
    ("service_instance_id", json_uuid (syouyu_service c)); ("principal_id", json_uuid (syouyu_principal c));
    ("permissions", Array (Str <$> syouyu_permissions c));
    ("issued_at", Num (Int issued)); ("expires_at", Num (Int expires)); ("context_id", json_uuid id);
    ("credential_limits", Object [
       ("max_credentials_per_bucket", Num (Int (context_credentials_per_bucket (syouyu_limits c))));
       ("max_total_credentials", Num (Int (context_total_credentials (syouyu_limits c))))])].

Definition syouyu_sign_at `{UuidText, JsonText, MacLib} (s : SyouyuPrincipalSigner) (c : SyouyuProviderContext) (issued : Z)
    (id : Uuid) : result SyouyuProviderError SignedSyouyuPrincipal :=
  fail_if (is_nil_uuid (syouyu_principal c) || is_nil_uuid (syouyu_organization c) || is_nil_uuid (syouyu_project c)
           || is_nil_uuid (syouyu_service c) || is_nil (syouyu_permissions c)
           || (context_credentials_per_bucket (syouyu_limits c) =? 0)
           || (context_total_credentials (syouyu_limits c) <? context_credentials_per_bucket (syouyu_limits c)))
    SyouyuInvalidContext ;;
  fail_if (u64_max <? issued + principal_ttl s) SyouyuSystemTime ;;
  text ← ok_or SyouyuJson (to_vec (principal_value s c issued (issued + principal_ttl s) id));
  let encoded := base64_url text in
  let timestamp := int_to_string issued in
  let signature := base64_url (hmac_sha256 (bytes (principal_secret s)) (bytes timestamp ++ [DOT] ++ bytes encoded)) in
  Ok (Build_SignedSyouyuPrincipal encoded timestamp signature).

(** At a time in seconds, with a new identifier. *)
Definition syouyu_sign `{UuidText, JsonText, MacLib} (s : SyouyuPrincipalSigner) (c : SyouyuProviderContext) (t : Z) (id : Uuid)
    : result SyouyuProviderError SignedSyouyuPrincipal :=
  fail_if (t <? 0) SyouyuSystemTime ;;
  syouyu_sign_at s c t id.

(** *** The wire *)

Record SyouyuProviderPermissions := {
  permits_read : bool;
  permits_write : bool;
}.

Inductive SyouyuMethod := SyouyuGet | SyouyuPost | SyouyuDelete.

Record SyouyuRequest := {
  wire_method : SyouyuMethod;
  wire_url : Url;
  wire_key : option Uuid;
  (** The body: a name and permissions. *)
  wire_body : option (string * SyouyuProviderPermissions);
  wire_principal : SignedSyouyuPrincipal;
}.

(** A reply is a status and a body, or nothing; [new_v4] is a counter. *)
Record Wire := {
  wire_time : Z;
  wire_uuid : Uuid;
  wire_replies : list (option (Z * list Z));
  wire_sent : list SyouyuRequest;
}.

Definition syouyu_send (r : SyouyuRequest) (w : Wire) : result SyouyuProviderError (Z * list Z) * Wire :=
  match wire_replies w with
  | reply :: l => (ok_or SyouyuHttp reply, Build_Wire (wire_time w) (wire_uuid w) l (wire_sent w ++ [r]))
  | [] => (Err SyouyuHttp, Build_Wire (wire_time w) (wire_uuid w) [] (wire_sent w ++ [r]))
  end.

Definition MAX_RESPONSE_BYTES : Z := 64 * 1024.

Definition classify_rejection (status : Z) (code : option string) : SyouyuProviderRejection :=
  let by_status :=
    if (status =? 400) || (status =? 422) then RejectedRequest
    else if (status =? 401) || (status =? 403) then RejectedAuthentication
    else if status =? 404 then RejectedNotFound
    else if status =? 409 then RejectedConflict
    else if status =? 429 then RejectedRate
    else RejectedUnavailable in
  match code with
  | Some c =>
      if String.eqb c "not_found" then RejectedNotFound
      else if String.eqb c "credential_limit_exceeded" || String.eqb c "idempotency_conflict" || String.eqb c "service_not_ready"
      then RejectedConflict
      else if String.eqb c "invalid_request" then RejectedRequest
      else if String.eqb c "invalid_credentials" || String.eqb c "permission_denied" then RejectedAuthentication
      else by_status
  | None => by_status
  end.

(** [ProviderErrorEnvelope]: the code in it. *)
Record ProviderErrorEnvelope := { error_code : string }.

Definition syouyu_decode_response {A} `{FromSlice A, FromSlice ProviderErrorEnvelope} (r : Z * list Z) : result SyouyuProviderError A :=
  let '(status, body) := r in
  fail_if (MAX_RESPONSE_BYTES <? Z.of_nat (length body)) SyouyuInvalidResponse ;;
  fail_if (negb (in_range 200 299 status)) (SyouyuRejected (classify_rejection status (error_code <$> from_slice body))) ;;
  ok_or SyouyuInvalidResponse (from_slice body).

(** *** Data of the provider *)

Record SyouyuProviderCredential := {
  bucket_credential_id : Uuid;
  bucket_credential_name : string;
  access_key_id : string;
  bucket_credential_permissions : SyouyuProviderPermissions;
  bucket_credential_status : string;
  bucket_credential_created : DateTime;
  bucket_credential_revoked : option DateTime;
}.

Record IssuedSyouyuProviderCredential := {
  issued_credential : SyouyuProviderCredential;
  issued_secret : string;
  issued_bucket_name : string;
  issued_endpoint : string;
}.

Record SyouyuProviderQuota := {
  provider_quota_bytes : Z;
  provider_quota_objects : Z;
}.

Record SyouyuProviderBucketUsage := {
  provider_usage_bytes : Z;
  provider_usage_objects : Z;
  provider_usage_unfinished_bytes : Z;
  provider_usage_unfinished_uploads : Z;
}.

Record SyouyuServiceOverview := {
  overview_service : Uuid;
  overview_name : string;
  overview_region : string;
  overview_bucket_name : string;
  overview_phase : string;
  overview_endpoint : string;
  overview_quota : SyouyuProviderQuota;
  overview_usage : SyouyuProviderBucketUsage;
  overview_active_credentials : Z;
  overview_measured_at : DateTime;
}.

Record SyouyuProviderUsage := {
  usage_service : Uuid;
  usage_bytes : Z;
  usage_objects : Z;
  usage_unfinished_bytes : Z;
  usage_unfinished_uploads : Z;
  usage_quota_bytes : Z;
  usage_quota_objects : Z;
  usage_measured_at : DateTime;
}.

Record CredentialListResponse := { listed_credentials : list SyouyuProviderCredential }.
Record RevokedCredentialResponse := {
  revoked_credential : Uuid;
  revoked_status : string;
}.

(** [Url::join]. *)
Class UrlJoin := url_join : Url → string → option Url.

(** ** The requests *)

Section Client.
Context `{UuidText, JsonText, MacLib, UrlJoin, FromSlice ProviderErrorEnvelope}.
Context (proxy : SyouyuProviderProxy).

(** A request with the signed context, which the address and the time may prevent. *)
Definition syouyu_request (m : SyouyuMethod) (route : string) (key : option Uuid) (body : option (string * SyouyuProviderPermissions))
    (c : SyouyuProviderContext) (w : Wire) : result SyouyuProviderError (Z * list Z) * Wire :=
  match url_join (proxy_endpoint proxy) route with
  | None => (Err SyouyuUrl, w)
  | Some url =>
      match syouyu_sign (proxy_signer proxy) c (wire_time w) (wire_uuid w) with
      | Err e => (Err e, w)
      | Ok signed =>
          syouyu_send (Build_SyouyuRequest m url key body signed)
            (Build_Wire (wire_time w) (N.succ (wire_uuid w)) (wire_replies w) (wire_sent w))
      end
  end.

Definition syouyu_call {A} `{FromSlice A} (m : SyouyuMethod) (route : string) (key : option Uuid)
    (body : option (string * SyouyuProviderPermissions)) (c : SyouyuProviderContext) (w : Wire)
    : result SyouyuProviderError A * Wire :=
  let '(r, w') := syouyu_request m route key body c w in
  (reply ← r; syouyu_decode_response reply, w').

Definition service_overview `{FromSlice SyouyuServiceOverview} (c : SyouyuProviderContext)
    : Wire → result SyouyuProviderError SyouyuServiceOverview * Wire :=
  syouyu_call SyouyuGet "v1/service-overview" None None c.

Definition bucket_usage `{FromSlice SyouyuProviderUsage} (c : SyouyuProviderContext)
    : Wire → result SyouyuProviderError SyouyuProviderUsage * Wire :=
  syouyu_call SyouyuGet "v1/usage" None None c.

Definition list_bucket_credentials `{FromSlice CredentialListResponse} (c : SyouyuProviderContext) (w : Wire)
    : result SyouyuProviderError (list SyouyuProviderCredential) * Wire :=
  let '(r, w') := syouyu_call SyouyuGet "v1/credentials" None None c w in
  (l ← r; Ok (listed_credentials l), w').

Definition create_bucket_credential `{FromSlice IssuedSyouyuProviderCredential} (c : SyouyuProviderContext) (key : Uuid)
    (new_name : string) (permissions : SyouyuProviderPermissions)
    : Wire → result SyouyuProviderError IssuedSyouyuProviderCredential * Wire :=
  syouyu_call SyouyuPost "v1/credentials" (Some key) (Some (new_name, permissions)) c.

Definition revoke_bucket_credential `{FromSlice RevokedCredentialResponse} (c : SyouyuProviderContext) (id key : Uuid) (w : Wire)
    : result SyouyuProviderError () * Wire :=
  let '(r, w') := syouyu_call SyouyuDelete ("v1/credentials/" ++ uuid_to_string id)%string (Some key) None c w in
  (revoked ← r;
   fail_if (negb (bool_decide (revoked_credential revoked = id)) || negb (String.eqb (revoked_status revoked) "revoked"))
     SyouyuInvalidResponse, w').

End Client.

(** ** Handlers *)

Definition map_syouyu_provider_error (e : SyouyuProviderError) : ApiError :=
  match e with
  | SyouyuRejected RejectedRequest => BadRequest "The Syouyu request is invalid."
  | SyouyuRejected RejectedNotFound => ApiNotFound
  | SyouyuRejected RejectedConflict => ApiConflict
  | SyouyuRejected RejectedRate => TooManyRequests
  | _ => SyouyuProviderUnavailable
  end.

Inductive SyouyuCredentialPermission := ReadPermission | WritePermission.
#[export] Instance syouyu_permission_eq_dec : EqDecision SyouyuCredentialPermission.
Proof. solve_decision. Defined.

Definition syouyu_provider_permissions (l : list SyouyuCredentialPermission) : result ApiError SyouyuProviderPermissions :=
  fail_if (is_nil l) (BadRequest "permissions must include read, write, or both") ;;
  Ok (Build_SyouyuProviderPermissions (bool_decide (ReadPermission ∈ l)) (bool_decide (WritePermission ∈ l))).

Record SyouyuCredentialResponse := {
  answered_credential : SyouyuProviderCredential;
  answered_permissions : list SyouyuCredentialPermission;
  answered_service : ServiceInstanceId;
}.

Definition syouyu_credential_response (service : ServiceInstanceId) (c : SyouyuProviderCredential)
    : result ApiError SyouyuCredentialResponse :=
  let permissions := (if permits_read (bucket_credential_permissions c) then [ReadPermission] else [])
                     ++ (if permits_write (bucket_credential_permissions c) then [WritePermission] else []) in
  fail_if (is_nil permissions
           || negb (String.eqb (bucket_credential_status c) "active" || String.eqb (bucket_credential_status c) "revoked"))
    SyouyuProviderUnavailable ;;
  Ok (Build_SyouyuCredentialResponse c permissions service).

Definition IDEMPOTENCY_KEY_HEADER : string := "idempotency-key".

Definition required_syouyu_idempotency_key `{WebLib, UuidText} (r : Request) : result ApiError Uuid :=
  let e := BadRequest "Idempotency-Key must be a canonical UUID" in
  raw ← ok_or e (header_text IDEMPOTENCY_KEY_HEADER r);
  key ← ok_or e (uuid_parse raw);
  fail_if (is_nil_uuid key || negb (String.eqb (uuid_to_string key) raw)) e ;;
  Ok key.

(** The sixteen bytes of an identifier, the highest first, and back. *)
Definition uuid_bytes (id : Uuid) : list Z :=
  (λ k : nat, Z.of_N (N.land (N.shiftr id (N.of_nat (120 - 8 * k))) 255)) <$> seq 0 16.
Definition uuid_from_bytes (l : list Z) : Uuid := foldl (λ acc b, acc * 256 + Z.to_N b)%N 0%N l.

Definition syouyu_compensation_idempotency_key `{CodecLib} (create_key : Uuid) : Uuid :=
  let digest := take 16 (sha256 (bytes "heterocloud-syouyu-create-compensation:" ++ uuid_bytes create_key)) in
  let digest := alter (λ b, Z.lor (Z.land b 15) 64) 6%nat digest in
  uuid_from_bytes (alter (λ b, Z.lor (Z.land b 63) 128) 8%nat digest).

Definition validate_syouyu_credential_name (new_name : string) : result ApiError () :=
  fail_if (not_trimmed new_name || is_empty new_name || (120 <? len new_name) || contains_byte 0 new_name)
    (BadRequest "name must contain between 1 and 120 bytes without surrounding whitespace").

Definition valid_syouyu_endpoint `{UrlLib} (endpoint : string) : bool := is_some_and base_url (url_parse endpoint).

Record AuthorizedSyouyuProvider := {
  target_proxy : SyouyuProviderProxy;
  target_instance : ServiceInstance;
  target_spec : SyouyuSpec;
  target_limits : SyouyuCredentialLimits;
  target_principal : PrincipalId;
}.

Definition target_context (t : AuthorizedSyouyuProvider) (permission : string) : SyouyuProviderContext := {|
  syouyu_principal := target_principal t;
  syouyu_organization := organization_id (instance_row (target_instance t));
  syouyu_project := project_id (instance_row (target_instance t));
  syouyu_service := instance_id (target_instance t);
  syouyu_permissions := [permission];
  syouyu_limits := target_limits t;
|}.

(** Handlers that work on the database and over the wire. *)
Definition storage (A : Type) : Type := Db → Wire → result ApiError A * Db * Wire.
#[export] Instance storage_ret : MRet storage := λ A a db w, (Ok a, db, w).
#[export] Instance storage_bind : MBind storage := λ A B f m db w,
  match m db w with
  | (Ok a, db', w') => f a db' w'
  | (Err e, db', w') => (Err e, db', w')
  end.
Definition on_db {A} (m : api A) : storage A := λ db w, (m db, w).
Definition on_wire {A} (m : Wire → result SyouyuProviderError A * Wire) : storage A := λ db w,
  let '(x, w') := m w in (map_err map_syouyu_provider_error x, db, w').

Section Handlers.
Context `{LimitsDecoder, Serde FlowSpec, Serde FlashSpec, Serde SyouyuSpec, Serde VpcSpec}.
Context `{IpNetLib, UrlLib, JsonText, UuidText, SqlCast, Chrono, TimeText}.
Context `{WebLib, SqlText, SqlCollation, Serde PolicyDocument}.
Context `{MacLib, CodecLib, UrlJoin, FromSlice ProviderErrorEnvelope, FromSlice SyouyuServiceOverview, FromSlice SyouyuProviderUsage}.
Context `{FromSlice CredentialListResponse, FromSlice IssuedSyouyuProviderCredential, FromSlice RevokedCredentialResponse}.
Context (config : RuntimeConfig) (provider : option SyouyuProviderProxy).

Definition syouyu_credential_collection_resource (org service : Uuid) : string :=
  organization_resource org ("syouyu/bucket/" ++ uuid_to_string service ++ "/credential/*")%string.
Definition syouyu_credential_resource (org service credential : Uuid) : string :=
  organization_resource org ("syouyu/bucket/" ++ uuid_to_string service ++ "/credential/" ++ uuid_to_string credential)%string.

Definition authorized_syouyu_provider (actor : AuthenticatedActor) (org : OrganizationId) (service : ServiceInstanceId)
    (act res : string) : api AuthorizedSyouyuProvider :=
  context ← authorize_actor actor org act res;
  (if String.eqb act "syouyu:CreateCredential" then from_result (require_durable_credential_issuer actor) else mret ()) ;;
  instance ← syouyu_bucket org service;
  check (bool_decide (state (instance_row instance) = Ready)) SyouyuBucketNotReady ;;
  s ← some_or Internal (from_value (spec (instance_row instance)) : option SyouyuSpec);
  from_result (validate_syouyu_spec s) ;;
  limits ← fetch (effective_resource_quota org);
  proxy ← some_or SyouyuProviderUnavailable provider;
  mret (Build_AuthorizedSyouyuProvider proxy instance s
    (Build_SyouyuCredentialLimits (SyouyuQuotaLimits.max_credentials_per_bucket (ResourceQuotaLimits.syouyu limits))
       (SyouyuQuotaLimits.max_total_credentials (ResourceQuotaLimits.syouyu limits)))
    (Iam.context_principal_id context)).

Definition mismatched_usage (t : AuthorizedSyouyuProvider) (service : ServiceInstanceId) (u : SyouyuProviderUsage)
    (o : SyouyuServiceOverview) : bool :=
  negb (bool_decide (usage_service u = service)) || negb (bool_decide (overview_service o = service))
  || negb (usage_quota_bytes u =? quota_bytes (target_spec t)) || negb (usage_quota_objects u =? quota_objects (target_spec t))
  || negb (String.eqb (overview_region o) (syouyu_region (target_spec t)))
  || negb (String.eqb (overview_bucket_name o) (bucket_name (target_spec t))).

(** The source joins both requests and gives up with the first that fails; here they are
    made one after the other, and always both, so that every request that can be sent
    is among those of the model.  Of two failures the first is reported. *)
Definition usage_and_overview (t : AuthorizedSyouyuProvider) (w : Wire)
    : result SyouyuProviderError (SyouyuProviderUsage * SyouyuServiceOverview) * Wire :=
  let '(u, w1) := bucket_usage (target_proxy t) (target_context t "syouyu.usage.read") w in
  let '(o, w2) := service_overview (target_proxy t) (target_context t "syouyu.overview.read") w1 in
  (u ← u; o ← o; Ok (u, o), w2).

Definition get_syouyu_bucket_usage (r : Request) (org : OrganizationId) (service : ServiceInstanceId)
    : storage (SyouyuProviderUsage * Z) :=
  t ← on_db (actor ← authenticated_actor config r;
             authorized_syouyu_provider actor org service "syouyu:GetBucketUsage" (syouyu_bucket_resource org service));
  both ← on_wire (usage_and_overview t);
  let '(u, o) := both in
  on_db (check (negb (mismatched_usage t service u o)) SyouyuProviderUnavailable) ;;
  mret (u, overview_active_credentials o).

Definition list_syouyu_credentials (r : Request) (org : OrganizationId) (service : ServiceInstanceId)
    : storage (list SyouyuCredentialResponse) :=
  t ← on_db (actor ← authenticated_actor config r;
             authorized_syouyu_provider actor org service "syouyu:ListCredentials" (syouyu_credential_collection_resource org service));
  l ← on_wire (list_bucket_credentials (target_proxy t) (target_context t "syouyu.credential.read"));
  on_db (from_result (collect (syouyu_credential_response service) l)).

(** What was issued is revoked again; a failure is only reported. *)
Definition compensate_syouyu_credential (t : AuthorizedSyouyuProvider) (credential create_key : Uuid) : storage () := λ db w,
  let '(_, w') := revoke_bucket_credential (target_proxy t) (target_context t "syouyu.credential.revoke") credential
                    (syouyu_compensation_idempotency_key create_key) w in
  (Ok (), db, w').

Definition out_of_scope (t : AuthorizedSyouyuProvider) (service : ServiceInstanceId) (i : IssuedSyouyuProviderCredential) : bool :=
  negb (String.eqb (issued_bucket_name i) (bucket_name (target_spec t))) || negb (valid_syouyu_endpoint (issued_endpoint i))
  || negb (is_ok (syouyu_credential_response service (issued_credential i))).

Definition create_syouyu_credential (r : Request) (org : OrganizationId) (service : ServiceInstanceId) (new_name : string)
    (permissions : list SyouyuCredentialPermission) : storage (SyouyuCredentialResponse * IssuedSyouyuProviderCredential) :=
  request ← on_db (actor ← authenticated_actor_mutation config r;
                   key ← from_result (required_syouyu_idempotency_key r);
                   from_result (validate_syouyu_credential_name new_name) ;;
                   permissions ← from_result (syouyu_provider_permissions permissions);
                   t ← authorized_syouyu_provider actor org service "syouyu:CreateCredential"
                         (syouyu_credential_collection_resource org service);
                   mret (key, permissions, t));
  let '(key, permissions, t) := request in
  issued ← on_wire (create_bucket_credential (target_proxy t) (target_context t "syouyu.credential.create") key new_name permissions);
  (if out_of_scope t service issued then
     compensate_syouyu_credential t (bucket_credential_id (issued_credential issued)) key ;;
     on_db (api_fail SyouyuProviderUnavailable)
   else mret ()) ;;
  credential ← on_db (from_result (map_err (λ _, SyouyuProviderUnavailable) (syouyu_credential_response service (issued_credential issued))));
  mret (credential, issued).

Definition revoke_syouyu_credential (r : Request) (org : OrganizationId) (service : ServiceInstanceId) (credential : Uuid) : storage () :=
  request ← on_db (actor ← authenticated_actor_mutation config r;
                   key ← from_result (required_syouyu_idempotency_key r);
                   t ← authorized_syouyu_provider actor org service "syouyu:RevokeCredential"
                         (syouyu_credential_resource org service credential);
                   mret (key, t));
  let '(key, t) := request in
  on_wire (revoke_bucket_credential (target_proxy t) (target_context t "syouyu.credential.revoke") credential key).

End Handlers.
