(* ===== verification/Lifecycle.v ===== *)
(** * Abstract transitions of service instances

    The specification of the transactions of [Services] as a small set of
    transitions on services, outbox and quota owners, and the theorem that
    every transaction the API runs is one of them. *)
From S2P Require Import Prelude Text Json Net Policy Quota Specs Flash Store Usage Provider Prepare Services.

(** ** Inversion of transactions *)

Lemma tx_bind_ok {A B} (m : tx A) (f : A → tx B) db b db'' :
  (m ≫= f) db = Ok (b, db'') ↔ ∃ a db', m db = Ok (a, db') ∧ f a db' = Ok (b, db'').
Proof.
  unfold mbind, tx_bind. destruct (m db) as [[a db']|e].
  - split; [eauto | by intros (? & ? & [= <- <-] & ?)].
  - split; [done | by intros (? & ? & ? & ?)].
Qed.

Lemma query_ok {A} (f : Db → A) db a db' : query f db = Ok (a, db') ↔ a = f db ∧ db' = db.
Proof. unfold query. naive_solver. Qed.

Lemma statement_ok f db u db' : statement f db = Ok (u, db') ↔ db' = f db.
Proof. unfold statement. destruct u. naive_solver. Qed.

Lemma lift_ok {A} (m : result StoreError A) db a db' :
  lift m db = Ok (a, db') ↔ m = Ok a ∧ db' = db.
Proof. unfold lift. destruct m; naive_solver. Qed.

Lemma read_ok {A} (f : Db → result StoreError A) db a db' :
  read f db = Ok (a, db') ↔ f db = Ok a ∧ db' = db.
Proof. unfold read. destruct (f db); naive_solver. Qed.

Lemma mret_ok {A} (x : A) db a db' : (mret x : tx A) db = Ok (a, db') ↔ a = x ∧ db' = db.
Proof. unfold mret, tx_ret. naive_solver. Qed.

Lemma tx_fail_if_ok b e db u db' : tx_fail_if b e db = Ok (u, db') ↔ b = false ∧ db' = db.
Proof. unfold tx_fail_if. by rewrite lift_ok, fail_if_ok. Qed.

Lemma now_v7_ok db u db' : now_v7 db = Ok (u, db') ↔ u = next_uuid db ∧ db' = set_next_uuid (N.succ (next_uuid db)) db.
Proof. unfold now_v7. naive_solver. Qed.

Lemma require_ok p db u db' : require p db = Ok (u, db') ↔ p db = true ∧ db' = db.
Proof.
  unfold require. rewrite tx_bind_ok. setoid_rewrite query_ok. setoid_rewrite tx_fail_if_ok.
  setoid_rewrite negb_false_iff. naive_solver.
Qed.

Lemma optional_query_ok {A} (f : Db → option A) e db a db' :
  optional e (query f) db = Ok (a, db') ↔ f db = Some a ∧ db' = db.
Proof.
  unfold optional. rewrite tx_bind_ok. setoid_rewrite query_ok. setoid_rewrite lift_ok.
  setoid_rewrite ok_or_ok. naive_solver.
Qed.

(** Take a successful transaction apart, step by step. *)
Ltac tx_step H :=
  lazymatch type of H with
  | mbind _ _ _ = Ok _ =>
      apply tx_bind_ok in H;
      let a := fresh "x" in let d := fresh "db" in let H1 := fresh "Hs" in
      destruct H as (a & d & H1 & H); tx_step H1
  | query _ _ = _ => apply query_ok in H; destruct H as [? ->]
  | statement _ _ = _ => apply statement_ok in H; subst
  | lift _ _ = _ => apply lift_ok in H; destruct H as [? ->]
  | read _ _ = _ => apply read_ok in H; destruct H as [? ->]
  | tx_fail_if _ _ _ = _ => apply tx_fail_if_ok in H; destruct H as [? ->]
  | mret _ _ = _ => apply mret_ok in H; destruct H as [? ->]
  | _ => idtac
  end.
Ltac tx_inv H := repeat (progress (tx_step H)).

(** ** Transitions *)

Definition desired_topic (s : ServiceState) : string :=
  if bool_decide (s = Deleting) then "service-instance.delete" else "service-instance.reconcile".

(** The event [e] asks for the current generation of row [r] of service [id]. *)
Record event_for (t : string) (id : ServiceInstanceId) (r : ServiceRow) (e : OutboxRow) : Prop := {
  event_for_topic : topic e = t;
  event_for_aggregate : aggregate_id e = id;
  event_for_payload : ∃ p, payload e = ReconcileBody p ∧ service_instance_id p = id ∧
    payload_organization_id p = organization_id r ∧ payload_project_id p = project_id r ∧
    payload_provider p = provider r ∧ payload_generation p = generation r;
}.

(** An event about an existing service at its current generation, without a
    change of the service. *)
Record side_event (services : gmap Uuid ServiceRow) (e : OutboxRow) : Prop := {
  side_topic : topic e = "service-instance.reconcile" ∨ topic e = "service-instance.flash-quota";
  side_payload : ∃ p r, payload e = ReconcileBody p ∧ services !! service_instance_id p = Some r ∧
    aggregate_id e = service_instance_id p ∧ state r ≠ Deleting ∧ payload_generation p = generation r;
}.

(** The account has members with limits of their own. *)
Definition limited (org : OrganizationId) (db : Db) : Prop :=
  ∃ user, is_Some (member_resource_quotas db !! (org, user)).

(** No member gets a limit. *)
Definition limits_kept (db db' : Db) : Prop :=
  ∀ k, is_Some (member_resource_quotas db' !! k) → is_Some (member_resource_quotas db !! k).

#[export] Hint Extern 0 (limits_kept _ _) => (let k := fresh in intros k; exact (λ x, x)) : core.

(** The service consumes what members are given limits of. *)
Definition consumes (r : ServiceRow) : Prop := state r ≠ Deleting ∧ metered (provider r) = true.

Inductive transition (db db' : Db) : Prop :=
| tr_same :
    service_instances db' = service_instances db → outbox_events db' = outbox_events db →
    service_quota_owners db' = service_quota_owners db → limits_kept db db' → transition db db'
| tr_create id r eid e :
    service_instances db !! id = None → service_quota_owners db !! id = None →
    generation r = 1 → state r = Provisioning → status r = Object [] →
    (consumes r → quota_user_id r = None → ¬ limited (organization_id r) db) →
    outbox_events db !! eid = None → delivered_at e = None →
    event_for (desired_topic (state r)) id r e →
    service_instances db' = <[id := r]> (service_instances db) →
    outbox_events db' = <[eid := e]> (outbox_events db) →
    service_quota_owners db' = <[id := (organization_id r, quota_user_id r)]> (service_quota_owners db) →
    limits_kept db db' → transition db db'
| tr_change id r r' eid e :
    service_instances db !! id = Some r → state r ≠ Deleting →
    organization_id r' = organization_id r → provider r' = provider r →
    quota_user_id r' = quota_user_id r →
    generation r' = generation r + 1 → status r' = Object [] →
    state r' = Updating ∨ state r' = Deleting →
    outbox_events db !! eid = None → delivered_at e = None →
    event_for (desired_topic (state r')) id r' e →
    service_instances db' = <[id := r']> (service_instances db) →
    outbox_events db' = <[eid := e]> (outbox_events db) →
    service_quota_owners db' = service_quota_owners db → limits_kept db db' → transition db db'
| tr_observe id r s v :
    service_instances db !! id = Some r → state r ≠ Deleting → s ≠ Deleting →
    v ≠ Object [] →
    service_instances db' = <[id := set_reported s v r]> (service_instances db) →
    outbox_events db' = outbox_events db →
    service_quota_owners db' = service_quota_owners db → limits_kept db db' → transition db db'
| tr_assign id r user :
    service_instances db !! id = Some r → state r ≠ Deleting → quota_user_id r = None →
    service_instances db' = <[id := set_quota_user user r]> (service_instances db) →
    outbox_events db' = outbox_events db →
    service_quota_owners db' = alter (assign_owner (organization_id r) user) id (service_quota_owners db) →
    limits_kept db db' → transition db db'
| tr_limit org user :
    (∀ id r, service_instances db !! id = Some r → organization_id r = org → consumes r →
       is_Some (quota_user_id r)) →
    service_instances db' = service_instances db → outbox_events db' = outbox_events db →
    service_quota_owners db' = service_quota_owners db →
    (∀ k, k ≠ (org, user) → is_Some (member_resource_quotas db' !! k) →
       is_Some (member_resource_quotas db !! k)) → transition db db'
| tr_event eid e :
    outbox_events db !! eid = None → side_event (service_instances db) e →
    service_instances db' = service_instances db →
    outbox_events db' = <[eid := e]> (outbox_events db) →
    service_quota_owners db' = service_quota_owners db → limits_kept db db' → transition db db'
| tr_revocation eid e p :
    outbox_events db !! eid = None → topic e = PRINCIPAL_CONTEXT_REVOKE_ACTION →
    payload e = RevocationBody p → delivered_at e = None →
    service_instances db' = service_instances db →
    outbox_events db' = <[eid := e]> (outbox_events db) →
    service_quota_owners db' = service_quota_owners db → limits_kept db db' → transition db db'.

(** Two databases that agree on what the transitions talk about. *)
Record agrees (a b : Db) : Prop := {
  agrees_services : service_instances b = service_instances a;
  agrees_outbox : outbox_events b = outbox_events a;
  agrees_owners : service_quota_owners b = service_quota_owners a;
  agrees_limits : limits_kept a b;
}.

Lemma agrees_refl db : agrees db db.
Proof. done. Qed.

Lemma limits_kept_trans a b c : limits_kept a b → limits_kept b c → limits_kept a c.
Proof. unfold limits_kept. eauto. Qed.

Lemma limited_kept a b org : limits_kept a b → limited org b → limited org a.
Proof. intros Hk [user Hl]. exists user. by apply Hk. Qed.

Lemma agrees_trans a b c : agrees a b → agrees b c → agrees a c.
Proof. intros [? ? ? Hl] [? ? ? Hl']. constructor; [congruence..|]. by eapply limits_kept_trans. Qed.

#[export] Instance agrees_preorder : PreOrder agrees.
Proof. split; [intros db; apply agrees_refl | intros a b c; apply agrees_trans]. Qed.

Lemma transition_agrees_r a b c : transition a b → agrees b c → transition a c.
Proof.
  intros Ht [Hs Ho Hq Hl].
  destruct Ht; try match goal with Hk : limits_kept a b |- _ => pose proof (limits_kept_trans _ _ _ Hk Hl) end.
  - eapply tr_same; rewrite ?Hs, ?Ho, ?Hq; eauto.
  - eapply tr_create; rewrite ?Hs, ?Ho, ?Hq; eauto.
  - eapply tr_change; rewrite ?Hs, ?Ho, ?Hq; eauto.
  - eapply tr_observe; rewrite ?Hs, ?Ho, ?Hq; eauto.
  - eapply tr_assign; rewrite ?Hs, ?Ho, ?Hq; eauto.
  - eapply tr_limit; rewrite ?Hs, ?Ho, ?Hq; eauto.
  - eapply tr_event; rewrite ?Hs, ?Ho, ?Hq; eauto.
  - eapply tr_revocation; rewrite ?Hs, ?Ho, ?Hq; eauto.
Qed.

(** ** Frames

    [keeps R t]: whatever the transaction [t] does, the databases before and
    after are related by [R].  The database [keeps] compose along the monad, so
    that a frame of a long transaction is the frame of its statements. *)

Definition keeps {A} (R : relation Db) (t : tx A) : Prop := ∀ db a db', t db = Ok (a, db') → R db db'.

Section Keeps.
Context (R : relation Db) `{!PreOrder R}.

Lemma keeps_bind {A B} (t : tx A) (f : A → tx B) :
  keeps R t → (∀ a, keeps R (f a)) → keeps R (t ≫= f).
Proof. intros Ht Hf db b db'. rewrite tx_bind_ok. intros (a & db1 & H1 & H2). etrans; [by eapply Ht | by eapply Hf]. Qed.

Lemma keeps_query {A} (f : Db → A) : keeps R (query f).
Proof. by intros db a db' [_ ->]%query_ok. Qed.

Lemma keeps_mret {A} (a : A) : keeps R (mret a).
Proof. by intros db b db' [_ ->]%mret_ok. Qed.

Lemma keeps_lift {A} (m : result StoreError A) : keeps R (lift m).
Proof. by intros db a db' [_ ->]%lift_ok. Qed.

Lemma keeps_read {A} (f : Db → result StoreError A) : keeps R (read f).
Proof. by intros db a db' [_ ->]%read_ok. Qed.

Lemma keeps_fail_if b e : keeps R (tx_fail_if b e).
Proof. by intros db a db' [_ ->]%tx_fail_if_ok. Qed.

Lemma keeps_require p : keeps R (require p).
Proof. by intros db a db' [_ ->]%require_ok. Qed.

Lemma keeps_optional {A} e (t : tx (option A)) : keeps R t → keeps R (optional e t).
Proof. intros Ht. apply keeps_bind; [done | intros o; apply keeps_lift]. Qed.

Lemma keeps_statement f : (∀ db, R db (f db)) → keeps R (statement f).
Proof. intros Hf db a db' ->%statement_ok. apply Hf. Qed.

Lemma keeps_now_v7 : (∀ db, R db (set_next_uuid (N.succ (next_uuid db)) db)) → keeps R now_v7.
Proof. intros Hu db a db' [_ ->]%now_v7_ok. apply Hu. Qed.

Lemma keeps_if {A} (b : bool) (t t' : tx A) : keeps R t → keeps R t' → keeps R (if b then t else t').
Proof. by destruct b. Qed.

End Keeps.

(** Split the frame of a transaction into those of its statements. *)
Ltac frame_step :=
  lazymatch goal with
  | |- keeps _ (mbind _ _) => apply keeps_bind; [apply _ | | intros ?]
  | |- keeps _ (query _) => apply keeps_query; apply _
  | |- keeps _ (mret _) => apply keeps_mret; apply _
  | |- keeps _ (lift _) => apply keeps_lift; apply _
  | |- keeps _ (read _) => apply keeps_read; apply _
  | |- keeps _ (tx_fail_if _ _) => apply keeps_fail_if; apply _
  | |- keeps _ (require _) => apply keeps_require; apply _
  | |- keeps _ (optional _ _) => apply keeps_optional; [apply _|]
  | |- keeps _ (find_service _ _) => apply keeps_query; apply _
  | |- keeps _ (statement _) => apply keeps_statement; intros ?
  | |- keeps _ now_v7 => apply keeps_now_v7; intros ?
  | |- keeps _ (if _ then _ else _) => apply keeps_if
  | |- keeps _ (match ?x with _ => _ end) => destruct x
  | |- keeps _ (let _ := _ in _) => cbv zeta
  end.
Ltac frame := repeat frame_step.

(** The function a term applies. *)
Ltac head_of t := lazymatch t with ?f _ => head_of f | _ => t end.

(** ** The statements the transactions are made of *)

Lemma insert_event_ok t id b db u db' :
  insert_event t id b db = Ok (u, db') →
  ∃ eid e, outbox_events db !! eid = None ∧
    topic e = t ∧ aggregate_id e = id ∧ payload e = b ∧ delivered_at e = None ∧
    outbox_events db' = <[eid := e]> (outbox_events db) ∧
    service_instances db' = service_instances db ∧
    service_quota_owners db' = service_quota_owners db ∧ limits_kept db db'.
Proof.
  unfold insert_event, now_v7. rewrite tx_bind_ok. intros (eid & db1 & [= <- <-] & H).
  tx_inv H. subst. simpl in *.
  exists (next_uuid db), (Build_OutboxRow t id b 0 (now db) None None (now db)).
  split_and!; try done. by destruct (outbox_events db !! next_uuid db).
Qed.

Lemma insert_outbox_ok t id b db u db' :
  insert_outbox t id b db = Ok (u, db') →
  ∃ eid e, outbox_events db !! eid = None ∧
    topic e = t ∧ aggregate_id e = id ∧ payload e = ReconcileBody b ∧ delivered_at e = None ∧
    outbox_events db' = <[eid := e]> (outbox_events db) ∧
    service_instances db' = service_instances db ∧
    service_quota_owners db' = service_quota_owners db ∧ limits_kept db db'.
Proof. apply insert_event_ok. Qed.

(** What is done to the tables of Flash only: everything else stays. *)
Definition flash_frame (db db' : Db) : Prop :=
  ∃ f n, db' = set_next_uuid n (set_flash f db) ∧ (next_uuid db ≤ n)%N.

#[export] Instance flash_frame_preorder : PreOrder flash_frame.
Proof.
  split.
  - intros db. exists (flash db), (next_uuid db). split; [by destruct db | done].
  - intros a b c (f & n & -> & Hn) (f' & n' & -> & Hn'). exists f', n'. simpl in *. split; [done | lia].
Qed.

Lemma flash_frame_agrees db db' : flash_frame db db' → agrees db db'.
Proof. by intros (f & n & -> & _). Qed.

Lemma set_flash_frame f db : flash_frame db (set_flash f db).
Proof. exists f, (next_uuid db). by destruct db. Qed.

Lemma next_uuid_frame db : flash_frame db (set_next_uuid (N.succ (next_uuid db)) db).
Proof. exists (flash db), (N.succ (next_uuid db)). split; [by destruct db | lia]. Qed.

(** Frames of operations on the tables of Flash only. *)
Ltac flash_frame :=
  frame; try (apply set_flash_frame || apply next_uuid_frame).

Lemma on_flash_frame f : keeps flash_frame (on_flash f).
Proof. unfold on_flash. flash_frame. Qed.

Lemma capture_revision_frame `{SqlCast} id r : keeps flash_frame (capture_flash_revision id r).
Proof. unfold capture_flash_revision. flash_frame. Qed.

Lemma upsert_notice_frame refresh i code severity message :
  keeps flash_frame (upsert_notice refresh i code severity message).
Proof. unfold upsert_notice. flash_frame; apply on_flash_frame. Qed.

Lemma record_diagnostics_frame i l : keeps flash_frame (record_diagnostics i l).
Proof.
  induction l as [|[[code severity] message] l IH]; simpl; flash_frame; [apply upsert_notice_frame | apply IH].
Qed.

Lemma put_service_ok `{SqlCast} id r db u db' :
  put_service id r db = Ok (u, db') → flash_frame (set_services (<[id := r]> (service_instances db)) db) db'.
Proof. unfold put_service. intros Hrun. tx_inv Hrun. subst. by eapply capture_revision_frame. Qed.

(** Writing a row fails only if the report of a Flash service is not readable. *)
Lemma put_service_total `{SqlCast} id r db :
  is_ok (revision_healthy r) = true ∨ provider r ≠ "flash" →
  ∃ f, put_service id r db =
    Ok ((), set_flash f (set_services (<[id := r]> (service_instances db)) db)).
Proof.
  intros Hread. unfold put_service, capture_flash_revision, mbind, tx_bind, statement, lift, has_provider. simpl.
  destruct (String.eqb_spec (provider r) "flash") as [Hp|_].
  - destruct Hread as [Hread|Hno]; [|done]. destruct (revision_healthy r); [|done]. by eexists.
  - by exists (flash db).
Qed.

Lemma write_service_ok `{SqlCast} id r db u db' :
  write_service id r db = Ok (u, db') →
  service_instances db' = <[id := r]> (service_instances db) ∧
  outbox_events db' = outbox_events db ∧ service_quota_owners db' = service_quota_owners db ∧ limits_kept db db'.
Proof.
  unfold write_service. intros Hrun. tx_inv Hrun. subst.
  by apply put_service_ok, flash_frame_agrees in Hrun as [-> -> -> Hl].
Qed.

Lemma revoke_workload_tokens_ok id db u db' :
  revoke_workload_tokens id db = Ok (u, db') → agrees db db'.
Proof. unfold revoke_workload_tokens. intros H. tx_inv H. done. Qed.

Section Refinement.
Context `{LimitsDecoder, Serde FlowSpec, Serde FlashSpec, Serde SyouyuSpec, Serde VpcSpec}.
Context `{IpNetLib, UrlLib, JsonText, UuidText, SqlCast}.

Lemma replace_gpu_request_ok id org principal v db u db' :
  replace_flash_gpu_service_request id org principal v db = Ok (u, db') → agrees db db'.
Proof.
  unfold replace_flash_gpu_service_request. intros H'. tx_inv H'.
  destruct (gpu_type x); tx_inv H'; done.
Qed.

Lemma optional_ok {A} e (m : tx (option A)) db a db' :
  optional e m db = Ok (a, db') ↔ m db = Ok (Some a, db').
Proof.
  unfold optional. rewrite tx_bind_ok. setoid_rewrite lift_ok. setoid_rewrite ok_or_ok. naive_solver.
Qed.

Lemma find_service_ok id p db o db' :
  find_service id p db = Ok (o, db') ↔
  db' = db ∧ o = (r ← service_instances db !! id; if p r then Some r else None).
Proof. unfold find_service. rewrite query_ok. tauto. Qed.

Lemma find_service_some id p db r db' :
  find_service id p db = Ok (Some r, db') →
  db' = db ∧ service_instances db !! id = Some r ∧ p r = true.
Proof.
  rewrite find_service_ok. intros [-> Hr]. destruct (service_instances db !! id) as [r'|]; [|done].
  simpl in Hr. destruct (p r') eqn:E; naive_solver.
Qed.

Lemma charge_to_ok org principal prov user db u db' :
  charge_to org principal prov user db = Ok (u, db') →
  db' = db ∧ (u = None → metered prov = true → ¬ limited org db).
Proof.
  unfold charge_to. rewrite tx_bind_ok. intros (p & db1 & Hp%optional_ok & H').
  apply query_ok in Hp as [_ ->]. tx_inv H'. subst.
  destruct (default _ _); tx_inv Hs; subst; [done|]. split; [done|]. intros _ Hm [u [q Hq]].
  match goal with Hf : _ && _ = false |- _ => rewrite Hm in Hf; simpl in Hf; apply not_true_iff_false in Hf; apply Hf end.
  apply existsb_exists. exists ((org, u), q). split; [|by apply bool_decide_true].
  by apply list_elem_of_In, elem_of_map_to_list.
Qed.

Lemma insert_quota_owner_ok id org user db u db' :
  insert_quota_owner id org user db = Ok (u, db') →
  service_quota_owners db !! id = None ∧
  service_quota_owners db' = <[id := (org, user)]> (service_quota_owners db) ∧
  service_instances db' = service_instances db ∧ outbox_events db' = outbox_events db ∧ limits_kept db db'.
Proof.
  unfold insert_quota_owner. intros H'. tx_inv H'. subst. split_and!; try done.
  by destruct (service_quota_owners db !! id).
Qed.

Lemma next_generation_ok r g : next_generation r = Ok g → g = generation r + 1.
Proof.
  unfold next_generation, i64_checked_add. rewrite ok_or_ok. destruct (in_range _ _ _); naive_solver.
Qed.

Lemma when_agrees (b : bool) (m : tx ()) db u db' :
  (∀ db u db', m db = Ok (u, db') → agrees db db') →
  (if b then m else mret ()) db = Ok (u, db') → agrees db db'.
Proof. intros Hm. destruct b; [apply Hm|]. intros [_ ->]%mret_ok. done. Qed.

Lemma read_agrees {A} (f : Db → result StoreError A) db a db' :
  read f db = Ok (a, db') → agrees db db'.
Proof. by intros [_ ->]%read_ok. Qed.

(** A change of the desired state: write the row, adjust what hangs on it,
    and leave the event. *)
Lemma change_transition db0 db db1 db2 db3 id r r' t body u1 u3 :
  agrees db0 db → service_instances db0 !! id = Some r → state r ≠ Deleting →
  organization_id r' = organization_id r → provider r' = provider r → quota_user_id r' = quota_user_id r →
  generation r' = generation r + 1 → status r' = Object [] →
  state r' = Updating ∨ state r' = Deleting → t = desired_topic (state r') →
  body = event_body id (organization_id r') (project_id r') (principal_id body) (provider r')
           (generation r') →
  write_service id r' db = Ok (u1, db1) → agrees db1 db2 →
  insert_outbox t id body db2 = Ok (u3, db3) → transition db0 db3.
Proof.
  intros Ha Hr Hdel Horg Hprov Huser Hg Hst Hstate -> Hbody Hw [As Ao Aq Al] Hi.
  apply write_service_ok in Hw as (Ws & Wo & Wq & Wl).
  apply insert_outbox_ok in Hi as (eid & e & Hfree & Ht & Hagg & Hpay & Hdeliv & Io & Is & Iq & Il).
  destruct Ha as [Hs Ho Hq Hl].
  apply (tr_change db0 db3 id r r' eid e); try done; try congruence; [|eauto using limits_kept_trans].
  constructor; [done | done|]. exists body. rewrite Hbody. simpl. split_and!; try done.
  rewrite Hpay. congruence.
Qed.

Lemma create_refines org project principal prov new_name v id user db i db' :
  create_service_instance_with_id_for_user org project principal prov new_name v id user db
  = Ok (i, db') → transition db db'.
Proof.
  unfold create_service_instance_with_id_for_user. rewrite tx_bind_ok.
  intros (existing & db1 & [-> Hex]%find_service_ok & H').
  destruct existing as [r|]; [tx_inv H'; by apply tr_same|].
  assert (Hnone : service_instances db !! id = None) by (revert Hex; by destruct (service_instances db !! id)).
  rewrite tx_bind_ok in H'. destruct H' as (u & db1 & [-> Hcharge]%charge_to_ok & H').
  tx_inv H'. subst.
  apply when_agrees in Hs as [As Ao Aq Al]; [|intros ???; apply read_agrees].
  apply write_service_ok in Hs0 as (Ws & Wo & Wq & Wl).
  apply insert_quota_owner_ok in Hs1 as (Qn & Qq & Qs & Qo & Ql).
  apply when_agrees in Hs2 as [Gs Go Gq Gl]; [|intros ???; apply replace_gpu_request_ok].
  apply insert_outbox_ok in Hs3 as (eid & e & Hfree & Ht & Hagg & Hpay & Hdeliv & Io & Is & Iq & Il).
  apply (tr_create db db4 id (Build_ServiceRow org project prov new_name 1 Provisioning x1
    (Object []) u) eid e); simpl; try done; try congruence.
  - intros [_ Hm] Hu. by apply Hcharge.
  - constructor; [done | done|]. eexists. split; [exact Hpay|]. done.
  - eauto 8 using limits_kept_trans.
Qed.

(** The row is deleted from the point of view of the API. *)
Lemma deleting_guard r : negb (not_deleting r) = false → state r ≠ Deleting.
Proof. unfold not_deleting. by rewrite negb_involutive, bool_decide_false_iff. Qed.

Lemma update_refines org id prov principal project new_name v g db i db' :
  update_service_instance_checked org id prov principal project new_name v g db = Ok (i, db') →
  transition db db'.
Proof.
  unfold update_service_instance_checked. intros H'. tx_inv H'. subst.
  match goal with Hf : optional _ _ _ = _ |- _ =>
    apply optional_ok, find_service_some in Hf as (-> & Hr & Hp) end.
  apply andb_true_iff in Hp as [Horg Hprov].
  apply bool_decide_true_iff in Horg. apply String.eqb_eq in Hprov.
  match goal with Hd : negb (not_deleting _) = false |- _ => apply deleting_guard in Hd end.
  match goal with Hg : next_generation _ = Ok _ |- _ => apply next_generation_ok in Hg end.
  match goal with Hv : (if _ then mbind _ _ else mret ()) _ = Ok (_, ?d) |- _ =>
    apply when_agrees in Hv as Av; [|intros ??? Hx; by tx_inv Hx] end.
  match goal with Hv : (if _ then revoke_workload_tokens _ else mret ()) _ = _ |- _ =>
    apply when_agrees in Hv as At; [|intros ???; apply revoke_workload_tokens_ok] end.
  match goal with Hv : (if _ then replace_flash_gpu_service_request _ _ _ _ else mret ()) _ = _ |- _ =>
    apply when_agrees in Hv as Ag; [|intros ???; apply replace_gpu_request_ok] end.
  pose proof (agrees_trans _ _ _ Av At) as Aa.
  eapply change_transition; try eassumption; try done; [by left|].
  unfold set_desired. simpl. congruence.
Qed.

Lemma stopped_refines org id principal stop db i db' :
  set_flash_service_stopped org id principal stop db = Ok (i, db') → transition db db'.
Proof.
  unfold set_flash_service_stopped. intros H'. tx_inv H'. subst.
  match goal with Hf : optional _ _ _ = _ |- _ =>
    apply optional_ok, find_service_some in Hf as (-> & Hr & Hp) end.
  apply andb_true_iff in Hp as [Horg Hprov].
  apply bool_decide_true_iff in Horg. apply String.eqb_eq in Hprov.
  match goal with Hd : negb (not_deleting _) = false |- _ => apply deleting_guard in Hd end.
  match type of H' with (if ?b then _ else _) _ = _ => destruct b end; [tx_inv H'; by apply tr_same|].
  tx_inv H'. subst.
  match goal with Hg : next_generation _ = Ok _ |- _ => apply next_generation_ok in Hg end.
  match goal with Hv : (if stop then revoke_workload_tokens _ else mret ()) _ = _ |- _ =>
    apply when_agrees in Hv as At; [|intros ???; apply revoke_workload_tokens_ok] end.
  match goal with Hv : (if stop then mret () else replace_flash_gpu_service_request _ _ _ _) ?d = Ok (_, ?d') |- _ =>
    assert (Ag : agrees d d') by
      (destruct stop; [by tx_inv Hv | by apply replace_gpu_request_ok in Hv]) end.
  match goal with Hv : (if stop then mret _ else mbind _ _) ?d = Ok (_, ?d') |- _ =>
    assert (Av : agrees d d') by (destruct stop; tx_inv Hv; subst; done) end.
  pose proof (agrees_trans _ _ _ Av At) as Aa.
  eapply change_transition; try eassumption; try done; [by left|].
  unfold set_desired. simpl. congruence.
Qed.

Lemma delete_refines org id prov principal db i db' :
  begin_delete_service_instance org id prov principal db = Ok (i, db') → transition db db'.
Proof.
  unfold begin_delete_service_instance. intros H'. tx_inv H'. subst.
  match goal with Hf : optional _ _ _ = _ |- _ =>
    apply optional_ok, find_service_some in Hf as (-> & Hr & Hp) end.
  apply andb_true_iff in Hp as [Horg Hprov].
  apply bool_decide_true_iff in Horg. apply String.eqb_eq in Hprov.
  match type of H' with (if ?b then _ else _) _ = _ => destruct b eqn:Hd end;
    [tx_inv H'; by apply tr_same|]. apply deleting_guard in Hd.
  tx_inv H'. subst.
  match goal with Hg : next_generation _ = Ok _ |- _ => apply next_generation_ok in Hg end.
  eapply change_transition; try eassumption; try done. by right.
Qed.

End Refinement.

Lemma report_row_some id prov g db r :
  report_row id prov g db = Some r ↔
  service_instances db !! id = Some r ∧ generation r = g ∧ provider r = prov.
Proof.
  unfold report_row, has_provider. destruct (service_instances db !! id) as [r'|]; simpl; [|naive_solver].
  destruct ((generation r' =? g) && String.eqb (provider r') prov) eqn:E.
  - apply andb_true_iff in E as [E1%Z.eqb_eq E2%String.eqb_eq]. naive_solver.
  - split; [done|]. intros ([= ->] & <- & <-). by rewrite Z.eqb_refl, String.eqb_refl in E.
Qed.

Lemma observation_refines `{SqlCast} i v db u db' :
  record_flash_observation i v db = Ok (u, db') → transition db db'.
Proof.
  unfold record_flash_observation. destruct (negb _); [intros Hrun; tx_inv Hrun; by apply tr_same|].
  rewrite tx_bind_ok. intros (found & d & [= <- <-] & Hrun).
  destruct (report_row _ _ _ _) as [r|] eqn:Hr; simpl in Hrun; [|tx_inv Hrun; by apply tr_same].
  destruct (in_org _ r && not_deleting r) eqn:Hd; [|tx_inv Hrun; by apply tr_same].
  apply report_row_some in Hr as (Hr & _). apply andb_true_iff in Hd as [_ Hd].
  rewrite tx_bind_ok in Hrun. destruct Hrun as (? & d1 & Hp%put_service_ok%flash_frame_agrees & Hrun).
  rewrite tx_bind_ok in Hrun. destruct Hrun as (? & d2 & Ha & Hrun).
  apply when_agrees in Ha; [|by intros ??? Hk%on_flash_frame%flash_frame_agrees].
  rewrite tx_bind_ok in Hrun. destruct Hrun as (? & d3 & Hn%record_diagnostics_frame%flash_frame_agrees & Hrun).
  apply on_flash_frame, flash_frame_agrees in Hrun.
  do 4 (eapply transition_agrees_r; [|eassumption]).
  apply (tr_observe db _ (instance_id i) r (observed_state v) (Object [("status", v)])); try done.
  - unfold not_deleting in Hd. by apply negb_true_iff, bool_decide_false_iff in Hd.
  - unfold observed_state. by repeat case_match.
Qed.

(** Several events are several transitions. *)
Lemma enqueue_events_refines t principal_of rows db n db' :
  t = "service-instance.reconcile" ∨ t = "service-instance.flash-quota" →
  (∀ id r, (id, r) ∈ rows → service_instances db !! id = Some r ∧ state r ≠ Deleting) →
  enqueue_events t principal_of rows db = Ok (n, db') → rtc transition db db'.
Proof.
  intros Ht. revert db n. induction rows as [|[id r] rows IH]; intros db n Hrows; simpl.
  - intros [_ ->]%mret_ok. done.
  - destruct (principal_of id r) as [p|]; [|apply IH; intros; apply Hrows; by right].
    rewrite tx_bind_ok. intros (u & db1 & Hi & H'). tx_inv H'. subst.
    apply insert_outbox_ok in Hi as (eid & e & Hfree & Het & Hagg & Hpay & _ & Io & Is & Iq & Il).
    destruct (Hrows id r) as [Hr Hd]; [by left|].
    eapply rtc_l.
    + apply (tr_event db db1 eid e); try done. constructor; [by rewrite Het|].
      eexists _, r. split; [exact Hpay|]. simpl. split_and!; try done.
    + eapply IH; [|eassumption]. rewrite Is. intros. apply Hrows. by right.
Qed.

Lemma elem_of_order_by_id {A} (e : Uuid * A) l : e ∈ order_by_id l ↔ e ∈ l.
Proof.
  unfold order_by_id. induction l as [|a l IH]; simpl; [done|].
  assert (Hins : ∀ k, e ∈ insert_row a k ↔ e = a ∨ e ∈ k).
  { intros k. induction k as [|b k IHk]; simpl; [set_solver|].
    destruct (fst a <? fst b)%N; [set_solver|]. rewrite elem_of_cons, IHk, elem_of_cons. tauto. }
  rewrite Hins, IH, elem_of_cons. done.
Qed.

Lemma selected_not_deleting p db id r :
  (∀ id r, p id r = true → not_deleting r = true) →
  (id, r) ∈ order_by_id (select_services p db) →
  service_instances db !! id = Some r ∧ state r ≠ Deleting.
Proof.
  intros Hp Hin. rewrite elem_of_order_by_id in Hin. unfold select_services in Hin.
  rewrite list_elem_of_filter, elem_of_map_to_list in Hin. simpl in Hin.
  destruct Hin as [Hin Hr]. split; [done|]. apply Hp in Hin. unfold not_deleting in Hin.
  by apply negb_true_iff, bool_decide_false_iff in Hin.
Qed.

Lemma quota_events_refine org db n db' :
  enqueue_flash_quota_reconcile_tx org db = Ok (n, db') → rtc transition db db'.
Proof.
  unfold enqueue_flash_quota_reconcile_tx. intros Hrun.
  eapply enqueue_events_refines; [by right | | exact Hrun].
  intros id r Hin. eapply selected_not_deleting; [|exact Hin].
  intros ?? Hp. rewrite !andb_true_iff in Hp. tauto.
Qed.

Lemma gpu_events_refine types db n db' :
  enqueue_flash_gpu_reconciles types db = Ok (n, db') → rtc transition db db'.
Proof.
  unfold enqueue_flash_gpu_reconciles. destruct (is_nil types); [by intros [= _ <-]|]. intros Hrun.
  eapply enqueue_events_refines; [by left | | exact Hrun].
  intros id r Hin. eapply selected_not_deleting; [|exact Hin].
  intros ?? Hp. rewrite !andb_true_iff in Hp. tauto.
Qed.

Lemma agrees_transition a b : agrees a b → transition a b.
Proof. intros []. by apply tr_same. Qed.

Lemma agrees_refines {A} (t : tx A) : keeps agrees t → keeps (rtc transition) t.
Proof. intros Ht db x db' Hr. by eapply rtc_once, agrees_transition, Ht. Qed.

Lemma rtc_agrees_l a b c : agrees a b → rtc transition b c → rtc transition a c.
Proof. intros Ha Hr. eapply rtc_l; [by apply agrees_transition | done]. Qed.

Lemma fold_quota_events_refine accounts db u db' :
  foldr (λ account rest, _ ← enqueue_flash_quota_reconcile_tx (Some account); rest) (mret ())
    accounts db = Ok (u, db') → rtc transition db db'.
Proof.
  revert db. induction accounts as [|a accounts IH]; intros db; simpl.
  - by intros [_ ->]%mret_ok.
  - rewrite tx_bind_ok. intros (n & d1 & Hq & Hf).
    etrans; [by eapply quota_events_refine | by eapply IH].
Qed.

Lemma set_quotas_agrees d o db : agrees db (set_quotas d o (member_resource_quotas db) db).
Proof. done. Qed.

Lemma organization_quotas_refine account db u db' :
  enqueue_organization_flash_quotas_tx account db = Ok (u, db') → rtc transition db db'.
Proof.
  unfold enqueue_organization_flash_quotas_tx. intros H'. tx_inv H'. subst.
  by eapply fold_quota_events_refine.
Qed.

Lemma quota_change_refines `{LimitsDecoder} org limits db l db' :
  set_organization_resource_quota org limits db = Ok (l, db') → rtc transition db db'.
Proof.
  unfold set_organization_resource_quota. intros H'. tx_inv H'. subst.
  eapply rtc_agrees_l; [apply set_quotas_agrees | by eapply organization_quotas_refine].
Qed.

Lemma quota_clear_refines `{LimitsDecoder} org db l db' :
  clear_organization_resource_quota org db = Ok (l, db') → rtc transition db db'.
Proof.
  unfold clear_organization_resource_quota. intros H'. tx_inv H'. subst.
  eapply rtc_agrees_l; [apply set_quotas_agrees | by eapply organization_quotas_refine].
Qed.

Lemma default_change_refines `{LimitsDecoder} limits db l db' :
  update_resource_quota_defaults limits db = Ok (l, db') → rtc transition db db'.
Proof.
  unfold update_resource_quota_defaults. intros H'. tx_inv H'. subst.
  eapply rtc_agrees_l; [apply set_quotas_agrees | by eapply quota_events_refine].
Qed.

Lemma weekly_quotas_refine db n db' :
  enable_organization_flash_weekly_quotas db = Ok (n, db') → rtc transition db db'.
Proof.
  unfold enable_organization_flash_weekly_quotas. intros H'. tx_inv H'. subst.
  eapply (rtc_agrees_l _ (set_weekly_quotas true db)); [done | by eapply quota_events_refine].
Qed.
