(* ===== verification/FlowFacts.v ===== *)
(** * Correctness of Flow credentials and access contexts

    In every reachable state an access context of a credential has at most the
    permissions of the credential, lives at most five minutes and does not
    outlive the revocation of the credential, and every revoked context has its
    event for the provider.  Revocation and rotation take effect at once and do
    not fail; the retained history is bounded. *)
From stdpp Require Import sorting.
From S2P Require Import Prelude Text Json Policy Quota Store Usage Provider Services FlowAccess Lifecycle.

(** ** Transactions *)

(** What a transaction does to everything but the tables of Flow: the clock
    stands still and events are only added. *)
Record extends (a b : Db) : Prop := {
  extends_now : now b = now a;
  extends_services : service_instances b = service_instances a;
  extends_outbox : outbox_events a ⊆ outbox_events b;
}.

#[export] Instance extends_preorder : PreOrder extends.
Proof. split; [done|]. intros a b c [? ? ?] [? ? ?]. constructor; [congruence | congruence | by etrans]. Qed.

Create HintDb flow discriminated.
#[export] Hint Constructors extends : flow.

Lemma insert_event_extends t id b db u db' :
  insert_event t id b db = Ok (u, db') → extends db db' ∧ flow db' = flow db.
Proof.
  unfold insert_event, now_v7. rewrite tx_bind_ok. intros (eid & db1 & [= <- <-] & Hrun).
  tx_inv Hrun. subst. simpl in *. split; [|done]. constructor; [done | done|]. simpl.
  apply insert_subseteq. by destruct (outbox_events db !! next_uuid db).
Qed.

(** The event of a revocation. *)
Definition revocation_notice (id : Uuid) (expires : Z) (e : OutboxRow) : Prop :=
  topic e = PRINCIPAL_CONTEXT_REVOKE_ACTION ∧ aggregate_id e = id ∧
  ∃ p, payload e = RevocationBody p ∧ context_id p = id ∧ revoked_provider p = "flow" ∧
    Store.expires_at p = expires.

Lemma insert_revocation_ok id p db u db' :
  insert_event PRINCIPAL_CONTEXT_REVOKE_ACTION id (RevocationBody p) db = Ok (u, db') →
  context_id p = id → revoked_provider p = "flow" →
  ∃ eid e, outbox_events db !! eid = None ∧ outbox_events db' !! eid = Some e ∧ delivered_at e = None ∧
    revocation_notice id (Store.expires_at p) e.
Proof.
  intros Hrun Hid Hprov.
  destruct (insert_event_ok _ _ _ _ _ _ Hrun) as (eid & e & Hfree & Ht & Ha & Hp & Hd & Eo & _).
  exists eid, e. rewrite Eo, lookup_insert_eq. split_and!; [done..|].
  split; [done|]. split; [done|]. by exists p.
Qed.

Lemma enqueue_revocations_ok scope principal rows db u db' :
  enqueue_revocations scope principal rows db = Ok (u, db') →
  extends db db' ∧ flow db' = flow db ∧
  ∀ id r, (id, r) ∈ rows → ∃ eid e, outbox_events db !! eid = None ∧ outbox_events db' !! eid = Some e ∧
    delivered_at e = None ∧ revocation_notice id (context_expires_at r) e.
Proof.
  revert db. induction rows as [|[id r] rows IH]; intros db; simpl.
  - intros [_ ->]%mret_ok. split_and!; try done. intros id r Hin. by apply not_elem_of_nil in Hin.
  - rewrite tx_bind_ok. intros (x & db1 & Hins & Hrun).
    destruct (insert_event_extends _ _ _ _ _ _ Hins) as [He Hf].
    destruct (insert_revocation_ok _ _ _ _ _ Hins eq_refl eq_refl) as (eid & e & Hfree & He1 & Hd & Hev).
    destruct (IH _ Hrun) as (He2 & Hf2 & Hall). split_and!; [by etrans | congruence|].
    intros id' r' [[= -> ->] | Hin]%elem_of_cons.
    + exists eid, e. split_and!; try done. eapply lookup_weaken; [done | apply He2].
    + destruct (Hall _ _ Hin) as (eid' & e' & Hfree' & ? & ? & ?). exists eid', e'. split_and!; try done.
      eapply lookup_weaken_None; [exact Hfree' | apply He].
Qed.

(** ** The cascade *)

Definition cascade_rows (scope : CredentialScope) (db : Db) : list (Uuid * ContextRow) :=
  order_by_id (filter (λ e, cascaded scope (now db) (snd e) = true) (map_to_list (contexts db))).

Lemma elem_of_cascade_rows scope db id r :
  (id, r) ∈ cascade_rows scope db ↔ contexts db !! id = Some r ∧ cascaded scope (now db) r = true.
Proof.
  unfold cascade_rows. rewrite elem_of_order_by_id, list_elem_of_filter, elem_of_map_to_list. simpl. tauto.
Qed.

Definition cascade_effect (scope : CredentialScope) (t : Z) (r : ContextRow) : ContextRow :=
  if cascaded scope t r then revoke_context t r else r.

Lemma cascaded_live scope t r : cascaded scope t r = true → context_revoked_at r = None ∧ t < context_expires_at r.
Proof.
  unfold cascaded, context_live. rewrite !andb_true_iff. intros (_ & Hr & Ht).
  split; [by destruct (context_revoked_at r) | lia].
Qed.

(** The statement updates exactly the rows that were selected. *)
Lemma cascade_update scope db :
  let ids : gset Uuid := list_to_set (fst <$> cascade_rows scope db) in
  map_imap (λ id r, Some (if bool_decide (id ∈ ids) && negb (is_some (context_revoked_at r))
                          then revoke_context (now db) r else r)) (contexts db)
  = cascade_effect scope (now db) <$> contexts db.
Proof.
  intros ids. apply map_eq. intros id. rewrite map_lookup_imap, lookup_fmap.
  destruct (contexts db !! id) as [r|] eqn:Hr; simpl; [|done]. f_equal.
  assert (Hids : id ∈ ids ↔ cascaded scope (now db) r = true).
  { unfold ids. rewrite elem_of_list_to_set, list_elem_of_fmap. split.
    - intros ([id' r'] & -> & Hin). apply elem_of_cascade_rows in Hin as [Hr' Hc]. simpl in *. congruence.
    - intros Hc. exists (id, r). split; [done|]. by apply elem_of_cascade_rows. }
  unfold cascade_effect. destruct (cascaded scope (now db) r) eqn:Hc.
  - rewrite bool_decide_true by (by apply Hids). by destruct (cascaded_live _ _ _ Hc) as [-> _].
  - rewrite bool_decide_false; [done|]. intros Hin. by apply Hids in Hin.
Qed.

Lemma cascade_none scope db :
  cascade_rows scope db = [] → cascade_effect scope (now db) <$> contexts db = contexts db.
Proof.
  intros Hnone. apply map_eq. intros id. rewrite lookup_fmap.
  destruct (contexts db !! id) as [r|] eqn:Hr; simpl; [|done]. f_equal.
  unfold cascade_effect. destruct (cascaded scope (now db) r) eqn:Hc; [|done].
  assert (Hin : (id, r) ∈ cascade_rows scope db) by (by apply elem_of_cascade_rows).
  rewrite Hnone in Hin. by apply not_elem_of_nil in Hin.
Qed.

Lemma cascade_ok scope principal db n db' :
  cascade_flow_developer_credential_contexts scope principal db = Ok (n, db') →
  extends db db' ∧ credentials db' = credentials db ∧
  contexts db' = cascade_effect scope (now db) <$> contexts db ∧
  n = Z.of_nat (length (cascade_rows scope db)) ∧
  ∀ id r, contexts db !! id = Some r → cascaded scope (now db) r = true →
    ∃ eid e, outbox_events db !! eid = None ∧ outbox_events db' !! eid = Some e ∧
      delivered_at e = None ∧ revocation_notice id (context_expires_at r) e.
Proof.
  unfold cascade_flow_developer_credential_contexts. rewrite tx_bind_ok.
  intros (rows & db0 & Hq & Hrun). apply query_ok in Hq as [-> ->].
  fold (cascade_rows scope db) in Hrun.
  destruct (is_nil (cascade_rows scope db)) eqn:Hnil.
  - apply mret_ok in Hrun as [-> ->].
    assert (Hnone : cascade_rows scope db = []) by (by destruct (cascade_rows scope db)).
    rewrite cascade_none, Hnone by done. split_and!; try done.
    intros id r Hr Hc. assert (Hin : (id, r) ∈ cascade_rows scope db) by (by apply elem_of_cascade_rows).
    rewrite Hnone in Hin. by apply not_elem_of_nil in Hin.
  - tx_inv Hrun. subst.
    match goal with He : enqueue_revocations _ _ _ _ = _ |- _ =>
      destruct (enqueue_revocations_ok _ _ _ _ _ _ He) as ([Hnow Hsvc Hout] & Hflow & Hall) end.
    rewrite <- cascade_update. unfold credentials, contexts in *. rewrite Hflow. simpl. split_and!; try done.
    intros id r Hr Hc. apply Hall, elem_of_cascade_rows. done.
Qed.

(** ** Well-formed tables *)

Definition credential_backs (t : Z) (r : ContextRow) (c : CredentialRow) : Prop :=
  context_service r = credential_service c ∧ context_organization r = credential_organization c ∧
  context_permissions r ⊆ credential_permissions c ∧
  (is_Some (credential_revoked_at c) → context_live t r = false).

Record context_wf (t : Z) (creds : gmap Uuid CredentialRow) (outbox : gmap Uuid OutboxRow)
    (id : Uuid) (r : ContextRow) : Prop := {
  wf_lifetime : context_issued_at r + 30 ≤ context_expires_at r ≤ context_issued_at r + 300;
  wf_permissions : ∀ p, p ∈ context_permissions r → p ∈ flow_permissions;
  wf_backed cid : context_credential r = Some cid →
    ∃ c, creds !! cid = Some c ∧ credential_backs t r c;
  wf_notified : is_Some (context_revoked_at r) →
    ∃ eid e, outbox !! eid = Some e ∧ revocation_notice id (context_expires_at r) e;
}.

Record flow_wf (db : Db) : Prop := {
  wf_contexts id r : contexts db !! id = Some r →
    context_wf (now db) (credentials db) (outbox_events db) id r;
  wf_prefixes id id' c c' : credentials db !! id = Some c → credentials db !! id' = Some c' →
    credential_prefix c = credential_prefix c' → id = id';
}.

(** Events are delivered, retried and added, never replaced. *)
Definition events_kept (o o' : gmap Uuid OutboxRow) : Prop :=
  ∀ eid e, o !! eid = Some e → ∃ e', o' !! eid = Some e' ∧ topic e' = topic e ∧
    aggregate_id e' = aggregate_id e ∧ payload e' = payload e.

#[export] Instance events_kept_preorder : PreOrder events_kept.
Proof.
  split; [intros o eid e He; by exists e|]. intros a b c Hab Hbc eid e He.
  destruct (Hab eid e He) as (e1 & He1 & ? & ? & ?). destruct (Hbc eid e1 He1) as (e2 & He2 & ? & ? & ?).
  exists e2. split_and!; congruence.
Qed.

Lemma subseteq_kept o o' : o ⊆ o' → events_kept o o'.
Proof. intros Hsub eid e He. exists e. split_and!; try done. by eapply lookup_weaken. Qed.

(** Credentials keep what a context relies on. *)
Definition credential_same (c c' : CredentialRow) : Prop :=
  credential_service c' = credential_service c ∧ credential_organization c' = credential_organization c ∧
  credential_permissions c' = credential_permissions c ∧
  (is_Some (credential_revoked_at c') → is_Some (credential_revoked_at c)).

Definition credentials_kept (m m' : gmap Uuid CredentialRow) : Prop :=
  ∀ id c, m !! id = Some c → ∃ c', m' !! id = Some c' ∧ credential_same c c'.

Lemma credentials_kept_refl m : credentials_kept m m.
Proof. intros id c Hc. exists c. done. Qed.
#[export] Hint Resolve credentials_kept_refl : flow.

Lemma dead_stays_dead t t' r : t ≤ t' → context_live t r = false → context_live t' r = false.
Proof. unfold context_live. destruct (context_revoked_at r); simpl; [done|]. lia. Qed.

Lemma context_wf_mono t t' creds creds' o o' id r :
  t ≤ t' → credentials_kept creds creds' → events_kept o o' →
  context_wf t creds o id r → context_wf t' creds' o' id r.
Proof.
  intros Ht Hc Ho [Wl Wp Wb Wn]. constructor; try done.
  - intros cid Hcid. destruct (Wb cid Hcid) as (c & Hcr & Hs & Horg & Hperm & Hrev).
    destruct (Hc cid c Hcr) as (c' & Hc' & Es & Eo & Ep & Er). exists c'. split; [done|].
    unfold credential_backs. rewrite Es, Eo, Ep. split_and!; try done. eauto using dead_stays_dead.
  - intros Hr. destruct (Wn Hr) as (eid & e & He & Ht1 & Ht2 & p & Hp & Hrest).
    destruct (Ho eid e He) as (e' & He' & Et & Ea & Ep). exists eid, e'. split; [done|].
    split; [congruence|]. split; [congruence|]. exists p. split; [congruence | done].
Qed.

(** Revocation of a context that has its event. *)
Lemma context_wf_revoke t creds o id r :
  context_wf t creds o id r →
  (∃ eid e, o !! eid = Some e ∧ revocation_notice id (context_expires_at r) e) →
  context_wf t creds o id (revoke_context t r).
Proof.
  intros [Wl Wp Wb Wn] Hev. constructor; simpl; try done.
  intros cid Hcid. destruct (Wb cid Hcid) as (c & Hc & ? & ? & ? & ?). exists c. by split.
Qed.

(** ** Preservation *)

Lemma alter_credential_kept id f (m : gmap Uuid CredentialRow) :
  (∀ c, credential_same c (f c)) → credentials_kept m (alter f id m).
Proof.
  intros Hf id' c Hc. destruct (decide (id = id')) as [->|Hne].
  - exists (f c). rewrite lookup_alter_eq, Hc. done.
  - exists c. by rewrite lookup_alter_ne.
Qed.

Lemma alter_prefixes id f (m : gmap Uuid CredentialRow) :
  (∀ c, m !! id = Some c → ∀ id' c', id' ≠ id → m !! id' = Some c' →
     credential_prefix c' ≠ credential_prefix (f c)) →
  (∀ i j c c', m !! i = Some c → m !! j = Some c' → credential_prefix c = credential_prefix c' → i = j) →
  ∀ i j c c', alter f id m !! i = Some c → alter f id m !! j = Some c' →
    credential_prefix c = credential_prefix c' → i = j.
Proof.
  intros Hf Hm i j c c' Hi Hj Heq. destruct (decide (i = j)) as [|Hij]; [done|]. exfalso.
  apply lookup_alter_Some in Hi as [(-> & x & Hx & ->) | (Hni & Hi)];
    apply lookup_alter_Some in Hj as [(-> & y & Hy & ->) | (Hnj & Hj)]; [done | | | eauto].
  - by eapply (Hf x Hx j c').
  - by eapply (Hf y Hy i c).
Qed.

Lemma prefix_free_spec prefix id db :
  prefix_free prefix id db = true →
  ∀ id' c, id' ≠ id → credentials db !! id' = Some c → credential_prefix c ≠ prefix.
Proof.
  unfold prefix_free. rewrite negb_true_iff. intros Hfree id' c Hne Hc Heq.
  apply not_true_iff_false in Hfree. apply Hfree, existsb_exists. exists (id', c). split.
  - by apply list_elem_of_In, elem_of_map_to_list.
  - simpl. rewrite bool_decide_false by done. by rewrite Heq, String.eqb_refl.
Qed.

(** A change of the database that keeps the contexts, up to removal. *)
Lemma wf_keep db db' :
  flow_wf db → now db ≤ now db' → contexts db' ⊆ contexts db →
  credentials_kept (credentials db) (credentials db') →
  events_kept (outbox_events db) (outbox_events db') →
  (∀ id id' c c', credentials db' !! id = Some c → credentials db' !! id' = Some c' →
     credential_prefix c = credential_prefix c' → id = id') →
  flow_wf db'.
Proof.
  intros [Wc Wp] Hn Hsub Hc He Hp. constructor; [|done]. intros id r Hr.
  eapply context_wf_mono; [exact Hn | exact Hc | exact He|]. apply Wc. by eapply lookup_weaken.
Qed.

(** The cascade after a change of the credential itself. *)
Lemma wf_cascade_contexts scope principal db db1 n db' f :
  flow_wf db → cascade_flow_developer_credential_contexts scope principal db1 = Ok (n, db') →
  contexts db1 = contexts db → now db1 = now db → outbox_events db1 = outbox_events db →
  credentials db !! scope_credential_id scope = Some (scope_credential scope) →
  credentials db1 = alter f (scope_credential_id scope) (credentials db) →
  (∀ c, credential_service (f c) = credential_service c ∧
        credential_organization (f c) = credential_organization c ∧
        credential_permissions (f c) = credential_permissions c) →
  (∀ i j c c', credentials db1 !! i = Some c → credentials db1 !! j = Some c' →
     credential_prefix c = credential_prefix c' → i = j) →
  flow_wf db'.
Proof.
  intros [Wc Wp] Hrun Ec En Eo Hcred Ecr Hf Hpre.
  destruct (cascade_ok _ _ _ _ _ Hrun) as ([Hn _ Hout] & Hcr & Hctx & _ & Hev).
  constructor; [|by rewrite Hcr]. rewrite Hctx, Hn, Hcr, En, Ec. intros id r.
  rewrite lookup_fmap. destruct (contexts db !! id) as [r0|] eqn:Hr0; simpl; [|done]. intros [= <-].
  destruct (Wc id r0 Hr0) as [Wl Wpm Wb Wn].
  assert (Hnotify : is_Some (context_revoked_at r0) →
    ∃ eid e, outbox_events db' !! eid = Some e ∧ revocation_notice id (context_expires_at r0) e).
  { intros Hr. destruct (Wn Hr) as (eid & e & He & ?). exists eid, e. split; [|done].
    rewrite Eo in Hout. by eapply lookup_weaken. }
  unfold cascade_effect. destruct (cascaded scope (now db) r0) eqn:Hc.
  - constructor; simpl; try done.
    + intros cid Hcid. destruct (Wb cid Hcid) as (c & Hcid' & Hs & Ho & Hp & _).
      destruct (decide (cid = scope_credential_id scope)) as [->|Hne].
      * exists (f c). rewrite Ecr, lookup_alter_eq, Hcid'. split; [done|].
        destruct (Hf c) as (E1 & E2 & E3). unfold credential_backs. simpl. by rewrite E1, E2, E3.
      * exists c. rewrite Ecr, lookup_alter_ne by done. done.
    + intros _. destruct (Hev id r0) as (eid & e & _ & ? & _ & ?); [congruence | congruence | eauto].
  - constructor; try done. intros cid Hcid. destruct (Wb cid Hcid) as (c & Hcid' & Hs & Ho & Hp & Hr).
    destruct (decide (cid = scope_credential_id scope)) as [->|Hne].
    + exists (f c). rewrite Ecr, lookup_alter_eq, Hcid'. split; [done|].
      destruct (Hf c) as (E1 & E2 & E3). unfold credential_backs. rewrite E1, E2, E3.
      split_and!; try done. intros _. rewrite Hcred in Hcid'. injection Hcid' as <-.
      unfold cascaded in Hc. rewrite Hcid, Ho, Hs, !bool_decide_true in Hc by done. done.
    + exists c. rewrite Ecr, lookup_alter_ne by done. done.
Qed.

Lemma credential_scope_some org service id scope db :
  credential_scope org service id db = Some scope →
  scope_credential_id scope = id ∧ credentials db !! id = Some (scope_credential scope) ∧
  credential_organization (scope_credential scope) = org ∧
  credential_service (scope_credential scope) = service ∧
  flow_service service db = Some (scope_service scope).
Proof.
  unfold credential_scope. intros (c & Hc & (s & Hs & Hif)%bind_Some)%bind_Some.
  destruct (_ && _) eqn:Hb; [|done]. injection Hif as <-. simpl.
  apply andb_true_iff in Hb as [Ho%bool_decide_true_iff Hv%bool_decide_true_iff]. by subst.
Qed.

Lemma create_credential_wf `{LimitsDecoder} input db x db' :
  flow_wf db → create_flow_developer_credential input db = Ok (x, db') → flow_wf db'.
Proof.
  intros Hwf. unfold create_flow_developer_credential. intros Hrun. tx_inv Hrun.
  repeat match goal with
  | Ho : optional _ (find_service _ _) _ = _ |- _ => apply optional_query_ok in Ho as [_ ->]
  | Ho : optional _ _ _ = _ |- _ => apply optional_query_ok in Ho as [_ ->]
  | Hn : now_v7 _ = _ |- _ => apply now_v7_ok in Hn as [-> ->]
  | Hr : require _ _ = _ |- _ => apply require_ok in Hr as [Hallow ->]
  end. subst. simpl in *.
  unfold credential_allowed in Hallow. rewrite !andb_true_iff in Hallow. destruct_and! Hallow.
  match goal with Hf : prefix_free _ _ _ = true |- _ => pose proof (prefix_free_spec _ _ _ Hf) as Hfree end.
  match goal with Hs : negb (is_some (credentials _ !! _)) = true |- _ => rename Hs into Hnew end.
  change (credentials (set_next_uuid _ db)) with (credentials db) in *.
  assert (Hnone : credentials db !! next_uuid db = None) by (by destruct (credentials db !! next_uuid db)).
  eapply wf_keep; [exact Hwf | done | done | | done |].
  - intros i c Hc. exists c. split; [|done]. unfold credentials in *. simpl.
    rewrite lookup_insert_ne; [done|]. intros <-. congruence.
  - intros i j c c'. unfold credentials in *. simpl.
    intros [[<- <-] | [Hi Hc]]%lookup_insert_Some [[<- <-] | [Hj Hc']]%lookup_insert_Some Heq; simpl in *.
    + done.
    + exfalso. by eapply (Hfree j c').
    + exfalso. by eapply (Hfree i c).
    + by eapply (wf_prefixes _ Hwf).
Qed.

Lemma revoke_credential_wf org service id p db x db' :
  flow_wf db → revoke_flow_developer_credential org service id p db = Ok (x, db') → flow_wf db'.
Proof.
  intros Hwf. unfold revoke_flow_developer_credential. rewrite tx_bind_ok.
  intros (scope & db0 & Hq & Hrun). apply query_ok in Hq as [-> ->].
  destruct (credential_scope org service id db) as [scope|] eqn:Hscope; [|by apply mret_ok in Hrun as [_ ->]].
  destruct (credential_scope_some _ _ _ _ _ Hscope) as (<- & Hc & _).
  rewrite tx_bind_ok in Hrun. destruct Hrun as (u & db1 & Halter & Hrun). tx_inv Hrun. subst.
  destruct (negb (is_some (credential_revoked_at (scope_credential scope)))) eqn:Hrev.
  - apply statement_ok in Halter. subst.
    eapply (wf_cascade_contexts scope p db _ _ _ (revoke_credential (now db)));
      [done | eassumption | done | done | done | done | done | done |].
    apply alter_prefixes; [|apply Hwf]. simpl. intros c Hcc i c' Hne Hi Heq.
    apply Hne. eapply (wf_prefixes _ Hwf); [exact Hi | exact Hcc | done].
  - apply mret_ok in Halter as [_ ->]. eapply (wf_cascade_contexts scope p db _ _ _ id);
      [done | eassumption | done | done | done | done | by rewrite alter_id | done | apply Hwf].
Qed.

Lemma rotate_credential_wf org service id prefix hash p db x db' :
  flow_wf db → rotate_flow_developer_credential org service id prefix hash p db = Ok (x, db') → flow_wf db'.
Proof.
  intros Hwf. unfold rotate_flow_developer_credential. intros Hrun. tx_inv Hrun.
  match goal with Ho : optional _ _ _ = Ok (?v, _) |- _ =>
    apply optional_query_ok in Ho as [Hscope ->]; rename v into scope end.
  match goal with Hr : require _ _ = _ |- _ => apply require_ok in Hr as [Hfree ->] end.
  apply bind_Some in Hscope as (scope' & Hscope & Hlive). destruct (credential_live _ _); [|done].
  injection Hlive as ->. destruct (credential_scope_some _ _ _ _ _ Hscope) as (<- & Hc & _).
  apply andb_true_iff in Hfree as [_ Hfree]. pose proof (prefix_free_spec _ _ _ Hfree) as Hf.
  match goal with Ha : alter_credential _ _ _ = _ |- _ => apply statement_ok in Ha; subst end.
  eapply (wf_cascade_contexts scope p db _ _ _ (set_secret prefix hash));
    [done | eassumption | done | done | done | done | done | done |].
  apply alter_prefixes; [|apply Hwf]. simpl. intros c Hcc i c' Hne Hi. by eapply Hf.
Qed.

Lemma credential_by_secret_some prefix hash scope db :
  credential_by_secret prefix hash db = Some scope →
  credentials db !! scope_credential_id scope = Some (scope_credential scope) ∧
  credential_prefix (scope_credential scope) = prefix ∧ secret_hash (scope_credential scope) = hash ∧
  credential_live (now db) (scope_credential scope) = true ∧
  flow_service (credential_service (scope_credential scope)) db = Some (scope_service scope).
Proof.
  unfold credential_by_secret. intros ([id c] & Hh & (s & Hs & [= <-])%bind_Some)%bind_Some. simpl in *.
  assert (Hin : (id, c) ∈ filter (λ e, credential_prefix (snd e) = prefix ∧ secret_hash (snd e) = hash
    ∧ credential_live (now db) (snd e) = true) (map_to_list (credentials db))).
  { destruct (filter _ _) as [|e l]; [done|]. injection Hh as ->. by left. }
  apply list_elem_of_filter in Hin as [(? & ? & ?) Hin]. apply elem_of_map_to_list in Hin. done.
Qed.

Lemma insert_context_ok id r db u db' :
  insert_context id r db = Ok (u, db') →
  context_allowed id r db = true ∧ db' = set_contexts (<[id := r]> (contexts db)) db.
Proof. unfold insert_context. rewrite tx_bind_ok. intros (? & ? & [? ->]%require_ok & ->%statement_ok). done. Qed.

Lemma context_allowed_spec id r db :
  context_allowed id r db = true →
  contexts db !! id = None ∧
  (∀ p, p ∈ context_permissions r → p ∈ flow_permissions) ∧
  context_issued_at r + 30 ≤ context_expires_at r ≤ context_issued_at r + 300.
Proof.
  unfold context_allowed, valid_permissions. rewrite !andb_true_iff. intros Ha. destruct_and! Ha.
  split_and!; [by destruct (contexts db !! id) | | lia | lia].
  intros p Hp. match goal with Hf : forallb _ _ = true |- _ => rewrite forallb_forall in Hf;
    specialize (Hf p) end. rewrite list_elem_of_In in Hp. rewrite bool_decide_true_iff in *. auto.
Qed.

Lemma wf_insert_context db id r :
  flow_wf db → context_wf (now db) (credentials db) (outbox_events db) id r →
  flow_wf (set_contexts (<[id := r]> (contexts db)) db).
Proof.
  intros [Wc Wp] Hr. constructor; [|done]. unfold contexts. simpl.
  intros i x [[<- <-] | [Hne Hx]]%lookup_insert_Some; [done | by apply Wc].
Qed.

Lemma wf_prune service db u db' :
  flow_wf db → prune_flow_access_context_history service db = Ok (u, db') → flow_wf db'.
Proof.
  intros Hwf ->%statement_ok. eapply wf_keep; [exact Hwf | done | | apply credentials_kept_refl | done | apply Hwf].
  apply map_filter_subseteq.
Qed.

Lemma wf_last_used id db u db' :
  flow_wf db → alter_credential id (λ db, set_last_used (now db)) db = Ok (u, db') → flow_wf db'.
Proof.
  intros Hwf ->%statement_ok. eapply wf_keep; [exact Hwf | done | done | | done |].
  - by apply alter_credential_kept.
  - apply alter_prefixes; [|apply Hwf]. simpl. intros c Hc i c' Hne Hi Heq. apply Hne.
    eapply (wf_prefixes _ Hwf); [exact Hi | exact Hc | done].
Qed.

Lemma wf_same_flow db db' :
  flow_wf db → flow db' = flow db → now db ≤ now db' →
  events_kept (outbox_events db) (outbox_events db') → flow_wf db'.
Proof.
  intros Hwf Hf Hn He.
  eapply wf_keep; [exact Hwf | done | | | done |]; unfold contexts, credentials; rewrite Hf;
    [done | apply credentials_kept_refl | apply Hwf].
Qed.

Lemma append_audit_ok row db u db' :
  append_audit row db = Ok (u, db') → db' = set_audit (audit_events db ++ [row]) db.
Proof. unfold append_audit. rewrite tx_bind_ok. intros (? & ? & [? ->]%require_ok & ->%statement_ok). done. Qed.

Lemma record_context_wf input db u db' :
  context_credential (new_context input) = None → context_revoked_at (new_context input) = None →
  flow_wf db → record_flow_access_context input db = Ok (u, db') → flow_wf db'.
Proof.
  intros Hcred Hrev Hwf. unfold record_flow_access_context. intros Hrun. tx_inv Hrun. subst.
  match goal with Hi : insert_context _ _ _ = _ |- _ => apply insert_context_ok in Hi as [Ha ->] end.
  apply context_allowed_spec in Ha as (Hnew & Hperm & Hlife).
  eapply wf_prune; [|eassumption]. apply wf_insert_context; [done|].
  constructor; [done | done | by rewrite Hcred | by rewrite Hrev; intros []].
Qed.

Section Minting.
Context `{UuidText, TimeText}.

Lemma minted_context_wf scope input db :
  credential_by_secret (mint_prefix input) (mint_secret_hash input) db = Some scope →
  (∀ p, p ∈ mint_permissions input → p ∈ credential_permissions (scope_credential scope)) →
  context_allowed (mint_context_id input) (minted_context scope input) db = true →
  context_wf (now db) (credentials db) (outbox_events db) (mint_context_id input) (minted_context scope input).
Proof.
  intros (Hc & _ & _ & Hlive & _)%credential_by_secret_some Hsub (_ & Hperm & Hlife)%context_allowed_spec.
  constructor; [done | done | | by intros []].
  simpl. intros cid [= <-]. exists (scope_credential scope). split; [done|].
  split_and!; try done. intros Hrev. unfold credential_live in Hlive.
  by destruct (credential_revoked_at (scope_credential scope)); [|destruct Hrev].
Qed.

Lemma mint_wf input db x db' :
  flow_wf db → mint_flow_access_context_with_developer_credential input db = Ok (x, db') → flow_wf db'.
Proof.
  intros Hwf. unfold mint_flow_access_context_with_developer_credential. rewrite tx_bind_ok.
  intros (row & db0 & [-> ->]%query_ok & Hrun).
  destruct (credential_by_secret _ _ db) as [scope|] eqn:Hscope; [|by apply mret_ok in Hrun as [_ ->]].
  destruct (negb (bool_decide _)); [by apply mret_ok in Hrun as [_ ->]|].
  destruct (negb (forallb _ _)) eqn:Hperm; [by apply mret_ok in Hrun as [_ ->]|].
  tx_inv Hrun. subst.
  repeat match goal with
  | Hi : insert_context _ _ _ = _ |- _ => apply insert_context_ok in Hi as [Ha ->]
  | Hu : append_audit _ _ = _ |- _ => apply append_audit_ok in Hu as ->
  end.
  eapply wf_same_flow; [eapply wf_last_used; [eapply wf_prune; [|eassumption]|eassumption] | done | simpl; lia | done].
  apply wf_insert_context; [done|]. apply minted_context_wf; [done | | done].
  apply negb_false_iff in Hperm. rewrite forallb_forall in Hperm. intros p Hp.
  apply list_elem_of_In, Hperm in Hp. by apply bool_decide_true_iff in Hp.
Qed.

Lemma revoke_and_notify_wf id r body db u db' :
  flow_wf db → revoke_and_notify id body db = Ok (u, db') → contexts db !! id = Some r →
  context_id body = id → revoked_provider body = "flow" → Store.expires_at body = context_expires_at r →
  flow_wf db'.
Proof.
  intros [Wc Wp] Hrun Hr Hid Hprov Hexp. unfold revoke_and_notify in Hrun. rewrite tx_bind_ok in Hrun.
  destruct Hrun as (u1 & db1 & ->%statement_ok & Hins).
  destruct (insert_event_extends _ _ _ _ _ _ Hins) as [[Hn _ Ho] Hf].
  destruct (insert_revocation_ok _ _ _ _ _ Hins Hid Hprov) as (eid & e & _ & He & _ & Hev).
  rewrite Hexp in Hev. simpl in *.
  constructor; unfold contexts, credentials; rewrite Hf; simpl; [|exact Wp]. rewrite Hn.
  assert (Hmono : ∀ i x, context_wf (now db) (credentials db) (outbox_events db) i x →
    context_wf (now db) (credentials db) (outbox_events db') i x).
  { intros i x. apply context_wf_mono; [lia | apply credentials_kept_refl | by apply subseteq_kept]. }
  intros i x [(-> & y & Hy & ->) | (Hne & Hx)]%lookup_alter_Some.
  - simplify_eq. apply context_wf_revoke; [by apply Hmono, Wc | eauto].
  - by apply Hmono, Wc.
Qed.

Lemma revoke_with_credential_wf prefix hash id db x db' :
  flow_wf db → revoke_flow_access_context_with_developer_credential prefix hash id db = Ok (x, db') →
  flow_wf db'.
Proof.
  intros Hwf. unfold revoke_flow_access_context_with_developer_credential. rewrite tx_bind_ok.
  intros (row & db0 & [-> ->]%query_ok & Hrun).
  destruct (credential_by_secret _ _ db) as [scope|] eqn:Hscope; [|by apply mret_ok in Hrun as [_ ->]].
  rewrite tx_bind_ok in Hrun. destruct Hrun as (context & db1 & [-> ->]%query_ok & Hrun).
  rewrite tx_bind_ok in Hrun. destruct Hrun as (u & db1 & Hrev & Hrun). tx_inv Hrun. subst.
  repeat match goal with
  | Hn : now_v7 _ = _ |- _ => apply now_v7_ok in Hn as [-> ->]
  | Hu : append_audit _ _ = _ |- _ => apply append_audit_ok in Hu as ->
  end.
  assert (Hwf1 : flow_wf db1).
  { destruct (contexts db !! id) as [r|] eqn:Hr; simpl in Hrev; [|by apply mret_ok in Hrev as [_ ->]].
    destruct (_ && _); [|by apply mret_ok in Hrev as [_ ->]]. simpl in Hrev.
    destruct (negb (is_some (context_revoked_at r))); [|by apply mret_ok in Hrev as [_ ->]].
    by eapply revoke_and_notify_wf. }
  eapply wf_same_flow; [eapply wf_last_used; [exact Hwf1 | eassumption] | done | simpl; lia | done].
Qed.

Lemma revoke_context_wf org service id p db x db' :
  flow_wf db → revoke_flow_access_context org service id p db = Ok (x, db') → flow_wf db'.
Proof.
  intros Hwf. unfold revoke_flow_access_context. rewrite tx_bind_ok.
  intros (row & db0 & [-> ->]%query_ok & Hrun).
  destruct (contexts db !! id) as [r|] eqn:Hr; simpl in Hrun; [|by apply mret_ok in Hrun as [_ ->]].
  destruct (flow_service _ db) as [s|]; simpl in Hrun; [|by apply mret_ok in Hrun as [_ ->]].
  destruct (_ && _); [|by apply mret_ok in Hrun as [_ ->]].
  destruct (is_some (context_revoked_at r)); [by apply mret_ok in Hrun as [_ ->]|].
  tx_inv Hrun. subst. by eapply revoke_and_notify_wf.
Qed.

Lemma list_for_credential_wf prefix hash limit db x db' :
  flow_wf db → list_flow_access_contexts_for_developer_credential prefix hash limit db = Ok (x, db') →
  flow_wf db'.
Proof.
  intros Hwf. unfold list_flow_access_contexts_for_developer_credential. rewrite tx_bind_ok.
  intros (row & db0 & [-> ->]%query_ok & Hrun).
  destruct (credential_by_secret _ _ db) as [scope|]; [|by apply mret_ok in Hrun as [_ ->]].
  tx_inv Hrun. subst. by eapply wf_last_used.
Qed.

(** ** Deletion of a service *)

Lemma cascade_flow_wf id db :
  flow_wf db → flow_wf (set_flow (cascade_flow id (flow db)) db).
Proof.
  intros [Wc Wp]. constructor; unfold contexts, credentials; simpl.
  - intros i x Hx. apply lookup_fmap_Some in Hx as (r & Hfx & Hr).
    apply map_lookup_filter_Some in Hr as [Hr Hne]. simpl in Hne.
    destruct (Wc i r Hr) as [Wl Wpm Wb Wn]. subst x.
    destruct (context_credential r) as [cid|] eqn:Hcid; simpl; [|by constructor; rewrite ?Hcid].
    destruct (Wb cid eq_refl) as (c & Hc & Hback). unfold credentials in Hc. rewrite Hc.
    destruct (bool_decide_reflect (credential_service c = id)); [by constructor|].
    constructor; try done. intros cid' Hcid'. rewrite Hcid in Hcid'. injection Hcid' as <-. exists c. split; [|done].
    by apply map_lookup_filter_Some.
  - intros i j c c' [Hi _]%map_lookup_filter_Some [Hj _]%map_lookup_filter_Some. by eapply Wp.
Qed.

Lemma complete_delete_wf id prov g db x db' :
  flow_wf db → complete_delete_service_instance id prov g db = Ok (x, db') → flow_wf db'.
Proof.
  intros Hwf. unfold complete_delete_service_instance.
  destruct (report_row id prov g db) as [r|]; [|by intros [= _ <-]].
  destruct (bool_decide _); [|by intros [= _ <-]]. intros [= _ <-]. unfold cascade_delete.
  eapply wf_same_flow; [by apply (cascade_flow_wf id db) | done | simpl; lia | done].
Qed.

End Minting.

(** ** Revocation does not fail *)

(** Identifiers are given out once: those of the outbox lie below the next. *)
Definition uuid_fresh (db : Db) : Prop :=
  ∀ eid e, outbox_events db !! eid = Some e → (eid < next_uuid db)%N.

Lemma insert_event_total t id b db :
  uuid_fresh db → ∃ db', insert_event t id b db = Ok ((), db') ∧ uuid_fresh db'.
Proof.
  intros Hf. unfold insert_event, now_v7, query, statement, tx_fail_if. unfold mbind, tx_bind. simpl.
  destruct (outbox_events db !! next_uuid db) eqn:He; simpl.
  - apply Hf in He. lia.
  - eexists. split; [reflexivity|]. intros eid e. simpl.
    intros [[<- _] | [_ Hin]]%lookup_insert_Some; [lia|]. apply Hf in Hin. lia.
Qed.

Lemma enqueue_revocations_total scope p rows db :
  uuid_fresh db → ∃ db', enqueue_revocations scope p rows db = Ok ((), db') ∧ uuid_fresh db'.
Proof.
  revert db. induction rows as [|[id r] rows IH]; intros db Hf; simpl; [by exists db|].
  match goal with |- context [insert_event ?t ?i ?b ≫= _] =>
    destruct (insert_event_total t i b db Hf) as (db1 & Hi & Hf1) end.
  destruct (IH db1 Hf1) as (db2 & Hr & Hf2). exists db2. split; [|done].
  apply tx_bind_ok. eauto.
Qed.

Lemma order_by_id_perm {A} (l : list (Uuid * A)) : order_by_id l ≡ₚ l.
Proof.
  unfold order_by_id. induction l as [|a l IH]; simpl; [done|].
  assert (Hins : ∀ k, insert_row a k ≡ₚ a :: k).
  { intros k. induction k as [|b k IHk]; simpl; [done|].
    destruct (fst a <? fst b)%N; [done|]. rewrite IHk. constructor. }
  by rewrite Hins, IH.
Qed.

Lemma length_filter_map {A} (P : Uuid * A → Prop) `{∀ x, Decision (P x)} (m : gmap Uuid A) :
  length (filter P (map_to_list m)) = size (filter P m).
Proof.
  rewrite map_filter_alt. rewrite <- length_map_to_list. symmetry. apply Permutation_length.
  apply map_to_list_to_map. apply NoDup_fmap_fst.
  - intros x y1 y2 H1 H2. apply list_elem_of_filter in H1 as [_ H1]. apply list_elem_of_filter in H2 as [_ H2].
    apply elem_of_map_to_list in H1, H2. congruence.
  - apply NoDup_filter, NoDup_map_to_list.
Qed.

(** All rows that were selected are updated. *)
Lemma cascade_count scope db :
  let ids : gset Uuid := list_to_set (fst <$> cascade_rows scope db) in
  size (filter (λ e, fst e ∈ ids ∧ context_revoked_at (snd e) = None) (contexts db))
  = length (cascade_rows scope db).
Proof.
  intros ids. unfold cascade_rows. rewrite (Permutation_length (order_by_id_perm _)), length_filter_map.
  f_equal. apply map_filter_ext. intros id r Hr. simpl. unfold ids.
  rewrite elem_of_list_to_set, list_elem_of_fmap. split.
  - intros [([id' r'] & -> & Hin) _]. apply elem_of_cascade_rows in Hin as [Hr' Hc]. simpl in *. congruence.
  - intros Hc. split; [|exact (proj1 (cascaded_live _ _ _ Hc))]. exists (id, r). split; [done|].
    by apply elem_of_cascade_rows.
Qed.

Lemma cascade_total scope p db :
  uuid_fresh db → ∃ n db', cascade_flow_developer_credential_contexts scope p db = Ok (n, db').
Proof.
  intros Hf.
  destruct (enqueue_revocations_total scope p (cascade_rows scope db)
    (set_contexts (cascade_effect scope (now db) <$> contexts db) db)) as (db2 & Hr & _); [exact Hf|].
  rewrite <- cascade_update in Hr. unfold cascade_flow_developer_credential_contexts.
  setoid_rewrite tx_bind_ok. fold (cascade_rows scope db).
  destruct (is_nil (cascade_rows scope db)) eqn:Hnil.
  - exists 0, db, (cascade_rows scope db), db. split; [done|]. by rewrite Hnil.
  - exists (Z.of_nat (length (cascade_rows scope db))), db2, (cascade_rows scope db), db.
    split; [done|]. rewrite Hnil.
    apply tx_bind_ok. eexists _, _. split; [reflexivity|].
    apply tx_bind_ok. eexists _, _. split; [reflexivity|].
    apply tx_bind_ok. eexists (), _.
    split; [apply tx_fail_if_ok; split; [by rewrite cascade_count, Z.eqb_refl | reflexivity]|].
    apply tx_bind_ok. eexists _, _. split; [exact Hr | done].
Qed.

(** A secret resolves to the one live credential that has it. *)
Lemma credential_by_secret_iff prefix hash scope db :
  flow_wf db →
  credential_by_secret prefix hash db = Some scope ↔
  credentials db !! scope_credential_id scope = Some (scope_credential scope) ∧
  credential_prefix (scope_credential scope) = prefix ∧ secret_hash (scope_credential scope) = hash ∧
  credential_live (now db) (scope_credential scope) = true ∧
  flow_service (credential_service (scope_credential scope)) db = Some (scope_service scope).
Proof.
  intros Hwf. split; [apply credential_by_secret_some|]. intros (Hc & Hp & Hh & Hlive & Hs).
  unfold credential_by_secret.
  destruct (filter _ _) as [|[id c] l] eqn:E.
  - exfalso. apply (not_elem_of_nil (scope_credential_id scope, scope_credential scope)).
    rewrite <- E. apply list_elem_of_filter. split; [done|]. by apply elem_of_map_to_list.
  - assert (Hin : (id, c) ∈ (id, c) :: l) by (by left). rewrite <- E in Hin.
    apply list_elem_of_filter in Hin as [(Hp' & _ & _) Hin]. apply elem_of_map_to_list in Hin.
    assert (id = scope_credential_id scope) as ->.
    { eapply (wf_prefixes _ Hwf); [exact Hin | exact Hc | simpl in *; congruence]. }
    simpl. simplify_eq. rewrite Hs. simpl. by destruct scope.
Qed.

(** After the cascade no context of the credential is usable. *)
Lemma cascade_kills scope db id r :
  flow_wf db → credentials db !! scope_credential_id scope = Some (scope_credential scope) →
  (cascade_effect scope (now db) <$> contexts db) !! id = Some r →
  context_credential r = Some (scope_credential_id scope) → context_live (now db) r = false.
Proof.
  intros Hwf Hc. rewrite lookup_fmap. destruct (contexts db !! id) as [r0|] eqn:Hr0; simpl; [|done].
  intros [= <-]. unfold cascade_effect. destruct (cascaded scope (now db) r0) eqn:Hcas; [done|].
  intros Hcid. destruct (wf_contexts _ Hwf id r0 Hr0) as [_ _ Wb _].
  destruct (Wb _ Hcid) as (c & Hc' & Hs & Ho & _). simplify_eq.
  unfold cascaded in Hcas. by rewrite Hcid, Ho, Hs, !bool_decide_true in Hcas by done.
Qed.

Lemma live_cascaded scope db id r :
  flow_wf db → credentials db !! scope_credential_id scope = Some (scope_credential scope) →
  contexts db !! id = Some r → context_credential r = Some (scope_credential_id scope) →
  context_live (now db) r = true → cascaded scope (now db) r = true.
Proof.
  intros Hwf Hc Hr Hcid Hlive. destruct (wf_contexts _ Hwf id r Hr) as [_ _ Wb _].
  destruct (Wb _ Hcid) as (c & Hc' & Hs & Ho & _). simplify_eq.
  unfold cascaded. by rewrite Hcid, Ho, Hs, !bool_decide_true, Hlive by done.
Qed.

(** ** Retention *)

Definition dead_contexts (service : ServiceInstanceId) (db : Db) : gmap Uuid ContextRow :=
  filter (λ e, context_service (snd e) = service ∧ context_live (now db) (snd e) = false) (contexts db).

Lemma elem_of_newest_contexts service db id r :
  (id, r) ∈ newest_contexts service db ↔ contexts db !! id = Some r ∧ context_service r = service.
Proof.
  unfold newest_contexts. rewrite merge_sort_Permutation, list_elem_of_filter, elem_of_map_to_list.
  simpl. tauto.
Qed.

Lemma prune_bounds service db u db' :
  prune_flow_access_context_history service db = Ok (u, db') →
  now db' = now db ∧
  (∀ id r, contexts db !! id = Some r → context_live (now db) r = true → contexts db' !! id = Some r) ∧
  (size (dead_contexts service db') ≤ MAX_FLOW_ACCESS_CONTEXT_RECORDS_PER_SERVICE)%nat.
Proof.
  intros ->%statement_ok. split; [done|]. unfold dead_contexts, contexts. simpl.
  fold (contexts db). set (kept := take MAX_FLOW_ACCESS_CONTEXT_RECORDS_PER_SERVICE (newest_contexts service db)). split.
  - intros id r Hr Hlive. apply map_lookup_filter_Some. split; [done|]. simpl. intros (_ & _ & ?). congruence.
  - transitivity (size (list_to_set (fst <$> kept) : gset Uuid)).
    + rewrite <- (size_dom (D := gset Uuid)). apply subseteq_size. intros id.
      rewrite elem_of_dom. intros [r Hr]. apply map_lookup_filter_Some in Hr as [Hr [Hs Hdead]].
      apply map_lookup_filter_Some in Hr as [Hr Hkeep]. simpl in *.
      assert (Hin : (id, r) ∈ newest_contexts service db) by (by apply elem_of_newest_contexts).
      rewrite <- (take_drop MAX_FLOW_ACCESS_CONTEXT_RECORDS_PER_SERVICE) in Hin.
      apply elem_of_app in Hin as [Hin|Hin].
      * apply elem_of_list_to_set, list_elem_of_fmap. by exists (id, r).
      * destruct Hkeep. split_and!; try done. apply elem_of_list_to_set, list_elem_of_fmap. by exists (id, r).
    + rewrite size_list_to_set_le. rewrite length_fmap. unfold kept. rewrite length_take. lia.
Qed.

(** ** Refinement of the transitions of the life cycle *)

Lemma insert_revocation_refines id p db u db' :
  insert_event PRINCIPAL_CONTEXT_REVOKE_ACTION id (RevocationBody p) db = Ok (u, db') →
  transition db db'.
Proof.
  intros (eid & e & Hfree & Ht & Ha & Hp & Hd & Ho & Hs & Hq & Hl)%insert_event_ok.
  by eapply (tr_revocation db db' eid e).
Qed.

Lemma enqueue_revocations_refine scope p rows db u db' :
  enqueue_revocations scope p rows db = Ok (u, db') → rtc transition db db'.
Proof.
  revert db. induction rows as [|[id r] rows IH]; intros db; simpl; [by intros [_ ->]%mret_ok|].
  rewrite tx_bind_ok. intros (u1 & db1 & Hi & Hr).
  eapply rtc_l; [by eapply insert_revocation_refines | by eapply IH].
Qed.

Lemma cascade_refines scope p db n db' :
  cascade_flow_developer_credential_contexts scope p db = Ok (n, db') → rtc transition db db'.
Proof.
  unfold cascade_flow_developer_credential_contexts. rewrite tx_bind_ok.
  intros (rows & db0 & [-> ->]%query_ok & Hrun).
  destruct (is_nil _); [by apply mret_ok in Hrun as [_ ->]|]. tx_inv Hrun. subst.
  eapply rtc_agrees_l; [|by eapply enqueue_revocations_refine]. done.
Qed.

Lemma revoke_and_notify_refines id body db u db' :
  revoke_and_notify id body db = Ok (u, db') → rtc transition db db'.
Proof.
  unfold revoke_and_notify. rewrite tx_bind_ok. intros (u1 & db1 & ->%statement_ok & Hi).
  eapply rtc_agrees_l; [|by eapply rtc_once, insert_revocation_refines]. done.
Qed.

Lemma rtc_agrees_r a b c : rtc transition a b → agrees b c → rtc transition a c.
Proof. intros Hr Ha. eapply rtc_r; [done | by apply agrees_transition]. Qed.

(** Take apart what leaves services and outbox alone. *)
Ltac quiet :=
  repeat match goal with
  | Hi : insert_context _ _ _ = _ |- _ => apply insert_context_ok in Hi as [_ ->]
  | Hu : append_audit _ _ = _ |- _ => apply append_audit_ok in Hu as ->
  | Ha : alter_credential _ _ _ = _ |- _ => apply statement_ok in Ha; subst
  | Hp : prune_flow_access_context_history _ _ = _ |- _ => apply statement_ok in Hp; subst
  | Hn : now_v7 _ = _ |- _ => apply now_v7_ok in Hn as [-> ->]
  | Hr : require _ _ = _ |- _ => apply require_ok in Hr as [_ ->]
  | Ho : optional _ (find_service _ _) _ = _ |- _ => apply optional_query_ok in Ho as [_ ->]
  | Ho : optional _ (query _) _ = _ |- _ => apply optional_query_ok in Ho as [_ ->]
  | Hm : mret _ _ = Ok _ |- _ => apply mret_ok in Hm as [_ ->]
  end; subst.

(** ** Reachable states *)

Section Reachable.
Context `{LimitsDecoder, UuidText, TimeText}.

Inductive flow_request (db db' : Db) : Prop :=
| request_create input x : create_flow_developer_credential input db = Ok (x, db') → flow_request db db'
| request_revoke org service id p x :
    revoke_flow_developer_credential org service id p db = Ok (x, db') → flow_request db db'
| request_rotate org service id prefix hash p x :
    rotate_flow_developer_credential org service id prefix hash p db = Ok (x, db') → flow_request db db'
| request_record input x :
    context_credential (new_context input) = None → context_revoked_at (new_context input) = None →
    record_flow_access_context input db = Ok (x, db') → flow_request db db'
| request_mint input x :
    mint_flow_access_context_with_developer_credential input db = Ok (x, db') → flow_request db db'
| request_list prefix hash limit x :
    list_flow_access_contexts_for_developer_credential prefix hash limit db = Ok (x, db') →
    flow_request db db'
| request_revoke_by_credential prefix hash id x :
    revoke_flow_access_context_with_developer_credential prefix hash id db = Ok (x, db') →
    flow_request db db'
| request_revoke_context org service id p x :
    revoke_flow_access_context org service id p db = Ok (x, db') → flow_request db db'.

(** A request, the end of a deletion, or anything that leaves the two tables
    alone: time passes, workers deliver events, other requests add some. *)
Inductive flow_step (db db' : Db) : Prop :=
| step_request : flow_request db db' → flow_step db db'
| step_delete id prov g x :
    complete_delete_service_instance id prov g db = Ok (x, db') → flow_step db db'
| step_other :
    flow db' = flow db → now db ≤ now db' → events_kept (outbox_events db) (outbox_events db') →
    flow_step db db'.

Lemma flow_request_wf db db' : flow_wf db → flow_request db db' → flow_wf db'.
Proof.
  intros Hwf. destruct 1.
  - by eapply create_credential_wf.
  - by eapply revoke_credential_wf.
  - by eapply rotate_credential_wf.
  - by eapply record_context_wf.
  - by eapply mint_wf.
  - by eapply list_for_credential_wf.
  - by eapply revoke_with_credential_wf.
  - by eapply revoke_context_wf.
Qed.

Lemma create_credential_agrees input db x db' :
  create_flow_developer_credential input db = Ok (x, db') → agrees db db'.
Proof. unfold create_flow_developer_credential. intros Hrun. tx_inv Hrun. quiet. done. Qed.

Lemma record_context_agrees input db x db' :
  record_flow_access_context input db = Ok (x, db') → agrees db db'.
Proof. unfold record_flow_access_context. intros Hrun. tx_inv Hrun. quiet. done. Qed.

Lemma mint_agrees input db x db' :
  mint_flow_access_context_with_developer_credential input db = Ok (x, db') → agrees db db'.
Proof.
  unfold mint_flow_access_context_with_developer_credential. rewrite tx_bind_ok.
  intros (row & db0 & [-> ->]%query_ok & Hrun). destruct (credential_by_secret _ _ db) as [scope|]; [|by quiet].
  destruct (negb (bool_decide _)); [by quiet|]. destruct (negb (forallb _ _)); [by quiet|].
  tx_inv Hrun. quiet. done.
Qed.

Lemma list_for_credential_agrees prefix hash limit db x db' :
  list_flow_access_contexts_for_developer_credential prefix hash limit db = Ok (x, db') → agrees db db'.
Proof.
  unfold list_flow_access_contexts_for_developer_credential. rewrite tx_bind_ok.
  intros (row & db0 & [-> ->]%query_ok & Hrun). destruct (credential_by_secret _ _ db) as [scope|]; [|by quiet].
  tx_inv Hrun. quiet. done.
Qed.

Lemma flow_request_refines db db' : flow_request db db' → rtc transition db db'.
Proof.
  destruct 1 as [? ? Hr | ? ? ? ? ? Hr | ? ? ? ? ? ? ? Hr | ? ? _ _ Hr | ? ? Hr | ? ? ? ? Hr
    | ? ? ? ? Hr | ? ? ? ? ? Hr].
  - eapply rtc_once, agrees_transition, create_credential_agrees. done.
  - unfold revoke_flow_developer_credential in Hr. rewrite tx_bind_ok in Hr.
    destruct Hr as (row & db0 & [-> ->]%query_ok & Hr). destruct (credential_scope _ _ _ db) as [scope|]; [|by quiet].
    rewrite tx_bind_ok in Hr. destruct Hr as (u & db1 & Ha & Hr). tx_inv Hr. subst.
    eapply rtc_agrees_l; [|by eapply cascade_refines]. destruct (negb _); quiet; done.
  - unfold rotate_flow_developer_credential in Hr. tx_inv Hr. quiet.
    eapply rtc_agrees_l; [|by eapply cascade_refines]. done.
  - eapply rtc_once, agrees_transition, record_context_agrees. done.
  - eapply rtc_once, agrees_transition, mint_agrees. done.
  - eapply rtc_once, agrees_transition, list_for_credential_agrees. done.
  - unfold revoke_flow_access_context_with_developer_credential in Hr. rewrite tx_bind_ok in Hr.
    destruct Hr as (row & db0 & [-> ->]%query_ok & Hr). destruct (credential_by_secret _ _ db) as [scope|]; [|by quiet].
    rewrite tx_bind_ok in Hr. destruct Hr as (context & db0 & [-> ->]%query_ok & Hr).
    rewrite tx_bind_ok in Hr. destruct Hr as (u & db1 & Hrev & Hr). tx_inv Hr. quiet.
    eapply (rtc_agrees_r _ db1); [|done]. destruct (mbind _ _) as [r|]; [|by quiet]. simpl in Hrev.
    destruct (negb _); [by eapply revoke_and_notify_refines | by quiet].
  - unfold revoke_flow_access_context in Hr. rewrite tx_bind_ok in Hr.
    destruct Hr as (row & db0 & [-> ->]%query_ok & Hr). destruct (mbind _ _) as [[r s]|]; [|by quiet].
    destruct (is_some _); [by quiet|]. tx_inv Hr. subst. by eapply revoke_and_notify_refines.
Qed.

Lemma flow_step_wf db db' : flow_wf db → flow_step db db' → flow_wf db'.
Proof.
  intros Hwf. destruct 1.
  - by eapply flow_request_wf.
  - by eapply complete_delete_wf.
  - by eapply wf_same_flow.
Qed.

Lemma empty_flow_wf db : flow db = empty_flow → flow_wf db.
Proof. intros Hf. constructor; unfold contexts, credentials; rewrite Hf; intros ??; set_solver. Qed.

Lemma flow_reachable_wf db db' : flow_wf db → rtc flow_step db db' → flow_wf db'.
Proof. intros Hwf Hr. induction Hr; [done | eauto using flow_step_wf]. Qed.

End Reachable.

(** ** Properties *)

Section FlowProperties.
Context `{LimitsDecoder, UuidText, TimeText}.

(** C35: In every reachable state each access context lives 30 to 300 seconds,
    has known permissions, and, if it was minted with a credential, is of the
    service of the credential, has no permission the credential lacks and is no
    longer usable once the credential is revoked; each revoked context has its
    event for the provider; and no two credentials share a prefix. *)
Theorem flow_access_invariant db db' :
  flow db = empty_flow → rtc flow_step db db' → flow_wf db'.
Proof. intros Hf. by apply flow_reachable_wf, empty_flow_wf. Qed.

(** C36: Revoking a credential always succeeds and takes effect at once: the
    credential is revoked and no secret resolves to it any more, none of its
    contexts is usable, and every context that was usable has a new undelivered
    event that tells the provider to drop it. *)
Theorem credential_revocation_takes_effect org service id p scope db :
  flow_wf db → uuid_fresh db → credential_scope org service id db = Some scope →
  ∃ x db', revoke_flow_developer_credential org service id p db = Ok (x, db') ∧
    (∃ c, credentials db' !! id = Some c ∧ is_Some (credential_revoked_at c)) ∧
    (∀ prefix hash s, credential_by_secret prefix hash db' = Some s → scope_credential_id s ≠ id) ∧
    (∀ cid r, contexts db' !! cid = Some r → context_credential r = Some id →
       context_live (now db') r = false) ∧
    (∀ cid r, contexts db !! cid = Some r → context_credential r = Some id →
       context_live (now db) r = true →
       ∃ eid e, outbox_events db !! eid = None ∧ outbox_events db' !! eid = Some e ∧
         delivered_at e = None ∧ revocation_notice cid (context_expires_at r) e).
Proof.
  intros Hwf Hfresh Hscope. destruct (credential_scope_some _ _ _ _ _ Hscope) as (<- & Hc & _).
  set (revoked := negb (is_some (credential_revoked_at (scope_credential scope)))).
  set (db1 := if revoked then set_credentials (alter (revoke_credential (now db)) (scope_credential_id scope)
                                                 (credentials db)) db else db).
  assert (Hctx1 : contexts db1 = contexts db) by (unfold db1; by destruct revoked).
  assert (Hnow1 : now db1 = now db) by (unfold db1; by destruct revoked).
  assert (Hout1 : outbox_events db1 = outbox_events db) by (unfold db1; by destruct revoked).
  assert (Hcred1 : ∃ c, credentials db1 !! scope_credential_id scope = Some c ∧ is_Some (credential_revoked_at c)).
  { unfold db1, revoked. destruct (credential_revoked_at (scope_credential scope)) eqn:Hr; simpl.
    - exists (scope_credential scope). by rewrite Hr.
    - exists (revoke_credential (now db) (scope_credential scope)). unfold credentials in *. simpl.
      by rewrite lookup_alter_eq, Hc. }
  destruct (cascade_total scope p db1) as (n & db' & Hrun).
  { unfold db1. destruct revoked; exact Hfresh. }
  destruct (cascade_ok _ _ _ _ _ Hrun) as ([Hn _ Hout] & Hcr & Hctx & _ & Hev).
  rewrite Hnow1, Hctx1, Hout1 in *. exists (Build_FlowDeveloperCredentialRevocation revoked n), db'.
  split_and!.
  - unfold revoke_flow_developer_credential. apply tx_bind_ok. exists (Some scope), db.
    split; [by rewrite <- Hscope|]. cbv beta iota. fold revoked. apply tx_bind_ok. exists (), db1.
    split; [unfold db1; by destruct revoked|]. apply tx_bind_ok. by eexists _, _.
  - by rewrite Hcr.
  - intros prefix hash s (Hs & _ & _ & Hlive & _)%credential_by_secret_some Heq.
    rewrite Heq, Hcr in Hs. destruct Hcred1 as (c & Hc1 & Hrev). simplify_eq. unfold credential_live in Hlive.
    by destruct (credential_revoked_at (scope_credential s)); [|destruct Hrev].
  - rewrite Hctx, Hn. intros cid r. by apply cascade_kills.
  - intros cid r Hr Hcid Hlive. apply Hev; [done|]. by eapply live_cascaded.
Qed.

Lemma not_all_permissions (l k : list string) :
  forallb (λ p, bool_decide (p ∈ k)) l = false → ∃ p, p ∈ l ∧ p ∉ k.
Proof.
  induction l as [|p l IH]; simpl; [done|]. destruct (bool_decide_reflect (p ∈ k)); simpl; [|set_solver].
  intros Hl. destruct (IH Hl) as (q & ? & ?). set_solver.
Qed.

Lemma all_permissions (l k : list string) :
  forallb (λ p, bool_decide (p ∈ k)) l = true → ∀ p, p ∈ l → p ∈ k.
Proof.
  rewrite forallb_forall. intros Hall p Hp. apply list_elem_of_In, Hall in Hp.
  by apply bool_decide_true_iff in Hp.
Qed.

(** Minting issues a context only for the secret of a live credential of a
    ready Flow service and only with permissions of the credential; the context
    is recorded and audited, at most 100 unusable contexts of the service are
    kept, and a refusal changes nothing. *)
Lemma mint_outcome input db outcome db' :
  mint_flow_access_context_with_developer_credential input db = Ok (outcome, db') →
  match outcome with
  | Issued s => ∃ scope, credential_by_secret (mint_prefix input) (mint_secret_hash input) db = Some scope ∧
      minted_credential_id s = scope_credential_id scope ∧
      credential_live (now db) (scope_credential scope) = true ∧
      state (scope_service scope) = Ready ∧
      (∀ p, p ∈ mint_permissions input → p ∈ credential_permissions (scope_credential scope)) ∧
      (now db < mint_expires_at input →
       contexts db' !! mint_context_id input = Some (minted_context scope input)) ∧
      (size (dead_contexts (credential_service (scope_credential scope)) db')
       ≤ MAX_FLOW_ACCESS_CONTEXT_RECORDS_PER_SERVICE)%nat ∧
      audit_events db' = audit_events db ++ [mint_audit scope input]
  | InvalidCredential => credential_by_secret (mint_prefix input) (mint_secret_hash input) db = None ∧ db' = db
  | PermissionDenied => (∃ scope p,
      credential_by_secret (mint_prefix input) (mint_secret_hash input) db = Some scope ∧
      p ∈ mint_permissions input ∧ p ∉ credential_permissions (scope_credential scope)) ∧ db' = db
  | ServiceInstanceNotReady => db' = db
  end.
Proof.
  unfold mint_flow_access_context_with_developer_credential. rewrite tx_bind_ok.
  intros (row & db0 & [-> ->]%query_ok & Hrun).
  destruct (credential_by_secret _ _ db) as [scope|] eqn:Hscope; [|by apply mret_ok in Hrun as [-> ->]].
  destruct (negb (bool_decide _)) eqn:Hready; [by apply mret_ok in Hrun as [-> ->]|].
  destruct (negb (forallb _ _)) eqn:Hperm.
  - apply mret_ok in Hrun as [-> ->]. apply negb_true_iff in Hperm.
    destruct (not_all_permissions _ _ Hperm) as (p & ? & ?). eauto 6.
  - apply negb_false_iff in Hperm. apply negb_false_iff, bool_decide_true_iff in Hready.
    tx_inv Hrun. subst. exists scope.
    repeat match goal with
    | Hi : insert_context _ _ _ = _ |- _ => apply insert_context_ok in Hi as [_ ->]
    | Hu : append_audit _ _ = _ |- _ => apply append_audit_ok in Hu as ->
    | Ha : alter_credential _ _ _ = _ |- _ => apply statement_ok in Ha; subst
    | Hp : prune_flow_access_context_history _ _ = _ |- _ =>
        pose proof Hp as Haudit%statement_ok; apply prune_bounds in Hp as (Hnow & Hkeep & Hsize)
    end.
    split_and!; try done.
    + by apply credential_by_secret_some in Hscope as (_ & _ & _ & ? & _).
    + by apply all_permissions.
    + intros Hexp. apply Hkeep; [unfold contexts; simpl; apply lookup_insert_eq|].
      unfold context_live. simpl. lia.
    + simpl. by rewrite Haudit.
Qed.

(** Rotation replaces the secret at once: given a free prefix it succeeds,
    the new secret resolves to the credential and the old one to nothing, and
    no context minted before is usable. *)
Lemma rotation_retires_secret org service id prefix hash p scope db :
  flow_wf db → uuid_fresh db → credential_scope org service id db = Some scope →
  credential_live (now db) (scope_credential scope) = true →
  valid_prefix prefix = true → prefix_free prefix id db = true →
  secret_hash (scope_credential scope) ≠ hash →
  ∃ n db', rotate_flow_developer_credential org service id prefix hash p db = Ok (n, db') ∧
    (∃ s, credential_by_secret prefix hash db' = Some s ∧ scope_credential_id s = id) ∧
    credential_by_secret (credential_prefix (scope_credential scope))
      (secret_hash (scope_credential scope)) db' = None ∧
    (∀ cid r, contexts db' !! cid = Some r → context_credential r = Some id →
       context_live (now db') r = false).
Proof.
  intros Hwf Hfresh Hscope Hlive Hvalid Hfree Hnew.
  destruct (credential_scope_some _ _ _ _ _ Hscope) as (<- & Hc & Horg & Hserv & Hflow).
  set (id := scope_credential_id scope) in *.
  set (db1 := set_credentials (alter (set_secret prefix hash) id (credentials db)) db).
  destruct (cascade_total scope p db1) as (n & db' & Hrun); [exact Hfresh|].
  destruct (cascade_ok _ _ _ _ _ Hrun) as ([Hn Hsvc _] & Hcr & Hctx & _).
  assert (Hrot : rotate_flow_developer_credential org service id prefix hash p db = Ok (n, db')).
  { unfold rotate_flow_developer_credential. apply tx_bind_ok. exists scope, db.
    split; [apply optional_query_ok; by rewrite Hscope; simpl; rewrite Hlive|].
    apply tx_bind_ok. exists (), db. split; [apply require_ok; by rewrite Hvalid, Hfree|].
    apply tx_bind_ok. by exists (), db1. }
  assert (Hwf' : flow_wf db') by (by eapply rotate_credential_wf).
  assert (Hid : credentials db' !! id = Some (set_secret prefix hash (scope_credential scope))).
  { rewrite Hcr. unfold credentials at 1, db1. simpl. by rewrite lookup_alter_eq, Hc. }
  assert (Hfs : flow_service service db' = Some (scope_service scope)).
  { unfold flow_service in *. by rewrite Hsvc. }
  exists n, db'. split_and!; [done | | |].
  - exists (Build_CredentialScope id (set_secret prefix hash (scope_credential scope)) (scope_service scope)).
    split; [|done]. apply credential_by_secret_iff; [done|]. simpl. rewrite Hn, Hserv. done.
  - destruct (credential_by_secret _ _ db') as [s|] eqn:Hs; [|done]. exfalso.
    apply credential_by_secret_some in Hs as (Hs & Hpre & Hhash & _).
    destruct (decide (scope_credential_id s = id)) as [Heq|Hne].
    + rewrite Heq, Hid in Hs. injection Hs as Hs. rewrite <- Hs in Hhash. simpl in Hhash. done.
    + rewrite Hcr in Hs. unfold credentials at 1, db1 in Hs. simpl in Hs. rewrite lookup_alter_ne in Hs by done.
      apply Hne. by eapply (wf_prefixes _ Hwf).
  - rewrite Hctx, Hn. intros cid r. by apply (cascade_kills scope db).
Qed.

End FlowProperties.
