(* ===== verification/CloudFacts.v ===== *)
(** * Correctness of cloud organizations

    Every operation keeps the units of an organization a tree of bounded depth
    in which every unit and every account has between one and ten service
    control policies; on such a tree the levels an account is evaluated under
    are complete. *)
From stdpp Require Import sorting.
From S2P Require Import Prelude Text Json Policy Iam Quota Store Services Cloud Lifecycle.

(** ** Well-formed organizations *)

(** Unit [id] is [n - 1] steps below the root of [org]. *)
Inductive rooted (units : gmap Uuid UnitRow) (org : Uuid) : Uuid → nat → Prop :=
| rooted_root id u :
    units !! id = Some u → unit_organization u = org → unit_parent u = None → rooted units org id 1
| rooted_below id u p n :
    units !! id = Some u → unit_organization u = org → unit_parent u = Some p →
    rooted units org p n → rooted units org id (S n).

(** The units of an organization form a tree of depth six, the root included. *)
Definition MAX_LEVELS : nat := 6.

Definition scps_wf (org : Uuid) (policies : gmap Uuid ScpRow) (attached : option (gset Uuid)) : Prop :=
  ∃ ps, attached = Some ps ∧ 1 ≤ Z.of_nat (size ps) ≤ MAX_ATTACHED_POLICIES ∧
    ∀ p, p ∈ ps → ∃ row, policies !! p = Some row ∧ scp_organization row = org.

Record cloud_wf (db : Db) : Prop := {
  wf_management org m : cloud_management_accounts db !! org = Some m →
    cloud_organization_accounts db !! m = Some org ∧
    (∃ r u, organizational_units (cloud db) !! r = Some u ∧ unit_organization u = org ∧
       unit_parent u = None) ∧
    1 ≤ Z.of_nat (size (managed_policies org (cloud db))) ≤ MAX_ATTACHED_POLICIES;
  wf_account a org : cloud_organization_accounts db !! a = Some org →
    a ∈ organizations db ∧ is_Some (cloud_management_accounts db !! org) ∧
    (∃ p n, account_parents (cloud db) !! a = Some p ∧
       rooted (organizational_units (cloud db)) org p n ∧ (n ≤ MAX_LEVELS)%nat) ∧
    scps_wf org (service_control_policies (cloud db)) (account_attachments (cloud db) !! a);
  wf_unit id u : organizational_units (cloud db) !! id = Some u →
    is_Some (cloud_management_accounts db !! unit_organization u) ∧
    (∃ n, rooted (organizational_units (cloud db)) (unit_organization u) id n ∧ (n ≤ MAX_LEVELS)%nat) ∧
    scps_wf (unit_organization u) (service_control_policies (cloud db)) (unit_attachments (cloud db) !! id);
  wf_policy p row : service_control_policies (cloud db) !! p = Some row →
    is_Some (cloud_management_accounts db !! scp_organization row);
}.

(** *** Facts *)

Lemma rooted_insert units org id u x n :
  units !! id = None → rooted units org x n → rooted (<[id := u]> units) org x n.
Proof.
  intros Hfree Hr. induction Hr as [y v Hy Ho Hp | y v p n Hy Ho Hp _ IH].
  - eapply rooted_root; [|done|done]. rewrite lookup_insert_ne; [done|]. intros ->. congruence.
  - eapply rooted_below; [|done|done|exact IH]. rewrite lookup_insert_ne; [done|]. intros ->. congruence.
Qed.

Lemma rooted_unique units org id n m : rooted units org id n → rooted units org id m → n = m.
Proof.
  intros Hn. revert m. induction Hn as [x u Hx Ho Hp | x u p n Hx Ho Hp _ IH]; intros m Hm;
    inversion Hm; simplify_eq; [done|]. f_equal. by apply IH.
Qed.

Lemma rooted_positive units org id n : rooted units org id n → (1 ≤ n)%nat.
Proof. destruct 1; lia. Qed.

(** A unit was not visited if only units below it were. *)
Lemma rooted_fresh units org id n (visited : list Uuid) :
  rooted units org id n →
  (∀ v, v ∈ visited → ∃ m, rooted units org v m ∧ (n < m)%nat) → id ∉ visited.
Proof.
  intros Hr Hv Hin. destruct (Hv id Hin) as (m & Hm & Hlt).
  pose proof (rooted_unique _ _ _ _ _ Hm Hr). lia.
Qed.

(** The recursive query follows the chain to the root. *)
Lemma ancestors_rooted units org fuel visited id n :
  rooted units org id n → (n ≤ fuel)%nat →
  (∀ v, v ∈ visited → ∃ m, rooted units org v m ∧ (n < m)%nat) →
  let l := ancestors fuel units org visited id in
  length l = n ∧ reaches_root l = true ∧ ∀ x u, (x, u) ∈ l → units !! x = Some u ∧ unit_organization u = org.
Proof.
  intros Hr. revert fuel visited.
  induction Hr as [x u Hx Ho Hp | x u p n Hx Ho Hp Hr' IH]; intros fuel visited Hfuel Hv;
    (destruct fuel as [|fuel]; [lia|]); simpl.
  - assert (x ∉ visited) by (eapply rooted_fresh; [|exact Hv]; by eapply rooted_root).
    rewrite bool_decide_false, Hx, bool_decide_true, Hp by done.
    unfold reaches_root. simpl. rewrite Hp. split_and!; try done. intros y v.
    rewrite list_elem_of_singleton. by intros [= -> ->].
  - assert (x ∉ visited) by (eapply rooted_fresh; [|exact Hv]; by eapply rooted_below).
    rewrite bool_decide_false, Hx, bool_decide_true, Hp by done.
    destruct (IH fuel (x :: visited)) as (Hlen & Hroot & Hall); [lia | |].
    { intros v [-> | Hin]%elem_of_cons; [exists (S n); split; [by eapply rooted_below | lia]|].
      destruct (Hv v Hin) as (m & Hm & Hlt). exists m. split; [done | lia]. }
    unfold reaches_root in *. simpl. split_and!.
    + by rewrite Hlen.
    + rewrite Hroot. by destruct (unit_parent u).
    + intros y v [[= -> ->] | Hin]%elem_of_cons; [done | by apply Hall].
Qed.

(** The longest chain visits every unit once. *)
Lemma rooted_size units org id n : rooted units org id n → (n ≤ size units)%nat.
Proof.
  intros Hr. cut (∃ X : gset Uuid, X ⊆ dom units ∧ size X = n ∧
    ∀ x, x ∈ X → ∃ m, rooted units org x m ∧ (m ≤ n)%nat).
  { intros (X & Hsub & <- & _). apply subseteq_size in Hsub. by rewrite size_dom in Hsub. }
  induction Hr as [x u Hx Ho Hp | x u p n Hx Ho Hp Hr (X & Hsub & Hsize & Hall)].
  - exists {[x]}. split_and!.
    + apply elem_of_dom_2 in Hx. set_solver.
    + apply size_singleton.
    + intros y ->%elem_of_singleton. exists 1%nat. split; [by eapply rooted_root | lia].
  - exists ({[x]} ∪ X). split_and!.
    + apply elem_of_dom_2 in Hx. set_solver.
    + rewrite size_union, size_singleton, Hsize; [done|]. apply disjoint_singleton_l. intros Hin.
      destruct (Hall x Hin) as (m & Hm & Hle). assert (m = S n); [|lia].
      eapply rooted_unique; [exact Hm | by eapply rooted_below].
    + intros y [->%elem_of_singleton | Hin]%elem_of_union.
      * exists (S n). split; [by eapply rooted_below | lia].
      * destruct (Hall y Hin) as (m & ? & ?). exists m. split; [done | lia].
Qed.

Lemma ancestors_of_rooted c org id n :
  rooted (organizational_units c) org id n →
  let l := ancestors_of c org id in
  length l = n ∧ reaches_root l = true ∧
  ∀ x u, (x, u) ∈ l → organizational_units c !! x = Some u ∧ unit_organization u = org.
Proof.
  intros Hr. apply ancestors_rooted; [done | |].
  - apply rooted_size in Hr. lia.
  - intros v Hv. by apply not_elem_of_nil in Hv.
Qed.

(** *** Policies of a target *)

Lemma elem_of_managed p org c :
  p ∈ managed_policies org c ↔
  ∃ row, service_control_policies c !! p = Some row ∧ scp_organization row = org ∧ is_managed row = true.
Proof.
  unfold managed_policies. rewrite elem_of_dom. split.
  - intros [row Hrow]. apply map_lookup_filter_Some in Hrow as [Hrow [? ?]]. eauto.
  - intros (row & Hrow & Ho & Hm). exists row. by apply map_lookup_filter_Some.
Qed.

Lemma managed_scps_wf org c :
  1 ≤ Z.of_nat (size (managed_policies org c)) ≤ MAX_ATTACHED_POLICIES →
  scps_wf org (service_control_policies c) (Some (managed_policies org c)).
Proof.
  intros Hsize. exists (managed_policies org c). split_and!; [done | lia | lia |].
  intros p (row & Hrow & Ho & _)%elem_of_managed. eauto.
Qed.

Lemma scps_wf_mono org (p p' : gmap Uuid ScpRow) attached :
  (∀ id row, p !! id = Some row → scp_organization row = org → p' !! id = Some row) →
  scps_wf org p attached → scps_wf org p' attached.
Proof.
  intros Hp (ps & -> & Hsize & Hall). exists ps. split_and!; [done | lia | lia |].
  intros q Hq. destruct (Hall q Hq) as (row & Hrow & Ho). exists row. eauto.
Qed.

Lemma scps_choose org policies ps :
  scps_wf org policies (Some ps) →
  ∃ p row, p ∈ ps ∧ policies !! p = Some row ∧ scp_organization row = org.
Proof.
  intros (qs & [= <-] & Hsize & Hall). destruct (set_choose_L ps) as [p Hp].
  { intros ->. rewrite size_empty in Hsize. lia. }
  destruct (Hall p Hp) as (row & ? & ?). eauto.
Qed.

Lemma scps_attach org policies ps policy row :
  scps_wf org policies (Some ps) → policies !! policy = Some row → scp_organization row = org →
  (Z.of_nat (size ps) < MAX_ATTACHED_POLICIES ∨ policy ∈ ps) →
  scps_wf org policies (Some ({[policy]} ∪ ps)).
Proof.
  intros (qs & [= <-] & Hsize & Hall) Hrow Ho Hroom. exists ({[policy]} ∪ ps). split; [done|]. split.
  - destruct (decide (policy ∈ ps)) as [Hin|Hnot].
    + assert ({[policy]} ∪ ps = ps) as -> by set_solver. lia.
    + rewrite size_union, size_singleton by set_solver. destruct Hroom; [lia | done].
  - intros p [->%elem_of_singleton | Hp]%elem_of_union; eauto.
Qed.

Lemma scps_detach org policies ps policy :
  scps_wf org policies (Some ps) → 1 < Z.of_nat (size ps) → policy ∈ ps →
  scps_wf org policies (Some (ps ∖ {[policy]})).
Proof.
  intros (qs & [= <-] & Hsize & Hall) Hmore Hin. exists (ps ∖ {[policy]}). split; [done|]. split.
  - rewrite size_difference, size_singleton by set_solver. lia.
  - intros p Hp. apply Hall. set_solver.
Qed.

Lemma managed_policies_ext org c c' :
  (∀ p row, scp_organization row = org → is_managed row = true →
     service_control_policies c' !! p = Some row ↔ service_control_policies c !! p = Some row) →
  managed_policies org c' = managed_policies org c.
Proof.
  intros Hext. apply set_eq. intros p. rewrite !elem_of_managed.
  split; intros (row & Hrow & ? & ?); exists row; split_and!; try done; by apply Hext.
Qed.

Lemma rooted_mono units units' org id n :
  (∀ x u, units !! x = Some u → unit_organization u = org → units' !! x = Some u) →
  rooted units org id n → rooted units' org id n.
Proof.
  intros Hu Hr. induction Hr; [eapply rooted_root | eapply rooted_below]; eauto.
Qed.

(** The name of a unit does not matter. *)
Lemma rooted_renamed units org x u name id n :
  units !! x = Some u →
  rooted units org id n →
  rooted (<[x := Build_UnitRow (unit_organization u) (unit_parent u) name]> units) org id n.
Proof.
  intros Hx Hr. induction Hr as [y v Hy Ho Hp | y v p n Hy Ho Hp _ IH];
    (destruct (decide (x = y)) as [->|Hne]; [simplify_eq|]).
  - eapply rooted_root; [apply lookup_insert_eq | done | done].
  - eapply rooted_root; [by rewrite lookup_insert_ne | done | done].
  - eapply rooted_below; [apply lookup_insert_eq | done | done | done].
  - eapply rooted_below; [by rewrite lookup_insert_ne | done | done | done].
Qed.

(** *** Preservation *)

(** Changes that leave the tree alone. *)
Lemma wf_ext db db' :
  cloud_wf db →
  cloud_organization_accounts db' = cloud_organization_accounts db →
  cloud_management_accounts db' = cloud_management_accounts db →
  organizations db ⊆ organizations db' →
  organizational_units (cloud db') = organizational_units (cloud db) →
  account_parents (cloud db') = account_parents (cloud db) →
  service_control_policies (cloud db') = service_control_policies (cloud db) →
  unit_attachments (cloud db') = unit_attachments (cloud db) →
  account_attachments (cloud db') = account_attachments (cloud db) → cloud_wf db'.
Proof.
  intros [Wm Wa Wu Wp] Ea Em Eo Eu Ep Es Eua Eaa.
  assert (Emp : ∀ org, managed_policies org (cloud db') = managed_policies org (cloud db)).
  { intros org. unfold managed_policies. by rewrite Es. }
  constructor; rewrite ?Ea, ?Em, ?Eu, ?Ep, ?Es, ?Eua, ?Eaa.
  - intros org m Hm. rewrite Emp. eauto.
  - intros a org Ha. destruct (Wa a org Ha) as (Hin & ?). split; [set_solver | done].
  - eauto.
  - eauto.
Qed.

(** A new unit below an existing one. *)
Lemma wf_insert_unit db db' id org parent name n m :
  cloud_wf db → organizational_units (cloud db) !! id = None →
  cloud_management_accounts db !! org = Some m →
  rooted (organizational_units (cloud db)) org parent n → (S n ≤ MAX_LEVELS)%nat →
  db' = set_cloud (set_unit_attachments
          (<[id := managed_policies org (cloud db)]> (unit_attachments (cloud db)))
          (set_units (<[id := Build_UnitRow org (Some parent) name]> (organizational_units (cloud db)))
             (cloud db))) db →
  cloud_wf db'.
Proof.
  intros [Wm Wa Wu Wp] Hfree Hm Hr Hn ->.
  assert (Hmono : ∀ o x k, rooted (organizational_units (cloud db)) o x k →
    rooted (<[id := Build_UnitRow org (Some parent) name]> (organizational_units (cloud db))) o x k)
    by (intros; by apply rooted_insert).
  constructor; simpl.
  - intros o m' Hm'. destruct (Wm o m' Hm') as (Ha & (r & u & Hu & ?) & Hs).
    split_and!; [done | | apply Hs | apply Hs]. exists r, u.
    rewrite lookup_insert_ne; [done|]. intros ->. congruence.
  - intros a o Ha. destruct (Wa a o Ha) as (? & ? & (p & k & Hp & Hk & Hle) & ?).
    split_and!; try done. exists p, k. auto.
  - intros id' u [[<- <-] | [Hne Hu]]%lookup_insert_Some; simpl.
    + split_and!; [by rewrite Hm | |].
      * exists (S n). split; [|done]. eapply rooted_below; [apply lookup_insert_eq | done | done | auto].
      * rewrite lookup_insert_eq. apply managed_scps_wf. by apply (Wm org m).
    + destruct (Wu id' u Hu) as (? & (k & Hk & Hle) & ?). rewrite lookup_insert_ne by done.
      split_and!; try done. exists k. auto.
  - eauto.
Qed.

(** A new account in a unit. *)
Lemma wf_insert_account db db' a org parent n m :
  cloud_wf db → cloud_organization_accounts db !! a = None → a ∈ organizations db →
  cloud_management_accounts db !! org = Some m →
  rooted (organizational_units (cloud db)) org parent n → (n ≤ MAX_LEVELS)%nat →
  db' = set_cloud (set_account_attachments
          (<[a := managed_policies org (cloud db)]> (account_attachments (cloud db)))
          (set_parents (<[a := parent]> (account_parents (cloud db))) (cloud db)))
          (set_cloud_accounts (<[a := org]> (cloud_organization_accounts db))
             (cloud_management_accounts db) db) →
  cloud_wf db'.
Proof.
  intros [Wm Wa Wu Wp] Hfree Hin Hm Hr Hn ->. constructor; simpl.
  - intros o m' Hm'. destruct (Wm o m' Hm') as (Ha & ? & ?). split; [|done].
    rewrite lookup_insert_ne; [done|]. intros ->. congruence.
  - intros a' o [[<- <-] | [Hne Ha]]%lookup_insert_Some.
    + rewrite !lookup_insert_eq, Hm. split_and!; [done | done | by exists parent, n |].
      apply managed_scps_wf. by apply (Wm org m).
    + rewrite !lookup_insert_ne by done. eauto.
  - eauto.
  - eauto.
Qed.

(** A policy that is not attached by default. *)
Lemma wf_insert_policy db db' id org name v :
  cloud_wf db → service_control_policies (cloud db) !! id = None →
  is_Some (cloud_management_accounts db !! org) →
  db' = set_cloud (set_policies (<[id := Build_ScpRow org name v false]>
          (service_control_policies (cloud db))) (cloud db)) db →
  cloud_wf db'.
Proof.
  intros [Wm Wa Wu Wp] Hfree Horg ->.
  assert (Hext : ∀ o, managed_policies o (set_policies (<[id := Build_ScpRow org name v false]>
    (service_control_policies (cloud db))) (cloud db)) = managed_policies o (cloud db)).
  { intros o. apply managed_policies_ext. simpl. intros p row _ Hman. rewrite lookup_insert_Some.
    split; [intros [[_ <-] | [_ ?]]; done|]. intros Hp. right. split; [|done]. intros ->. congruence. }
  assert (Hmono : ∀ o att, scps_wf o (service_control_policies (cloud db)) att →
    scps_wf o (<[id := Build_ScpRow org name v false]> (service_control_policies (cloud db))) att).
  { intros o att. apply scps_wf_mono. intros p row Hp _. rewrite lookup_insert_ne; [done|].
    intros ->. congruence. }
  constructor; simpl.
  - intros o m Hm. rewrite Hext. eauto.
  - intros a o Ha. destruct (Wa a o Ha) as (? & ? & ? & ?). auto.
  - intros x u Hu. destruct (Wu x u Hu) as (? & ? & ?). auto.
  - intros p row [[_ <-] | [_ Hp]]%lookup_insert_Some; [done | eauto].
Qed.

(** The policies of one target change. *)
Lemma wf_attachments db t org target ps :
  cloud_wf db → target_exists t org target db = true →
  scps_wf org (service_control_policies (cloud db)) (Some ps) →
  cloud_wf (set_cloud (set_attachments t (<[target := ps]> (attachments t (cloud db))) (cloud db)) db).
Proof.
  intros [Wm Wa Wu Wp] Ht Hps. destruct t; simpl in *.
  - constructor; simpl; [eauto | eauto | | eauto]. intros id u Hu. destruct (Wu id u Hu) as (? & ? & Hs).
    split_and!; try done. destruct (decide (target = id)) as [->|Hne].
    + rewrite lookup_insert_eq. unfold unit_in in Ht. rewrite Hu in Ht. simpl in Ht.
      by apply bool_decide_true_iff in Ht as ->.
    + by rewrite lookup_insert_ne.
  - constructor; simpl; [eauto | | eauto | eauto]. intros a o Ha. destruct (Wa a o Ha) as (? & ? & ? & Hs).
    split_and!; try done. apply bool_decide_true_iff in Ht.
    destruct (decide (target = a)) as [->|Hne].
    + rewrite lookup_insert_eq. by simplify_eq.
    + by rewrite lookup_insert_ne.
Qed.

Lemma target_scps db t org target :
  cloud_wf db → target_exists t org target db = true →
  scps_wf org (service_control_policies (cloud db)) (attachments t (cloud db) !! target).
Proof.
  intros [Wm Wa Wu Wp] Ht. destruct t; simpl in *.
  - unfold unit_in in Ht. destruct (organizational_units (cloud db) !! target) as [u|] eqn:Hu; [|done].
    simpl in Ht. apply bool_decide_true_iff in Ht as <-. by apply Wu.
  - apply bool_decide_true_iff in Ht. by apply (Wa _ _ Ht).
Qed.

(** The rows of an organization disappear. *)
Lemma wf_cascade db org : cloud_wf db → cloud_wf (cascade_cloud org db).
Proof.
  intros [Wm Wa Wu Wp].
  assert (Hroot : ∀ o x n, o ≠ org → rooted (organizational_units (cloud db)) o x n →
    rooted (filter (λ e, unit_organization (snd e) ≠ org) (organizational_units (cloud db))) o x n).
  { intros o x n Hne. apply rooted_mono. intros y u Hy Ho. apply map_lookup_filter_Some.
    split; [done|]. simpl. congruence. }
  assert (Hscps : ∀ o att, o ≠ org → scps_wf o (service_control_policies (cloud db)) att →
    scps_wf o (filter (λ e, scp_organization (snd e) ≠ org) (service_control_policies (cloud db))) att).
  { intros o att Hne. apply scps_wf_mono. intros p row Hp Ho. apply map_lookup_filter_Some.
    split; [done|]. simpl. congruence. }
  constructor; simpl.
  - intros o m [Hne Hm]%lookup_delete_Some.
    destruct (Wm o m Hm) as (Ha & (r & u & Hu & Ho & Hp) & Hs). split_and!.
    + apply map_lookup_filter_Some. done.
    + exists r, u. split; [|done]. apply map_lookup_filter_Some. split; [done|]. simpl. congruence.
    + erewrite managed_policies_ext; [apply Hs|]. simpl. intros p row Hrow _.
      rewrite map_lookup_filter_Some. simpl. split; [tauto|]. intros ?. split; [done|]. congruence.
    + erewrite managed_policies_ext; [apply Hs|]. simpl. intros p row Hrow _.
      rewrite map_lookup_filter_Some. simpl. split; [tauto|]. intros ?. split; [done|]. congruence.
  - intros a o [Ha Hne]%map_lookup_filter_Some. simpl in Hne.
    destruct (Wa a o Ha) as (Hin & Hm & (p & n & Hp & Hr & Hn) & Hs). split_and!; [done | | |].
    + by rewrite lookup_delete_ne.
    + exists p, n. split_and!; [|auto|done]. apply map_lookup_filter_Some.
      split; [done|]. simpl. congruence.
    + destruct Hs as (ps & Hps & Hs). apply Hscps; [done|]. exists ps. split; [|done].
      apply map_lookup_filter_Some. split; [done|]. simpl. congruence.
  - intros id u [Hu Hne]%map_lookup_filter_Some. simpl in Hne.
    destruct (Wu id u Hu) as (Hm & (n & Hr & Hn) & Hs). split_and!.
    + by rewrite lookup_delete_ne.
    + exists n. auto.
    + destruct Hs as (ps & Hps & Hs). apply Hscps; [done|]. exists ps. split; [|done].
      apply map_lookup_filter_Some. split; [done|]. simpl. unfold unit_in. rewrite Hu. simpl.
      by apply bool_decide_false_iff.
  - intros p row [Hp Hne]%map_lookup_filter_Some. simpl in Hne. rewrite lookup_delete_ne by done. eauto.
Qed.

Lemma wf_cascades db l : cloud_wf db → cloud_wf (foldr cascade_cloud db l).
Proof. intros Hwf. induction l; simpl; [done | by apply wf_cascade]. Qed.

(** An account with its own organization: root unit and default policy. *)
Lemma wf_new_cloud db db' a org root policy name v :
  cloud_wf db →
  cloud_management_accounts db !! org = None → cloud_organization_accounts db !! a = None →
  organizational_units (cloud db) !! root = None →
  service_control_policies (cloud db) !! policy = None →
  organizations db' = {[a]} ∪ organizations db →
  cloud_management_accounts db' = <[org := a]> (cloud_management_accounts db) →
  cloud_organization_accounts db' = <[a := org]> (cloud_organization_accounts db) →
  organizational_units (cloud db') = <[root := Build_UnitRow org None name]> (organizational_units (cloud db)) →
  account_parents (cloud db') = <[a := root]> (account_parents (cloud db)) →
  service_control_policies (cloud db') =
    <[policy := Build_ScpRow org "FullAWSAccess" v true]> (service_control_policies (cloud db)) →
  unit_attachments (cloud db') = <[root := managed_policies org (cloud db')]> (unit_attachments (cloud db)) →
  account_attachments (cloud db') = <[a := managed_policies org (cloud db')]> (account_attachments (cloud db)) →
  cloud_wf db'.
Proof.
  intros [Wm Wa Wu Wp] Horg Ha Hroot Hpol Eo Em Ea Eu Ep Es Eua Eaa.
  assert (Hnew : ∀ o, is_Some (cloud_management_accounts db !! o) → o ≠ org).
  { intros o [m Hm] ->. congruence. }
  assert (Hr : rooted (organizational_units (cloud db')) org root 1).
  { rewrite Eu. eapply rooted_root; [apply lookup_insert_eq | done | done]. }
  assert (Hmono : ∀ o x n, rooted (organizational_units (cloud db)) o x n →
    rooted (organizational_units (cloud db')) o x n) by (intros; rewrite Eu; by apply rooted_insert).
  assert (Hscps : ∀ o att, scps_wf o (service_control_policies (cloud db)) att →
    scps_wf o (service_control_policies (cloud db')) att).
  { intros o att. apply scps_wf_mono. intros p row Hp _. rewrite Es, lookup_insert_ne; [done|].
    intros ->. congruence. }
  assert (Hps : scps_wf org (service_control_policies (cloud db')) (Some {[policy]})).
  { exists {[policy]}. rewrite size_singleton. unfold MAX_ATTACHED_POLICIES. split_and!; [done | lia | lia |].
    intros p ->%elem_of_singleton. rewrite Es, lookup_insert_eq. eauto. }
  assert (Hold : ∀ o, o ≠ org → managed_policies o (cloud db') = managed_policies o (cloud db)).
  { intros o Hne. apply managed_policies_ext. intros p row Hrow _. rewrite Es, lookup_insert_Some.
    split; [intros [[_ <-] | [_ ?]]; [done | done]|]. intros Hp. right. split; [|done].
    intros ->. congruence. }
  assert (Hman : managed_policies org (cloud db') = {[policy]}).
  { apply set_eq. intros p. rewrite elem_of_managed, elem_of_singleton, Es. split.
    - intros (row & [[-> _] | [_ Hrow]]%lookup_insert_Some & Ho & _); [done|].
      by destruct (Hnew _ (Wp _ _ Hrow)).
    - intros ->. rewrite lookup_insert_eq. eauto. }
  rewrite Hman in Eua, Eaa. constructor.
  - rewrite Em. intros o m [[<- <-] | [Hne Hm]]%lookup_insert_Some.
    + rewrite Ea, lookup_insert_eq, Hman, size_singleton. unfold MAX_ATTACHED_POLICIES.
      split_and!; [done | | lia | lia]. exists root. rewrite Eu, lookup_insert_eq. eauto.
    + destruct (Wm o m Hm) as (Hma & (r & u & Hu & ?) & Hs). rewrite Hold by done.
      split_and!; [| | apply Hs | apply Hs].
      * rewrite Ea, lookup_insert_ne; [done|]. intros ->. congruence.
      * exists r, u. rewrite Eu, lookup_insert_ne; [done|]. intros ->. congruence.
  - rewrite Ea, Em, Ep, Eaa, Eo. intros a' o [[<- <-] | [Hne Ha']]%lookup_insert_Some.
    + rewrite !lookup_insert_eq. split_and!; [set_solver | done | | done].
      exists root, 1%nat. split_and!; [done | done | unfold MAX_LEVELS; lia].
    + destruct (Wa a' o Ha') as (? & Hm & (p & n & ? & ? & ?) & ?).
      rewrite (lookup_insert_ne (account_parents _)), (lookup_insert_ne (account_attachments _)) by done.
      rewrite lookup_insert_ne by (by apply not_eq_sym, Hnew).
      split_and!; [set_solver | done | exists p, n; auto | auto].
  - intros id u. rewrite Eu, Em, Eua. intros [[<- <-] | [Hne Hu]]%lookup_insert_Some; simpl.
    + rewrite !lookup_insert_eq. split_and!; [done | | done].
      exists 1%nat. split; [by rewrite <- Eu | unfold MAX_LEVELS; lia].
    + destruct (Wu id u Hu) as (Hm & (n & ? & ?) & ?).
      rewrite (lookup_insert_ne (unit_attachments _)) by done.
      rewrite lookup_insert_ne by (by apply not_eq_sym, Hnew).
      split_and!; [done | exists n; rewrite <- Eu; auto | auto].
  - intros p row. rewrite Es, Em. intros [[_ <-] | [_ Hp]]%lookup_insert_Some; simpl.
    + by rewrite lookup_insert_eq.
    + rewrite lookup_insert_ne; [eauto|]. apply not_eq_sym, Hnew. eauto.
Qed.

(** ** Transactions *)

Lemma on_cloud_ok f db u db' : on_cloud f db = Ok (u, db') ↔ db' = set_cloud (f (cloud db)) db.
Proof. unfold on_cloud. apply (statement_ok (λ db, set_cloud (f (cloud db)) db)). Qed.

(** Take a transaction on the organization tables apart. *)
Ltac cloud_step H :=
  lazymatch type of H with
  | now_v7 _ = _ => apply now_v7_ok in H as [-> ->]
  | require _ _ = _ => apply require_ok in H as [H ->]
  | on_cloud _ _ = _ => apply on_cloud_ok in H as ->
  end.
Ltac cloud_inv :=
  repeat match goal with
  | H : mbind _ _ _ = Ok _ |- _ => progress tx_inv H
  | H : _ = Ok _ |- _ => cloud_step H
  end; subst.

Lemma is_some_true {A} (o : option A) : is_some o = true ↔ is_Some o.
Proof. destruct o; simpl; [|by split; [|intros []]]. split; eauto. Qed.

Lemma is_some_false {A} (o : option A) : negb (is_some o) = true ↔ o = None.
Proof. by destruct o. Qed.

Lemma unit_in_true org id c :
  unit_in org id c = true ↔ ∃ u, organizational_units c !! id = Some u ∧ unit_organization u = org.
Proof.
  unfold unit_in. destruct (organizational_units c !! id) as [u|]; simpl; [|naive_solver].
  rewrite bool_decide_true_iff. naive_solver.
Qed.

Section Steps.
Context `{SqlText}.

Lemma insert_policy_ok id org name v managed db u db' :
  insert_policy id org name v managed db = Ok (u, db') →
  service_control_policies (cloud db) !! id = None ∧ is_Some (cloud_management_accounts db !! org) ∧
  db' = set_cloud (set_policies (<[id := Build_ScpRow org name v managed]>
          (service_control_policies (cloud db))) (cloud db)) db.
Proof.
  unfold insert_policy. intros Hrun. cloud_inv. rewrite !andb_true_iff, is_some_false, is_some_true in *.
  tauto.
Qed.

Lemma insert_unit_ok id org parent name db u db' :
  insert_unit id org parent name db = Ok (u, db') →
  organizational_units (cloud db) !! id = None ∧ is_Some (cloud_management_accounts db !! org) ∧
  (∀ p, parent = Some p → unit_in org p (cloud db) = true) ∧
  db' = set_cloud (set_unit_attachments
          (<[id := managed_policies org (cloud db)]> (unit_attachments (cloud db)))
          (set_units (<[id := Build_UnitRow org parent name]> (organizational_units (cloud db)))
             (cloud db))) db.
Proof.
  unfold insert_unit. intros Hrun. cloud_inv. rewrite !andb_true_iff, is_some_false, is_some_true in *.
  split_and!; try tauto. intros p ->. rewrite andb_true_iff in *. tauto.
Qed.

Lemma insert_account_ok a org parent db u db' :
  insert_account a org parent db = Ok (u, db') →
  cloud_organization_accounts db !! a = None ∧ a ∈ organizations db ∧
  is_Some (cloud_management_accounts db !! org) ∧ unit_in org parent (cloud db) = true ∧
  db' = set_cloud (set_account_attachments
          (<[a := managed_policies org (cloud db)]> (account_attachments (cloud db)))
          (set_parents (<[a := parent]> (account_parents (cloud db))) (cloud db)))
          (set_cloud_accounts (<[a := org]> (cloud_organization_accounts db))
             (cloud_management_accounts db) db).
Proof.
  unfold insert_account. intros Hrun. cloud_inv.
  rewrite !andb_true_iff, is_some_false, is_some_true, bool_decide_true_iff in *. tauto.
Qed.

Lemma insert_organization_wf id s name db u db' :
  cloud_wf db → insert_organization id s name db = Ok (u, db') → cloud_wf db'.
Proof.
  intros Hwf Hrun. unfold insert_organization in Hrun. cloud_inv. simpl in *.
  repeat match goal with
  | Hi : insert_policy _ _ _ _ _ _ = _ |- _ => apply insert_policy_ok in Hi as (? & ? & ->); simpl in *
  | Hi : insert_unit _ _ _ _ _ = _ |- _ => apply insert_unit_ok in Hi as (? & ? & ? & ->); simpl in *
  | Hi : insert_account _ _ _ _ = _ |- _ => apply insert_account_ok in Hi as (? & ? & ? & ? & ->); simpl in *
  end.
  match goal with Hm : negb (is_some (cloud_management_accounts db !! _)) && _ = true |- _ =>
    apply andb_true_iff in Hm as [Hm%is_some_false _] end.
  by eapply (wf_new_cloud db _ id (next_uuid db) (N.succ (next_uuid db))).
Qed.

Lemma unit_in_rooted db org id :
  cloud_wf db → unit_in org id (cloud db) = true →
  is_Some (cloud_management_accounts db !! org) ∧
  ∃ n, rooted (organizational_units (cloud db)) org id n ∧ (n ≤ MAX_LEVELS)%nat.
Proof. intros Hwf (u & Hu & <-)%unit_in_true. by destruct (wf_unit _ Hwf id u Hu) as (? & ? & _). Qed.

Lemma managed_unit_ok account id org db :
  managed_unit account id db = Some org →
  unit_in org id (cloud db) = true ∧ cloud_management_accounts db !! org = Some account.
Proof.
  unfold managed_unit. destruct (organizational_units (cloud db) !! id) as [u|] eqn:Hu; simpl; [|done].
  case_bool_decide; [|done]. intros [= <-]. split; [|done]. apply unit_in_true. eauto.
Qed.

Lemma rename_cloud_organization_wf m name db u db' :
  cloud_wf db → rename_cloud_organization m name db = Ok (u, db') → cloud_wf db'.
Proof.
  intros Hwf Hrun. unfold rename_cloud_organization in Hrun. cloud_inv.
  match goal with Ho : optional _ _ _ = _ |- _ => apply optional_query_ok in Ho as [_ ->] end.
  by eapply wf_ext.
Qed.

Lemma rename_cloud_account_wf m a name db u db' :
  cloud_wf db → rename_cloud_account m a name db = Ok (u, db') → cloud_wf db'.
Proof.
  intros Hwf Hrun. unfold rename_cloud_account in Hrun. cloud_inv.
  match goal with Ho : optional _ _ _ = _ |- _ => apply optional_query_ok in Ho as [_ ->] end.
  by eapply wf_ext.
Qed.

Lemma rename_cloud_unit_wf m id name db x db' :
  cloud_wf db → rename_cloud_unit m id name db = Ok (x, db') → cloud_wf db'.
Proof.
  intros Hwf Hrun. unfold rename_cloud_unit in Hrun. cloud_inv.
  match goal with Ho : optional _ _ _ = Ok (?v, _) |- _ =>
    apply optional_query_ok in Ho as [Hu ->]; rename v into u end.
  apply bind_Some in Hu as (u' & Hu & Hc). destruct (_ && _); [|done]. injection Hc as ->.
  destruct Hwf as [Wm Wa Wu Wp]. constructor; simpl; [| | |done].
  - intros org m' Hm. destruct (Wm org m' Hm) as (? & (r & v & Hv & Ho & Hp) & ?).
    split_and!; try tauto. destruct (decide (id = r)) as [->|Hne].
    + eexists r, _. rewrite lookup_insert_eq. simplify_eq. eauto.
    + exists r, v. by rewrite lookup_insert_ne.
  - intros a org Ha. destruct (Wa a org Ha) as (? & ? & (p & n & ? & Hr & ?) & ?).
    split_and!; try done. exists p, n. split_and!; try done. by apply rooted_renamed.
  - intros y v [[<- <-] | [Hne Hv]]%lookup_insert_Some; simpl.
    + destruct (Wu id u Hu) as (? & (n & Hr & ?) & ?). split_and!; try done.
      exists n. split; [by apply rooted_renamed | done].
    + destruct (Wu y v Hv) as (? & (n & Hr & ?) & ?). split_and!; try done.
      exists n. split; [by apply rooted_renamed | done].
Qed.

Lemma create_service_control_policy_wf `{Serde PolicyDocument} m name v db id db' :
  cloud_wf db → create_service_control_policy m name v db = Ok (id, db') → cloud_wf db'.
Proof.
  intros Hwf Hrun. unfold create_service_control_policy in Hrun. cloud_inv.
  match goal with Ho : optional _ _ _ = _ |- _ => apply optional_query_ok in Ho as [_ ->] end.
  match goal with Hi : insert_policy _ _ _ _ _ _ = _ |- _ => apply insert_policy_ok in Hi as (Hf & Ho & ->) end.
  eapply wf_insert_policy; [|exact Hf | exact Ho | reflexivity]. by eapply wf_ext.
Qed.

Lemma change_service_control_attachment_wf m ty target policy attach db u db' :
  cloud_wf db → change_service_control_attachment m ty target policy attach db = Ok (u, db') →
  cloud_wf db'.
Proof.
  intros Hwf Hrun. unfold change_service_control_attachment in Hrun. cloud_inv.
  match goal with Ho : optional _ _ _ = _ |- _ => apply optional_query_ok in Ho as [_ ->] end.
  rewrite ok_or_ok, negb_false_iff, andb_true_iff in *.
  match goal with Ht : target_exists ?t ?o _ _ = true ∧ _ |- _ =>
    destruct Ht as [Ht Hp]; pose proof (target_scps db t o target Hwf Ht) as Hs;
    destruct Hs as (ps & Hps & Hs'); pose proof (ex_intro (λ x, Some ps = Some x ∧ _) ps (conj eq_refl Hs')) as Hs;
    rewrite Hps in *; simpl in * end.
  unfold policy_in in Hp. destruct (service_control_policies (cloud db) !! policy) as [row|] eqn:Hrow; [|done].
  simpl in Hp. apply bool_decide_true_iff in Hp.
  destruct attach; cloud_inv; simpl in *; (eapply wf_attachments; [done | eassumption |]).
  - eapply scps_attach; [exact Hs | exact Hrow | done |].
    match goal with Hc : _ && _ = false |- _ => rename Hc into Hcap end.
    apply andb_false_iff in Hcap as [Hcap|Hcap]; [left; lia|right].
    by apply negb_false_iff, bool_decide_true_iff in Hcap.
  - rewrite negb_false_iff, bool_decide_true_iff in *. apply scps_detach; [exact Hs | lia | done].
Qed.

Lemma create_cloud_organizational_unit_wf m parent name db id db' :
  cloud_wf db → create_cloud_organizational_unit m parent name db = Ok (id, db') → cloud_wf db'.
Proof.
  intros Hwf Hrun. unfold create_cloud_organizational_unit in Hrun. cloud_inv.
  match goal with Ho : optional _ _ _ = Ok (?v, _) |- _ =>
    apply optional_query_ok in Ho as [Hm ->]; rename v into org end.
  change (managed_unit m parent db = Some org) in Hm. rewrite Hm in *.
  destruct (managed_unit_ok _ _ _ _ Hm) as [Hin Hmgmt].
  destruct (unit_in_rooted db org parent Hwf Hin) as (_ & n & Hr & _).
  destruct (ancestors_of_rooted _ _ _ _ Hr) as (Hlen & Hroot & _). rewrite Hlen, Hroot in *.
  match goal with Hi : insert_unit _ _ _ _ _ = _ |- _ => apply insert_unit_ok in Hi as (Hf & _ & _ & ->) end.
  simpl in Hf. eapply (wf_insert_unit (set_next_uuid _ db));
    [ | exact Hf | exact Hmgmt | exact Hr | | reflexivity].
  - by eapply wf_ext.
  - unfold MAX_LEVELS, MAX_UNIT_DEPTH in *. lia.
Qed.

Lemma insert_account_wf a org parent db u db' :
  cloud_wf db → insert_account a org parent db = Ok (u, db') → cloud_wf db'.
Proof.
  intros Hwf (Hf & Hin & [m Hm] & Hu & ->)%insert_account_ok.
  destruct (unit_in_rooted db org parent Hwf Hu) as (_ & n & Hr & Hn).
  by eapply wf_insert_account.
Qed.

Lemma delete_cloud_of_wf a db u db' : cloud_wf db → delete_cloud_of a db = Ok (u, db') → cloud_wf db'.
Proof. intros Hwf ->%statement_ok. by apply wf_cascades. Qed.

Lemma move_cloud_member_account_wf m a parent db u db' :
  cloud_wf db → move_cloud_member_account m a parent db = Ok (u, db') → cloud_wf db'.
Proof.
  intros Hwf Hrun. unfold move_cloud_member_account in Hrun. cloud_inv. rewrite negb_false_iff in *.
  destruct (cloud_organization_accounts db !! a) as [org|] eqn:Ha; [|done].
  rewrite !andb_true_iff in *. destruct_and?.
  destruct (unit_in_rooted db org parent Hwf) as (_ & n & Hr & Hn); [done|].
  destruct Hwf as [Wm Wa Wu Wp]. constructor; simpl; [done | | done | done].
  intros a' o Ha'. destruct (Wa a' o Ha') as (? & ? & ? & ?). split_and!; try done.
  destruct (decide (a = a')) as [->|Hne].
  - simplify_eq. exists parent, n. by rewrite lookup_insert_eq.
  - by rewrite lookup_insert_ne.
Qed.

(** Events of the outbox leave the organizations alone. *)
Record cloud_same (a b : Db) : Prop := {
  same_cloud : cloud b = cloud a;
  same_accounts : cloud_organization_accounts b = cloud_organization_accounts a;
  same_management : cloud_management_accounts b = cloud_management_accounts a;
  same_organizations : organizations b = organizations a;
}.

#[export] Instance cloud_same_preorder : PreOrder cloud_same.
Proof. split; [done|]. intros ??? [] []. constructor; congruence. Qed.

Lemma wf_same a b : cloud_wf a → cloud_same a b → cloud_wf b.
Proof. intros Hwf [Hc Ha Hm Ho]. eapply wf_ext; [exact Hwf | ..]; by rewrite ?Hc, ?Ho. Qed.

Lemma insert_outbox_same t id body db u db' :
  insert_outbox t id body db = Ok (u, db') → cloud_same db db'.
Proof. unfold insert_outbox, insert_event. intros Hrun. cloud_inv. done. Qed.

Lemma enqueue_events_same t f rows db n db' :
  enqueue_events t f rows db = Ok (n, db') → cloud_same db db'.
Proof.
  revert db n. induction rows as [|[id r] rows IH]; intros db n; simpl.
  - by intros [_ ->]%mret_ok.
  - destruct (f id r); [|apply IH]. intros Hrun. cloud_inv.
    etrans; [by eapply insert_outbox_same | by eapply IH].
Qed.

Lemma fold_quota_events_same accounts db u db' :
  foldr (λ account rest, _ ← enqueue_flash_quota_reconcile_tx (Some account); rest) (mret ())
    accounts db = Ok (u, db') → cloud_same db db'.
Proof.
  revert db. induction accounts as [|a l IH]; intros db; simpl; [by intros [_ ->]%mret_ok|].
  rewrite tx_bind_ok. intros (n & d & Hq & Hf).
  etrans; [by eapply enqueue_events_same | by eapply IH].
Qed.

Lemma organization_quotas_same account db u db' :
  enqueue_organization_flash_quotas_tx account db = Ok (u, db') → cloud_same db db'.
Proof.
  unfold enqueue_organization_flash_quotas_tx. intros Hrun. tx_inv Hrun. subst.
  by eapply fold_quota_events_same.
Qed.

Lemma insert_principal_same id org k n u q db x db' :
  insert_principal id org k n u q db = Ok (x, db') → cloud_same db db'.
Proof. unfold insert_principal. intros Hrun. cloud_inv. done. Qed.

Lemma insert_membership_same org user p r db x db' :
  insert_membership org user p r db = Ok (x, db') → cloud_same db db'.
Proof. unfold insert_membership. intros Hrun. cloud_inv. done. Qed.

Lemma create_cloud_member_account_wf m parent user s name db a db' :
  cloud_wf db → create_cloud_member_account m parent user s name db = Ok (a, db') → cloud_wf db'.
Proof.
  intros Hwf Hrun. unfold create_cloud_member_account in Hrun. cloud_inv.
  repeat match goal with Ho : optional _ _ _ = _ |- _ => apply optional_query_ok in Ho as [_ ->] end.
  match goal with
  | Hi : insert_organization _ _ _ _ = _, Hd : delete_cloud_of _ _ = _, Ha : insert_account _ _ _ _ = _,
    Hp : insert_principal _ _ _ _ _ _ _ = _, Hm : insert_membership _ _ _ _ _ = _,
    Hq : enqueue_organization_flash_quotas_tx _ _ = _ |- _ =>
      apply insert_organization_wf in Hi; [|by eapply wf_ext];
      eapply delete_cloud_of_wf in Hd; [|exact Hi]; eapply insert_account_wf in Ha; [|exact Hd];
      apply insert_principal_same in Hp; apply insert_membership_same in Hm;
      apply organization_quotas_same in Hq; do 3 (eapply wf_same; [|eassumption]); exact Ha
  end.
Qed.

End Steps.

(** ** Reachable organizations *)

Section Reachable.
Context `{SqlText, Serde PolicyDocument}.

Definition changes {A} (t : tx A) (db db' : Db) : Prop := ∃ a, t db = Ok (a, db').

(** One request on the organizations, or a new account of its own. *)
Inductive cloud_step (db db' : Db) : Prop :=
| step_organization id s name : changes (insert_organization id s name) db db' → cloud_step db db'
| step_rename_organization m name : changes (rename_cloud_organization m name) db db' → cloud_step db db'
| step_rename_account m a name : changes (rename_cloud_account m a name) db db' → cloud_step db db'
| step_rename_unit m id name : changes (rename_cloud_unit m id name) db db' → cloud_step db db'
| step_policy m name d : changes (create_service_control_policy m name d) db db' → cloud_step db db'
| step_attachment m ty target policy attach :
    changes (change_service_control_attachment m ty target policy attach) db db' → cloud_step db db'
| step_unit m parent name :
    changes (create_cloud_organizational_unit m parent name) db db' → cloud_step db db'
| step_account m parent user s name :
    changes (create_cloud_member_account m parent user s name) db db' → cloud_step db db'
| step_move m a parent : changes (move_cloud_member_account m a parent) db db' → cloud_step db db'.

Lemma cloud_step_wf db db' : cloud_wf db → cloud_step db db' → cloud_wf db'.
Proof.
  intros Hwf. destruct 1 as [??? [? Hr] | ?? [? Hr] | ??? [? Hr] | ??? [? Hr] | ??? [? Hr]
    | ????? [? Hr] | ??? [? Hr] | ????? [? Hr] | ??? [? Hr]].
  - by eapply insert_organization_wf.
  - by eapply rename_cloud_organization_wf.
  - by eapply rename_cloud_account_wf.
  - by eapply rename_cloud_unit_wf.
  - by eapply create_service_control_policy_wf.
  - by eapply change_service_control_attachment_wf.
  - by eapply create_cloud_organizational_unit_wf.
  - by eapply create_cloud_member_account_wf.
  - by eapply move_cloud_member_account_wf.
Qed.

(** Requests on organizations leave services and outbox alone, but for the
    quota events of a new account. *)
Lemma cascades_agree db l : agrees db (foldr cascade_cloud db l).
Proof. induction l as [|org l IH]; simpl; [done|]. eapply agrees_trans; [exact IH | done]. Qed.

Lemma on_cloud_agrees f : keeps agrees (on_cloud f).
Proof. by apply keeps_statement. Qed.

Ltac cloud_frame :=
  repeat first [ frame_step | apply on_cloud_agrees | done ].

Lemma insert_unit_agrees id org parent name : keeps agrees (insert_unit id org parent name).
Proof. unfold insert_unit. cloud_frame. Qed.
Lemma insert_account_agrees a org parent : keeps agrees (insert_account a org parent).
Proof. unfold insert_account. cloud_frame. Qed.
Lemma insert_policy_agrees id org name v b : keeps agrees (insert_policy id org name v b).
Proof. unfold insert_policy. cloud_frame. Qed.

Lemma insert_organization_agrees id s name : keeps agrees (insert_organization id s name).
Proof.
  unfold insert_organization. cloud_frame.
  - apply insert_policy_agrees.
  - apply insert_unit_agrees.
  - apply insert_account_agrees.
Qed.

Lemma delete_cloud_of_agrees a : keeps agrees (delete_cloud_of a).
Proof. apply keeps_statement. intros db. apply cascades_agree. Qed.

Lemma rename_cloud_organization_agrees m name : keeps agrees (rename_cloud_organization m name).
Proof. unfold rename_cloud_organization. cloud_frame. Qed.
Lemma rename_cloud_account_agrees m a name : keeps agrees (rename_cloud_account m a name).
Proof. unfold rename_cloud_account. cloud_frame. Qed.
Lemma rename_cloud_unit_agrees m id name : keeps agrees (rename_cloud_unit m id name).
Proof. unfold rename_cloud_unit. cloud_frame. Qed.
Lemma create_policy_agrees m name d : keeps agrees (create_service_control_policy m name d).
Proof. unfold create_service_control_policy. cloud_frame. apply insert_policy_agrees. Qed.
Lemma change_attachment_agrees m ty target policy b :
  keeps agrees (change_service_control_attachment m ty target policy b).
Proof. unfold change_service_control_attachment. cloud_frame. Qed.
Lemma create_unit_agrees m parent name : keeps agrees (create_cloud_organizational_unit m parent name).
Proof. unfold create_cloud_organizational_unit. cloud_frame. apply insert_unit_agrees. Qed.
Lemma move_account_agrees m a parent : keeps agrees (move_cloud_member_account m a parent).
Proof. unfold move_cloud_member_account. cloud_frame. Qed.

Lemma create_cloud_member_account_refines m parent user s name :
  keeps (rtc transition) (create_cloud_member_account m parent user s name).
Proof.
  unfold create_cloud_member_account. frame; try (by apply rtc_once, agrees_transition).
  - apply agrees_refines, insert_organization_agrees.
  - apply agrees_refines, delete_cloud_of_agrees.
  - apply agrees_refines, insert_account_agrees.
  - apply agrees_refines. unfold insert_principal. cloud_frame.
  - apply agrees_refines. unfold insert_membership. cloud_frame.
  - intros db x db'. apply organization_quotas_refine.
Qed.

Lemma cloud_step_refines db db' : cloud_step db db' → rtc transition db db'.
Proof.
  destruct 1 as [??? [? Hr] | ?? [? Hr] | ??? [? Hr] | ??? [? Hr] | ??? [? Hr]
    | ????? [? Hr] | ??? [? Hr] | ????? [? Hr] | ??? [? Hr]].
  - by eapply agrees_refines, Hr; apply insert_organization_agrees.
  - by eapply agrees_refines, Hr; apply rename_cloud_organization_agrees.
  - by eapply agrees_refines, Hr; apply rename_cloud_account_agrees.
  - by eapply agrees_refines, Hr; apply rename_cloud_unit_agrees.
  - by eapply agrees_refines, Hr; apply create_policy_agrees.
  - by eapply agrees_refines, Hr; apply change_attachment_agrees.
  - by eapply agrees_refines, Hr; apply create_unit_agrees.
  - by eapply create_cloud_member_account_refines, Hr.
  - by eapply agrees_refines, Hr; apply move_account_agrees.
Qed.

(** No organizations yet. *)
Definition no_organizations (db : Db) : Prop :=
  cloud_organization_accounts db = ∅ ∧ cloud_management_accounts db = ∅ ∧
  organizational_units (cloud db) = ∅ ∧ service_control_policies (cloud db) = ∅.

Lemma no_organizations_wf db : no_organizations db → cloud_wf db.
Proof. intros (Ha & Hm & Hu & Hp). constructor; rewrite ?Ha, ?Hm, ?Hu, ?Hp; intros ??; set_solver. Qed.

Lemma reachable_wf db db' : cloud_wf db → rtc cloud_step db db' → cloud_wf db'.
Proof. intros Hwf Hr. induction Hr; [done | eauto using cloud_step_wf]. Qed.

End Reachable.

(** ** Levels *)

Lemma elem_of_concat {A} (x : A) ls : x ∈ concat ls ↔ ∃ l, x ∈ l ∧ l ∈ ls.
Proof. rewrite list_elem_of_In, in_concat. setoid_rewrite list_elem_of_In. naive_solver. Qed.

(** [x] is the unit [id] or a unit above it. *)
Inductive above (units : gmap Uuid UnitRow) : Uuid → Uuid → Prop :=
| above_self id : above units id id
| above_parent id u p x :
    units !! id = Some u → unit_parent u = Some p → above units p x → above units id x.

(** [ps] are the policies of [target], the account or a unit it is in. *)
Definition controls (db : Db) (account : OrganizationId) (target : Uuid) (ps : gset Uuid) : Prop :=
  (target = account ∧ account_attachments (cloud db) !! account = Some ps) ∨
  (∃ p, account_parents (cloud db) !! account = Some p ∧
     above (organizational_units (cloud db)) p target ∧ unit_attachments (cloud db) !! target = Some ps).

(** The query lists a unit and all units above it. *)
Lemma ancestors_above units org fuel (visited : list Uuid) id n x :
  rooted units org id n → (n ≤ fuel)%nat →
  (∀ v, v ∈ visited → ∃ m, rooted units org v m ∧ (n < m)%nat) →
  above units id x ↔ ∃ u, (x, u) ∈ ancestors fuel units org visited id.
Proof.
  intros Hr. revert fuel visited.
  induction Hr as [y u Hy Ho Hp | y u p n Hy Ho Hp Hr' IH]; intros fuel visited Hfuel Hv;
    (destruct fuel as [|fuel]; [lia|]); simpl;
    (assert (y ∉ visited) by
      (eapply rooted_fresh; [|exact Hv]; eauto using rooted_root, rooted_below));
    rewrite bool_decide_false, Hy, bool_decide_true, Hp by done.
  - split.
    + inversion 1; simplify_eq. exists u. by left.
    + intros (v & [= -> ->]%list_elem_of_singleton). constructor.
  - assert (Hv' : ∀ v, v ∈ y :: visited → ∃ m, rooted units org v m ∧ (n < m)%nat).
    { intros v [-> | Hin]%elem_of_cons; [exists (S n); split; [by eapply rooted_below | lia]|].
      destruct (Hv v Hin) as (m & Hm & Hlt). exists m. split; [done | lia]. }
    specialize (IH fuel (y :: visited) ltac:(lia) Hv'). split.
    + inversion 1 as [|? v q ? Hv1 Hq Hab]; simplify_eq; [exists u; by left|].
      apply IH in Hab as [w Hw]. exists w. by right.
    + intros (v & [[= -> ->] | Hin]%elem_of_cons); [constructor|].
      eapply above_parent; [done | done|]. apply IH. eauto.
Qed.

Lemma ancestors_of_above c org id n x :
  rooted (organizational_units c) org id n →
  above (organizational_units c) id x ↔ ∃ u, (x, u) ∈ ancestors_of c org id.
Proof.
  intros Hr. eapply ancestors_above; [done | |].
  - apply rooted_size in Hr. lia.
  - intros v Hv. by apply not_elem_of_nil in Hv.
Qed.

Section LevelFacts.
Context `{Serde PolicyDocument}.

Implicit Types m : list (Uuid * list PolicyDocument).

(** The keys of a [BTreeMap]. *)
Definition ordered m : Prop := StronglySorted (λ x y, (fst x < fst y)%N) m.

Lemma ordered_keys m : ordered m → NoDup (m.*1).
Proof.
  induction 1 as [|[k l] m Hs IH Hall]; simpl; [constructor|]. constructor; [|done].
  rewrite list_elem_of_fmap. intros ([k' l'] & -> & Hin). rewrite Forall_forall in Hall.
  apply Hall in Hin. simpl in Hin. lia.
Qed.

Lemma level_push_elem id d m k l : (k, l) ∈ level_push id d m → k = id ∨ ∃ l', (k, l') ∈ m.
Proof.
  induction m as [|[j q] m IH]; simpl; [intros [= -> ->]%list_elem_of_singleton; by left|].
  destruct (id =? j)%N; [|destruct (id <? j)%N];
    intros [[= -> ->] | Hin]%elem_of_cons; set_solver.
Qed.

Lemma level_push_ordered id d m : ordered m → ordered (level_push id d m).
Proof.
  induction 1 as [|[k l] m Hs IH Hall]; simpl; [by repeat constructor|].
  destruct (N.eqb_spec id k) as [->|Hne]; [by constructor|].
  destruct (N.ltb_spec id k) as [Hlt|Hge].
  - constructor; [by constructor|]. constructor; [done|]. eapply Forall_impl; [exact Hall|].
    intros [k' l']. simpl. lia.
  - constructor; [done|]. rewrite Forall_forall in *. intros [k' l'] Hin. simpl.
    destruct (level_push_elem _ _ _ _ _ Hin) as [->|[l0 Hi]]; [lia | by apply Hall in Hi].
Qed.

Lemma level_push_map id d m :
  ordered m →
  (list_to_map (level_push id d m) : gmap Uuid (list PolicyDocument)) =
  <[id := default [] ((list_to_map m : gmap Uuid _) !! id) ++ d]> (list_to_map m).
Proof.
  intros Hs. induction Hs as [|[k l] m Hs IH Hall]; simpl; [done|].
  destruct (N.eqb_spec id k) as [->|Hne].
  - simpl. by rewrite lookup_insert_eq, insert_insert_eq.
  - rewrite lookup_insert_ne by done. destruct (N.ltb_spec id k) as [Hlt|Hge]; simpl.
    + rewrite (proj1 (not_elem_of_list_to_map m id)); [done|].
      rewrite list_elem_of_fmap. intros ([k' l'] & -> & Hin). rewrite Forall_forall in Hall.
      apply Hall in Hin. simpl in *. lia.
    + rewrite IH, insert_insert_ne by done. done.
Qed.

(** The document a row contributes. *)
Definition row_documents (row : LevelRow) : list PolicyDocument :=
  match document row with
  | Some v => match from_value v with Some d => [d] | None => [] end
  | None => []
  end.

Definition decodes (row : LevelRow) : Prop :=
  ∀ v, document row = Some v → is_Some (from_value v).

Definition level_of (k : Uuid) (rows : list LevelRow) : list PolicyDocument :=
  concat (row_documents <$> filter (λ r, target_id r = k) rows).

Lemma add_level_row_ok m row :
  decodes row → add_level_row m row = Ok (level_push (target_id row) (row_documents row) m).
Proof.
  unfold decodes, add_level_row, row_documents. intros Hd. destruct (document row) as [v|]; [|done].
  by destruct (Hd v eq_refl) as [d ->].
Qed.

(** All rows of a target go to one level, in their order. *)
Lemma fold_levels rows m :
  ordered m → (∀ row, row ∈ rows → decodes row) →
  ∃ m', fold_result add_level_row m rows = Ok m' ∧ ordered m' ∧
    ∀ k, (list_to_map m' : gmap Uuid _) !! k =
         (if bool_decide (filter (λ r, target_id r = k) rows = []) then (list_to_map m : gmap Uuid _) !! k
          else Some (default [] ((list_to_map m : gmap Uuid _) !! k) ++ level_of k rows)).
Proof.
  revert m. induction rows as [|row rows IH]; intros m Hm Hd; simpl; [by exists m|].
  rewrite add_level_row_ok by (apply Hd; by left). simpl.
  destruct (IH (level_push (target_id row) (row_documents row) m)) as (m' & Hf & Ho & Hl).
  { by apply level_push_ordered. }
  { intros r Hr. apply Hd. by right. }
  exists m'. split_and!; [done | done|]. intros k. rewrite Hl, level_push_map by done.
  unfold level_of. rewrite filter_cons. case_decide as Hk; simpl.
  - subst k. rewrite lookup_insert_eq. simpl.
    case_bool_decide as Hnil; [by rewrite Hnil, app_nil_r | by rewrite <- app_assoc].
  - by rewrite lookup_insert_ne.
Qed.

(** The levels are those of the targets that occur. *)
Lemma levels_of_rows rows :
  (∀ row, row ∈ rows → decodes row) →
  ∃ m, fold_result add_level_row [] rows = Ok m ∧
    ∀ l, l ∈ map snd m ↔ ∃ k, (∃ row, row ∈ rows ∧ target_id row = k) ∧ l = level_of k rows.
Proof.
  intros Hd. destruct (fold_levels rows []) as (m & Hf & Ho & Hl); [constructor | done|].
  exists m. split; [done|]. intros l.
  assert (Hin : ∀ k l, (k, l) ∈ m ↔ (list_to_map m : gmap Uuid _) !! k = Some l).
  { intros k l'. apply elem_of_list_to_map. by apply ordered_keys. }
  assert (Hocc : ∀ k, filter (λ r, target_id r = k) rows ≠ [] ↔ ∃ row, row ∈ rows ∧ target_id row = k).
  { intros k. split.
    - destruct (filter _ rows) as [|r rs] eqn:E; [done|]. intros _. exists r.
      assert (Hr : r ∈ filter (λ r, target_id r = k) rows) by (rewrite E; by left).
      apply list_elem_of_filter in Hr. tauto.
    - intros (r & Hr & Hk) Hnil. apply (not_elem_of_nil r). rewrite <- Hnil.
      by apply list_elem_of_filter. }
  rewrite list_elem_of_fmap. split.
  - intros ([k l'] & -> & Hkl). apply Hin in Hkl. rewrite Hl in Hkl. simpl in *.
    case_bool_decide as Hnil; [done|]. exists k. split; [by apply Hocc|]. by simplify_eq.
  - intros (k & Hk & ->). exists (k, level_of k rows). split; [done|]. apply Hin. rewrite Hl.
    rewrite bool_decide_false by (by apply Hocc). done.
Qed.

(** A document attached with one of the policies [ps]. *)
Definition attached_document (db : Db) (ps : gset Uuid) (d : PolicyDocument) : Prop :=
  ∃ p row, p ∈ ps ∧ service_control_policies (cloud db) !! p = Some row ∧
    from_value (scp_document row) = Some d.

(** A document at the level of [target]. *)
Definition level_document (db : Db) (account : OrganizationId) (target : Uuid) (d : PolicyDocument) : Prop :=
  ∃ ps, controls db account target ps ∧ attached_document db ps d.

Definition documents_decode (db : Db) (org : Uuid) : Prop :=
  ∀ p row, service_control_policies (cloud db) !! p = Some row → scp_organization row = org →
    is_Some (from_value (scp_document row)).

(** Every policy of a target gives a row, and no other rows exist. *)
Lemma elem_of_target_rows org c id root ps row :
  scps_wf org (service_control_policies c) (Some ps) →
  row ∈ target_rows c id root (Some ps) ↔
  ∃ p r, p ∈ ps ∧ service_control_policies c !! p = Some r ∧
    row = Build_LevelRow id root (Some (scp_document r)).
Proof.
  intros (qs & [= <-] & Hsize & Hall). unfold target_rows. simpl.
  destruct (elements ps) as [|q l] eqn:E.
  { apply elements_empty_inv in E. apply size_empty_iff in E. lia. }
  simpl is_nil. rewrite <- E. cbv iota. rewrite list_elem_of_fmap. setoid_rewrite elem_of_elements. split.
  - intros (p & -> & Hp). destruct (Hall p Hp) as (r & Hr & _). exists p, r. by rewrite Hr.
  - intros (p & r & Hp & Hr & ->). exists p. by rewrite Hr.
Qed.

Section Account.
Context (db : Db) (account : OrganizationId) (org : Uuid).
Hypothesis Hwf : cloud_wf db.
Hypothesis Haccount : cloud_organization_accounts db !! account = Some org.

Lemma controls_scps target ps :
  controls db account target ps → scps_wf org (service_control_policies (cloud db)) (Some ps).
Proof.
  destruct (wf_account _ Hwf account org Haccount) as (_ & _ & (p & n & Hp & Hr & _) & Hs).
  intros [[-> <-] | (q & Hq & Hab & <-)]; [done|]. simplify_eq.
  apply (ancestors_of_above _ _ _ _ _ Hr) in Hab as [u Hu].
  apply ancestors_of_rooted in Hr as (_ & _ & Hall). apply Hall in Hu as [Hu <-].
  by apply (wf_unit _ Hwf).
Qed.

Lemma elem_of_level_rows target d :
  (∃ row, row ∈ level_rows account org db ∧ target_id row = target ∧ document row = d) ↔
  ∃ ps p r, controls db account target ps ∧ p ∈ ps ∧
    service_control_policies (cloud db) !! p = Some r ∧ d = Some (scp_document r).
Proof.
  destruct (wf_account _ Hwf account org Haccount) as (_ & _ & (p & n & Hp & Hr & _) & Hs).
  pose proof (ancestors_of_above _ _ _ _ target Hr) as Habove.
  apply ancestors_of_rooted in Hr as (_ & _ & Hall).
  unfold level_rows. rewrite Hp. destruct Hs as (qs & Hqs & Hs). rewrite Hqs.
  setoid_rewrite elem_of_app. setoid_rewrite elem_of_concat. setoid_rewrite list_elem_of_fmap.
  split.
  - intros (row & [(rows & Hrow & [x u] & -> & Hx) | Hrow] & <- & <-).
    + simpl in Hrow. destruct (Hall x u Hx) as [Hu Ho].
      destruct (wf_unit _ Hwf x u Hu) as (_ & _ & ps & Hps & Hs'). rewrite Hps in Hrow.
      eapply elem_of_target_rows in Hrow as (q & r & Hq & Hr & ->); [|by exists ps].
      exists ps, q, r. split_and!; try done. right. exists p. split_and!; [done | | done].
      apply Habove. eauto.
    + eapply elem_of_target_rows in Hrow as (q & r & Hq & Hr & ->); [|by exists qs].
      exists qs, q, r. split_and!; try done. by left.
  - intros (ps & q & r & Hc & Hq & Hr & ->). pose proof (controls_scps _ _ Hc) as Hps.
    destruct Hc as [[-> Ha] | (p' & Hp' & Hab & Ha)]; simplify_eq.
    + exists (Build_LevelRow account false (Some (scp_document r))). split_and!; try done. right.
      eapply elem_of_target_rows; eauto 10.
    + apply Habove in Hab as [u Hu].
      exists (Build_LevelRow target (negb (is_some (unit_parent u))) (Some (scp_document r))).
      split_and!; try done. left. eexists. split; [|exists (target, u); split; [reflexivity | done]].
      simpl. rewrite Ha. eapply elem_of_target_rows; eauto 10.
Qed.

Lemma level_rows_decode :
  documents_decode db org → ∀ row, row ∈ level_rows account org db → decodes row.
Proof.
  intros Hd row Hrow v Hv.
  assert (∃ ps p r, controls db account (target_id row) ps ∧ p ∈ ps ∧
    service_control_policies (cloud db) !! p = Some r ∧ Some v = Some (scp_document r))
    as (ps & p & r & Hc & Hp & Hr & [= ->]).
  { apply elem_of_level_rows. eauto. }
  destruct (controls_scps _ _ Hc) as (qs & [= <-] & _ & Hall).
  destruct (Hall p Hp) as (r' & Hr' & Ho). simplify_eq. eauto.
Qed.

(** The level of a target has exactly the documents attached to it. *)
Lemma elem_of_level target d :
  d ∈ level_of target (level_rows account org db) ↔
  level_document db account target d.
Proof.
  unfold level_of. rewrite elem_of_concat. setoid_rewrite list_elem_of_fmap.
  setoid_rewrite list_elem_of_filter. split.
  - intros (ds & Hd & row & -> & <- & Hrow). unfold row_documents in Hd.
    destruct (document row) as [v|] eqn:Hv; [|by apply not_elem_of_nil in Hd].
    destruct (from_value v) as [d'|] eqn:Hf; [|by apply not_elem_of_nil in Hd].
    apply list_elem_of_singleton in Hd as ->.
    destruct (proj1 (elem_of_level_rows (target_id row) (Some v))) as (ps & p & r & ? & ? & ? & [= ->]).
    { eauto. }
    exists ps. split; [done|]. exists p, r. done.
  - intros (ps & Hc & p & r & Hp & Hr & Hf).
    destruct (proj2 (elem_of_level_rows target (Some (scp_document r)))) as (row & Hrow & Ht & Hv).
    { by exists ps, p, r. }
    exists (row_documents row). unfold row_documents. rewrite Hv, Hf. split; [by left|]. exists row. 
    by rewrite Hv, Hf.
Qed.

Lemma level_rows_root : existsb is_root (level_rows account org db) = true.
Proof.
  destruct (wf_account _ Hwf account org Haccount) as (_ & _ & (p & n & Hp & Hr & _) & _).
  apply ancestors_of_rooted in Hr as (_ & Hroot & Hall). unfold reaches_root in Hroot.
  apply existsb_exists in Hroot as ([x u] & Hx & Hpar). simpl in Hpar.
  apply list_elem_of_In in Hx. destruct (Hall x u Hx) as [Hu Ho].
  destruct (wf_unit _ Hwf x u Hu) as (_ & _ & Hs). pose proof Hs as (ps & Hps & _).
  rewrite Hps in Hs. destruct (scps_choose _ _ _ Hs) as (q & r & Hq & Hrow & _).
  apply existsb_exists. exists (Build_LevelRow x true (Some (scp_document r))). split; [|done].
  apply list_elem_of_In. unfold level_rows. rewrite Hp. apply elem_of_app. left. apply elem_of_concat.
  eexists. split; [|apply list_elem_of_fmap; by exists (x, u)]. simpl. rewrite Hps, Hpar.
  eapply elem_of_target_rows; [exact Hs|]. eauto.
Qed.

Lemma organization_found management :
  cloud_management_accounts db !! org = Some management →
  cloud_organization_for_account account db = Some (org, management).
Proof.
  intros Hm. unfold cloud_organization_for_account. rewrite Haccount. simpl. rewrite Hm. simpl.
  destruct (wf_management _ Hwf org management Hm) as (Hin & (r & u & Hu & Ho & Hp) & _).
  destruct (wf_account _ Hwf management org Hin) as [Hmo _].
  destruct (wf_account _ Hwf account org Haccount) as [Hao _].
  rewrite !bool_decide_true by done. simpl.
  replace (existsb _ _) with true; [done|]. symmetry. apply existsb_exists. exists (r, u).
  split; [by apply list_elem_of_In, elem_of_map_to_list|]. simpl. by rewrite bool_decide_true, Hp.
Qed.

Lemma level_not_empty target ps :
  documents_decode db org → controls db account target ps →
  level_of target (level_rows account org db) ≠ [].
Proof.
  intros Hd Hc. destruct (scps_choose _ _ _ (controls_scps _ _ Hc)) as (q & r & Hq & Hrow & Ho).
  destruct (Hd q r Hrow Ho) as [d Hf]. intros Hnil.
  apply (not_elem_of_nil d). rewrite <- Hnil. apply elem_of_level. exists ps. split; [done|]. by exists q, r.
Qed.

(** The levels of a member account are those of the account and its units. *)
Lemma service_control_levels_ok management :
  scp_enabled (cloud db) = true → cloud_management_accounts db !! org = Some management →
  management ≠ account → documents_decode db org →
  ∃ levels, service_control_levels account db = Ok levels ∧
    ∀ l, l ∈ levels ↔ ∃ target ps, controls db account target ps ∧
                        l = level_of target (level_rows account org db).
Proof.
  intros He Hm Hne Hd. unfold service_control_levels. rewrite He. simpl.
  rewrite (organization_found management Hm), bool_decide_false, level_rows_root by done. simpl.
  destruct (levels_of_rows (level_rows account org db)) as (m & -> & Hl).
  { by apply level_rows_decode. }
  eexists. split; [done|]. intros l. rewrite Hl. split.
  - intros (k & (row & Hrow & Hk) & ->).
    destruct (proj1 (elem_of_level_rows k (document row))) as (ps & p & r & Hc & _); [eauto|]. eauto.
  - intros (k & ps & Hc & ->). exists k. split; [|done].
    destruct (scps_choose _ _ _ (controls_scps _ _ Hc)) as (q & r & Hq & Hrow & _).
    destruct (proj2 (elem_of_level_rows k (Some (scp_document r)))) as (row & ? & ? & _); [|eauto].
    by exists ps, q, r.
Qed.

End Account.

End LevelFacts.

(** ** Properties *)

Section CloudProperties.
Context `{SqlText, Serde PolicyDocument}.

(** C34: Whatever requests are served, the units of every organization form a
    tree rooted in its root unit and at most five levels deep below it, every
    account is in a unit of its organization, and every unit and every account
    has between one and ten policies, all of its own organization. *)
Theorem organization_tree_invariant db db' :
  no_organizations db → rtc cloud_step db db' → cloud_wf db'.
Proof. intros Hno. by apply reachable_wf, no_organizations_wf. Qed.

(** For a member account the levels the evaluator gets are complete and
    exact: there is one for the account and one for every unit up to the root,
    none is empty, and each holds the documents attached to its target and no
    others. *)
Lemma service_control_levels_exact db account org management :
  cloud_wf db → scp_enabled (cloud db) = true →
  cloud_organization_accounts db !! account = Some org →
  cloud_management_accounts db !! org = Some management → management ≠ account →
  documents_decode db org →
  ∃ levels, service_control_levels account db = Ok levels ∧
    (∀ target ps, controls db account target ps →
       ∃ l, l ∈ levels ∧ ∀ d, d ∈ l ↔ level_document db account target d) ∧
    (∀ l, l ∈ levels → l ≠ [] ∧ ∃ target, ∀ d, d ∈ l ↔ level_document db account target d).
Proof.
  intros Hwf He Ha Hm Hne Hd.
  destruct (service_control_levels_ok db account org Hwf Ha management) as (levels & Hl & Hin); try done.
  exists levels. split_and!; [done | |].
  - intros target ps Hc. eexists. split; [by apply Hin; eauto|]. intros d. by apply elem_of_level.
  - intros l (target & ps & Hc & ->)%Hin. split; [by eapply level_not_empty|].
    exists target. intros d. by apply elem_of_level.
Qed.

(** A member account is granted access only if, at its own level and at
    every unit above it, some attached statement allows the request and none
    denies it; administrators of the account are no exception. *)
Lemma member_access_needs_every_level `{Chrono} db account org management context session act res
    implicit at_ :
  let request := Build_AuthorizationRequest account account act res at_ in
  cloud_wf db → scp_enabled (cloud db) = true →
  cloud_organization_accounts db !! account = Some org →
  cloud_management_accounts db !! org = Some management → management ≠ account →
  documents_decode db org →
  ∃ levels, service_control_levels account db = Ok levels ∧
    (allows (evaluate_actor context levels session account act res implicit at_) →
     ∀ target ps, controls db account target ps →
       (∃ d s, level_document db account target d ∧ s ∈ statements d ∧ effect s = Allow ∧
          applies request s = true) ∧
       (∀ d s, level_document db account target d → s ∈ statements d → applies request s = true →
          effect s ≠ Deny)).
Proof.
  intros request Hwf He Ha Hm Hne Hd.
  destruct (service_control_levels_ok db account org Hwf Ha management) as (levels & Hl & Hin); try done.
  exists levels. split; [done|].
  intros (_ & _ & _ & _ & Hpass & _)%evaluate_actor_allows target ps Hc.
  destruct (Hpass (level_of target (level_rows account org db))) as [_ [Hallow Hdeny]].
  { apply Hin. eauto. }
  split.
  - destruct Hallow as (d & s & Hds & Hs & ? & ?). exists d, s. split_and!; try done.
    by eapply elem_of_level.
  - intros d s Hds Hs Happ Heff. apply Hdeny. exists d, s. split_and!; try done.
    by apply elem_of_level.
Qed.

End CloudProperties.
