(* ===== verification/IdentityFacts.v ===== *)
(** * Correctness of invitations, device authorization and tokens

    How the tables of [Identity] can evolve: an invitation, once used, stays
    used; a device authorization moves forward only; a token keeps its owner
    and, once revoked, stays revoked; identifiers and secrets are never given
    to a second row.  Each operation is shown to respect this order once, and
    the properties over whole histories follow from it. *)
From stdpp Require Import sorting.
From S2P Require Import Prelude Text Json Policy Quota Store Usage Services FlowAccess Cloud Identity Lifecycle CloudFacts.

(** ** Rows of a unique column *)

Definition unique {A K} (key : A → K) (m : gmap Uuid A) : Prop :=
  ∀ i j a b, m !! i = Some a → m !! j = Some b → key a = key b → i = j.

Lemma find_row_some {A} (p : A → bool) m id a :
  find_row p m = Some (id, a) → m !! id = Some a ∧ p a = true.
Proof.
  unfold find_row. intros Hh%head_Some_elem_of.
  apply list_elem_of_filter in Hh as [Hp Hin]. by apply elem_of_map_to_list in Hin.
Qed.

Lemma find_row_none {A} (p : A → bool) m :
  find_row p m = None ↔ ∀ id a, m !! id = Some a → p a = false.
Proof.
  unfold find_row. rewrite head_None. split.
  - intros Hn id a Ha. destruct (p a) eqn:Hp; [|done]. exfalso.
    apply (not_elem_of_nil (id, a)). rewrite <- Hn. apply list_elem_of_filter.
    split; [done|]. by apply elem_of_map_to_list.
  - intros Hall. destruct (filter _ _) as [|[id a] l] eqn:E; [done|].
    assert (Hin : (id, a) ∈ (id, a) :: l) by (by left). rewrite <- E in Hin.
    apply list_elem_of_filter in Hin as [Hp Hin]. apply elem_of_map_to_list, Hall in Hin. simpl in Hp. congruence.
Qed.

(** The only row a predicate selects. *)
Lemma find_row_only {A} (p : A → bool) m id a :
  m !! id = Some a → p a = true → (∀ i b, m !! i = Some b → p b = true → i = id) →
  find_row p m = Some (id, a).
Proof.
  intros Ha Hp Honly. destruct (find_row p m) as [[i b]|] eqn:E.
  - apply find_row_some in E as [Hb Hpb]. assert (i = id) as -> by (by eapply Honly). congruence.
  - apply find_row_none with (id := id) (a := a) in E; [congruence | done].
Qed.

Lemma find_row_unique {A K} `{EqDecision K} (key : A → K) (k : K) m id a :
  unique key m → m !! id = Some a → key a = k →
  find_row (λ a, bool_decide (key a = k)) m = Some (id, a).
Proof.
  intros Hu Ha Hk. apply find_row_only; [done | by apply bool_decide_true|].
  intros i b Hb Hkb%bool_decide_true_iff. eapply Hu; [exact Hb | exact Ha | congruence].
Qed.

Lemma unique_insert {A K} (key : A → K) m id a :
  unique key m → (∀ i b, m !! i = Some b → i ≠ id → key b ≠ key a) → unique key (<[id := a]> m).
Proof.
  intros Hu Hnew i j x y Hi Hj Hk.
  apply lookup_insert_Some in Hi as [[<- <-]|[Hni Hi]]; apply lookup_insert_Some in Hj as [[<- <-]|[Hnj Hj]].
  - done.
  - exfalso. by eapply Hnew.
  - exfalso. by eapply Hnew; [exact Hi | |].
  - by eapply Hu.
Qed.

Lemma unique_sub {A K} (key : A → K) (m m' : gmap Uuid A) :
  (∀ i a', m' !! i = Some a' → ∃ a, m !! i = Some a ∧ key a = key a') → unique key m → unique key m'.
Proof.
  intros Hsub Hu i j a b Hi Hj Hk. destruct (Hsub _ _ Hi) as (a0 & Ha0 & Ka). destruct (Hsub _ _ Hj) as (b0 & Hb0 & Kb).
  eapply Hu; [exact Ha0 | exact Hb0 | congruence].
Qed.

(** A committed transaction and a read. *)
Lemma keeps_and_then {A B} (R : relation Db) `{!PreOrder R} (t : tx A) (f : A → Db → result StoreError B) db x db' :
  keeps R t → and_then t f db = (x, db') → R db db'.
Proof.
  intros Ht. unfold and_then. destruct (t db) as [[a db1]|e] eqn:E; intros [= _ <-]; [by eapply Ht | done].
Qed.

(** ** Order of rows *)

Record invitation_le (v v' : InvitationRow) : Prop := {
  le_code : code_hash v' = code_hash v;
  le_organization : invitation_organization v' = invitation_organization v;
  le_used : 0 < used_count v → 0 < used_count v';
}.

Definition device_rank (s : string) : nat :=
  if String.eqb s "pending" then 0 else if String.eqb s "approved" then 1 else 2.

Record device_le (d d' : DeviceRow) : Prop := {
  le_codes : device_code_hash d' = device_code_hash d ∧ user_code_hash d' = user_code_hash d;
  le_scope : device_organization d' = device_organization d ∧ device_expires_at d' = device_expires_at d;
  le_rank : (device_rank (device_status d) ≤ device_rank (device_status d'))%nat;
  le_final : device_rank (device_status d) = 2%nat → device_status d' = device_status d;
  le_approver : (0 < device_rank (device_status d))%nat → approved_user_id d' = approved_user_id d;
}.

Record token_le (t t' : CliTokenRow) : Prop := {
  le_secret : cli_prefix t' = cli_prefix t ∧ cli_token_hash t' = cli_token_hash t;
  le_owner : cli_user t' = cli_user t ∧ cli_organization t' = cli_organization t;
  le_expiry : cli_expires_at t' = cli_expires_at t;
  le_revoked : is_Some (cli_revoked_at t) → is_Some (cli_revoked_at t');
}.

#[export] Instance invitation_le_preorder : PreOrder invitation_le.
Proof. split; [by constructor|]. intros a b c [] []. constructor; [congruence | congruence | auto]. Qed.

#[export] Instance device_le_preorder : PreOrder device_le.
Proof.
  split; [by constructor|]. intros a b c [[] [] Hab Fab Aab] [[] [] Hbc Fbc Abc].
  constructor; [split; congruence | split; congruence | lia | |].
  - intros Ha. specialize (Fab Ha). rewrite <- Fab. apply Fbc. by rewrite Fab.
  - intros Ha. rewrite Abc by lia. by apply Aab.
Qed.

#[export] Instance token_le_preorder : PreOrder token_le.
Proof.
  split; [by constructor|]. intros a b c [[] [] ? ?] [[] [] ? ?].
  constructor; [split; congruence | split; congruence | congruence | auto].
Qed.

(** ** Order of tables *)

(** Rows stay, and a new row has a new key. *)
Record grows {A K} (le : relation A) (key : A → K) (m m' : gmap Uuid A) : Prop := {
  grows_stay : ∀ id a, m !! id = Some a → ∃ a', m' !! id = Some a' ∧ le a a';
  grows_new : ∀ id a', m' !! id = Some a' → m !! id = None → ∀ i b, m !! i = Some b → key b ≠ key a';
  grows_unique : unique key m → unique key m';
}.

Lemma grows_refl {A K} (le : relation A) (key : A → K) `{!Reflexive le} m : grows le key m m.
Proof. split; [eauto | congruence | done]. Qed.

Lemma grows_trans {A K} (le : relation A) (key : A → K) `{!Transitive le} a b c :
  (∀ x y, le x y → key y = key x) → grows le key a b → grows le key b c → grows le key a c.
Proof.
  intros Hkey [Sab Nab Uab] [Sbc Nbc Ubc]. split; [|intros id z Hz Ha i x Hx|by auto].
  - intros id x Hx. destruct (Sab _ _ Hx) as (y & Hy & ?). destruct (Sbc _ _ Hy) as (z & ? & ?).
    exists z. split; [done|]. by etrans.
  - destruct (Sab _ _ Hx) as (y & Hy & Hxy). rewrite <- (Hkey _ _ Hxy).
    destruct (b !! id) as [w|] eqn:Hw; [|by eapply Nbc].
    destruct (Sbc _ _ Hw) as (w' & Hw' & Hle). simplify_eq. rewrite (Hkey _ _ Hle), (Hkey _ _ Hxy).
    by eapply Nab.
Qed.

(** Rows may go; one that is there is old, or has an identifier from [lo] on. *)
Definition turns {A} (lo : Uuid) (le : relation A) (m m' : gmap Uuid A) : Prop :=
  ∀ id a', m' !! id = Some a' → (∃ a, m !! id = Some a ∧ le a a') ∨ (lo ≤ id)%N.

Definition below {A} (hi : Uuid) (m : gmap Uuid A) : Prop := ∀ id a, m !! id = Some a → (id < hi)%N.

(** The check constraints of the rows. *)
Record device_valid (d : DeviceRow) : Prop := {
  valid_status : is_device_status (device_status d) = true;
  valid_interval : 1 ≤ interval_seconds d ≤ 60;
  valid_pending : device_status d = "pending" → approved_user_id d = None;
  valid_approved : device_status d = "approved" ∨ device_status d = "consumed" → is_Some (approved_user_id d);
}.
Definition devices_valid (m : gmap Uuid DeviceRow) : Prop := ∀ id d, m !! id = Some d → device_valid d.

Record invitation_valid (v : InvitationRow) : Prop := {
  valid_uses : max_uses v = 1 ∧ 0 ≤ used_count v ≤ 1;
  valid_lifetime : invitation_expires_at v ≤ invitation_created_at v + DAY_SECONDS;
}.
Definition invitations_valid (m : gmap Uuid InvitationRow) : Prop := ∀ id v, m !! id = Some v → invitation_valid v.

Definition login_history (user : UserId) (db : Db) : gmap N LoginRow :=
  filter (λ e, login_user_id (snd e) = user) (user_login_events (identity db)).
Definition logins_bounded (db : Db) : Prop :=
  ∀ user, (size (login_history user db) ≤ MAX_USER_LOGIN_EVENTS_PER_USER)%nat.

Record evolves (db db' : Db) : Prop := {
  ev_now : now db ≤ now db';
  ev_uuid : (next_uuid db ≤ next_uuid db')%N;
  ev_invitations : grows invitation_le code_hash (invitation_rows db) (invitation_rows db');
  ev_devices : turns (next_uuid db) device_le (device_rows db) (device_rows db');
  ev_tokens : turns (next_uuid db) token_le (token_rows db) (token_rows db');
  ev_below : below (next_uuid db) (device_rows db) → below (next_uuid db') (device_rows db');
  ev_token_below : below (next_uuid db) (token_rows db) → below (next_uuid db') (token_rows db');
  ev_device_codes : unique device_code_hash (device_rows db) → unique device_code_hash (device_rows db');
  ev_prefixes : unique cli_prefix (token_rows db) → unique cli_prefix (token_rows db');
  ev_device_valid : devices_valid (device_rows db) → devices_valid (device_rows db');
  ev_invitation_valid : invitations_valid (invitation_rows db) → invitations_valid (invitation_rows db');
  ev_logins : logins_bounded db → logins_bounded db';
}.

Lemma turns_refl {A} lo (le : relation A) `{!Reflexive le} m : turns lo le m m.
Proof. intros id a Ha. left. eauto. Qed.

Lemma turns_trans {A} lo hi (le : relation A) `{!Transitive le} a b c :
  (lo ≤ hi)%N → turns lo le a b → turns hi le b c → turns lo le a c.
Proof.
  intros Hle Hab Hbc id z Hz. destruct (Hbc _ _ Hz) as [(y & Hy & ?)|?]; [|right; lia].
  destruct (Hab _ _ Hy) as [(x & Hx & ?)|?]; [|by right]. left. exists x. split; [done|]. by etrans.
Qed.

#[export] Instance evolves_preorder : PreOrder evolves.
Proof.
  split.
  - intros db. constructor; try done; [apply grows_refl, _ | apply turns_refl, _ | apply turns_refl, _].
  - intros a b c [] []. constructor; try (by auto); [lia | lia | | |].
    + eapply grows_trans; [apply _ | by intros ?? [] | done..].
    + by eapply turns_trans; [apply _ | ..].
    + by eapply turns_trans; [apply _ | ..].
Qed.

(** The tables are as they were. *)
Lemma evolves_same db db' :
  now db' = now db → (next_uuid db ≤ next_uuid db')%N → invitation_rows db' = invitation_rows db →
  device_rows db' = device_rows db → token_rows db' = token_rows db →
  user_login_events (identity db') = user_login_events (identity db) → evolves db db'.
Proof.
  intros Hn Hu Hi Hd Ht Hl. constructor; unfold logins_bounded, login_history; rewrite ?Hn, ?Hi, ?Hd, ?Ht, ?Hl;
    try done; [apply grows_refl, _ | apply turns_refl, _ | apply turns_refl, _ | |].
  - intros Hb id a Ha. apply Hb in Ha. lia.
  - intros Hb id a Ha. apply Hb in Ha. lia.
Qed.

(** Updates of one table of the identity tables. *)
Lemma evolves_devices (m : gmap Uuid DeviceRow) db :
  turns (next_uuid db) device_le (device_rows db) m →
  (below (next_uuid db) (device_rows db) → below (next_uuid db) m) →
  (unique device_code_hash (device_rows db) → unique device_code_hash m) →
  (devices_valid (device_rows db) → devices_valid m) →
  evolves db (set_identity (set_devices m (identity db)) db).
Proof. intros. constructor; try done; [apply grows_refl, _ | apply turns_refl, _]. Qed.

Lemma evolves_tokens (m : gmap Uuid CliTokenRow) db :
  turns (next_uuid db) token_le (token_rows db) m →
  (below (next_uuid db) (token_rows db) → below (next_uuid db) m) →
  (unique cli_prefix (token_rows db) → unique cli_prefix m) →
  evolves db (set_identity (set_tokens m (identity db)) db).
Proof. intros. constructor; try done; [apply grows_refl, _ | apply turns_refl, _]. Qed.

Lemma evolves_invitations (m : gmap Uuid InvitationRow) db :
  grows invitation_le code_hash (invitation_rows db) m →
  (invitations_valid (invitation_rows db) → invitations_valid m) →
  evolves db (set_identity (set_invitations m (identity db)) db).
Proof. intros. constructor; try done; apply turns_refl, _. Qed.

(** ** The operations respect the order *)

(** A statement that leaves the identity tables alone. *)
Lemma quiet_statement f :
  (∀ db, now (f db) = now db) → (∀ db, next_uuid (f db) = next_uuid db) →
  (∀ db, identity (f db) = identity db) → keeps evolves (statement f).
Proof.
  intros Hn Hu Hi. apply keeps_statement. intros db.
  apply evolves_same; unfold invitation_rows, device_rows, token_rows; rewrite ?Hn, ?Hu, ?Hi; done.
Qed.

Lemma now_v7_evolves : keeps evolves now_v7.
Proof. apply keeps_now_v7. intros db. apply evolves_same; simpl; try done. lia. Qed.

Ltac identity_frame :=
  repeat first [ apply now_v7_evolves | apply quiet_statement; done | frame_step ].

Create HintDb identity discriminated.

Section Users.
Context `{SqlText, SqlCollation, UuidText}.

Lemma insert_organization_evolves id s name : keeps evolves (insert_organization id s name).
Proof.
  unfold insert_organization, insert_policy, insert_unit, insert_account, on_cloud. identity_frame.
Qed.
Lemma insert_principal_evolves id org kind name u q : keeps evolves (insert_principal id org kind name u q).
Proof. unfold insert_principal. identity_frame. Qed.
Lemma insert_membership_evolves org u p r : keeps evolves (insert_membership org u p r).
Proof. unfold insert_membership. identity_frame. Qed.

Lemma insert_user_evolves id mail name hash : keeps evolves (insert_user id mail name hash).
Proof. unfold insert_user. identity_frame. Qed.

Lemma insert_owner_evolves user org principal s name display :
  keeps evolves (insert_owner user org principal s name display).
Proof.
  unfold insert_owner. identity_frame;
    eauto using insert_organization_evolves, insert_principal_evolves, insert_membership_evolves.
Qed.

#[local] Hint Resolve insert_organization_evolves insert_principal_evolves insert_membership_evolves
  insert_user_evolves insert_owner_evolves : identity.

(** An update of the identity tables that leaves the three tables alone. *)
Lemma on_identity_quiet f :
  (∀ db i, invitations (f db i) = invitations i) →
  (∀ db i, cli_device_authorizations (f db i) = cli_device_authorizations i) →
  (∀ db i, cli_access_tokens (f db i) = cli_access_tokens i) →
  (∀ db i, user_login_events (f db i) = user_login_events i) → keeps evolves (on_identity f).
Proof.
  intros Hi Hd Ht Hl. apply keeps_statement. intros db.
  apply evolves_same; unfold invitation_rows, device_rows, token_rows; simpl; done.
Qed.

Lemma create_organization_evolves user s name : keeps evolves (create_organization user s name).
Proof. unfold create_organization. identity_frame; auto with identity. Qed.
Lemma rename_user_evolves user name : keeps evolves (rename_user user name).
Proof. unfold rename_user. identity_frame. Qed.

(** The history after a login: the rows of the others, and the last hundred. *)
Lemma prune_logins_bounded user db u db' :
  prune_logins user db = Ok (u, db') →
  (∀ other, other ≠ user → (size (login_history other db) ≤ MAX_USER_LOGIN_EVENTS_PER_USER)%nat) →
  logins_bounded db'.
Proof.
  intros ->%statement_ok Hothers other. unfold login_history. simpl. rewrite map_filter_filter.
  destruct (decide (other = user)) as [->|Hne].
  - set (kept := fst <$> take MAX_USER_LOGIN_EVENTS_PER_USER (latest_logins user db)).
    transitivity (size (list_to_set kept : gset N)).
    + rewrite <- (size_dom (D := gset N)). apply subseteq_size. intros id.
      rewrite elem_of_dom. intros [l Hl]. apply map_lookup_filter_Some in Hl as [_ [Hu Hk]]. simpl in *.
      destruct (decide (id ∈ (list_to_set kept : gset N))); [done|]. tauto.
    + rewrite size_list_to_set_le. unfold kept. rewrite length_fmap, length_take. lia.
  - etrans; [|apply (Hothers other Hne)]. apply map_subseteq_size, map_filter_subseteq_ext.
    intros id l _ [? _]. done.
Qed.

Lemma create_session_evolves user hash expires method : keeps evolves (create_session user hash expires method).
Proof.
  unfold create_session. intros db x db'. rewrite tx_bind_ok. intros (u & db0 & [_ ->]%tx_fail_if_ok & Hrun).
  rewrite tx_bind_ok in Hrun. destruct Hrun as (id & db1 & Hn & Hrun).
  transitivity db1; [by eapply now_v7_evolves|]. clear Hn. tx_inv Hrun. subst.
  repeat match goal with
  | Hr : require _ _ = _ |- _ => apply require_ok in Hr as [_ ->]
  | Hi : on_identity _ _ = _ |- _ => apply statement_ok in Hi as ->
  end.
  match goal with Hp : prune_logins _ _ = _ |- _ =>
    pose proof (prune_logins_bounded _ _ _ _ Hp) as Hb; apply statement_ok in Hp as Hdb end.
  constructor; try (rewrite Hdb; done); [by rewrite Hdb; apply grows_refl, _ | by rewrite Hdb; apply turns_refl, _..|].
  intros Hold. apply Hb. intros other Hne. etrans; [|apply (Hold other)]. unfold login_history. simpl.
  rewrite map_filter_insert_False by (simpl; congruence).
  apply map_subseteq_size, map_filter_strong_subseteq_ext. intros i l [? Hl%lookup_delete_Some]. tauto.
Qed.
Lemma delete_session_evolves hash : keeps evolves (delete_session hash).
Proof.
  intros db u db' ->%statement_ok. constructor; try done; [apply grows_refl, _ | apply turns_refl, _..|].
  intros Hold user. etrans; [|apply (Hold user)]. unfold login_history. simpl.
  rewrite map_filter_fmap, map_size_fmap. apply map_subseteq_size, map_filter_subseteq_ext.
  intros id l _. simpl. unfold forget_session. by repeat case_match.
Qed.

(** Consuming an invitation. *)
Lemma consume_invitation_evolves id : keeps evolves (consume_invitation id).
Proof.
  apply keeps_statement. intros db. apply evolves_invitations; fold (invitation_rows db);
    [split|].
  - intros i v Hv. destruct (decide (i = id)) as [->|Hne].
    + exists (use_invitation v). rewrite lookup_alter_eq, Hv. by split.
    + exists v. by rewrite lookup_alter_ne.
  - intros i v' Hv' Hnone. apply lookup_alter_Some in Hv' as [(<- & v & Hv & _)|[_ Hv]]; congruence.
  - apply unique_sub. intros i v' Hv'. apply lookup_alter_Some in Hv' as [(<- & v & Hv & ->)|[_ Hv]]; eauto.
  - intros Hall i v' [(<- & v & Hv & ->)|[_ Hv]]%lookup_alter_Some; [|by eapply Hall].
    destruct (Hall _ _ Hv) as [[? ?] ?]. by constructor.
Qed.

Lemma join_evolves user hash : keeps evolves (join_organization_with_invitation user hash).
Proof. unfold join_organization_with_invitation. identity_frame; auto using consume_invitation_evolves with identity. Qed.

(** Expired rows are removed. *)
Lemma filter_turns {A} lo (le : relation A) `{!Reflexive le} (P : Uuid * A → Prop) `{∀ x, Decision (P x)} m :
  turns lo le m (filter P m).
Proof. intros id a [Ha _]%map_lookup_filter_Some. left. eauto. Qed.
Lemma filter_below {A} hi (P : Uuid * A → Prop) `{∀ x, Decision (P x)} (m : gmap Uuid A) :
  below hi m → below hi (filter P m).
Proof. intros Hb id a [Ha _]%map_lookup_filter_Some. by eapply Hb. Qed.
Lemma filter_unique {A K} (key : A → K) (P : Uuid * A → Prop) `{∀ x, Decision (P x)} (m : gmap Uuid A) :
  unique key m → unique key (filter P m).
Proof. apply unique_sub. intros i a [Ha _]%map_lookup_filter_Some. eauto. Qed.

Lemma purge_evolves : keeps evolves purge_cli_rows.
Proof.
  apply keeps_statement. intros db. constructor; try done; unfold device_rows, token_rows; simpl.
  - apply grows_refl, _.
  - apply filter_turns, _.
  - apply filter_turns, _.
  - apply filter_below.
  - apply filter_below.
  - apply filter_unique.
  - apply filter_unique.
  - intros Hv id d [Hd _]%map_lookup_filter_Some. by eapply Hv.
Qed.

Lemma create_invitation_evolves org creator hash expires : keeps evolves (create_invitation org creator hash expires).
Proof.
  unfold create_invitation. intros db x db'. rewrite tx_bind_ok. intros (id & db1 & Hn & Hrun).
  rewrite tx_bind_ok in Hrun. destruct Hrun as (u & db2 & Hp & Hrun). tx_inv Hrun. subst.
  match goal with Hr : require _ _ = _ |- _ => apply require_ok in Hr as [Hreq ->] end. rewrite !andb_true_iff, !negb_true_iff in Hreq.
  destruct Hreq as (((((Hfree & _) & _) & Hcode) & _) & Hlife).
  match goal with Hi : on_identity _ _ = _ |- _ => apply statement_ok in Hi as -> end.
  transitivity db1; [by eapply now_v7_evolves|]. transitivity db2; [by eapply purge_evolves|].
  assert (Hnew : ∀ i v, invitation_rows db2 !! i = Some v → code_hash v ≠ hash).
  { intros i v Hv Heq. destruct (find_row _ _) eqn:E; [done|].
    apply find_row_none with (id := i) (a := v) in E; [|done]. by rewrite bool_decide_true in E. }
  apply evolves_invitations; fold (invitation_rows db2); [split|].
  - intros i v Hv. exists v. split; [|done]. rewrite lookup_insert_ne; [done|]. intros ->. by rewrite Hv in Hfree.
  - intros i v' [[<- <-]|[_ Hv]]%lookup_insert_Some Hnone; [done | congruence].
  - intros Hu. apply unique_insert; [done|]. intros i v Hv _. by apply (Hnew i v).
  - intros Hv i v [[<- <-]|[_ Hi]]%lookup_insert_Some; [|by eapply Hv].
    constructor; simpl; [lia|]. apply Z.leb_le in Hlife. lia.
Qed.

(** ** Device authorizations and tokens *)

Lemma alter_turns {A} lo (le : relation A) `{!Reflexive le} (f : A → A) id m :
  (∀ a, m !! id = Some a → le a (f a)) → turns lo le m (alter f id m).
Proof.
  intros Hf i a' [(<- & a & Ha & ->)|[_ Ha]]%lookup_alter_Some; left; eauto.
Qed.
Lemma alter_below {A} hi (f : A → A) id (m : gmap Uuid A) : below hi m → below hi (alter f id m).
Proof. intros Hb i a' [(<- & a & Ha & _)|[_ Ha]]%lookup_alter_Some; by eapply Hb. Qed.
Lemma alter_unique {A K} (key : A → K) (f : A → A) id (m : gmap Uuid A) :
  (∀ a, key (f a) = key a) → unique key m → unique key (alter f id m).
Proof.
  intros Hf. apply unique_sub. intros i a' [(<- & a & Ha & ->)|[_ Ha]]%lookup_alter_Some; eauto.
Qed.

Lemma update_device_evolves id f db u db' :
  update_device id f db = Ok (u, db') →
  (∀ t d, device_code_hash (f t d) = device_code_hash d) →
  (∀ d, device_rows db !! id = Some d → device_le d (f (now db) d) ∧ (device_valid d → device_valid (f (now db) d))) →
  evolves db db'.
Proof.
  intros ->%statement_ok Hcode Hle. apply evolves_devices; fold (device_rows db).
  - apply alter_turns; [apply _|]. intros d Hd. by apply Hle.
  - apply alter_below.
  - apply alter_unique. intros d. apply Hcode.
  - intros Hv i d' [(<- & d & Hd & ->)|[_ Hd]]%lookup_alter_Some; [|by eapply Hv].
    apply Hle; [done | by eapply Hv].
Qed.

Lemma poll_device_le t d : device_le d (poll_device t d) ∧ (device_valid d → device_valid (poll_device t d)).
Proof. split; [by constructor|]. intros []. by constructor. Qed.
Lemma approve_device_le u t d :
  device_status d = "pending" →
  device_le d (approve_device u t d) ∧ (device_valid d → device_valid (approve_device u t d)).
Proof.
  intros Hd. split; [constructor; unfold device_rank; rewrite ?Hd; simpl; try done; lia|].
  intros []. constructor; try done; simpl; eauto.
Qed.
Lemma consume_device_le t d :
  device_status d = "approved" →
  device_le d (consume_device t d) ∧ (device_valid d → device_valid (consume_device t d)).
Proof.
  intros Hd. split; [constructor; unfold device_rank; rewrite ?Hd; simpl; try done; lia|].
  intros []. constructor; try done; simpl; eauto.
Qed.

(** What an approval does, on every branch. *)
Lemma approve_ok code user db o db' :
  approve_cli_device_authorization code user db = Ok (o, db') →
  match o with
  | DeviceApproved => ∃ id d, device_by_user_code code db = Some (id, d) ∧ now db < device_expires_at d ∧
      device_status d = "pending" ∧ is_member (device_organization d) user db = true ∧
      db' = set_identity (set_devices (alter (approve_device user (now db)) id (device_rows db))
                            (identity db)) db
  | DeviceNotFound => device_by_user_code code db = None ∧ db' = db
  | DeviceExpired => (∃ id d, device_by_user_code code db = Some (id, d) ∧ device_expires_at d ≤ now db) ∧ db' = db
  | DeviceInvalidState => (∃ id d, device_by_user_code code db = Some (id, d) ∧ device_status d ≠ "pending") ∧ db' = db
  | DeviceForbidden => (∃ id d, device_by_user_code code db = Some (id, d) ∧
      is_member (device_organization d) user db = false) ∧ db' = db
  end.
Proof.
  unfold approve_cli_device_authorization. intros Hrun.
  rewrite tx_bind_ok in Hrun. destruct Hrun as (found & db0 & [-> ->]%query_ok & Hrun).
  destruct (device_by_user_code code db) as [[id d]|] eqn:Hd; [|by apply mret_ok in Hrun as [-> ->]].
  rewrite tx_bind_ok in Hrun. destruct Hrun as (t & db0 & [-> ->]%query_ok & Hrun).
  destruct (device_expires_at d <=? now db) eqn:He.
  { apply mret_ok in Hrun as [-> ->]. split; [|done]. exists id, d. split; [done | lia]. }
  destruct (String.eqb_spec (device_status d) "pending") as [Hs|Hs]; simpl in Hrun;
    [|apply mret_ok in Hrun as [-> ->]; eauto].
  rewrite tx_bind_ok in Hrun. destruct Hrun as (member & db0 & [-> ->]%query_ok & Hrun).
  destruct (is_member _ _ _) eqn:Hm; simpl in Hrun; [|apply mret_ok in Hrun as [-> ->]; eauto].
  tx_inv Hrun. subst. match goal with Hr : require _ _ = _ |- _ => apply require_ok in Hr as [_ ->] end.
  match goal with Hi : update_device _ _ _ = _ |- _ => apply statement_ok in Hi as -> end.
  exists id, d. split_and!; try done. lia.
Qed.

Lemma approve_evolves code user : keeps evolves (approve_cli_device_authorization code user).
Proof.
  intros db o db' Hrun%approve_ok. destruct o; try (by destruct Hrun as [_ ->]).
  destruct Hrun as (id & d & Hd & _ & Hs & _ & ->). apply find_row_some in Hd as [Hd _].
  eapply (update_device_evolves id (approve_device user)); [reflexivity | done|].
  intros d' Hd'. rewrite Hd in Hd'. injection Hd' as <-. by apply approve_device_le.
Qed.

(** A row whose identifier was given out since [db0]. *)
Lemma insert_turns {A} lo (le : relation A) `{!Reflexive le} id a m :
  (lo ≤ id)%N → turns lo le m (<[id := a]> m).
Proof. intros Hid i b [[<- _]|[_ Hb]]%lookup_insert_Some; [by right | left; eauto]. Qed.
Lemma insert_below {A} hi id a (m : gmap Uuid A) : (id < hi)%N → below hi m → below hi (<[id := a]> m).
Proof. intros Hid Hb i b [[<- _]|[_ Hi]]%lookup_insert_Some; [done | by eapply Hb]. Qed.

Lemma insert_device_evolves db0 db id d :
  evolves db0 db → (next_uuid db0 ≤ id < next_uuid db)%N → device_by_code (device_code_hash d) db = None →
  device_valid d → evolves db0 (set_identity (set_devices (<[id := d]> (device_rows db)) (identity db)) db).
Proof.
  intros [] [Hlo Hhi] Hcode Hd. unfold device_by_code in Hcode.
  constructor; try done; unfold device_rows; simpl; fold (device_rows db).
  - intros i b Hi. apply lookup_insert_Some in Hi as [[<- _]|[_ Hi]]; [by right | by apply ev_devices0].
  - intros Hb. apply insert_below; auto.
  - intros Hu. apply unique_insert; [auto|]. intros i b Hi _ Heq.
    apply find_row_none with (id := i) (a := b) in Hcode; [|done]. by rewrite bool_decide_true in Hcode.
  - intros Hv i b [[<- <-]|[_ Hi]]%lookup_insert_Some; [done|]. by eapply ev_device_valid0.
Qed.

Lemma insert_token_evolves db0 db id t :
  evolves db0 db → (next_uuid db0 ≤ id < next_uuid db)%N →
  (∀ i b, token_rows db !! i = Some b → cli_prefix b ≠ cli_prefix t) →
  evolves db0 (set_identity (set_tokens (<[id := t]> (token_rows db)) (identity db)) db).
Proof.
  intros [] [Hlo Hhi] Hnew. constructor; try done; unfold token_rows; simpl; fold (token_rows db).
  - intros i b Hi. apply lookup_insert_Some in Hi as [[<- _]|[_ Hi]]; [by right | by apply ev_tokens0].
  - intros Hb. apply insert_below; auto.
  - intros Hu. apply unique_insert; [auto|]. intros i b Hi _. by apply (Hnew i).
Qed.

Lemma create_device_evolves device user org interval expires :
  keeps evolves (create_cli_device_authorization device user org interval expires).
Proof.
  unfold create_cli_device_authorization. intros db x db'. rewrite tx_bind_ok. intros (id & db1 & Hn & Hrun).
  rewrite tx_bind_ok in Hrun. destruct Hrun as (u & db2 & Hp & Hrun). tx_inv Hrun. subst.
  match goal with Hr : require _ _ = _ |- _ => apply require_ok in Hr as [Hreq ->] end.
  match goal with Hi : on_identity _ _ = _ |- _ => apply statement_ok in Hi as -> end.
  rewrite !andb_true_iff, !negb_true_iff in Hreq. destruct Hreq as (((_ & Hcode) & _) & Hint%in_range_spec).
  pose proof (now_v7_evolves _ _ _ Hn) as E1. apply now_v7_ok in Hn as [-> ->].
  pose proof (purge_evolves _ _ _ Hp) as E2. apply statement_ok in Hp as ->.
  apply insert_device_evolves; [by etrans | simpl; lia | simpl; by destruct (device_by_code _ _)|].
  constructor; simpl; [done | done | done|]. by intros [|].
Qed.

(** The state after the device polled. *)
Definition polled (id : Uuid) (db : Db) : Db :=
  set_identity (set_devices (alter (poll_device (now db)) id (device_rows db)) (identity db)) db.

(** The state after a token was issued. *)
Definition issued (id : Uuid) (t : CliTokenRow) (db : Db) : Db :=
  let db1 := polled id db in
  let db2 := set_next_uuid (N.succ (next_uuid db)) db1 in
  let db3 := set_identity (set_tokens (<[next_uuid db := t]> (token_rows db)) (identity db2)) db2 in
  set_identity (set_devices (alter (consume_device (now db)) id (device_rows db3)) (identity db3)) db3.

Lemma issued_devices id t db :
  device_rows (issued id t db) = alter (λ d, consume_device (now db) (poll_device (now db) d)) id (device_rows db).
Proof. unfold device_rows at 1. simpl. apply alter_alter_eq. Qed.

(** What an exchange does, on every branch. *)
Lemma exchange_ok code prefix hash expires db o db' :
  exchange_cli_device_authorization code prefix hash expires db = Ok (o, db') →
  match o with
  | ExchangeIssued token user org e => e = expires ∧ ∃ id d,
      device_by_code code db = Some (id, d) ∧ now db < device_expires_at d ∧
      device_status d = "approved" ∧ approved_user_id d = Some user ∧ device_organization d = org ∧
      is_member org user db = true ∧ polled_too_fast (now db) d = false ∧ token = next_uuid db ∧
      (∀ i b, token_rows db !! i = Some b → cli_prefix b ≠ prefix ∧ cli_token_hash b ≠ hash) ∧
      db' = issued id (Build_CliTokenRow user org prefix hash expires None None) db
  | ExchangePending => ∃ id d, device_by_code code db = Some (id, d) ∧ device_status d = "pending" ∧
      polled_too_fast (now db) d = false ∧ db' = polled id db
  | ExchangeSlowDown => (∃ id d, device_by_code code db = Some (id, d) ∧ polled_too_fast (now db) d = true) ∧ db' = db
  | ExchangeExpired => (∃ id d, device_by_code code db = Some (id, d) ∧ device_expires_at d ≤ now db) ∧ db' = db
  | ExchangeDenied => (∃ id d, device_by_code code db = Some (id, d) ∧
      (device_status d = "denied" ∨
       ∃ u, approved_user_id d = Some u ∧ is_member (device_organization d) u db = false)) ∧ db' = db
  | ExchangeInvalidDeviceCode =>
      (∀ id d, device_by_code code db = Some (id, d) → device_status d = "consumed") ∧ db' = db
  end.
Proof.
  unfold exchange_cli_device_authorization. intros Hrun.
  rewrite tx_bind_ok in Hrun. destruct Hrun as (start & db0 & [-> ->]%query_ok & Hrun).
  change (Datatypes.id db) with db in Hrun.
  destruct (device_by_code code db) as [[id d]|] eqn:Hd; [|apply mret_ok in Hrun as [-> ->]; naive_solver].
  destruct (device_expires_at d <=? now db) eqn:He.
  { apply mret_ok in Hrun as [-> ->]. split; [|done]. exists id, d. split; [done | lia]. }
  destruct (String.eqb_spec (device_status d) "denied"); [apply mret_ok in Hrun as [-> ->]; eauto 7|].
  destruct (String.eqb_spec (device_status d) "consumed"); [apply mret_ok in Hrun as [-> ->]; naive_solver|].
  destruct (polled_too_fast (now db) d) eqn:Hfast; [apply mret_ok in Hrun as [-> ->]; eauto|].
  rewrite tx_bind_ok in Hrun. destruct Hrun as (u & db1 & ->%statement_ok & Hrun).
  fold (device_rows db) (polled id db) in Hrun.
  destruct (String.eqb_spec (device_status d) "pending") as [Hp|Hp].
  { apply mret_ok in Hrun as [-> ->]. eauto 6. }
  rewrite tx_bind_ok in Hrun. destruct Hrun as (u1 & db2 & [Hs ->]%tx_fail_if_ok & Hrun).
  apply negb_false_iff, String.eqb_eq in Hs.
  rewrite tx_bind_ok in Hrun. destruct Hrun as (user & db2 & [Hu%ok_or_ok ->]%lift_ok & Hrun).
  rewrite tx_bind_ok in Hrun. destruct Hrun as (member & db2 & [-> ->]%query_ok & Hrun).
  destruct (is_member _ _ _) eqn:Hm; simpl in Hrun; [|injection Hrun as <- <-; eauto 9].
  rewrite tx_bind_ok in Hrun. destruct Hrun as (token & db2 & [-> ->]%now_v7_ok & Hrun).
  rewrite tx_bind_ok in Hrun. destruct Hrun as (u2 & db2 & Hins & Hrun).
  rewrite tx_bind_ok in Hrun. destruct Hrun as (u3 & db3 & ->%statement_ok & [-> ->]%mret_ok).
  unfold insert_cli_token in Hins. rewrite tx_bind_ok in Hins.
  destruct Hins as (u4 & db4 & [Hreq ->]%require_ok & ->%statement_ok).
  rewrite !andb_true_iff, !negb_true_iff in Hreq. destruct Hreq as (_ & Hnew).
  split; [done|]. exists id, d. split_and!; try done; [lia|].
  intros i b Hb. destruct (find_row _ _) eqn:E; [done|].
  apply find_row_none with (id := i) (a := b) in E; [|done]. apply orb_false_iff in E as [E1%String.eqb_neq E2%bool_decide_false_iff]. done.
Qed.

Lemma issued_evolves id d t db :
  device_rows db !! id = Some d → device_status d = "approved" →
  (∀ i b, token_rows db !! i = Some b → cli_prefix b ≠ cli_prefix t) → evolves db (issued id t db).
Proof.
  intros Hd Hs Hnew.
  assert (E1 : evolves db (polled id db)).
  { eapply (update_device_evolves id poll_device); [reflexivity | done|]. intros. apply poll_device_le. }
  assert (E2 : evolves db (set_next_uuid (N.succ (next_uuid db)) (polled id db))).
  { etrans; [exact E1|]. apply evolves_same; simpl; try done. lia. }
  etrans; [eapply (insert_token_evolves db _ (next_uuid db) t E2); [simpl; lia | done]|].
  eapply (update_device_evolves id consume_device); [reflexivity | done|].
  intros d' Hd'. apply consume_device_le. unfold device_rows in Hd'. simpl in Hd'. fold (device_rows db) in Hd'.
  rewrite lookup_alter_eq, Hd in Hd'. by injection Hd' as <-.
Qed.

Lemma exchange_evolves code prefix hash expires :
  keeps evolves (exchange_cli_device_authorization code prefix hash expires).
Proof.
  intros db o db' Hrun%exchange_ok. destruct o as [| | | | |token user org e]; try (by destruct Hrun as [_ ->]).
  - destruct Hrun as (id & d & _ & _ & _ & ->).
    eapply (update_device_evolves id poll_device); [reflexivity | done|]. intros. apply poll_device_le.
  - destruct Hrun as (_ & id & d & Hd & _ & Hs & _ & _ & _ & _ & -> & Hnew & ->).
    apply find_row_some in Hd as [Hd _]. eapply issued_evolves; [done | done|]. intros i b Hb. by apply (Hnew i b).
Qed.

Lemma insert_as_alter {A} (f : A → A) (m : gmap Uuid A) id a :
  m !! id = Some a → <[id := f a]> m = alter f id m.
Proof.
  intros Ha. apply map_eq. intros i. destruct (decide (i = id)) as [->|Hne].
  - by rewrite lookup_insert_eq, lookup_alter_eq, Ha.
  - by rewrite lookup_insert_ne, lookup_alter_ne.
Qed.

Lemma alter_token_evolves id f db :
  (∀ t, token_le t (f t)) →
  evolves db (set_identity (set_tokens (alter f id (token_rows db)) (identity db)) db).
Proof.
  intros Hle. apply evolves_tokens.
  - apply alter_turns; [apply _|]. intros t _. apply Hle.
  - apply alter_below.
  - apply alter_unique. intros t. apply (Hle t).
Qed.

Lemma revoke_token_evolves id : keeps evolves (revoke_cli_access_token id).
Proof.
  intros db u db' ->%statement_ok. apply (alter_token_evolves id). intros t.
  destruct (is_some (cli_revoked_at t)); [done|]. by constructor.
Qed.

Lemma authenticate_evolves prefix hash db x db' :
  authenticate_cli_access_token prefix hash db = (x, db') → evolves db db'.
Proof.
  unfold authenticate_cli_access_token, cli_token_by_secret.
  destruct (find_row _ _) as [[id t]|] eqn:Hf; simpl; [|by intros [= _ <-]].
  destruct (token_usable db t); [|by intros [= _ <-]]. intros [= _ <-].
  apply find_row_some in Hf as [Ht _]. rewrite (insert_as_alter (touch_token (now db)) _ _ _ Ht).
  apply alter_token_evolves. by constructor.
Qed.

Lemma session_lookup_evolves hash db x db' : session_user_by_token_hash hash db = (x, db') → evolves db db'.
Proof.
  unfold session_user_by_token_hash. destruct (session_by_token hash db) as [[id s]|]; intros [= _ <-]; [|done].
  by apply evolves_same.
Qed.

Lemma bootstrap_evolves mail name hash s n db x db' :
  bootstrap_admin mail name hash s n db = (x, db') → evolves db db'.
Proof.
  unfold bootstrap_admin. destruct (lookup_user_by_email mail db) as [[u|]|e]; [by intros [= _ <-] | | by intros [= _ <-]].
  apply (keeps_and_then evolves). identity_frame; auto with identity.
Qed.

Lemma register_evolves hash mail name password db x db' :
  register_with_invitation hash mail name password db = (x, db') → evolves db db'.
Proof. apply (keeps_and_then evolves). identity_frame; auto using consume_invitation_evolves with identity. Qed.

Lemma oidc_evolves issuer subject mail name db x db' :
  find_or_create_oidc_user issuer subject mail name db = (x, db') → evolves db db'.
Proof.
  unfold find_or_create_oidc_user. destruct (_ !! _); [by intros [= _ <-]|].
  apply (keeps_and_then evolves). identity_frame; auto with identity. by apply on_identity_quiet.
Qed.

(** ** Histories *)

Inductive identity_request (db db' : Db) : Prop :=
| request_bootstrap mail name hash s n x :
    bootstrap_admin mail name hash s n db = (x, db') → identity_request db db'
| request_register hash mail name password x :
    register_with_invitation hash mail name password db = (x, db') → identity_request db db'
| request_oidc issuer subject mail name x :
    find_or_create_oidc_user issuer subject mail name db = (x, db') → identity_request db db'
| request_account user s name x : create_organization user s name db = Ok (x, db') → identity_request db db'
| request_rename user name x : rename_user user name db = Ok (x, db') → identity_request db db'
| request_login user hash expires method x :
    create_session user hash expires method db = Ok (x, db') → identity_request db db'
| request_session hash x : session_user_by_token_hash hash db = (x, db') → identity_request db db'
| request_logout hash x : delete_session hash db = Ok (x, db') → identity_request db db'
| request_invite org creator hash expires x :
    create_invitation org creator hash expires db = Ok (x, db') → identity_request db db'
| request_join user hash x : join_organization_with_invitation user hash db = Ok (x, db') → identity_request db db'
| request_device device user org interval expires x :
    create_cli_device_authorization device user org interval expires db = Ok (x, db') → identity_request db db'
| request_approve code user x :
    approve_cli_device_authorization code user db = Ok (x, db') → identity_request db db'
| request_exchange code prefix hash expires x :
    exchange_cli_device_authorization code prefix hash expires db = Ok (x, db') → identity_request db db'
| request_authenticate prefix hash x :
    authenticate_cli_access_token prefix hash db = (x, db') → identity_request db db'
| request_revoke_token id x : revoke_cli_access_token id db = Ok (x, db') → identity_request db db'.

(** A request, or a step of another part of the system: time passes,
    identifiers are given out, and the tables stay as they are. *)
Inductive identity_step (db db' : Db) : Prop :=
| identity_step_request : identity_request db db' → identity_step db db'
| identity_step_other :
    identity db' = identity db → now db ≤ now db' → (next_uuid db ≤ next_uuid db')%N → identity_step db db'.

Lemma identity_request_evolves db db' : identity_request db db' → evolves db db'.
Proof.
  destruct 1; eauto using bootstrap_evolves, register_evolves, oidc_evolves, session_lookup_evolves, authenticate_evolves.
  - by eapply create_organization_evolves.
  - by eapply rename_user_evolves.
  - by eapply create_session_evolves.
  - by eapply delete_session_evolves.
  - by eapply create_invitation_evolves.
  - by eapply join_evolves.
  - by eapply create_device_evolves.
  - by eapply approve_evolves.
  - by eapply exchange_evolves.
  - by eapply revoke_token_evolves.
Qed.

Lemma identity_step_evolves db db' : identity_step db db' → evolves db db'.
Proof.
  destruct 1 as [Hr | Hi Hn Hu]; [by apply identity_request_evolves|].
  constructor; unfold logins_bounded, login_history, invitation_rows, device_rows, token_rows; rewrite ?Hi; try done.
  - apply grows_refl, _.
  - apply turns_refl, _.
  - apply turns_refl, _.
  - intros Hb id d Hd. apply Hb in Hd. lia.
  - intros Hb id d Hd. apply Hb in Hd. lia.
Qed.

Lemma identity_steps_evolve db db' : rtc identity_step db db' → evolves db db'.
Proof. induction 1; [done|]. etrans; [by apply identity_step_evolves | done]. Qed.

(** The requests leave services, outbox and quota owners alone. *)
Lemma on_identity_agrees f : keeps agrees (on_identity f).
Proof. by apply keeps_statement. Qed.

Ltac people_frame :=
  repeat first [ apply on_identity_agrees | frame_step | done
               | progress unfold insert_principal, insert_membership, insert_user, purge_cli_rows,
                   prune_logins, consume_invitation, update_device, insert_cli_token ].

Lemma insert_owner_agrees user org principal s name display :
  keeps agrees (insert_owner user org principal s name display).
Proof. unfold insert_owner. people_frame. apply insert_organization_agrees. Qed.

(** A run of a transaction whose statements are quiet. *)
Ltac agree_run := lazymatch goal with |- ?t ?db = Ok (_, ?db') → agrees ?db ?db' =>
  let Hk := fresh in enough (Hk : keeps agrees t) by apply Hk; people_frame end.

Lemma exchange_agrees code prefix hash expires :
  keeps agrees (exchange_cli_device_authorization code prefix hash expires).
Proof.
  intros db o db' Hrun%exchange_ok. destruct o; try (by destruct Hrun as [_ ->]).
  - by destruct Hrun as (id & d & _ & _ & _ & ->).
  - by destruct Hrun as (_ & id & d & _ & _ & _ & _ & _ & _ & _ & _ & _ & ->).
Qed.

Lemma identity_request_agrees db db' : identity_request db db' → agrees db db'.
Proof.
  destruct 1 as [????? x Hr | ???? x Hr | ???? x Hr | ??? x Hr | ?? x Hr | ???? x Hr | ? x Hr | ? x Hr
    | ???? x Hr | ?? x Hr | ????? x Hr | ?? x Hr | ???? x Hr | ?? x Hr | ? x Hr].
  - revert Hr. unfold bootstrap_admin.
    destruct (lookup_user_by_email _ _) as [[u|]|e]; [by intros [= _ <-] | | by intros [= _ <-]].
    apply (keeps_and_then agrees). people_frame. apply insert_owner_agrees.
  - revert Hr. apply (keeps_and_then agrees). people_frame.
  - revert Hr. unfold find_or_create_oidc_user. destruct (_ !! _); [by intros [= _ <-]|].
    apply (keeps_and_then agrees). people_frame. apply insert_owner_agrees.
  - revert Hr. unfold create_organization. agree_run. apply insert_owner_agrees.
  - revert Hr. unfold rename_user. agree_run.
  - revert Hr. unfold create_session. agree_run.
  - revert Hr. unfold session_user_by_token_hash. by destruct (session_by_token _ _) as [[id s]|]; intros [= _ <-].
  - revert Hr. unfold delete_session. agree_run.
  - revert Hr. unfold create_invitation. agree_run.
  - revert Hr. unfold join_organization_with_invitation. agree_run.
  - revert Hr. unfold create_cli_device_authorization. agree_run.
  - revert Hr. unfold approve_cli_device_authorization. agree_run.
  - by eapply exchange_agrees.
  - revert Hr. unfold authenticate_cli_access_token.
    by destruct (cli_token_by_secret _ _ _) as [[id t]|]; intros [= _ <-].
  - revert Hr. unfold revoke_cli_access_token. agree_run.
Qed.

(** What holds of the tables in every reachable state. *)
Record identity_wf (db : Db) : Prop := {
  wf_codes : unique code_hash (invitation_rows db);
  wf_device_codes : unique device_code_hash (device_rows db);
  wf_token_prefixes : unique cli_prefix (token_rows db);
  wf_device_ids : below (next_uuid db) (device_rows db);
  wf_token_ids : below (next_uuid db) (token_rows db);
  wf_devices : devices_valid (device_rows db);
  wf_invitations : invitations_valid (invitation_rows db);
  wf_logins : logins_bounded db;
}.

Lemma evolves_wf db db' : evolves db db' → identity_wf db → identity_wf db'.
Proof. intros [] []. constructor; auto. by apply ev_invitations0. Qed.

Lemma empty_identity_wf db : identity db = empty_identity → identity_wf db.
Proof.
  intros Hi. constructor; unfold logins_bounded, login_history, invitation_rows, device_rows, token_rows; rewrite ?Hi;
    try (intros ??; set_solver).
  intros user. simpl. rewrite map_filter_empty, map_size_empty. lia.
Qed.

(** ** Invitations *)

Inductive admits (hash : Digest) (db db' : Db) : Prop :=
| admits_join user org : join_organization_with_invitation user hash db = Ok (org, db') → admits hash db db'
| admits_register mail name password su :
    register_with_invitation hash mail name password db = (Ok su, db') → admits hash db db'.

Definition spent (hash : Digest) (db : Db) : Prop :=
  ∃ id v, invitation_rows db !! id = Some v ∧ code_hash v = hash ∧ 0 < used_count v.

Lemma usable_invitation_some hash db id v :
  usable_invitation hash db = Some (id, v) →
  invitation_rows db !! id = Some v ∧ code_hash v = hash ∧ invitation_usable (now db) v = true.
Proof.
  unfold usable_invitation. destruct (find_row _ _) as [[i w]|] eqn:Hf; simpl; [|done].
  destruct (invitation_usable (now db) w) eqn:Hu; [|done]. intros [= <- <-].
  by apply find_row_some in Hf as [Hv Hh%bool_decide_true_iff].
Qed.

Lemma evolves_spent hash db db' : evolves db db' → spent hash db → spent hash db'.
Proof.
  intros E (id & v & Hv & Hh & Hu). destruct (grows_stay _ _ _ _ (ev_invitations _ _ E) _ _ Hv) as (v' & Hv' & [Hc _ Hused]).
  exists id, v'. split_and!; [done | congruence | auto].
Qed.

Lemma spent_unusable hash db : identity_wf db → spent hash db → usable_invitation hash db = None.
Proof.
  intros Hwf (id & v & Hv & Hh & Hu). unfold usable_invitation.
  rewrite (find_row_unique code_hash hash _ _ _ (wf_codes _ Hwf) Hv Hh). simpl. unfold invitation_usable.
  replace (used_count v =? 0) with false by (symmetry; apply Z.eqb_neq; lia). by rewrite andb_false_r.
Qed.

Lemma consume_spent id hash db v u db' :
  consume_invitation id db = Ok (u, db') → invitation_rows db !! id = Some v → code_hash v = hash → spent hash db'.
Proof.
  intros ->%statement_ok Hv Hh. exists id, (use_invitation v). unfold invitation_rows. simpl. fold (invitation_rows db).
  by rewrite lookup_alter_eq, Hv.
Qed.

Lemma consume_later_spent id hash db db1 v u db2 :
  evolves db db1 → invitation_rows db !! id = Some v → code_hash v = hash →
  consume_invitation id db1 = Ok (u, db2) → spent hash db2.
Proof.
  intros E Hv Hh Hc. destruct (grows_stay _ _ _ _ (ev_invitations _ _ E) _ _ Hv) as (v' & Hv' & [Hc' _ _]).
  eapply consume_spent; [exact Hc | exact Hv' | congruence].
Qed.

Lemma admits_spent hash db db' : admits hash db db' → spent hash db'.
Proof.
  destruct 1 as [user org Hj | mail name password su Hr].
  - unfold join_organization_with_invitation in Hj. rewrite tx_bind_ok in Hj.
    destruct Hj as ([id org'] & db0 & [Hf ->]%optional_query_ok & Hj).
    destruct (usable_invitation hash db) as [[i v]|] eqn:Hu; simpl in Hf; [|done].
    destruct (invitation_organization v); simpl in Hf; [|done]. injection Hf as -> ->.
    apply usable_invitation_some in Hu as (Hv & Hh & _). cbv iota in Hj. tx_inv Hj. subst.
    match goal with Hn : now_v7 _ = _, Hp : insert_principal _ _ _ _ _ _ _ = _, Hm : insert_membership _ _ _ _ _ = _,
        Hc : consume_invitation _ _ = _ |- _ =>
      eapply consume_later_spent; [|exact Hv | reflexivity | exact Hc];
      etrans; [eapply now_v7_evolves, Hn|]; etrans; [eapply insert_principal_evolves, Hp | eapply insert_membership_evolves, Hm]
    end.
  - unfold register_with_invitation, and_then in Hr.
    match type of Hr with match ?t db with _ => _ end = _ => destruct (t db) as [[a db1]|e] eqn:E end; [|done].
    injection Hr as _ <-. rewrite tx_bind_ok in E.
    destruct E as ([id v] & db0 & [Hu ->]%optional_query_ok & E). simpl in E.
    apply usable_invitation_some in Hu as (Hv & Hh & _). rewrite tx_bind_ok in E.
    destruct E as (org & db0 & [_ ->]%lift_ok & E). rewrite tx_bind_ok in E.
    destruct E as (available & db0 & [_ ->]%query_ok & E). rewrite tx_bind_ok in E.
    destruct E as (u0 & db0 & [_ ->]%tx_fail_if_ok & E). rewrite tx_bind_ok in E.
    destruct E as (u & db0 & Hc & E). pose proof (consume_spent _ _ _ _ _ _ Hc Hv Hh) as Hs.
    eapply evolves_spent; [|exact Hs].
    match type of E with ?t db0 = _ => assert (Hk : keeps evolves t) by (identity_frame; auto with identity) end.
    by eapply Hk.
Qed.

Lemma unusable_rejects hash db :
  usable_invitation hash db = None →
  (∀ user, join_organization_with_invitation user hash db = Err InvitationUnavailable) ∧
  (∀ mail name password, register_with_invitation hash mail name password db = (Err InvitationUnavailable, db)).
Proof.
  intros Hu. split; [intros user | intros mail name password].
  - unfold join_organization_with_invitation, optional, query, mbind, tx_bind. by rewrite Hu.
  - unfold register_with_invitation, and_then, optional, query, mbind, tx_bind. by rewrite Hu.
Qed.

(** ** Properties *)

(** C37: In every reachable state no two invitations share a code, no two device
    authorizations a device code and no two tokens a prefix; every invitation is
    for one use within a day; an approved or consumed device authorization has
    its approver and a pending one has none; and at most a hundred logins of a
    user are kept. *)
Theorem identity_invariant db db' :
  identity db = empty_identity → rtc identity_step db db' → identity_wf db'.
Proof. intros Hi Hr. eapply evolves_wf; [by apply identity_steps_evolve | by apply empty_identity_wf]. Qed.

(** C38: An invitation admits one person: once somebody has joined or registered
    with a code, every later attempt with it, whatever happens in between, is
    refused and changes nothing. *)
Theorem invitation_admits_one hash db db' db'' :
  identity_wf db → admits hash db db' → rtc identity_step db' db'' →
  invitation_available hash db'' = false ∧
  (∀ user, join_organization_with_invitation user hash db'' = Err InvitationUnavailable) ∧
  (∀ mail name password, register_with_invitation hash mail name password db'' = (Err InvitationUnavailable, db'')).
Proof.
  intros Hwf Ha Hr. assert (E : evolves db db').
  { destruct Ha; [by eapply join_evolves | by eapply register_evolves]. }
  apply identity_steps_evolve in Hr. apply admits_spent in Ha.
  assert (Hu : usable_invitation hash db'' = None).
  { apply spent_unusable; [eapply evolves_wf; [exact Hr | by eapply evolves_wf] | by eapply evolves_spent]. }
  split; [unfold invitation_available; by rewrite Hu | by apply unusable_rejects].
Qed.

Lemma device_stays_final id d db db' :
  identity_wf db → evolves db db' → device_rows db !! id = Some d → device_rank (device_status d) = 2%nat →
  ∀ d', device_rows db' !! id = Some d' → device_status d' = device_status d.
Proof.
  intros Hwf E Hd Hs d' Hd'. destruct (ev_devices _ _ E _ _ Hd') as [(d0 & Hd0 & Hle)|Hlo].
  - simplify_eq. by apply Hle.
  - apply (wf_device_ids _ Hwf) in Hd. lia.
Qed.

(** A token is issued only for an unexpired device authorization that a
    user has approved who still is a member of its account, it belongs to that
    user and account, and no later exchange ever issues a second token for the
    same authorization. *)
Lemma device_code_issues_once code prefix hash expires token user org e db db1 :
  identity_wf db →
  exchange_cli_device_authorization code prefix hash expires db = Ok (ExchangeIssued token user org e, db1) →
  ∃ id d, device_by_code code db = Some (id, d) ∧ device_status d = "approved" ∧
    approved_user_id d = Some user ∧ device_organization d = org ∧ now db < device_expires_at d ∧
    is_member org user db = true ∧
    token_rows db1 !! token = Some (Build_CliTokenRow user org prefix hash expires None None) ∧
    ∀ code' prefix' hash' expires' token' user' org' e' db2 db3,
      rtc identity_step db1 db2 →
      exchange_cli_device_authorization code' prefix' hash' expires' db2
        = Ok (ExchangeIssued token' user' org' e', db3) →
      ∃ id' d', device_by_code code' db2 = Some (id', d') ∧ id' ≠ id.
Proof.
  intros Hwf Hrun. pose proof (exchange_evolves _ _ _ _ _ _ _ Hrun) as E.
  apply exchange_ok in Hrun as (-> & id & d & Hd & He & Hs & Hu & Ho & Hm & _ & -> & Hnew & ->).
  exists id, d. split_and!; try done; [unfold token_rows; simpl; by rewrite lookup_insert_eq|].
  intros code' prefix' hash' expires' token' user' org' e' db2 db3 Hr%identity_steps_evolve Hrun.
  apply exchange_ok in Hrun as (_ & id' & d' & Hd' & _ & Hs' & _). exists id', d'. split; [done|]. intros ->.
  apply find_row_some in Hd as [Hd _]. apply find_row_some in Hd' as [Hd' _].
  assert (Hfin : device_status d' = "consumed"); [|congruence].
  apply (device_stays_final id (consume_device (now db) (poll_device (now db) d)) _ _ (evolves_wf _ _ E Hwf) Hr); [|done..].
  by rewrite issued_devices, lookup_alter_eq, Hd.
Qed.

Lemma ended_token_unusable db t :
  is_Some (cli_revoked_at t) ∨ cli_expires_at t ≤ now db → token_usable db t = false.
Proof.
  intros Hend. unfold token_usable. destruct Hend as [[r ->]|Hexp]; [done|].
  replace (now db <? cli_expires_at t) with false by (symmetry; apply Z.ltb_ge; lia). by rewrite andb_false_r.
Qed.

Lemma revoke_token_revokes id t db u db' :
  revoke_cli_access_token id db = Ok (u, db') → token_rows db' !! id = Some t → is_Some (cli_revoked_at t).
Proof.
  intros ->%statement_ok. unfold token_rows. simpl. rewrite lookup_alter_eq.
  destruct (cli_access_tokens (identity db) !! id) as [t0|]; simpl; [|done]. intros [= <-].
  destruct (cli_revoked_at t0) eqn:Hr; simpl; [by rewrite Hr | done].
Qed.

(** After a token has been revoked or has expired it never authenticates
    anyone again, whatever happens afterwards. *)
Lemma ended_token_stays_dead id t db db' prefix hash p db'' :
  identity_wf db → token_rows db !! id = Some t →
  (∃ u db0, revoke_cli_access_token id db0 = Ok (u, db)) ∨ cli_expires_at t ≤ now db →
  rtc identity_step db db' →
  authenticate_cli_access_token prefix hash db' = (Ok (Some p), db'') → cli_token_id p ≠ id.
Proof.
  intros Hwf Ht Hend E%identity_steps_evolve Hauth <-.
  assert (Hover : is_Some (cli_revoked_at t) ∨ cli_expires_at t ≤ now db).
  { destruct Hend as [(u & db0 & Hr)|?]; [left; by eapply revoke_token_revokes | by right]. }
  unfold authenticate_cli_access_token, cli_token_by_secret in Hauth.
  destruct (find_row _ _) as [[i t']|] eqn:Hf; simpl in Hauth; [|done].
  destruct (token_usable db' t') eqn:Hu; [|done]. apply find_row_some in Hf as [Ht' _].
  destruct (session_user_or _ _ _) as [su|]; [|done]. injection Hauth as <- _. simpl in *.
  destruct (ev_tokens _ _ E _ _ Ht') as [(t0 & Ht0 & [_ _ Hexp Hrev])|Hlo];
    [|apply (wf_token_ids _ Hwf) in Ht; lia].
  simplify_eq. rewrite ended_token_unusable in Hu; [done|].
  destruct Hover as [?|?]; [by left; apply Hrev | right; rewrite Hexp; pose proof (ev_now _ _ E); lia].
Qed.

(** ** The device flow from end to end *)

(** Nothing but the identity tables and the source of identifiers differs. *)
Record same_people (db db' : Db) : Prop := {
  people_now : now db' = now db;
  people_users : users db' = users db;
  people_organizations : organizations db' = organizations db;
  people_memberships : organization_memberships db' = organization_memberships db;
  people_principals : principals db' = principals db;
  people_cloud : cloud db' = cloud db;
}.

Lemma session_user_same user db db' : same_people db db' → session_user user db' = session_user user db.
Proof.
  intros [_ Hu Ho Hm Hp Hc]. unfold session_user. rewrite Hu, Hm.
  replace (omap (membership_of user db') (map_to_list (organization_memberships db)))
    with (omap (membership_of user db) (map_to_list (organization_memberships db))); [done|].
  apply list_omap_ext, Forall2_same_length_lookup_2; [done|].
  intros i [[o u] m] y Hx Hy. rewrite Hx in Hy. injection Hy as <-.
  unfold membership_of. by rewrite Hc, Ho, Hp.
Qed.

Lemma token_usable_same t db db' : same_people db db' → token_usable db' t = token_usable db t.
Proof.
  intros [Hn Hu Ho Hm Hp Hc]. unfold token_usable, active_users. by rewrite Hn, Hu, Hm, Hp.
Qed.

(** A device authorization as it is created. *)
Definition new_device (device user : Digest) (org : OrganizationId) (interval expires : Z) : DeviceRow :=
  Build_DeviceRow device user org None "pending" interval expires None None None.

Lemma create_device_succeeds device ucode org interval expires db :
  identity_wf db → org ∈ organizations db → device_by_code device db = None →
  device_by_user_code ucode db = None → 1 ≤ interval ≤ 60 →
  ∃ db1, create_cli_device_authorization device ucode org interval expires db = Ok (next_uuid db, db1) ∧
    same_people db db1 ∧ token_rows db1 ⊆ token_rows db ∧
    device_rows db1 !! next_uuid db = Some (new_device device ucode org interval expires) ∧
    ∀ i d, device_rows db1 !! i = Some d → i ≠ next_uuid db → device_rows db !! i = Some d.
Proof.
  intros Hwf Horg Hdev Huser Hint.
  assert (Hfree : device_rows db !! next_uuid db = None).
  { destruct (device_rows db !! next_uuid db) eqn:Hd; [|done]. apply (wf_device_ids _ Hwf) in Hd. lia. }
  set (db0 := set_next_uuid (N.succ (next_uuid db)) db).
  destruct (purge_cli_rows db0) as [[u dbp]|e] eqn:Hp; [|done]. apply statement_ok in Hp as Hdbp.
  assert (Hsub : ∀ i d, device_rows dbp !! i = Some d → device_rows db !! i = Some d).
  { intros i d. rewrite Hdbp. unfold device_rows. simpl. by intros [? _]%map_lookup_filter_Some. }
  eexists. split.
  - unfold create_cli_device_authorization. apply tx_bind_ok. exists (next_uuid db), db0. split; [done|].
    apply tx_bind_ok. exists u, dbp. split; [done|].
    apply tx_bind_ok. eexists _, dbp. split; [reflexivity|].
    apply tx_bind_ok. exists (), dbp. split.
    { apply tx_fail_if_ok. split; [|done]. apply negb_false_iff. rewrite Hdbp. by apply bool_decide_true. }
    apply tx_bind_ok. exists (), dbp. split.
    { apply require_ok. split; [|done]. rewrite !andb_true_iff, !negb_true_iff. split_and!.
      - destruct (device_rows dbp !! next_uuid db) eqn:E; [|done]. apply Hsub in E. congruence.
      - unfold device_by_code in *. destruct (find_row _ (device_rows dbp)) as [[i d]|] eqn:E; [|done].
        apply find_row_some in E as [E%Hsub Ec]. eapply find_row_none in Hdev; [|exact E]. congruence.
      - unfold device_by_user_code in *. destruct (find_row _ (device_rows dbp)) as [[i d]|] eqn:E; [|done].
        apply find_row_some in E as [E%Hsub Ec]. eapply find_row_none in Huser; [|exact E]. congruence.
      - by apply in_range_spec. }
    apply tx_bind_ok. eexists (), _. split; reflexivity.
  - rewrite Hdbp. split_and!.
    + done.
    + unfold token_rows. simpl. apply map_filter_subseteq.
    + unfold device_rows. simpl. by rewrite lookup_insert_eq.
    + intros i d. unfold device_rows. simpl.
      intros [[<- _]|[_ [? _]%map_lookup_filter_Some]]%lookup_insert_Some; done.
Qed.

Lemma approve_succeeds ucode user id d db :
  device_by_user_code ucode db = Some (id, d) → now db < device_expires_at d → device_status d = "pending" →
  is_member (device_organization d) user db = true → is_Some (users db !! user) →
  approve_cli_device_authorization ucode user db =
  Ok (DeviceApproved, set_identity (set_devices (alter (approve_device user (now db)) id (device_rows db))
                                      (identity db)) db).
Proof.
  intros Hd He Hs Hm [r Hu]. unfold approve_cli_device_authorization.
  apply tx_bind_ok. exists (Some (id, d)), db. split; [by apply query_ok|].
  apply tx_bind_ok. exists (now db), db. split; [done|].
  replace (device_expires_at d <=? now db) with false by (symmetry; apply Z.leb_gt; lia). rewrite Hs. simpl.
  apply tx_bind_ok. exists true, db. split; [by apply query_ok|]. simpl.
  apply tx_bind_ok. exists (), db. split; [apply require_ok; by rewrite Hu|].
  apply tx_bind_ok. eexists (), _. by split.
Qed.

Lemma exchange_succeeds code prefix hash expires id d user db :
  device_by_code code db = Some (id, d) → now db < device_expires_at d → device_status d = "approved" →
  approved_user_id d = Some user → polled_too_fast (now db) d = false →
  is_member (device_organization d) user db = true → is_Some (users db !! user) →
  device_organization d ∈ organizations db → token_rows db !! next_uuid db = None →
  length (chars prefix) = 16%nat →
  (∀ i b, token_rows db !! i = Some b → cli_prefix b ≠ prefix ∧ cli_token_hash b ≠ hash) →
  exchange_cli_device_authorization code prefix hash expires db =
  Ok (ExchangeIssued (next_uuid db) user (device_organization d) expires,
      issued id (Build_CliTokenRow user (device_organization d) prefix hash expires None None) db).
Proof.
  intros Hd He Hs Hu Hfast Hm [r Hr] Ho Hfree Hlen Hnew.
  unfold exchange_cli_device_authorization. apply tx_bind_ok. exists db, db. split; [done|]. rewrite Hd, Hs, Hfast. simpl.
  replace (device_expires_at d <=? now db) with false by (symmetry; apply Z.leb_gt; lia).
  apply tx_bind_ok. exists (), (polled id db). split; [done|].
  apply tx_bind_ok. exists (), (polled id db). split; [done|].
  apply tx_bind_ok. exists user, (polled id db). split; [by rewrite Hu|].
  apply tx_bind_ok. eexists _, (polled id db). split; [done|].
  change (is_member (device_organization d) user (polled id db)) with (is_member (device_organization d) user db).
  rewrite Hm. simpl. apply tx_bind_ok. eexists _, _. split; [done|].
  apply tx_bind_ok. eexists (), _. split.
  { unfold insert_cli_token. apply tx_bind_ok. eexists (), _. split; [|reflexivity]. apply require_ok. split; [|reflexivity].
    rewrite !andb_true_iff, !negb_true_iff. unfold token_rows in *. simpl. rewrite Hfree, Hr.
    split_and!; [done | done | by apply bool_decide_true | by apply Nat.eqb_eq|].
    destruct (find_row _ _) as [[i b]|] eqn:E; [|done]. apply find_row_some in E as [Hb Hp].
    destruct (Hnew _ _ Hb) as [Hb1 Hb2]. by apply orb_true_iff in Hp as [?%String.eqb_eq|?%bool_decide_true_iff]. }
  apply tx_bind_ok. eexists (), _. split; [reflexivity|]. by apply mret_ok.
Qed.

Lemma authenticate_succeeds prefix hash id t su db :
  token_rows db !! id = Some t → cli_prefix t = prefix → cli_token_hash t = hash →
  unique cli_prefix (token_rows db) → token_usable db t = true → session_user (cli_user t) db = Ok (Some su) →
  ∃ db', authenticate_cli_access_token prefix hash db =
    (Ok (Some (Build_CliAccessTokenPrincipal id su (cli_organization t) (cli_expires_at t))), db').
Proof.
  intros Ht Hp Hh Hu Huse Hsu. unfold authenticate_cli_access_token, cli_token_by_secret.
  rewrite (find_row_only _ _ id t Ht).
  - simpl. rewrite Huse. unfold session_user_or. eexists. f_equal.
    by rewrite (session_user_same (cli_user t) db), Hsu.
  - by rewrite Hp, Hh, String.eqb_refl, bool_decide_true.
  - intros i b Hb [Hb'%String.eqb_eq _]%andb_true_iff. eapply Hu; [exact Hb | exact Ht | congruence].
Qed.

(** The token a device would get is usable: its owner is active, a member with
    an enabled principal, and the token has not expired. *)
Lemma token_usable_member t db :
  token_usable db t = true →
  now db < cli_expires_at t ∧ is_member (cli_organization t) (cli_user t) db = true ∧ is_Some (users db !! cli_user t).
Proof.
  unfold token_usable, is_member, active_users. rewrite !andb_true_iff. intros (((_ & Ht) & Ha) & Hm).
  split_and!; [lia | by destruct (organization_memberships db !! _)|].
  apply bool_decide_true_iff, elem_of_dom in Ha as [r [Hr _]%map_lookup_filter_Some]. eauto.
Qed.

(** The device flow completes: with fresh codes, the authorization is
    created, a member approves it, the device gets a token for that member and
    account, and the token authenticates the member. *)
Lemma device_flow_completes device ucode org interval expires user su prefix hash texpires db :
  identity_wf db → org ∈ organizations db → device_by_code device db = None →
  device_by_user_code ucode db = None → 1 ≤ interval ≤ 60 → now db < expires →
  length (chars prefix) = 16%nat →
  (∀ i b, token_rows db !! i = Some b → cli_prefix b ≠ prefix ∧ cli_token_hash b ≠ hash) →
  token_usable db (Build_CliTokenRow user org prefix hash texpires None None) = true →
  session_user user db = Ok (Some su) →
  ∃ id db1 db2 token db3 db4,
    create_cli_device_authorization device ucode org interval expires db = Ok (id, db1) ∧
    approve_cli_device_authorization ucode user db1 = Ok (DeviceApproved, db2) ∧
    exchange_cli_device_authorization device prefix hash texpires db2
      = Ok (ExchangeIssued token user org texpires, db3) ∧
    authenticate_cli_access_token prefix hash db3
      = (Ok (Some (Build_CliAccessTokenPrincipal token su org texpires)), db4).
Proof.
  intros Hwf Horg Hdev Huc Hint Hexp Hlen Hnew Huse Hsu.
  destruct (token_usable_member _ _ Huse) as (_ & Hm & Hu). simpl in Hm, Hu.
  destruct (create_device_succeeds device ucode org interval expires db) as (db1 & Hc & Hp1 & Htok & Hd1 & Hold); try done.
  set (id := next_uuid db) in *. set (d := new_device device ucode org interval expires) in *.
  pose proof (evolves_wf _ _ (create_device_evolves _ _ _ _ _ _ _ _ Hc) Hwf) as Hwf1.
  assert (Hsame : now db1 = now db ∧ is_member org user db1 = true ∧ is_Some (users db1 !! user) ∧ org ∈ organizations db1).
  { destruct Hp1 as [-> -> -> Hmm _ _]. unfold is_member in *. by rewrite Hmm. }
  destruct Hsame as (Hn1 & Hm1 & Hu1 & Ho1).
  assert (Ha : approve_cli_device_authorization ucode user db1 = Ok (DeviceApproved,
    set_identity (set_devices (alter (approve_device user (now db1)) id (device_rows db1)) (identity db1)) db1)).
  { apply (approve_succeeds _ _ id d); try done; [|simpl; lia]. apply find_row_only; [done | by apply bool_decide_true|].
    intros i b Hb Hcode. destruct (decide (i = id)) as [|Hne]; [done|]. exfalso.
    eapply find_row_none in Huc; [|exact (Hold _ _ Hb Hne)]. congruence. }
  pose proof (evolves_wf _ _ (approve_evolves _ _ _ _ _ Ha) Hwf1) as Hwf2.
  set (db2 := set_identity _ db1) in Ha, Hwf2.
  assert (Hd2 : device_rows db2 !! id = Some (approve_device user (now db1) d)).
  { unfold device_rows, db2. simpl. by rewrite lookup_alter_eq, Hd1. }
  assert (Hnew2 : ∀ i b, token_rows db2 !! i = Some b → cli_prefix b ≠ prefix ∧ cli_token_hash b ≠ hash).
  { intros i b Hb. apply (Hnew i). by eapply lookup_weaken. }
  assert (Hx : exchange_cli_device_authorization device prefix hash texpires db2 =
    Ok (ExchangeIssued (next_uuid db2) user org texpires,
        issued id (Build_CliTokenRow user org prefix hash texpires None None) db2)).
  { apply (exchange_succeeds _ _ _ _ id (approve_device user (now db1) d)); try done.
    - by apply find_row_unique; [apply Hwf2|..].
    - simpl. lia.
    - destruct (token_rows db2 !! next_uuid db2) eqn:E; [|done]. apply (wf_token_ids _ Hwf2) in E. lia. }
  pose proof (evolves_wf _ _ (exchange_evolves _ _ _ _ _ _ _ Hx) Hwf2) as Hwf3.
  set (t := Build_CliTokenRow user org prefix hash texpires None None) in *.
  assert (Hp3 : same_people db (issued id t db2)) by (destruct Hp1; by constructor).
  destruct (authenticate_succeeds prefix hash (next_uuid db2) t su (issued id t db2)) as [db4 H4]; try done.
  - unfold token_rows. simpl. by rewrite lookup_insert_eq.
  - apply Hwf3.
  - by rewrite (token_usable_same _ db).
  - by rewrite (session_user_same _ db).
  - by eexists id, db1, db2, (next_uuid db2), _, db4.
Qed.

End Users.
