(* ===== verification/AccessFacts.v ===== *)
(** * Correctness of roles, sessions and the identity center

    How the tables of IAM can evolve: an assignment of the identity center
    keeps its subject and either is revoked for good at its generation or goes
    to the next one; a membership in a group of the directory, once removed,
    never comes back under its identifier; a role session keeps its role and,
    once revoked, stays revoked.  So access that was taken away is not given
    back by a later grant to the sessions of before. *)
From stdpp Require Import sorting.
From S2P Require Import Prelude Text Json Policy Iam Quota Store Usage Prepare Services FlowAccess Cloud Identity Access IdentityCenter Lifecycle CloudFacts IdentityFacts.

(** ** Order of rows *)

Record assignment_le (a a' : AssignmentRow) : Prop := {
  le_assignment : assignment_account a' = assignment_account a ∧ assignment_role a' = assignment_role a;
  le_subject : subject_type a' = subject_type a ∧ subject_id a' = subject_id a;
  le_generation : assignment_generation a ≤ assignment_generation a';
  le_ended : is_Some (assignment_revoked_at a) → assignment_generation a' = assignment_generation a →
    is_Some (assignment_revoked_at a');
}.

Record grant_le (g g' : CenterGrant) : Prop := {
  le_origin : grant_assignment g' = grant_assignment g ∧ grant_generation g' = grant_generation g ∧
    grant_user g' = grant_user g;
  le_membership : grant_group_membership g' = grant_group_membership g ∨ grant_group_membership g' = None;
}.

Record session_le (s s' : RoleSessionRow) : Prop := {
  le_role : role_session_organization s' = role_session_organization s ∧ role_session_role s' = role_session_role s;
  le_lifetime : role_session_hash s' = role_session_hash s ∧ role_session_expires_at s' = role_session_expires_at s;
  le_session_revoked : is_Some (role_session_revoked_at s) → is_Some (role_session_revoked_at s');
  le_grant : option_Forall2 grant_le (role_session_grant s) (role_session_grant s');
}.

#[export] Instance assignment_le_preorder : PreOrder assignment_le.
Proof.
  split; [by constructor|]. intros a b c [[] [] ? E1] [[] [] ? E2].
  constructor; [split; congruence | split; congruence | lia|].
  intros Ha Hg. apply E2; [apply E1; [done | lia] | lia].
Qed.

#[export] Instance grant_le_preorder : PreOrder grant_le.
Proof.
  split; [constructor; auto|]. intros a b c [(? & ? & ?) [M1|M1]] [(? & ? & ?) [M2|M2]];
    constructor; try (split_and!; congruence); [left | right | right | right]; congruence.
Qed.

#[export] Instance session_le_preorder : PreOrder session_le.
Proof.
  split; [intros s; by constructor|]. intros a b c [[] [] R1 G1] [[] [] R2 G2].
  constructor; [split; congruence | split; congruence | auto | by etrans].
Qed.

Lemma session_live_le t t' s s' :
  t ≤ t' → session_le s s' → role_session_live t' s' = true → role_session_live t s = true.
Proof.
  unfold role_session_live. intros Ht [_ [_ He] Hr _]. rewrite !andb_true_iff, !negb_true_iff, He. intros [Hrev Hexp].
  split; [|lia]. destruct (role_session_revoked_at s) eqn:E; [|done].
  destruct Hr as [x Hx]; [done|]. by rewrite Hx in Hrev.
Qed.

(** ** Order of tables *)

Definition live_ids (role : PrincipalId) (db : Db) : gset Uuid :=
  dom (filter (λ e, role_session_role (snd e) = role ∧ role_session_live (now db) (snd e) = true)
         (role_session_rows db)).

Lemma elem_of_live_ids role db id :
  id ∈ live_ids role db ↔ ∃ s, role_session_rows db !! id = Some s ∧ role_session_role s = role ∧
    role_session_live (now db) s = true.
Proof.
  unfold live_ids. rewrite elem_of_dom. unfold is_Some. setoid_rewrite map_lookup_filter_Some. simpl. naive_solver.
Qed.

Lemma live_role_sessions_size role db : live_role_sessions role db = Z.of_nat (size (live_ids role db)).
Proof. unfold live_role_sessions, live_ids. by rewrite size_dom. Qed.

Definition sessions_bounded (db : Db) : Prop := ∀ role, live_role_sessions role db ≤ MAX_ROLE_SESSIONS.

(** A session of the identity center was opened with an assignment, at a
    generation it has reached, and through a group only if it is to a group. *)
Definition grants_wf (db : Db) : Prop :=
  ∀ id s g, role_session_rows db !! id = Some s → role_session_grant s = Some g →
    ∃ a, assignment_rows db !! grant_assignment g = Some a ∧ grant_generation g ≤ assignment_generation a ∧
      (is_Some (grant_group_membership g) → subject_type a = "group").

(** Rows stay. *)
Definition stays {A} (le : relation A) (m m' : gmap Uuid A) : Prop :=
  ∀ id a, m !! id = Some a → ∃ a', m' !! id = Some a' ∧ le a a'.

Lemma stays_refl {A} (le : relation A) `{!Reflexive le} m : stays le m m.
Proof. intros id a Ha. eauto. Qed.
Lemma stays_trans {A} (le : relation A) `{!Transitive le} a b c : stays le a b → stays le b c → stays le a c.
Proof.
  intros Hab Hbc id x Hx. destruct (Hab _ _ Hx) as (y & Hy & ?). destruct (Hbc _ _ Hy) as (z & ? & ?).
  exists z. split; [done|]. by etrans.
Qed.
Lemma stays_alter {A} (le : relation A) `{!Reflexive le} (f : A → A) id m :
  (∀ a, m !! id = Some a → le a (f a)) → stays le m (alter f id m).
Proof.
  intros Hf i a Ha. destruct (decide (i = id)) as [->|Hne].
  - exists (f a). rewrite lookup_alter_eq, Ha. eauto.
  - exists a. by rewrite lookup_alter_ne.
Qed.
Lemma stays_insert {A} (le : relation A) `{!Reflexive le} id a m : m !! id = None → stays le m (<[id := a]> m).
Proof. intros Hn i b Hb. exists b. split; [|done]. rewrite lookup_insert_ne; [done | congruence]. Qed.

Record access_le (db db' : Db) : Prop := {
  al_now : now db ≤ now db';
  al_uuid : (next_uuid db ≤ next_uuid db')%N;
  al_assignments : stays assignment_le (assignment_rows db) (assignment_rows db');
  al_members : turns (next_uuid db) eq (center_member_rows db) (center_member_rows db');
  al_sessions : turns (next_uuid db) session_le (role_session_rows db) (role_session_rows db');
  al_sessions_below : below (next_uuid db) (role_session_rows db) → below (next_uuid db') (role_session_rows db');
  al_members_below : below (next_uuid db) (center_member_rows db) → below (next_uuid db') (center_member_rows db');
  al_grants : grants_wf db → grants_wf db';
  al_bounded : sessions_bounded db → sessions_bounded db';
}.

#[export] Instance access_le_preorder : PreOrder access_le.
Proof.
  split.
  - intros db. constructor; try done; [apply stays_refl, _ | apply turns_refl, _ | apply turns_refl, _].
  - intros a b c [] []. constructor; try (by auto); [lia | lia | | |].
    + by eapply stays_trans; [apply _ | ..].
    + by eapply turns_trans; [apply _ | ..].
    + by eapply turns_trans; [apply _ | ..].
Qed.

(** Rows that are there were there before. *)
Definition shrinks {A} (le : relation A) (m m' : gmap Uuid A) : Prop :=
  ∀ id a', m' !! id = Some a' → ∃ a, m !! id = Some a ∧ le a a'.

Lemma shrinks_turns {A} lo (le : relation A) m m' : shrinks le m m' → turns lo le m m'.
Proof. intros Hs id a' Ha. left. by apply Hs. Qed.
Lemma shrinks_below {A} hi hi' (le : relation A) m m' : shrinks le m m' → (hi ≤ hi')%N → below hi m → below hi' m'.
Proof. intros Hs Hle Hb id a' Ha. destruct (Hs _ _ Ha) as (a & Ha0 & _). apply Hb in Ha0. lia. Qed.

Lemma shrinks_live role db db' :
  now db ≤ now db' → shrinks session_le (role_session_rows db) (role_session_rows db') →
  live_role_sessions role db' ≤ live_role_sessions role db.
Proof.
  intros Hn Hs. rewrite !live_role_sessions_size. apply Nat2Z.inj_le, subseteq_size. intros id.
  rewrite !elem_of_live_ids. intros (s' & Hs' & Hr & Hl). destruct (Hs _ _ Hs') as (s & Hs0 & Hle).
  exists s. split_and!; [done | by rewrite <- Hr; destruct Hle as [[] _ _ _] | by eapply session_live_le].
Qed.

(** Nothing is added: sessions and memberships stay or go. *)
Lemma access_le_shrink db db' :
  now db ≤ now db' → (next_uuid db ≤ next_uuid db')%N →
  stays assignment_le (assignment_rows db) (assignment_rows db') →
  shrinks eq (center_member_rows db) (center_member_rows db') →
  shrinks session_le (role_session_rows db) (role_session_rows db') → access_le db db'.
Proof.
  intros Hn Hu Ha Hm Hs. constructor; try done; eauto using shrinks_turns, shrinks_below.
  - intros Hg id s' g' Hs' Hg'. destruct (Hs _ _ Hs') as (s & Hs0 & [_ _ _ Hgr]). rewrite Hg' in Hgr.
    inversion Hgr as [g ? Hle Hgs|]; subst. destruct (Hg id s g Hs0 (eq_sym Hgs)) as (a & Ha0 & Hgen & Hty).
    destruct (Ha _ _ Ha0) as (a' & Ha' & [_ [Hst _] Hge _]). destruct Hle as [(-> & -> & _) Hmem].
    exists a'. split_and!; [done | lia|]. rewrite Hst. intros [x Hx]. apply Hty. exists x. destruct Hmem; congruence.
  - intros Hb role. etrans; [by apply shrinks_live | apply Hb].
Qed.

Lemma shrinks_refl {A} (le : relation A) `{!Reflexive le} m : shrinks le m m.
Proof. intros id a Ha. eauto. Qed.

Lemma access_le_same db db' :
  now db ≤ now db' → (next_uuid db ≤ next_uuid db')%N → access db' = access db → access_le db db'.
Proof.
  intros Hn Hu Ha. apply access_le_shrink; unfold assignment_rows, center_member_rows, role_session_rows;
    rewrite ?Ha; try done; [apply stays_refl, _ | apply shrinks_refl, _ | apply shrinks_refl, _].
Qed.

(** ** Statements *)

Lemma quiet_access f :
  (∀ db, now (f db) = now db) → (∀ db, next_uuid (f db) = next_uuid db) → (∀ db, access (f db) = access db) →
  keeps access_le (statement f).
Proof. intros Hn Hu Ha. apply keeps_statement. intros db. apply access_le_same; rewrite ?Hn, ?Hu, ?Ha; done. Qed.

Lemma now_v7_access : keeps access_le now_v7.
Proof. apply keeps_now_v7. intros db. apply access_le_same; simpl; try done. lia. Qed.

(** An update of other tables of IAM. *)
Lemma on_access_quiet f :
  (∀ db a, identity_center_assignments (f db a) = identity_center_assignments a) →
  (∀ db a, identity_center_group_members (f db a) = identity_center_group_members a) →
  (∀ db a, iam_role_sessions (f db a) = iam_role_sessions a) → keeps access_le (on_access f).
Proof.
  intros Ha Hm Hs. apply keeps_statement. intros db. apply access_le_shrink; try done;
    unfold assignment_rows, center_member_rows, role_session_rows; simpl; rewrite ?Ha, ?Hm, ?Hs;
    [apply stays_refl, _ | apply shrinks_refl, _ | apply shrinks_refl, _].
Qed.

Lemma on_identity_access f : keeps access_le (on_identity f).
Proof. by apply quiet_access. Qed.

Ltac access_frame_step :=
  first [ apply now_v7_access | apply on_identity_access | by apply on_access_quiet
        | apply quiet_access; done | frame_step ].
Ltac access_frame := repeat access_frame_step.

(** Sessions are removed or change in place. *)
Lemma on_sessions_access f :
  (∀ db m, shrinks session_le m (f db m)) →
  keeps access_le (on_access (λ db a, set_role_sessions (f db (iam_role_sessions a)) a)).
Proof.
  intros Hf. apply keeps_statement. intros db.
  apply access_le_shrink; try done; [apply stays_refl, _ | apply shrinks_refl, _ | apply Hf].
Qed.

Lemma shrinks_filter {A} (le : relation A) `{!Reflexive le} (P : Uuid * A → Prop) `{∀ x, Decision (P x)} m :
  shrinks le m (filter P m).
Proof. intros id a [Ha _]%map_lookup_filter_Some. eauto. Qed.
Lemma shrinks_alter {A} (le : relation A) `{!Reflexive le} (f : A → A) id m :
  (∀ a, le a (f a)) → shrinks le m (alter f id m).
Proof. intros Hf i a' [(<- & a & Ha & ->)|[_ Ha]]%lookup_alter_Some; eauto. Qed.
Lemma shrinks_fmap {A} (le : relation A) (f : A → A) m : (∀ a, le a (f a)) → shrinks le m (f <$> m).
Proof. intros Hf i a' (a & <- & Ha)%lookup_fmap_Some. eauto. Qed.
Lemma shrinks_trans {A} (le : relation A) `{!Transitive le} a b c : shrinks le a b → shrinks le b c → shrinks le a c.
Proof.
  intros Hab Hbc id z Hz. destruct (Hbc _ _ Hz) as (y & Hy & ?). destruct (Hab _ _ Hy) as (x & ? & ?).
  exists x. split; [done|]. by etrans.
Qed.

Lemma revoke_role_session_le t s : session_le s (revoke_role_session t s).
Proof. constructor; try done. Qed.
Lemma map_grant_le f s : (∀ g, grant_le g (f g)) → session_le s (map_grant f s).
Proof. intros Hf. constructor; try done. simpl. destruct (role_session_grant s); by constructor. Qed.
Lemma forget_target_le p s : session_le s (forget_target p s).
Proof. apply map_grant_le. intros g. constructor; simpl; auto. Qed.
Lemma forget_membership_le gone s : session_le s (forget_membership gone s).
Proof.
  apply map_grant_le. intros g. constructor; simpl; [done|].
  destruct (grant_group_membership g); simpl; [case_match|]; auto.
Qed.

Lemma alter_role_session_access id : keeps access_le (alter_role_session id).
Proof.
  apply (on_sessions_access (λ db, alter (revoke_role_session (now db)) id)). intros db m.
  apply shrinks_alter; [apply _ | apply revoke_role_session_le].
Qed.
Lemma prune_role_sessions_access role : keeps access_le (prune_role_sessions role).
Proof.
  apply keeps_statement. intros db.
  apply access_le_shrink; try done; [apply stays_refl, _ | apply shrinks_refl, _ | apply shrinks_filter, _].
Qed.

Create HintDb access discriminated.
#[export] Hint Resolve alter_role_session_access prune_role_sessions_access : access.

(** A new session of a role that has less than the most. *)
Lemma insert_session_access db0 db id s :
  access_le db0 db → (next_uuid db0 ≤ id < next_uuid db)%N →
  live_role_sessions (role_session_role s) db < MAX_ROLE_SESSIONS →
  (∀ g, role_session_grant s = Some g → ∃ a, assignment_rows db !! grant_assignment g = Some a ∧
    grant_generation g ≤ assignment_generation a ∧ (is_Some (grant_group_membership g) → subject_type a = "group")) →
  access_le db0 (set_access (set_role_sessions (<[id := s]> (role_session_rows db)) (access db)) db).
Proof.
  intros [] [Hlo Hhi] Hlive Hg. constructor; try done; unfold role_session_rows; simpl; fold (role_session_rows db).
  - intros i b [[<- _]|[_ Hi]]%lookup_insert_Some; [by right | by apply al_sessions0].
  - intros Hb. apply insert_below; auto.
  - intros Hw i b g Hi Hbg. change (<[id := s]> (role_session_rows db) !! i = Some b) in Hi.
    apply lookup_insert_Some in Hi as [[<- <-]|[_ Hi]]; [by apply Hg | by eapply (al_grants0 Hw)].
  - intros Hb role. rewrite live_role_sessions_size. set (db' := set_access _ _).
    assert (live_ids role db' ⊆ (if decide (role = role_session_role s) then {[id]} else ∅) ∪ live_ids role db) as Hsub.
    { intros i. rewrite elem_of_union, !elem_of_live_ids. unfold db', role_session_rows. simpl.
      intros (b & [[<- <-]|[_ Hi]]%lookup_insert_Some & Hr & Hl); [left | right; eauto].
      rewrite decide_True by done. by apply elem_of_singleton. }
    apply subseteq_size in Hsub. pose proof (al_bounded0 Hb role) as Hold. rewrite live_role_sessions_size in Hold.
    case_decide as Hr.
    + subst role. rewrite live_role_sessions_size in Hlive. rewrite size_union_alt in Hsub.
      rewrite size_singleton in Hsub. pose proof (subseteq_size _ _ (subseteq_difference_l _ {[id]} (live_ids (role_session_role s) db) (reflexivity _))). lia.
    + rewrite union_empty_l_L in Hsub. lia.
Qed.

(** ** The operations respect the order *)

Section Operations.
Context `{SqlText, UuidText, Serde PolicyDocument}.

Lemma insert_principal_access id org kind name u q : keeps access_le (insert_principal id org kind name u q).
Proof. unfold insert_principal. access_frame. Qed.
Lemma insert_membership_access org u p r : keeps access_le (insert_membership org u p r).
Proof. unfold insert_membership. access_frame. Qed.
Lemma insert_iam_policy_access id row : keeps access_le (insert_iam_policy id row).
Proof. unfold insert_iam_policy. access_frame. Qed.
Lemma insert_binding_access id row : keeps access_le (insert_binding id row).
Proof. unfold insert_binding. access_frame. Qed.
Lemma insert_role_access id row : keeps access_le (insert_role id row).
Proof. unfold insert_role. access_frame. Qed.
#[local] Hint Resolve insert_principal_access insert_membership_access insert_iam_policy_access
  insert_binding_access insert_role_access : access.

Lemma create_binding_access org p policy : keeps access_le (create_binding org p policy).
Proof. unfold create_binding. access_frame; auto with access. Qed.
Lemma delete_binding_access org id : keeps access_le (delete_binding org id).
Proof. unfold delete_binding. access_frame. Qed.
Lemma set_permissions_boundary_access account p policy : keeps access_le (set_permissions_boundary account p policy).
Proof. unfold set_permissions_boundary, update_principal. access_frame. Qed.
Lemma create_service_account_access org name q : keeps access_le (create_service_account_owned org name q).
Proof. unfold create_service_account_owned. access_frame; auto with access. Qed.
Lemma create_iam_group_access account name : keeps access_le (create_iam_group account name).
Proof. unfold create_iam_group. access_frame. Qed.
Lemma delete_iam_group_access account group : keeps access_le (delete_iam_group account group).
Proof. unfold delete_iam_group. access_frame. Qed.
Lemma change_iam_group_member_access account group p add : keeps access_le (change_iam_group_member account group p add).
Proof. unfold change_iam_group_member. access_frame. Qed.
Lemma change_iam_group_policy_access account group p add : keeps access_le (change_iam_group_policy account group p add).
Proof. unfold change_iam_group_policy. access_frame. Qed.
Lemma create_api_key_access org p name prefix hash expires : keeps access_le (create_api_key org p name prefix hash expires).
Proof. unfold create_api_key. access_frame. Qed.
Lemma authenticate_api_key_access prefix hash : keeps access_le (authenticate_api_key prefix hash).
Proof. unfold authenticate_api_key. access_frame. Qed.
Lemma revoke_iam_api_key_access org p id : keeps access_le (revoke_iam_api_key org p id).
Proof. unfold revoke_iam_api_key. access_frame. Qed.
Lemma create_iam_role_access account name trust max q : keeps access_le (create_iam_role account name trust max q).
Proof. unfold create_iam_role. access_frame; auto with access. Qed.
Lemma update_iam_role_trust_access account p trust : keeps access_le (update_iam_role_trust account p trust).
Proof. unfold update_iam_role_trust. access_frame. Qed.
Lemma revoke_iam_role_session_access account role id : keeps access_le (revoke_iam_role_session account role id).
Proof. unfold revoke_iam_role_session. access_frame; auto with access. Qed.
Lemma switch_browser_role_access hash expected new : keeps access_le (switch_browser_role hash expected new).
Proof. unfold switch_browser_role, update_session. access_frame; auto with access. Qed.
Lemma clear_browser_role_access hash : keeps access_le (clear_browser_role hash).
Proof. unfold clear_browser_role, update_session. access_frame; auto with access. Qed.
Lemma mint_workload_token_access service role pod digest expires :
  keeps access_le (mint_workload_token service role pod digest expires).
Proof. unfold mint_workload_token. access_frame. Qed.
Lemma set_service_account_enabled_access org role enable : keeps access_le (set_service_account_enabled org role enable).
Proof. unfold set_service_account_enabled, update_principal. access_frame. Qed.

Lemma delete_iam_role_access account role : keeps access_le (delete_iam_role account role).
Proof.
  unfold delete_iam_role. access_frame. apply access_le_shrink; try done; [apply stays_refl, _ | apply shrinks_refl, _|].
  intros id s' (s & <- & [Hs _]%map_lookup_filter_Some)%lookup_fmap_Some. eauto using forget_target_le.
Qed.

(** What opening a session of a role that is not full does. *)
Lemma insert_role_session_access db0 db id s u db' :
  insert_role_session id s db = Ok (u, db') →
  access_le db0 db → (next_uuid db0 ≤ id < next_uuid db)%N →
  live_role_sessions (role_session_role s) db < MAX_ROLE_SESSIONS →
  (∀ g, role_session_grant s = Some g → ∃ a, assignment_rows db !! grant_assignment g = Some a ∧
    grant_generation g ≤ assignment_generation a ∧ (is_Some (grant_group_membership g) → subject_type a = "group")) →
  access_le db0 db'.
Proof.
  unfold insert_role_session. intros Hrun. tx_inv Hrun.
  match goal with Hr : require _ _ = _ |- _ => apply require_ok in Hr as [_ ->] end.
  apply statement_ok in Hrun as ->. apply insert_session_access.
Qed.

(** The last steps of the operations that open a session. *)
Lemma open_session_access db0 db1 db2 db3 role id s u u' :
  prune_role_sessions role db0 = Ok (u, db1) → live_role_sessions role db1 < MAX_ROLE_SESSIONS →
  now_v7 db1 = Ok (id, db2) → insert_role_session id s db2 = Ok (u', db3) → role_session_role s = role →
  (∀ g, role_session_grant s = Some g → ∃ a, assignment_rows db0 !! grant_assignment g = Some a ∧
    grant_generation g ≤ assignment_generation a ∧ (is_Some (grant_group_membership g) → subject_type a = "group")) →
  access_le db0 db3.
Proof.
  intros Hp Hlive Hn Hi Hr Hg. pose proof (prune_role_sessions_access _ _ _ _ Hp) as E1.
  pose proof (now_v7_access _ _ _ Hn) as E2. apply now_v7_ok in Hn as [-> ->].
  eapply insert_role_session_access; [exact Hi | by etrans | | | ].
  - destruct E1. simpl. lia.
  - by rewrite Hr.
  - intros g Hs. apply statement_ok in Hp as ->. by apply Hg.
Qed.

Lemma create_iam_role_session_access s : keeps access_le (create_iam_role_session s).
Proof.
  unfold create_iam_role_session. intros db x db' Hrun. tx_inv Hrun. subst.
  match goal with Hs : optional _ _ _ = _ |- _ => apply optional_query_ok in Hs as [_ ->] end.
  eapply open_session_access; [eassumption | | eassumption | eassumption | done | done]. lia.
Qed.

Lemma group_membership_group org a user db id :
  group_membership_for org a user db = Ok (Some id) → subject_type a = "group".
Proof.
  unfold group_membership_for. destruct (_ && _); [done|].
  by destruct (String.eqb_spec (subject_type a) "group").
Qed.

Lemma open_assignment_row org id db a ps r account :
  open_assignment org id db = Some (a, ps, r, account) → assignment_rows db !! id = Some a.
Proof. unfold open_assignment. intros Ho. simplify_option_eq; by repeat case_match; simplify_eq. Qed.

Lemma create_identity_center_session_access management assignment user hash :
  keeps access_le (create_identity_center_session management assignment user hash).
Proof.
  unfold create_identity_center_session, require_directory_user. intros db x db' Hrun. tx_inv Hrun.
  repeat match goal with Hs : optional _ _ _ = _ |- _ => apply optional_query_ok in Hs as [? ->] end.
  match goal with Ho : open_assignment _ _ _ = Some ?p |- _ => destruct p as [[[a ps] r] account];
    apply open_assignment_row in Ho as Ha end.
  tx_inv Hrun. subst.
  repeat match goal with Hs : optional _ _ _ = _ |- _ => apply optional_query_ok in Hs as [? ->] end.
  eapply open_session_access; [eassumption | | eassumption | eassumption | done |]; [lia|].
  intros g [= <-]. exists a. split_and!; [done | done|]. simpl. intros [m ->].
  by eapply group_membership_group.
Qed.

(** *** The directory *)

Lemma ensure_account_user_access account user : keeps access_le (ensure_account_user account user).
Proof. unfold ensure_account_user. access_frame; auto with access. Qed.

Lemma for_each_tx_access {A} (f : A → tx ()) l :
  (∀ x, keeps access_le (f x)) → keeps access_le (for_each_tx f l).
Proof. intros Hf. induction l; simpl; access_frame; auto. Qed.
#[local] Hint Resolve ensure_account_user_access for_each_tx_access : access.

Lemma create_permission_set_access management name document duration :
  keeps access_le (create_identity_center_permission_set management name document duration).
Proof. unfold create_identity_center_permission_set, on_permission_sets. access_frame. Qed.
Lemma update_permission_set_access management id document duration digest :
  keeps access_le (update_identity_center_permission_set management id document duration digest).
Proof. unfold update_identity_center_permission_set, on_permission_sets. access_frame. Qed.
Lemma delete_permission_set_access management id :
  keeps access_le (delete_identity_center_permission_set management id).
Proof. unfold delete_identity_center_permission_set, on_permission_sets. access_frame. Qed.
Lemma create_center_group_access management name : keeps access_le (create_identity_center_group management name).
Proof. unfold create_identity_center_group. access_frame. Qed.

Lemma delete_center_members_access p : keeps access_le (delete_center_members p).
Proof.
  apply keeps_statement. intros db. apply access_le_shrink; try done; [apply stays_refl, _ | apply shrinks_filter, _|].
  apply shrinks_fmap, forget_membership_le.
Qed.
Lemma delete_center_group_access management group : keeps access_le (delete_identity_center_group management group).
Proof. unfold delete_identity_center_group. access_frame; auto using delete_center_members_access. Qed.

(** A new member of a group. *)
Lemma insert_member_access db0 db id m :
  access_le db0 db → (next_uuid db0 ≤ id < next_uuid db)%N →
  access_le db0 (set_access (set_center_members (<[id := m]> (center_member_rows db)) (access db)) db).
Proof.
  intros [] [Hlo Hhi]. constructor; try done; unfold center_member_rows; simpl; fold (center_member_rows db).
  - intros i b [[<- _]|[_ Hi]]%lookup_insert_Some; [by right | by apply al_members0].
  - intros Hb. apply insert_below; auto.
Qed.

Lemma change_center_member_access management group user add :
  keeps access_le (change_identity_center_group_member management group user add).
Proof.
  unfold change_identity_center_group_member, require_directory_user. destruct add;
    [|access_frame; auto using delete_center_members_access].
  intros db x db' Hrun. tx_inv Hrun. subst.
  repeat match goal with Hs : optional _ _ _ = _ |- _ => apply optional_query_ok in Hs as [_ ->] end.
  match goal with Hr : require _ _ = _ |- _ => apply require_ok in Hr as [_ ->] end.
  match goal with Hf : for_each_tx _ _ _ = Ok (_, ?db1) |- _ =>
    transitivity db1; [by eapply for_each_tx_access; [intros; apply ensure_account_user_access | exact Hf]|] end.
  match goal with Hn : now_v7 _ = _ |- _ => pose proof (now_v7_access _ _ _ Hn) as E; apply now_v7_ok in Hn as [-> ->] end.
  apply statement_ok in Hrun as ->. apply insert_member_access; [exact E | simpl; lia].
Qed.

(** *** Assignments *)

(** Only the assignments change, and none goes back. *)
Lemma assignments_access m db :
  stays assignment_le (assignment_rows db) m → access_le db (set_access (set_assignments m (access db)) db).
Proof. intros Hm. apply access_le_shrink; try done; apply shrinks_refl, _. Qed.

Lemma bump_assignment_le a : assignment_le a (bump_assignment a).
Proof. constructor; try done; simpl; lia. Qed.
Lemma revoke_assignment_le t a : assignment_le a (revoke_assignment t a).
Proof. by constructor. Qed.

Lemma revoke_assignment_access management id : keeps access_le (revoke_identity_center_assignment management id).
Proof.
  unfold revoke_identity_center_assignment, on_assignments. access_frame.
  apply keeps_statement. intros db. apply assignments_access, stays_alter; [apply _|].
  intros row _. apply revoke_assignment_le.
Qed.

Lemma create_account_role_access set account number document digest :
  keeps access_le (create_account_role set account number document digest).
Proof. unfold create_account_role. access_frame; auto with access. Qed.
Lemma assign_subject_access management org account ty subject :
  keeps access_le (assign_subject management org account ty subject).
Proof.
  unfold assign_subject, require_directory_user. access_frame; auto with access.
  - apply for_each_tx_access. intros x. access_frame; auto with access.
  - by intros db x db' Hr.
Qed.

(** Refused if the row is there. *)
Lemma insert_assignment_access id row :
  keeps access_le (require (λ db, negb (is_some (assignment_rows db !! id))) ;;
                   on_assignments (λ _, insert id row) ;; mret id).
Proof.
  intros db x db' Hrun. tx_inv Hrun. subst.
  match goal with Hr : require _ _ = _ |- _ => apply require_ok in Hr as [Hfree ->] end.
  match goal with Hi : on_assignments _ _ = _ |- _ => apply statement_ok in Hi as -> end.
  apply assignments_access, stays_insert; [apply _|]. fold (assignment_rows db). by destruct (assignment_rows db !! id).
Qed.
Lemma bump_assignment_access id : keeps access_le (on_assignments (λ _, alter bump_assignment id)).
Proof.
  apply keeps_statement. intros db. apply assignments_access, stays_alter; [apply _|].
  intros a _. apply bump_assignment_le.
Qed.

Lemma create_assignment_access management set account ty subject digest :
  keeps access_le (create_identity_center_assignment management set account ty subject digest).
Proof.
  unfold create_identity_center_assignment. repeat first [ apply insert_assignment_access | access_frame_step ];
    auto using create_account_role_access, assign_subject_access, bump_assignment_access with access.
Qed.
End Operations.

(** ** Histories *)

Section Histories.
Context `{SqlText, UuidText, Serde PolicyDocument}.

Inductive access_request (db db' : Db) : Prop :=
| request_policy org name document digest x :
    create_policy org name document digest db = (x, db') → access_request db db'
| request_binding org p policy x : create_binding org p policy db = Ok (x, db') → access_request db db'
| request_unbind org id x : delete_binding org id db = Ok (x, db') → access_request db db'
| request_boundary account p policy x : set_permissions_boundary account p policy db = Ok (x, db') → access_request db db'
| request_service_account org name q x : create_service_account_owned org name q db = Ok (x, db') → access_request db db'
| request_enable org role enable x :
    set_service_account_enabled org role enable db = Ok (x, db') → access_request db db'
| request_group account name x : create_iam_group account name db = Ok (x, db') → access_request db db'
| request_delete_group account group x : delete_iam_group account group db = Ok (x, db') → access_request db db'
| request_group_member account group p add x :
    change_iam_group_member account group p add db = Ok (x, db') → access_request db db'
| request_group_policy account group p add x :
    change_iam_group_policy account group p add db = Ok (x, db') → access_request db db'
| request_key org p name prefix hash expires x :
    create_api_key org p name prefix hash expires db = Ok (x, db') → access_request db db'
| request_use_key prefix hash x : authenticate_api_key prefix hash db = Ok (x, db') → access_request db db'
| request_revoke_key org p id x : revoke_iam_api_key org p id db = Ok (x, db') → access_request db db'
| request_role account name trust max q x : create_iam_role account name trust max q db = Ok (x, db') → access_request db db'
| request_trust account p trust x : update_iam_role_trust account p trust db = Ok (x, db') → access_request db db'
| request_delete_role account role x : delete_iam_role account role db = Ok (x, db') → access_request db db'
| request_assume s x : create_iam_role_session s db = Ok (x, db') → access_request db db'
| request_end_session account role id x : revoke_iam_role_session account role id db = Ok (x, db') → access_request db db'
| request_switch hash expected new x : switch_browser_role hash expected new db = Ok (x, db') → access_request db db'
| request_clear hash x : clear_browser_role hash db = Ok (x, db') → access_request db db'
| request_workload service role pod digest expires x :
    mint_workload_token service role pod digest expires db = Ok (x, db') → access_request db db'
| request_set management name document duration x :
    create_identity_center_permission_set management name document duration db = Ok (x, db') → access_request db db'
| request_update_set management id document duration digest x :
    update_identity_center_permission_set management id document duration digest db = Ok (x, db') → access_request db db'
| request_delete_set management id x :
    delete_identity_center_permission_set management id db = Ok (x, db') → access_request db db'
| request_center_group management name x : create_identity_center_group management name db = Ok (x, db') → access_request db db'
| request_center_member management group user add x :
    change_identity_center_group_member management group user add db = Ok (x, db') → access_request db db'
| request_delete_center_group management group x :
    delete_identity_center_group management group db = Ok (x, db') → access_request db db'
| request_assign management set account ty subject digest x :
    create_identity_center_assignment management set account ty subject digest db = Ok (x, db') → access_request db db'
| request_unassign management id x :
    revoke_identity_center_assignment management id db = Ok (x, db') → access_request db db'
| request_center_session management assignment user hash x :
    create_identity_center_session management assignment user hash db = Ok (x, db') → access_request db db'.

(** Services, the outbox and the quota owners are left alone by all of them. *)
Lemma for_each_tx_agrees {A} (f : A → tx ()) l : (∀ x, keeps agrees (f x)) → keeps agrees (for_each_tx f l).
Proof. intros Hf. induction l; simpl; frame; auto. Qed.

Ltac access_agrees :=
  frame; try done;
  try match goal with
  | |- keeps _ (for_each_tx _ _) => apply for_each_tx_agrees; intros ?; access_agrees
  | |- keeps _ ?t => let f := head_of t in progress unfold f; access_agrees
  end.

Lemma access_request_agrees db db' : access_request db db' → agrees db db'.
Proof.
  destruct 1; [eapply (keeps_and_then agrees); [|eassumption]; access_agrees | ..].
  all: match goal with Hr : ?t _ = Ok _ |- _ => enough (Hk : keeps agrees t) by (by eapply Hk) end.
  all: access_agrees.
Qed.

(** A request, or a step of another part of the system, which leaves the tables
    of IAM alone. *)
Inductive access_step (db db' : Db) : Prop :=
| access_step_request : access_request db db' → access_step db db'
| access_step_other :
    access db' = access db → now db ≤ now db' → (next_uuid db ≤ next_uuid db')%N → access_step db db'.

Lemma create_policy_access org name document digest db x db' :
  create_policy org name document digest db = (x, db') → access_le db db'.
Proof. apply (keeps_and_then access_le). access_frame. apply insert_iam_policy_access. Qed.

Lemma access_request_le db db' : access_request db db' → access_le db db'.
Proof.
  destruct 1; [by eapply create_policy_access | by eapply create_binding_access | by eapply delete_binding_access
    | by eapply set_permissions_boundary_access | by eapply create_service_account_access
    | by eapply set_service_account_enabled_access | by eapply create_iam_group_access
    | by eapply delete_iam_group_access | by eapply change_iam_group_member_access
    | by eapply change_iam_group_policy_access | by eapply create_api_key_access
    | by eapply authenticate_api_key_access | by eapply revoke_iam_api_key_access
    | by eapply create_iam_role_access | by eapply update_iam_role_trust_access
    | by eapply delete_iam_role_access | by eapply create_iam_role_session_access
    | by eapply revoke_iam_role_session_access | by eapply switch_browser_role_access
    | by eapply clear_browser_role_access | by eapply mint_workload_token_access
    | by eapply create_permission_set_access | by eapply update_permission_set_access
    | by eapply delete_permission_set_access | by eapply create_center_group_access
    | by eapply change_center_member_access | by eapply delete_center_group_access
    | by eapply create_assignment_access | by eapply revoke_assignment_access
    | by eapply create_identity_center_session_access ].
Qed.

Lemma access_steps_le db db' : rtc access_step db db' → access_le db db'.
Proof.
  induction 1 as [|a b c [Hr | Ha Hn Hu] _ IH]; [done | etrans; [by apply access_request_le | done]|].
  etrans; [by apply access_le_same | done].
Qed.

(** What holds in every state. *)
Record access_wf (db : Db) : Prop := {
  wf_sessions_below : below (next_uuid db) (role_session_rows db);
  wf_members_below : below (next_uuid db) (center_member_rows db);
  wf_grants : grants_wf db;
  wf_sessions_bounded : sessions_bounded db;
}.

Lemma access_le_wf db db' : access_le db db' → access_wf db → access_wf db'.
Proof. intros [] []. constructor; auto. Qed.

Lemma empty_access_wf db : role_session_rows db = ∅ → center_member_rows db = ∅ → access_wf db.
Proof.
  intros Ha Hm. constructor; unfold sessions_bounded, grants_wf, live_role_sessions; rewrite ?Ha, ?Hm.
  - by intros id a ?%lookup_empty_Some.
  - by intros id a ?%lookup_empty_Some.
  - by intros id s g ?%lookup_empty_Some.
  - intros role. by rewrite map_filter_empty, map_size_empty.
Qed.

(** What became of a session. *)
Lemma session_later db db' id s s' :
  access_wf db → access_le db db' → role_session_rows db !! id = Some s →
  role_session_rows db' !! id = Some s' → session_le s s'.
Proof.
  intros [Hb _ _ _] [] Hs Hs'. destruct (al_sessions0 _ _ Hs') as [(s0 & Hs0 & Hle)|Hge]; [congruence|].
  apply Hb in Hs. lia.
Qed.

(** A session that is not active is not authenticated, by its secret or in a
    browser session. *)
Definition session_refused (id : Uuid) (db : Db) : Prop :=
  authenticate_browser_role_session id db = Ok None ∧
  ∀ hash x, authenticate_iam_role_session hash db = Ok (Some x) → session_id x ≠ id.

Lemma inactive_refused id db :
  (∀ s, role_session_rows db !! id = Some s → identity_center_session_is_active s db = false) → session_refused id db.
Proof.
  intros Hin. unfold session_refused, authenticate_browser_role_session, authenticate_iam_role_session,
    usable_role_session, role_session_usable. split.
  - destruct (role_session_rows db !! id) as [s|] eqn:E; [|done]. simpl. by rewrite (Hin s), andb_false_r.
  - intros hash x. destruct (find_row _ _) as [[i s]|] eqn:E; [|done]. apply find_row_some in E as [E _].
    simpl. intros Hx Hid. destruct (_ && _) eqn:Ha; [|done]. apply bind_ok in Hx as (y & Hy & [= ->]).
    unfold role_session_from_row in Hy. apply bind_ok in Hy as (policy & _ & [= <-]). simpl in Hid. subst i.
    rewrite (Hin s E), andb_false_r in Ha. done.
Qed.

(** A session with a grant of an assignment that has moved on. *)
Lemma ended_grant_inactive s g db a :
  role_session_grant s = Some g → assignment_rows db !! grant_assignment g = Some a →
  grant_generation g < assignment_generation a ∨
    is_Some (assignment_revoked_at a) → identity_center_session_is_active s db = false.
Proof.
  intros Hg Ha Hend. unfold identity_center_session_is_active, grant_active. rewrite Hg.
  change (identity_center_assignments (access db)) with (assignment_rows db). rewrite Ha. simpl.
  destruct Hend as [Hend|[t ->]]; [|done].
  replace (assignment_generation a =? grant_generation g) with false by lia. by rewrite andb_false_r.
Qed.

(** C10: A revocation is final: after an assignment of a permission set has been
    revoked, no session opened with it before is ever authenticated again, by
    its secret or as the role of a browser session, whatever requests follow -
    also when the same assignment is created again. *)
Theorem assignment_revocation_is_final management assignment db u db1 db2 id s g :
  access_wf db → revoke_identity_center_assignment management assignment db = Ok (u, db1) →
  role_session_rows db !! id = Some s → role_session_grant s = Some g → grant_assignment g = assignment →
  rtc access_step db1 db2 → session_refused id db2.
Proof.
  intros Hwf Hrun Hs Hg Hga Hr%access_steps_le.
  pose proof (revoke_assignment_access _ _ _ _ _ Hrun) as H01. apply inactive_refused. intros s2 Hs2.
  pose proof (session_later _ _ _ _ _ Hwf (transitivity H01 Hr) Hs Hs2) as [_ _ _ Hle]. rewrite Hg in Hle.
  inversion Hle as [? g2 Hgl Hgs Hg2|]; subst. destruct Hgl as [(Hga2 & Hgen & _) _].
  destruct (wf_grants _ Hwf _ _ _ Hs Hg) as (a & Ha & Hlow & _).
  unfold revoke_identity_center_assignment, on_assignments in Hrun. tx_inv Hrun. apply statement_ok in Hrun as ->.
  edestruct (al_assignments _ _ Hr (grant_assignment g)) as (a2 & Ha2 & [_ _ Hge Hended]).
  { unfold assignment_rows. simpl. rewrite lookup_alter_eq. fold (assignment_rows db). by rewrite Ha. }
  simpl in *. eapply ended_grant_inactive; [done | by rewrite Hga2 |].
  destruct (decide (assignment_generation a2 = assignment_generation a)); [right; eauto | left; lia].
Qed.

(** Leaving a group is final: after a user has been removed from a group of
    the directory, no session the user opened through that membership is ever
    authenticated again, also when the user is added again. *)
Lemma group_removal_is_final management group user db u db1 db2 id s g mid m :
  access_wf db → change_identity_center_group_member management group user false db = Ok (u, db1) →
  role_session_rows db !! id = Some s → role_session_grant s = Some g →
  grant_group_membership g = Some mid → center_member_rows db !! mid = Some m →
  center_member_group m = group → center_member_user m = user →
  rtc access_step db1 db2 → session_refused id db2.
Proof.
  intros Hwf Hrun Hs Hg Hmid Hm Hgr Hus Hr%access_steps_le.
  pose proof (change_center_member_access _ _ _ _ _ _ _ Hrun) as H01. apply inactive_refused. intros s2 Hs2.
  destruct (wf_grants _ Hwf _ _ _ Hs Hg) as (a & Ha & _ & Hty).
  destruct (al_assignments _ _ (transitivity H01 Hr) _ _ Ha) as (a2 & Ha2 & [_ [Hst _] _ _]).
  rewrite Hty in Hst by eauto.
  assert (Hs1 : role_session_rows db1 !! id = Some (forget_membership
    (dom (filter (λ e, is_center_member group user (fst e) (snd e) = true) (center_member_rows db))) s)).
  { unfold change_identity_center_group_member in Hrun. tx_inv Hrun.
    repeat match goal with Hs : optional _ _ _ = _ |- _ => apply optional_query_ok in Hs as [_ ->] end.
    apply statement_ok in Hrun as ->. unfold role_session_rows. simpl. rewrite lookup_fmap.
    fold (role_session_rows db). by rewrite Hs. }
  pose proof (session_later _ _ _ _ _ (access_le_wf _ _ H01 Hwf) Hr Hs1 Hs2) as [_ _ _ Hle]. simpl in Hle.
  rewrite Hg in Hle. simpl in Hle. inversion Hle as [? g2 Hgl Hgs Hg2|]; subst.
  destruct Hgl as [(Hga2 & _ & _) Hnone]. simpl in *. rewrite Hmid in Hnone. simpl in Hnone.
  rewrite bool_decide_true in Hnone.
  2:{ apply elem_of_dom. exists m. apply map_lookup_filter_Some. split; [done|]. simpl. unfold is_center_member.
      by rewrite !bool_decide_true. }
  unfold identity_center_session_is_active, grant_active, subject_is. rewrite <- Hg2.
  change (identity_center_assignments (access db2)) with (assignment_rows db2). rewrite Hga2, Ha2. simpl.
  rewrite Hst. simpl. replace (grant_group_membership g2) with (@None Uuid) by (destruct Hnone; congruence).
  simpl. by rewrite !andb_false_r.
Qed.

(** In every reachable state no role has more than a thousand live sessions,
    and every session of the identity center stands on an assignment at a
    generation that assignment has reached. *)
Lemma access_invariant db db' :
  role_session_rows db = ∅ → center_member_rows db = ∅ → rtc access_step db db' → access_wf db'.
Proof. intros Hi Hm Hr. eapply access_le_wf; [by apply access_steps_le | by apply empty_access_wf]. Qed.

End Histories.
