(* ===== verification/AdminFacts.v ===== *)
(** * Administration: what its transactions guarantee

    The transactions of [Admin] as requests, their refinement of the transitions
    of the life cycle, and the facts about member limits, registry credentials
    and the catalog of GPUs. *)
From stdpp Require Import sorting.
From S2P Require Import Prelude Text Json Net Policy Quota Specs Flash Store Usage Provider Prepare PrepareFacts Services FlowAccess Cloud Identity Access Admin Lifecycle FlowFacts CloudFacts IdentityFacts AccessFacts.

(** ** Requests *)

Section Requests.
Context `{LimitsDecoder}.

Inductive admin_request (db db' : Db) : Prop :=
| request_project org s n x : create_project org s n db = Ok (x, db') → admin_request db db'
| request_rename_project org id n x : rename_project org id n db = Ok (x, db') → admin_request db db'
| request_rename_account account n x : rename_account account n db = Ok (x, db') → admin_request db db'
| request_rename_user org p n x : rename_iam_user org p n db = Ok (x, db') → admin_request db db'
| request_member_role org user r x : set_organization_member_role org user r db = Ok (x, db') → admin_request db db'
| request_assign_quota org resource user b x :
    assign_quota_resource org resource user b db = Ok (x, db') → admin_request db db'
| request_member_limits org user limits x :
    set_member_resource_quota org user limits db = Ok (x, db') → admin_request db db'
| request_reserve org p n x : reserve_registry_credential org p n db = Ok (x, db') → admin_request db db'
| request_activate org id robot user x :
    activate_registry_credential org id robot user db = Ok (x, db') → admin_request db db'
| request_cancel org id x : cancel_registry_credential_reservation org id db = Ok (x, db') → admin_request db db'
| request_delete_credential org id x : delete_registry_credential org id db = Ok (x, db') → admin_request db db'
| request_enable_registry x : enable_organization_registry_credentials db = Ok (x, db') → admin_request db db'
| request_catalog devices x : sync_gpu_catalog devices db = Ok (x, db') → admin_request db db'.

(** ** Refinement of the transitions *)

Lemma on_registry_agrees f : keeps agrees (on_registry f).
Proof. by apply keeps_statement. Qed.

Ltac admin_frame :=
  repeat first [ apply on_registry_agrees | apply on_cloud_agrees | frame_step | done
               | lazymatch goal with |- keeps agrees ?t => let f := head_of t in progress unfold f end ].

Lemma sync_devices_agrees l : keeps agrees (foldr (λ d rest, sync_device d ;; rest) (mret ()) l).
Proof. induction l as [|d l IH]; simpl; [frame_step|]. apply keeps_bind; [apply _ | admin_frame | done]. Qed.

Lemma unassigned_service_spec org r :
  unassigned_service org r = true ↔ organization_id r = org ∧ quota_user_id r = None ∧ consumes r.
Proof.
  unfold unassigned_service, in_org, not_deleting, consumes.
  rewrite !andb_true_iff, bool_decide_true_iff, !negb_true_iff, bool_decide_false_iff.
  destruct (quota_user_id r); naive_solver.
Qed.

(** Nothing is unassigned: what the account runs is charged to its members. *)
Lemma all_assigned org db id r :
  any_unassigned org db = false → service_instances db !! id = Some r → organization_id r = org → consumes r →
  is_Some (quota_user_id r).
Proof.
  unfold any_unassigned. intros [Hs _]%orb_false_iff Hr Horg Hc.
  destruct (quota_user_id r) eqn:Hq; [by eauto|]. apply not_true_iff_false in Hs. destruct Hs.
  apply exists_service_true. exists id, r. split; [done | by apply unassigned_service_spec].
Qed.

Lemma assign_refines org resource user b db x db' :
  assign_quota_resource org resource user b db = Ok (x, db') → rtc transition db db'.
Proof.
  unfold assign_quota_resource. intros Hrun. tx_inv Hrun. subst. destruct b.
  - rewrite tx_bind_ok in Hrun. destruct Hrun as (p & d & [_ ->]%optional_query_ok & Hrun). tx_inv Hrun.
    by apply rtc_once, tr_same.
  - rewrite tx_bind_ok in Hrun. destruct Hrun as (r & d & [Hr ->]%optional_query_ok & Hrun). tx_inv Hrun. subst.
    destruct (service_instances db !! resource) as [r0|] eqn:E; [|done]. simpl in Hr.
    destruct (unassigned_service org r0) eqn:Hu; [|done]. injection Hr as <-.
    apply unassigned_service_spec in Hu as (<- & Hq & Hc).
    match goal with He : enqueue_flash_quota_reconcile_tx _ _ = _ |- _ => apply quota_events_refine in He end.
    eapply rtc_l; [|eassumption]. by apply (tr_assign _ _ resource r0 user); try apply Hc.
Qed.

Lemma member_limits_refine org user limits db x db' :
  set_member_resource_quota org user limits db = Ok (x, db') → rtc transition db db'.
Proof.
  unfold set_member_resource_quota. intros Hrun. tx_inv Hrun. subst.
  match goal with He : enqueue_flash_quota_reconcile_tx _ _ = _ |- _ => apply quota_events_refine in He end.
  eapply rtc_l; [|eassumption]. unfold set_member_quotas in *. destruct limits as [limits|]; tx_inv Hs; subst.
  - apply (tr_limit _ _ org user); try done.
    + intros id r Hr Horg Hc. by eapply all_assigned.
    + intros k Hk. simpl. by rewrite lookup_insert_ne.
  - apply tr_same; try done. intros k. simpl. by intros [? [_ ?]%lookup_delete_Some].
Qed.

Lemma sync_catalog_refines devices db x db' : sync_gpu_catalog devices db = Ok (x, db') → rtc transition db db'.
Proof.
  unfold sync_gpu_catalog. intros Hrun. tx_inv Hrun. subst.
  match goal with He : enqueue_flash_gpu_reconciles _ _ = _ |- _ => apply gpu_events_refine in He end.
  eapply rtc_agrees_l; [|eassumption].
  etrans; [|by eapply sync_devices_agrees]. unfold remove_devices in Hs. by tx_inv Hs.
Qed.

Lemma admin_request_refines db db' : admin_request db db' → rtc transition db db'.
Proof.
  destruct 1; [.. | by eapply sync_catalog_refines];
    try (by eapply assign_refines); try (by eapply member_limits_refine).
  all: match goal with Hr : ?t _ = Ok _ |- _ =>
    apply rtc_once, agrees_transition; enough (Hk : keeps agrees t) by (by eapply Hk) end; admin_frame.
Qed.
End Requests.

(** ** What leaves events only *)

Definition event_frame (db db' : Db) : Prop :=
  ∃ n o f, db' = set_next_uuid n (set_flash f (set_outbox o db)).

#[export] Instance event_frame_preorder : PreOrder event_frame.
Proof.
  split.
  - intros db. exists (next_uuid db), (outbox_events db), (flash db). by destruct db.
  - intros a b c (n & o & f & ->) (n' & o' & f' & ->). by exists n', o', f'.
Qed.

Lemma insert_event_frame t id b : keeps event_frame (insert_event t id b).
Proof.
  unfold insert_event. frame.
  - eexists _, (outbox_events _), (flash _). by destruct db.
  - eexists (next_uuid db), _, (capture_flash_revision_actor t id b (flash db)). reflexivity.
Qed.

Lemma enqueue_events_frame t g rows : keeps event_frame (enqueue_events t g rows).
Proof.
  induction rows as [|[id r] rows IH]; simpl; frame; [apply insert_event_frame | done | done].
Qed.

Lemma quota_events_frame org : keeps event_frame (enqueue_flash_quota_reconcile_tx org).
Proof. intros db n db'. apply enqueue_events_frame. Qed.

Lemma gpu_events_frame types : keeps event_frame (enqueue_flash_gpu_reconciles types).
Proof.
  intros db n db'. unfold enqueue_flash_gpu_reconciles. destruct (is_nil types); [by intros [= _ <-]|].
  apply enqueue_events_frame.
Qed.

(** ** Limits of members *)

Section MemberLimits.
Context `{LimitsDecoder}.
Hypothesis limits_round_trip : ∀ q, ResourceQuotaLimits.representable q →
  limits_from_value (ResourceQuotaLimits.to_value q) = Some q.

(** A limit that is accepted takes effect as it was given, stays within the
    account's, and only what members own is running. *)
Lemma member_limits_effective org user limits db x db' :
  ResourceQuotaLimits.representable limits →
  (∀ q, resource_quota_in_transaction org db = Ok q → ResourceQuotaLimits.representable q) →
  set_member_resource_quota org user (Some limits) db = Ok (x, db') →
  ∃ organization, resource_quota_in_transaction org db' = Ok organization ∧
    x = limits ∧ member_quota_in_transaction org user organization db' = Ok limits ∧
    ResourceQuotaLimits.le limits organization ∧
    (∀ k, k ≠ (org, user) → member_resource_quotas db' !! k = member_resource_quotas db !! k) ∧
    (∀ id r, service_instances db' !! id = Some r → organization_id r = org → consumes r →
       is_Some (quota_user_id r)).
Proof.
  intros Hrep Horep. unfold set_member_resource_quota, set_member_quotas. intros Hrun. tx_inv Hrun. tx_inv Hs. subst.
  match goal with He : enqueue_flash_quota_reconcile_tx _ _ = _ |- _ => apply quota_events_frame in He as (n & o & f & ->) end.
  match goal with Hq : resource_quota_in_transaction org db = Ok ?q |- _ =>
    rename Hq into Horg; exists q; pose proof (Horep _ Horg) as Hor end.
  match goal with Hv : validate_resource_quota _ = _ |- _ => rename Hv into Hvalid end.
  match goal with Hv : negb (bool_decide _) = false |- _ =>
    apply negb_false_iff, bool_decide_true_iff in Hv; subst end.
  match goal with Hv : capped_limits _ _ _ = _ |- _ => rename Hv into Hcap end.
  assert (Hwf : quota_wf x0).
  { unfold resource_quota_in_transaction in Horg. inv_ok Horg. by eapply parse_resource_quota_wf. }
  assert (Hwl : ResourceQuotaLimits_validate limits = Ok ()).
  { unfold validate_resource_quota in Hvalid. by destruct (ResourceQuotaLimits_validate limits) as [[]|]. }
  split_and!; try done.
  - unfold member_quota_in_transaction. simpl. rewrite lookup_insert_eq.
    match goal with Hm : negb (is_member org user db) = false |- _ => apply negb_false_iff in Hm; unfold is_member in *; simpl; rewrite Hm end.
    simpl. unfold parse_resource_quota. rewrite limits_round_trip by done. simpl. by rewrite Hvalid.
  - destruct (capped_limits_within_organization _ limits_round_trip x0 limits) as (l & Hl & _ & Hle & _);
      [done.. | by apply ResourceQuotaLimits_validate_ok | done |]. congruence.
  - intros k Hk. simpl. by rewrite lookup_insert_ne.
  - intros id r Hr Ho Hc. by eapply all_assigned.
Qed.
End MemberLimits.

(** ** The catalog of GPUs *)

(** The row of a device says what the catalog says. *)
Record shows (d : GpuCatalogDevice) (r : GpuDeviceRow) : Prop := {
  shows_id : management_id r = catalog_management_id d;
  shows_type : device_gpu_type r = catalog_gpu_type d;
  shows_name : device_display_name r = catalog_display_name d;
  shows_open : visibility_open r = catalog_open d;
  shows_available : device_available r = catalog_available d;
}.

Definition synced (d : GpuCatalogDevice) (db : Db) : Prop :=
  ∃ id r, gpu_devices db !! id = Some r ∧ shows d r ∧
    ∀ u, (id, u) ∈ gpu_device_user_assignments db ↔ u ∈ catalog_assigned d.

Lemma assigned_users_elem id db u : u ∈ assigned_users id db ↔ (id, u) ∈ gpu_device_user_assignments db.
Proof.
  unfold assigned_users. rewrite merge_sort_Permutation, list_elem_of_fmap. split.
  - intros ([i u'] & -> & [<- Hin]%list_elem_of_filter). by apply elem_of_elements.
  - intros Hin. exists (id, u). split; [done|]. apply list_elem_of_filter. by rewrite elem_of_elements.
Qed.

(** What one device of the catalog changes: its row and its assignments. *)
Record device_step (id : Uuid) (d : GpuCatalogDevice) (db db' : Db) : Prop := {
  ds_row : ∃ r, shows d r ∧ gpu_devices db' !! id = Some r;
  ds_users u : (id, u) ∈ gpu_device_user_assignments db' ↔ u ∈ catalog_assigned d;
  ds_others i : i ≠ id → gpu_devices db' !! i = gpu_devices db !! i;
  ds_other_users i u : i ≠ id →
    (i, u) ∈ gpu_device_user_assignments db' ↔ (i, u) ∈ gpu_device_user_assignments db;
}.

Lemma replace_assignments_ok id users db u db' :
  replace_gpu_device_assignments id users db = Ok (u, db') →
  (∀ i, i ≠ id → gpu_devices db' !! i = gpu_devices db !! i) ∧
  (∀ r, gpu_devices db !! id = Some r → ∃ t, gpu_devices db' !! id = Some (touch_device t r) ∨
     gpu_devices db' !! id = Some r) ∧
  (∀ u, (id, u) ∈ gpu_device_user_assignments db' ↔ u ∈ users) ∧
  (∀ i u, i ≠ id → (i, u) ∈ gpu_device_user_assignments db' ↔ (i, u) ∈ gpu_device_user_assignments db).
Proof.
  unfold replace_gpu_device_assignments. intros Hrun. tx_inv Hrun. subst.
  destruct (bool_decide_reflect (assigned_users id db = merge_sort N.le users)) as [Heq|Hne]; tx_inv Hrun; subst; simpl.
  - split_and!; try done; [by eexists 0; right|]. intros v.
    by rewrite <- assigned_users_elem, Heq, merge_sort_Permutation.
  - split_and!.
    + intros i Hi. by rewrite lookup_alter_ne.
    + intros r Hr. exists (now db). left. by rewrite lookup_alter_eq, Hr.
    + intros v. set_solver.
    + intros i v Hi. set_solver.
Qed.

Lemma touch_shows t d r : shows d r → shows d (touch_device t r).
Proof. by intros []. Qed.

Lemma sync_device_ok d db u db' :
  sync_device d db = Ok (u, db') →
  ∃ id, device_step id d db db' ∧
    match device_by_management (catalog_management_id d) db with
    | Some e => id = fst e
    | None => gpu_devices db !! id = None
    end.
Proof.
  unfold sync_device, upsert_device. intros Hrun. tx_inv Hrun. subst.
  match goal with Hn : now_v7 _ = _ |- _ => apply now_v7_ok in Hn as [-> ->] end. tx_inv Hs. subst.
  match goal with Hq : require _ _ = _ |- _ => apply require_ok in Hq as [Hfree ->] end.
  apply replace_assignments_ok in Hrun as (Hothers & Hrow & Husers & Hou). simpl in *.
  set (id := match device_by_management _ _ with Some e => fst e | None => _ end) in *. exists id. split.
  - constructor; [| done | | done].
    + destruct (Hrow _ (lookup_insert_eq _ _ _)) as (t & [Hr|Hr]); (eexists; split; [|exact Hr]);
        [by apply touch_shows | done].
    + intros i Hi. rewrite Hothers by done. by rewrite lookup_insert_ne.
  - change (device_by_management (catalog_management_id d) (set_next_uuid (N.succ (next_uuid db)) db)) with
      (device_by_management (catalog_management_id d) db) in *.
    subst id. destruct (device_by_management _ db); [done|]. simpl in Hfree. by destruct (gpu_devices db !! _).
Qed.

Definition devices_unique (db : Db) : Prop := unique management_id (gpu_devices db).

(** The identifier of the row does not matter to devices with other names. *)
Lemma step_id id d db db' i r :
  devices_unique db → device_step id d db db' →
  match device_by_management (catalog_management_id d) db with
  | Some e => id = fst e
  | None => gpu_devices db !! id = None
  end → gpu_devices db !! i = Some r → i = id ↔ management_id r = catalog_management_id d.
Proof.
  intros Hu _ Hid Hr. destruct (device_by_management _ db) as [[j r']|] eqn:E.
  - apply find_row_some in E as [Hj Hm%String.eqb_eq]. simpl in Hid. subst. split.
    + intros ->. congruence.
    + intros Hk. eapply Hu; [exact Hr | exact Hj | congruence].
  - unfold device_by_management in E. rewrite find_row_none in E. apply E in Hr as Hne.
    apply String.eqb_neq in Hne. split; [intros ->; congruence | done].
Qed.

Lemma sync_device_keeps d db u db' :
  devices_unique db → sync_device d db = Ok (u, db') →
  devices_unique db' ∧ synced d db' ∧
  (∀ d', catalog_management_id d' ≠ catalog_management_id d → synced d' db → synced d' db') ∧
  (∀ i r, gpu_devices db' !! i = Some r →
     management_id r = catalog_management_id d ∨ gpu_devices db !! i = Some r).
Proof.
  intros Hu (id & Hstep & Hid)%sync_device_ok.
  assert (Hsame := λ i r, step_id _ _ _ _ i r Hu Hstep Hid). destruct Hstep as [(r0 & Hs0 & Hr0) Husers Hothers Hou].
  assert (Hcases : ∀ i r, gpu_devices db' !! i = Some r →
    i = id ∧ r = r0 ∨ i ≠ id ∧ gpu_devices db !! i = Some r ∧ management_id r ≠ catalog_management_id d).
  { intros i r Hr. destruct (decide (i = id)) as [->|Hne]; [left; split; congruence|]. right.
    rewrite Hothers in Hr by done. split_and!; [done | done|]. by rewrite <- (Hsame i r Hr). }
  split_and!.
  - intros i j a b [[-> ->]|(Hi & Ha & Hna)]%Hcases [[-> ->]|(Hj & Hb & Hnb)]%Hcases Hk; try done.
    + destruct Hnb. rewrite <- Hk. apply Hs0.
    + destruct Hna. rewrite Hk. apply Hs0.
    + by eapply Hu.
  - by exists id, r0.
  - intros d' Hne (i & r & Hr & Hs & Hus). assert (i ≠ id).
    { rewrite (Hsame i r Hr). by rewrite (shows_id _ _ Hs). }
    exists i, r. rewrite Hothers by done. split_and!; [done | done|]. intros v. by rewrite Hou.
  - intros i r [[-> ->]|(_ & Hr & _)]%Hcases; [left; apply Hs0 | by right].
Qed.

Lemma sync_devices_ok l db u db' :
  NoDup (catalog_management_id <$> l) → devices_unique db →
  foldr (λ d rest, sync_device d ;; rest) (mret ()) l db = Ok (u, db') →
  devices_unique db' ∧ (∀ d, d ∈ l → synced d db') ∧
  (∀ d, catalog_management_id d ∉ (catalog_management_id <$> l) → synced d db → synced d db') ∧
  (∀ i r, gpu_devices db' !! i = Some r →
     management_id r ∈ (catalog_management_id <$> l) ∨ gpu_devices db !! i = Some r).
Proof.
  revert db. induction l as [|d l IH]; intros db Hnd Hu; simpl.
  - intros [_ ->]%mret_ok. split_and!; try done; [by intros ? ?%elem_of_nil | by right].
  - rewrite tx_bind_ok. intros (x & db1 & (Hu1 & Hd & Hkeep & Hrows)%sync_device_keeps & Hrun); [|done].
    apply NoDup_cons in Hnd as [Hd' Hnd]. destruct (IH db1 Hnd Hu1 Hrun) as (Hu2 & Hall & Hkeep2 & Hrows2).
    split_and!; [done | | |].
    + intros d0 [->|Hin]%elem_of_cons; [by apply Hkeep2 | by apply Hall].
    + intros d0 [Hne Hnin]%not_elem_of_cons Hs. apply Hkeep2; [done|]. by apply Hkeep.
    + intros i r [Hin|Hr]%Hrows2; [left; by right|]. destruct (Hrows _ _ Hr) as [->|?]; [left; by left | by right].
Qed.

Lemma check_catalog_nodup ids names l u :
  check_catalog ids names l = Ok u → NoDup (catalog_management_id <$> l) ∧
    (∀ d, d ∈ l → catalog_management_id d ∉ ids).
Proof.
  revert ids names. induction l as [|d l IH]; intros ids names; simpl; [split; [constructor | by intros ? ?%elem_of_nil]|].
  rewrite bind_ok. intros (? & Hid%fail_if_ok%bool_decide_false_iff & Hrun).
  destruct (bt_insert _ _ names) as [existing names'].
  rewrite bind_ok in Hrun. destruct Hrun as (? & _ & Hrun). apply IH in Hrun as [Hnd Hfresh]. split.
  - apply NoDup_cons. split; [|done]. intros (d' & Heq & Hin)%list_elem_of_fmap.
    apply (Hfresh d' Hin). rewrite <- Heq. by left.
  - intros d' [->|Hin]%elem_of_cons; [done|]. intros Hold. apply (Hfresh d' Hin). by right.
Qed.

Definition catalog_grants (gpu : string) (user : option UserId) (d : GpuCatalogDevice) : bool :=
  String.eqb (catalog_gpu_type d) gpu
  && (catalog_open d || is_some_and (λ u, bool_decide (u ∈ catalog_assigned d)) user).

Lemma gpu_accessible_spec gpu user db :
  gpu_accessible gpu user db = true ↔
  ∃ id r, gpu_devices db !! id = Some r ∧ device_gpu_type r = gpu ∧
    (visibility_open r = true ∨ ∃ u, user = Some u ∧ (id, u) ∈ gpu_device_user_assignments db).
Proof.
  unfold gpu_accessible. rewrite existsb_exists. split.
  - intros ([id r] & Hin%list_elem_of_In%elem_of_map_to_list & [Ht%String.eqb_eq Ha]%andb_true_iff). exists id, r.
    split_and!; [done.. |]. apply orb_true_iff in Ha as [Ha|Ha]; [by left|]. right. destruct user as [u|]; [|done].
    exists u. split; [done|]. by apply bool_decide_true_iff in Ha.
  - intros (id & r & Hr & <- & Ha). exists (id, r). split; [by apply list_elem_of_In, elem_of_map_to_list|]. simpl.
    rewrite String.eqb_refl. simpl. destruct Ha as [->|(u & -> & Hu)]; [done|]. simpl.
    by rewrite bool_decide_true, orb_true_r.
Qed.

Lemma catalog_grants_spec gpu user d :
  catalog_grants gpu user d = true ↔
  catalog_gpu_type d = gpu ∧ (catalog_open d = true ∨ ∃ u, user = Some u ∧ u ∈ catalog_assigned d).
Proof.
  unfold catalog_grants. rewrite andb_true_iff, String.eqb_eq, orb_true_iff.
  destruct user as [u|]; simpl; [rewrite bool_decide_true_iff|]; naive_solver.
Qed.

(** The table is the catalog. *)
Lemma synced_accessible gpu user l db :
  (∀ d, d ∈ l → synced d db) → devices_unique db →
  (∀ i r, gpu_devices db !! i = Some r → management_id r ∈ (catalog_management_id <$> l)) →
  gpu_accessible gpu user db = existsb (catalog_grants gpu user) l.
Proof.
  intros Hall Hu Honly. apply eq_true_iff_eq. rewrite gpu_accessible_spec, existsb_exists.
  setoid_rewrite catalog_grants_spec. setoid_rewrite <- list_elem_of_In. split.
  - intros (id & r & Hr & <- & Ha). pose proof (Honly _ _ Hr) as (d & Hm & Hd)%list_elem_of_fmap.
    destruct (Hall d Hd) as (j & r' & Hr' & [] & Hus).
    assert (j = id) as -> by (eapply Hu; [exact Hr' | exact Hr | congruence]). simplify_eq.
    exists d. split_and!; [done | congruence|]. setoid_rewrite <- Hus.
    destruct Ha; [left; congruence | by right].
  - intros (d & Hd & <- & Ha). destruct (Hall d Hd) as (j & r & Hr & [] & Hus). exists j, r.
    split_and!; [done.. |]. setoid_rewrite Hus. destruct Ha; [left; congruence | by right].
Qed.

Lemma nodup_fmap_inj {A B} (f : A → B) l x y : NoDup (f <$> l) → x ∈ l → y ∈ l → f x = f y → x = y.
Proof.
  intros Hnd [i Hi]%list_elem_of_lookup [j Hj]%list_elem_of_lookup Hf.
  assert (i = j) as ->; [|congruence].
  apply (NoDup_lookup (f <$> l) i j (f x) Hnd); rewrite list_lookup_fmap; [by rewrite Hi | by rewrite Hj, Hf].
Qed.

Lemma incoming_some l d :
  NoDup (catalog_management_id <$> l) → d ∈ l → incoming_device (catalog_management_id d) l = Some d.
Proof.
  intros Hnd Hd. unfold incoming_device. destruct (head _) as [d'|] eqn:E.
  - apply head_Some_elem_of, list_elem_of_filter in E as [Hm Hd'].
    by rewrite (nodup_fmap_inj catalog_management_id l d' d).
  - rewrite head_None in E. exfalso. eapply not_elem_of_nil. rewrite <- E. by apply list_elem_of_filter.
Qed.

Lemma incoming_none m l : incoming_device m l = None → ∀ d, d ∈ l → catalog_management_id d ≠ m.
Proof.
  unfold incoming_device. rewrite head_None. intros E d Hd <-. eapply not_elem_of_nil. rewrite <- E.
  by apply list_elem_of_filter.
Qed.

Lemma unchanged_device id r d db :
  device_changed id r d db = false →
  device_gpu_type r = catalog_gpu_type d ∧ visibility_open r = catalog_open d ∧
  ∀ u, (id, u) ∈ gpu_device_user_assignments db ↔ u ∈ catalog_assigned d.
Proof.
  unfold device_changed. rewrite !orb_false_iff, !negb_false_iff, !String.eqb_eq, eqb_true_iff, bool_decide_true_iff.
  intros (((Ht & _) & Ho) & Hus). split_and!; [done.. |]. intros u.
  by rewrite <- assigned_users_elem, Hus, merge_sort_Permutation.
Qed.

(** A type that is not among the affected ones is as accessible as before. *)
Lemma unaffected_accessible gpu user l db :
  NoDup (catalog_management_id <$> l) → devices_unique db → gpu ∉ affected_types l db →
  existsb (catalog_grants gpu user) l = gpu_accessible gpu user db.
Proof.
  intros Hnd Hu Hno. unfold affected_types in Hno. rewrite elem_of_app, list_elem_of_join in Hno.
  assert (Hold : ∀ id r, gpu_devices db !! id = Some r → gpu ∉ affected_by_old l db (id, r)).
  { intros id r Hr Hin. apply Hno. left. eexists. split; [exact Hin|]. apply list_elem_of_fmap.
    exists (id, r). split; [done | by apply elem_of_map_to_list]. }
  assert (Hsame : ∀ id r d, gpu_devices db !! id = Some r → d ∈ l → catalog_management_id d = management_id r →
    device_gpu_type r = gpu ∨ catalog_gpu_type d = gpu → device_changed id r d db = false).
  { intros id r d Hr Hd Hm Ht. pose proof (Hold id r Hr) as Ha. unfold affected_by_old in Ha. simpl in Ha.
    rewrite <- Hm, incoming_some in Ha by done. destruct (device_changed id r d db); [|done]. set_solver. }
  apply eq_true_iff_eq. rewrite gpu_accessible_spec, existsb_exists.
  setoid_rewrite catalog_grants_spec. setoid_rewrite <- list_elem_of_In. split.
  - intros (d & Hd & Ht & Ha). destruct (device_by_management (catalog_management_id d) db) as [[id r]|] eqn:E.
    + apply find_row_some in E as [Hr Hm%String.eqb_eq].
      destruct (unchanged_device id r d db) as (Ht' & Ho & Hus); [by apply Hsame; auto|].
      exists id, r. split_and!; [done | congruence|]. setoid_rewrite Hus. by rewrite Ho.
    + destruct Hno. right. apply list_elem_of_fmap. exists d. split; [done|]. by apply list_elem_of_filter.
  - intros (id & r & Hr & Ht & Ha). destruct (incoming_device (management_id r) l) as [d|] eqn:E.
    + unfold incoming_device in E. apply head_Some_elem_of, list_elem_of_filter in E as [Hm Hd].
      destruct (unchanged_device id r d db) as (Ht' & Ho & Hus); [by apply Hsame; auto|].
      exists d. split_and!; [done | congruence|]. setoid_rewrite <- Hus. by rewrite <- Ho.
    + destruct (Hold id r Hr). unfold affected_by_old. simpl. rewrite E, Ht. by left.
Qed.

(** What is done to the tables of devices only. *)
Definition gpu_frame (db db' : Db) : Prop := ∃ n d a, db' = set_next_uuid n (set_gpus d a db).

#[export] Instance gpu_frame_preorder : PreOrder gpu_frame.
Proof.
  split.
  - intros db. exists (next_uuid db), (gpu_devices db), (gpu_device_user_assignments db). by destruct db.
  - intros a b c (n & o & f & ->) (n' & o' & f' & ->). by exists n', o', f'.
Qed.

Lemma set_gpus_frame d a db : gpu_frame db (set_gpus d a db).
Proof. by exists (next_uuid db), d, a. Qed.

Lemma sync_device_frame d : keeps gpu_frame (sync_device d).
Proof.
  unfold sync_device, upsert_device, replace_gpu_device_assignments. frame; try apply set_gpus_frame.
  eexists _, (gpu_devices db), (gpu_device_user_assignments db). by destruct db.
Qed.

Lemma sync_devices_frame l : keeps gpu_frame (foldr (λ d rest, sync_device d ;; rest) (mret ()) l).
Proof. induction l as [|d l IH]; simpl; frame; [apply sync_device_frame | done]. Qed.

(** ** Events that are enqueued *)

Lemma insert_event_new t id b db u db' :
  insert_event t id b db = Ok (u, db') →
  outbox_events db ⊆ outbox_events db' ∧
  ∃ eid e, outbox_events db' !! eid = Some e ∧ outbox_events db !! eid = None ∧ delivered_at e = None ∧
    topic e = t ∧ payload e = b.
Proof.
  intros (eid & e & Hfree & Ht & _ & Hp & Hd & -> & _)%insert_event_ok. split; [by apply insert_subseteq|].
  exists eid, e. by rewrite lookup_insert_eq.
Qed.

Lemma enqueue_events_all t g rows db n db' :
  enqueue_events t g rows db = Ok (n, db') →
  outbox_events db ⊆ outbox_events db' ∧
  ∀ id r p, (id, r) ∈ rows → g id r = Some p →
    ∃ eid e, outbox_events db' !! eid = Some e ∧ outbox_events db !! eid = None ∧ delivered_at e = None ∧
      topic e = t ∧
      payload e = ReconcileBody (event_body id (organization_id r) (project_id r) p "flash" (generation r)).
Proof.
  revert db n. induction rows as [|[i s] rows IH]; intros db n; simpl.
  - intros [_ ->]%mret_ok. split; [done|]. by intros ??? ?%elem_of_nil.
  - destruct (g i s) as [q|] eqn:Hg.
    + rewrite tx_bind_ok. intros (u & db1 & [Hsub (eid & e & He & Hnew & Hrest)]%insert_event_new & Hrun).
      tx_inv Hrun. subst. apply IH in Hs as [Hsub' Hall]. split; [by etrans|].
      intros id r p [[= -> ->]|Hin]%elem_of_cons Hp.
      * rewrite Hg in Hp. injection Hp as <-. exists eid, e. split; [by eapply lookup_weaken | done].
      * destruct (Hall id r p Hin Hp) as (eid' & e' & He' & Hnew' & ?). exists eid', e'. split_and!; try naive_solver.
        by eapply lookup_weaken_None.
    + intros [Hsub Hall]%IH. split; [done|]. intros id r p [[= -> ->]|Hin]%elem_of_cons Hp; [congruence | eauto].
Qed.

(** A service that asks for one of the types is told. *)
Lemma gpu_events_all types db n db' id r q p pr :
  enqueue_flash_gpu_reconciles types db = Ok (n, db') →
  service_instances db !! id = Some r → state r ≠ Deleting →
  flash_gpu_service_requests db !! id = Some q → request_gpu_type q ∈ types →
  requested_by_principal_id q = Some p → principals db !! p = Some pr →
  principal_organization_id pr = organization_id r →
  ∃ eid e, outbox_events db' !! eid = Some e ∧ outbox_events db !! eid = None ∧ delivered_at e = None ∧
    topic e = "service-instance.reconcile" ∧
    payload e = ReconcileBody (event_body id (organization_id r) (project_id r) p "flash" (generation r)).
Proof.
  unfold enqueue_flash_gpu_reconciles. intros Hrun Hr Hnd Hq Ht Hp Hpr Horg.
  destruct types as [|t types]; [by apply not_elem_of_nil in Ht|]. simpl in Hrun.
  apply enqueue_events_all in Hrun as [_ Hall]. apply Hall.
  - rewrite elem_of_order_by_id. apply elem_of_select. split; [done|]. rewrite Hq. simpl.
    rewrite bool_decide_true by done. unfold not_deleting. by rewrite bool_decide_false.
  - rewrite Hq. simpl. rewrite Hp. simpl. rewrite Hpr. simpl. by rewrite bool_decide_true.
Qed.

(** ** Synchronization *)

Lemma retained_ids active (l : list GpuCatalogDevice) : catalog_management_id <$> (retain_active active <$> l) = catalog_management_id <$> l.
Proof. rewrite <- list_fmap_compose. by apply list_fmap_ext. Qed.

Lemma retained_assigned active d u :
  u ∈ catalog_assigned (retain_active active d) ↔ u ∈ catalog_assigned d ∧ u ∈ active.
Proof. simpl. rewrite merge_sort_Permutation, elem_of_remove_dups, list_elem_of_filter. tauto. Qed.

Definition grants (active : gset UserId) (gpu : string) (user : option UserId) (d : GpuCatalogDevice) : bool :=
  String.eqb (catalog_gpu_type d) gpu
  && (catalog_open d || is_some_and (λ u, bool_decide (u ∈ catalog_assigned d) && bool_decide (u ∈ active)) user).

Lemma retained_grants active gpu user d :
  catalog_grants gpu user (retain_active active d) = grants active gpu user d.
Proof.
  unfold catalog_grants, grants. destruct user as [u|]; [|done]. cbn [is_some_and].
  rewrite <- bool_decide_and. by rewrite (bool_decide_ext _ _ (retained_assigned active d u)).
Qed.

Lemma existsb_fmap {A B} (f : B → bool) (g : A → B) (l : list A) : existsb f (g <$> l) = existsb (λ x, f (g x)) l.
Proof. induction l as [|x l IH]; [done|]. simpl. f_equal. exact IH. Qed.

Lemma existsb_eq {A} (f g : A → bool) l : (∀ x, f x = g x) → existsb f l = existsb g l.
Proof. intros Hfg. induction l as [|x l IH]; [done|]. simpl. by rewrite Hfg, IH. Qed.

Lemma remove_devices_ok l db u db1 :
  devices_unique db → remove_devices l db = Ok (u, db1) →
  devices_unique db1 ∧ gpu_frame db db1 ∧
  (∀ i r, gpu_devices db1 !! i = Some r → management_id r ∈ (catalog_management_id <$> l)).
Proof.
  intros Hu. unfold remove_devices. intros ->%statement_ok. split_and!; [|apply set_gpus_frame|]; simpl.
  - intros i j a b [Ha _]%map_lookup_filter_Some [Hb _]%map_lookup_filter_Some. by eapply Hu.
  - by intros i r [_ Hr]%map_lookup_filter_Some.
Qed.

(** C13: The catalog of GPUs governs who may use which type.  After a
    synchronization of a table whose management identifiers are unique, which they
    stay, a user can use a GPU type exactly if the catalog has a device of that
    type that is open, or assigned to the user while the user is active.  And an
    application that asked for a type whose accessibility changed for anybody is
    told - a fresh event asks the worker to reconcile its current generation -
    provided that it is not being deleted and that the principal who asked is
    still there, in the account of the application. *)
Theorem gpu_catalog_governs_access devices db x db' :
  devices_unique db → sync_gpu_catalog devices db = Ok (x, db') →
  devices_unique db' ∧
  (∀ gpu user, gpu_accessible gpu user db' = existsb (grants (active_users db) gpu user) devices) ∧
  (∀ gpu user id r q p pr, gpu_accessible gpu user db' ≠ gpu_accessible gpu user db →
     service_instances db !! id = Some r → state r ≠ Deleting →
     flash_gpu_service_requests db !! id = Some q → request_gpu_type q = gpu →
     requested_by_principal_id q = Some p → principals db !! p = Some pr →
     principal_organization_id pr = organization_id r →
     ∃ eid e, outbox_events db' !! eid = Some e ∧ outbox_events db !! eid = None ∧ delivered_at e = None ∧
       topic e = "service-instance.reconcile" ∧
       payload e = ReconcileBody (event_body id (organization_id r) (project_id r) p "flash" (generation r))).
Proof.
  intros Hu. unfold sync_gpu_catalog. intros Hrun. tx_inv Hrun. subst.
  match goal with Hc : check_catalog _ _ _ = _ |- _ => apply check_catalog_nodup in Hc as [Hnd _] end.
  set (l := retain_active (active_users db) <$> devices) in *.
  rewrite <- (retained_ids (active_users db)) in Hnd. fold l in Hnd.
  destruct (remove_devices_ok l db _ _ Hu Hs) as (Hu1 & Hframe1 & Honly).
  match goal with Hf : foldr _ _ l ?d = Ok (_, ?d') |- _ =>
    assert (gpu_frame db d') as (n & dv & a & Hframe) by (etrans; [exact Hframe1 | exact (sync_devices_frame l _ _ _ Hf)]);
    destruct (sync_devices_ok l _ _ _ Hnd Hu1 Hf) as (Hu2 & Hall & _ & Hrows); clear Hf; rename d' into synced_db end.
  match goal with Hg : enqueue_flash_gpu_reconciles _ _ = _ |- _ =>
    pose proof (gpu_events_frame _ _ _ _ Hg) as (n' & o & f & ->); rename Hg into Hev end.
  assert (Hacc : ∀ gpu user, gpu_accessible gpu user synced_db = existsb (catalog_grants gpu user) l).
  { intros gpu user. apply synced_accessible; [done | done|]. intros i r [Hin|Hr]%Hrows; [done | by eapply Honly]. }
  split_and!; [exact Hu2 | |].
  - intros gpu user. etrans; [exact (Hacc gpu user)|]. subst l. rewrite existsb_fmap. apply existsb_eq.
    intros d. apply retained_grants.
  - intros gpu user id r q p pr Hdiff Hr Hnot Hq <- Hp Hpr Horg.
    destruct (decide (request_gpu_type q ∈ affected_types l db)) as [Hin|Hno].
    + assert (Ho : outbox_events synced_db = outbox_events db) by by rewrite Hframe. rewrite <- Ho.
      eapply gpu_events_all; [exact Hev | by rewrite Hframe | done | by rewrite Hframe | by apply elem_of_remove_dups
        | done | by rewrite Hframe | done].
    + destruct Hdiff. etrans; [exact (Hacc _ user)|]. by apply unaffected_accessible.
Qed.

(** ** Registry credentials *)

Lemma size_filter_insert {A} (P : Uuid * A → Prop) `{!∀ x, Decision (P x)} (m : gmap Uuid A) i x :
  m !! i = None → P (i, x) → size (filter P (<[i := x]> m)) = S (size (filter P m)).
Proof.
  intros Hi HP. rewrite map_filter_insert_True by done. apply map_size_insert_None.
  rewrite map_lookup_filter_None. by left.
Qed.

Lemma size_filter_update {A} (P : Uuid * A → Prop) `{!∀ x, Decision (P x)} (m : gmap Uuid A) i x y :
  m !! i = Some y → (P (i, x) ↔ P (i, y)) → size (filter P (<[i := x]> m)) = size (filter P m).
Proof.
  intros Hi HP. destruct (decide (P (i, y))) as [Hy|Hy].
  - rewrite map_filter_insert_True by tauto. rewrite map_size_insert_Some; [done|].
    exists y. by apply map_lookup_filter_Some.
  - rewrite map_filter_insert_False by tauto. rewrite map_filter_delete, delete_id; [done|].
    apply map_lookup_filter_None. right. intros z Hz. by simplify_eq.
Qed.

Lemma size_filter_delete {A} (P : Uuid * A → Prop) `{!∀ x, Decision (P x)} (m : gmap Uuid A) i :
  (size (filter P (delete i m)) ≤ size (filter P m))%nat.
Proof. apply map_subseteq_size. rewrite map_filter_delete. apply delete_subseteq. Qed.

Section Registry.
Context `{LimitsDecoder}.

Definition registry_same (db db' : Db) : Prop := registry db' = registry db.

#[local] Instance registry_same_preorder : PreOrder registry_same.
Proof. split; [done | intros a b c; unfold registry_same; congruence]. Qed.

Lemma quota_events_registry org : keeps registry_same (enqueue_flash_quota_reconcile_tx org).
Proof. by intros db n db' (k & o & f & ->)%quota_events_frame. Qed.

Lemma sync_catalog_registry devices : keeps registry_same (sync_gpu_catalog devices).
Proof.
  unfold sync_gpu_catalog. frame; [by apply keeps_statement | |].
  - intros db u db' (k & d & f & ->)%sync_devices_frame. done.
  - by intros db n db' (k & o & f & ->)%gpu_events_frame.
Qed.

(** Requests on other tables. *)
Ltac registry_frame :=
  repeat first [ apply quota_events_registry | frame_step | done
               | lazymatch goal with |- keeps registry_same ?t => let f := head_of t in progress unfold f end ].
Ltac registry_run :=
  match goal with Hr : ?t _ = Ok _ |- registry_same _ _ =>
    let Hk := fresh in enough (Hk : keeps registry_same t) by (by eapply Hk) end; registry_frame.

Lemma registry_with_status_some org id st db c :
  registry_with_status org id st db = Some c →
  registry_rows db !! id = Some c ∧ registry_organization c = org ∧ registry_status c = st.
Proof.
  unfold registry_with_status. destruct (registry_rows db !! id) as [c'|]; [|done]. simpl.
  destruct (bool_decide_reflect (registry_organization c' = org)); [|done]. simpl.
  destruct (String.eqb_spec (registry_status c') st); [|done]. by intros [= <-].
Qed.

Lemma reserve_ok org principal n db x db' :
  reserve_registry_credential org principal n db = Ok (x, db') →
  registry_rows db !! fst x = None ∧ registry_organization (snd x) = org ∧
  registry_status (snd x) = "provisioning" ∧
  registry_rows db' = <[fst x := snd x]> (registry_rows db) ∧
  cloud_organization_accounts db' = cloud_organization_accounts db ∧
  (∃ quota, resource_quota_in_transaction org db = Ok quota ∧
     account_credentials org db < RegistryQuotaLimits.max_credentials (ResourceQuotaLimits.registry quota)) ∧
  (organization_registry_credentials_enabled (registry db) = true →
     ∃ cloud limit, cloud_registry_limit org db = Ok (cloud, limit) ∧ cloud_credentials cloud db < limit).
Proof.
  intros Hres. unfold reserve_registry_credential, on_registry in Hres. tx_inv Hres. subst.
  match goal with Hn : now_v7 _ = _ |- _ => apply now_v7_ok in Hn as [-> ->] end.
  match goal with Hq : require _ _ = _ |- _ => apply require_ok in Hq as [Hfree ->] end.
  rewrite !andb_true_iff in Hfree. destruct Hfree as [[Hfree _] _].
  match goal with Hg : (if _ then _ else _) _ = Ok (_, ?d) |- _ => rename Hg into Hgate; rename d into gated end.
  assert (gated = db ∧ (organization_registry_credentials_enabled (registry db) = true →
     ∃ cloud limit, cloud_registry_limit org db = Ok (cloud, limit) ∧ cloud_credentials cloud db < limit)) as [-> Hcloud].
  { destruct (organization_registry_credentials_enabled _); tx_inv Hgate; subst; [|done]. split; [done|]. intros _.
    match goal with Hl : cloud_registry_limit _ _ = Ok ?p |- _ => destruct p as [c l]; exists c, l end.
    split; [done|]. simpl in *. lia. }
  split_and!; try done; [by apply is_some_false|]. eexists. split; [done|]. lia.
Qed.

(** Registry credentials stay within their limits.  Whatever an
    administrative request does, the number of credentials an account holds or
    has reserved grows only by a reservation, by one, and only while the account
    has room for it - and, when limits for organizations are enabled, the
    accounts of its organization together. *)
Lemma registry_credentials_within_limits db db' org :
  admin_request db db' →
  account_credentials org db' ≤ account_credentials org db ∨
  (account_credentials org db' = account_credentials org db + 1 ∧
   (∃ quota, resource_quota_in_transaction org db = Ok quota ∧
      account_credentials org db' ≤ RegistryQuotaLimits.max_credentials (ResourceQuotaLimits.registry quota)) ∧
   (organization_registry_credentials_enabled (registry db) = true →
      ∃ cloud limit, cloud_registry_limit org db = Ok (cloud, limit) ∧ cloud_credentials cloud db' ≤ limit)).
Proof.
  assert (Hsame : registry_same db db' → account_credentials org db' ≤ account_credentials org db)
    by (unfold registry_same, account_credentials, registry_rows; intros ->; lia).
  unfold account_credentials, cloud_credentials.
  destruct 1; try (left; apply Hsame; by eapply sync_catalog_registry); try solve [left; apply Hsame; registry_run].
  - match goal with Hr : reserve_registry_credential ?o _ _ _ = _ |- _ =>
      apply reserve_ok in Hr as (Hnone & Horg & Hst & Hrows & Hacc & (quota & Hq & Hroom) & Hcloud);
      destruct (decide (o = org)) as [->|Hne] end; rewrite Hrows.
    + right. rewrite size_filter_insert; [|done | simpl; rewrite Hst; set_solver].
      split_and!; [lia | exists quota; split; [done|]; unfold account_credentials in Hroom; lia|].
      intros Hg. destruct (Hcloud Hg) as (c & limit & Hlim & Hlt). exists c, limit. split; [done|].
      rewrite Hacc. unfold cloud_credentials in Hlt. rewrite size_filter_insert; [lia | done|].
      simpl. rewrite Hst, Horg. split; [|set_solver]. unfold cloud_registry_limit in Hlim. inv_ok Hlim.
      by simplify_eq.
    + left. rewrite map_filter_insert_False; [|simpl; naive_solver]. apply Nat2Z.inj_le, size_filter_delete.
  - left. unfold activate_registry_credential, on_registry in *.
    match goal with Hr : _ = Ok _ |- _ => tx_inv Hr end. subst.
    match goal with Hr : optional _ _ _ = _ |- _ => apply optional_query_ok in Hr as [Hc ->] end.
    match goal with Hr : require _ _ = _ |- _ => apply require_ok in Hr as [_ ->] end.
    apply registry_with_status_some in Hc as (Hrow & _ & Hst).
    apply Z.eq_le_incl, inj_eq. refine (size_filter_update _ (registry_rows _) id (set_active robot user _) _ Hrow _).
    simpl. rewrite Hst. set_solver.
  - left. unfold cancel_registry_credential_reservation, on_registry in *.
    match goal with Hr : _ = Ok _ |- _ => tx_inv Hr end. unfold registry_rows at 1. simpl.
    destruct (is_some _); [apply Nat2Z.inj_le, size_filter_delete | lia].
  - left. unfold delete_registry_credential, on_registry in *.
    match goal with Hr : _ = Ok _ |- _ => tx_inv Hr end. subst. unfold registry_rows at 1. simpl.
    apply Nat2Z.inj_le, size_filter_delete.
  - left. unfold enable_organization_registry_credentials in *.
    match goal with Hr : _ = Ok _ |- _ => tx_inv Hr end. unfold registry_rows at 1. simpl. lia.
Qed.
End Registry.
