(* ===== verification/FlashFacts.v ===== *)
(** * Correctness of Flash operations in the store

    Backups stay within the quota of the account, repeated requests give the same
    backup, what is deleted stays deleted and retention keeps the newest; a
    schedule is run by one worker at a time; host names are unique and bounded;
    SSH keys open a service only while everything they depend on is in force;
    revisions record each generation as it was and are verified only by what was
    seen running. *)
From stdpp Require Import sorting.
From S2P Require Import Prelude Text Json Net Policy Iam Quota Specs Flash Store Usage Prepare Services FlowAccess Cloud Identity Access FlashStore Lifecycle FlowFacts CloudFacts IdentityFacts AccessFacts.

(** ** Requests *)

Section Requests.
Context `{UuidText, SqlText}.

(** The operations on the tables of Flash.  The phase given to a status update
    is that of an answer, or the one that was read before: it is [deleted] only
    if the row was deleted then. *)
Inductive flash_request (db db' : Db) : Prop :=
| flash_rolled_back id g x : mark_flash_revision_rolled_back id g db = Ok (x, db') → flash_request db db'
| flash_event i c s m x : record_flash_event i c s m db = Ok (x, db') → flash_request db db'
| flash_acknowledge org id x : acknowledge_flash_event org id db = Ok (x, db') → flash_request db db'
| flash_put_policy org id p i x : put_flash_backup_policy org id p i db = Ok (x, db') → flash_request db db'
| flash_run_now org id x : run_flash_backup_policy_now org id db = Ok (x, db') → flash_request db db'
| flash_claim x : claim_backup_policies db = Ok (x, db') → flash_request db db'
| flash_finish id p b e x : finish_backup_policy id p b e db = Ok (x, db') → flash_request db db'
| flash_attach id p b x : attach_scheduled_backup id p b db = Ok (x, db') → flash_request db db'
| flash_expire id p x : expire_scheduled_backups id p db = Ok (x, db') → flash_request db db'
| flash_new_backup org service p request name bytes uid image g d x :
    request_flash_backup_to org service p request name bytes uid image g d db = Ok (x, db') → flash_request db db'
| flash_delete_backup org id x : request_flash_backup_delete org id db = Ok (x, db') → flash_request db db'
| flash_status id phase st x :
    (phase = "deleted" → ∃ b, backup_rows db !! id = Some b ∧ is_Some (deleted_at b)) →
    update_flash_backup_status id phase st db = Ok (x, db') → flash_request db db'
| flash_release id x : release_flash_backup id db = Ok (x, db') → flash_request db db'
| flash_restore org p request b project name x :
    reserve_flash_restore org p request b project name db = Ok (x, db') → flash_request db db'
| flash_destination org p i x : reserve_flash_backup_destination org p i db = Ok (x, db') → flash_request db db'
| flash_refresh org id t ready x :
    refresh_flash_backup_destination org id t ready db = Ok (x, db') → flash_request db db'
| flash_destination_state org id ready x :
    update_flash_backup_destination_state org id ready db = Ok (x, db') → flash_request db db'
| flash_domain org service p host x : reserve_flash_domain org service p host db = Ok (x, db') → flash_request db db'
| flash_domain_delete org service id x : request_flash_domain_delete org service id db = Ok (x, db') → flash_request db db'
| flash_domain_attempted id x : mark_flash_domain_attempted id db = Ok (x, db') → flash_request db db'
| flash_domain_synced id x : mark_flash_domain_synced id db = Ok (x, db') → flash_request db db'
| flash_domain_release id x : release_flash_domain id db = Ok (x, db') → flash_request db db'
| flash_key org user name key print github x :
    create_flash_ssh_key org user name key print github db = Ok (x, db') → flash_request db db'
| flash_delete_key org user id x : delete_flash_ssh_key org user id db = Ok (x, db') → flash_request db db'
| flash_bind_key org service key on x : set_flash_service_ssh_key org service key on db = Ok (x, db') → flash_request db db'.

(** They leave everything else alone. *)
Ltac op_frame :=
  flash_frame;
  try match goal with
  | |- keeps _ ?t => let f := head_of t in progress unfold f; op_frame
  end.

Lemma flash_request_frame db db' : flash_request db db' → flash_frame db db'.
Proof.
  destruct 1.
  all: match goal with Hr : ?t _ = Ok _ |- _ => enough (Hk : keeps flash_frame t) by (by eapply Hk) end.
  all: op_frame.
Qed.

End Requests.

(** ** Tables with bounded groups and unique columns *)

Definition grouped {A K} `{EqDecision K} (k : A → K) (n : Z) (m : gmap Uuid A) : Prop :=
  ∀ g, Z.of_nat (size (filter (λ e, k (snd e) = g) m)) ≤ n.

Section Tables.
Context {A K : Type} `{EqDecision K} (k : A → K).

Lemma grouped_shrinks (le : relation A) n m m' :
  (∀ a a', le a a' → k a' = k a) → shrinks le m m' → grouped k n m → grouped k n m'.
Proof.
  intros Hk Hs Hg g. etrans; [|apply (Hg g)]. rewrite <- !size_dom. apply Nat2Z.inj_le, subseteq_size.
  intros id [a' [Ha' <-]%map_lookup_filter_Some]%elem_of_dom. destruct (Hs _ _ Ha') as (a & Ha & Hle).
  apply elem_of_dom. exists a. apply map_lookup_filter_Some. split; [done | symmetry; by apply Hk].
Qed.

Lemma grouped_insert n id a m :
  m !! id = None → Z.of_nat (size (filter (λ e, k (snd e) = k a) m)) < n →
  grouped k n m → grouped k n (<[id := a]> m).
Proof.
  intros Hid Hlt Hg g. destruct (decide (k a = g)) as [<-|Hne].
  - rewrite map_filter_insert_True, map_size_insert_None by (simpl; done || by apply map_lookup_filter_None_2; left). lia.
  - rewrite map_filter_insert_False, delete_id by done. apply Hg.
Qed.

Lemma unique_shrinks (le : relation A) m m' :
  (∀ a a', le a a' → k a' = k a) → shrinks le m m' → unique k m → unique k m'.
Proof.
  intros Hk Hs. apply unique_sub. intros i a' Ha'. destruct (Hs _ _ Ha') as (a & Ha & Hle).
  exists a. split; [done | symmetry; by apply Hk].
Qed.

End Tables.

Lemma exists_row_false {A} (p : Uuid → A → bool) m :
  exists_row p m = false ↔ ∀ id a, m !! id = Some a → p id a = false.
Proof.
  unfold exists_row. rewrite <- not_true_iff_false, existsb_exists. split.
  - intros Hn id a Ha. apply not_true_iff_false. intros Hp. apply Hn. exists (id, a).
    by rewrite <- list_elem_of_In, elem_of_map_to_list.
  - intros Hf ([id a] & Hin & Hp). rewrite <- list_elem_of_In, elem_of_map_to_list in Hin. simpl in Hp.
    by rewrite (Hf _ _ Hin) in Hp.
Qed.

(** ** Backups

    How the table can evolve: rows are never removed, keep what they are about,
    and stay deleted. *)
Record backup_le (b b' : BackupRow) : Prop := {
  bl_organization : backup_organization_id b' = backup_organization_id b;
  bl_service : backup_service b' = backup_service b;
  bl_request : backup_request_id b' = backup_request_id b;
  bl_size : volume_size_bytes b' = volume_size_bytes b;
  bl_spec : source_spec b' = source_spec b;
  bl_identity : backup_principal b' = backup_principal b ∧ backup_name b' = backup_name b ∧
    backup_destination b' = backup_destination b;
  bl_requested : delete_requested b = true → delete_requested b' = true;
  bl_deleted : is_Some (deleted_at b) → deleted_at b' = deleted_at b;
}.

#[export] Instance backup_le_preorder : PreOrder backup_le.
Proof.
  split; [done|]. intros a b c [] []. constructor; try congruence; [destruct_and?; split_and!; congruence | auto|].
  intros Hd. rewrite <- bl_deleted0 in * by done. auto.
Qed.

Definition backup_ok (b : BackupRow) : Prop :=
  0 < volume_size_bytes b ∧ (backup_phase b = "deleted" ↔ is_Some (deleted_at b)) ∧
  (is_Some (deleted_at b) → delete_requested b = true).

(** What the backups of an account take up. *)
Definition charged (org : OrganizationId) (m : gmap Uuid BackupRow) : gmap Uuid (ServiceInstanceId * Z) :=
  (λ b, (backup_service b, volume_size_bytes b)) <$>
    filter (λ e, backup_organization_id (snd e) = org ∧ backup_phase (snd e) ≠ "deleted") m.

Definition stored (u : gmap Uuid (ServiceInstanceId * Z)) : Z := map_fold (λ _ e n, snd e + n) 0 u.

Record within (u : gmap Uuid (ServiceInstanceId * Z)) : Prop := {
  within_count : Z.of_nat (size u) ≤ MAX_BACKUPS;
  within_service s : Z.of_nat (size (filter (λ e, fst (snd e) = s) u)) ≤ MAX_SERVICE_BACKUPS;
  within_bytes : stored u ≤ MAX_BACKUP_BYTES;
}.

Record backups_wf (m : gmap Uuid BackupRow) : Prop := {
  bw_rows id b : m !! id = Some b → backup_ok b;
  bw_within org : within (charged org m);
  bw_requests : unique (λ b, (backup_organization_id b, backup_request_id b)) m;
}.

Lemma stored_insert id e u : u !! id = None → stored (<[id := e]> u) = snd e + stored u.
Proof. intros Hid. unfold stored. apply (map_fold_insert_L (λ _ e n, snd e + n)); [|done]. intros. lia. Qed.

Lemma stored_mono u v : (∀ id e, v !! id = Some e → 0 < snd e) → u ⊆ v → stored u ≤ stored v.
Proof.
  intros Hpos. revert v Hpos. induction u as [|id e u Hid IH] using map_ind; intros v Hpos Hsub.
  - unfold stored at 1. rewrite map_fold_empty. clear Hsub.
    induction v as [|id e v Hid IH] using map_ind; [done|]. rewrite stored_insert by done.
    assert (0 < snd e) by (apply (Hpos id); by rewrite lookup_insert_eq).
    enough (0 ≤ stored v) by lia. apply IH. intros i x Hx. apply (Hpos i). rewrite lookup_insert_ne; congruence.
  - assert (Hv : v !! id = Some e) by (eapply lookup_weaken; [apply lookup_insert_eq | done]).
    rewrite <- (insert_delete_id v id e) by done. rewrite !stored_insert by (done || apply lookup_delete_eq).
    enough (stored u ≤ stored (delete id v)) by lia. apply IH.
    + intros i x [_ Hx]%lookup_delete_Some. by eapply Hpos.
    + rewrite <- (delete_insert_id u id e) by done. by apply delete_mono.
Qed.

Lemma size_mono {A} (u v : gmap Uuid A) : u ⊆ v → (size u ≤ size v)%nat.
Proof. intros Hsub. rewrite <- !size_dom. by apply subseteq_size, subseteq_dom. Qed.

Lemma within_mono u v :
  (∀ id e, v !! id = Some e → 0 < snd e) → u ⊆ v → within v → within u.
Proof.
  intros Hpos Hsub [Hc Hs Hb]. constructor.
  - pose proof (size_mono _ _ Hsub). lia.
  - intros s. enough (size (filter (λ e, fst (snd e) = s) u) ≤ size (filter (λ e, fst (snd e) = s) v))%nat
      by (specialize (Hs s); lia). apply size_mono, map_filter_subseteq_mono, Hsub.
  - pose proof (stored_mono u v Hpos Hsub). lia.
Qed.

Lemma charged_lookup org m id e :
  charged org m !! id = Some e ↔ ∃ b, m !! id = Some b ∧ backup_organization_id b = org ∧
    backup_phase b ≠ "deleted" ∧ e = (backup_service b, volume_size_bytes b).
Proof.
  unfold charged. rewrite lookup_fmap_Some. split.
  - intros (b & <- & [Hb [? ?]]%map_lookup_filter_Some). eauto.
  - intros (b & Hb & Ho & Hp & ->). exists b. split; [done|]. by apply map_lookup_filter_Some.
Qed.

(** Rows that evolve never take up more. *)
Definition evolves_rows (m m' : gmap Uuid BackupRow) : Prop :=
  (∀ id b, m !! id = Some b → ∃ b', m' !! id = Some b' ∧ backup_le b b') ∧ dom m' ⊆ dom m.

Lemma backups_evolve m m' :
  backups_wf m → evolves_rows m m' → (∀ id b, m' !! id = Some b → backup_ok b) → backups_wf m'.
Proof.
  intros [Hr Hw Hu] [Hle Hdom] Hok. constructor; [done | |].
  2:{ eapply (unique_shrinks _ backup_le); [| |done].
      - by intros ?? [-> _ -> _ _ _ _ _].
      - intros id b' Hb'. assert (Hin : id ∈ dom m) by (apply Hdom; by eapply elem_of_dom_2).
        apply elem_of_dom in Hin as [b Hb]. destruct (Hle _ _ Hb) as (b2 & Hb2 & Hl). simplify_eq. eauto. }
  intros org. eapply within_mono; [| |apply (Hw org)].
  - intros id e (b & Hb & _ & _ & ->)%charged_lookup. by destruct (Hr _ _ Hb).
  - apply map_subseteq_spec. intros id e (b' & Hb' & Ho & Hp & ->)%charged_lookup. apply charged_lookup.
    assert (Hin : id ∈ dom m) by (apply Hdom; by eapply elem_of_dom_2). apply elem_of_dom in Hin as [b Hb].
    destruct (Hle _ _ Hb) as (b2 & Hb2 & [Lo Ls _ Lv _ _ _ Ld]). simplify_eq. exists b.
    split_and!; try congruence. intros Hdel. destruct (Hok _ _ Hb') as (_ & Hd & _).
    apply Hr in Hb as (_ & Hd0 & _). apply Hp, Hd. rewrite Ld by tauto. tauto.
Qed.

Lemma alter_evolves f id m :
  (∀ b, m !! id = Some b → backup_le b (f b)) → evolves_rows m (alter f id m).
Proof.
  intros Hf. split; [|by rewrite dom_alter]. intros i b Hb. destruct (decide (i = id)) as [->|Hne].
  - rewrite lookup_alter_eq, Hb. simpl. eauto.
  - rewrite lookup_alter_ne by done. exists b. by split.
Qed.

Lemma alter_backups_wf f id m :
  backups_wf m → (∀ b, m !! id = Some b → backup_ok b → backup_le b (f b) ∧ backup_ok (f b)) →
  backups_wf (alter f id m).
Proof.
  intros Hwf Hf. assert (Hok := bw_rows _ Hwf). apply (backups_evolve m); [done | |].
  - apply alter_evolves. intros b Hb. by apply Hf, Hok with id.
  - intros i b Hb. destruct (decide (i = id)) as [->|Hne].
    + rewrite lookup_alter_eq in Hb. apply fmap_Some in Hb as (b0 & Hb0 & ->). by apply Hf, Hok with id.
    + rewrite lookup_alter_ne in Hb by done. by eapply Hok.
Qed.

(** A new row within the quota. *)
Lemma insert_backups_wf id b m :
  backups_wf m → m !! id = None → backup_ok b → backup_phase b ≠ "deleted" →
  let u := charged (backup_organization_id b) m in
  Z.of_nat (size u) < MAX_BACKUPS →
  Z.of_nat (size (filter (λ e, fst (snd e) = backup_service b) u)) < MAX_SERVICE_BACKUPS →
  stored u + volume_size_bytes b ≤ MAX_BACKUP_BYTES →
  (∀ j c, m !! j = Some c →
     (backup_organization_id c, backup_request_id c) ≠ (backup_organization_id b, backup_request_id b)) →
  backups_wf (<[id := b]> m).
Proof.
  intros Hwf Hid Hok Hph u Hc Hs Hb Hreq. constructor.
  3:{ apply unique_insert; [apply Hwf|]. intros. by eapply Hreq. }
  - intros i b' [[<- <-]|[_ Hi]]%lookup_insert_Some; [done | by eapply bw_rows].
  - intros org. unfold charged. destruct (decide (backup_organization_id b = org)) as [<-|Hne].
    + rewrite map_filter_insert_True by done. rewrite fmap_insert. fold (charged (backup_organization_id b) m). fold u.
      assert (Hu : u !! id = None) by (unfold u, charged; rewrite lookup_fmap, map_lookup_filter_None_2; auto).
      constructor.
      * rewrite map_size_insert_None by done. lia.
      * intros s. destruct (decide (backup_service b = s)) as [<-|Hs'].
        -- rewrite map_filter_insert_True, map_size_insert_None by (simpl; done || by apply map_lookup_filter_None_2; left).
           lia.
        -- rewrite map_filter_insert_False, delete_id by (simpl; done || congruence). by apply (bw_within _ Hwf).
      * rewrite stored_insert by done. simpl. lia.
    + rewrite map_filter_insert_False, delete_id by (simpl; done || intros [??]; congruence). by apply (bw_within _ Hwf).
Qed.

Lemma counted_charged org db : size (counted_backups org db) = size (charged org (backup_rows db)).
Proof. unfold charged. by rewrite map_size_fmap. Qed.

Lemma counted_service org s db :
  size (filter (λ e, backup_service (snd e) = s) (counted_backups org db))
  = size (filter (λ e, fst (snd e) = s) (charged org (backup_rows db))).
Proof. unfold charged. by rewrite map_filter_fmap, map_size_fmap. Qed.

Lemma counted_bytes org db : backup_bytes (counted_backups org db) = stored (charged org (backup_rows db)).
Proof. unfold backup_bytes, stored, charged. by rewrite map_fold_fmap. Qed.

(** ** What holds of the tables of Flash *)

Definition schedule_ok (p : BackupPolicyRow) : Prop :=
  3600 ≤ schedule_interval p ≤ 604800 ∧ 1 ≤ retention_count p ≤ 8.

Record domain_le (d d' : DomainRow) : Prop := {
  dl_hostname : hostname d' = hostname d;
  dl_service : domain_service d' = domain_service d ∧ domain_organization d' = domain_organization d;
  dl_value : verification_value d' = verification_value d;
}.

#[export] Instance domain_le_preorder : PreOrder domain_le.
Proof. split; [by constructor|]. intros a b c [? [] ?] [? [] ?]. constructor; try split; congruence. Qed.

Definition same_place (d d' : DestinationRow) : Prop :=
  destination_organization d' = destination_organization d ∧ destination_name d' = destination_name d ∧
  destination_request_id d' = destination_request_id d.

#[export] Instance same_place_preorder : PreOrder same_place.
Proof. split; [done|]. intros a b c (? & ? & ?) (? & ? & ?). split_and!; congruence. Qed.

Record tables_wf (f : FlashTables) : Prop := {
  fw_backups : backups_wf (flash_backups f);
  fw_schedules : map_Forall (λ _, schedule_ok) (flash_backup_policies f);
  fw_domains : Z.of_nat (size (flash_domain_bindings f)) ≤ MAX_DOMAINS;
  fw_service_domains : grouped domain_service MAX_SERVICE_DOMAINS (flash_domain_bindings f);
  fw_hostnames : unique hostname (flash_domain_bindings f);
  fw_destinations : grouped destination_organization 20 (flash_backup_destinations f);
  fw_places : unique (λ d, (destination_organization d, destination_name d)) (flash_backup_destinations f);
  fw_requests : unique (λ d, (destination_organization d, destination_request_id d)) (flash_backup_destinations f);
  fw_keys : grouped (λ k, (ssh_organization k, ssh_user k)) MAX_KEYS_PER_USER (flash_ssh_keys f);
  fw_prints : unique (λ k, (ssh_organization k, fingerprint k)) (flash_ssh_keys f);
  fw_bound org service key : (org, service, key) ∈ flash_ssh_key_bindings f →
    ∃ k, flash_ssh_keys f !! key = Some k ∧ ssh_organization k = org;
  fw_bindings org service :
    Z.of_nat (size (filter (λ b, fst b = (org, service)) (flash_ssh_key_bindings f))) ≤ MAX_BINDINGS_PER_SERVICE;
}.

(** How they can evolve. *)
Record flash_le (db db' : Db) : Prop := {
  fl_now : now db ≤ now db';
  fl_backups : stays backup_le (backup_rows db) (backup_rows db');
  fl_restores : restore_rows db ⊆ restore_rows db';
  fl_wf : tables_wf (flash db) → tables_wf (flash db');
}.

#[export] Instance flash_le_preorder : PreOrder flash_le.
Proof.
  split; [intros db; constructor; try done; by apply stays_refl, _|].
  intros a b c [? B1 R1 W1] [? B2 R2 W2]. constructor; [lia | by eapply (stays_trans _) | by etrans | auto].
Qed.

(** ** Statements *)

Lemma flash_le_same db db' :
  now db ≤ now db' → flash_backups (flash db') = flash_backups (flash db) →
  flash_backup_restore_requests (flash db') = flash_backup_restore_requests (flash db) →
  (tables_wf (flash db) → tables_wf (flash db')) → flash_le db db'.
Proof.
  intros Hn Hb Hr Hw. constructor; [done | | |done]; unfold backup_rows, restore_rows; [|by rewrite Hr].
  rewrite Hb. apply stays_refl, _.
Qed.

(** What leaves these tables alone. *)
Lemma flash_le_quiet db db' : now db ≤ now db' → flash db' = flash db → flash_le db db'.
Proof. intros Hn Hf. by apply flash_le_same; rewrite ?Hf. Qed.

Lemma revisions_le r n db : flash_le db (set_flash (set_revisions r (set_notices n (flash db))) db).
Proof. apply flash_le_same; [done.. |]. by intros []. Qed.

Lemma on_revisions_le f : keeps flash_le (on_flash (λ db t, set_revisions (f db t) t)).
Proof.
  apply keeps_statement. intros db. apply flash_le_same; [done.. |]. by intros [].
Qed.

Lemma on_notices_le f : keeps flash_le (on_flash (λ db t, set_notices (f db t) t)).
Proof.
  apply keeps_statement. intros db. apply flash_le_same; [done.. |]. by intros [].
Qed.

Lemma next_uuid_le n db : flash_le db (set_next_uuid n db).
Proof. by apply flash_le_quiet. Qed.

Lemma upsert_notice_le refresh i code severity message : keeps flash_le (upsert_notice refresh i code severity message).
Proof. unfold upsert_notice. frame; apply on_notices_le || apply next_uuid_le. Qed.

Lemma policies_le m db :
  (map_Forall (λ _, schedule_ok) (schedule_rows db) → map_Forall (λ _, schedule_ok) m) →
  flash_le db (set_flash (set_backup_policies m (flash db)) db).
Proof. intros Hm. apply flash_le_same; [done.. |]. intros []. constructor; try done. by apply Hm. Qed.

Lemma backups_le m db :
  stays backup_le (backup_rows db) m → (backups_wf (backup_rows db) → backups_wf m) →
  flash_le db (set_flash (set_backups m (flash db)) db).
Proof. intros Hs Hw. constructor; [done.. |]. intros []. constructor; try done. by apply Hw. Qed.

Lemma domains_le m db :
  (tables_wf (flash db) → Z.of_nat (size m) ≤ MAX_DOMAINS ∧ grouped domain_service MAX_SERVICE_DOMAINS m ∧
     unique hostname m) →
  flash_le db (set_flash (set_domains m (flash db)) db).
Proof. intros Hm. apply flash_le_same; [done.. |]. intros Hw. destruct (Hm Hw) as (? & ? & ?), Hw. by constructor. Qed.

Lemma destinations_le m db :
  (tables_wf (flash db) → grouped destination_organization 20 m ∧
     unique (λ d, (destination_organization d, destination_name d)) m ∧
     unique (λ d, (destination_organization d, destination_request_id d)) m) →
  flash_le db (set_flash (set_destinations m (flash db)) db).
Proof. intros Hm. apply flash_le_same; [done.. |]. intros Hw. destruct (Hm Hw) as (? & ? & ?), Hw. by constructor. Qed.

Lemma size_shrinks {A} (le : relation A) (m m' : gmap Uuid A) : shrinks le m m' → (size m' ≤ size m)%nat.
Proof.
  intros Hs. rewrite <- !size_dom. apply subseteq_size. intros id [a' Ha']%elem_of_dom.
  destruct (Hs _ _ Ha') as (a & Ha & _). by eapply elem_of_dom_2.
Qed.

Lemma domains_shrink_le m db :
  shrinks domain_le (domain_rows db) m → flash_le db (set_flash (set_domains m (flash db)) db).
Proof.
  intros Hs. apply domains_le. intros [_ _ Hn Hg Hu _ _ _ _ _ _ _]. split_and!.
  - apply size_shrinks in Hs. unfold domain_rows in Hs. lia.
  - eapply (grouped_shrinks _ domain_le); [|done..]. by intros ?? [_ [] _].
  - eapply (unique_shrinks _ domain_le); [|done..]. by intros ?? [].
Qed.

Lemma destinations_shrink_le m db :
  shrinks same_place (destination_rows db) m → flash_le db (set_flash (set_destinations m (flash db)) db).
Proof.
  intros Hs. apply destinations_le. intros [_ _ _ _ _ Hg Hp Hr _ _ _ _]. split_and!.
  - eapply (grouped_shrinks _ same_place); [|done..]. by intros ?? [].
  - eapply (unique_shrinks _ same_place); [|done..]. by intros ?? (-> & -> & _).
  - eapply (unique_shrinks _ same_place); [|done..]. by intros ?? (-> & _ & ->).
Qed.

(** Take an operation apart, statement by statement. *)
Ltac op_step H :=
  tx_step H;
  repeat match goal with
  | Hs : optional _ (find_service _ _) _ = Ok _ |- _ => apply optional_query_ok in Hs as [? ->]
  | Hs : optional _ (query _) _ = Ok _ |- _ => apply optional_query_ok in Hs as [? ->]
  | Hs : require _ _ = Ok _ |- _ => apply require_ok in Hs as [? ->]
  | Hs : now_v7 _ = Ok _ |- _ => apply now_v7_ok in Hs as [? ->]
  | Hs : on_flash _ _ = Ok _ |- _ => apply statement_ok in Hs; subst
  | Hs : on_policies _ _ = Ok _ |- _ => apply statement_ok in Hs; subst
  | Hs : on_backups _ _ = Ok _ |- _ => apply statement_ok in Hs; subst
  | Hs : alter_backup _ _ _ _ = Ok _ |- _ => apply statement_ok in Hs; subst
  | Hs : on_destinations _ _ = Ok _ |- _ => apply statement_ok in Hs; subst
  | Hs : on_domains _ _ = Ok _ |- _ => apply statement_ok in Hs; subst
  end.
Ltac op_inv H := repeat (progress (op_step H)); subst.

(** ** Operations on schedules *)

Lemma alter_schedule_ok f id (m : gmap Uuid BackupPolicyRow) :
  (∀ p, schedule_ok p → schedule_ok (f p)) →
  map_Forall (λ _, schedule_ok) m → map_Forall (λ _, schedule_ok) (alter f id m).
Proof.
  intros Hf Hm i p. destruct (decide (i = id)) as [->|Hne].
  - rewrite lookup_alter_eq. intros (q & Hq & ->)%fmap_Some. by eapply Hf, Hm.
  - rewrite lookup_alter_ne by done. apply Hm.
Qed.

Lemma put_policy_le org service p i : keeps flash_le (put_flash_backup_policy org service p i).
Proof.
  intros db row db' Hrun. unfold put_flash_backup_policy in Hrun. op_inv Hrun.
  apply policies_le. intros Hm. apply map_Forall_insert_2; [|done].
  unfold schedule_ok, schedule_row. destruct (schedule_rows _ !! _); simpl; unfold in_range in *; lia.
Qed.

Lemma run_now_le org id : keeps flash_le (run_flash_backup_policy_now org id).
Proof.
  intros db u db' Hrun. unfold run_flash_backup_policy_now in Hrun. op_inv Hrun.
  apply policies_le. by apply alter_schedule_ok.
Qed.

Lemma due_row db e : e ∈ due_policies db → schedule_rows db !! fst e = Some (snd e) ∧ due (fst e) (snd e) db = true.
Proof.
  unfold due_policies. intros Hin%elem_of_take. destruct Hin as (i & Hin & _). apply list_elem_of_lookup_2 in Hin.
  rewrite merge_sort_Permutation in Hin. apply list_elem_of_filter in Hin as [Hdue Hin].
  destruct e. by apply elem_of_map_to_list in Hin.
Qed.

Lemma foldr_insert_Forall {A} (P : A → Prop) (l : list (Uuid * A)) (m : gmap Uuid A) :
  (∀ e, e ∈ l → P (snd e)) → map_Forall (λ _, P) m →
  map_Forall (λ _, P) (foldr (λ e m, <[fst e := snd e]> m) m l).
Proof.
  intros Hl Hm. induction l as [|e l IH]; [done|]. simpl. apply map_Forall_insert_2; [apply Hl; left|].
  apply IH. intros. apply Hl. by right.
Qed.

Lemma claim_le : keeps flash_le claim_backup_policies.
Proof.
  intros db x db' Hrun. unfold claim_backup_policies in Hrun. op_inv Hrun. apply policies_le. intros Hm.
  apply foldr_insert_Forall; [|done]. intros e (e0 & -> & Hin)%list_elem_of_fmap. apply due_row in Hin as [Hrow _].
  by apply (Hm _ _ Hrow).
Qed.

Lemma finish_le id p b e : keeps flash_le (finish_backup_policy id p b e).
Proof.
  intros db x db' Hrun. unfold finish_backup_policy in Hrun. op_inv Hrun. apply policies_le.
  apply alter_schedule_ok. intros q Hq. by destruct (still_claimed p q).
Qed.

(** ** Operations on backups *)

Lemma alter_backup_le id p f :
  (∀ t b, p b = true → backup_le b (f t b)) → (∀ t b, p b = true → backup_ok b → backup_ok (f t b)) →
  keeps flash_le (alter_backup id p f).
Proof.
  intros Hle Hok. apply keeps_statement. intros db. apply backups_le.
  - apply (stays_alter _). intros b _. destruct (p b) eqn:E; [by apply Hle | done].
  - intros Hwf. apply alter_backups_wf; [done|]. intros b _ Hb. destruct (p b) eqn:E; [auto | done].
Qed.

Lemma attach_le id p b : keeps flash_le (attach_scheduled_backup id p b).
Proof. by apply alter_backup_le. Qed.

Lemma release_le id : keeps flash_le (release_flash_backup id).
Proof.
  apply alter_backup_le.
  - intros t b _. constructor; try done. simpl. by intros [u ->].
  - intros t b _ (Hv & _ & _). split_and!; simpl; [done | | done]. split; [|done]. intros _. by destruct (deleted_at b).
Qed.

Lemma request_delete_le t b : backup_le b (request_delete t b).
Proof. by constructor. Qed.

Lemma request_delete_ok t b : deleted_at b = None → backup_ok b → backup_ok (request_delete t b).
Proof.
  intros Hd (Hv & _ & _). split_and!; simpl; [done | | done]. rewrite Hd. split; [discriminate | by intros []].
Qed.

Lemma foldr_alter_stays t ids (m : gmap Uuid BackupRow) :
  stays backup_le m (foldr (λ id m, alter (request_delete t) id m) m ids).
Proof.
  induction ids as [|id ids IH]; simpl; [by apply stays_refl, _|].
  eapply (stays_trans _); [done|]. apply (stays_alter _). intros. apply request_delete_le.
Qed.

Lemma foldr_alter_deleted t ids (m : gmap Uuid BackupRow) :
  (∀ id b, id ∈ ids → m !! id = Some b → deleted_at b = None) → backups_wf m →
  let m' := foldr (λ id m, alter (request_delete t) id m) m ids in
  backups_wf m' ∧ (∀ id b', m' !! id = Some b' → ∃ b, m !! id = Some b ∧ deleted_at b' = deleted_at b).
Proof.
  intros Hd Hwf. induction ids as [|id ids IH]; simpl; [by eauto|].
  destruct IH as (Hw & Hk); [intros; apply Hd with id0; [by right | done]|].
  set (m1 := foldr _ m ids) in *. split.
  - apply alter_backups_wf; [auto|]. intros b1 Hb1 Hok. split; [apply request_delete_le|].
    apply request_delete_ok; [|done]. destruct (Hk _ _ Hb1) as (b & Hb & ->). eapply Hd; [by left | done].
  - intros i b'. destruct (decide (i = id)) as [->|Hne].
    + rewrite lookup_alter_eq. intros (b1 & Hb1 & ->)%fmap_Some. simpl. by apply Hk.
    + rewrite lookup_alter_ne by done. apply Hk.
Qed.

Lemma not_deleted_phase b : backup_ok b → backup_phase b ≠ "deleted" → deleted_at b = None.
Proof. intros (_ & Hd & _) Hp. destruct (deleted_at b) eqn:E; [|done]. destruct Hp. by apply Hd. Qed.

Lemma expired_row id service p db :
  id ∈ expired_backups service p db → ∃ b, backup_rows db !! id = Some b ∧ retained service p b = true.
Proof.
  unfold expired_backups. intros ([i b] & -> & Hin)%list_elem_of_fmap.
  apply list_elem_of_lookup in Hin as [n Hn]. rewrite lookup_drop in Hn. apply list_elem_of_lookup_2 in Hn.
  rewrite merge_sort_Permutation in Hn. apply list_elem_of_filter in Hn as [Hr Hin%elem_of_map_to_list]. eauto.
Qed.

Lemma retained_ready service p b : retained service p b = true → backup_phase b = "ready".
Proof.
  unfold retained. rewrite !andb_true_iff. intros [[[[_ Hp] _] _] _]. by apply String.eqb_eq.
Qed.

Lemma expire_le id p : keeps flash_le (expire_scheduled_backups id p).
Proof.
  intros db u db' Hrun. unfold expire_scheduled_backups in Hrun. op_inv Hrun.
  apply backups_le; [apply foldr_alter_stays|]. intros Hwf. apply foldr_alter_deleted; [|done].
  intros i b Hin Hb. apply expired_row in Hin as (b0 & Hb0 & Hr). simplify_eq.
  apply not_deleted_phase; [by eapply bw_rows|]. unfold backup_rows in *. apply retained_ready in Hr. simplify_eq. by rewrite Hr.
Qed.

Lemma flash_backup_ok org id db b :
  flash_backup org id db = Ok b ↔
  backup_rows db !! id = Some b ∧ backup_organization_id b = org ∧ backup_phase b ≠ "deleted".
Proof.
  unfold flash_backup. rewrite ok_or_ok. destruct (backup_rows db !! id) as [c|]; simpl; [|naive_solver].
  destruct (String.eqb_spec (backup_phase c) "deleted"); destruct (bool_decide_reflect (backup_organization_id c = org));
    simpl; naive_solver.
Qed.

Lemma delete_backup_le org id : keeps flash_le (request_flash_backup_delete org id).
Proof.
  intros db b' db' Hrun. unfold request_flash_backup_delete in Hrun. op_inv Hrun. apply backups_le.
  - apply (stays_alter _). intros b _. apply request_delete_le.
  - intros Hwf. apply alter_backups_wf; [done|]. intros b Hb Hok. split; [apply request_delete_le|].
    apply request_delete_ok; [|done]. apply not_deleted_phase; [done|].
    match goal with Hr : _ = Ok _ |- _ => apply flash_backup_ok in Hr as (Hb0 & _ & Hp) end.
    unfold backup_rows in *. by simplify_eq.
Qed.

Lemma update_status_le id phase st db x db' :
  (phase = "deleted" → ∃ b, backup_rows db !! id = Some b ∧ is_Some (deleted_at b)) →
  update_flash_backup_status id phase st db = Ok (x, db') → flash_le db db'.
Proof.
  intros Hph Hrun. unfold update_flash_backup_status in Hrun. op_inv Hrun. apply backups_le.
  - apply (stays_alter _). by intros b _.
  - intros Hwf. apply alter_backups_wf; [done|]. intros b Hb (Hv & Hd & Hq). split; [done|].
    split_and!; [done | |done]. simpl. destruct (deleted_at b) eqn:E; simpl; [by split; eauto|].
    split; [|by intros []]. destruct (delete_requested b); [done|]. intros ->.
    destruct Hph as (b0 & Hb0 & [u Hu]); [done|]. unfold backup_rows in *. simplify_eq.
Qed.

(** The quota check, as the bounds it stands for. *)
Lemma quota_check org service bytes used db :
  ok_or Sql (i64_checked_add (backup_bytes (counted_backups org db)) 0) = Ok used →
  (MAX_BACKUPS <=? Z.of_nat (size (counted_backups org db)))
  || (MAX_SERVICE_BACKUPS <=? Z.of_nat (size (filter (λ e, backup_service (snd e) = service) (counted_backups org db))))
  || match i64_checked_add used bytes with Some n => MAX_BACKUP_BYTES <? n | None => true end = false →
  let u := charged org (backup_rows db) in
  Z.of_nat (size u) < MAX_BACKUPS ∧ Z.of_nat (size (filter (λ e, fst (snd e) = service) u)) < MAX_SERVICE_BACKUPS ∧
  stored u + bytes ≤ MAX_BACKUP_BYTES.
Proof.
  rewrite ok_or_ok, counted_bytes, counted_charged, counted_service. unfold i64_checked_add.
  intros Hu. repeat case_match; simplify_eq; rewrite ?orb_true_r; try discriminate. intros. lia.
Qed.

Lemma new_backup_le org service p request name bytes uid image g d :
  keeps flash_le (request_flash_backup_to org service p request name bytes uid image g d).
Proof.
  intros db x db' Hrun. unfold request_flash_backup_to in Hrun. op_inv Hrun.
  destruct (backup_by_request org request db) as [e|] eqn:Enone; op_inv Hrun; [done|].
  set (db1 := set_next_uuid _ db) in *.
  match goal with Hr : negb _ && _ = true |- _ => apply andb_prop in Hr as [Hid%is_some_false _] end.
  match goal with Hq : _ || match _ with _ => _ end = false |- _ => eapply quota_check in Hq as (Q1 & Q2 & Q3); [|done] end.
  etrans; [|apply backups_le]; [by apply flash_le_quiet | by apply (stays_insert _)|].
  intros Hwf. apply insert_backups_wf; simpl; try done.
  - split_and!; simpl; [lia | | done]. split; [done | by intros []].
  - intros j c Hc [= Ho Hr]. unfold backup_by_request in Enone. rewrite find_row_none in Enone. apply Enone in Hc. by rewrite !bool_decide_eq_true_2 in Hc.
Qed.

Lemma restore_le org p request b project name : keeps flash_le (reserve_flash_restore org p request b project name).
Proof.
  intros db x db' Hrun. unfold reserve_flash_restore in Hrun. op_inv Hrun.
  destruct (restore_rows db !! (org, p, request)) as [r|] eqn:Enone; op_inv Hrun; [done|].
  constructor; simpl; [done | apply stays_refl, _ | by apply insert_subseteq | by intros []].
Qed.

(** ** Operations on destinations and domains *)

Lemma refresh_destination_le org id t ready : keeps flash_le (refresh_flash_backup_destination org id t ready).
Proof.
  apply keeps_statement. intros db. apply destinations_shrink_le, (shrinks_alter _).
  intros d. by destruct (_ && _).
Qed.

Lemma destination_state_le org id ready : keeps flash_le (update_flash_backup_destination_state org id ready).
Proof.
  intros db x db' Hrun. unfold update_flash_backup_destination_state in Hrun. op_inv Hrun.
  by apply destinations_shrink_le, (shrinks_alter _).
Qed.

Lemma destination_le org p i : keeps flash_le (reserve_flash_backup_destination org p i).
Proof.
  intros db x db' Hrun. unfold reserve_flash_backup_destination in Hrun. op_inv Hrun.
  destruct (find_row _ _) as [e|] eqn:Enone; op_inv Hrun; [done|].
  set (db1 := set_next_uuid _ db) in *.
  match goal with Hr : _ && _ && _ = true |- _ => apply andb_prop in Hr as [[Hid%is_some_false _]%andb_prop _] end.
  match goal with Hr : exists_row _ _ = false |- _ => rewrite exists_row_false in Hr; rename Hr into Hname end.
  etrans; [|apply destinations_le]; [by apply flash_le_quiet|]. intros [_ _ _ _ _ Hg Hp Hr _ _ _ _]. split_and!.
  - apply grouped_insert; [done | simpl | done]. unfold destination_rows in *. simpl. lia.
  - apply unique_insert; [done|]. simpl. intros j c Hc _ [= Ho Hn].
    enough ((destination_name c =? new_destination_name i)%string = false) as Hf
      by (rewrite Hn, String.eqb_refl in Hf; done).
    eapply Hname. by apply map_lookup_filter_Some.
  - apply unique_insert; [done|]. simpl. intros j c Hc _ [= Ho Hq].
    rewrite find_row_none in Enone. apply Enone in Hc. by rewrite !bool_decide_eq_true_2 in Hc.
Qed.

Lemma domain_op_le (f : Db → gmap Uuid DomainRow → gmap Uuid DomainRow) :
  (∀ db m, shrinks domain_le m (f db m)) → keeps flash_le (on_domains f).
Proof. intros Hf. apply keeps_statement. intros db. by apply domains_shrink_le. Qed.

Lemma domain_delete_le org service id : keeps flash_le (request_flash_domain_delete org service id).
Proof.
  unfold request_flash_domain_delete. frame. apply domain_op_le. intros. by apply (shrinks_alter _).
Qed.

Lemma domain_attempted_le id : keeps flash_le (mark_flash_domain_attempted id).
Proof. apply domain_op_le. intros. by apply (shrinks_alter _). Qed.

Lemma domain_synced_le id : keeps flash_le (mark_flash_domain_synced id).
Proof. apply domain_op_le. intros. apply (shrinks_alter _). intros d. by destruct (domain_delete_requested d). Qed.

Lemma domain_release_le id : keeps flash_le (release_flash_domain id).
Proof. apply domain_op_le. intros. by apply (shrinks_filter _). Qed.

Lemma reserve_domain_le `{UuidText, SqlText} org service p host : keeps flash_le (reserve_flash_domain org service p host).
Proof.
  intros db x db' Hrun. unfold reserve_flash_domain in Hrun. op_inv Hrun.
  destruct (find_row _ _) as [e|] eqn:Enone; op_inv Hrun; [done|].
  set (db1 := set_next_uuid _ (set_next_uuid _ db)) in *.
  match goal with Hr : _ && _ && _ = true |- _ => apply andb_prop in Hr as [[Hid%is_some_false _]%andb_prop _] end.
  etrans; [|apply domains_le]; [by apply flash_le_quiet|].
  intros [_ _ Hn Hg Hu _ _ _ _ _ _ _]. unfold domain_rows in *. simpl in *. split_and!.
  - rewrite map_size_insert_None by done. lia.
  - apply grouped_insert; [done | simpl; lia | done].
  - apply unique_insert; [done|]. simpl. intros j c Hc _ Hh.
    rewrite find_row_none in Enone. apply Enone in Hc. by rewrite Hh, String.eqb_refl in Hc.
Qed.

(** ** Operations on SSH keys *)

Lemma filter_size_mono {A} `{Countable A} (P : A → Prop) `{∀ x, Decision (P x)} (X Y : gset A) :
  X ⊆ Y → (size (filter P X) ≤ size (filter P Y))%nat.
Proof. intros Hs. apply subseteq_size. set_solver. Qed.

Lemma ssh_le k b db :
  (tables_wf (flash db) →
     grouped (λ k, (ssh_organization k, ssh_user k)) MAX_KEYS_PER_USER k ∧
     unique (λ k, (ssh_organization k, fingerprint k)) k ∧
     (∀ org service key, (org, service, key) ∈ b → ∃ r, k !! key = Some r ∧ ssh_organization r = org) ∧
     ∀ org service, Z.of_nat (size (filter (λ b, fst b = (org, service)) b)) ≤ MAX_BINDINGS_PER_SERVICE) →
  flash_le db (set_flash (set_ssh_bindings b (set_ssh_keys k (flash db))) db).
Proof. intros Hm. apply flash_le_same; [done.. |]. intros Hw. destruct (Hm Hw) as (? & ? & ? & ?), Hw. by constructor. Qed.

Lemma keys_le id r db :
  ssh_key_rows db !! id = None →
  (tables_wf (flash db) →
     grouped (λ k, (ssh_organization k, ssh_user k)) MAX_KEYS_PER_USER (<[id := r]> (ssh_key_rows db)) ∧
     unique (λ k, (ssh_organization k, fingerprint k)) (<[id := r]> (ssh_key_rows db))) →
  flash_le db (set_flash (set_ssh_keys (<[id := r]> (flash_ssh_keys (flash db))) (flash db)) db).
Proof.
  intros Hid Hm. apply flash_le_same; [done.. |]. intros Hw. destruct (Hm Hw) as (? & ?), Hw.
  constructor; try done. simpl. intros org s key (k & Hk & Ho)%fw_bound0. exists k. split; [|done].
  unfold ssh_key_rows in Hid. rewrite lookup_insert_ne; congruence.
Qed.

Lemma bindings_le b db :
  (tables_wf (flash db) → (∀ org service key, (org, service, key) ∈ b → ∃ r, ssh_key_rows db !! key = Some r ∧ ssh_organization r = org) ∧
     ∀ org service, Z.of_nat (size (filter (λ b, fst b = (org, service)) b)) ≤ MAX_BINDINGS_PER_SERVICE) →
  flash_le db (set_flash (set_ssh_bindings b (flash db)) db).
Proof. intros Hm. apply flash_le_same; [done.. |]. intros Hw. destruct (Hm Hw) as (? & ?), Hw. by constructor. Qed.

Lemma bindings_shrink_le b db :
  b ⊆ ssh_binding_rows db → flash_le db (set_flash (set_ssh_bindings b (flash db)) db).
Proof.
  intros Hs. apply bindings_le. intros [_ _ _ _ _ _ _ _ _ _ Hb Hn]. split; [by eauto|]. intros org service.
  etrans; [|apply (Hn org service)]. by apply Nat2Z.inj_le, filter_size_mono.
Qed.

Lemma create_key_le org user name key print github : keeps flash_le (create_flash_ssh_key org user name key print github).
Proof.
  intros db x db' Hrun. unfold create_flash_ssh_key in Hrun. op_inv Hrun.
  set (db1 := set_next_uuid _ db) in *.
  match goal with Hr : is_some _ || _ = false |- _ => apply orb_false_elim in Hr as [Hid Hprint] end.
  rewrite exists_row_false in Hprint. assert (Hnone : ssh_key_rows db1 !! next_uuid db = None) by (by apply is_some_false; rewrite Hid).
  etrans; [by apply (flash_le_quiet db db1)|]. apply keys_le; [done|].
  intros [_ _ _ _ _ _ _ _ Hk Hp _ _]. split.
  - apply grouped_insert; [done | | done]. simpl.
    match goal with Hc : (MAX_KEYS_PER_USER <=? _) = false |- _ => apply Z.leb_gt in Hc; rename Hc into Hlt end.
    enough (Heq : filter (λ e, (ssh_organization (snd e), ssh_user (snd e)) = (org, user)) (ssh_key_rows db1)
      = filter (λ e, ssh_organization (snd e) = org ∧ ssh_user (snd e) = user) (ssh_key_rows db)) by (by rewrite Heq).
    apply map_filter_ext. intros i k _. simpl. naive_solver.
  - apply unique_insert; [done|]. intros j c Hc _ [= Ho Hf]. apply Hprint in Hc.
    by rewrite bool_decide_eq_true_2, Hf, String.eqb_refl in Hc.
Qed.

Lemma delete_key_le org user id : keeps flash_le (delete_flash_ssh_key org user id).
Proof.
  intros db x db' Hrun. unfold delete_flash_ssh_key in Hrun. op_inv Hrun. apply ssh_le.
  intros [_ _ _ _ _ _ _ _ Hk Hp Hb Hs].
  assert (Hsh : shrinks eq (flash_ssh_keys (flash db)) (delete id (flash_ssh_keys (flash db))))
    by (intros i a [_ Ha]%lookup_delete_Some; eauto).
  split_and!.
  - by eapply (grouped_shrinks _ eq); [|done..]; intros ?? ->.
  - by eapply (unique_shrinks _ eq); [|done..]; intros ?? ->.
  - intros * [Hne Hin]%elem_of_filter. destruct (Hb _ _ _ Hin) as (r & Hr & Ho). exists r. split; [|done].
    by rewrite lookup_delete_ne.
  - intros o s. etrans; [|apply (Hs o s)]. apply Nat2Z.inj_le, filter_size_mono. set_solver.
Qed.

Lemma bind_key_le org service key on : keeps flash_le (set_flash_service_ssh_key org service key on).
Proof.
  intros db x db' Hrun. unfold set_flash_service_ssh_key in Hrun. op_inv Hrun. destruct on; op_inv Hs.
  - apply bindings_le. intros [_ _ _ _ _ _ _ _ _ _ Hb Hn]. split.
    + intros o s i [[= -> -> ->]%elem_of_singleton|Hin]%elem_of_union; [|by eapply Hb].
      match goal with Hk : _ ≫= _ = Some _ |- _ =>
        apply bind_Some in Hk as (r & Hr & Ho) end.
      destruct (decide (ssh_organization r = org)) as [|Hno]; [by eauto|].
      by rewrite (bool_decide_eq_false_2 _ Hno) in Ho.
    + intros o s. destruct (decide ((org, service, key) ∈ ssh_binding_rows db)) as [Hin|Hnew].
      { rewrite subseteq_union_1_L; [apply Hn | set_solver]. }
      destruct (decide ((org, service) = (o, s))) as [[= <- <-]|Hne].
      * rewrite filter_union_L by apply _. rewrite filter_singleton_True_L by (done || apply _).
        rewrite size_union by (apply disjoint_singleton_l; by intros [_ ?]%elem_of_filter). rewrite size_singleton.
        match goal with Hm : negb _ && _ = false |- _ =>
          rewrite bool_decide_eq_false_2 in Hm by (by intros [_ ?]%elem_of_filter) end.
        unfold service_bindings, ssh_binding_rows in *. simpl in *. lia.
      * rewrite filter_union_L by apply _. rewrite filter_singleton_False_L, union_empty_l_L by (done || apply _). apply Hn.
  - apply bindings_shrink_le. unfold ssh_binding_rows. set_solver.
Qed.

(** ** Every operation *)

Lemma flash_request_le `{UuidText, SqlText} db db' : flash_request db db' → flash_le db db'.
Proof.
  destruct 1; [by eapply (on_revisions_le (λ _ f, alter set_rolled_back (id, g) (flash_service_revisions f))) | | | by eapply put_policy_le | by eapply run_now_le | by eapply claim_le
    | by eapply finish_le | by eapply attach_le | by eapply expire_le | by eapply new_backup_le
    | by eapply delete_backup_le | by eapply update_status_le | by eapply release_le | by eapply restore_le
    | by eapply destination_le | by eapply refresh_destination_le | by eapply destination_state_le
    | by eapply reserve_domain_le | by eapply domain_delete_le | by eapply domain_attempted_le
    | by eapply domain_synced_le | by eapply domain_release_le | by eapply create_key_le
    | by eapply delete_key_le | by eapply bind_key_le ].
  all: match goal with Hr : ?t _ = Ok _ |- _ => enough (Hk : keeps flash_le t) by (by eapply Hk) end.
  - apply upsert_notice_le.
  - unfold acknowledge_flash_event. frame. apply on_notices_le.
Qed.
