(* ===== verification/ApiFacts.v ===== *)
(** * Correctness of the handlers

    Every handler that changes the tables of IAM is mediated: it leaves nothing
    but its traces (audit records and times of use) unless the caller is
    authenticated and the policies stored for the account grant the action on
    the resource it is about.  Assuming a role needs in addition the trust of
    the role. *)
From S2P Require Import Prelude Text Json Net Policy Iam RoleTrust Quota Specs Store Usage Provider Prepare Services FlowAccess Cloud Identity Access IdentityCenter Authorize Outside Routes Lifecycle FlowFacts CloudFacts IdentityFacts AccessFacts.

(** ** Handlers as sequences *)

Lemma api_bind_ok {A B} (m : api A) (f : A → api B) db b db'' :
  (m ≫= f) db = (Ok b, db'') ↔ ∃ a db', m db = (Ok a, db') ∧ f a db' = (Ok b, db'').
Proof.
  unfold mbind, api_bind. destruct (m db) as [[a|e] db'].
  - split; [eauto|]. by intros (? & ? & [= <- <-] & ?).
  - split; [done|]. by intros (? & ? & [= ] & _).
Qed.

Lemma api_mret_ok {A} (x : A) db a db' : (mret x : api A) db = (Ok a, db') ↔ a = x ∧ db' = db.
Proof. split; [by intros [= <- <-] | by intros [-> ->]]. Qed.
Lemma check_ok b e db u db' : check b e db = (Ok u, db') ↔ b = true ∧ db' = db.
Proof. destruct b, u; simpl; split; [by intros [= <-] | by intros [_ ->] | done | by intros [? _]]. Qed.
Lemma from_result_ok {A} (m : result ApiError A) db a db' : from_result m db = (Ok a, db') ↔ m = Ok a ∧ db' = db.
Proof. unfold from_result. split; [by intros [= <- <-] | by intros [-> ->]]. Qed.
Lemma some_or_ok {A} e (o : option A) db a db' : some_or e o db = (Ok a, db') ↔ o = Some a ∧ db' = db.
Proof. unfold some_or. by rewrite from_result_ok, ok_or_ok. Qed.
Lemma ask_ok {A} (f : Db → A) db a db' : ask f db = (Ok a, db') ↔ a = f db ∧ db' = db.
Proof. unfold ask. split; [by intros [= <- <-] | by intros [-> ->]]. Qed.
Lemma fetch_ok {A} (f : Db → result StoreError A) db a db' : fetch f db = (Ok a, db') ↔ f db = Ok a ∧ db' = db.
Proof.
  unfold fetch. split; [|by intros [-> ->]]. intros [= H1 <-]. by apply map_err_ok in H1.
Qed.
Lemma run_ok {A} (t : tx A) db a db' : run t db = (Ok a, db') ↔ t db = Ok (a, db').
Proof. unfold run. destruct (t db) as [[? ?]|]; split; by intros [= <- <-] || done. Qed.
Lemma exec_ok {A} (f : Db → result StoreError A * Db) db a db' : exec f db = (Ok a, db') ↔ f db = (Ok a, db').
Proof.
  unfold exec. destruct (f db) as [m db1]. split; [|by intros [= -> <-]].
  intros [= Hm <-]. apply map_err_ok in Hm. by subst.
Qed.

(** Take a successful handler apart, call by call. *)
Ltac api_step H :=
  lazymatch type of H with
  | mbind _ _ _ = (Ok _, _) =>
      apply api_bind_ok in H;
      let a := fresh "x" in let d := fresh "db" in let H1 := fresh "Hs" in
      destruct H as (a & d & H1 & H); api_step H1
  | mret _ _ = _ => apply api_mret_ok in H; destruct H as [? ->]
  | check _ _ _ = _ => apply check_ok in H; destruct H as [? ->]
  | from_result _ _ = _ => apply from_result_ok in H; destruct H as [? ->]
  | some_or _ _ _ = _ => apply some_or_ok in H; destruct H as [? ->]
  | ask _ _ = _ => apply ask_ok in H; destruct H as [? ->]
  | fetch _ _ = _ => apply fetch_ok in H; destruct H as [? ->]
  | run _ _ = _ => apply run_ok in H
  | exec _ _ = _ => apply exec_ok in H
  | api_fail _ _ = _ => discriminate H
  | _ => idtac
  end.
Ltac api_inv H := repeat (progress (api_step H)).

(** ** Traces *)

(** A database without times of use, audit records and the next identifier. *)
Definition erase_key (k : ApiKeyRow) : ApiKeyRow :=
  Build_ApiKeyRow (key_organization k) (key_principal k) (key_name k) (key_prefix k) (key_secret_hash k)
    (key_expires_at k) None (key_revoked_at k).
Definition erase_session (s : SessionRow) : SessionRow := touch_session 0 s.
Definition erase_token (t : CliTokenRow) : CliTokenRow := touch_token 0 t.

Definition erase_identity (i : IdentityTables) : IdentityTables :=
  set_sessions (erase_session <$> sessions i) (set_tokens (erase_token <$> cli_access_tokens i) i).
Definition erase_access (a : AccessTables) : AccessTables := set_api_keys (erase_key <$> api_keys a) a.

Definition erase (db : Db) : Db :=
  set_audit [] (set_next_uuid 0%N
    (set_identity (erase_identity (identity db)) (set_access (erase_access (access db)) db))).

Lemma erase_set_identity i db :
  erase_identity i = erase_identity (identity db) → erase (set_identity i db) = erase db.
Proof.
  intros Hi. transitivity (set_audit [] (set_next_uuid 0%N
    (set_identity (erase_identity i) (set_access (erase_access (access db)) db)))); [done|]. by rewrite Hi.
Qed.
Lemma erase_set_access a db : erase_access a = erase_access (access db) → erase (set_access a db) = erase db.
Proof.
  intros Ha. transitivity (set_audit [] (set_next_uuid 0%N
    (set_identity (erase_identity (identity db)) (set_access (erase_access a) db)))); [done|]. by rewrite Ha.
Qed.

Record trace_only (db db' : Db) : Prop := {
  trace_erase : erase db' = erase db;
  trace_uuid : (next_uuid db ≤ next_uuid db')%N;
  trace_audit : audit_events db `prefix_of` audit_events db';
}.

#[export] Instance trace_only_preorder : PreOrder trace_only.
Proof.
  split; [by constructor|]. intros a b c [] []. constructor; [congruence | lia | by etrans].
Qed.

Definition quiet {A} (m : api A) : Prop := ∀ db x db', m db = (x, db') → trace_only db db'.

Lemma quiet_bind {A B} (m : api A) (f : A → api B) : quiet m → (∀ a, quiet (f a)) → quiet (m ≫= f).
Proof.
  intros Hm Hf db x db'. unfold mbind, api_bind. destruct (m db) as [[a|e] db1] eqn:E; apply Hm in E.
  - intros H1%Hf. by etrans.
  - by intros [= _ <-].
Qed.
Lemma quiet_same {A} (m : api A) : (∀ db, snd (m db) = db) → quiet m.
Proof. intros Hm db x db' E. specialize (Hm db). rewrite E in Hm. by simpl in Hm; subst. Qed.
Lemma quiet_check b e : quiet (check b e).
Proof. by destruct b; apply quiet_same. Qed.
Lemma quiet_run {A} (t : tx A) : keeps trace_only t → quiet (run t).
Proof.
  intros Ht db x db'. unfold run. destruct (t db) as [[a db1]|e] eqn:E; intros [= _ <-]; [by eapply Ht | done].
Qed.

Lemma now_v7_trace : keeps trace_only now_v7.
Proof. apply keeps_now_v7. intros db. constructor; simpl; [done | lia | done]. Qed.
Lemma append_audit_trace row : keeps trace_only (append_audit row).
Proof. intros db u db' ->%append_audit_ok. constructor; simpl; [done | done | by apply prefix_app_r]. Qed.

Lemma fmap_alter_same {A B} (g : A → B) (f : A → A) id (m : gmap Uuid A) :
  (∀ a, g (f a) = g a) → g <$> alter f id m = g <$> m.
Proof.
  intros Hg. apply map_eq. intros i. rewrite !lookup_fmap. destruct (decide (i = id)) as [->|Hne].
  - rewrite lookup_alter_eq. by destruct (m !! id); simpl; rewrite ?Hg.
  - by rewrite lookup_alter_ne.
Qed.

(** Times of use. *)
Lemma touch_session_trace db id s :
  session_rows db !! id = Some s →
  trace_only db (set_identity (set_sessions (<[id := touch_session (now db) s]> (session_rows db)) (identity db)) db).
Proof.
  intros Hs. constructor; [|done..]. apply erase_set_identity. unfold erase_identity, set_sessions. simpl. f_equal.
  rewrite (insert_as_alter (touch_session (now db)) _ _ _ Hs). by apply fmap_alter_same.
Qed.
Lemma touch_token_trace db id t :
  token_rows db !! id = Some t →
  trace_only db (set_identity (set_tokens (<[id := touch_token (now db) t]> (token_rows db)) (identity db)) db).
Proof.
  intros Ht. constructor; [|done..]. apply erase_set_identity. unfold erase_identity, set_tokens. simpl. f_equal. f_equal.
  rewrite (insert_as_alter (touch_token (now db)) _ _ _ Ht). by apply fmap_alter_same.
Qed.
Lemma touch_key_trace id : keeps trace_only (on_access (λ db a, set_api_keys (alter (touch_key (now db)) id (api_keys a)) a)).
Proof.
  apply keeps_statement. intros db. constructor; [|done..]. apply erase_set_access.
  unfold erase_access, set_api_keys. simpl. f_equal. by apply fmap_alter_same.
Qed.

Ltac quiet_step :=
  lazymatch goal with
  | |- quiet (mbind _ _) => apply quiet_bind; [|intros ?]
  | |- quiet (check _ _) => apply quiet_check
  | |- quiet (mret _) => by apply quiet_same
  | |- quiet (from_result _) => by apply quiet_same
  | |- quiet (some_or _ _) => by apply quiet_same
  | |- quiet (ask _) => by apply quiet_same
  | |- quiet (fetch _) => by apply quiet_same
  | |- quiet (api_fail _) => by apply quiet_same
  | |- quiet (run now_v7) => apply quiet_run, now_v7_trace
  | |- quiet (run (append_audit _)) => apply quiet_run, append_audit_trace
  | |- quiet (if ?b then _ else _) => destruct b
  | |- quiet (match ?x with _ => _ end) => destruct x
  | |- quiet (let _ := _ in _) => cbv zeta
  end.
Ltac quiet_frame := repeat quiet_step.

Section Mediation.
Context `{WebLib, SqlText, SqlCollation, UuidText, Chrono, JsonText}.
Context `{Serde PolicyDocument, Serde AwsPolicy, Serde RoleTrustDocument}.
Context (config : RuntimeConfig).

(** A call that changes nothing. *)
Definition still {A} (m : api A) : Prop := ∀ db x db', m db = (x, db') → db' = db.

Lemma bind_cases {A B} (m : api A) (f : A → api B) db x db' :
  (m ≫= f) db = (x, db') →
  (∃ e, m db = (Err e, db') ∧ x = Err e) ∨ ∃ a db1, m db = (Ok a, db1) ∧ f a db1 = (x, db').
Proof. unfold mbind, api_bind. destruct (m db) as [[a|e] db1]; [by eauto|]. intros [= <- <-]. eauto. Qed.
Lemma still_bind {A B} (m : api A) (f : A → api B) : still m → (∀ a, still (f a)) → still (m ≫= f).
Proof. intros Hm Hf db x db' [(e & ->%Hm & _)|(a & db1 & ->%Hm & ->%Hf)]%bind_cases; done. Qed.
Lemma still_same {A} (m : api A) : (∀ db, snd (m db) = db) → still m.
Proof. intros Hm db x db' E. specialize (Hm db). by rewrite E in Hm. Qed.
Lemma still_check b e : still (check b e).
Proof. by destruct b; apply still_same. Qed.

(** ** Authentication leaves traces only *)

Lemma session_lookup_quiet hash : quiet (exec (session_user_by_token_hash hash)).
Proof.
  intros db x db'. unfold exec, session_user_by_token_hash, session_by_token.
  destruct (find_row _ _) as [[id s]|] eqn:E; simpl; [|by intros [= _ <-]].
  apply find_row_some in E as [Hs _]. destruct (_ && _); simpl; intros [= _ <-]; [by apply touch_session_trace | done].
Qed.
Lemma token_lookup_quiet prefix hash : quiet (exec (authenticate_cli_access_token prefix hash)).
Proof.
  intros db x db'. unfold exec, authenticate_cli_access_token, cli_token_by_secret.
  destruct (find_row _ _) as [[id t]|] eqn:E; simpl; [|by intros [= _ <-]].
  apply find_row_some in E as [Ht _]. destruct (token_usable _ _); simpl; intros [= _ <-]; [by apply touch_token_trace | done].
Qed.
Lemma key_lookup_quiet prefix hash : quiet (run (authenticate_api_key prefix hash)).
Proof.
  apply quiet_run. unfold authenticate_api_key. frame. apply touch_key_trace.
Qed.

Lemma authenticated_session_quiet r : quiet (authenticated_session config r).
Proof. unfold authenticated_session. quiet_frame. apply session_lookup_quiet. Qed.
Lemma authenticated_mutation_quiet r : quiet (authenticated_mutation config r).
Proof. unfold authenticated_mutation. quiet_frame. apply authenticated_session_quiet. Qed.
Lemma authenticated_actor_quiet r : quiet (authenticated_actor config r).
Proof.
  unfold authenticated_actor, bearer_actor, authenticated_cli_access_token_value.
  quiet_frame; auto using authenticated_session_quiet, token_lookup_quiet, key_lookup_quiet.
Qed.
Lemma authenticated_actor_mutation_quiet r : quiet (authenticated_actor_mutation config r).
Proof. unfold authenticated_actor_mutation. quiet_frame. apply authenticated_actor_quiet. Qed.

Lemma actor_context_quiet actor org : quiet (actor_context actor org).
Proof. unfold actor_context. quiet_frame. Qed.
Lemma record_decision_quiet org context user act res metadata e :
  quiet (record_decision org context user act res metadata e).
Proof. unfold record_decision. quiet_frame. Qed.
Lemma authorize_actor_quiet actor org act res implicit :
  quiet (authorize_actor_with_implicit_allow actor org act res implicit).
Proof.
  unfold authorize_actor_with_implicit_allow, evaluate_account.
  quiet_frame; auto using actor_context_quiet, record_decision_quiet.
Qed.

(** ** Grants *)

(** The stored context of an actor in an account: of the user, or of the
    principal of a credential of that account. *)
Definition stored_context (actor : AuthenticatedActor) (org : OrganizationId) (db : Db)
    (context : AuthorizationContext) : Prop :=
  match actor with
  | ActorUser s => authorization_context (session_user_id_of s) org db = Ok (Some context)
  | ActorCliToken t => cli_token_organization t = org ∧
      authorization_context (token_user_id t) org db = Ok (Some context)
  | ActorRoleSession s _ => session_organization s = org ∧
      authorization_context_for_principal (session_principal s) org db = Ok (Some context)
  | ActorWorkload w => workload_organization w = org ∧
      authorization_context_for_principal (workload_principal w) org db = Ok (Some context)
  | ActorApiKey k => api_key_organization k = org ∧
      authorization_context_for_principal (api_key_principal k) org db = Ok (Some context)
  end.

(** The policies of the account grant an action on a resource: those of the
    actor allow it (or the actor administers the account, or may do it for
    itself), and no layer refuses it. *)
Definition granted (actor : AuthenticatedActor) (org : OrganizationId) (act res : string) (implicit : bool)
    (db : Db) (context : AuthorizationContext) : Prop :=
  let request := Build_AuthorizationRequest org org act res (now db * NANOS_PER_SECOND) in
  stored_context actor org db context ∧
  ∃ levels, service_control_levels org db = Ok levels ∧
    (has_effect request Allow (policies context) ∨ implicit = true ∨ is_administrator context = true) ∧
    ¬ has_effect request Deny (policies context) ∧
    (∀ b, permissions_boundary context = Some b → passes request [b]) ∧
    (∀ l, l ∈ levels → passes request l) ∧
    (∀ b, actor_session_policy actor = Some b → passes request [b]).

Lemma granted_erase actor org act res implicit db context :
  granted actor org act res implicit (erase db) context ↔ granted actor org act res implicit db context.
Proof. done. Qed.

Lemma granted_trace actor org act res implicit db db' context :
  trace_only db db' → granted actor org act res implicit db' context → granted actor org act res implicit db context.
Proof. intros [E _ _]. rewrite <- (granted_erase _ _ _ _ _ db), <- E. done. Qed.

Lemma actor_context_still actor org : still (actor_context actor org).
Proof.
  unfold actor_context. destruct actor; repeat first [apply still_check | apply still_bind; intros | by apply still_same].
Qed.
Lemma evaluate_account_still context org act res implicit at_ : still (evaluate_account context org act res implicit at_).
Proof. unfold evaluate_account. repeat first [apply still_bind; intros | by apply still_same]. Qed.

Lemma actor_context_ok actor org db context user metadata db' :
  actor_context actor org db = (Ok (context, user, metadata), db') → stored_context actor org db context ∧ db' = db.
Proof.
  unfold actor_context. destruct actor; intros Hrun; api_inv Hrun; simplify_eq; simpl;
    repeat match goal with Hb : bool_decide _ = true |- _ => apply bool_decide_true_iff in Hb end; auto.
Qed.

(** The evaluation of an actor's request in a state. *)
Definition evaluation_of (actor : AuthenticatedActor) (org : OrganizationId) (act res : string) (implicit : bool)
    (db : Db) (context : AuthorizationContext) (e : Evaluation) : Prop :=
  ∃ levels, service_control_levels org db = Ok levels ∧
    evaluate_actor context levels (actor_session_policy actor) org act res implicit (now db * NANOS_PER_SECOND) = Ok e.

Lemma evaluation_granted actor org act res implicit db context e :
  stored_context actor org db context → evaluation_of actor org act res implicit db context e →
  decision e = Decision.Allow → granted actor org act res implicit db context.
Proof.
  intros Hc (levels & Hl & He) Hd. split; [done|]. exists levels. split; [done|].
  destruct (proj1 (evaluate_actor_allows context levels (actor_session_policy actor) org act res implicit
    (now db * NANOS_PER_SECOND))) as (_ & Hi & Hno & Hb & Hlv & Hs); [by exists e|].
  split_and!; [done | done | | | ]; intros x Hx; [by apply Hb | by apply Hlv | by apply Hs].
Qed.

(** What a decision leaves behind. *)
Definition decided (org : OrganizationId) (act res : string) (d : Decision.t)
    (context : AuthorizationContext) (db db' : Db) : Prop :=
  ∃ row, audit_events db' = audit_events db ++ [row] ∧ audit_organization_id row = Some org ∧
    audit_principal_id row = Some (Iam.context_principal_id context) ∧
    audit_action row = act ∧ audit_resource row = res ∧ audit_decision row = decision_text d.

Lemma record_decision_outcome org context user act res metadata e db x db' :
  record_decision org context user act res metadata e db = (x, db') →
  (∃ err, x = Err err) ∧ audit_events db' = audit_events db ∨
  decided org act res (decision e) context db db' ∧
    x = match decision e with Decision.Allow => Ok context | Decision.Deny => Err Forbidden end.
Proof.
  unfold record_decision. intros Hrun.
  apply bind_cases in Hrun as [(err & [=] & _)|(id & db1 & [= _ <-] & Hrun)].
  apply bind_cases in Hrun as [(err & Ha & ->)|(u & db1 & Ha%run_ok%append_audit_ok & Hrun)].
  { left. split; [eauto|]. revert Ha. unfold run. destruct (append_audit _ _) as [[? ?]|]; by intros [= _ <-]. }
  right. subst db1. destruct (decision e);
    [rewrite bool_decide_true in Hrun by done | rewrite bool_decide_false in Hrun by done];
    injection Hrun as <- <-; (split; [by eexists | done]).
Qed.

Lemma authorize_outcome actor org act res implicit db x db' :
  authorize_actor_with_implicit_allow actor org act res implicit db = (x, db') →
  (∃ e, x = Err e) ∧ audit_events db' = audit_events db ∨
  ∃ context e, stored_context actor org db context ∧ evaluation_of actor org act res implicit db context e ∧
    decided org act res (decision e) context db db' ∧
    x = match decision e with Decision.Allow => Ok context | Decision.Deny => Err Forbidden end.
Proof.
  unfold authorize_actor_with_implicit_allow. intros Hrun.
  apply bind_cases in Hrun as [(e & Hc & ->)|([[context user] metadata] & db1 & Hc & Hrun)].
  { apply actor_context_still in Hc as ->. eauto. }
  apply actor_context_ok in Hc as [Hc ->].
  apply bind_cases in Hrun as [(e & [=] & _)|(t & db1 & [= <- <-] & Hrun)].
  apply bind_cases in Hrun as [(e & He & ->)|(e1 & db1 & He & Hrun)].
  { apply evaluate_account_still in He as ->. eauto. }
  unfold evaluate_account in He. api_inv He. simplify_eq.
  apply bind_cases in Hrun as [(e & [= _ ->] & ->)|(e & db1 & He & Hrun)]; [eauto|].
  api_inv He. repeat match goal with Hm : map_err _ _ = Ok _ |- _ => apply map_err_ok in Hm end.
  apply record_decision_outcome in Hrun as [[Hx ->%eq_sym]|[Hd ->]]; [by left|]. right.
  exists context, e. split_and!; [done | | done | done].
  eexists. split; [done|]. unfold evaluate_actor. apply bind_ok. eauto.
Qed.

(** ** Mediation *)

(** Nothing but traces, or a grant in the state the call began in. *)
Definition mediated {A} (actor : AuthenticatedActor) (org : OrganizationId) (act res : string) (implicit : bool)
    (m : api A) : Prop :=
  ∀ db x db', m db = (x, db') →
    trace_only db db' ∨ ∃ context, granted actor org act res implicit db context.

Lemma mediated_bind {A B} actor org act res implicit (m : api A) (f : A → api B) :
  quiet m → (∀ a, mediated actor org act res implicit (f a)) → mediated actor org act res implicit (m ≫= f).
Proof.
  intros Hm Hf db x db' [(e & Hq%Hm & _)|(a & db1 & Hq%Hm & Hrun)]%bind_cases; [by left|].
  destruct (Hf _ _ _ _ Hrun) as [Ht|[c Hg]]; [left; by etrans | right; eexists; by eapply granted_trace].
Qed.

(** Whatever comes after the authorization. *)
Lemma mediated_authorize {B} actor org act res implicit (f : AuthorizationContext → api B) :
  mediated actor org act res implicit (authorize_actor_with_implicit_allow actor org act res implicit ≫= f).
Proof.
  intros db x db' [(e & Hq%authorize_actor_quiet & _)|(a & db1 & Hq & Hrun)]%bind_cases; [by left|]. right.
  apply authorize_outcome in Hq as [[[e Hx] _]|(c & e & Hc & He & _ & Hx)]; [done|].
  exists c. eapply evaluation_granted; [done | done|]. by destruct (decision e).
Qed.

Lemma mediated_quiet {A} actor org act res implicit (m : api A) : quiet m → mediated actor org act res implicit m.
Proof. intros Hm db x db' Hq%Hm. by left. Qed.

Lemma mediated_forget {A} actor org act res implicit (m : api A) :
  mediated actor org act res implicit m → mediated actor org act res implicit (m ≫= λ _, mret ()).
Proof.
  intros Hm db x db' [(e & Hq & _)|(a & db1 & Hq & [= _ <-])]%bind_cases; by eapply Hm.
Qed.

Lemma require_service_control_quiet : quiet require_service_control_enabled.
Proof. unfold require_service_control_enabled. quiet_frame. Qed.
Lemma require_roles_quiet : quiet require_roles_enabled.
Proof. unfold require_roles_enabled. quiet_frame. Qed.
Lemma require_conditions_quiet d : quiet (require_policy_conditions_enabled d).
Proof. unfold require_policy_conditions_enabled. quiet_frame. Qed.
Lemma management_account_quiet account : quiet (management_account account).
Proof. unfold management_account. quiet_frame. Qed.
Lemma browser_switch_quiet actor b : quiet (browser_switch actor b).
Proof. unfold browser_switch. quiet_frame. Qed.

(** The authorization of the identity center, and whatever comes after it. *)
Lemma bind_assoc {A B C} (m : api A) (f : A → api B) (g : B → api C) db :
  ((m ≫= f) ≫= g) db = (m ≫= λ a, f a ≫= g) db.
Proof. unfold mbind, api_bind. by destruct (m db) as [[a|e] db1]. Qed.

Lemma mediated_ext {A} actor org act res implicit (m m' : api A) :
  (∀ db, m db = m' db) → mediated actor org act res implicit m' → mediated actor org act res implicit m.
Proof. intros He Hm db x db'. rewrite He. apply Hm. Qed.

Lemma mediated_management {B} actor account act suffix (f : () → api B) :
  mediated actor account act (organization_resource account suffix) false
    (require_management_at actor account act suffix ≫= f).
Proof.
  eapply mediated_ext; [intros db; unfold require_management_at; apply bind_assoc|].
  apply mediated_bind; [apply management_account_quiet | intros ?].
  eapply mediated_ext; [intros db; apply bind_assoc | apply mediated_authorize].
Qed.

Lemma mediated_human {B} actor account act suffix (f : UserId → api B) :
  mediated actor account act (organization_resource account suffix) true
    (require_human actor account act suffix ≫= f).
Proof.
  eapply mediated_ext; [intros db; unfold require_human; apply bind_assoc|].
  apply mediated_bind; [quiet_frame | intros ?].
  eapply mediated_ext; [intros db; apply bind_assoc|].
  apply mediated_bind; [apply management_account_quiet | intros ?].
  eapply mediated_ext; [intros db; apply bind_assoc | apply mediated_authorize].
Qed.

(** *** The calls *)

Inductive iam_call :=
| CallPolicy (name : string) (document : Value)
| CallBind (principal policy : Uuid)
| CallUnbind (binding : Uuid)
| CallBoundary (principal : Uuid) (policy : option Uuid)
| CallGroup (name : string)
| CallDeleteGroup (group : Uuid)
| CallGroupMember (group principal : Uuid) (add : bool)
| CallGroupPolicy (group policy : Uuid) (attach : bool)
| CallServiceAccount (name : string)
| CallEnable (principal : Uuid) (enable : bool)
| CallKey (principal : Uuid) (name : string) (days : option Z) (secret : string)
| CallRevokeKey (principal key : Uuid)
| CallRole (name : string) (trust : Value) (max_seconds : Z)
| CallTrust (principal : Uuid) (trust : Value)
| CallDeleteRole (principal : Uuid)
| CallEndSession (principal session : Uuid)
| CallAssume (input : AssumeIamRole) (secret : string)
| CallSet (name : string) (document : Value) (duration : Z)
| CallUpdateSet (set : Uuid) (document : Value) (duration : Z)
| CallDeleteSet (set : Uuid)
| CallCenterGroup (name : string)
| CallDeleteCenterGroup (group : Uuid)
| CallGroupUser (group user : Uuid) (add : bool)
| CallAssign (set account : Uuid) (ty : string) (subject : Uuid)
| CallUnassign (assignment : Uuid)
| CallStartSession (assignment : Uuid) (switch : bool) (secret : string).

Definition forget_answer {A} (m : api A) : api () := _ ← m; mret ().

Lemma inside_forget {Q A B} (m : api A) (g : A → api B) db :
  (inside (forget_answer (m ≫= g)) : outside Q ()) db = (inside m ≫= λ a, inside (g a ≫= λ _, mret ())) db.
Proof. unfold forget_answer. rewrite <- (inside_bind m (λ a, g a ≫= λ _, mret ())). unfold inside. by rewrite bind_assoc. Qed.

Definition serve (call : iam_call) (r : Request) (account : OrganizationId) : api () :=
  match call with
  | CallPolicy name document => forget_answer (post_policy config r account name document)
  | CallBind principal policy => forget_answer (post_binding config r account principal policy)
  | CallUnbind binding => delete_iam_binding config r account binding
  | CallBoundary principal (Some policy) => put_permissions_boundary config r account principal policy
  | CallBoundary principal None => delete_permissions_boundary config r account principal
  | CallGroup name => forget_answer (post_iam_group config r account name)
  | CallDeleteGroup group => remove_iam_group config r account group
  | CallGroupMember group principal add => put_iam_group_member config r account group principal add
  | CallGroupPolicy group policy attach => put_iam_group_policy config r account group policy attach
  | CallServiceAccount name => forget_answer (post_service_account config r account name)
  | CallEnable principal enable => put_service_account_enabled config r account principal enable
  | CallKey principal name days secret => forget_answer (post_api_key config r account principal name days secret)
  | CallRevokeKey principal key => delete_api_key config r account principal key
  | CallRole name trust max_seconds => forget_answer (post_iam_role config r account name trust max_seconds)
  | CallTrust principal trust => put_iam_role_trust config r account principal trust
  | CallDeleteRole principal => remove_iam_role config r account principal
  | CallEndSession principal session => end_iam_role_session config r account principal session
  | CallAssume input secret => forget_answer (assume_iam_role config r account input secret)
  | CallSet name document duration => forget_answer (post_permission_set config r account name document duration)
  | CallUpdateSet set document duration => put_permission_set config r account set document duration
  | CallDeleteSet set => remove_permission_set config r account set
  | CallCenterGroup name => forget_answer (post_center_group config r account name)
  | CallDeleteCenterGroup group => remove_center_group config r account group
  | CallGroupUser group user add => group_user config r account group user add
  | CallAssign set target ty subject => forget_answer (post_assignment config r account set target ty subject)
  | CallUnassign assignment => remove_assignment config r account assignment
  | CallStartSession assignment switch secret =>
      forget_answer (start_identity_center_session config r account assignment switch secret)
  end.

(** The permission a call needs. *)
Definition call_action (call : iam_call) : string :=
  match call with
  | CallPolicy _ _ => "iam:CreatePolicy"
  | CallBind _ _ => "iam:CreateBinding"
  | CallUnbind _ => "iam:DeleteBinding"
  | CallBoundary _ (Some _) => "iam:PutPermissionsBoundary"
  | CallBoundary _ None => "iam:DeletePermissionsBoundary"
  | CallGroup _ => "iam:CreateGroup"
  | CallDeleteGroup _ => "iam:DeleteGroup"
  | CallGroupMember _ _ add => if add then "iam:AddUserToGroup" else "iam:RemoveUserFromGroup"
  | CallGroupPolicy _ _ attach => if attach then "iam:AttachGroupPolicy" else "iam:DetachGroupPolicy"
  | CallServiceAccount _ => "iam:CreatePrincipal"
  | CallEnable _ _ => "iam:UpdatePrincipal"
  | CallKey _ _ _ _ => "iam:CreateApiKey"
  | CallRevokeKey _ _ => "iam:RevokeApiKey"
  | CallRole _ _ _ => "iam:CreateRole"
  | CallTrust _ _ => "iam:UpdateAssumeRolePolicy"
  | CallDeleteRole _ => "iam:DeleteRole"
  | CallEndSession _ _ => "iam:RevokeRoleSession"
  | CallAssume _ _ => "sts:AssumeRole"
  | CallSet _ _ _ => "sso:CreatePermissionSet"
  | CallUpdateSet _ _ _ => "sso:UpdatePermissionSet"
  | CallDeleteSet _ => "sso:DeletePermissionSet"
  | CallCenterGroup _ => "identitystore:CreateGroup"
  | CallDeleteCenterGroup _ => "identitystore:DeleteGroup"
  | CallGroupUser _ _ add =>
      if add then "identitystore:CreateGroupMembership" else "identitystore:DeleteGroupMembership"
  | CallAssign _ _ _ _ => "sso:CreateAccountAssignment"
  | CallUnassign _ => "sso:DeleteAccountAssignment"
  | CallStartSession _ _ _ => "sso:StartAccountSession"
  end.

Definition call_resource (call : iam_call) (account : OrganizationId) : string :=
  match call with
  | CallPolicy _ _ => organization_resource account "iam/policy/*"
  | CallBind _ _ => organization_resource account "iam/binding/*"
  | CallUnbind id => organization_resource account ("iam/binding/" ++ uuid_to_string id)%string
  | CallBoundary p _ | CallEnable p _ => principal_resource account p
  | CallGroup _ => organization_resource account "iam/group/*"
  | CallDeleteGroup g | CallGroupMember g _ _ | CallGroupPolicy g _ _ => group_resource account g
  | CallServiceAccount _ => organization_resource account "iam/principal/*"
  | CallKey _ _ _ _ => organization_resource account "iam/api-key/*"
  | CallRevokeKey _ id => organization_resource account ("iam/api-key/" ++ uuid_to_string id)%string
  | CallRole _ _ _ => organization_resource account "iam/role/*"
  | CallTrust p _ | CallDeleteRole p | CallEndSession p _ => role_resource account p
  | CallAssume input _ => assume_role_arn input
  | CallSet name _ _ => organization_resource account ("identity-center/permission-set/" ++ name)%string
  | CallUpdateSet id _ _ | CallDeleteSet id =>
      organization_resource account ("identity-center/permission-set/" ++ uuid_to_string id)%string
  | CallCenterGroup _ => organization_resource account "identity-center/group/*"
  | CallDeleteCenterGroup g => organization_resource account ("identity-center/group/" ++ uuid_to_string g)%string
  | CallGroupUser g u _ => organization_resource account
      ("identity-center/group/" ++ uuid_to_string g ++ "/user/" ++ uuid_to_string u)%string
  | CallAssign set target _ subject => organization_resource account
      ("identity-center/account/" ++ uuid_to_string target ++ "/permission-set/" ++ uuid_to_string set
       ++ "/subject/" ++ uuid_to_string subject)%string
  | CallUnassign id => organization_resource account ("identity-center/assignment/" ++ uuid_to_string id)%string
  | CallStartSession id _ _ =>
      organization_resource account ("identity-center/self/assignment/" ++ uuid_to_string id)%string
  end.

(** A person may start a session of an assignment of their own. *)
Definition call_implicit (call : iam_call) : bool :=
  match call with CallStartSession _ _ _ => true | _ => false end.

Ltac mediate :=
  lazymatch goal with
  | |- mediated _ _ _ _ _ (authorize_actor_with_implicit_allow _ _ _ _ _ ≫= _) => apply mediated_authorize
  | |- mediated _ _ _ _ _ (authorize_actor _ _ _ _ ≫= _) => apply mediated_authorize
  | |- mediated _ _ _ _ _ (require_management_at _ _ _ _ ≫= _) => apply mediated_management
  | |- mediated _ _ _ _ _ (require_human _ _ _ _ ≫= _) => apply mediated_human
  | |- mediated _ _ _ _ _ (_ ≫= _) => apply mediated_bind;
         [quiet_frame; auto using require_service_control_quiet, require_roles_quiet, require_conditions_quiet,
            browser_switch_quiet | intros ?; mediate]
  end.

(** Every call authenticates its caller first, and is mediated from there on. *)
Lemma serve_mediated call r account :
  ∃ f : AuthenticatedActor → api (),
    (∀ db, serve call r account db = (authenticated_actor_mutation config r ≫= f) db) ∧
    ∀ actor, mediated actor account (call_action call) (call_resource call account) (call_implicit call) (f actor).
Proof.
  destruct call as [| | |principal [policy|]| | | | | | | | | | | | | | | | | | | | | |]; simpl;
    (eexists; split; [intros db; apply bind_assoc || reflexivity | intros actor; simpl]);
    try apply mediated_forget; try mediate.
  all: unfold change_permissions_boundary; mediate.
Qed.

(** C6: Complete mediation.  Every request that changes the tables of IAM, the
    roles, role sessions and the identity center - policies and bindings,
    boundaries, groups, service accounts and their keys, roles and their trust,
    permission sets, assignments, sessions - leaves nothing but audit records,
    times of use and used identifiers behind, unless its caller was
    authenticated and the policies stored when it arrived grant that caller
    the action of the request on its resource in the account: the caller's own
    policies or its administration of the account allow it, and its permissions
    boundary, every service control level and the session policy let it pass. *)
Theorem complete_mediation call r account db x db' :
  serve call r account db = (x, db') →
  trace_only db db' ∨
  ∃ actor db1 context, authenticated_actor_mutation config r db = (Ok actor, db1) ∧
    granted actor account (call_action call) (call_resource call account) (call_implicit call) db context.
Proof.
  destruct (serve_mediated call r account) as (f & Hf & Hm). rewrite Hf.
  intros [(e & Hq%authenticated_actor_mutation_quiet & _)|(actor & db1 & Ha & Hrun)]%bind_cases; [by left|].
  pose proof (authenticated_actor_mutation_quiet _ _ _ _ Ha) as Hq.
  destruct (Hm actor _ _ _ Hrun) as [Ht|[c Hg]]; [left; by etrans|]. right.
  exists actor, db1, c. split; [done|]. by eapply granted_trace.
Qed.

(** Every decision is recorded.  An authorization that comes to a decision
    appends exactly one audit record, with the principal, the action, the
    resource and the decision, before anything is done; the caller goes on
    exactly if the record says allow, and without a record it is refused. *)
Lemma decisions_are_recorded actor org act res implicit db x db' :
  authorize_actor_with_implicit_allow actor org act res implicit db = (x, db') →
  match x with
  | Ok context => stored_context actor org db context ∧ decided org act res Decision.Allow context db db'
  | Err e => audit_events db' = audit_events db ∨
             e = Forbidden ∧ ∃ context, decided org act res Decision.Deny context db db'
  end.
Proof.
  intros [[[e ->] Ha]|(c & e & Hc & _ & Hd & ->)]%authorize_outcome; [by left|].
  destruct (decision e); eauto.
Qed.

(** ** Authentication *)

(** The request carries a bearer token, or the cookie of a browser session that
    has not expired, of an active user. *)
Definition presents (r : Request) (token : string) : Prop :=
  ∃ value text, headers r AUTHORIZATION = Some value ∧ to_str value = Some text ∧
    strip_prefix "Bearer " text = Some token.

Definition browser_login (r : Request) (db : Db) (s : AuthenticatedSession) (row : SessionRow) : Prop :=
  ∃ raw id, cookies r SESSION_COOKIE = Some raw ∧ session_rows db !! id = Some row ∧
    session_token_hash row = token_hash raw ∧ auth_token_hash s = token_hash raw ∧
    csrf_token raw (csrf_key config) = Some (auth_csrf s) ∧
    now db < session_expires_at row ∧ session_user_id row ∈ active_users db ∧
    session_user_id_of s = session_user_id row.

(** The browser session has taken a role that is still there. *)
Definition in_role (db : Db) (row : SessionRow) : Prop :=
  ∃ id s r p a, active_role_session_id row = Some id ∧ role_session_rows db !! id = Some s ∧
    role_rows db !! role_session_role s = Some r ∧ role_organization r = role_session_organization s ∧
    principal_of (role_session_organization s) (role_session_role s) db = Some p ∧
    account_rows (cloud db) !! role_session_organization s = Some a.

(** What makes a stored credential good, said of the rows: its principal is
    enabled in its account, it has not ended, and what it depends on is in
    force. *)
Definition enabled_in (org : OrganizationId) (principal : PrincipalId) (db : Db) : Prop :=
  ∃ p, principals db !! principal = Some p ∧ principal_organization_id p = org ∧ enabled p = true.

Definition key_good (db : Db) (k : ApiKeyRow) : Prop :=
  key_revoked_at k = None ∧ (∀ t, key_expires_at k = Some t → now db < t) ∧
  enabled_in (key_organization k) (key_principal k) db.

Definition cli_token_good (db : Db) (t : CliTokenRow) : Prop :=
  cli_revoked_at t = None ∧ now db < cli_expires_at t ∧ cli_user t ∈ active_users db ∧
  ∃ m p, organization_memberships db !! (cli_organization t, cli_user t) = Some m ∧
    principals db !! member_principal_id m = Some p ∧ principal_organization_id p = cli_organization t ∧
    user_id p = Some (cli_user t) ∧ enabled p = true.

(** The service the token was made for still runs with that task role. *)
Definition workload_token_good (db : Db) (t : WorkloadTokenRow) : Prop :=
  now db < token_expires_at t ∧ enabled_in (token_organization t) (token_principal t) db ∧
  ∃ service, service_instances db !! token_service t = Some service ∧
    organization_id service = token_organization t ∧ runs_as (token_principal t) service = true.

(** A session of the identity center stands on an assignment that is in force
    at the generation it had, to this role, for a user who is active and, if the
    assignment is to a group, still the same member of it. *)
Definition grant_good (db : Db) (s : RoleSessionRow) (g : CenterGrant) : Prop :=
  grant_user g ∈ active_users db ∧
  ∃ a, assignment_rows db !! grant_assignment g = Some a ∧ assignment_revoked_at a = None ∧
    assignment_generation a = grant_generation g ∧ assignment_account a = role_session_organization s ∧
    assignment_role a = role_session_role s ∧
    (∃ ps, permission_set_rows db !! assignment_set a = Some ps ∧ set_deleted_at ps = None) ∧
    (subject_type a = "user" ∧ subject_id a = grant_user g ∨
     ∃ mid m, subject_type a = "group" ∧ grant_group_membership g = Some mid ∧
       center_member_rows db !! mid = Some m ∧ center_member_group m = subject_id a ∧
       center_member_user m = grant_user g).

Definition role_session_good (db : Db) (s : RoleSessionRow) : Prop :=
  role_session_revoked_at s = None ∧ now db < role_session_expires_at s ∧
  enabled_in (role_session_organization s) (role_session_role s) db ∧
  ∀ g, role_session_grant s = Some g → grant_good db s g.

Lemma is_some_and_true {A} (P : A → bool) o : is_some_and P o = true ↔ ∃ x, o = Some x ∧ P x = true.
Proof. destruct o; simpl; naive_solver. Qed.

Lemma enabled_in_of org principal db :
  is_some_and enabled (principal_of org principal db) = true ↔ enabled_in org principal db.
Proof.
  unfold enabled_in, principal_of. destruct (principals db !! principal) as [p|]; simpl; [|naive_solver].
  case_bool_decide; simpl; naive_solver.
Qed.

Ltac credential_inv H :=
  rewrite ?orb_true_iff, ?andb_true_iff, ?is_some_and_true, ?bool_decide_eq_true, ?String.eqb_eq,
    ?is_some_false, ?Z.ltb_lt, ?Z.eqb_eq in H.

Lemma key_usable_good db k : key_usable db k = true → key_good db k.
Proof.
  unfold key_usable, key_good. rewrite !andb_true_iff, enabled_in_of. intros [[Hr He] Hp]. credential_inv Hr.
  split_and!; [done | | done]. intros t Ht. rewrite Ht in He. lia.
Qed.

Lemma token_usable_good db t : token_usable db t = true → cli_token_good db t.
Proof.
  unfold token_usable, cli_token_good. intros Hu. credential_inv Hu. destruct Hu as [[[Hr He] Ha] (m & Hm & Hp)].
  credential_inv Hp. destruct Hp as (p & Hp & Hu). credential_inv Hu. naive_solver.
Qed.

Lemma workload_usable_good db t : workload_token_usable db t = true → workload_token_good db t.
Proof.
  unfold workload_token_usable, workload_token_good. intros Hu. credential_inv Hu.
  destruct Hu as [[He (r & Hr & Hs)] (p & Hp & Hk)]. credential_inv Hs. credential_inv Hk.
  split_and!; [done | | naive_solver]. apply enabled_in_of. rewrite Hp. by destruct Hk.
Qed.

Lemma subject_is_good a g db :
  subject_is a g db = true →
  subject_type a = "user" ∧ subject_id a = grant_user g ∨
  ∃ mid m, subject_type a = "group" ∧ grant_group_membership g = Some mid ∧
    center_member_rows db !! mid = Some m ∧ center_member_group m = subject_id a ∧
    center_member_user m = grant_user g.
Proof.
  unfold subject_is. intros Hu. credential_inv Hu. destruct Hu as [[[? ?] _]|[[? _] (m & Hm & Hu)]]; [by left|].
  right. destruct (grant_group_membership g) as [mid|]; [|done]. simpl in Hm. credential_inv Hu. naive_solver.
Qed.

Lemma grant_active_good db s g : grant_active s g db = true → grant_good db s g.
Proof.
  unfold grant_active, grant_good. intros Hu. credential_inv Hu. destruct Hu as (a & Ha & Hu). credential_inv Hu.
  destruct Hu as [[[[[[[[Hr Hg] Hacc] Hro] (ps & Hps & Hset)] _] Hact] _] Hs%subject_is_good]. credential_inv Hset.
  split; [done|]. exists a. split_and!; try done. exists ps. by destruct Hset.
Qed.

Lemma session_usable_good db s : role_session_usable db s = true → role_session_good db s.
Proof.
  unfold role_session_usable, role_session_live, identity_center_session_is_active, role_session_good.
  rewrite !andb_true_iff, enabled_in_of. intros [[[Hr He] Hp] Hg]. credential_inv Hr. credential_inv He.
  split_and!; try done. intros g Hgr. rewrite Hgr in Hg. by apply grant_active_good.
Qed.

(** A role session is what its row says: the role, who took it, how long it
    lasts, the policy that narrows it and the user of the identity center. *)
Definition session_shows (s : IamRoleSession) (row : RoleSessionRow) : Prop :=
  session_organization s = role_session_organization row ∧ session_principal s = role_session_role row ∧
  session_source_organization s = source_organization row ∧ session_source_principal s = source_principal row ∧
  session_source_arn s = source_arn row ∧ session_name s = role_session_name row ∧
  session_ends_at s = role_session_expires_at row ∧
  match role_session_policy row with
  | Some v => ∃ d, from_value v = Some d ∧ session_policy s = Some d
  | None => session_policy s = None
  end ∧
  match role_session_grant row with
  | Some g => session_center_user s = Some (grant_user g)
  | None => session_center_user s = None
  end.

(** The role session that was authenticated can be used now. *)
Definition session_good (db : Db) (s : IamRoleSession) (row : RoleSessionRow) : Prop :=
  role_session_rows db !! session_id s = Some row ∧ session_shows s row ∧ role_session_good db row.

Lemma session_user_key user db u : session_user user db = Ok (Some u) → user_key (session_owner u) = user.
Proof.
  unfold session_user, user_from_row. destruct (users db !! user) as [row|]; [|done]. intros Hu.
  apply bind_ok in Hu as (v & Hv & Hu). apply bind_ok in Hv as (st & _ & [= <-]).
  apply bind_ok in Hu as (? & _ & [= <-]). done.
Qed.

(** The order of the rows does not depend on what is in them. *)
Lemma find_row_overwrite {A} (p : A → bool) (m : gmap Uuid A) id x y :
  find_row p m = Some (id, x) → p y = true → find_row p (<[id := y]> m) = Some (id, y).
Proof.
  intros Hf Hy. pose proof (find_row_some _ _ _ _ Hf) as [Hx Hp]. unfold find_row in *.
  set (z := map_zip_with pair m (<[id := y]> m)).
  assert (Hz : ∀ k e, z !! k = Some e ↔ m !! k = Some (fst e) ∧ <[id := y]> m !! k = Some (snd e)).
  { intros k [a b]. unfold z. rewrite map_lookup_zip_with_Some. simpl. naive_solver. }
  assert (m = fst <$> z) as E1.
  { unfold z. rewrite map_fmap_zip_with_l; [done..|]. intros k. rewrite lookup_insert_is_Some'. naive_solver. }
  assert (<[id := y]> m = snd <$> z) as E2.
  { unfold z. rewrite map_fmap_zip_with_r; [done..|]. intros k. rewrite lookup_insert_is_Some'. naive_solver. }
  rewrite E1 in Hf. rewrite E2. rewrite map_to_list_fmap in Hf |- *.
  assert (Hl : ∀ k e, (k, e) ∈ map_to_list z → k = id ∧ e = (x, y) ∨ k ≠ id ∧ fst e = snd e).
  { intros k [a b] [Ha Hb]%elem_of_map_to_list%Hz. simpl in *. destruct (decide (k = id)) as [->|Hk].
    - rewrite lookup_insert_eq in Hb. left. by simplify_eq.
    - rewrite lookup_insert_ne in Hb by done. right. split; [done | congruence]. }
  clearbody z. clear E1 E2 Hz. revert Hf Hl. induction (map_to_list z) as [|[k e] l IH]; [done|].
  intros Hf Hl. simpl in *. destruct (Hl k e) as [[-> ->]|[Hk He]]; [left| |].
  - rewrite filter_cons_True by done. done.
  - destruct e as [a b]; simpl in *; subst b. destruct (decide (p a = true)) as [Ha|Ha].
    + rewrite filter_cons_True in Hf by done. simpl in Hf. by simplify_eq.
    + rewrite filter_cons_False in Hf |- * by done. apply IH; [done|]. intros k' e' Hin. apply Hl. by right.
Qed.

Lemma authenticated_session_ok r db s db' :
  authenticated_session config r db = (Ok s, db') →
  ∃ row i, browser_login r db s row ∧ db' = set_identity i db ∧
    ∃ id, browser_session (auth_token_hash s) db' = Some (id, touch_session (now db) row).
Proof.
  unfold authenticated_session. intros Hrun. api_inv Hrun. simplify_eq.
  unfold session_user_by_token_hash, session_by_token in Hs.
  destruct (find_row _ _) as [[id row]|] eqn:E; simpl in Hs; [|done].
  pose proof (find_row_some _ _ _ _ E) as [Hrow Hhash%bool_decide_true_iff].
  destruct (_ && _) eqn:Hgood; simpl in Hs; [|done]. injection Hs as Hu <-.
  apply andb_true_iff in Hgood as [Hlive Hact%bool_decide_true_iff].
  eexists row, _. split_and!; [|done|].
  - exists x, id. split_and!; try done; [lia|]. by apply session_user_key in Hu.
  - exists id. unfold browser_session, session_rows. simpl.
    rewrite (find_row_overwrite _ (sessions (identity db)) id row); [simpl; by rewrite Hlive | done |].
    by apply bool_decide_true_iff.
Qed.

Lemma usable_session_good db id row s :
  usable_role_session db (id, row) = Ok (Some s) → role_session_rows db !! id = Some row →
  session_good db s row ∧ session_id s = id.
Proof.
  unfold usable_role_session, role_session_from_row. simpl. destruct (role_session_usable db row) eqn:Hu; [|done].
  intros (x & Hx & [= ->])%bind_ok Hrow. apply bind_ok in Hx as (policy & Hp & [= <-]).
  apply session_usable_good in Hu. split; [|done]. split_and!; try done. unfold session_shows. simpl.
  split_and!; try done; [|by destruct (role_session_grant row)]. destruct (role_session_policy row) as [v|].
  - apply bind_ok in Hp as (d & Hd%ok_or_ok & [= <-]). by exists d.
  - by injection Hp as <-.
Qed.

Lemma bearer_actor_ok token db actor db' :
  bearer_actor token db = (Ok actor, db') →
  match actor with
  | ActorUser _ => False
  | ActorRoleSession s b => b = None ∧ ∃ row, session_good db s row ∧ role_session_hash row = token_hash token
  | ActorWorkload w => ∃ row, workload_access_tokens db !! workload_token_id w = Some row ∧
      token_digest row = token_hash token ∧ workload_token_good db row ∧
      token_organization row = workload_organization w ∧ token_principal row = workload_principal w ∧
      token_service row = workload_service w ∧ pod_uid row = workload_pod w
  | ActorCliToken t => ∃ row, token_rows db !! cli_token_id t = Some row ∧ cli_token_hash row = token_hash token ∧
      cli_token_good db row ∧ cli_organization row = cli_token_organization t ∧ cli_user row = token_user_id t
  | ActorApiKey k => ∃ row, key_rows db !! api_key_id k = Some row ∧ key_secret_hash row = token_hash token ∧
      key_good db row ∧ key_organization row = api_key_organization k ∧
      key_principal row = api_key_principal k
  end.
Proof.
  unfold bearer_actor. intros Hrun.
  destruct (is_some (strip_prefix "hcw_" token)); [|destruct (is_some (strip_prefix "hcr_" token));
    [|destruct (is_some (strip_prefix "hcu_" token))]].
  - api_inv Hrun. subst. unfold authenticate_workload_token in *.
    destruct (find_row _ _) as [[id row]|] eqn:E; simplify_eq/=.
    apply find_row_some in E as [Hrow Hhash%bool_decide_true_iff]. case_match; simplify_eq/=.
    exists row. split_and!; auto using workload_usable_good.
  - api_inv Hrun. subst. split; [done|]. unfold authenticate_iam_role_session in *.
    destruct (find_row _ _) as [[id row]|] eqn:E; simplify_eq/=.
    apply find_row_some in E as [Hrow Hhash%bool_decide_true_iff].
    exists row. split; [by eapply usable_session_good | done].
  - unfold authenticated_cli_access_token_value in Hrun. api_inv Hrun.
    match goal with Hb : mbind _ _ _ = (Ok _, _) |- _ => api_inv Hb end. subst.
    unfold authenticate_cli_access_token, cli_token_by_secret in *.
    destruct (find_row _ _) as [[id row]|] eqn:E; simplify_eq/=.
    apply find_row_some in E as [Hrow [_ Hhash%bool_decide_true_iff]%andb_true_iff].
    destruct (token_usable db row) eqn:Hu; simplify_eq/=.
    match goal with Hu' : mbind _ _ = Ok _ |- _ => apply bind_ok in Hu' as (u & Hs & [= <-]) end.
    unfold session_user_or in Hs. apply bind_ok in Hs as (v & Hv & Hs). apply ok_or_ok in Hs as ->.
    apply session_user_key in Hv. apply token_usable_good in Hu. exists row. by unfold token_user_id.
  - api_inv Hrun. subst. unfold authenticate_api_key, key_by_secret in *.
    match goal with Hk : mbind _ _ _ = Ok _ |- _ => tx_inv Hk; subst; rename Hk into Hkey end.
    destruct (find_row _ _) as [[id row]|] eqn:E; simpl in Hkey; [|by apply mret_ok in Hkey as [? _]].
    apply find_row_some in E as [Hrow [_ Hhash%bool_decide_true_iff]%andb_true_iff].
    destruct (key_usable db row) eqn:Hu; simpl in Hkey; [|by apply mret_ok in Hkey as [? _]].
    tx_inv Hkey. simplify_eq. apply key_usable_good in Hu. exists row. done.
Qed.

(** The credential an actor was authenticated with is stored, and good. *)
Definition credential_good (r : Request) (db : Db) (actor : AuthenticatedActor) : Prop :=
  match actor with
  | ActorUser s => headers r AUTHORIZATION = None ∧ ∃ browser, browser_login r db s browser ∧ ¬ in_role db browser
  | ActorRoleSession s (Some b) => headers r AUTHORIZATION = None ∧
      ∃ browser row, browser_login r db b browser ∧ active_role_session_id browser = Some (session_id s) ∧
        session_good db s row
  | ActorRoleSession s None => ∃ token row, presents r token ∧ session_good db s row ∧
      role_session_hash row = token_hash token
  | ActorWorkload w => ∃ token row, presents r token ∧
      workload_access_tokens db !! workload_token_id w = Some row ∧
      token_digest row = token_hash token ∧ workload_token_good db row ∧
      token_organization row = workload_organization w ∧ token_principal row = workload_principal w ∧
      token_service row = workload_service w ∧ pod_uid row = workload_pod w
  | ActorCliToken t => ∃ token row, presents r token ∧ token_rows db !! cli_token_id t = Some row ∧
      cli_token_hash row = token_hash token ∧ cli_token_good db row ∧
      cli_organization row = cli_token_organization t ∧ cli_user row = token_user_id t
  | ActorApiKey k => ∃ token row, presents r token ∧ key_rows db !! api_key_id k = Some row ∧
      key_secret_hash row = token_hash token ∧ key_good db row ∧
      key_organization row = api_key_organization k ∧ key_principal row = api_key_principal k
  end.

Lemma browser_role_cases hash db id row :
  browser_session hash db = Some (id, row) →
  match browser_active_role hash db with
  | Some a => active_role_session_id row = Some (browser_role_session a)
  | None => ¬ in_role db row
  end.
Proof.
  unfold browser_active_role. intros ->. cbn. destruct (active_role_session_id row) as [k|] eqn:Ek.
  2: { by intros (? & ? & ? & ? & ? & ? & _); simplify_eq. }
  cbn. destruct (role_session_rows db !! k) as [s|] eqn:Es; cbn.
  2: { intros (? & ? & ? & ? & ? & ? & ? & _); by simplify_eq. }
  destruct (role_rows db !! role_session_role s) as [r|] eqn:Er; cbn.
  2: { intros (? & ? & ? & ? & ? & ? & ? & ? & _); by simplify_eq. }
  destruct (principal_of _ _ db) as [p|] eqn:Ep; cbn.
  2: { intros (? & ? & ? & ? & ? & ? & ? & ? & _ & ? & _); by simplify_eq. }
  destruct (account_rows (cloud db) !! _) as [a|] eqn:Ea; cbn.
  2: { intros (? & ? & ? & ? & ? & ? & ? & ? & _ & _ & ?); by simplify_eq. }
  case_bool_decide; [done|]. intros (? & ? & ? & ? & ? & ? & ? & ? & ? & _); by simplify_eq.
Qed.

Lemma authenticated_actor_good r db actor db' :
  authenticated_actor config r db = (Ok actor, db') → credential_good r db actor.
Proof.
  unfold authenticated_actor, credential_good. destruct (headers r AUTHORIZATION) as [value|] eqn:Hh; intros Hrun.
  - api_inv Hrun. apply bearer_actor_ok in Hrun.
    assert (Hp : ∀ token, strip_prefix "Bearer " x = Some token → presents r token) by (by eexists _, _).
    destruct actor as [| | |? b|]; [done | | | destruct Hrun as [-> Hrun]|]; destruct Hrun; eauto.
  - api_inv Hrun. apply authenticated_session_ok in Hs as (browser & i & Hb & -> & id & Hrow). subst.
    apply browser_role_cases in Hrow.
    destruct (browser_active_role _ _) as [a|] eqn:Ea; api_inv Hrun; simplify_eq; [|by eauto].
    split; [done|]. unfold authenticate_browser_role_session in *.
    destruct (role_session_rows _ !! _) as [row|] eqn:Erow; simplify_eq.
    eapply (usable_session_good (set_identity i db)) in Erow as [Hg Hid]; [|done]. exists browser, row. by rewrite Hid.
Qed.

(** C7: Authentication is sound: an actor is what its credential in the stored
    tables says - a cookie stands for the user of the unexpired browser session
    with its digest, or, if that browser session has taken a role which is still
    there, for the role session it has taken and no other; a bearer token for the
    one workload, role session, command line token or key whose stored digest it
    has - and that credential is good at this moment (not expired or revoked,
    principal enabled, user active, assignment in force).  A role session has the
    account, role, source, end, narrowing policy and identity center user of its
    row, a workload the service and pod of its token. *)
Theorem authentication_sound r db actor db' :
  authenticated_actor config r db = (Ok actor, db') → credential_good r db actor.
Proof. apply authenticated_actor_good. Qed.

(** ** Assuming a role *)

Lemma split_once_str_spec sep s a b : split_once_str sep s = Some (a, b) → s = (a ++ sep ++ b)%string.
Proof.
  revert a b. induction s as [|c s IH]; intros a b; simpl.
  - destruct (strip_prefix sep "") eqn:E; [|done]. intros [= <- <-]. by apply strip_prefix_spec in E.
  - destruct (strip_prefix sep (String c s)) eqn:E; [intros [= <- <-]; by apply strip_prefix_spec in E|].
    destruct (split_once_str sep s) as [[a' b']|]; [|done]. intros [= <- <-]. exact (f_equal (String c) (IH a' b' eq_refl)).
Qed.

Lemma parse_iam_role_arn_ok arn number name :
  parse_iam_role_arn arn = Ok (number, name) → arn = ("arn:aws:iam::" ++ number ++ ":role/" ++ name)%string.
Proof.
  unfold parse_iam_role_arn. intros (rest & Hr%ok_or_ok & Hk)%bind_ok.
  apply bind_ok in Hk as ([a b] & Hp%ok_or_ok & Hk). apply bind_ok in Hk as (? & _ & Hk).
  apply bind_ok in Hk as (? & _ & [= <- <-]). apply strip_prefix_spec in Hr as ->. by apply split_once_str_spec in Hp as ->.
Qed.

Lemma find_iam_role_ok number name db x :
  find_iam_role number name db = Some x →
  ∃ row a, role_rows db !! iam_role_principal x = Some row ∧
    account_rows (cloud db) !! iam_role_organization x = Some a ∧ int_to_string (account_number a) = number ∧
    role_name row = name ∧ role_organization row = iam_role_organization x ∧ trust_policy row = iam_role_trust x.
Proof.
  unfold find_iam_role. intros Hh. assert (Hin : x ∈ filter (λ r, is_some_and (λ a, String.eqb (int_to_string (account_number a)) number)
    (account_rows (cloud db) !! iam_role_organization r) && String.eqb (iam_role_name r) name = true)
    (omap (role_select db) (map_to_list (role_rows db)))).
  { destruct (filter _ _); [done|]. injection Hh as ->. left. }
  apply list_elem_of_filter in Hin as [Hp Hin]. apply list_elem_of_omap in Hin as ([id row] & Hrow%elem_of_map_to_list & Hsel).
  unfold role_select in Hsel. simpl in Hsel. destruct (account_rows (cloud db) !! role_organization row) as [a|] eqn:Ha; [|done].
  injection Hsel as <-. simpl in *. rewrite Ha in Hp. simpl in Hp.
  apply andb_true_iff in Hp as [Hn%String.eqb_eq Hm%String.eqb_eq]. exists row, a. done.
Qed.

(** The session that was opened. *)
Lemma create_session_row new db id db' :
  create_iam_role_session new db = Ok (id, db') →
  ∃ r p, role_rows db !! new_session_role new = Some r ∧ role_organization r = new_session_organization new ∧
    principal_of (new_session_organization new) (new_session_role new) db = Some p ∧ enabled p = true ∧
    new_duration_seconds new ≤ max_session_seconds r ∧
    value_eqb (trust_policy r) (expected_trust_policy new) = true ∧
    role_session_rows db' !! id = Some (Build_RoleSessionRow (new_session_organization new) (new_session_role new)
      (new_source_organization new) (new_source_principal new) (new_source_arn new) (new_session_name new)
      (to_value <$> new_session_policy new) (new_session_hash new) (new_session_expires_at new) None None) ∧
    (∀ i s, role_session_rows db' !! i = Some s → role_session_hash s = new_session_hash new → i = id) ∧
    now db' = now db ∧ principals db' = principals db.
Proof.
  unfold create_iam_role_session, insert_role_session. intros Hrun. tx_inv Hrun.
  match goal with Hs : optional _ _ _ = _ |- _ => apply optional_query_ok in Hs as [Hr ->] end.
  match goal with Hs : mbind _ _ _ = Ok _ |- _ => tx_inv Hs | _ => idtac end. subst.
  repeat match goal with
  | Hp : prune_role_sessions _ _ = _ |- _ => apply statement_ok in Hp as ->
  | Hn : now_v7 _ = _ |- _ => apply now_v7_ok in Hn as [-> ->]
  | Hq : require _ _ = _ |- _ => apply require_ok in Hq as [Hreq ->]
  | Ho : on_access _ _ = _ |- _ => apply statement_ok in Ho as ->
  end.
  destruct (role_rows db !! new_session_role new) as [r|] eqn:Erow; simpl in Hr; [|done].
  destruct (principal_of _ _ db) as [p|] eqn:Ep; simpl in Hr; [|done].
  destruct (bool_decide _ && enabled p) eqn:Een; [|done]. injection Hr as <-.
  apply andb_true_iff in Een as [Horg%bool_decide_true_iff Hen].
  rewrite !andb_true_iff, !negb_true_iff in Hreq. destruct Hreq as (_ & Hfree).
  exists r, p. split_and!; try done; [lia | by apply negb_false_iff | | ].
  - unfold role_session_rows. simpl. apply lookup_insert_eq.
  - intros i s Hi Hh. unfold role_session_rows in Hi. simpl in Hi.
    apply lookup_insert_Some in Hi as [[<- _]|[_ Hi]]; [done|]. exfalso.
    destruct (find_row _ _) eqn:E in Hfree; [done|].
    eapply find_row_none in E; [|exact Hi]. simpl in E. by rewrite bool_decide_true in E.
Qed.

Lemma trace_read {A} (f : Db → A) db db' : (∀ d, f (erase d) = f d) → trace_only db db' → f db' = f db.
Proof. intros Hf [E _ _]. by rewrite <- (Hf db), <- E, Hf. Qed.

Lemma optional_conditions_quiet (policy : option PolicyDocument) :
  quiet (match policy with Some d => require_policy_conditions_enabled d | None => mret () end).
Proof. quiet_frame. apply require_conditions_quiet. Qed.
Lemma decide_trust_quiet source caller arn role target trusted : quiet (decide_trust source caller arn role target trusted).
Proof. unfold decide_trust. quiet_frame. Qed.
Lemma decide_trust_ok source caller arn role target trusted db u db' :
  decide_trust source caller arn role target trusted db = (Ok u, db') → trusted = true.
Proof. unfold decide_trust. intros Hrun. by api_inv Hrun. Qed.
Lemma browser_switch_off actor b db x db' : browser_switch actor b db = (Ok x, db') → b = false → x = None.
Proof. intros Hrun ->. by injection Hrun as <- _. Qed.
Lemma authorize_granted actor org act res db context db' :
  authorize_actor actor org act res db = (Ok context, db') → granted actor org act res false db context.
Proof.
  intros [[[e Hx] _]|(c & e & Hc & He & _ & Hx)]%authorize_outcome; [done|].
  destruct (decision e) eqn:Hd; simplify_eq. by eapply evaluation_granted.
Qed.

(** What a successful request to assume a role went through. *)
Lemma assume_role_ok r source input secret db id token db' :
  assume_iam_role config r source input secret db = (Ok (id, token), db') →
  ∃ actor context number arn target role trust policy switch db1 db2 db3,
    authenticated_actor_mutation config r db = (Ok actor, db1) ∧
    granted actor source "sts:AssumeRole" (assume_role_arn input) false db context ∧
    is_center_session actor = false ∧ 900 ≤ assume_duration_seconds input ≤ 43200 ∧
    (is_role_session actor = true → assume_duration_seconds input ≤ 3600) ∧
    parse_session_policy (assume_session_policy input) = Ok policy ∧
    iam_principal_arn source (Iam.context_principal_id context) db = Some (number, arn) ∧
    parse_iam_role_arn (assume_role_arn input) = Ok target ∧
    find_iam_role (fst target) (snd target) db = Some role ∧
    is_identity_center_role (iam_role_organization role) (iam_role_principal role) db = false ∧
    validate_role_trust (iam_role_trust role) = Ok trust ∧ permits trust number arn = Ok true ∧
    trace_only db db2 ∧
    create_iam_role_session (Build_NewIamRoleSession (iam_role_organization role) (iam_role_principal role) source
      (Iam.context_principal_id context) arn (assume_session_name input) policy (token_hash token)
      (now db + assume_duration_seconds input) (assume_duration_seconds input) (iam_role_trust role)) db2 = Ok (id, db3) ∧
    token = ("hcr_" ++ secret)%string ∧ (switch_console input = false → switch = None) ∧
    switch_or_revoke switch (iam_role_organization role) (iam_role_principal role) id db3 = (Ok (), db').
Proof.
  unfold assume_iam_role. intros Hrun. api_inv Hrun. simplify_eq. rename x into actor, db3 into before, db4 into after.
  assert (T1 : trace_only db before).
  { transitivity db0; [by eapply authenticated_actor_mutation_quiet|].
    transitivity db1; [by eapply require_roles_quiet|]. transitivity db2; [by eapply browser_switch_quiet|].
    by eapply optional_conditions_quiet. }
  assert (T2 : trace_only db after) by (etrans; [exact T1 | by eapply authorize_actor_quiet]).
  assert (T3 : trace_only after db5) by (by eapply decide_trust_quiet).
  match goal with Ha : authorize_actor _ _ _ _ _ = (Ok ?c, _) |- _ => apply authorize_granted in Ha as Hg end.
  match goal with Hd : decide_trust _ _ _ _ _ _ _ = _ |- _ => apply decide_trust_ok in Hd as -> end.
  match goal with Hm : map_err _ _ = Ok _ |- _ => apply map_err_ok in Hm end.
  match goal with Hb : in_range _ _ _ && _ = true |- _ =>
    apply andb_true_iff in Hb as [Hrange%in_range_spec Hchain%negb_true_iff] end.
  match goal with Hi : iam_principal_arn _ _ _ = Some ?p |- _ => destruct p as [number arn];
    rewrite (trace_read (iam_principal_arn source _) db after (λ _, eq_refl) T2) in Hi end.
  rewrite (trace_read (find_iam_role _ _) db after (λ _, eq_refl) T2) in *.
  rewrite (trace_read (is_identity_center_role _ _) db after (λ _, eq_refl) T2) in *.
  rewrite (trace_read now db db5 (λ _, eq_refl) (transitivity T2 T3)) in *.
  exists actor, x8, number, arn, x3, x12, x15, x6, x2, db0, db5, db6. split_and!; try done; try lia.
  - eapply granted_trace; [exact T1 | exact Hg].
  - by apply negb_true_iff.
  - intros Hr. rewrite Hr in Hchain. simpl in Hchain. lia.
  - by apply negb_true_iff.
  - by etrans.
  - intros Hsw. by eapply browser_switch_off.
  - by match goal with u : () |- switch_or_revoke _ _ _ _ _ = _ => destruct u end.
Qed.

(** Switching the browser session ends at most one role session, and removes
    none. *)
Lemma switch_keeps_row switch account principal session db u db' id s :
  switch_or_revoke switch account principal session db = (Ok u, db') → role_session_rows db !! id = Some s →
  ∃ s', role_session_rows db' !! id = Some s' ∧ (s' = s ∨ ∃ t, s' = revoke_role_session t s).
Proof.
  unfold switch_or_revoke. destruct switch as [[browser previous]|]; [|by intros [= _ <-] Hs; eauto].
  destruct (run _ db) as [[u'|e] db1] eqn:E; [|done]. intros [= _ <-] Hs. apply run_ok in E.
  unfold switch_browser_role, update_session in E. tx_inv E.
  repeat match goal with
  | Ho : optional _ _ _ = _ |- _ => apply optional_query_ok in Ho as [_ ->]
  | Hr : require _ _ = _ |- _ => apply require_ok in Hr as [_ ->]
  | Hi : on_identity _ _ = _ |- _ => apply statement_ok in Hi as ->
  end.
  destruct previous as [q|]; [|apply mret_ok in E as [_ ->]; eauto].
  apply statement_ok in E as ->. unfold role_session_rows. simpl. fold (role_session_rows db).
  destruct (decide (id = q)) as [->|Hne].
  - rewrite lookup_alter_eq, Hs. simpl. eauto.
  - rewrite lookup_alter_ne by done. eauto.
Qed.

Lemma bearer_role_session token session db :
  is_some (strip_prefix "hcw_" token) = false → is_some (strip_prefix "hcr_" token) = true →
  opaque_token token = true → authenticate_iam_role_session (token_hash token) db = Ok (Some session) →
  bearer_actor token db = (Ok (ActorRoleSession session None), db).
Proof.
  intros Hw Hr Ho Ha. unfold bearer_actor. rewrite Hw, Hr, Ho.
  unfold check, fetch, some_or, from_result, mbind, api_bind. simpl. by rewrite Ha.
Qed.

Lemma usable_session_ok db id row :
  role_session_rows db !! id = Some row → role_session_usable db row = true → role_session_policy row = None →
  ∃ s, usable_role_session db (id, row) = Ok (Some s) ∧ session_id s = id ∧
    session_principal s = role_session_role row ∧ session_policy s = None.
Proof.
  intros Hrow Hu Hp. unfold usable_role_session, role_session_from_row. simpl. rewrite Hu, Hp. by eexists.
Qed.

(** C8: A role is assumed only with both permissions.  A request that returns a
    token found a caller who may assume the role by the policies of its own
    account, and the role with the requested ARN, not one of the identity
    center, whose trust policy permits that caller; sessions of the identity
    center cannot assume roles.  The session is of that role, ends after the
    requested time, which is within the maximum of the role, and within an hour
    when the caller itself acts in a role. *)
Theorem assume_role_sound r source input secret db id token db' :
  assume_iam_role config r source input secret db = (Ok (id, token), db') →
  ∃ actor db1 context number arn principal role account trust row,
    authenticated_actor_mutation config r db = (Ok actor, db1) ∧ is_center_session actor = false ∧
    granted actor source "sts:AssumeRole" (assume_role_arn input) false db context ∧
    iam_principal_arn source (Iam.context_principal_id context) db = Some (number, arn) ∧
    role_rows db !! principal = Some role ∧
    account_rows (cloud db) !! role_organization role = Some account ∧
    assume_role_arn input = role_arn (account_number account) (role_name role) ∧
    is_identity_center_role (role_organization role) principal db = false ∧
    from_value (trust_policy role) = Some trust ∧ permits trust number arn = Ok true ∧
    role_session_rows db' !! id = Some row ∧ role_session_role row = principal ∧
    source_principal row = Iam.context_principal_id context ∧ role_session_hash row = token_hash token ∧
    role_session_expires_at row = now db + assume_duration_seconds input ∧
    assume_duration_seconds input ≤ max_session_seconds role ∧
    (is_role_session actor = true → assume_duration_seconds input ≤ 3600).
Proof.
  intros (actor & context & number & arn & [an rn] & role & trust & policy & switch & db1 & db2 & db3 & Ha & Hg & Hc & Hd
    & Hchain & _ & Hp & Hparse & Hf & Hm & Hv & Hpermit & Ht & Hcreate & _ & _ & Hsw)%assume_role_ok.
  apply find_iam_role_ok in Hf as (rr & account & Hrr & Hacc & Hnum & Hname & Horg & Htrust). simpl in *.
  apply create_session_row in Hcreate as (rr' & p & Hrr' & _ & _ & _ & Hmax & _ & Hrow & _ & _ & _). simpl in *.
  rewrite (trace_read role_rows db db2 (λ _, eq_refl) Ht) in Hrr'. assert (rr' = rr) as -> by congruence.
  destruct (switch_keeps_row _ _ _ _ _ _ _ _ _ Hsw Hrow) as (row & Hrow' & Hsame).
  exists actor, db1, context, number, arn, (iam_role_principal role), rr, account, trust, row.
  rewrite Horg, Htrust. apply parse_iam_role_arn_ok in Hparse.
  unfold validate_role_trust in Hv. apply bind_ok in Hv as (? & _ & Hv). apply bind_ok in Hv as (? & _ & Hv).
  apply bind_ok in Hv as (d & Hd'%ok_or_ok & Hv). apply bind_ok in Hv as (? & _ & [= ->]).
  split_and!; try done; try (by destruct Hsame as [->|[t ->]]).
  unfold role_arn. by rewrite Hnum, Hname.
Qed.

(** The token of an assumed role works: without a session policy, the next
    request that presents it is authenticated as a session of that role and
    account, opened for the caller. *)
Lemma assumed_role_authenticates r source input secret db id token db' r' value :
  assume_iam_role config r source input secret db = (Ok (id, token), db') →
  assume_session_policy input = None → switch_console input = false → opaque_token token = true →
  headers r' AUTHORIZATION = Some value → to_str value = Some ("Bearer " ++ token)%string →
  ∃ session, authenticated_actor config r' db' = (Ok (ActorRoleSession session None), db') ∧
    session_id session = id ∧ session_policy session = None ∧
    ∃ row, role_session_rows db' !! id = Some row ∧ session_principal session = role_session_role row.
Proof.
  intros (actor & context & number & arn & target & role & trust & policy & switch & db1 & db2 & db3 & _ & _ & _ & Hd
    & _ & Hpol & _ & _ & _ & _ & _ & _ & Ht & Hcreate & -> & Hsw & Hswitch)%assume_role_ok Hnone Hoff Hopaque Hh Hstr.
  rewrite (Hsw Hoff) in Hswitch. injection Hswitch as <-. rewrite Hnone in Hpol. injection Hpol as <-.
  apply create_session_row in Hcreate as (rr & p & _ & _ & Hp & Hen & _ & _ & Hrow & Honly & Hnow & Hprin). simpl in *.
  unfold authenticated_actor. rewrite Hh, Hstr. unfold some_or, from_result, ok_or, mbind, api_bind.
  replace (strip_prefix "Bearer " ("Bearer " ++ "hcr_" ++ secret)%string) with (Some ("hcr_" ++ secret)%string)
    by (symmetry; by apply strip_prefix_spec).
  edestruct usable_session_ok as (session & Hsess & Hid & Hpr & Hpol); [exact Hrow | | done|].
  { unfold role_session_usable, role_session_live, identity_center_session_is_active. simpl.
    unfold principal_of in *. rewrite Hprin, Hp, Hnow. simpl. rewrite Hen.
    rewrite (trace_read now db db2 (λ _, eq_refl) Ht). rewrite !andb_true_r. lia. }
  exists session. split_and!; [|done | done | eauto].
  apply bearer_role_session; [done | done | done|]. unfold authenticate_iam_role_session.
  erewrite find_row_only; [exact Hsess | exact Hrow | by apply bool_decide_true|].
  intros i s Hs Heq%bool_decide_true_iff. by eapply Honly.
Qed.

(** ** Contexts and principals *)

(** The policies bound to a principal, or attached to a group it is in. *)
Definition attached (org : OrganizationId) (principal : PrincipalId) (db : Db) (policy : Uuid) : Prop :=
  (∃ id b, binding_rows db !! id = Some b ∧ binding_organization b = org ∧ binding_principal b = principal ∧
     binding_policy b = policy) ∨
  (∃ group g, group_rows db !! group = Some g ∧ group_organization g = org ∧
     (group, principal) ∈ iam_group_members (access db) ∧
     (group, policy) ∈ iam_group_policy_attachments (access db)).

Lemma exists_row_true {A} (p : Uuid → A → bool) m :
  exists_row p m = true ↔ ∃ id a, m !! id = Some a ∧ p id a = true.
Proof.
  unfold exists_row. rewrite existsb_exists. split.
  - intros ([id a] & Hin & Hp). apply list_elem_of_In, elem_of_map_to_list in Hin. eauto.
  - intros (id & a & Ha & Hp). exists (id, a). split; [by apply list_elem_of_In, elem_of_map_to_list | done].
Qed.

Lemma attached_policy_true org principal db id p :
  attached_policy org principal db id p = true ↔ policy_organization p = org ∧ attached org principal db id.
Proof.
  unfold attached_policy, attached. rewrite andb_true_iff, orb_true_iff, !exists_row_true, bool_decide_eq_true.
  setoid_rewrite andb_true_iff. setoid_rewrite andb_true_iff. setoid_rewrite bool_decide_eq_true. naive_solver.
Qed.

Definition context_exact (org : OrganizationId) (principal : PrincipalId) (db : Db)
    (context : AuthorizationContext) : Prop :=
  Iam.context_principal_id context = principal ∧
  (∀ d, d ∈ policies context ↔ ∃ id p, policy_rows db !! id = Some p ∧ policy_organization p = org ∧
     attached org principal db id ∧ from_value (policy_document p) = Some d) ∧
  (∀ row b, principal_of org principal db = Some row → permissions_boundary_policy_id row = Some b →
     is_Some (policy_of org b db) →
     ∃ p d, policy_of org b db = Some p ∧ from_value (policy_document p) = Some d ∧
       permissions_boundary context = Some d).

Lemma attached_documents_ok org principal db ds :
  attached_documents org principal db = Ok ds →
  ∀ d, d ∈ ds ↔ ∃ id p, policy_rows db !! id = Some p ∧ policy_organization p = org ∧
    attached org principal db id ∧ from_value (policy_document p) = Some d.
Proof.
  unfold attached_documents. rewrite collect_ok. intros Hall d. rewrite (list_elem_of_lookup ds). split.
  - intros [i Hi]. destruct (Forall2_lookup_r _ _ _ _ _ Hall Hi) as ([id p] & Hx & Hd%ok_or_ok).
    apply list_elem_of_lookup_2, elem_of_order_by_id, list_elem_of_filter in Hx as [Ha Hp%elem_of_map_to_list].
    apply attached_policy_true in Ha as [? ?]. eauto 7.
  - intros (id & p & Hp & Horg & Ha & Hd).
    assert (Hin : (id, p) ∈ order_by_id (filter (λ e, attached_policy org principal db (fst e) (snd e) = true)
      (map_to_list (policy_rows db)))).
    { apply elem_of_order_by_id, list_elem_of_filter. split; [by apply attached_policy_true | by apply elem_of_map_to_list]. }
    apply list_elem_of_lookup in Hin as [i Hi]. destruct (Forall2_lookup_l _ _ _ _ _ Hall Hi) as (d' & Hd' & Heq%ok_or_ok).
    exists i. simpl in Heq. congruence.
Qed.

Lemma read_context_exact org principal as_role db context :
  read_context org principal as_role db = Ok context → context_exact org principal db context.
Proof.
  unfold read_context. intros (ps & Hps & Hk)%bind_ok. apply bind_ok in Hk as (boundary & Hb & [= <-]).
  split; [done|]. split; [by apply attached_documents_ok|]. intros row b Hrow Hid [p Hp].
  unfold permissions_boundary_of in Hb. rewrite Hrow in Hb. simpl in Hb. rewrite Hid in Hb. simpl in Hb.
  rewrite Hp in Hb. apply bind_ok in Hb as (d & Hd%ok_or_ok & [= <-]). by exists p, d.
Qed.

(** Who an actor is in an account: the member that a user is, with the role of
    the member, or the principal of the credential, which administers nothing. *)
Definition acts_as (actor : AuthenticatedActor) (org : OrganizationId) (db : Db) (principal : PrincipalId)
    (as_role : string) : Prop :=
  let member user := ∃ m, organization_memberships db !! (org, user) = Some m ∧
    member_principal_id m = principal ∧ member_role m = as_role in
  match actor with
  | ActorUser s => member (session_user_id_of s)
  | ActorCliToken t => member (token_user_id t)
  | ActorRoleSession s _ => principal = session_principal s ∧ as_role = "service_account"
  | ActorWorkload w => principal = workload_principal w ∧ as_role = "service_account"
  | ActorApiKey k => principal = api_key_principal k ∧ as_role = "service_account"
  end.

Lemma user_context_ok user org db context :
  authorization_context user org db = Ok (Some context) →
  ∃ m row, organization_memberships db !! (org, user) = Some m ∧
    principal_of org (member_principal_id m) db = Some row ∧ enabled row = true ∧
    (∀ u, user_id row = Some u → u ∈ active_users db) ∧
    context_exact org (member_principal_id m) db context ∧ role context = member_role m.
Proof.
  unfold authorization_context, active_membership.
  destruct (organization_memberships db !! (org, user)) as [m|]; [|done]. simpl.
  destruct (principal_of org (member_principal_id m) db) as [row|] eqn:Hrow; [|done]. simpl.
  destruct (_ && _) eqn:Hu; [|done]. rewrite !andb_true_iff, !bool_decide_eq_true in Hu.
  destruct Hu as [[Hu Hen] Hact]. intros (c & Hc & [= ->])%bind_ok.
  exists m, row. split_and!; try done; [congruence | by eapply read_context_exact|].
  unfold read_context in Hc. apply bind_ok in Hc as (? & _ & Hc). by apply bind_ok in Hc as (? & _ & [= <-]).
Qed.

Lemma principal_context_ok principal org db context :
  authorization_context_for_principal principal org db = Ok (Some context) →
  ∃ row, principal_of org principal db = Some row ∧ enabled row = true ∧
    (∀ u, user_id row = Some u → u ∈ active_users db) ∧
    context_exact org principal db context ∧ role context = "service_account".
Proof.
  unfold authorization_context_for_principal, usable_principal.
  destruct (principal_of org principal db) as [row|] eqn:Hrow; [|done]. simpl.
  destruct (enabled row && _) eqn:Hu; [|done]. apply andb_true_iff in Hu as [Hen Hact].
  intros (c & Hc & [= ->])%bind_ok. exists row. split_and!; try done; [|by eapply read_context_exact|].
  - intros u Hu. rewrite Hu in Hact. by apply bool_decide_true_iff in Hact.
  - unfold read_context in Hc. apply bind_ok in Hc as (? & _ & Hc). by apply bind_ok in Hc as (? & _ & [= <-]).
Qed.

(** C9: The context of an authorization is what is stored: it belongs to one
    enabled principal of the account (of an active user, if it is a person's),
    its policies are exactly the documents bound to that principal or attached
    to a group it is in, its boundary is the policy set as boundary, and its
    role is that of the member - credentials of principals never have the role
    of an administrator. *)
Theorem contexts_are_exact actor org db context :
  stored_context actor org db context →
  ∃ principal row, acts_as actor org db principal (role context) ∧
    principal_of org principal db = Some row ∧ enabled row = true ∧
    (∀ u, user_id row = Some u → u ∈ active_users db) ∧ context_exact org principal db context.
Proof.
  destruct actor; simpl.
  - intros (m & row & ? & ? & ? & ? & ? & ?)%user_context_ok. exists (member_principal_id m), row. naive_solver.
  - intros [_ (row & ?)%principal_context_ok]. eexists _, row. naive_solver.
  - intros [_ (m & row & ? & ? & ? & ? & ? & ?)%user_context_ok]. exists (member_principal_id m), row. naive_solver.
  - intros [_ (row & ?)%principal_context_ok]. eexists _, row. naive_solver.
  - intros [_ (row & ?)%principal_context_ok]. eexists _, row. naive_solver.
Qed.

(** The account and principal a credential stands for. *)
Definition credential_of (actor : AuthenticatedActor) : option (OrganizationId * PrincipalId) :=
  match actor with
  | ActorWorkload w => Some (workload_organization w, workload_principal w)
  | ActorRoleSession s _ => Some (session_organization s, session_principal s)
  | ActorApiKey k => Some (api_key_organization k, api_key_principal k)
  | _ => None
  end.

Lemma credential_principal_enabled r db actor org principal :
  credential_good r db actor → credential_of actor = Some (org, principal) → enabled_in org principal db.
Proof.
  unfold credential_good. destruct actor as [|w|?|s b|k]; simpl; try done.
  - intros (token & row & _ & _ & _ & (_ & Hu & _) & <- & <- & _) [= <- <-]. done.
  - intros Hc [= <- <-]. assert (Hs : ∃ row, session_good db s row) by (destruct b; naive_solver).
    by destruct Hs as (row & _ & (-> & -> & _) & _ & _ & Hu & _).
  - intros (token & row & _ & _ & _ & (_ & _ & Hu) & <- & <-) [= <- <-]. done.
Qed.

(** Disabling a service account locks it out at once: no workload token, no
    key and no role session of it is accepted by the next request, whatever
    credentials it was given before; and its workload tokens are not accepted
    after it is enabled again either. *)
Lemma disabled_account_locked_out org principal db u db1 r actor db2 :
  set_service_account_enabled org principal false db = Ok (u, db1) →
  (authenticated_actor config r db1 = (Ok actor, db2) → credential_of actor ≠ Some (org, principal)) ∧
  (∀ u' db3 digest w, set_service_account_enabled org principal true db1 = Ok (u', db3) →
     authenticate_workload_token digest db3 = Some w →
     (workload_organization w, workload_principal w) ≠ (org, principal)).
Proof.
  unfold set_service_account_enabled, update_principal. intros Hrun. tx_inv Hrun.
  match goal with Hf : negb ?b = false |- _ => apply negb_false_iff in Hf end. subst. split.
  - intros Ha%authenticated_actor_good Hc. pose proof (credential_principal_enabled _ _ _ _ _ Ha Hc) as Hen.
    apply enabled_in_of in Hen. revert Hen. unfold principal_of. simpl. rewrite lookup_alter_eq.
    destruct (principals db !! principal) as [p|]; simpl; [|done]. by destruct (bool_decide _).
  - intros u' db3 digest w Hrun2 Hw [= Ho Hp]. tx_inv Hrun2. subst. unfold authenticate_workload_token in Hw.
    destruct (find_row _ _) as [[id t]|] eqn:E; [|done]. simpl in Hw. apply find_row_some in E as [Ht _].
    destruct (workload_token_usable _ t); [|done]. injection Hw as <-. simpl in *.
    apply map_lookup_filter_Some in Ht as [_ Hn]. simpl in Hn. tauto.
Qed.

End Mediation.
