(* ===== verification/FlashApi.v ===== *)
(** * Flash operations of the API: who may do what, and roll-backs

    Every request on backups, schedules, destinations, domains, roll-backs and the
    SSH keys of a service needs all of its permissions; SSH keys themselves are
    personal; background tasks act only while the principal they act for is
    permitted; a roll-back happens only after a failed deployment, to an earlier
    verified revision, and keeps the access controls and the disks of today. *)
From stdpp Require Import sorting.
From S2P Require Import Prelude Text Json Net Policy Iam RoleTrust Quota Specs Flash Store Usage Provider Prepare Services FlowAccess Cloud Identity Access FlashStore Authorize IdentityCenter Routes FlashOps Lifecycle CloudFacts IdentityFacts AccessFacts FlashFacts ApiFacts.

Lemma one_or_all {A} (P : Prop) (Q : A → Prop) (l : list A) : (∀ a, a ∈ l → P ∨ Q a) → P ∨ Forall Q l.
Proof.
  induction l as [|a l IH]; intros Hl; [right; constructor|]. destruct (Hl a) as [|Ha]; [by left | by left |].
  destruct IH as [|Hall]; [intros; apply Hl; by right | by left | right; by constructor].
Qed.

(** ** Requests *)

Section Requests.
Context `{LimitsDecoder, Serde FlowSpec, Serde FlashSpec, Serde SyouyuSpec, Serde VpcSpec}.
Context `{IpNetLib, UrlLib, JsonText, UuidText, SqlCast, Chrono, TimeText}.
Context `{WebLib, SqlText, SqlCollation, Serde PolicyDocument, Serde AwsPolicy, Serde RoleTrustDocument, SshLib}.
Context (config : RuntimeConfig) (provider : option FlashGateway).
Context (put_secret : Uuid → string → string → result ApiError ()) (reserved_names reserved_suffixes : string).

Inductive flash_call :=
| CallRollback (service : Uuid) (g expected : Z)
| CallPutPolicy (service : Uuid) (input : BackupPolicyInput)
| CallRunPolicy (service : Uuid)
| CallCreateBackup (service : Uuid) (name : string) (request : Uuid) (destination : option Uuid)
| CallDeleteBackup (backup : Uuid)
| CallVerifyBackup (backup : Uuid)
| CallRestore (backup project : Uuid) (name : string) (request : Uuid)
| CallCreateDestination (input : NewFlashBackupDestination)
| CallRotate (destination : Uuid) (access secret : string)
| CallAddDomain (service : Uuid) (host : string)
| CallRemoveDomain (service domain : Uuid)
| CallServiceKey (service key : Uuid) (on : bool).

Definition serve_flash (call : flash_call) (r : Request) (org : OrganizationId) : api () :=
  match call with
  | CallRollback service g expected => forget_answer (rollback config r org service g expected)
  | CallPutPolicy service input => forget_answer (put_policy config r org service input)
  | CallRunPolicy service => run_policy config r org service
  | CallCreateBackup service name request destination =>
      forget_answer (create_backup config provider r org service name request destination)
  | CallDeleteBackup backup => forget_answer (delete_backup config r org backup)
  | CallVerifyBackup backup => verify_backup config provider r org backup
  | CallRestore backup project name request =>
      forget_answer (restore_backup_to config provider r org backup project name request)
  | CallCreateDestination input => forget_answer (create_destination config provider put_secret r org input)
  | CallRotate destination access secret =>
      forget_answer (rotate_credentials config provider put_secret r org destination access secret)
  | CallAddDomain service host =>
      forget_answer (add_flash_domain config reserved_names reserved_suffixes r org service host)
  | CallRemoveDomain service domain => remove_flash_domain config r org service domain
  | CallServiceKey service key on => forget_answer (change_service_key config r org service key on)
  end.

(** The permissions a request needs: an action and a resource each. *)
Definition flash_permissions (call : flash_call) (org : OrganizationId) : list (string * string) :=
  match call with
  | CallRollback service _ _ | CallAddDomain service _ | CallRemoveDomain service _ | CallServiceKey service _ _ =>
      [("flash:UpdateInstance", flash_service_resource org service)]
  | CallPutPolicy service input =>
      [("flash:CreateBackup", flash_service_resource org service); ("flash:DeleteBackup", any_backup org)]
      ++ (if input_verify input then [("flash:RestoreBackup", any_backup org)] else [])
  | CallRunPolicy service | CallCreateBackup service _ _ _ =>
      [("flash:CreateBackup", flash_service_resource org service)]
  | CallDeleteBackup backup => [("flash:DeleteBackup", backup_resource org backup)]
  | CallVerifyBackup backup => [("flash:RestoreBackup", backup_resource org backup)]
  | CallRestore backup _ _ _ =>
      [("flash:RestoreBackup", backup_resource org backup);
       ("flash:CreateInstance", organization_resource org "flash/*")]
  | CallCreateDestination _ => [("flash:ManageBackupDestinations", destination_resource org "*")]
  | CallRotate destination _ _ =>
      [("flash:ManageBackupDestinations", destination_resource org (uuid_to_string destination))]
  end.

Lemma mediated_actor {B} actor org act res (f : AuthorizationContext → api B) :
  mediated actor org act res false (authorize_actor actor org act res ≫= f).
Proof. exact (mediated_authorize actor org act res false f). Qed.

Lemma authorize_quiet actor org act res : quiet (authorize_actor actor org act res).
Proof. exact (authorize_actor_quiet actor org act res false). Qed.

Lemma mediated_assoc {A B C} actor act res org (m : api A) (f : A → api B) (g : B → api C) :
  mediated actor org act res false (m ≫= λ a, f a ≫= g) → mediated actor org act res false ((m ≫= f) ≫= g).
Proof. apply mediated_ext. intros db. apply bind_assoc. Qed.

(** The authorization that is sought, or something quiet before it. *)
Ltac mediate_one :=
  match goal with
  | |- mediated _ _ ?act ?res _ (authorize_actor _ _ ?act ?res ≫= _) => apply mediated_actor
  | |- mediated _ _ _ _ _ (authorize_actor _ _ _ _ ≫= _) =>
      apply mediated_bind; [apply authorize_quiet | intros ?; mediate_one]
  | |- mediated _ _ _ _ _ ((authorize_actor _ _ _ _ ≫= _) ≫= _) =>
      apply mediated_assoc; mediate_one
  | |- mediated _ _ _ _ _ (_ ≫= _) => apply mediated_bind; [quiet_frame | intros ?; mediate_one]
  end.

Lemma flash_mediated call r org :
  ∃ f : AuthenticatedActor → api (),
    (∀ db x db', serve_flash call r org db = (x, db') → db' = db ∨ (authenticated_actor_mutation config r ≫= f) db = (x, db')) ∧
    ∀ actor act res, (act, res) ∈ flash_permissions call org → mediated actor org act res false (f actor).
Proof.
  destruct call as [service g expected|service input| | | | | | | |service host| |]; simpl.
  10: { exists (λ actor, (context ← authorize_actor actor org "flash:UpdateInstance" (flash_service_resource org service);
                 flash_service org service ;;
                 run (reserve_flash_domain org service (Iam.context_principal_id context) host)) ≫= λ _, mret ()).
    split.
    - intros db x db'. unfold add_flash_domain, forget_answer. rewrite !bind_assoc.
      intros [(e & [= _ <-] & _)|(u & db1 & [= _ <-] & Hrun)]%bind_cases; [by left|]. rewrite bind_assoc in Hrun.
      apply bind_cases in Hrun as [(e & He & _)|(u' & db1 & Hc & Hrun)].
      { left. revert He. unfold check. destruct (negb _); by intros [= _ <-]. }
      apply check_ok in Hc as [_ ->]. right. by rewrite bind_assoc in Hrun.
    - intros actor act res [[= -> ->]|[]%not_elem_of_nil]%elem_of_cons. apply mediated_forget, mediated_actor. }
  all: eexists; split;
    [intros db x db' Hrun; right; rewrite <- Hrun; symmetry; apply bind_assoc || reflexivity
    |intros actor act res Hin; simpl in Hin].
  all: repeat match goal with
    | Hin : _ ∈ [] |- _ => by apply not_elem_of_nil in Hin
    | Hin : _ ∈ _ :: _ |- _ => apply elem_of_cons in Hin as [[= -> ->]|Hin]
    | Hin : _ ∈ (if ?b then _ else _) |- _ => destruct b eqn:?
    end; cbv beta;
    try lazymatch goal with |- mediated _ _ _ _ _ (_ ≫= λ _, mret ()) => apply mediated_forget; cbv beta end; mediate_one.
Qed.

(** C14: Complete mediation of Flash operations.  A request that rolls a service
    back, changes or runs a schedule, makes, deletes, verifies or restores a
    backup, sets up a destination, binds or removes a domain, or changes the SSH
    keys of a service leaves nothing but audit records, times of use and used
    identifiers behind, unless its caller was authenticated and the policies
    stored when it arrived grant the caller every permission the request needs -
    three for a schedule that verifies its backups, two for a restore. *)
Theorem flash_complete_mediation call r org db x db' :
  serve_flash call r org db = (x, db') →
  trace_only db db' ∨
  ∃ actor db1, authenticated_actor_mutation config r db = (Ok actor, db1) ∧
    ∀ act res, (act, res) ∈ flash_permissions call org → ∃ context, granted actor org act res false db context.
Proof.
  destruct (flash_mediated call r org) as (f & Hf & Hm). intros [->|Hrun]%Hf; [by left|].
  apply bind_cases in Hrun as [(e & Hq%authenticated_actor_mutation_quiet & _)|(actor & db1 & Ha & Hrun)]; [by left|].
  pose proof (authenticated_actor_mutation_quiet _ _ _ _ _ Ha) as Hq.
  assert (Hall : trace_only db db' ∨ Forall (λ p, ∃ c, granted actor org (fst p) (snd p) false db c)
            (flash_permissions call org)).
  { apply one_or_all. intros [act res] Hin. destruct (Hm actor act res Hin _ _ _ Hrun) as [Ht|[c Hg]].
    - left. by etrans.
    - right. exists c. by eapply granted_trace. }
  destruct Hall as [|Hall]; [by left | right]. exists actor, db1. split; [done|]. rewrite Forall_forall in Hall.
  intros act res Hin. apply (Hall _ Hin).
Qed.

End Requests.

(** ** The specification of a roll-back *)

(** Keys that are taken from the current specification. *)
Lemma keep_current_fold current l fields :
  ∃ next, foldl (λ next key, next ≫= keep_current current key) (Some (Object fields)) l = Some (Object next) ∧
    ∀ key, field key next = if bool_decide (key ∈ l) then get key current else field key fields.
Proof.
  revert fields. induction l as [|k l IH]; intros fields; simpl; [by exists fields|].
  unfold keep_current at 2. destruct (get k current) as [v|] eqn:E; simpl.
  - destruct (IH (field_insert k v fields)) as (next & Hn & Hf). exists next. split; [done|]. intros key. rewrite Hf.
    destruct (decide (key = k)) as [->|Hne].
    + rewrite field_insert_eq, (bool_decide_eq_true_2 (k ∈ k :: l)) by (by left). by case_bool_decide.
    + rewrite field_insert_ne by done. erewrite bool_decide_ext; [done|]. rewrite elem_of_cons. naive_solver.
  - destruct (IH (field_remove k fields)) as (next & Hn & Hf). exists next. split; [done|]. intros key. rewrite Hf.
    destruct (decide (key = k)) as [->|Hne].
    + rewrite field_remove_eq, (bool_decide_eq_true_2 (k ∈ k :: l)) by (by left). by case_bool_decide.
    + rewrite field_remove_ne by done. erewrite bool_decide_ext; [done|]. rewrite elem_of_cons. naive_solver.
Qed.

Lemma as_u64_range v n : as_u64 v = Some n → 0 ≤ n ≤ u64_max.
Proof. destruct v as [| |[z|]| | |]; simpl; try done. destruct (in_range 0 u64_max z) eqn:E; [|done]. intros [= ->]. unfold in_range in E. lia. Qed.

Definition disk_at_least (current next0 next : option Value) : Prop :=
  ∀ n, current ≫= as_u64 = Some n →
    ∃ m, next ≫= as_u64 = Some m ∧ n ≤ m ∧ ∀ t, next0 ≫= as_u64 = Some t → t ≤ m.

Lemma keep_disk_spec current k fields :
  ∃ next, keep_disk current k (Object fields) = Some (Object next) ∧
    (∀ key, key ≠ k → field key next = field key fields) ∧
    disk_at_least (get k current) (field k fields) (field k next).
Proof.
  unfold keep_disk, disk_at_least. destruct (get k current ≫= as_u64) as [n|] eqn:E; [|by exists fields].
  eexists. split; [done|]. split; [intros key Hne; by apply field_insert_ne|]. intros ? [= <-]. simpl. rewrite String.eqb_refl.
  exists (Z.max (default 0 (field k fields ≫= as_u64)) n). simpl.
  apply bind_Some in E as (v & _ & Hn%as_u64_range).
  destruct (field k fields ≫= as_u64) as [t|] eqn:Et; simpl.
  - apply bind_Some in Et as (w & _ & Ht%as_u64_range). rewrite (proj2 (in_range_spec _ _ _)) by lia.
    split_and!; [done | lia | intros ? [= <-]; lia].
  - rewrite (proj2 (in_range_spec _ _ _)) by lia. split_and!; [done | lia | done].
Qed.

(** What a roll-back sets.  It always succeeds on a stored specification.
    Identity, environment, secrets, network, exposure, egress, whether the
    service is stopped, the backup it came from, metadata and region are those of
    today, so a roll-back never brings old access back; the ephemeral and the
    persistent disk are at least as large as today and as then, so no data is
    cut off; everything else is as in the revision. *)
Lemma rollback_keeps_access_and_disks target current :
  ∃ next, rollback_spec (Object target) current = Some next ∧
    (∀ key, key ∈ current_keys → get key next = get key current) ∧
    (∀ key, key ∈ disk_keys → disk_at_least (get key current) (field key target) (get key next)) ∧
    (∀ key, key ∉ current_keys → key ∉ disk_keys → get key next = field key target).
Proof.
  destruct (keep_current_fold current current_keys target) as (f0 & H0 & F0).
  destruct (keep_disk_spec current "ephemeral_storage_gib" f0) as (f1 & H1 & N1 & D1).
  destruct (keep_disk_spec current "persistent_storage_gib" f1) as (f2 & H2 & N2 & D2).
  exists (Object f2). unfold rollback_spec. rewrite H0. simpl. rewrite H1. simpl. rewrite H2. split_and!; [done | | |].
  - intros key Hk. assert (key ≠ "ephemeral_storage_gib" ∧ key ≠ "persistent_storage_gib") as [Ne Np].
    { split; intros ->; revert Hk; apply (bool_decide_eq_false_1 (_ ∈ current_keys)); by vm_compute. }
    by rewrite N2, N1, F0, bool_decide_eq_true_2.
  - intros key [->|[->|[]%not_elem_of_nil]%elem_of_cons]%elem_of_cons; simpl.
    + rewrite N2 by done. by rewrite F0 in D1.
    + by rewrite N1, F0 in D2.
  - intros key Hc Hd. simpl. assert (key ≠ "ephemeral_storage_gib" ∧ key ≠ "persistent_storage_gib") as [Ne Np].
    { split; intros ->; apply Hd; [left | right; left]. }
    by rewrite N2, N1, F0, bool_decide_eq_false_2.
Qed.

(** ** Background tasks *)

Section Tasks.
Context `{LimitsDecoder, Serde FlowSpec, Serde FlashSpec, Serde SyouyuSpec, Serde VpcSpec}.
Context `{IpNetLib, UrlLib, JsonText, UuidText, SqlCast, Chrono, TimeText}.
Context `{Serde PolicyDocument, Serde DeploymentPolicy}.
Context (provider : option FlashGateway).

(** The stored policies let a principal that acts in the background do
    something: the principal is enabled, is not a role, is allowed the action by
    its policies or administers the account, and no layer refuses it.  A person
    counts with what the person is allowed now. *)
Definition permitted (principal : PrincipalId) (org : OrganizationId) (act res : string) (db : Db) : Prop :=
  let request := Build_AuthorizationRequest org org act res (now db * NANOS_PER_SECOND) in
  is_iam_role_principal org principal db = false ∧ usable_principal principal org db = true ∧
  ∃ context levels,
    match active_principal_user principal db with
    | Some u => authorization_context u org db = Ok (Some context)
    | None => authorization_context_for_principal principal org db = Ok (Some context)
    end ∧ service_control_levels org db = Ok levels ∧
    (has_effect request Allow (policies context) ∨ is_administrator context = true) ∧
    ¬ has_effect request Deny (policies context) ∧
    (∀ b, permissions_boundary context = Some b → passes request [b]) ∧
    (∀ l, l ∈ levels → passes request l).

Lemma attempt_run {A} (m : api A) db x db' :
  attempt m db = (x, db') ↔ ∃ y, m db = (y, db') ∧ x = Ok y.
Proof. unfold attempt. destruct (m db) as [y d]. split; [intros [= <- <-]; eauto | by intros (? & [= <- <-] & ->)]. Qed.

Lemma still_attempt {A} (m : api A) : still m → still (attempt m).
Proof. intros Hm db x db' (y & Hy & _)%attempt_run. by eapply Hm. Qed.

Lemma allowed_still principal org act res : still (allowed principal org act res).
Proof.
  unfold allowed.
  repeat match goal with
  | |- still (_ ≫= _) => apply still_bind; [|intros ?]
  | |- still (attempt _) => apply still_attempt
  | |- still (evaluate_account _ _ _ _ _ _) => apply evaluate_account_still
  | |- still (if _ then _ else _) => case_match
  | |- still (match _ with _ => _ end) => case_match
  | _ => by apply still_same
  end.
Qed.

(** What an evaluation that allows says of the stored policies. *)
Lemma evaluate_account_allows context org act res db e db' :
  evaluate_account context org act res false (now db * NANOS_PER_SECOND) db = (Ok e, db') →
  decision e = Decision.Allow →
  let request := Build_AuthorizationRequest org org act res (now db * NANOS_PER_SECOND) in
  ∃ levels, service_control_levels org db = Ok levels ∧
    (has_effect request Allow (policies context) ∨ is_administrator context = true) ∧
    ¬ has_effect request Deny (policies context) ∧
    (∀ b, permissions_boundary context = Some b → passes request [b]) ∧
    (∀ l, l ∈ levels → passes request l).
Proof.
  unfold evaluate_account. intros Hw Hd. api_inv Hw. subst.
  repeat match goal with Hm : map_err _ _ = Ok _ |- _ => apply map_err_ok in Hm end.
  match goal with Hl : service_control_levels org db = Ok ?l |- _ => exists l; rename l into levels; rename Hl into Hlevels end.
  destruct (proj1 (evaluate_actor_allows context levels None org act res false (now db * NANOS_PER_SECOND)))
    as (_ & Hi & Hno & Hb & Hlv & _).
  { eexists. unfold evaluate_actor. rewrite bind_ok. split; [exists e; split; [done|]|].
    - unfold enforce_session_policy. rewrite Hd. simpl. unfold enforce_permissions_boundary. rewrite Hd. simpl. done.
    - done. }
  split_and!; [done | naive_solver | done | |]; intros b Hin; [by apply Hb | by apply Hlv].
Qed.

Lemma allowed_sound principal org act res db db' :
  allowed principal org act res db = (Ok true, db') → permitted principal org act res db.
Proof.
  unfold allowed. intros Hrun. api_step Hrun. destruct x eqn:Er in Hrun; [by api_inv Hrun|]. subst.
  apply api_bind_ok in Hrun as (usable & db1 & (y & Hy & [= ->])%attempt_run & Hrun).
  destruct y as [[c0|]|]; [|by api_inv Hrun..]. apply fetch_ok in Hy as [Hy ->].
  api_step Hrun. apply api_bind_ok in Hrun as (found & db1 & (z & Hz & [= ->])%attempt_run & Hrun).
  destruct z as [[context|]|]; [|by api_inv Hrun..].
  assert (Hz' : db1 = db ∧ match active_principal_user principal db with
    | Some u => authorization_context u org db = Ok (Some context)
    | None => authorization_context_for_principal principal org db = Ok (Some context) end).
  { subst. destruct (active_principal_user principal db); by apply fetch_ok in Hz as [? ->]. }
  destruct Hz' as [-> Hc]. api_step Hrun.
  apply api_bind_ok in Hrun as (e & db1 & (w & Hw & [= ->])%attempt_run & [Hd ->]%api_mret_ok).
  destruct w as [e|]; [|done]. symmetry in Hd. apply bool_decide_eq_true in Hd. subst.
  destruct (evaluate_account_allows _ _ _ _ _ _ _ Hw Hd) as (levels & Hlevels & Hi & Hno & Hb & Hlv).
  split_and!; [done | |].
  - unfold authorization_context_for_principal in Hy. by destruct (usable_principal principal org db).
  - by exists context, levels.
Qed.

(** ** Automatic roll-back *)

Lemma allowed_run principal org act res db b db' :
  allowed principal org act res db = (Ok b, db') → db' = db ∧ (b = true → permitted principal org act res db).
Proof. intros Hrun. split; [by eapply allowed_still|]. intros ->. by eapply allowed_sound. Qed.

Lemma elem_of_revisions org id db i g v :
  (i, g, v) ∈ flash_revisions org id db → i = id ∧ revision_rows db !! (id, g) = Some v ∧ revision_organization v = org.
Proof.
  unfold flash_revisions. intros Hin%elem_of_take. destruct Hin as (n & Hin & _). apply list_elem_of_lookup_2 in Hin.
  rewrite merge_sort_Permutation in Hin. apply list_elem_of_filter in Hin as [[Hi Ho] Hin%elem_of_map_to_list].
  simpl in *. by subst.
Qed.

Lemma previous_revision_some g org id db v :
  previous_revision g (flash_revisions org id db) = Some v →
  ∃ g', g' < g ∧ revision_rows db !! (id, g') = Some v ∧ revision_organization v = org ∧ revision_phase v = "ready".
Proof.
  unfold previous_revision. intros ([[i g'] w] & Hh & ->)%fmap_Some. apply head_Some_elem_of in Hh.
  apply list_elem_of_filter in Hh as [[Hg Hp] (-> & Hv & Ho)%elem_of_revisions]. simpl in *. eauto.
Qed.

Lemma ignore_services (m : api ()) db x db' :
  (∀ y d, m db = (y, d) → service_instances d = service_instances db) →
  ignore m db = (x, db') → service_instances db' = service_instances db.
Proof.
  intros Hm [(e & (y & Hy & _)%attempt_run & _)|(a & db1 & (y & Hy & _)%attempt_run & [= _ <-])]%bind_cases;
    by eapply Hm.
Qed.

Lemma run_frame_services (t : tx ()) db y d :
  keeps flash_frame t → run t db = (y, d) → service_instances d = service_instances db.
Proof.
  intros Ht. unfold run. destruct (t db) as [[a db1]|e] eqn:E; intros [= _ <-]; [|done].
  by destruct (flash_frame_agrees _ _ (Ht _ _ _ E)).
Qed.

Lemma roll_back_run i principal previous db x db' :
  roll_back i principal previous db = (x, db') →
  db' = db ∨ ∃ next updated db1, rollback_spec (revision_spec previous) (spec (instance_row i)) = Some next ∧
    update_service_instance_checked (organization_id (instance_row i)) (instance_id i) "flash" principal None
      (name (instance_row i)) next (Some (generation (instance_row i))) db = Ok (updated, db1) ∧
    service_instances db' = service_instances db1.
Proof.
  intros Hrun. unfold roll_back in Hrun.
  apply bind_cases in Hrun as [(e & He & _)|(next & db1 & [Hnext ->]%some_or_ok & Hrun)].
  { left. revert He. by intros [= _ <-]. }
  apply bind_cases in Hrun as [(e & (y & _ & ?)%attempt_run & _)|(found & db1 & (y & Hy & [= ->])%attempt_run & Hrun)]; [done|].
  revert Hy. unfold run. destruct (update_service_instance_checked _ _ _ _ _ _ _ _ db) as [[i' d]|e] eqn:Eu;
    intros [= <- <-]; [|injection Hrun as _ <-; by left].
  right. exists next, i', d. split_and!; [done.. |].
  apply bind_cases in Hrun as [(e & Hr & _)|(u & db1 & Hr & Hrun)].
  - eapply ignore_services; [|exact Hr]. intros y d1. apply run_frame_services, on_flash_frame.
  - transitivity (service_instances db1).
    + eapply ignore_services; [|exact Hrun]. intros y d1. apply run_frame_services, upsert_notice_frame.
    + eapply ignore_services; [|exact Hr]. intros y d1. apply run_frame_services, on_flash_frame.
Qed.

(** A deployment is rolled back only after it failed.  If considering a report
    about a service changes any service, then the service is neither stopped nor
    being deleted nor out of quota, its current revision was never seen running
    although the deadline of its deployment policy has passed since it was
    activated, and the policy asks for it; the principal who asked for the
    current revision may still update the service; and the change is the next
    generation with the execution settings of an earlier verified revision of the
    same service, merged with the access controls and disks of today. *)
Lemma automatic_rollback_guarded i status db x db' :
  let row := instance_row i in
  consider_rollback i status db = (x, db') →
  service_instances db' = service_instances db ∨
  ∃ current activation previous g principal next updated db1,
    json_true "stopped" (spec row) = false ∧ state row ≠ Deleting ∧ quota_exhausted status = false ∧
    flash_revision (organization_id row) (instance_id i) (generation row) db = Ok current ∧
    revision_ready_at current = None ∧ activation_time (spec row) current = Some activation ∧
    auto_rollback (deployment_policy (spec row)) = true ∧
    activation + deadline_seconds (deployment_policy (spec row)) ≤ now db ∧
    g < generation row ∧ revision_rows db !! (instance_id i, g) = Some previous ∧ revision_phase previous = "ready" ∧
    revision_principal current = Some principal ∧
    permitted principal (organization_id row) "flash:UpdateInstance"
      (flash_service_resource (organization_id row) (instance_id i)) db ∧
    rollback_spec (revision_spec previous) (spec row) = Some next ∧
    update_service_instance_checked (organization_id row) (instance_id i) "flash" principal None (name row) next
      (Some (generation row)) db = Ok (updated, db1) ∧
    service_instances db' = service_instances db1.
Proof.
  intros row Hrun. unfold consider_rollback in Hrun. fold row in Hrun.
  destruct (_ || _ || _) eqn:Eg in Hrun; [injection Hrun as _ <-; by left|]. rewrite !orb_false_iff in Eg.
  destruct Eg as [[Est Edel] Equ]. apply bool_decide_eq_false in Edel.
  apply bind_cases in Hrun as [(e & (y & _ & ?)%attempt_run & _)|(found & db1 & (y & Hy & [= ->])%attempt_run & Hrun)]; [done|].
  destruct y as [current|]; [|injection Hy as _ <-; injection Hrun as _ <-; by left]. apply fetch_ok in Hy as [Hy ->].
  apply bind_cases in Hrun as [(e & [=] & _)|(t & db1 & [= <- <-] & Hrun)].
  destruct (deployment_failed _ _ _) eqn:Ef in Hrun; simpl in Hrun; [|injection Hrun as _ <-; by left].
  apply bind_cases in Hrun as [(e & [=] & _)|(revisions & db1 & [= <- <-] & Hrun)].
  destruct (previous_revision _ _) as [previous|] eqn:Ep in Hrun; [|injection Hrun as _ <-; by left].
  destruct (revision_principal current) as [principal|] eqn:Epr in Hrun; [|injection Hrun as _ <-; by left].
  apply bind_cases in Hrun as [(e & ->%allowed_still & _)|(b & db1 & [-> Hperm]%allowed_run & Hrun)]; [by left|].
  destruct b; [|injection Hrun as _ <-; by left]. specialize (Hperm eq_refl).
  unfold deployment_failed in Ef. destruct (activation_time _ _) as [activation|] eqn:Ea in Ef; [|done].
  rewrite !andb_true_iff, negb_true_iff, negb_true_iff in Ef. destruct Ef as [[Eauto Eready] Edead].
  destruct (previous_revision_some _ _ _ _ _ Ep) as (g & Hg & Hprev & _ & Hph).
  destruct (roll_back_run _ _ _ _ _ _ Hrun) as [->|(next & updated & db1 & Hnext & Hup & Hsame)]; [by left|].
  right. exists current, activation, previous, g, principal, next, updated, db1. split_and!; try done.
  - by destruct (revision_ready_at current).
  - lia.
Qed.
(** The permissions a schedule needs. *)
Definition schedule_permitted (service : Uuid) (p : BackupPolicyRow) (db : Db) : Prop :=
  let org := schedule_organization p in
  permitted (schedule_principal p) org "flash:CreateBackup" (flash_service_resource org service) db ∧
  permitted (schedule_principal p) org "flash:DeleteBackup" (any_backup org) db ∧
  (verify_restore p = true → permitted (schedule_principal p) org "flash:RestoreBackup" (any_backup org) db).

Lemma maybe_allowed (b : bool) principal org act res db x db' :
  (if b then allowed principal org act res else mret true) db = (x, db') →
  db' = db ∧ (x = Ok true → b = true → permitted principal org act res db).
Proof.
  destruct b; [|by intros [= <- <-]]. intros Hrun. split; [by eapply allowed_still|]. intros -> _. by eapply allowed_sound.
Qed.

(** C26: Schedules do not outlive permissions.  The run of a schedule makes a backup
    only if at that time the principal of the schedule is permitted to make
    backups of the service, to delete backups and, if backups are to be verified,
    to restore them; and retention deletes backups only if at that time the
    principal is permitted to delete and, in the same case, to restore them. *)
Theorem schedules_need_permission schedule_request schedule_name service p db :
  (∀ x db', run_backup_policy provider schedule_request schedule_name service p db = (x, db') →
     backup_rows db' = backup_rows db ∨ schedule_permitted service p db) ∧
  (∀ x db', enforce_retention (service, p) db = (x, db') →
     backup_rows db' = backup_rows db ∨
     (permitted (schedule_principal p) (schedule_organization p) "flash:DeleteBackup" (any_backup (schedule_organization p)) db ∧
      (verify_restore p = true →
       permitted (schedule_principal p) (schedule_organization p) "flash:RestoreBackup" (any_backup (schedule_organization p)) db))).
Proof.
  split.
  - intros x db' Hrun. unfold run_backup_policy in Hrun.
    apply bind_cases in Hrun as [(e & ->%allowed_still & _)|(b1 & db1 & [-> P1]%allowed_run & Hrun)]; [by left|].
    destruct b1; simpl in Hrun; [specialize (P1 eq_refl) | injection Hrun as _ <-; by left].
    apply bind_cases in Hrun as [(e & ->%allowed_still & _)|(b2 & db1 & [-> P2]%allowed_run & Hrun)]; [by left|].
    apply bind_cases in Hrun as [(e & [-> _]%maybe_allowed & _)|(b3 & db1 & [-> P3]%maybe_allowed & Hrun)]; [by left|].
    destruct b2, b3; simpl in Hrun; try (injection Hrun as _ <-; by left).
    right. split_and!; [done | by apply P2 | intros Hv; apply P3; by rewrite ?Hv].
  - intros x db' Hrun. unfold enforce_retention in Hrun. simpl in Hrun.
    apply bind_cases in Hrun as [(e & ->%allowed_still & _)|(b2 & db1 & [-> P2]%allowed_run & Hrun)]; [by left|].
    apply bind_cases in Hrun as [(e & [-> _]%maybe_allowed & _)|(b3 & db1 & [-> P3]%maybe_allowed & Hrun)]; [by left|].
    destruct b2, b3; simpl in Hrun; try (injection Hrun as _ <-; by left).
    right. split; [by apply P2 | intros Hv; by apply P3].
Qed.

End Tasks.
