(* ===== verification/ServiceApi.v ===== *)
(** * Who may create, change and delete services

    Every request on realtime services, networks, applications, their secrets and
    buckets needs all of its permissions: one for the request, one for every
    security group an application joins, and one for the role it runs as.  A
    request that is refused may still have brought the catalog of GPUs up to date
    with the provider, and nothing else: nothing is asked of the secret manager
    then, either. *)
From S2P Require Import Prelude Text Json Net Policy Iam RoleTrust Quota Specs Flash Store Usage Provider Prepare Services FlowAccess Cloud Identity Access Admin FlashStore Authorize Outside IdentityCenter Routes FlashOps ServiceRoutes Lifecycle CloudFacts IdentityFacts AccessFacts FlashFacts ApiFacts FlashApi AdminFacts.

Section Requests.
Context `{LimitsDecoder, Serde FlowSpec, Serde FlashSpec, Serde SyouyuSpec, Serde VpcSpec}.
Context `{IpNetLib, UrlLib, JsonText, UuidText, SqlCast, Chrono, TimeText}.
Context `{WebLib, SqlText, SqlCollation, Serde PolicyDocument}.
Context (config : RuntimeConfig) (provider : option FlashServiceGateway).
Context (secret_manager : option (result SecretManagerError SecretManagerClient)).

Inductive service_call :=
| CallCreateRealtime (project : ProjectId) (name : string) (s : FlowSpec)
| CallUpdateRealtime (id : ServiceInstanceId) (name : option string) (s : option FlowSpec)
| CallDeleteRealtime (id : ServiceInstanceId)
| CallCreateVpc (project : ProjectId) (name : string) (s : VpcSpec)
| CallUpdateVpc (id : ServiceInstanceId) (name : string) (s : VpcSpec)
| CallDeleteVpc (id : ServiceInstanceId)
| CallCreateFlash (project : ProjectId) (name : string) (s : FlashSpec)
| CallUpdateFlash (id : ServiceInstanceId) (project : option ProjectId) (name : string) (s : FlashSpec)
| CallExecution (id : ServiceInstanceId) (stop : bool)
| CallDeleteFlash (id : ServiceInstanceId)
| CallPutSecret (id : ServiceInstanceId) (n value : string) (for_load_balancer : bool)
| CallDeleteSecret (id : ServiceInstanceId) (n : string)
| CallCreateBucket (project : ProjectId) (name : string) (s : SyouyuSpec)
| CallUpdateBucket (id : ServiceInstanceId) (name : string) (s : SyouyuSpec)
| CallDeleteBucket (id : ServiceInstanceId).

Definition serve_service (call : service_call) (r : Request) (org : OrganizationId) : outside SecretRequest () :=
  match call with
  | CallCreateRealtime project name s => inside (forget_answer (create_realtime_service config r org project name s))
  | CallUpdateRealtime id name s => inside (forget_answer (update_realtime_service config r org id name s))
  | CallDeleteRealtime id => inside (forget_answer (delete_realtime_service config r org id))
  | CallCreateVpc project name s => inside (forget_answer (create_vpc config r org project name s))
  | CallUpdateVpc id name s => inside (forget_answer (update_vpc config r org id name s))
  | CallDeleteVpc id => inside (forget_answer (delete_vpc config r org id))
  | CallCreateFlash project name s => inside (forget_answer (create_flash_service config provider r org project name s))
  | CallUpdateFlash id project name s =>
      inside (forget_answer (update_flash_service config provider secret_manager r org id project name s))
  | CallExecution id stop => inside (forget_answer (set_flash_service_execution config r org id stop))
  | CallDeleteFlash id => inside (forget_answer (delete_flash_service config secret_manager r org id))
  | CallPutSecret id n value lb => put_flash_secret_value config provider secret_manager r org id n value lb
  | CallDeleteSecret id n => delete_flash_secret config provider secret_manager r org id n
  | CallCreateBucket project name s => inside (forget_answer (create_syouyu_bucket config r org project name s))
  | CallUpdateBucket id name s => inside (forget_answer (update_syouyu_bucket config r org id name s))
  | CallDeleteBucket id => inside (forget_answer (delete_syouyu_bucket config r org id))
  end.

(** The permissions an application needs for what it refers to. *)
Definition attachment_permissions (org : OrganizationId) (s : FlashSpec) : list (string * string) :=
  (match network s with
   | Some n => (λ g, ("vpc:AttachSecurityGroup", security_group_resource org (vpc_id n) g)) <$> attached_groups n
   | None => []
   end)
  ++ (match task_role s with Some p => [("iam:PassRole", principal_resource org p)] | None => [] end).

Definition service_permissions (call : service_call) (org : OrganizationId) : list (string * string) :=
  match call with
  | CallCreateRealtime _ _ _ => [("realtime:CreateService", organization_resource org "realtime/*")]
  | CallUpdateRealtime id _ _ => [("realtime:UpdateService", realtime_service_resource org id)]
  | CallDeleteRealtime id => [("realtime:DeleteService", realtime_service_resource org id)]
  | CallCreateVpc _ _ _ => [("vpc:CreateNetwork", vpc_resource org None)]
  | CallUpdateVpc id _ _ => [("vpc:UpdateNetwork", vpc_resource org (Some id))]
  | CallDeleteVpc id => [("vpc:DeleteNetwork", vpc_resource org (Some id))]
  | CallCreateFlash _ _ s => ("flash:CreateInstance", flash_collection_resource org) :: attachment_permissions org s
  | CallUpdateFlash id _ _ s => ("flash:UpdateInstance", flash_service_resource org id) :: attachment_permissions org s
  | CallExecution id _ | CallPutSecret id _ _ _ | CallDeleteSecret id _ =>
      [("flash:UpdateInstance", flash_service_resource org id)]
  | CallDeleteFlash id => [("flash:DeleteInstance", flash_service_resource org id)]
  | CallCreateBucket _ _ _ => [("syouyu:CreateBucket", syouyu_collection_resource org)]
  | CallUpdateBucket id _ _ => [("syouyu:UpdateBucket", syouyu_bucket_resource org id)]
  | CallDeleteBucket id => [("syouyu:DeleteBucket", syouyu_bucket_resource org id)]
  end.

(** ** What a refused request leaves *)

(** The catalog the provider answers is stored. *)
Definition synced (db db' : Db) : Prop :=
  ∃ p catalog u, provider = Some p ∧ list_gpu_catalog p = Ok catalog ∧ sync_gpu_catalog catalog db = Ok (u, db').

(** Traces, and the catalog of GPUs as the provider answers it. *)
Definition faint : Db → Db → Prop := rtc (λ db db', trace_only db db' ∨ synced db db').

Lemma trace_faint db db' : trace_only db db' → faint db db'.
Proof. intros Ht. apply rtc_once. by left. Qed.

Lemma remove_devices_frame l : keeps gpu_frame (remove_devices l).
Proof. intros db u db' Hrun. unfold remove_devices in Hrun. tx_inv Hrun. subst. apply set_gpus_frame. Qed.

Lemma sync_frame devices db u db' :
  sync_gpu_catalog devices db = Ok (u, db') → ∃ d, gpu_frame db d ∧ event_frame d db'.
Proof.
  unfold sync_gpu_catalog. intros Hrun. tx_inv Hrun. subst.
  match goal with He : enqueue_flash_gpu_reconciles _ ?d = _ |- _ => apply gpu_events_frame in He; exists d end.
  split; [|done].
  etrans; [by eapply remove_devices_frame | by eapply sync_devices_frame].
Qed.

(** Policies do not depend on the catalog. *)
Lemma granted_synced actor org act res implicit db db' context :
  synced db db' → granted actor org act res implicit db' context → granted actor org act res implicit db context.
Proof.
  intros (p & catalog & u & _ & _ & (d & (n & dv & a & ->) & (n' & o & f & ->))%sync_frame). exact (λ Hg, Hg).
Qed.

Lemma granted_faint actor org act res implicit db db' context :
  faint db db' → granted actor org act res implicit db' context → granted actor org act res implicit db context.
Proof.
  induction 1 as [|a b c [Ht|Hs] _ IH]; [done | |]; intros Hg%IH; [by eapply granted_trace | by eapply granted_synced].
Qed.

Definition faintly {A} (m : api A) : Prop := ∀ db x db', m db = (x, db') → faint db db'.

Lemma quiet_faintly {A} (m : api A) : quiet m → faintly m.
Proof. intros Hm db x db' Hq%Hm. by apply trace_faint. Qed.

Lemma sync_faintly : faintly (sync_gpu_catalog_from_provider provider).
Proof.
  intros db x db' Hrun. unfold sync_gpu_catalog_from_provider in Hrun.
  apply bind_cases in Hrun as [(e & He & _)|(p & db1 & [Hp ->]%some_or_ok & Hrun)].
  { revert He. unfold some_or. destruct provider; by intros [= _ <-]. }
  apply bind_cases in Hrun as [(e & [= _ <-] & _)|(catalog & db1 & Hc & Hrun)]; [done|].
  injection Hc as Hc <-. apply map_err_ok in Hc. revert Hrun. unfold accept_gpu_catalog.
  destruct (sync_gpu_catalog catalog db) as [[u d]|[]] eqn:E; intros [= _ <-]; try done.
  apply rtc_once. right. by exists p, catalog, u.
Qed.

Definition guarded {A} (actor : AuthenticatedActor) (org : OrganizationId) (act res : string) (m : api A) : Prop :=
  ∀ db x db', m db = (x, db') → faint db db' ∨ ∃ context, granted actor org act res false db context.

Lemma mediated_guarded {A} actor org act res (m : api A) :
  mediated actor org act res false m → guarded actor org act res m.
Proof. intros Hm db x db' [Ht|Hg]%Hm; [left; by apply trace_faint | by right]. Qed.

Lemma guarded_bind {A B} actor org act res (m : api A) (f : A → api B) :
  faintly m → (∀ a, guarded actor org act res (f a)) → guarded actor org act res (m ≫= f).
Proof.
  intros Hm Hf db x db' [(e & Hq%Hm & _)|(a & db1 & Hq%Hm & Hrun)]%bind_cases; [by left|].
  destruct (Hf _ _ _ _ Hrun) as [Ht|[c Hg]]; [left; by etrans | right; eexists; by eapply granted_faint].
Qed.

Lemma guarded_quiet_bind {A B} actor org act res (m : api A) (f : A → api B) :
  quiet m → (∀ a, guarded actor org act res (f a)) → guarded actor org act res (m ≫= f).
Proof. intros Hm. apply guarded_bind. by apply quiet_faintly. Qed.

Lemma guarded_forget {A} actor org act res (m : api A) :
  guarded actor org act res m → guarded actor org act res (m ≫= λ _, mret ()).
Proof. intros Hm db x db' [(e & Hq & _)|(a & db1 & Hq & [= _ <-])]%bind_cases; by eapply Hm. Qed.

Lemma guarded_authorize {B} actor org act res (f : AuthorizationContext → api B) :
  guarded actor org act res (authorize_actor actor org act res ≫= f).
Proof. apply mediated_guarded, mediated_actor. Qed.

(** The permissions of the security groups, and of the role. *)
Lemma groups_quiet actor org vpc groups : quiet (authorize_groups actor org vpc groups).
Proof. induction groups; simpl; quiet_frame; [apply authorize_quiet | done]. Qed.

Lemma attachment_quiet actor org s : quiet (authorize_vpc_attachment actor org s).
Proof. unfold authorize_vpc_attachment. destruct (network s); [apply groups_quiet | quiet_frame]. Qed.

Lemma task_role_quiet actor org role : quiet (authorize_task_role actor org role).
Proof. unfold authorize_task_role. quiet_frame. apply authorize_quiet. Qed.

Lemma mediated_groups {B} actor org vpc groups g (f : () → api B) :
  g ∈ groups →
  mediated actor org "vpc:AttachSecurityGroup" (security_group_resource org vpc g) false
    (authorize_groups actor org vpc groups ≫= f).
Proof.
  induction groups as [|h groups IH]; [by intros []%not_elem_of_nil|].
  intros Hg. simpl. apply mediated_assoc. apply elem_of_cons in Hg as [->|Hg]; [apply mediated_actor|].
  apply mediated_bind; [apply authorize_quiet | intros _; by apply IH].
Qed.

Lemma mediated_attachment {A} actor org s act res (f : () → () → api A) :
  (act, res) ∈ attachment_permissions org s →
  mediated actor org act res false
    (authorize_vpc_attachment actor org s ≫= λ u, authorize_task_role actor org (task_role s) ≫= f u).
Proof.
  unfold attachment_permissions. intros [Hin|Hin]%elem_of_app.
  - unfold authorize_vpc_attachment. destruct (network s) as [n|]; [|by apply not_elem_of_nil in Hin].
    apply list_elem_of_fmap in Hin as (g & [= -> ->] & Hg). by apply mediated_groups.
  - apply mediated_bind; [apply attachment_quiet | intros u].
    unfold authorize_task_role. destruct (task_role s) as [p|]; [|by apply not_elem_of_nil in Hin].
    apply list_elem_of_singleton in Hin as [= -> ->]. apply mediated_assoc, mediated_actor.
Qed.

Lemma provided_service_quiet prov org id : quiet (provided_service prov org id).
Proof. unfold provided_service. quiet_frame. Qed.
Lemma flash_service_quiet org id : quiet (flash_service org id).
Proof. unfold flash_service. quiet_frame. Qed.

(** The authorization that is sought, or something faint before it. *)
Ltac guard_one :=
  cbv zeta;
  match goal with
  | Hin : (?act, ?res) ∈ attachment_permissions ?org ?s |- guarded _ ?org ?act ?res (authorize_vpc_attachment _ ?org _ ≫= _) =>
      apply mediated_guarded, mediated_attachment; exact Hin
  | |- guarded _ _ ?act ?res (authorize_actor _ _ ?act ?res ≫= _) => apply guarded_authorize
  | |- guarded _ _ _ _ (authorize_vpc_attachment _ _ _ ≫= _) =>
      apply guarded_quiet_bind; [apply attachment_quiet | intros ?; guard_one]
  | |- guarded _ _ _ _ (authorize_task_role _ _ _ ≫= _) =>
      apply guarded_quiet_bind; [apply task_role_quiet | intros ?; guard_one]
  | |- guarded _ _ _ _ ((if ?b then sync_gpu_catalog_from_provider _ else _) ≫= _) =>
      apply guarded_bind; [destruct b; [apply sync_faintly | by apply quiet_faintly, quiet_same] | intros ?; guard_one]
  | |- guarded _ _ _ _ (_ ≫= _) => apply guarded_quiet_bind; [quiet_frame; first [apply provided_service_quiet | apply flash_service_quiet] | intros ?; guard_one]
  end.

(** The same of calls that reach outside: nothing is sent, either. *)
Definition held {A} (actor : AuthenticatedActor) (org : OrganizationId) (act res : string)
    (m : outside SecretRequest A) : Prop :=
  ∀ db x db' sent, m db = (x, db', sent) →
    faint db db' ∧ sent = [] ∨ ∃ context, granted actor org act res false db context.

Lemma held_inside {A} actor org act res (m : api A) : guarded actor org act res m → held actor org act res (inside m).
Proof. intros Hm db x db' sent [Hrun ->]%inside_ok. destruct (Hm _ _ _ Hrun); [by left | by right]. Qed.

Lemma held_authorize {B} actor org act res (f : AuthorizationContext → outside SecretRequest B) :
  held actor org act res (inside (authorize_actor actor org act res) ≫= f).
Proof.
  intros db x db' sent [(e & He & _ & ->)|(c & db1 & Hc & _)]%inside_cases.
  - left. split; [|done]. by eapply trace_faint, authorize_quiet.
  - right. exists c. by eapply authorize_granted.
Qed.

Lemma service_guarded call r org :
  ∃ (pre : api ()) (f : AuthenticatedActor → outside SecretRequest ()), still pre ∧
    (∀ db, serve_service call r org db = (inside pre ≫= λ _, inside (authenticated_actor_mutation config r) ≫= f) db) ∧
    ∀ actor act res, (act, res) ∈ service_permissions call org → held actor org act res (f actor).
Proof.
  destruct call as [| | | | | | | | | |id n value lb|id n| | |]; simpl.
  11: eexists (from_result (validate_flash_secret_name n) ;; check _ _), _; split_and!;
    [apply still_bind; [by apply still_same | intros; apply still_check]
    |intros db; symmetry; apply inside_assoc |].
  12: eexists (from_result (validate_flash_secret_name n)), _; split_and!; [by apply still_same | intros db; reflexivity |].
  all: try (eexists (mret ()), _; split_and!; [by apply still_same | intros db; etrans; [exact (inside_forget _ _ db) | symmetry; exact (inside_ret () _ db)] |]).
  all: intros actor act res Hin; simpl in Hin;
    repeat match goal with
    | Hin : _ ∈ [] |- _ => by apply not_elem_of_nil in Hin
    | Hin : _ ∈ _ :: _ |- _ => apply elem_of_cons in Hin as [[= -> ->]|Hin]
    end; cbv beta;
    lazymatch goal with
    | |- held _ _ _ _ (inside (authorize_actor _ _ _ _) ≫= _) => apply held_authorize
    | |- held _ _ _ _ (inside _) => apply held_inside, guarded_forget; cbv beta; guard_one
    end.
Qed.

(** What a request may ask about: the one secret of the one application. *)
Definition concerns (call : service_call) (org : OrganizationId) (q : SecretRequest) : Prop :=
  match call, q with
  | CallPutSecret id n value _, RequestPut id' n' value' => id' = id ∧ n' = n ∧ value' = value
  | CallPutSecret id n value _, RequestLoadBalancer c n' value' =>
      call_organization c = org ∧ call_service c = id ∧ n' = n ∧ value' = Some value
  | CallDeleteSecret id n, RequestDelete id' n' => id' = id ∧ n' = n
  | CallDeleteSecret id n, RequestLoadBalancer c n' value' =>
      call_organization c = org ∧ call_service c = id ∧ n' = n ∧ value' = None
  | _, _ => False
  end.

Lemma trace_services db db' : trace_only db db' → service_instances db' = service_instances db.
Proof. intros [E _ _]. exact (f_equal service_instances E). Qed.

Lemma flash_service_ok org id db i db' :
  flash_service org id db = (Ok i, db') →
  db' = db ∧ instance_id i = id ∧ service_instances db !! id = Some (instance_row i) ∧ organization_id (instance_row i) = org.
Proof.
  unfold flash_service. intros Hrun. api_inv Hrun. subst.
  match goal with Hf : (_ ≫= _) = Some _ |- _ => apply bind_Some in Hf as (row & Hr & Hf) end.
  destruct (in_org _ _) eqn:Eo; [|done]. destruct (has_provider _ _); [|done]. simplify_eq/=.
  by apply bool_decide_eq_true in Eo.
Qed.

Lemma asks_service {A} (P : SecretRequest → Prop) org id (f : ServiceInstance → outside SecretRequest A) :
  (∀ i, instance_id i = id → organization_id (instance_row i) = org → asks P (f i)) →
  asks P (inside (flash_service org id) ≫= f).
Proof.
  intros Hf db x db' sent [(e & _ & _ & ->)|(i & db1 & (-> & Hi & _ & Ho)%flash_service_ok & Hrun)]%inside_cases; [done|].
  by eapply Hf.
Qed.

Lemma service_concerns call r org : asks (concerns call org) (serve_service call r org).
Proof.
  destruct call; cbn [serve_service]; try apply asks_inside; unfold put_flash_secret_value, delete_flash_secret;
    repeat lazymatch goal with
    | |- asks _ (inside (flash_service _ _) ≫= _) => apply asks_service; intros ?
    | |- _ → _ => intros ?
    | |- asks _ (_ ≫= _) => apply asks_bind; [|intros ?]
    | |- asks _ (inside _) => apply asks_inside
    | |- asks _ (mret _) => by intros ???? [= _ _ <-]
    | |- asks _ (emit _ _) => by apply asks_send
    | |- asks _ (if ?b then _ else _) => destruct b
    | |- asks _ (let _ := _ in _) => cbv zeta
    end.
Qed.

(** C15: Complete mediation of services.  A request that creates, changes, stops,
    starts or deletes a realtime service, a network, an application or a bucket,
    or writes or deletes a secret of an application, leaves nothing but audit
    records, times of use, used identifiers and the GPU catalog the provider
    answered behind, and asks nothing of the secret manager and of the load balancer
    that would change a secret, unless its caller was authenticated and the policies
    stored when it arrived grant the caller every permission the request needs:
    that of the request itself, to attach each of the security groups the
    application names, and to pass the role it names.  Whatever is asked is about
    the secret of the application that the request names. *)
Theorem service_complete_mediation call r org db x db' sent :
  serve_service call r org db = (x, db', sent) →
  Forall (concerns call org) sent ∧
  (faint db db' ∧ sent = [] ∨
   ∃ actor db1, authenticated_actor_mutation config r db = (Ok actor, db1) ∧
     ∀ act res, (act, res) ∈ service_permissions call org → ∃ context, granted actor org act res false db context).
Proof.
  intros Hrun. split; [by eapply service_concerns|]. revert Hrun.
  destruct (service_guarded call r org) as (pre & f & Hpre & Hf & Hm). rewrite Hf. clear Hf. intros Hrun.
  apply inside_cases in Hrun as [(e & ->%Hpre & _ & ->)|(u & db0 & ->%Hpre & Hrun)]; [by left|].
  apply inside_cases in Hrun as [(e & Hq%authenticated_actor_mutation_quiet & _ & ->)|(actor & db1 & Ha & Hrun)];
    [left; split; [by apply trace_faint | done]|].
  pose proof (authenticated_actor_mutation_quiet _ _ _ _ _ Ha) as Hq%trace_faint.
  assert (Hall : (faint db db' ∧ sent = []) ∨ Forall (λ p, ∃ c, granted actor org (fst p) (snd p) false db c)
            (service_permissions call org)).
  { apply one_or_all. intros [act res] Hin. destruct (Hm actor act res Hin _ _ _ _ Hrun) as [[Ht ->]|[c Hg]].
    - left. split; [by etrans | done].
    - right. exists c. by eapply granted_faint. }
  destruct Hall as [|Hall]; [by left | right]. exists actor, db1. split; [done|]. rewrite Forall_forall in Hall.
  intros act res Hin. apply (Hall _ Hin).
Qed.

(** ** Secrets *)

Lemma domain_result_ok {A} (m : result DomainError A) db a db' : domain_result m db = (Ok a, db') → m = Ok a ∧ db' = db.
Proof. by intros [Hm%map_err_ok ->]%from_result_ok. Qed.

Lemma secret_manager_ok db manager db' :
  flash_secret_manager secret_manager db = (Ok manager, db') → secret_manager = Some (Ok manager) ∧ db' = db.
Proof. unfold flash_secret_manager. intros Hrun. api_inv Hrun. subst. by split; [f_equal; eapply map_err_ok|]. Qed.

Lemma list_secrets_ok manager id db l db' :
  list_secrets manager id db = (Ok l, db') → secret_list manager id = Ok l ∧ db' = db.
Proof. by intros [Hm%map_err_ok ->]%from_result_ok. Qed.

Lemma attaches_secret_false n l : attaches_secret n l = false → ∀ e, e ∈ l → snd e ≠ n.
Proof.
  unfold attaches_secret. intros Hx e He <-. enough (existsb (λ f : string * string, String.eqb (snd f) (snd e)) l = true) by congruence.
  apply existsb_exists. exists e. split; [by apply list_elem_of_In | apply String.eqb_refl].
Qed.

(** What an update of an application does, in order. *)
Lemma update_flash_run r org id project new_name s db i db' :
  update_flash_service config provider secret_manager r org id project new_name s db = (Ok i, db') →
  ∃ row prior l d principal, service_instances db !! id = Some row ∧ organization_id row = org ∧
    from_value (spec row) = Some prior ∧
    (restore_from_backup_id s = None ∨ restore_from_backup_id s = restore_from_backup_id prior) ∧
    effective_secret_env (with_restore (restore_from_backup_id prior) s) = Ok l ∧
    (∀ e, e ∈ l → ∃ manager available, secret_manager = Some (Ok manager) ∧
       secret_list manager id = Ok available ∧ snd e ∈ available) ∧
    faint db d ∧
    update_service_instance_checked org id "flash" principal project new_name
      (to_value (with_restore (restore_from_backup_id prior) s)) None d = Ok (i, db').
Proof.
  intros Hrun. unfold update_flash_service in Hrun.
  apply api_bind_ok in Hrun as (actor & db1 & Hq%authenticated_actor_mutation_quiet & Hrun).
  apply api_bind_ok in Hrun as (existing & db2 & (-> & _ & Hrow & Horg)%flash_service_ok & Hrun).
  rewrite (trace_services _ _ Hq) in Hrow.
  apply api_bind_ok in Hrun as (prior & db2 & [Hprior ->]%some_or_ok & Hrun). cbv zeta in Hrun.
  apply api_bind_ok in Hrun as (u & db2 & [Hc ->]%check_ok & Hrun).
  apply api_bind_ok in Hrun as (u1 & db2 & [_ ->]%from_result_ok & Hrun).
  apply api_bind_ok in Hrun as (u2 & db2 & [_ ->]%from_result_ok & Hrun).
  apply api_bind_ok in Hrun as (u3 & db2 & Hq2%attachment_quiet & Hrun).
  apply api_bind_ok in Hrun as (u4 & db3 & Hq3%task_role_quiet & Hrun).
  apply api_bind_ok in Hrun as (u5 & db4 & Hq4 & Hrun).
  assert (Hf : faint db3 db4).
  { revert Hq4. destruct (is_some (gpu_type _)); [by intros Hq4%sync_faintly | by intros [= _ <-]]. }
  apply api_bind_ok in Hrun as (context & db5 & Hq5%authorize_quiet & Hrun).
  apply api_bind_ok in Hrun as (l & db6 & [Hl ->]%domain_result_ok & Hrun).
  apply api_bind_ok in Hrun as (u6 & db6 & Hsec & Hrun). apply run_ok in Hrun.
  assert (Hkeys : db6 = db5 ∧ ∀ e, e ∈ l → ∃ manager available, secret_manager = Some (Ok manager) ∧
      secret_list manager id = Ok available ∧ snd e ∈ available).
  { destruct (is_nil l) eqn:El in Hsec.
    - injection Hsec as _ <-. destruct l; [|done]. split; [done|]. by intros e []%not_elem_of_nil.
    - apply api_bind_ok in Hsec as (manager & d & [Hm ->]%secret_manager_ok & Hsec).
      apply api_bind_ok in Hsec as (available & d & [Ha ->]%list_secrets_ok & Hsec).
      apply check_ok in Hsec as [Hall ->]. split; [done|]. intros e He. exists manager, available. split_and!; [done.. |].
      rewrite forallb_forall in Hall. by apply list_elem_of_In, Hall, bool_decide_eq_true in He. }
  destruct Hkeys as [-> Hkeys].
  exists (instance_row existing), prior, l, db5, (Iam.context_principal_id context). split_and!; try done.
  + apply orb_true_iff in Hc as [Hc|Hc%bool_decide_eq_true]; [|by right]. left. by destruct (restore_from_backup_id s).
  + etrans; [apply trace_faint; etrans; [done | by etrans]|]. etrans; [done | by apply trace_faint].
Qed.

(** Nothing but traces in the database, whatever is sent. *)
Definition calm {A} (m : outside SecretRequest A) : Prop :=
  ∀ db x db' sent, m db = (x, db', sent) → trace_only db db'.

Lemma calm_inside {A} (m : api A) : quiet m → calm (inside m).
Proof. intros Hm db x db' sent [Hrun _]%inside_ok. by eapply Hm. Qed.

Lemma calm_bind {A B} (m : outside SecretRequest A) (f : A → outside SecretRequest B) :
  calm m → (∀ a, calm (f a)) → calm (m ≫= f).
Proof.
  intros Hm Hf db x db' sent [(e & He & _)|(a & db1 & before & after & Ha & Hb & _)]%outside_cases; [by eapply Hm|].
  etrans; [by eapply Hm | by eapply Hf].
Qed.

Lemma delete_secret_calm r org id n : calm (delete_flash_secret config provider secret_manager r org id n).
Proof.
  unfold delete_flash_secret.
  repeat lazymatch goal with
  | |- calm (_ ≫= _) => apply calm_bind; [|intros ?]
  | |- calm (inside _) => apply calm_inside
  | |- calm (emit _ _) => by intros ???? [= _ <- _]
  | |- calm (let _ := _ in _) => cbv zeta
  end; first [apply authenticated_actor_mutation_quiet | apply authorize_quiet | apply flash_service_quiet | unfold flash_secret_manager, domain_result; by quiet_frame].
Qed.

(** Whatever comes of a deletion, nothing is sent before the references are seen to. *)
Lemma delete_secret_run r org id n db x db' sent :
  delete_flash_secret config provider secret_manager r org id n db = (x, db', sent) →
  trace_only db db' ∧
  (sent = [] ∧ x ≠ Ok () ∨
   ∃ row s l c, service_instances db !! id = Some row ∧ organization_id row = org ∧
     from_value (spec row) = Some s ∧ effective_secret_env s = Ok l ∧
     (∀ e, e ∈ l → snd e ≠ n) ∧ (∀ a, authentication (exposure s) = Some a → client_secret_ref a ≠ n) ∧
     (sent = [RequestLoadBalancer c n None] ∧ x ≠ Ok () ∨
      sent = [RequestLoadBalancer c n None; RequestDelete id n])).
Proof.
  intros Hrun. split; [by eapply delete_secret_calm|]. unfold delete_flash_secret in Hrun.
  apply inside_cases in Hrun as [(e & _ & -> & ->)|(u & db0 & [_ ->]%from_result_ok & Hrun)]; [by left|].
  apply inside_cases in Hrun as [(e & _ & -> & ->)|(actor & db1 & Hq%authenticated_actor_mutation_quiet & Hrun)]; [by left|].
  apply inside_cases in Hrun as [(e & _ & -> & ->)|(context & db2 & Hq2%authorize_quiet & Hrun)]; [by left|].
  apply inside_cases in Hrun as [(e & _ & -> & ->)|(i & db3 & (-> & _ & Hrow & Horg)%flash_service_ok & Hrun)]; [by left|].
  assert (Ht : trace_only db db2) by by etrans. rewrite (trace_services _ _ Ht) in Hrow.
  apply inside_cases in Hrun as [(e & _ & -> & ->)|(s & db3 & [Hs ->]%some_or_ok & Hrun)]; [by left|].
  apply inside_cases in Hrun as [(e & _ & -> & ->)|(l & db3 & [Hl ->]%domain_result_ok & Hrun)]; [by left|].
  apply inside_cases in Hrun as [(e & _ & -> & ->)|(u1 & db3 & [Hn%negb_true_iff ->]%check_ok & Hrun)]; [by left|].
  apply inside_cases in Hrun as [(e & _ & -> & ->)|(u2 & db3 & [Ho%negb_true_iff ->]%check_ok & Hrun)]; [by left|].
  apply inside_cases in Hrun as [(e & _ & -> & ->)|(p & db3 & [_ ->]%some_or_ok & Hrun)]; [by left|]. cbv zeta in Hrun.
  right. exists (instance_row i), s, l, (flash_provider_context i (Iam.context_principal_id context)).
  split_and!; [done.. | by apply attaches_secret_false | |].
  - intros a Ha Hx. unfold attaches_oidc in Ho. rewrite Ha in Ho. simpl in Ho. rewrite Hx, String.eqb_refl in Ho. done.
  - apply outside_cases in Hrun as [(e & [= _ _ <-] & ->)|(u3 & db3 & before & after & [= _ <- <-] & Hrun & ->)]; [by left|].
    apply inside_cases in Hrun as [(e & _ & -> & ->)|(manager & db3 & _ & [= _ _ <-])]; [by left | by right].
Qed.

(** C24: Secrets outlive what refers to them.  An application is updated only if the
    secret manager has, at that time, every secret the new specification attaches
    to it; the disk it was restored from stays the same.  The deletion of a secret
    is asked of the load balancer and then of the secret manager, in this order,
    only if the application that is stored neither attaches the secret nor signs
    its users in with it; an answer of success means that both were asked.
    Deleting one leaves nothing but traces in the database. *)
Theorem secrets_outlive_references r org id db :
  (∀ project new_name s i db', update_flash_service config provider secret_manager r org id project new_name s db = (Ok i, db') →
     ∃ row prior l d principal, service_instances db !! id = Some row ∧ organization_id row = org ∧
       from_value (spec row) = Some prior ∧
       (restore_from_backup_id s = None ∨ restore_from_backup_id s = restore_from_backup_id prior) ∧
       effective_secret_env (with_restore (restore_from_backup_id prior) s) = Ok l ∧
       (∀ e, e ∈ l → ∃ manager available, secret_manager = Some (Ok manager) ∧
          secret_list manager id = Ok available ∧ snd e ∈ available) ∧
       faint db d ∧
       update_service_instance_checked org id "flash" principal project new_name
         (to_value (with_restore (restore_from_backup_id prior) s)) None d = Ok (i, db')) ∧
  (∀ n x db' sent, delete_flash_secret config provider secret_manager r org id n db = (x, db', sent) →
     trace_only db db' ∧
     (sent = [] ∧ x ≠ Ok () ∨
      ∃ row s l c, service_instances db !! id = Some row ∧ organization_id row = org ∧
        from_value (spec row) = Some s ∧ effective_secret_env s = Ok l ∧
        (∀ e, e ∈ l → snd e ≠ n) ∧ (∀ a, authentication (exposure s) = Some a → client_secret_ref a ≠ n) ∧
        (sent = [RequestLoadBalancer c n None] ∧ x ≠ Ok () ∨
         sent = [RequestLoadBalancer c n None; RequestDelete id n]))).
Proof. split; intros *; [apply update_flash_run | apply delete_secret_run]. Qed.

End Requests.
