(* ===== verification/AccountApi.v ===== *)
(** * Who may change accounts

    Every request on names, projects, users, the cloud organization, members and
    credentials of the registry needs its permission; the limits and roles of
    members are changed only by a person who administers the account or is in a
    session of the identity center, and roles only by an owner. *)
From S2P Require Import Prelude Text Json Net Policy Iam RoleTrust Quota Specs Flash Store Usage Provider Prepare Services FlowAccess Cloud Identity Access Admin FlashStore Authorize Outside IdentityCenter Routes FlashOps AccountRoutes Lifecycle CloudFacts IdentityFacts AccessFacts FlashFacts ApiFacts FlashApi.

(** ** Conditions of a call *)

(** Nothing but traces, unless something held of the state the call began in. *)
Definition needs {A} (P : Db → Prop) (m : api A) : Prop :=
  ∀ db x db', m db = (x, db') → trace_only db db' ∨ P db.

(** What a trace does not make true. *)
Definition lasting (P : Db → Prop) : Prop := ∀ db db', trace_only db db' → P db' → P db.

Lemma lasting_and P Q : lasting P → lasting Q → lasting (λ db, P db ∧ Q db).
Proof. intros HP HQ db db' Ht [Hp Hq]. split; [by eapply HP | by eapply HQ]. Qed.

Section Needs.
Context `{LimitsDecoder, JsonText, UuidText, Chrono, WebLib, SqlText, SqlCollation, Serde PolicyDocument}.

Lemma needs_and {A} P Q (m : api A) : needs P m → needs Q m → needs (λ db, P db ∧ Q db) m.
Proof. intros HP HQ db x db' Hm. destruct (HP _ _ _ Hm), (HQ _ _ _ Hm); auto. Qed.

Lemma needs_bind {A B} P (m : api A) (f : A → api B) : lasting P → quiet m → (∀ a, needs P (f a)) → needs P (m ≫= f).
Proof.
  intros HP Hm Hf db x db' [(e & Hq%Hm & _)|(a & db1 & Hq%Hm & Hrun)]%bind_cases; [by left|].
  destruct (Hf _ _ _ _ Hrun) as [Ht|Hp]; [left; by etrans | right; by eapply HP].
Qed.

Lemma needs_forget {A} P (m : api A) : needs P m → needs P (m ≫= λ _, mret ()).
Proof. intros Hm db x db' [(e & Hq & _)|(a & db1 & Hq & [= _ <-])]%bind_cases; by eapply Hm. Qed.

Lemma needs_assoc {A B C} P (m : api A) (f : A → api B) (g : B → api C) :
  needs P (m ≫= λ a, f a ≫= g) → needs P ((m ≫= f) ≫= g).
Proof. intros Hm db x db'. rewrite bind_assoc. apply Hm. Qed.

Definition grants_to (actor : AuthenticatedActor) (org : OrganizationId) (act res : string) (db : Db) : Prop :=
  ∃ context, granted actor org act res false db context.

Lemma grants_lasting actor org act res : lasting (grants_to actor org act res).
Proof. intros db db' Ht [c Hc]. exists c. by eapply granted_trace. Qed.

Lemma needs_authorize {B} actor org act res (f : AuthorizationContext → api B) :
  needs (grants_to actor org act res) (authorize_actor actor org act res ≫= f).
Proof. exact (mediated_actor actor org act res f). Qed.

(** The same of calls that reach outside: nothing is sent, either. *)
Definition needs_outside {Q A} (P : Db → Prop) (m : outside Q A) : Prop :=
  ∀ db x db' sent, m db = (x, db', sent) → trace_only db db' ∧ sent = [] ∨ P db.

Lemma outside_inside {Q A} P (m : api A) : needs P m → needs_outside P (inside m : outside Q A).
Proof. intros Hm db x db' sent [Hrun ->]%inside_ok. destruct (Hm _ _ _ Hrun); auto. Qed.

Lemma outside_forget {Q A} P (m : outside Q A) : needs_outside P m → needs_outside P (m ≫= λ _, mret ()).
Proof.
  intros Hm db x db' sent [(e & Hq & _)|(a & db1 & before & after & Hq & [= _ <- <-] & ->)]%outside_cases.
  - by eapply Hm.
  - rewrite app_nil_r. by eapply Hm.
Qed.

Lemma outside_quiet_bind {Q A B} P (m : api A) (f : A → outside Q B) :
  lasting P → quiet m → (∀ a, needs_outside P (f a)) → needs_outside P (inside m ≫= f).
Proof.
  intros HP Hm Hf db x db' sent [(e & Hq%Hm & _ & ->)|(a & db1 & Hq%Hm & Hrun)]%inside_cases; [by left|].
  destruct (Hf _ _ _ _ _ Hrun) as [[Ht ->]|Hp]; [left; split; [by etrans | done] | right; by eapply HP].
Qed.

Lemma outside_authorize {Q B} actor org act res (f : AuthorizationContext → outside Q B) :
  needs_outside (grants_to actor org act res) (inside (authorize_actor actor org act res) ≫= f).
Proof.
  intros db x db' sent [(e & Hq%authorize_quiet & _ & ->)|(c & db1 & Hc%authorize_granted & _)]%inside_cases; [by left|].
  right. by exists c.
Qed.

(** ** People *)

(** The actor is a person whose stored context in the account has a property. *)
Definition person (actor : AuthenticatedActor) (org : OrganizationId) (P : AuthorizationContext → Prop) (db : Db) : Prop :=
  ∃ user context, quota_human actor org = Some user ∧ authorization_context user org db = Ok (Some context) ∧ P context.

Lemma person_lasting actor org P : lasting (person actor org P).
Proof.
  intros db db' [E _ _] (user & context & Hh & Hc & HP). exists user, context. split_and!; [done | | done].
  change (authorization_context user org (erase db) = Ok (Some context)). rewrite <- E. exact Hc.
Qed.

Lemma human_context_quiet actor org : quiet (quota_human_context actor org).
Proof. unfold quota_human_context. quiet_frame. Qed.

Lemma administrator_quiet actor org act : quiet (quota_administrator actor org act).
Proof. unfold quota_administrator. quiet_frame; [apply human_context_quiet | apply authorize_quiet]. Qed.

Lemma human_context_ok actor org db user context db' :
  quota_human_context actor org db = (Ok (user, context), db') →
  db' = db ∧ quota_human actor org = Some user ∧ authorization_context user org db = Ok (Some context).
Proof. unfold quota_human_context. intros Hrun. api_inv Hrun. simplify_eq. by subst. Qed.

Lemma needs_person {B} actor org (b : AuthorizationContext → bool) (f : UserId * AuthorizationContext → api B) :
  needs (person actor org (λ c, b c = true))
    (quota_human_context actor org ≫= λ found, check (b (snd found)) Forbidden ≫= λ _, f found).
Proof.
  intros db x db' [(e & Hq%human_context_quiet & _)|([user c] & db1 & (-> & Hh & Hc)%human_context_ok & Hrun)]%bind_cases; [by left|].
  apply bind_cases in Hrun as [(e & He & _)|(u & db1 & [Hb ->]%check_ok & _)].
  - left. revert He. unfold check. destruct (b _); by intros [= _ <-].
  - right. by exists user, c.
Qed.

Definition quota_administers (actor : AuthenticatedActor) (c : AuthorizationContext) : Prop :=
  identity_center_session actor || is_administrator c = true.

Lemma needs_administrator {B} actor org act (f : AuthorizationContext → api B) :
  needs (λ db, person actor org (quota_administers actor) db ∧
               grants_to actor org act (organization_resource org "identity/member-quota/*") db)
    (quota_administrator actor org act ≫= f).
Proof.
  apply needs_and; unfold quota_administrator; apply needs_assoc.
  - intros db x db' Hrun. apply (needs_person actor org (λ c, identity_center_session actor || is_administrator c)
      (λ _, authorize_actor actor org act (organization_resource org "identity/member-quota/*") ≫= f) db x db').
    rewrite <- Hrun. unfold mbind, api_bind. destruct (quota_human_context actor org db) as [[a|e] d]; [|done].
    by destruct (check _ _ d) as [[]].
  - apply needs_bind; [apply grants_lasting | apply human_context_quiet | intros found].
    apply needs_assoc, needs_bind; [apply grants_lasting | apply quiet_check | intros _]. apply needs_authorize.
Qed.

End Needs.

(** ** Requests *)

Section Requests.
Context `{LimitsDecoder, JsonText, UuidText, Chrono, WebLib, SqlText, SqlCollation}.
Context `{Serde PolicyDocument, Serde AwsPolicy}.
Context (config : RuntimeConfig) (registry_provider : option RegistryGateway).

Inductive account_call :=
| CallAccountName (name : string)
| CallOrganizationName (name : string)
| CallMemberAccountName (account : OrganizationId) (name : string)
| CallUnitName (unit_id : Uuid) (name : string)
| CallProjectName (project : ProjectId) (name : string)
| CallUserName (principal : PrincipalId) (name : string)
| CallCreateProject (slug name : string)
| CallCreateScp (name : string) (document : Value)
| CallAttachScp (policy : Uuid) (target_type : string) (target : Uuid)
| CallDetachScp (policy : Uuid) (target_type : string) (target : Uuid)
| CallCreateUnit (parent : Uuid) (name : string)
| CallCreateAccount (parent : Uuid) (name slug : string)
| CallMoveAccount (account : OrganizationId) (parent : Uuid)
| CallMemberQuota (user : UserId) (limits : ResourceQuotaLimits)
| CallClearMemberQuota (user : UserId)
| CallAssignQuota (kind : string) (resource : Uuid) (user : UserId)
| CallMemberRole (user : UserId) (role : string)
| CallCreateRegistryCredential (name : string)
| CallDeleteRegistryCredential (id : Uuid).

Definition serve_account (call : account_call) (r : Request) (org : OrganizationId) : outside RegistryRequest () :=
  match call with
  | CallAccountName name => inside (forget_answer (put_account_name config r org name))
  | CallOrganizationName name => inside (put_cloud_organization_name config r org name)
  | CallMemberAccountName account name => inside (put_cloud_account_name config r org account name)
  | CallUnitName unit_id name => inside (put_cloud_unit_name config r org unit_id name)
  | CallProjectName project name => inside (forget_answer (put_project_name config r org project name))
  | CallUserName principal name => inside (forget_answer (put_iam_user_name config r org principal name))
  | CallCreateProject slug name => inside (forget_answer (post_project config r org slug name))
  | CallCreateScp name document => inside (forget_answer (post_service_control_policy config r org name document))
  | CallAttachScp policy target_type target => inside (attach_service_control_policy config r org policy target_type target)
  | CallDetachScp policy target_type target => inside (detach_service_control_policy config r org policy target_type target)
  | CallCreateUnit parent name => inside (forget_answer (post_organizational_unit config r org parent name))
  | CallCreateAccount parent name slug => inside (forget_answer (post_member_account config r org parent name slug))
  | CallMoveAccount account parent => inside (put_member_account_parent config r org account parent)
  | CallMemberQuota user limits => inside (forget_answer (update_member_quota config r org user limits))
  | CallClearMemberQuota user => inside (forget_answer (clear_member_quota config r org user))
  | CallAssignQuota kind resource user => inside (put_quota_assignment config r org kind resource user)
  | CallMemberRole user role => inside (update_member_role config r org user role)
  | CallCreateRegistryCredential name => post_registry_credential config registry_provider r org name ≫= λ _, mret ()
  | CallDeleteRegistryCredential id => remove_registry_credential config registry_provider r org id
  end.

(** The action and the resource a request needs a grant for. *)
Definition account_permission (call : account_call) (org : OrganizationId) : string * string :=
  match call with
  | CallAccountName _ => ("account:PutAccountName", organization_resource org "account/*")
  | CallOrganizationName _ => ("organizations:UpdateOrganization", organization_resource org "organization/*")
  | CallMemberAccountName account _ =>
      ("account:PutAccountName", organization_resource org ("organization/accounts/" ++ uuid_to_string account)%string)
  | CallUnitName unit_id _ =>
      ("organizations:UpdateOrganizationalUnit",
       organization_resource org ("organization/units/" ++ uuid_to_string unit_id)%string)
  | CallProjectName project _ =>
      ("project:Update", organization_resource org ("project/" ++ uuid_to_string project)%string)
  | CallUserName principal _ =>
      ("iam:UpdateUser", organization_resource org ("iam/users/" ++ uuid_to_string principal)%string)
  | CallCreateProject _ _ => ("project:Create", organization_resource org "project/*")
  | CallCreateScp _ _ => ("organizations:CreatePolicy", organization_resource org "organization/*")
  | CallAttachScp _ _ _ => ("organizations:AttachPolicy", organization_resource org "organization/*")
  | CallDetachScp _ _ _ => ("organizations:DetachPolicy", organization_resource org "organization/*")
  | CallCreateUnit _ _ => ("organizations:CreateOrganizationalUnit", organization_resource org "organization/*")
  | CallCreateAccount _ _ _ => ("organizations:CreateAccount", organization_resource org "organization/*")
  | CallMoveAccount _ _ => ("organizations:MoveAccount", organization_resource org "organization/*")
  | CallMemberQuota _ _ | CallClearMemberQuota _ =>
      ("identity:UpdateMemberQuota", organization_resource org "identity/member-quota/*")
  | CallAssignQuota _ _ _ => ("identity:AssignQuotaResource", organization_resource org "identity/member-quota/*")
  | CallMemberRole _ _ => ("identity:UpdateMemberRole", organization_resource org "identity/member-quota/*")
  | CallCreateRegistryCredential _ =>
      ("registry:CreateCredential", organization_resource org "registry/credential/*")
  | CallDeleteRegistryCredential id =>
      ("registry:DeleteCredential", organization_resource org ("registry/credential/" ++ uuid_to_string id)%string)
  end.

(** What the person who makes a request must be in the account. *)
Definition account_person (call : account_call) (actor : AuthenticatedActor) : option (AuthorizationContext → Prop) :=
  match call with
  | CallMemberQuota _ _ | CallClearMemberQuota _ | CallAssignQuota _ _ _ => Some (quota_administers actor)
  | CallMemberRole _ _ => Some (λ c, String.eqb (Iam.role c) "owner" = true)
  | _ => None
  end.

Definition account_condition (call : account_call) (actor : AuthenticatedActor) (org : OrganizationId) (db : Db) : Prop :=
  grants_to actor org (fst (account_permission call org)) (snd (account_permission call org)) db ∧
  ∀ P, account_person call actor = Some P → person actor org P db.

Lemma account_lasting call actor org : lasting (account_condition call actor org).
Proof.
  intros db db' Ht [Hg Hp]. split; [by eapply grants_lasting|]. intros P HP. eapply person_lasting; [done | by apply Hp].
Qed.

Lemma needs_condition call actor org {A} (m : api A) :
  needs (grants_to actor org (fst (account_permission call org)) (snd (account_permission call org))) m →
  match account_person call actor with Some P => needs (person actor org P) m | None => True end →
  needs (account_condition call actor org) m.
Proof.
  intros Hg Hp. apply needs_and; [done|]. destruct (account_person call actor) as [P|].
  - intros db x db' [Ht|Hdb]%Hp; [by left|]. right. by intros Q [= <-].
  - by right.
Qed.

Lemma outside_unconditional call actor org {A} (m : outside RegistryRequest A) :
  account_person call actor = None →
  needs_outside (grants_to actor org (fst (account_permission call org)) (snd (account_permission call org))) m →
  needs_outside (account_condition call actor org) m.
Proof. intros Hp Hg db x db' sent [?|Hdb]%Hg; [by left | right; split; [done|]]. rewrite Hp. by intros P [=]. Qed.

(** The authorization that is sought, or something quiet before it. *)
Ltac needs_one :=
  cbv zeta;
  lazymatch goal with
  | |- needs _ (authorize_actor _ _ _ _ ≫= _) => apply needs_authorize
  | |- needs (person _ _ _) (quota_administrator _ _ _ ≫= _) =>
      intros ??? ?; edestruct @needs_administrator as [|[]]; [eassumption | by left | by right]
  | |- needs _ (quota_administrator _ _ _ ≫= _) =>
      intros ??? ?; edestruct @needs_administrator as [|[]]; [eassumption | by left | by right]
  | |- needs (person _ _ _) (quota_human_context _ _ ≫= _) =>
      apply (needs_person _ _ (λ c, String.eqb (Iam.role c) "owner"))
  | |- needs _ (quota_human_context _ _ ≫= _) =>
      apply needs_bind; [apply grants_lasting | apply human_context_quiet | intros ?; needs_one]
  | |- needs _ ((_ ≫= _) ≫= _) => apply needs_assoc; needs_one
  | |- needs _ (_ ≫= _) => apply needs_bind; [apply grants_lasting | quiet_frame | intros ?; needs_one]
  end.

Lemma account_needs call r org :
  ∃ f : AuthenticatedActor → outside RegistryRequest (),
    (∀ db, serve_account call r org db = (inside (authenticated_actor_mutation config r) ≫= f) db) ∧
    ∀ actor, needs_outside (account_condition call actor org) (f actor).
Proof.
  destruct call; cbn [serve_account]; (eexists; split;
    [intros db; first [exact (inside_forget _ _ db) | exact (inside_bind _ _ db) | exact (outside_assoc _ _ _ db) | reflexivity] |]);
    intros actor; cbv beta;
    lazymatch goal with
    | |- needs_outside _ (inside _) =>
        apply outside_inside, needs_condition; try exact I; cbn [account_person];
        try lazymatch goal with |- needs _ (_ ≫= λ _, mret ()) => apply needs_forget; cbv beta end;
        try unfold modify_service_control_policy_attachment; needs_one; apply require_conditions_quiet
    | _ => apply outside_unconditional; [done|]
    end.
  - apply outside_forget, outside_quiet_bind; [apply grants_lasting | quiet_frame | intros _]. apply outside_authorize.
  - apply outside_authorize.
Qed.

(** C16: Complete mediation of accounts.  A request that renames an account, a
    project, a user, or anything of the cloud organization, creates a project, a
    unit, an account or a service control policy, moves an account, attaches or
    detaches a policy, changes the limits, charges or roles of members, or creates
    or deletes a credential of the registry leaves nothing but audit records,
    times of use and used identifiers behind and asks nothing of the registry,
    unless its caller was authenticated and the stored policies grant the caller
    the permission of the request.  Limits and charges of members moreover need a
    member of the account who administers it or is in a session of the identity
    center; their roles need a member who is an owner of the account. *)
Theorem account_complete_mediation call r org db x db' sent :
  serve_account call r org db = (x, db', sent) →
  trace_only db db' ∧ sent = [] ∨
  ∃ actor db1, authenticated_actor_mutation config r db = (Ok actor, db1) ∧ account_condition call actor org db.
Proof.
  destruct (account_needs call r org) as (f & Hf & Hm). rewrite Hf. intros Hrun.
  apply inside_cases in Hrun as [(e & Hq%authenticated_actor_mutation_quiet & _ & ->)|(actor & db1 & Ha & Hrun)]; [by left|].
  pose proof (authenticated_actor_mutation_quiet _ _ _ _ _ Ha) as Hq.
  destruct (Hm actor _ _ _ _ Hrun) as [[Ht ->]|Hc]; [left; split; [by etrans | done]|].
  right. exists actor, db1. split; [done|]. by eapply account_lasting.
Qed.

End Requests.
