(* ===== verification/SessionApi.v ===== *)
(** * Signing in, codes of the command line, and the owner of the installation

    A session is opened only for an active person with the right password, with an
    invitation, or vouched for by the OIDC provider; the codes that are shown are
    the codes that are accepted; and what belongs to the owner of the installation
    needs the owner, at the owner's console, from the owner's network. *)
From S2P Require Import Prelude Text Json Net Policy Iam RoleTrust Quota Specs Flash Store Usage Provider Prepare Services FlowAccess Cloud Identity Access Admin FlashStore Authorize IdentityCenter Routes FlashOps ServiceRoutes AccountRoutes SessionRoutes Lifecycle CloudFacts IdentityFacts AccessFacts FlashFacts ApiFacts FlashApi AdminFacts ServiceApi AccountApi.

(** ** Codes *)

(** The characters of a code: digits and capital letters. *)
Definition code_char (c : Z) : bool := is_ascii_alphanumeric c && (byte_to_upper c =? c).

Lemma code_char_ascii c : code_char c = true → 48 ≤ c ≤ 90.
Proof.
  unfold code_char, is_ascii_alphanumeric, is_ascii_alphabetic, is_ascii_lowercase, is_ascii_uppercase, is_ascii_digit, byte_to_upper.
  unfold is_ascii_lowercase. intros [Ha Hu]%andb_true_iff. revert Hu. destruct (in_range 97 122 c) eqn:E.
  - rewrite Z.eqb_eq. lia.
  - intros _. rewrite !orb_true_iff, !in_range_spec in Ha. lia.
Qed.

Lemma upper_code c : is_ascii_alphanumeric c = true → code_char (byte_to_upper c) = true.
Proof.
  unfold code_char, is_ascii_alphanumeric, is_ascii_alphabetic, is_ascii_lowercase, is_ascii_uppercase, is_ascii_digit, byte_to_upper.
  unfold is_ascii_lowercase. intros Ha. destruct (in_range 97 122 c) eqn:E.
  - apply in_range_spec in E. destruct (in_range 97 122 (c - 32)) eqn:E2; [apply in_range_spec in E2; lia|].
    rewrite Z.eqb_refl, andb_true_r, !orb_true_iff, !in_range_spec. lia.
  - by rewrite E, Z.eqb_refl, andb_true_r.
Qed.

Lemma of_chars_ascii l : Forall (λ c, 0 ≤ c < 128) l → bytes (of_chars l) = l.
Proof.
  intros Hl. unfold of_chars. assert (He : concat (encode_char <$> l) = l).
  { induction Hl as [|c l Hc _ IH]; [done|]. rewrite fmap_cons. simpl concat. rewrite IH. unfold encode_char.
    by replace (c <? 128) with true by (symmetry; lia). }
  rewrite He, bytes_of_bytes; [done|]. eapply Forall_impl; [exact Hl|]. simpl. lia.
Qed.

Lemma chars_ascii s : Forall (λ b, b < 128) (bytes s) → chars s = bytes s.
Proof. apply decode_utf8_ascii. Qed.

Lemma codes_ascii l : forallb code_char l = true → Forall (λ c, 0 ≤ c < 128) l.
Proof.
  rewrite forallb_forall, Forall_forall. intros Hl c Hc. apply list_elem_of_In in Hc.
  apply Hl, code_char_ascii in Hc. lia.
Qed.

Lemma trim_nothing l : Forall (λ c, is_whitespace c = false) l → trim_chars l = l.
Proof.
  assert (Hs : ∀ k, Forall (λ c, is_whitespace c = false) k → trim_start_chars k = k).
  { intros k [|c k' Hc _]; [done|]. cbn [trim_start_chars]. by rewrite Hc. }
  intros Hl. unfold trim_chars. rewrite (Hs l Hl), (Hs (reverse l)); [apply reverse_involutive | by apply Forall_reverse].
Qed.

Lemma code_not_space c : code_char c = true → is_whitespace c = false.
Proof.
  intros Hc%code_char_ascii. unfold is_whitespace. rewrite !orb_false_iff.
  split_and!; apply not_true_iff_false; rewrite ?in_range_spec, ?Z.eqb_eq; lia.
Qed.

Lemma codes_upper l : forallb code_char l = true → byte_to_upper <$> l = l.
Proof.
  induction l as [|c l IH]; [done|]. cbn [forallb]. intros [[_ Hc%Z.eqb_eq]%andb_true_iff Hl]%andb_true_iff.
  by rewrite fmap_cons, Hc, IH.
Qed.

Lemma codes_no_hyphen l : forallb code_char l = true → filter (λ c, c ≠ HYPHEN) l = l.
Proof.
  induction l as [|c l IH]; [done|]. cbn [forallb]. intros [Hc%code_char_ascii Hl]%andb_true_iff.
  rewrite filter_cons_True by (unfold HYPHEN; lia). by rewrite IH.
Qed.

Lemma codes_alphanumeric l : forallb code_char l = true → forallb is_ascii_alphanumeric l = true.
Proof.
  rewrite !forallb_forall. intros Hl c Hc. apply Hl in Hc. by apply andb_true_iff in Hc as [? _].
Qed.

Lemma codes_len l : forallb code_char l = true → len (of_chars l) = Z.of_nat (length l).
Proof. intros Hl. unfold len. by rewrite of_chars_ascii by by apply codes_ascii. Qed.

Lemma codes_app l k : forallb code_char (l ++ k) = true ↔ forallb code_char l = true ∧ forallb code_char k = true.
Proof. by rewrite forallb_app, andb_true_iff. Qed.

(** Twelve characters of a code, as they are shown. *)
Lemma code_groups_chars a b c l :
  take 4 l = a → take 4 (drop 4 l) = b → take 4 (drop 8 l) = c →
  forallb code_char a = true → forallb code_char b = true → forallb code_char c = true →
  chars (code_groups l) = a ++ HYPHEN :: b ++ HYPHEN :: c.
Proof.
  intros <- <- <- Ha%codes_ascii Hb%codes_ascii Hc%codes_ascii.
  assert (Hbytes : bytes (code_groups l) = take 4 l ++ HYPHEN :: take 4 (drop 4 l) ++ HYPHEN :: take 4 (drop 8 l)).
  { unfold code_groups. by rewrite !bytes_app, !of_chars_ascii. }
  rewrite chars_ascii, Hbytes; [done|]. rewrite Hbytes.
  assert (Hw : ∀ k, Forall (λ c, 0 ≤ c < 128) k → Forall (λ b, b < 128) k).
  { intros k Hk. eapply Forall_impl; [exact Hk|]. simpl. lia. }
  rewrite Forall_app, Forall_cons, Forall_app, Forall_cons. unfold HYPHEN. split_and!; auto; lia.
Qed.

Lemma normalize_groups l :
  length l = 12%nat → forallb code_char l = true → normalize_cli_user_code (code_groups l) = Ok (code_groups l).
Proof.
  intros Hlen Hl.
  assert (Hsplit : l = take 4 l ++ take 4 (drop 4 l) ++ take 4 (drop 8 l)).
  { rewrite (take_ge (drop 8 l)) by (rewrite length_drop; lia).
    change (drop 8 l) with (drop (4 + 4) l). by rewrite <- (drop_drop l 4 4), !take_drop. }
  pose proof Hl as Hparts. rewrite Hsplit, !codes_app in Hparts. destruct Hparts as (Ha & Hb & Hc).
  assert (Hw : ∀ k, forallb code_char k = true → Forall (λ c, is_whitespace c = false) k).
  { intros k Hk. rewrite forallb_forall in Hk. apply Forall_forall. intros d Hd. by apply code_not_space, Hk, list_elem_of_In. }
  unfold normalize_cli_user_code. rewrite (code_groups_chars _ _ _ l eq_refl eq_refl eq_refl Ha Hb Hc), trim_nothing.
  2: { rewrite Forall_app, Forall_cons, Forall_app, Forall_cons. split_and!; auto. }
  rewrite !filter_app, !filter_cons_False, filter_app, filter_cons_False by (unfold HYPHEN; lia).
  rewrite !codes_no_hyphen, <- Hsplit, codes_upper, codes_len, Hlen, codes_alphanumeric by done. done.
Qed.

Lemma upper_codes l : forallb is_ascii_alphanumeric l = true → forallb code_char (byte_to_upper <$> l) = true.
Proof.
  induction l as [|c l IH]; [done|]. rewrite fmap_cons. cbn [forallb]. intros [Hc Hl]%andb_true_iff.
  by rewrite upper_code, IH.
Qed.

Lemma upper_alphanumeric c : is_ascii_alphanumeric (byte_to_upper c) = true → code_char (byte_to_upper c) = true.
Proof.
  intros Hc. unfold code_char. rewrite Hc. simpl. apply Z.eqb_eq.
  unfold byte_to_upper, is_ascii_lowercase. destruct (in_range 97 122 c) eqn:E; [|by rewrite E].
  apply in_range_spec in E. destruct (in_range 97 122 (c - 32)) eqn:E2; [apply in_range_spec in E2; lia | done].
Qed.

Lemma generated_code secret code :
  generate_cli_user_code secret = Ok code → ∃ l, length l = 12%nat ∧ forallb code_char l = true ∧ code = code_groups l.
Proof.
  unfold generate_cli_user_code. set (l := byte_to_upper <$> _). intros (u & Hf%fail_if_ok & [= <-])%bind_ok.
  apply negb_false_iff, Z.eqb_eq in Hf.
  assert (Hl : forallb code_char l = true).
  { apply upper_codes, forallb_forall. intros c Hc%list_elem_of_In. apply list_elem_of_lookup in Hc as [i Hc].
    apply lookup_take_Some in Hc as [Hc _]. apply list_elem_of_lookup_2, list_elem_of_filter in Hc. by destruct Hc. }
  exists l. rewrite codes_len in Hf by done. split_and!; [lia | done | done].
Qed.

Lemma normalized_code value code :
  normalize_cli_user_code value = Ok code → ∃ l, length l = 12%nat ∧ forallb code_char l = true ∧ code = code_groups l.
Proof.
  unfold normalize_cli_user_code. set (k := filter _ _). intros (u & Hf%fail_if_ok & [= <-])%bind_ok.
  apply orb_false_iff in Hf as [Hlen%negb_false_iff%Z.eqb_eq Hal%negb_false_iff].
  assert (Hl : forallb code_char (byte_to_upper <$> k) = true).
  { clear Hlen. clearbody k. revert Hal. induction k as [|c k IH]; [done|]. rewrite fmap_cons. cbn [forallb].
    intros [Hc Hk]%andb_true_iff. by rewrite upper_alphanumeric, IH. }
  exists (byte_to_upper <$> k). rewrite codes_len in Hlen by done. split_and!; [lia | done | done].
Qed.

(** Tokens as they are given out. *)
Definition token_text (s : string) : Prop := forallb is_token_char (bytes s) = true.

Lemma token_chars s : token_text s → chars s = bytes s.
Proof.
  unfold token_text. intros Hs. apply chars_ascii. rewrite forallb_forall in Hs. apply Forall_forall. intros c Hc.
  apply list_elem_of_In, Hs in Hc. revert Hc.
  unfold is_token_char, is_ascii_alphanumeric, is_ascii_alphabetic, is_ascii_lowercase, is_ascii_uppercase, is_ascii_digit, HYPHEN, UNDERSCORE.
  rewrite !orb_true_iff, !in_range_spec, !Z.eqb_eq. lia.
Qed.

Lemma of_bytes_app_take s t n : len s = Z.of_nat n → of_bytes (take n (bytes (s +:+ t))) = s ∧ of_bytes (drop n (bytes (s +:+ t))) = t.
Proof.
  unfold len. intros Hs. rewrite bytes_app, take_app_length', drop_app_length', !of_bytes_bytes by lia. done.
Qed.

(** C40: Codes and tokens of the command line survive the way through people and
    headers.  The code shown to the user is the one that is accepted, as is, and
    so is every code in the form in which it is stored; the code of the device
    passes the check of its form; and the token that is issued is parsed to the
    very prefix under which it is stored. *)
Theorem cli_codes_roundtrip :
  (∀ secret code, generate_cli_user_code secret = Ok code → normalize_cli_user_code code = Ok code) ∧
  (∀ value code, normalize_cli_user_code value = Ok code → normalize_cli_user_code code = Ok code) ∧
  (∀ secret, 32 ≤ len secret → token_text secret → valid_cli_device_code ("hcd_" ++ secret)%string = true) ∧
  (∀ prefix secret, len prefix = 16 → token_text prefix → 32 ≤ len secret → token_text secret →
     parse_cli_access_token_prefix ("hcu_" ++ prefix ++ "_" ++ secret)%string = Ok prefix).
Proof.
  split_and!.
  - intros secret code (l & Hlen & Hl & ->)%generated_code. by apply normalize_groups.
  - intros value code (l & Hlen & Hl & ->)%normalized_code. by apply normalize_groups.
  - intros secret Hlen Ht. unfold valid_cli_device_code.
    rewrite (proj2 (strip_prefix_spec "hcd_" _ secret) eq_refl). simpl. rewrite token_chars, Ht by done.
    by replace (32 <=? len secret) with true by lia.
  - intros prefix secret Hp Htp Hs Hts. unfold parse_cli_access_token_prefix.
    rewrite (proj2 (strip_prefix_spec "hcu_" _ _) eq_refl). cbn [ok_or]. cbv zeta.
    destruct (of_bytes_app_take prefix ("_" +:+ secret) 16 Hp) as [Htake Hdrop].
    assert (Hlen : len (prefix +:+ ("_" +:+ secret)) = 17 + len secret).
    { unfold len in *. rewrite !bytes_app, !length_app. simpl. lia. }
    apply bind_ok. eexists. split; [reflexivity|]. apply seq_ok. split; [apply fail_if_ok; lia|].
    rewrite Htake, Hdrop, (proj2 (strip_prefix_spec "_" _ secret) eq_refl).
    apply bind_ok. eexists. split; [reflexivity|]. apply seq_ok. split; [|done]. apply fail_if_ok.
    unfold token_text in *. rewrite forallb_app, Htp, Hts. lia.
Qed.

Section People.
Context `{LimitsDecoder, UuidText, WebLib, PasswordLib, IpNetLib, SqlText, SqlCollation, Serde PolicyDocument}.
Context `{Serde FlowSpec, Serde FlashSpec, Serde SyouyuSpec, Serde VpcSpec, SqlCast, TimeText}.
Context (config : RuntimeConfig) (settings : AccessConfig) (provider : option FlashServiceGateway).

(** ** Signing in *)

(** A session that is opened now, for as long as the configuration says. *)
Definition opens (user : UserId) (token method : string) (db db' : Db) : Prop :=
  ∃ id, create_session user (token_hash token) (now db + session_ttl settings) method db = Ok (id, db').

Lemma run_cases {A} (t : tx A) db x db' : run t db = (x, db') → db' = db ∨ ∃ a, t db = Ok (a, db') ∧ x = Ok a.
Proof. unfold run. destruct (t db) as [[a d]|e]; intros [= <- <-]; [right; eauto | by left]. Qed.

Lemma cookie_cases user method token db x db' :
  create_session_cookie config settings user method token db = (x, db') → db' = db ∨ opens user token method db db'.
Proof.
  unfold create_session_cookie. intros Hrun.
  apply bind_cases in Hrun as [(e & [=] & _)|(t & db1 & [= <- <-] & Hrun)].
  apply bind_cases in Hrun as [(e & [->|(a & Ha & _)]%run_cases & _)|(id & db1 & Hs%run_ok & Hrun)]; [by left | right; by exists a |].
  right. exists id. rewrite Hs. revert Hrun. unfold some_or, from_result. by intros [= _ <-].
Qed.

Lemma password_user_ok mail db p :
  password_user_by_email mail db = Ok (Some p) →
  ∃ id u, users db !! id = Some u ∧ sql_lower (email u) = sql_lower mail ∧
    password_hash u = Some (stored_password_hash p) ∧ user_from_row id u = Ok (password_user p).
Proof.
  unfold password_user_by_email. destruct (find_row _ _) as [[id u]|] eqn:E; [|done].
  apply find_row_some in E as [Hu [Hm%String.eqb_eq _]%andb_true_iff].
  intros (hash & Hh%ok_or_ok & (v & Hv & [= <-])%bind_ok)%bind_ok. by exists id, u.
Qed.

Lemma active_user_from_row id u v :
  user_from_row id u = Ok v → is_active v = true → user_key v = id ∧ user_status u = "active".
Proof.
  unfold user_from_row, is_active. intros (s & Hs & [= <-])%bind_ok. simpl. intros Ha.
  destruct (String.eqb_spec (user_status u) "active"); [done|].
  destruct (String.eqb (user_status u) "suspended"); [injection Hs as <-; done | done].
Qed.

Lemma login_cases r mail password token db x db' :
  login config settings r mail password token db = (x, db') →
  db' = db ∨
  ∃ id u hash, users db !! id = Some u ∧ sql_lower (email u) = sql_lower mail ∧ user_status u = "active" ∧
    password_hash u = Some hash ∧ argon2_verify hash password = true ∧ require_same_origin config r = Ok () ∧
    opens id token "local" db db'.
Proof.
  unfold login. intros Hrun.
  apply bind_cases in Hrun as [(e & [= _ ->] & _)|([] & db1 & [Ho ->]%from_result_ok & Hrun)]; [by left|].
  apply bind_cases in Hrun as [(e & ->%still_check & _)|(u & db1 & [_ ->]%check_ok & Hrun)]; [by left|].
  apply bind_cases in Hrun as [(e & [= _ ->] & _)|(found & db1 & [Hp ->]%fetch_ok & Hrun)]; [by left|].
  apply bind_cases in Hrun as [(e & [= _ ->] & _)|(p & db1 & [-> ->]%some_or_ok & Hrun)]; [by left|].
  apply bind_cases in Hrun as [(e & ->%still_check & _)|(u' & db1 & [Hc ->]%check_ok & Hrun)]; [by left|].
  apply andb_true_iff in Hc as [Hact Hv].
  apply password_user_ok in Hp as (id & row & Hrow & Hmail & Hhash & Hfrom).
  destruct (active_user_from_row _ _ _ Hfrom Hact) as [Hid Hst]. rewrite Hid in Hrun.
  apply bind_cases in Hrun as [(e & [=] & _)|(t & db1 & [= <- <-] & Hrun)].
  assert (Hopen : db' = db ∨ opens id token "local" db db').
  { apply bind_cases in Hrun as [(e & [->|(a & Ha & _)]%run_cases & _)|(sid & db1 & Hs%run_ok & Hrun)];
      [by left | right; by exists a |]. right. exists sid. rewrite Hs. f_equal. f_equal.
    apply bind_cases in Hrun as [(e & [= _ ->] & _)|(found & db2 & [_ ->]%fetch_ok & Hrun)]; [done|].
    apply bind_cases in Hrun as [(e & [= _ ->] & _)|(su & db2 & [_ ->]%some_or_ok & Hrun)]; [done|].
    apply bind_cases in Hrun as [(e & [= _ ->] & _)|(csrf & db2 & [_ ->]%some_or_ok & [= _ <-])]; done. }
  destruct Hopen as [->|Hopen]; [by left|]. right. exists id, row, (stored_password_hash p). by split_and!.
Qed.

(** What a call of the store with an answer of its own leaves. *)
Lemma exec_run {A} (f : Db → result StoreError A * Db) db x db' :
  exec f db = (x, db') → ∃ y, f db = (y, db') ∧ x = map_err from_store y.
Proof. unfold exec. destruct (f db) as [y d]. intros [= <- <-]. eauto. Qed.

Lemma register_cases r permit invitation mail new_name password token db x db' :
  register config settings r permit invitation mail new_name password token db = (x, db') →
  db' = db ∨
  ∃ hash y d, validate_password password = Ok () ∧ argon2_hash password = Some hash ∧
    invitation_available (token_hash invitation) db = true ∧
    register_with_invitation (token_hash invitation) mail new_name hash db = (y, d) ∧
    (db' = d ∨ ∃ user, y = Ok user ∧ opens (user_key (session_owner user)) token "local" d db').
Proof.
  unfold register. intros Hrun.
  apply bind_cases in Hrun as [(e & [= _ ->] & _)|(u0 & db1 & [_ ->]%from_result_ok & Hrun)]; [by left|].
  apply bind_cases in Hrun as [(e & ->%still_check & _)|(u & db1 & [_ ->]%check_ok & Hrun)]; [by left|].
  apply bind_cases in Hrun as [(e & [= _ ->] & _)|(u1 & db1 & [_ ->]%from_result_ok & Hrun)]; [by left|].
  apply bind_cases in Hrun as [(e & [=] & _)|(available & db1 & [-> ->]%ask_ok & Hrun)].
  apply bind_cases in Hrun as [(e & ->%still_check & _)|(u2 & db1 & [Hav ->]%check_ok & Hrun)]; [by left|].
  apply bind_cases in Hrun as [(e & ->%still_check & _)|(u3 & db1 & [_ ->]%check_ok & Hrun)]; [by left|].
  apply bind_cases in Hrun as [(e & [= _ ->] & _)|(hash & db1 & [Hh%map_err_ok ->]%from_result_ok & Hrun)]; [by left|].
  unfold hash_password in Hh. apply seq_ok in Hh as [Hpw Hh%ok_or_ok]. right.
  apply bind_cases in Hrun as [(e & (y & Hy & _)%exec_run & _)|(user & db1 & (y & Hy & Hx)%exec_run & Hrun)].
  - exists hash, y, db'. split_and!; auto.
  - exists hash, y, db1. split_and!; auto. symmetry in Hx. apply map_err_ok in Hx. subst.
    unfold issue_session in Hrun.
    apply bind_cases in Hrun as [(e & Hq & _)|(csrf & db2 & Hq & [= _ <-])];
      (apply cookie_cases in Hq as [->|Hq]; [by left | right; by exists user]).
Qed.

Lemma oidc_cases identity token db x db' :
  oidc_callback config settings identity token db = (x, db') →
  db' = db ∨
  ∃ i y d, identity = Ok i ∧
    find_or_create_oidc_user (oidc_issuer i) (oidc_subject i) (oidc_email i) (oidc_display_name i) db = (y, d) ∧
    (db' = d ∨ ∃ user, y = Ok user ∧ is_active (session_owner user) = true ∧
       opens (user_key (session_owner user)) token "oidc" d db').
Proof.
  unfold oidc_callback. intros Hrun.
  apply bind_cases in Hrun as [(e & [= _ ->] & _)|(i & db1 & [Hi ->]%from_result_ok & Hrun)]; [by left|].
  apply bind_cases in Hrun as [(e & ->%still_check & _)|(u & db1 & [_ ->]%check_ok & Hrun)]; [by left|].
  apply bind_cases in Hrun as [(e & [= _ ->] & _)|(u1 & db1 & [_ ->]%from_result_ok & Hrun)]; [by left|]. right.
  apply bind_cases in Hrun as [(e & (y & Hy & _)%exec_run & _)|(user & db1 & (y & Hy & Hx)%exec_run & Hrun)].
  - exists i, y, db'. split_and!; auto.
  - exists i, y, db1. split_and!; auto. symmetry in Hx. apply map_err_ok in Hx. subst.
    apply bind_cases in Hrun as [(e & ->%still_check & _)|(u2 & db2 & [Ha ->]%check_ok & Hq)]; [by left|].
    apply cookie_cases in Hq as [->|Hq]; [by left | right; by exists user].
Qed.

(** C21: Sessions are opened for the right people.  Signing in with a password
    changes nothing, or opens a session - now, for the configured time - for an
    active user with that address whose stored hash the password verifies, on a
    request from the console.  Registering needs an invitation that is usable and
    a password within the policy, and opens a session only for the user it made;
    a login through the identity provider opens one only for the active user with
    the identity the provider vouched for. *)
Theorem sign_in_sound r token db :
  (∀ mail password x db', login config settings r mail password token db = (x, db') →
     db' = db ∨
     ∃ id u hash, users db !! id = Some u ∧ sql_lower (email u) = sql_lower mail ∧ user_status u = "active" ∧
       password_hash u = Some hash ∧ argon2_verify hash password = true ∧ require_same_origin config r = Ok () ∧
       opens id token "local" db db') ∧
  (∀ permit invitation mail new_name password x db',
     register config settings r permit invitation mail new_name password token db = (x, db') →
     db' = db ∨
     ∃ hash y d, validate_password password = Ok () ∧ argon2_hash password = Some hash ∧
       invitation_available (token_hash invitation) db = true ∧
       register_with_invitation (token_hash invitation) mail new_name hash db = (y, d) ∧
       (db' = d ∨ ∃ user, y = Ok user ∧ opens (user_key (session_owner user)) token "local" d db')) ∧
  (∀ identity x db', oidc_callback config settings identity token db = (x, db') →
     db' = db ∨
     ∃ i y d, identity = Ok i ∧
       find_or_create_oidc_user (oidc_issuer i) (oidc_subject i) (oidc_email i) (oidc_display_name i) db = (y, d) ∧
       (db' = d ∨ ∃ user, y = Ok user ∧ is_active (session_owner user) = true ∧
          opens (user_key (session_owner user)) token "oidc" d db')).
Proof. split_and!; intros *; [apply login_cases | apply register_cases | apply oidc_cases]. Qed.

(** ** The owner *)

Inductive owner_call :=
| CallQuotaDefaults (limits : ResourceQuotaLimits)
| CallOrganizationQuota (org : OrganizationId) (limits : ResourceQuotaLimits)
| CallClearOrganizationQuota (org : OrganizationId)
| CallListGpus
| CallGpuAccess (device : Uuid) (open : bool) (assigned : list UserId).

Definition serve_owner (call : owner_call) (r : Request) (peer : option IpAddr) : api () :=
  match call with
  | CallQuotaDefaults limits => forget_answer (update_owner_quota_defaults config settings r peer limits)
  | CallOrganizationQuota org limits => forget_answer (update_owner_organization_quota config settings r peer org limits)
  | CallClearOrganizationQuota org => forget_answer (clear_owner_organization_quota config settings r peer org)
  | CallListGpus => list_owner_gpus config settings provider r peer
  | CallGpuAccess device open assigned =>
      forget_answer (update_owner_gpu_access config settings provider r peer device open assigned)
  end.

(** The request is the owner's: the owner's address and host, and either the
    deployment of the console, whose network is restricted outside of the program,
    or a peer in a configured network. *)
Definition owners_request (r : Request) (peer : option IpAddr) (s : AuthenticatedSession) : Prop :=
  headers r AUTHORIZATION = None ∧
  ∃ owner host port shown,
    owner_email settings = Some owner ∧ owner_origin settings = Some (Some host, port) ∧
    to_ascii_lowercase (user_email (session_owner (auth_user s))) = to_ascii_lowercase owner ∧
    header_text HOST r = Some shown ∧
    to_ascii_lowercase shown = to_ascii_lowercase
      (match port with Some p => (host ++ ":" ++ int_to_string p)%string | None => host end) ∧
    (owner_console_mode settings = true ∨
     ∃ a n, peer = Some a ∧ n ∈ owner_allowed_networks settings ∧ net_contains n (ip_net_from a) = true).

Lemma require_owner_quiet r peer mutation : quiet (require_owner config settings r peer mutation).
Proof.
  unfold require_owner. quiet_frame; [apply authenticated_mutation_quiet | apply authenticated_session_quiet].
Qed.

Lemma owner_allowed r peer mail :
  owner_request_allowed settings r peer mail = true →
  ∃ owner host port shown,
    owner_email settings = Some owner ∧ owner_origin settings = Some (Some host, port) ∧
    to_ascii_lowercase mail = to_ascii_lowercase owner ∧ header_text HOST r = Some shown ∧
    to_ascii_lowercase shown = to_ascii_lowercase
      (match port with Some p => (host ++ ":" ++ int_to_string p)%string | None => host end) ∧
    (owner_console_mode settings = true ∨
     ∃ a n, peer = Some a ∧ n ∈ owner_allowed_networks settings ∧ net_contains n (ip_net_from a) = true).
Proof.
  unfold owner_request_allowed. destruct (owner_origin settings) as [[[host|] port]|], (owner_email settings) as [owner|];
    try done; [|intros [_ Hx]%andb_true_iff; simpl in Hx; by destruct (header_text HOST r)].
  destruct (header_text HOST r) as [shown|]; [|by rewrite andb_false_r].
  intros [[Hm%eq_ignore_ascii_case_lower Hn]%andb_true_iff Hh%eq_ignore_ascii_case_lower]%andb_true_iff.
  exists owner, host, port, shown. split_and!; try done.
  unfold owner_network_boundary_allows in Hn. apply orb_true_iff in Hn as [Hn|Hn]; [by left | right].
  destruct peer as [a|]; [|done]. simpl in Hn. apply existsb_exists in Hn as (n & Hin & Hc).
  exists a, n. split_and!; [done | by apply list_elem_of_In | done].
Qed.

(** The session of a browser, which has taken no role. *)
Definition own_session (r : Request) (db : Db) (s : AuthenticatedSession) : Prop :=
  ∃ row, browser_login config r db s row ∧ ¬ in_role db row.

Lemma own_session_ok r db s db1 db2 :
  authenticated_session config r db = (Ok s, db1) →
  ask (browser_active_role (auth_token_hash s)) db1 = (Ok None, db2) → own_session r db s.
Proof.
  intros (row & i & Hb & -> & id & Hrow)%authenticated_session_ok [Ha _]%ask_ok.
  apply browser_role_cases in Hrow. rewrite <- Ha in Hrow. by exists row.
Qed.

Lemma mutation_session_ok r db s db' :
  authenticated_mutation config r db = (Ok s, db') →
  own_session r db s ∧ require_same_origin config r = Ok () ∧ require_csrf r (auth_csrf s) = Ok ().
Proof.
  unfold authenticated_mutation. intros Hrun.
  apply api_bind_ok in Hrun as (u & db1 & [_ ->]%check_ok & Hrun).
  apply api_bind_ok in Hrun as ([] & db1 & [Ho ->]%from_result_ok & Hrun).
  apply api_bind_ok in Hrun as (s' & db1 & Hs & Hrun).
  apply api_bind_ok in Hrun as ([] & db2 & [Hc ->]%from_result_ok & Hrun).
  apply api_bind_ok in Hrun as (active & db2 & Hact & Hrun).
  apply api_bind_ok in Hrun as (u3 & db3 & [Hn _]%check_ok & [-> _]%api_mret_ok).
  destruct active; [done|]. split; [by eapply own_session_ok | done].
Qed.

Lemma require_owner_ok r peer mutation db s db' :
  require_owner config settings r peer mutation db = (Ok s, db') →
  own_session r db s ∧ owners_request r peer s ∧
  (mutation = true → require_same_origin config r = Ok () ∧ require_csrf r (auth_csrf s) = Ok ()).
Proof.
  unfold require_owner. intros Hrun.
  apply api_bind_ok in Hrun as (u & db1 & [Hh ->]%check_ok & Hrun).
  apply api_bind_ok in Hrun as (s' & db1 & Hs & Hrun).
  apply api_bind_ok in Hrun as (active & db2 & Hact & Hrun).
  apply api_bind_ok in Hrun as (u1 & db3 & [Hn _]%check_ok & Hrun).
  apply api_bind_ok in Hrun as (u2 & db4 & [Ha _]%check_ok & [-> _]%api_mret_ok).
  assert (owners_request r peer s').
  { split; [|by apply owner_allowed]. unfold has_header in Hh. by destruct (headers r AUTHORIZATION). }
  destruct active; [done|]. destruct mutation.
  - apply mutation_session_ok in Hs as (? & ? & ?). done.
  - split_and!; [by eapply own_session_ok | done | done].
Qed.

Definition owner_changes (call : owner_call) : bool := match call with CallListGpus => false | _ => true end.

(** C20: What belongs to the owner of the installation needs the owner.  A request
    that changes the default limits or those of an account, or brings the catalog
    of GPUs or who may use them up to date, leaves nothing but times of use behind,
    unless it comes without a bearer token from a browser session in force, which
    has taken no role, of the user with the owner's address, is addressed to the
    owner's host, and either the program is deployed as the owner's console - whose
    network is restricted outside of it - or the peer is in one of the configured
    networks; and, for all but the listing of the catalog, comes from an allowed
    origin with the token of the session against forgery.  No such request is
    accepted if no owner is configured. *)
Theorem owner_console_guarded call r peer db x db' :
  serve_owner call r peer db = (x, db') →
  trace_only db db' ∨
  ∃ s, own_session r db s ∧ owners_request r peer s ∧
    (owner_changes call = true → require_same_origin config r = Ok () ∧ require_csrf r (auth_csrf s) = Ok ()).
Proof.
  assert (Hg : ∀ (f : AuthenticatedSession → api ()),
    (require_owner config settings r peer (owner_changes call) ≫= f) db = (x, db') →
    trace_only db db' ∨ ∃ s, own_session r db s ∧ owners_request r peer s ∧
      (owner_changes call = true → require_same_origin config r = Ok () ∧ require_csrf r (auth_csrf s) = Ok ())).
  { intros f [(e & Hq%require_owner_quiet & _)|(s & db1 & Hs & _)]%bind_cases; [by left | right].
    exists s. by eapply require_owner_ok. }
  destruct call; simpl; unfold forget_answer; intros Hrun; eapply Hg; first [exact Hrun | rewrite <- Hrun; symmetry; apply bind_assoc].
Qed.

(** ** All requests of people *)

Inductive session_call :=
| CallLogin (mail password token : string)
| CallRegister (permit : bool) (invitation mail name password token : string)
| CallOidc (identity : result ApiError OidcIdentity) (token : string)
| CallLogout
| CallExitRole
| CallDeviceAuthorization (org : OrganizationId) (device_secret user_secret : string)
| CallDeviceToken (device_code token_prefix token_secret : string)
| CallDeviceApproval (code : string)
| CallCliLogout
| CallCreateOrganization (slug name : string)
| CallJoin (code : string)
| CallProfileName (name : string).

Definition serve_session (call : session_call) (r : Request) : api () :=
  match call with
  | CallLogin mail password token => forget_answer (login config settings r mail password token)
  | CallRegister permit invitation mail name password token =>
      forget_answer (register config settings r permit invitation mail name password token)
  | CallOidc identity token => forget_answer (oidc_callback config settings identity token)
  | CallLogout => logout config r
  | CallExitRole => exit_browser_role config r
  | CallDeviceAuthorization org device_secret user_secret =>
      forget_answer (post_cli_device_authorization org device_secret user_secret)
  | CallDeviceToken device_code token_prefix token_secret =>
      forget_answer (post_cli_token settings device_code token_prefix token_secret)
  | CallDeviceApproval code => post_cli_approval config r code
  | CallCliLogout => cli_logout r
  | CallCreateOrganization slug name => forget_answer (post_organization config r slug name)
  | CallJoin code => forget_answer (post_join config r code)
  | CallProfileName name => put_profile_name config r name
  end.

End People.
