(* ===== verification/FlowApi.v ===== *)
(** * Who may issue and revoke Flow credentials

    A person needs, besides the permission to issue, one for each of the Flow
    permissions that are handed on; a developer credential is good for as much as
    its issuer is permitted at the time it is used; what is signed is what was
    recorded; and a credential is parsed to the prefix under which it is stored. *)
From S2P Require Import Prelude Text Json Net Policy Iam RoleTrust Quota Specs Flash Store Usage Provider Prepare Services FlowAccess Cloud Identity Access Admin FlashStore Authorize IdentityCenter Routes FlashOps ServiceRoutes AccountRoutes FlowRoutes Lifecycle CloudFacts IdentityFacts AccessFacts FlashFacts ApiFacts FlashApi AdminFacts ServiceApi AccountApi SessionApi.

Section Requests.
Context `{LimitsDecoder, JsonText, UuidText, TimeText, Chrono, WebLib, MacLib, SqlText, SqlCollation}.
Context `{Serde PolicyDocument, Serde FlowSpec}.
Context (config : RuntimeConfig) (signer : FlowAccessSigner) (mint_endpoint : option string).

(** ** Requests of people *)

Inductive flow_call :=
| CallAccess (service : ServiceInstanceId) (permissions : list string) (ttl : option Z)
| CallCreateCredential (service : ServiceInstanceId) (name : string) (permissions : list string) (days : Z)
    (fragment secret : string)
| CallRevokeCredential (service : ServiceInstanceId) (credential : Uuid)
| CallRotateCredential (service : ServiceInstanceId) (credential : Uuid) (fragment secret : string)
| CallRevokeContext (service : ServiceInstanceId) (context : Uuid).

Definition serve_flow (call : flow_call) (r : Request) (org : OrganizationId) : api () :=
  match call with
  | CallAccess service permissions ttl =>
      forget_answer (create_realtime_access_credential config signer r org service permissions ttl)
  | CallCreateCredential service name permissions days fragment secret =>
      forget_answer (create_realtime_developer_credential config mint_endpoint r org service name permissions days fragment secret)
  | CallRevokeCredential service credential => revoke_realtime_developer_credential config r org service credential
  | CallRotateCredential service credential fragment secret =>
      forget_answer (rotate_realtime_developer_credential config mint_endpoint r org service credential fragment secret)
  | CallRevokeContext service context => revoke_realtime_access_context config r org service context
  end.

Definition flow_call_service (call : flow_call) : ServiceInstanceId :=
  match call with
  | CallAccess s _ _ | CallCreateCredential s _ _ _ _ _ | CallRevokeCredential s _ | CallRotateCredential s _ _ _
  | CallRevokeContext s _ => s
  end.

(** The Flow permissions that a request hands on. *)
Definition handed_on (call : flow_call) (org : OrganizationId) (db : Db) : list string :=
  match call with
  | CallAccess _ permissions _ | CallCreateCredential _ _ permissions _ _ _ => permissions
  | CallRotateCredential service credential _ _ =>
      match flow_developer_credential org service credential db with Some c => credential_permissions c | None => [] end
  | CallRevokeCredential _ _ | CallRevokeContext _ _ => []
  end.

Definition flow_grants (actor : AuthenticatedActor) (org : OrganizationId) (service : ServiceInstanceId)
    (permissions : list string) (db : Db) : Prop :=
  ∀ p, p ∈ permissions → ∃ act, flow_permission_iam_action p = Some act ∧
    grants_to actor org act (realtime_service_resource org service) db.

Definition flow_condition (call : flow_call) (actor : AuthenticatedActor) (org : OrganizationId) (db : Db) : Prop :=
  grants_to actor org "realtime:IssueAccessCredential" (realtime_service_resource org (flow_call_service call)) db ∧
  flow_grants actor org (flow_call_service call) (handed_on call org db) db.

Lemma needs_mono {A} (P Q : Db → Prop) (m : api A) : (∀ db, P db → Q db) → needs P m → needs Q m.
Proof. intros HPQ Hm db x db' [Ht|Hp]%Hm; [by left | right; by apply HPQ]. Qed.

Lemma flow_grants_lasting actor org service l : lasting (flow_grants actor org service l).
Proof. intros db db' Ht Hg p (act & Ha & Hc)%Hg. exists act. split; [done | by eapply grants_lasting]. Qed.

Lemma permissions_quiet actor org service l : quiet (authorize_flow_permissions actor org service l).
Proof. induction l; simpl; quiet_frame; [apply authorize_quiet | done]. Qed.

Lemma management_quiet actor org service l : quiet (authorize_flow_credential_management actor org service l).
Proof. unfold authorize_flow_credential_management. quiet_frame; [apply authorize_quiet | apply permissions_quiet]. Qed.

Lemma needs_permissions {B} actor org service l (f : () → api B) :
  needs (flow_grants actor org service l) (authorize_flow_permissions actor org service l ≫= f).
Proof.
  induction l as [|p l IH]; [right; by intros p []%not_elem_of_nil|]. simpl. apply needs_assoc.
  intros db x db' [(e & [= _ ->] & _)|(act & db1 & [Ha ->]%some_or_ok & Hrun)]%bind_cases; [by left|].
  rewrite bind_assoc in Hrun.
  destruct (needs_authorize _ _ _ _ _ _ _ _ Hrun) as [|Hg]; [by left|].
  destruct (needs_bind (flow_grants actor org service l) (authorize_actor actor org act (realtime_service_resource org service))
    (λ _, authorize_flow_permissions actor org service l ≫= f)) with (db := db) (x := x) (db' := db') as [|Hl];
    [apply flow_grants_lasting | apply authorize_quiet | intros _; exact IH | exact Hrun | by left |].
  right. intros q [->|Hq]%elem_of_cons; [by exists act | by apply Hl].
Qed.

Lemma needs_management {B} actor org service l (f : AuthorizationContext → api B) :
  needs (λ db, grants_to actor org "realtime:IssueAccessCredential" (realtime_service_resource org service) db ∧
               flow_grants actor org service (default [] l) db)
    (authorize_flow_credential_management actor org service l ≫= f).
Proof.
  unfold authorize_flow_credential_management. apply needs_assoc, needs_and; [apply needs_authorize|].
  apply needs_bind; [apply flow_grants_lasting | apply authorize_quiet | intros context].
  destruct l as [l|]; [|by right; intros p []%not_elem_of_nil]. apply needs_assoc, needs_permissions.
Qed.

Lemma realtime_service_quiet org id : quiet (realtime_service org id).
Proof. apply provided_service_quiet. Qed.

Lemma trace_credential org service id db db' :
  trace_only db db' → flow_developer_credential org service id db' = flow_developer_credential org service id db.
Proof. intros [E _ _]. exact (f_equal (flow_developer_credential org service id) E). Qed.

Lemma flow_condition_lasting call actor org : lasting (flow_condition call actor org).
Proof.
  intros db db' Ht [Hg Hp]. split; [by eapply grants_lasting|].
  assert (handed_on call org db' = handed_on call org db) as <-.
  { destruct call; simpl; [done.. | by rewrite (trace_credential _ _ _ _ _ Ht) | done]. }
  by eapply flow_grants_lasting.
Qed.

(** The authorizations of a request, and something quiet before them. *)
Lemma needs_access {B} actor org service permissions ttl (f : AuthorizationContext → () → api B) :
  needs (flow_condition (CallAccess service permissions ttl) actor org)
    (authorize_actor actor org "realtime:IssueAccessCredential" (realtime_service_resource org service) ≫= λ c,
     authorize_flow_permissions actor org service permissions ≫= f c).
Proof.
  apply needs_and; [apply needs_authorize|]. simpl.
  apply needs_bind; [apply flow_grants_lasting | apply authorize_quiet | intros c; apply needs_permissions].
Qed.

Lemma needs_rotate {B} actor org service credential fragment secret
    (f : AuthorizationContext → CredentialRow → () → api B) :
  needs (flow_condition (CallRotateCredential service credential fragment secret) actor org)
    (authorize_flow_credential_management actor org service None ≫= λ c,
     ask (flow_developer_credential org service credential) ≫= λ found,
     some_or ApiNotFound found ≫= λ existing,
     authorize_flow_permissions actor org service (credential_permissions existing) ≫= f c existing).
Proof.
  apply needs_and; [eapply needs_mono; [|apply needs_management]; simpl; by intros db [? _]|].
  change (needs (λ db, flow_grants actor org service (handed_on (CallRotateCredential service credential fragment secret) org db) db)
    (authorize_flow_credential_management actor org service None ≫= λ c,
     ask (flow_developer_credential org service credential) ≫= λ found,
     some_or ApiNotFound found ≫= λ existing,
     authorize_flow_permissions actor org service (credential_permissions existing) ≫= f c existing)).
  apply needs_bind; [| apply management_quiet | intros c].
  - intros db db' Ht. simpl. rewrite (trace_credential _ _ _ _ _ Ht). by apply flow_grants_lasting.
  - intros db x db' Hrun. apply bind_cases in Hrun as [(e & [=] & _)|(found & db1 & [-> ->]%ask_ok & Hrun)].
    apply bind_cases in Hrun as [(e & [= _ ->] & _)|(existing & db1 & [He ->]%some_or_ok & Hrun)]; [by left|].
    simpl. rewrite He. by eapply needs_permissions.
Qed.

Lemma flow_needs call r org :
  ∃ f : AuthenticatedActor → api (),
    (∀ db, serve_flow call r org db = (authenticated_actor_mutation config r ≫= f) db) ∧
    ∀ actor, needs (flow_condition call actor org) (f actor).
Proof.
  destruct call; simpl; (eexists; split; [intros db; first [reflexivity | apply bind_assoc] |]); intros actor; cbv beta;
    try lazymatch goal with |- needs _ ((_ ≫= _) ≫= λ _, mret ()) => apply needs_forget; cbv beta end;
    repeat lazymatch goal with
    | |- needs _ (authorize_actor _ _ _ _ ≫= _) => apply needs_access
    | |- needs (flow_condition (CallRotateCredential _ _ _ _) _ _) (authorize_flow_credential_management _ _ _ _ ≫= _) =>
        apply needs_rotate
    | |- needs _ (authorize_flow_credential_management _ _ _ _ ≫= _) => apply needs_management
    | |- needs _ (realtime_service _ _ ≫= _) =>
        apply needs_bind; [apply flow_condition_lasting | apply realtime_service_quiet | intros ?]
    | |- needs _ (_ ≫= _) => apply needs_bind; [apply flow_condition_lasting | quiet_frame | intros ?]
    end.
Qed.

(** ** Requests of developer credentials *)

Inductive developer_call :=
| CallMint (principal : PrincipalId) (permissions : list string) (ttl : Z)
| CallListContexts (limit : option Z)
| CallRevokeOwnContext (context : Uuid).

Definition serve_developer (call : developer_call) (r : Request) : api () :=
  match call with
  | CallMint principal permissions ttl =>
      forget_answer (create_developer_access_credential signer r principal permissions ttl)
  | CallListContexts limit => forget_answer (list_developer_access_contexts r limit)
  | CallRevokeOwnContext context => revoke_developer_access_context r context
  end.

Definition developer_permissions (call : developer_call) : list string :=
  match call with CallMint _ permissions _ => permissions | _ => [] end.

(** The stored policies of the issuer allow an action now. *)
Definition issuer_allowed (i : FlowDeveloperCredentialIssuer) (context : AuthorizationContext) (act : string) (db : Db)
    : Prop :=
  let org := issuer_organization i in
  let request := Build_AuthorizationRequest org org act (realtime_service_resource org (issuer_service i))
    (now db * NANOS_PER_SECOND) in
  ∃ levels, service_control_levels org db = Ok levels ∧
    (has_effect request Allow (policies context) ∨ is_administrator context = true) ∧
    ¬ has_effect request Deny (policies context) ∧
    (∀ b, permissions_boundary context = Some b → passes request [b]) ∧
    (∀ l, l ∈ levels → passes request l).

Definition issuer_permitted (prefix : string) (hash : Digest) (permissions : list string) (db : Db) : Prop :=
  ∃ i context,
    flow_developer_credential_issuer prefix hash db = Some i ∧ issuer_is_iam_role i = false ∧
    match issuer_user i with
    | Some u => authorization_context u (issuer_organization i) db = Ok (Some context)
    | None => authorization_context_for_principal (issuer_principal i) (issuer_organization i) db = Ok (Some context)
    end ∧
    Iam.context_principal_id context = issuer_principal i ∧
    issuer_allowed i context "realtime:IssueAccessCredential" db ∧
    ∀ p, p ∈ permissions → ∃ act, flow_permission_iam_action p = Some act ∧ issuer_allowed i context act db.

Lemma evaluate_issuer_quiet i context res t actions : quiet (evaluate_issuer i context res t actions).
Proof.
  induction actions; simpl; [by apply quiet_same|]. unfold evaluate_account. quiet_frame. done.
Qed.

Lemma evaluate_issuer_ok i context actions db db' :
  let res := realtime_service_resource (issuer_organization i) (issuer_service i) in
  evaluate_issuer i context res (now db * NANOS_PER_SECOND) actions db = (Ok (), db') →
  ∀ act, act ∈ actions → issuer_allowed i context act db.
Proof.
  intros res. revert db'. induction actions as [|a actions IH]; [by intros db' _ act []%not_elem_of_nil|]. simpl. intros db' Hrun.
  apply api_bind_ok in Hrun as (e & db1 & He & Hrun). pose proof (evaluate_account_still _ _ _ _ _ _ _ _ _ He) as ->.
  apply api_bind_ok in Hrun as (u & db1 & Hd & Hrun).
  destruct (decide (decision e = Decision.Deny)) as [Hdeny|Hallow].
  { rewrite bool_decide_true in Hd by done. by api_inv Hd. }
  rewrite bool_decide_false in Hd by done. injection Hd as _ <-.
  intros act [->|Hin]%elem_of_cons; [|by eapply IH].
  eapply evaluate_account_allows; [exact He | by destruct (decision e)].
Qed.

Lemma flow_actions_all l acts : flow_actions l = Some acts →
  ∀ p, p ∈ l → ∃ act, flow_permission_iam_action p = Some act ∧ act ∈ acts.
Proof.
  revert acts. induction l as [|q l IH]; intros acts Hl p; [by intros []%not_elem_of_nil|]. cbn [flow_actions] in Hl.
  apply bind_Some in Hl as (a & Ha & Hl). apply bind_Some in Hl as (k & Hk & [= <-]).
  intros [->|Hp]%elem_of_cons; [exists a; split; [done | by left]|].
  destruct (IH _ Hk _ Hp) as (act & ? & ?). exists act. split; [done | by right].
Qed.

Lemma authorize_developer_quiet prefix hash l : quiet (authorize_flow_developer_credential prefix hash l).
Proof. unfold authorize_flow_developer_credential. quiet_frame. apply evaluate_issuer_quiet. Qed.

Lemma authorize_developer_ok prefix hash l db db' :
  authorize_flow_developer_credential prefix hash l db = (Ok (), db') → issuer_permitted prefix hash l db.
Proof.
  unfold authorize_flow_developer_credential. intros Hrun.
  apply api_bind_ok in Hrun as (found & db1 & [-> ->]%ask_ok & Hrun).
  apply api_bind_ok in Hrun as (i & db1 & [Hi ->]%some_or_ok & Hrun).
  apply api_bind_ok in Hrun as (u & db1 & [Hr%negb_true_iff ->]%check_ok & Hrun).
  apply api_bind_ok in Hrun as (found & db1 & Hf & Hrun).
  assert (Hc : db1 = db ∧ match issuer_user i with
    | Some u => authorization_context u (issuer_organization i) db = Ok found
    | None => authorization_context_for_principal (issuer_principal i) (issuer_organization i) db = Ok found end).
  { destruct (issuer_user i); by apply fetch_ok in Hf as [? ->]. }
  destruct Hc as [-> Hc]. apply api_bind_ok in Hrun as (context & db1 & [Hk ->]%some_or_ok & Hrun).
  apply bind_Some in Hk as (c & -> & Hk). case_bool_decide as Hp; [|done]. injection Hk as ->.
  apply api_bind_ok in Hrun as (actions & db1 & [Ha ->]%some_or_ok & Hrun).
  apply api_bind_ok in Hrun as (t & db1 & [-> ->]%ask_ok & Hrun).
  pose proof (evaluate_issuer_ok _ _ _ _ _ Hrun) as Hall.
  exists i, context. split_and!; [done | done | done | done | apply Hall; left |].
  intros p (act & Hact & Hin)%(flow_actions_all _ _ Ha). exists act. split; [done|]. apply Hall. by right.
Qed.

(** A call of a developer credential: the credential, its issuer, and the rest. *)
Lemma needs_developer {B} prefix hash l (f : () → api B) :
  needs (issuer_permitted prefix hash l) (authorize_flow_developer_credential prefix hash l ≫= f).
Proof.
  intros db x db' [(e & Hq%authorize_developer_quiet & _)|([] & db1 & Hq%authorize_developer_ok & _)]%bind_cases; auto.
Qed.

Lemma developer_needs call r db x db' :
  serve_developer call r db = (x, db') →
  trace_only db db' ∨ ∃ prefix hash, authenticate_flow_developer_bearer r = Ok (prefix, hash) ∧
    issuer_permitted prefix hash (developer_permissions call) db.
Proof.
  assert (Hg : ∀ (f : string * Digest → api ()),
    (∀ b, needs (issuer_permitted (fst b) (snd b) (developer_permissions call)) (f b)) →
    (from_result (authenticate_flow_developer_bearer r) ≫= f) db = (x, db') →
    trace_only db db' ∨ ∃ prefix hash, authenticate_flow_developer_bearer r = Ok (prefix, hash) ∧
      issuer_permitted prefix hash (developer_permissions call) db).
  { intros f Hf [(e & [= _ ->] & _)|([prefix hash] & db1 & [Hb ->]%from_result_ok & Hrun)]%bind_cases; [by left|].
    destruct (Hf _ _ _ _ Hrun) as [|Hp]; [by left | right; by exists prefix, hash]. }
  assert (Hl : ∀ b, lasting (issuer_permitted (fst b) (snd b) (developer_permissions call))).
  { intros [prefix hash] d d' [E _ _] Hd. change (issuer_permitted prefix hash (developer_permissions call) (erase d)).
    rewrite <- E. exact Hd. }
  destruct call; simpl; unfold forget_answer; intros Hrun.
  all: eapply Hg; [|first [exact Hrun | rewrite <- Hrun; symmetry; apply bind_assoc]]; intros b; cbv beta;
    try lazymatch goal with |- needs _ ((_ ≫= _) ≫= λ _, mret ()) => apply needs_forget; cbv beta end;
    repeat lazymatch goal with
    | |- needs _ (authorize_flow_developer_credential _ _ _ ≫= _) => apply needs_developer
    | |- needs _ (_ ≫= _) => apply needs_bind; [apply Hl | quiet_frame | intros ?]
    end.
Qed.

(** C17: Flow access is handed on only by those who have it.  A request that issues
    an access context or a developer credential, rotates or revokes one, leaves
    nothing but traces behind, unless its caller was authenticated and the stored
    policies grant the caller to issue access to the service and every action that
    stands for a Flow permission that is handed on - for a rotation, those the
    credential has.  A request that is made with a developer credential leaves
    nothing but traces, unless the credential is good, was not issued by a role,
    and the policies its issuer has now allow the issuer to issue access and each
    of the permissions that are asked for. *)
Theorem flow_access_mediated r db x db' :
  (∀ call org, serve_flow call r org db = (x, db') →
     trace_only db db' ∨
     ∃ actor db1, authenticated_actor_mutation config r db = (Ok actor, db1) ∧ flow_condition call actor org db) ∧
  (∀ call, serve_developer call r db = (x, db') →
     trace_only db db' ∨ ∃ prefix hash, authenticate_flow_developer_bearer r = Ok (prefix, hash) ∧
       issuer_permitted prefix hash (developer_permissions call) db).
Proof.
  split; [|intros call; apply developer_needs].
  intros call org. destruct (flow_needs call r org) as (f & Hf & Hm). rewrite Hf. intros Hrun.
  apply bind_cases in Hrun as [(e & Hq%authenticated_actor_mutation_quiet & _)|(actor & db1 & Ha & Hrun)]; [by left|].
  pose proof (authenticated_actor_mutation_quiet _ _ _ _ _ Ha) as Hq.
  destruct (Hm actor _ _ _ Hrun) as [Ht|Hc]; [left; by etrans|]. right. exists actor, db1. split; [done|].
  by eapply flow_condition_lasting.
Qed.

(** ** Credentials as text *)

(** A credential that is given out is parsed to the prefix under which it is
    stored, which is one the table accepts. *)
Lemma generated_credential_parses fragment secret :
  len fragment = FLOW_DEVELOPER_CREDENTIAL_FRAGMENT_LENGTH → forallb is_fragment_byte (bytes fragment) = true →
  len secret = FLOW_DEVELOPER_CREDENTIAL_SECRET_LENGTH → token_text secret →
  let '(prefix, credential, _) := generate_flow_developer_credential fragment secret in
  parse_flow_developer_credential_prefix credential = Ok prefix ∧ valid_prefix prefix = true.
Proof.
  intros Hf Hfb Hs Hst. cbn [generate_flow_developer_credential]. split.
  - change (parse_flow_developer_credential_prefix ("hcf_" +:+ (fragment +:+ ("_" +:+ secret))) = Ok ("hcf_" +:+ fragment)).
    unfold parse_flow_developer_credential_prefix. apply bind_ok. exists (fragment +:+ ("_" +:+ secret)).
    split; [by rewrite (proj2 (strip_prefix_spec "hcf_" _ _) eq_refl)|].
    apply bind_ok. exists (fragment, secret). split.
    + apply ok_or_ok, (split_once_first (ascii_of_byte UNDERSCORE)). intros c Hin ->. rewrite forallb_forall in Hfb.
      apply list_elem_of_In, Hfb in Hin. by vm_compute in Hin.
    + apply seq_ok. split; [|done]. apply fail_if_ok. unfold token_text in Hst. rewrite Hf, Hfb, Hs, Hst. done.
  - unfold valid_prefix. rewrite bytes_app. simpl. unfold len, FLOW_DEVELOPER_CREDENTIAL_FRAGMENT_LENGTH in Hf.
    by replace (length (bytes fragment) =? 16)%nat with true by (symmetry; apply Nat.eqb_eq; lia).
Qed.

End Requests.
