(* ===== verification/StorageApi.v ===== *)
(** * Who may use the credentials of object storage

    What is sent to the provider of object storage was permitted, is signed for
    the one service and the one permission that it needs, and a credential that
    was issued is answered or revoked. *)
From S2P Require Import Prelude Text Json Net Policy Iam RoleTrust Quota Specs Flash Store Usage Provider Prepare Services FlowAccess Cloud Identity Access Admin FlashStore Authorize IdentityCenter Routes FlashOps ServiceRoutes AccountRoutes SessionRoutes FlowRoutes Oidc StorageRoutes Lifecycle CloudFacts IdentityFacts AccessFacts FlashFacts ApiFacts FlashApi AdminFacts ServiceApi AccountApi.

(** ** Handlers on the database and the wire *)

Lemma storage_cases {A B} (m : storage A) (f : A → storage B) db w x db' w' :
  (m ≫= f) db w = (x, db', w') →
  (∃ e, m db w = (Err e, db', w') ∧ x = Err e) ∨ ∃ a db1 w1, m db w = (Ok a, db1, w1) ∧ f a db1 w1 = (x, db', w').
Proof.
  unfold mbind, storage_bind. destruct (m db w) as [[[a|e] db1] w1]; [by right; exists a, db1, w1|].
  intros [= <- <- <-]. left. by exists e.
Qed.

Lemma on_db_run {A} (m : api A) db w x db' w' : on_db m db w = (x, db', w') → m db = (x, db') ∧ w' = w.
Proof. unfold on_db. by intros [= -> ->]. Qed.

Lemma on_wire_run {A} (m : Wire → result SyouyuProviderError A * Wire) db w x db' w' :
  on_wire m db w = (x, db', w') → ∃ y, m w = (y, w') ∧ x = map_err map_syouyu_provider_error y ∧ db' = db.
Proof. unfold on_wire. destruct (m w) as [y w1]. intros [= <- <- <-]. by exists y. Qed.

(** ** Requests *)

Section Client.
Context `{UuidText, JsonText, MacLib, UrlJoin, FromSlice ProviderErrorEnvelope}.
Context (proxy : SyouyuProviderProxy).

(** A request that carries the context, signed now. *)
Definition speaks_for (c : SyouyuProviderContext) (w : Wire) (q : SyouyuRequest) : Prop :=
  ∃ id, 0 ≤ wire_time w ∧ syouyu_sign_at (proxy_signer proxy) c (wire_time w) id = Ok (wire_principal q).

Definition is_request (m : SyouyuMethod) (route : string) (key : option Uuid) (body : option (string * SyouyuProviderPermissions))
    (c : SyouyuProviderContext) (w : Wire) (q : SyouyuRequest) : Prop :=
  speaks_for c w q ∧ wire_method q = m ∧ wire_key q = key ∧ wire_body q = body ∧
  url_join (proxy_endpoint proxy) route = Some (wire_url q).

(** What one call sends: nothing, if it cannot be made, or the request. *)
Definition sends (m : SyouyuMethod) (route : string) (key : option Uuid) (body : option (string * SyouyuProviderPermissions))
    (c : SyouyuProviderContext) (w w' : Wire) : Prop :=
  wire_time w' = wire_time w ∧
  (wire_sent w' = wire_sent w ∨
   ∃ q, wire_sent w' = wire_sent w ++ [q] ∧ is_request m route key body c w q).

Lemma syouyu_request_sends m route key body c w x w' :
  syouyu_request proxy m route key body c w = (x, w') → sends m route key body c w w'.
Proof.
  unfold syouyu_request. destruct (url_join (proxy_endpoint proxy) route) as [u|] eqn:Hu; [|intros [= _ <-]; by split; [|left]].
  destruct (syouyu_sign _ _ _ _) as [p|e] eqn:Hp; [|intros [= _ <-]; by split; [|left]].
  apply guard_ok in Hp as [Ht0%Z.ltb_ge Hp].
  unfold syouyu_send. simpl. intros Hs. assert (Hw : wire_time w' = wire_time w ∧
    wire_sent w' = wire_sent w ++ [Build_SyouyuRequest m u key body p]) by (by destruct (wire_replies w); injection Hs as _ <-).
  destruct Hw as [Ht Hw]. split; [done|]. right. eexists. split; [exact Hw|]. simpl. split_and!; try done.
  exists (wire_uuid w). by split.
Qed.

Lemma syouyu_call_sends {A} `{FromSlice A} m route key body c w (x : result SyouyuProviderError A) w' :
  syouyu_call proxy m route key body c w = (x, w') → sends m route key body c w w'.
Proof.
  unfold syouyu_call. destruct (syouyu_request proxy m route key body c w) as [r w1] eqn:Hr. intros [= _ <-].
  by eapply syouyu_request_sends.
Qed.

Lemma revoke_sends `{FromSlice RevokedCredentialResponse} c id key w x w' :
  revoke_bucket_credential proxy c id key w = (x, w') →
  sends SyouyuDelete ("v1/credentials/" ++ uuid_to_string id)%string (Some key) None c w w'.
Proof.
  unfold revoke_bucket_credential. destruct (syouyu_call _ _ _ _ _ _ _) as [r w1] eqn:Hr. intros [= _ <-].
  by eapply syouyu_call_sends.
Qed.

Lemma list_sends `{FromSlice CredentialListResponse} c w x w' :
  list_bucket_credentials proxy c w = (x, w') → sends SyouyuGet "v1/credentials" None None c w w'.
Proof.
  unfold list_bucket_credentials. destruct (syouyu_call _ _ _ _ _ _ _) as [r w1] eqn:Hr. intros [= _ <-].
  by eapply syouyu_call_sends.
Qed.

End Client.

Section Requests.
Context `{LimitsDecoder, Serde FlowSpec, Serde FlashSpec, Serde SyouyuSpec, Serde VpcSpec}.
Context `{IpNetLib, UrlLib, JsonText, UuidText, SqlCast, Chrono, TimeText}.
Context `{WebLib, SqlText, SqlCollation, Serde PolicyDocument}.
Context `{MacLib, CodecLib, UrlJoin, FromSlice ProviderErrorEnvelope, FromSlice SyouyuServiceOverview, FromSlice SyouyuProviderUsage}.
Context `{FromSlice CredentialListResponse, FromSlice IssuedSyouyuProviderCredential, FromSlice RevokedCredentialResponse}.
Context (config : RuntimeConfig) (provider : option SyouyuProviderProxy).

Inductive storage_call :=
| CallBucketUsage
| CallListBucketCredentials
| CallCreateBucketCredential (name : string) (permissions : list SyouyuCredentialPermission)
| CallRevokeBucketCredential (credential : Uuid).

Definition no_answer {A} (m : storage A) : storage () := m ≫= λ _, mret ().

Definition serve_storage (call : storage_call) (r : Request) (org : OrganizationId) (service : ServiceInstanceId) : storage () :=
  match call with
  | CallBucketUsage => no_answer (get_syouyu_bucket_usage config provider r org service)
  | CallListBucketCredentials => no_answer (list_syouyu_credentials config provider r org service)
  | CallCreateBucketCredential name permissions =>
      no_answer (create_syouyu_credential config provider r org service name permissions)
  | CallRevokeBucketCredential credential => revoke_syouyu_credential config provider r org service credential
  end.

(** Who the caller is: a request that changes something must come from the console. *)
Definition storage_actor (call : storage_call) (r : Request) : api AuthenticatedActor :=
  match call with
  | CallBucketUsage | CallListBucketCredentials => authenticated_actor config r
  | _ => authenticated_actor_mutation config r
  end.

Definition storage_permission (call : storage_call) (org : OrganizationId) (service : ServiceInstanceId) : string * string :=
  match call with
  | CallBucketUsage => ("syouyu:GetBucketUsage", syouyu_bucket_resource org service)
  | CallListBucketCredentials => ("syouyu:ListCredentials", syouyu_credential_collection_resource org service)
  | CallCreateBucketCredential _ _ => ("syouyu:CreateCredential", syouyu_credential_collection_resource org service)
  | CallRevokeBucketCredential credential => ("syouyu:RevokeCredential", syouyu_credential_resource org service credential)
  end.

(** The permissions a call may ask the provider for. *)
Definition wire_permissions (call : storage_call) : list string :=
  match call with
  | CallBucketUsage => ["syouyu.usage.read"; "syouyu.overview.read"]
  | CallListBucketCredentials => ["syouyu.credential.read"]
  | CallCreateBucketCredential _ _ => ["syouyu.credential.create"; "syouyu.credential.revoke"]
  | CallRevokeBucketCredential _ => ["syouyu.credential.revoke"]
  end.

(** What an authorized call goes on with: a bucket of the account that is ready,
    and the caller. *)
Definition target_of (actor : AuthenticatedActor) (org : OrganizationId) (service : ServiceInstanceId) (act res : string)
    (t : AuthorizedSyouyuProvider) (db : Db) : Prop :=
  ∃ context row limits,
    granted actor org act res false db context ∧
    service_instances db !! service = Some row ∧ in_org org row = true ∧ has_provider "syouyu" row = true ∧ state row = Ready ∧
    from_value (spec row) = Some (target_spec t) ∧ effective_resource_quota org db = Ok limits ∧
    provider = Some (target_proxy t) ∧
    t = Build_AuthorizedSyouyuProvider (target_proxy t) (Build_ServiceInstance service row) (target_spec t)
          (Build_SyouyuCredentialLimits (SyouyuQuotaLimits.max_credentials_per_bucket (ResourceQuotaLimits.syouyu limits))
             (SyouyuQuotaLimits.max_total_credentials (ResourceQuotaLimits.syouyu limits)))
          (Iam.context_principal_id context) ∧
    (act = "syouyu:CreateCredential" → require_durable_credential_issuer actor = Ok ()).

(** The caller is permitted. *)
Definition entitled (call : storage_call) (r : Request) (org : OrganizationId) (service : ServiceInstanceId)
    (t : AuthorizedSyouyuProvider) (db : Db) : Prop :=
  ∃ actor db1, storage_actor call r db = (Ok actor, db1) ∧
    target_of actor org service (fst (storage_permission call org service)) (snd (storage_permission call org service)) t db.

(** What is read of an account is the same behind traces. *)
Lemma trace_reads db db' : trace_only db db' →
  service_instances db' = service_instances db ∧ ∀ org, effective_resource_quota org db' = effective_resource_quota org db.
Proof.
  intros [E _ _]. split; [exact (f_equal service_instances E)|]. intros org. exact (f_equal (effective_resource_quota org) E).
Qed.

Lemma authorized_provider_quiet actor org service act res : quiet (authorized_syouyu_provider provider actor org service act res).
Proof.
  unfold authorized_syouyu_provider. quiet_frame; first [apply authorize_quiet | apply provided_service_quiet | idtac].
Qed.

Lemma authorized_provider_ok actor org service act res db t db' :
  authorized_syouyu_provider provider actor org service act res db = (Ok t, db') →
  target_of actor org service act res t db.
Proof.
  unfold authorized_syouyu_provider. intros Hrun.
  apply api_bind_ok in Hrun as (context & db1 & Ha & Hrun). pose proof (authorize_quiet _ _ _ _ _ _ _ Ha) as [Hs Hq]%trace_reads.
  apply authorize_granted in Ha. apply api_bind_ok in Hrun as (u & db2 & Hd & Hrun).
  assert (Hdur : db2 = db1 ∧ (act = "syouyu:CreateCredential" → require_durable_credential_issuer actor = Ok ())).
  { destruct (String.eqb_spec act "syouyu:CreateCredential"); [|by injection Hd as _ <-].
    apply from_result_ok in Hd as [Hd ->]. by destruct u. }
  destruct Hdur as [-> Hdur]. apply api_bind_ok in Hrun as (i & db2 & Hi & Hrun).
  apply api_bind_ok in Hi as (found & db3 & [-> ->]%ask_ok & [Hf ->]%some_or_ok).
  apply bind_Some in Hf as (row & Hrow & Hf). destruct (in_org org row && has_provider "syouyu" row) eqn:Hop; [|done].
  injection Hf as <-. apply andb_true_iff in Hop as [Hin Hprov].
  apply api_bind_ok in Hrun as (u1 & db2 & [Hst%bool_decide_eq_true ->]%check_ok & Hrun).
  apply api_bind_ok in Hrun as (s & db2 & [Hsp ->]%some_or_ok & Hrun).
  apply api_bind_ok in Hrun as (u2 & db2 & [_ ->]%from_result_ok & Hrun).
  apply api_bind_ok in Hrun as (limits & db2 & [Hl ->]%fetch_ok & Hrun).
  apply api_bind_ok in Hrun as (proxy & db2 & [Hp ->]%some_or_ok & [= <- <-]).
  exists context, row, limits. rewrite <- Hs. rewrite Hq in Hl. split_and!; done.
Qed.

Lemma target_of_trace actor org service act res t db db' :
  trace_only db db' → target_of actor org service act res t db' → target_of actor org service act res t db.
Proof.
  intros Ht (context & row & limits & Hg & Hr & ? & ? & ? & ? & Hl & ?). pose proof (trace_reads _ _ Ht) as [Hs Hq].
  exists context, row, limits. rewrite Hs in Hr. rewrite Hq in Hl. split; [by eapply granted_trace | done].
Qed.

(** The requests a call may send. *)
Definition permitted_request (call : storage_call) (r : Request) (t : AuthorizedSyouyuProvider) (w : Wire) (q : SyouyuRequest) : Prop :=
  let proxy := target_proxy t in
  match call with
  | CallBucketUsage =>
      is_request proxy SyouyuGet "v1/usage" None None (target_context t "syouyu.usage.read") w q ∨
      is_request proxy SyouyuGet "v1/service-overview" None None (target_context t "syouyu.overview.read") w q
  | CallListBucketCredentials =>
      is_request proxy SyouyuGet "v1/credentials" None None (target_context t "syouyu.credential.read") w q
  | CallCreateBucketCredential name l =>
      ∃ key permissions, required_syouyu_idempotency_key r = Ok key ∧ syouyu_provider_permissions l = Ok permissions ∧
        validate_syouyu_credential_name name = Ok () ∧
        (is_request proxy SyouyuPost "v1/credentials" (Some key) (Some (name, permissions))
           (target_context t "syouyu.credential.create") w q ∨
         ∃ id, is_request proxy SyouyuDelete ("v1/credentials/" ++ uuid_to_string id)%string
           (Some (syouyu_compensation_idempotency_key key)) None (target_context t "syouyu.credential.revoke") w q)
  | CallRevokeBucketCredential id =>
      ∃ key, required_syouyu_idempotency_key r = Ok key ∧
        is_request proxy SyouyuDelete ("v1/credentials/" ++ uuid_to_string id)%string (Some key) None
          (target_context t "syouyu.credential.revoke") w q
  end.

(** What was said on the wire is of one kind. *)
Definition said (P : SyouyuRequest → Prop) (w w' : Wire) : Prop :=
  wire_time w' = wire_time w ∧ ∃ l, wire_sent w' = wire_sent w ++ l ∧ Forall P l.

Lemma said_nothing P w : said P w w.
Proof. split; [done|]. exists []. by rewrite app_nil_r. Qed.

Lemma said_trans P w w1 w2 : said P w w1 → said P w1 w2 → said P w w2.
Proof.
  intros (Ht1 & l & Hl & Hp) (Ht2 & k & Hk & Hq). split; [congruence|]. exists (l ++ k).
  rewrite Hk, Hl, app_assoc, Forall_app. done.
Qed.

Lemma sends_said proxy m route key body c w w' (P : SyouyuRequest → Prop) :
  sends proxy m route key body c w w' → (∀ q, is_request proxy m route key body c w q → P q) → said P w w'.
Proof.
  intros [Ht [Hs|(q & Hs & Hq)]] HP; (split; [done|]); [exists []; by rewrite app_nil_r | exists [q]].
  split; [done|]. constructor; [by apply HP | done].
Qed.

(** The time of the wire is all that matters of it. *)
Lemma is_request_time proxy m route key body c w w' q :
  wire_time w' = wire_time w → is_request proxy m route key body c w' q → is_request proxy m route key body c w q.
Proof. unfold is_request, speaks_for. by intros ->. Qed.

(** ** The handlers *)

Definition handled (call : storage_call) (r : Request) (org : OrganizationId) (service : ServiceInstanceId)
    (db : Db) (w : Wire) (db' : Db) (w' : Wire) : Prop :=
  trace_only db db' ∧
  (w' = w ∨ ∃ t, entitled call r org service t db ∧ said (permitted_request call r t w) w w').

(** What a handler does before the wire, and what follows. *)
Lemma handled_before {A B} call r org service (pre : api A) (k : A → storage B) db w x db' w' :
  quiet pre →
  (on_db pre ≫= k) db w = (x, db', w') →
  (∀ a db1, pre db = (Ok a, db1) → k a db1 w = (x, db', w') →
     db' = db1 ∧ (w' = w ∨ ∃ t, entitled call r org service t db ∧ said (permitted_request call r t w) w w')) →
  handled call r org service db w db' w'.
Proof.
  intros Hq [(e & [He ->]%on_db_run & _)|(a & db1 & w1 & [He ->]%on_db_run & Hrun)]%storage_cases Hk.
  - split; [by eapply Hq | by left].
  - destruct (Hk a db1 He Hrun) as [-> Hw]. split; [by eapply Hq | done].
Qed.

Lemma entitled_before (call : storage_call) r org service actor db1 db2 t db db' :
  storage_actor call r db = (Ok actor, db1) → trace_only db db2 →
  authorized_syouyu_provider provider actor org service (fst (storage_permission call org service))
    (snd (storage_permission call org service)) db2 = (Ok t, db') →
  entitled call r org service t db.
Proof.
  intros Ha Hq Ht%authorized_provider_ok. exists actor, db1. split; [done|]. by eapply target_of_trace.
Qed.

Lemma still_run {A} (m : api A) db w x db' w' : still m → on_db m db w = (x, db', w') → db' = db ∧ w' = w.
Proof. intros Hm [He ->]%on_db_run. split; [by eapply Hm | done]. Qed.

Lemma no_answer_run {A} (m : storage A) db w x db' w' :
  no_answer m db w = (x, db', w') → ∃ y, m db w = (y, db', w').
Proof. intros [(e & Hm & _)|(a & db1 & w1 & Hm & [= _ <- <-])]%storage_cases; by eexists. Qed.

Lemma usage_handled r org service db w x db' w' :
  get_syouyu_bucket_usage config provider r org service db w = (x, db', w') →
  handled CallBucketUsage r org service db w db' w'.
Proof.
  intros Hrun. eapply handled_before; [|exact Hrun|].
  { apply quiet_bind; [apply authenticated_actor_quiet | intros ?; apply authorized_provider_quiet]. }
  clear Hrun. intros t db1 (actor & db2 & Ha & Ht)%api_bind_ok Hrun.
  pose proof (entitled_before CallBucketUsage _ _ _ _ _ _ _ _ _ Ha (authenticated_actor_quiet _ _ _ _ _ Ha) Ht) as He.
  assert (Hsaid : ∀ y w2, usage_and_overview t w = (y, w2) → said (permitted_request CallBucketUsage r t w) w w2).
  { intros y w2. unfold usage_and_overview. destruct (bucket_usage _ _ w) as [u w1] eqn:Hu.
    destruct (service_overview _ _ w1) as [o w3] eqn:Ho. intros [= _ <-].
    apply syouyu_call_sends in Hu, Ho. eapply said_trans; [eapply sends_said; [exact Hu | intros q Hq; by left]|].
    eapply sends_said; [exact Ho|]. intros q Hq. right. eapply is_request_time; [exact (proj1 Hu) | exact Hq]. }
  apply storage_cases in Hrun as [(e & (y & Hw & _ & ->)%on_wire_run & _)|(both & db3 & w1 & (y & Hw & _ & ->)%on_wire_run & Hrun)];
    apply Hsaid in Hw; [split; [done|]; right; by exists t|].
  destruct both as [u o].
  apply storage_cases in Hrun as [(e & Hc & _)|(v & db3 & w2 & Hc & [= _ <- <-])];
    apply still_run in Hc as [-> ->]; (apply still_check || (split; [done|]; right; by exists t)).
Qed.

Lemma list_handled r org service db w x db' w' :
  list_syouyu_credentials config provider r org service db w = (x, db', w') →
  handled CallListBucketCredentials r org service db w db' w'.
Proof.
  intros Hrun. eapply handled_before; [|exact Hrun|].
  { apply quiet_bind; [apply authenticated_actor_quiet | intros ?; apply authorized_provider_quiet]. }
  clear Hrun. intros t db1 (actor & db2 & Ha & Ht)%api_bind_ok Hrun.
  pose proof (entitled_before CallListBucketCredentials _ _ _ _ _ _ _ _ _ Ha (authenticated_actor_quiet _ _ _ _ _ Ha) Ht) as He.
  apply storage_cases in Hrun as [(e & (y & Hw & _ & ->)%on_wire_run & _)|(l & db3 & w1 & (y & Hw & _ & ->)%on_wire_run & Hrun)];
    apply list_sends in Hw.
  - split; [done|]. right. exists t. split; [done|]. by eapply sends_said.
  - apply on_db_run in Hrun as [[= _ ->] ->]. split; [done|]. right. exists t. split; [done|]. by eapply sends_said.
Qed.

Lemma revoke_handled r org service credential db w x db' w' :
  revoke_syouyu_credential config provider r org service credential db w = (x, db', w') →
  handled (CallRevokeBucketCredential credential) r org service db w db' w'.
Proof.
  intros Hrun. eapply handled_before; [|exact Hrun|].
  { apply quiet_bind; [apply authenticated_actor_mutation_quiet | intros ?].
    quiet_frame. apply authorized_provider_quiet. }
  clear Hrun. intros [key t] db1 (actor & db2 & Ha & Ht)%api_bind_ok Hrun.
  apply api_bind_ok in Ht as (k & db3 & [Hk ->]%from_result_ok & (t' & db4 & Ht & [= -> -> ->])%api_bind_ok).
  pose proof (entitled_before (CallRevokeBucketCredential credential) _ _ _ _ _ _ _ _ _ Ha (authenticated_actor_mutation_quiet _ _ _ _ _ Ha) Ht) as He.
  apply on_wire_run in Hrun as (y & Hw & _ & ->). apply revoke_sends in Hw.
  split; [done|]. right. exists t. split; [done|]. eapply sends_said; [exact Hw|]. intros q Hq. by exists key.
Qed.

(** The branches of a creation. *)
Lemma create_cases r org service new_name l db w x db' w' :
  create_syouyu_credential config provider r org service new_name l db w = (x, db', w') →
  trace_only db db' ∧
  ((w' = w ∧ ∃ e, x = Err e) ∨
   ∃ key permissions t,
     entitled (CallCreateBucketCredential new_name l) r org service t db ∧
     required_syouyu_idempotency_key r = Ok key ∧ syouyu_provider_permissions l = Ok permissions ∧
     validate_syouyu_credential_name new_name = Ok () ∧
     ((∃ e, create_bucket_credential (target_proxy t) (target_context t "syouyu.credential.create") key new_name permissions w
            = (Err e, w') ∧ x = Err (map_syouyu_provider_error e)) ∨
      ∃ i w1, create_bucket_credential (target_proxy t) (target_context t "syouyu.credential.create") key new_name permissions w
              = (Ok i, w1) ∧
        ((out_of_scope t service i = true ∧ x = Err SyouyuProviderUnavailable ∧
          w' = snd (revoke_bucket_credential (target_proxy t) (target_context t "syouyu.credential.revoke")
                      (bucket_credential_id (issued_credential i)) (syouyu_compensation_idempotency_key key) w1)) ∨
         (out_of_scope t service i = false ∧ w' = w1 ∧
          ∃ c, syouyu_credential_response service (issued_credential i) = Ok c ∧ x = Ok (c, i))))).
Proof.
  unfold create_syouyu_credential. intros Hrun.
  assert (Hq : quiet (actor ← authenticated_actor_mutation config r; key ← from_result (required_syouyu_idempotency_key r);
     from_result (validate_syouyu_credential_name new_name) ;; permissions ← from_result (syouyu_provider_permissions l);
     t ← authorized_syouyu_provider provider actor org service "syouyu:CreateCredential" (syouyu_credential_collection_resource org service);
     mret (key, permissions, t))).
  { apply quiet_bind; [apply authenticated_actor_mutation_quiet | intros ?]. quiet_frame. apply authorized_provider_quiet. }
  apply storage_cases in Hrun as [(e & [He ->]%on_db_run & ->)|(a & db1 & w1 & [He ->]%on_db_run & Hrun)].
  { split; [by eapply Hq|]. left. eauto. }
  pose proof (Hq _ _ _ He) as Htr. clear Hq. destruct a as [[key permissions] t].
  apply api_bind_ok in He as (actor & db2 & Ha & He). apply api_bind_ok in He as (k & db3 & [Hk ->]%from_result_ok & He).
  apply api_bind_ok in He as ([] & db3 & [Hn ->]%from_result_ok & He).
  apply api_bind_ok in He as (p & db3 & [Hp ->]%from_result_ok & (t' & db4 & Ht & [= -> -> -> ->])%api_bind_ok).
  pose proof (entitled_before (CallCreateBucketCredential new_name l) _ _ _ _ _ _ _ _ _ Ha (authenticated_actor_mutation_quiet _ _ _ _ _ Ha) Ht) as Hent.
  apply storage_cases in Hrun as [(e & (y & Hw & Hx & ->)%on_wire_run & ->)|(i & db5 & w2 & (y & Hw & Hx & ->)%on_wire_run & Hrun)].
  { split; [done|]. right. exists key, permissions, t. split_and!; try done. left. destruct y as [|e0]; [done|].
    injection Hx as ->. by exists e0. }
  symmetry in Hx. apply map_err_ok in Hx as ->.
  destruct (out_of_scope t service i) eqn:Ho.
  - destruct (revoke_bucket_credential (target_proxy t) (target_context t "syouyu.credential.revoke")
      (bucket_credential_id (issued_credential i)) (syouyu_compensation_idempotency_key key) w2) as [z w3] eqn:Hv.
    unfold compensate_syouyu_credential, mbind, storage_bind in Hrun. rewrite Hv in Hrun. injection Hrun as <- <- <-.
    split; [done|]. right. exists key, permissions, t. split_and!; try done. right. exists i, w2. split; [done|]. left.
    by rewrite Hv.
  - pose proof Ho as Hok. unfold out_of_scope in Hok. apply orb_false_elim in Hok as [_ Hok].
    destruct (syouyu_credential_response service (issued_credential i)) as [c|e] eqn:Hc; [|done].
    unfold mbind, storage_bind, on_db, from_result in Hrun. injection Hrun as <- <- <-.
    split; [done|]. right. exists key, permissions, t. split_and!; try done. right. exists i, w2. split; [done|]. right.
    split_and!; try done. by exists c.
Qed.

Lemma create_handled r org service new_name l db w x db' w' :
  create_syouyu_credential config provider r org service new_name l db w = (x, db', w') →
  handled (CallCreateBucketCredential new_name l) r org service db w db' w'.
Proof.
  intros [Htr [[-> _]|(key & permissions & t & He & Hk & Hp & Hn & Hw)]]%create_cases; (split; [done|]); [by left|].
  right. exists t. split; [done|].
  assert (Hc : ∀ y w1, create_bucket_credential (target_proxy t) (target_context t "syouyu.credential.create") key new_name permissions w
      = (y, w1) → said (permitted_request (CallCreateBucketCredential new_name l) r t w) w w1).
  { intros y w1 Hc%syouyu_call_sends. eapply sends_said; [exact Hc|]. intros q Hq. exists key, permissions. split_and!; auto. }
  destruct Hw as [(e & Hw & _)|(i & w1 & Hw & [(_ & _ & Hv)|(_ & -> & _)])]; [by eapply Hc | | by eapply Hc].
  eapply said_trans; [by eapply Hc|].
  destruct (revoke_bucket_credential (target_proxy t) (target_context t "syouyu.credential.revoke")
    (bucket_credential_id (issued_credential i)) (syouyu_compensation_idempotency_key key) w1) as [z w3] eqn:Hr.
  simpl in Hv. subst w3. apply revoke_sends in Hr. eapply sends_said; [exact Hr|]. intros q Hq.
  exists key, permissions. split_and!; [done..|]. right. eexists. eapply is_request_time; [|exact Hq].
  by apply syouyu_call_sends in Hw as [? _].
Qed.

Lemma serve_storage_handled call r org service db w x db' w' :
  serve_storage call r org service db w = (x, db', w') → handled call r org service db w db' w'.
Proof.
  destruct call; simpl.
  - intros [y Hy]%no_answer_run. by eapply usage_handled.
  - intros [y Hy]%no_answer_run. by eapply list_handled.
  - intros [y Hy]%no_answer_run. by eapply create_handled.
  - apply revoke_handled.
Qed.

(** C18: Nothing is asked of object storage that was not permitted.  A request on the
    usage or the credentials of a bucket leaves only traces in the database, and
    sends something to the provider only if its caller was authenticated and the
    stored policies grant exactly the action on the resource, for a bucket of the
    account that is ready - to issue a credential, only if the caller is not
    temporary.  Then every request is one of those the call is made of, and carries
    a context, signed at that time with the secret of the provider, for the caller,
    the account, the project and the bucket of the stored row, the limits of the
    account, and the one permission the request needs. *)
Theorem storage_requests_permitted call r org service db w x db' w' :
  serve_storage call r org service db w = (x, db', w') →
  trace_only db db' ∧
  (w' = w ∨
   ∃ t l, entitled call r org service t db ∧ wire_sent w' = wire_sent w ++ l ∧
     ∀ q, q ∈ l → permitted_request call r t w q ∧
       ∃ p id, p ∈ wire_permissions call ∧
         syouyu_sign_at (proxy_signer (target_proxy t)) (target_context t p) (wire_time w) id = Ok (wire_principal q)).
Proof.
  intros [Htr Hw]%serve_storage_handled. split; [done|].
  destruct Hw as [->|(t & He & _ & l & Hl & Hall)]; [by left | right]. exists t, l. split_and!; [done..|].
  rewrite Forall_forall in Hall. intros q Hq%Hall. split; [done|].
  assert (Hsign : ∀ m route key body p, is_request (target_proxy t) m route key body (target_context t p) w q →
    p ∈ wire_permissions call → ∃ p id, p ∈ wire_permissions call ∧
      syouyu_sign_at (proxy_signer (target_proxy t)) (target_context t p) (wire_time w) id = Ok (wire_principal q)).
  { intros m route key body p ((id & _ & Hs) & _) Hp. by exists p, id. }
  destruct call; simpl in Hq.
  - destruct Hq as [Hq|Hq]; eapply Hsign; [exact Hq | by left | exact Hq | right; by left].
  - eapply Hsign; [exact Hq | by left].
  - destruct Hq as (key & ps & _ & _ & _ & [Hq|[id Hq]]); eapply Hsign; [exact Hq | by left | exact Hq | right; by left].
  - destruct Hq as (key & _ & Hq). eapply Hsign; [exact Hq | by left].
Qed.

Lemma credential_response_ok service c a :
  syouyu_credential_response service c = Ok a →
  answered_credential a = c ∧ answered_permissions a ≠ [] ∧
  (bucket_credential_status c = "active" ∨ bucket_credential_status c = "revoked").
Proof.
  unfold syouyu_credential_response. intros (Hg & [= <-])%guard_ok. apply orb_false_elim in Hg as [Hp Hs%negb_false_iff].
  simpl. split_and!; [done | intros E; by rewrite E in Hp|].
  apply orb_true_iff in Hs as [Hs%String.eqb_eq|Hs%String.eqb_eq]; auto.
Qed.

(** A context that could be signed can be signed for another permission, at the
    same time, unless its text cannot be written. *)
Lemma sign_again s t p p' time id id' signed :
  syouyu_sign s (target_context t p) time id = Ok signed →
  to_vec (principal_value s (target_context t p') time (time + principal_ttl s) id') = None ∨
  ∃ signed', syouyu_sign s (target_context t p') time id' = Ok signed'.
Proof.
  unfold syouyu_sign, syouyu_sign_at. intros [Ht [Hc [Hm _]%guard_ok]%guard_ok]%guard_ok. simpl in *. rewrite Ht, Hc, Hm. simpl.
  destruct (to_vec _); [right; by eexists | by left].
Qed.

Lemma call_signed {A} `{FromSlice A} proxy m route key body c w (a : A) w' :
  syouyu_call proxy m route key body c w = (Ok a, w') →
  wire_time w' = wire_time w ∧ ∃ signed, syouyu_sign (proxy_signer proxy) c (wire_time w) (wire_uuid w) = Ok signed.
Proof.
  intros Hc. split; [by apply syouyu_call_sends in Hc as [? _]|]. revert Hc. unfold syouyu_call, syouyu_request.
  destruct (url_join _ _); [|done]. destruct (syouyu_sign _ _ _ _) as [signed|]; [by exists signed | done].
Qed.

(** A revocation is the one request that is sent, unless its address or its context
    cannot be written. *)
Definition revocation_sent (t : AuthorizedSyouyuProvider) (credential key : Uuid) (w w' : Wire) : Prop :=
  let route := ("v1/credentials/" ++ uuid_to_string credential)%string in
  let c := target_context t "syouyu.credential.revoke" in
  let signer := proxy_signer (target_proxy t) in
  (∃ q, wire_sent w' = wire_sent w ++ [q] ∧ is_request (target_proxy t) SyouyuDelete route (Some key) None c w q) ∨
  wire_sent w' = wire_sent w ∧
  (url_join (proxy_endpoint (target_proxy t)) route = None ∨
   to_vec (principal_value signer c (wire_time w) (wire_time w + principal_ttl signer) (wire_uuid w)) = None).

Lemma revocation_is_sent t p id credential key w signed :
  syouyu_sign (proxy_signer (target_proxy t)) (target_context t p) (wire_time w) id = Ok signed →
  revocation_sent t credential key w
    (snd (revoke_bucket_credential (target_proxy t) (target_context t "syouyu.credential.revoke") credential key w)).
Proof.
  intros Hs. unfold revocation_sent.
  destruct (revoke_bucket_credential _ _ _ _ w) as [x w'] eqn:Hr. simpl. pose proof (revoke_sends _ _ _ _ _ _ _ Hr) as [_ Hsent].
  destruct Hsent as [Hsent|(q & Hq & Hreq)]; [|left; by exists q]. right. split; [done|].
  revert Hr. unfold revoke_bucket_credential, syouyu_call, syouyu_request.
  destruct (url_join _ _) as [u|]; [|by left].
  destruct (sign_again _ _ _ "syouyu.credential.revoke" _ _ (wire_uuid w) _ Hs) as [|[signed' ->]]; [by right|].
  unfold syouyu_send. simpl. intros Hr. exfalso. apply (f_equal (length)) in Hsent. revert Hsent.
  destruct (wire_replies w); injection Hr as _ <-; simpl; rewrite length_app; simpl; lia.
Qed.

(** What a credential must be to be handed out. *)
Definition presentable (t : AuthorizedSyouyuProvider) (i : IssuedSyouyuProviderCredential) : Prop :=
  issued_bucket_name i = bucket_name (target_spec t) ∧ valid_syouyu_endpoint (issued_endpoint i) = true ∧
  (permits_read (bucket_credential_permissions (issued_credential i)) = true ∨
   permits_write (bucket_credential_permissions (issued_credential i)) = true) ∧
  (bucket_credential_status (issued_credential i) = "active" ∨ bucket_credential_status (issued_credential i) = "revoked").

Lemma in_scope_presentable t service i : out_of_scope t service i = false ↔ presentable t i.
Proof.
  unfold out_of_scope, presentable, syouyu_credential_response. generalize (issued_credential i) as c. intros c.
  rewrite !orb_false_iff, !negb_false_iff, String.eqb_eq.
  destruct (String.eqb_spec (bucket_credential_status c) "active"), (String.eqb_spec (bucket_credential_status c) "revoked");
    destruct (permits_read _), (permits_write _); simpl; naive_solver.
Qed.

(** C19: A credential that object storage issued is answered or revoked.  A creation
    fails before anything is sent; or its one request fails; or the provider answers
    with a credential.  Then, if it is for the bucket of the specification, at an
    endpoint that is a plain HTTP(S) address, active or revoked and with a
    permission, the caller gets it, with its secret, after that one request.
    Otherwise the caller gets an error, and the request that is sent next is the
    revocation of this very credential, signed for the caller and the bucket, under a
    key derived from that of the creation; it is left out only if its address cannot
    be formed or its context cannot be serialized. *)
Theorem issued_credentials_answered_or_revoked r org service new_name l db w x db' w' :
  create_syouyu_credential config provider r org service new_name l db w = (x, db', w') →
  (w' = w ∧ ∃ e, x = Err e) ∨
  ∃ t key permissions y w1,
    entitled (CallCreateBucketCredential new_name l) r org service t db ∧
    required_syouyu_idempotency_key r = Ok key ∧ syouyu_provider_permissions l = Ok permissions ∧
    create_bucket_credential (target_proxy t) (target_context t "syouyu.credential.create") key new_name permissions w = (y, w1) ∧
    match y with
    | Err e => w' = w1 ∧ x = Err (map_syouyu_provider_error e)
    | Ok i =>
        (presentable t i ∧ w' = w1 ∧
         ∃ a, x = Ok (a, i) ∧ answered_credential a = issued_credential i ∧ answered_permissions a ≠ []) ∨
        (¬ presentable t i ∧ x = Err SyouyuProviderUnavailable ∧
         revocation_sent t (bucket_credential_id (issued_credential i)) (syouyu_compensation_idempotency_key key) w1 w')
    end.
Proof.
  intros [_ [?|(key & permissions & t & He & Hk & Hp & _ & Hw)]]%create_cases; [by left | right].
  destruct Hw as [(e & Hw & ->)|(i & w1 & Hw & [(Ho & -> & Hv)|(Ho & -> & c & Hc & ->)])].
  - by exists t, key, permissions, (Err e), w'.
  - exists t, key, permissions, (Ok i), w1. split_and!; [done..|]. right. split_and!; [|done|].
    + intros Hpr%(in_scope_presentable t service i). congruence.
    + apply call_signed in Hw as (Ht & signed & Hs). subst w'. rewrite <- Ht in Hs. by eapply revocation_is_sent.
  - exists t, key, permissions, (Ok i), w1. split_and!; [done..|]. left. split_and!; [by apply in_scope_presentable in Ho|done|].
    exists c. apply credential_response_ok in Hc as (Hc & Ha & _). done.
Qed.

End Requests.
