(* ===== verification/System.v ===== *)
(** * The running system

    API transactions and provider workers over one database.  A worker takes
    an event through claim, check, request and settlement in separate steps;
    between any two of them other transactions and other workers may run, the
    clock may advance, and the worker may crash.  The invariant proved here
    gives the delivery guarantee of the transactional outbox. *)
From S2P Require Import Prelude Text Json Net Policy Quota Specs Flash Store Usage Prepare Provider Services FlowAccess Cloud Identity Worker Access IdentityCenter Lifecycle FlowFacts CloudFacts IdentityFacts AccessFacts Admin AdminFacts FlashStore FlashFacts.

(** ** Transactions of the API *)

Section Api.
Context `{LimitsDecoder, Serde FlowSpec, Serde FlashSpec, Serde SyouyuSpec, Serde VpcSpec}.
Context `{IpNetLib, UrlLib, JsonText, UuidText, SqlCast, TimeText, SqlText, SqlCollation, Serde PolicyDocument}.

Inductive api_step (db db' : Db) : Prop :=
| api_create org project principal prov new_name v id user i :
    create_service_instance_with_id_for_user org project principal prov new_name v id user db
    = Ok (i, db') → api_step db db'
| api_update org id prov principal project new_name v g i :
    update_service_instance_checked org id prov principal project new_name v g db = Ok (i, db') →
    api_step db db'
| api_stopped org id principal stop i :
    set_flash_service_stopped org id principal stop db = Ok (i, db') → api_step db db'
| api_delete org id prov principal i :
    begin_delete_service_instance org id prov principal db = Ok (i, db') → api_step db db'
| api_observe i v u :
    record_flash_observation i v db = Ok (u, db') → api_step db db'
| api_quota_events org n :
    enqueue_flash_quota_reconcile_tx org db = Ok (n, db') → api_step db db'
| api_gpu_events types n :
    enqueue_flash_gpu_reconciles types db = Ok (n, db') → api_step db db'
| api_quota org limits l :
    set_organization_resource_quota org limits db = Ok (l, db') → api_step db db'
| api_quota_cleared org l :
    clear_organization_resource_quota org db = Ok (l, db') → api_step db db'
| api_weekly n : enable_organization_flash_weekly_quotas db = Ok (n, db') → api_step db db'
| api_defaults limits l :
    update_resource_quota_defaults limits db = Ok (l, db') → api_step db db'
| api_flow : flow_request db db' → api_step db db'
| api_cloud : cloud_step db db' → api_step db db'
| api_identity : identity_request db db' → api_step db db'
| api_access : access_request db db' → api_step db db'
| api_flash : flash_request db db' → api_step db db'
| api_admin : admin_request db db' → api_step db db'
| api_audit row u : append_audit row db = Ok (u, db') → api_step db db'
| api_identifier id : now_v7 db = Ok (id, db') → api_step db db'.

Lemma api_transitions db db' : api_step db db' → rtc transition db db'.
Proof.
  intros [].
  - by eapply rtc_once, create_refines.
  - by eapply rtc_once, update_refines.
  - by eapply rtc_once, stopped_refines.
  - by eapply rtc_once, delete_refines.
  - by eapply rtc_once, observation_refines.
  - by eapply quota_events_refine.
  - by eapply gpu_events_refine.
  - by eapply quota_change_refines.
  - by eapply quota_clear_refines.
  - by eapply weekly_quotas_refine.
  - by eapply default_change_refines.
  - by apply flow_request_refines.
  - by apply cloud_step_refines.
  - by eapply rtc_once, agrees_transition, identity_request_agrees.
  - by eapply rtc_once, agrees_transition, access_request_agrees.
  - by eapply rtc_once, agrees_transition, flash_frame_agrees, flash_request_frame.
  - by apply admin_request_refines.
  - apply rtc_once, agrees_transition. match goal with Ha : _ = Ok _ |- _ => by apply append_audit_ok in Ha as -> end.
  - apply rtc_once, agrees_transition. match goal with Ha : _ = Ok _ |- _ => by apply now_v7_ok in Ha as [_ ->] end.
Qed.

(** C3: Refinement: every transaction the API runs (creation, replacement,
    start and stop, deletion, observed status, quota changes, GPU changes,
    requests on Flow credentials, cloud organizations, people, access,
    administration and the operations of Flash) implements the abstract
    specification: it either leaves services and outbox alone, or creates a
    service at generation 1, or moves a service that is not being deleted to the
    next generation with its reported status cleared, in both cases together with
    exactly one undelivered event for that generation, or records a report about
    the current generation, or charges a service without owner to a member, or
    limits a member of an account whose services all have owners, or adds an
    event about the current generation of a service that is not being deleted or
    about a revoked access context. *)
Theorem api_refines_transitions db db' : api_step db db' → rtc transition db db'.
Proof. apply api_transitions. Qed.

End Api.

(** ** Workers *)

Inductive Pc :=
| Claimed (e : OutboxEvent)
| Calling (e : OutboxEvent) (p : ReconcilePayload)
| Finished (e : OutboxEvent) (outcome : result WorkerError ()).

Definition pc_event (pc : Pc) : OutboxEvent :=
  match pc with Claimed e | Calling e _ | Finished e _ => e end.

Record System := {
  database : Db;
  workers : gmap nat Pc;
}.

(** Whether [process_one] marks the event as delivered. *)
Definition settles (outcome : result WorkerError ()) : bool :=
  match outcome with Ok _ | Err StalePayload => true | Err _ => false end.

Inductive worker_step `{JsonParser, UuidText, SqlCast} (vpc_configured : bool) (s s' : System) : Prop :=
| worker_claim w e db' :
    workers s !! w = None → claim_outbox_event (database s) = Ok (Some e, db') →
    s' = Build_System db' (<[w := Claimed e]> (workers s)) → worker_step vpc_configured s s'
| worker_request w e p i :
    workers s !! w = Some (Claimed e) →
    deliver_check vpc_configured e (database s) = Ok (Request p i) →
    s' = Build_System (database s) (<[w := Calling e p]> (workers s)) → worker_step vpc_configured s s'
| worker_nothing_to_do w e :
    workers s !! w = Some (Claimed e) → deliver_check vpc_configured e (database s) = Ok Done →
    s' = Build_System (database s) (<[w := Finished e (Ok ())]> (workers s)) →
    worker_step vpc_configured s s'
| worker_check_failed w e x :
    workers s !! w = Some (Claimed e) → deliver_check vpc_configured e (database s) = Err x →
    s' = Build_System (database s) (<[w := Finished e (Err x)]> (workers s)) →
    worker_step vpc_configured s s'
| worker_revocation w e p answer :
    workers s !! w = Some (Claimed e) → event_topic e = PRINCIPAL_CONTEXT_REVOKE_ACTION →
    event_payload e = RevocationBody p →
    s' = Build_System (database s)
           (<[w := Finished e (deliver_principal_context_revocation e p (now (database s)) answer)]>
              (workers s)) →
    worker_step vpc_configured s s'
| worker_request_failed w e p x :
    workers s !! w = Some (Calling e p) → x ≠ StalePayload →
    s' = Build_System (database s) (<[w := Finished e (Err x)]> (workers s)) →
    worker_step vpc_configured s s'
| worker_answered w e p r outcome db' :
    workers s !! w = Some (Calling e p) →
    deliver_finish e p r (database s) = (outcome, db') →
    s' = Build_System db' (<[w := Finished e outcome]> (workers s)) → worker_step vpc_configured s s'
| worker_settle w e outcome u db' :
    workers s !! w = Some (Finished e outcome) →
    settle e outcome (database s) = Ok (u, db') →
    s' = Build_System db' (delete w (workers s)) → worker_step vpc_configured s s'
| worker_crash w :
    s' = Build_System (database s) (delete w (workers s)) → worker_step vpc_configured s s'.

(** A step of the system: an abstract transition of the database, the clock, or
    a worker. *)
Inductive sys_step `{JsonParser, UuidText, SqlCast} (vpc_configured : bool) (s s' : System) : Prop :=
| sys_transition db' :
    transition (database s) db' → s' = Build_System db' (workers s) → sys_step vpc_configured s s'
| sys_tick t :
    now (database s) ≤ t → s' = Build_System (set_now t (database s)) (workers s) →
    sys_step vpc_configured s s'
| sys_worker : worker_step vpc_configured s s' → sys_step vpc_configured s s'.

(** No service and no event yet. *)
Definition initial (s : System) : Prop :=
  service_instances (database s) = ∅ ∧ outbox_events (database s) = ∅ ∧ workers s = ∅.

Definition reachable `{JsonParser, UuidText, SqlCast} (vpc_configured : bool) (s : System) : Prop :=
  ∃ s0, initial s0 ∧ rtc (sys_step vpc_configured) s0 s.

(** ** The invariant *)

Definition holds_event (o : gmap Uuid OutboxRow) (e : OutboxEvent) : Prop :=
  ∃ row, o !! event_id e = Some row ∧ topic row = event_topic e ∧
    aggregate_id row = event_aggregate_id e ∧ payload row = event_payload e.

Definition pc_wf (pc : Pc) : Prop :=
  match pc with
  | Calling e p => event_payload e = ReconcileBody p ∧ is_service_topic (event_topic e) = true
  | _ => True
  end.

(** A pending event that asks for the current generation of the service, and
    that no worker is about to mark as delivered. *)
Definition wakeup (o : gmap Uuid OutboxRow) (ws : gmap nat Pc) (id : Uuid) (r : ServiceRow) : Prop :=
  ∃ eid row, o !! eid = Some row ∧ delivered_at row = None ∧
    event_for (desired_topic (state r)) id r row ∧
    ∀ w e outcome, ws !! w = Some (Finished e outcome) → event_id e = eid → settles outcome = false.

Record invariant (s : System) : Prop := {
  inv_workers w pc : workers s !! w = Some pc →
    holds_event (outbox_events (database s)) (pc_event pc) ∧ pc_wf pc;
  inv_owned id r : service_instances (database s) !! id = Some r →
    is_Some (service_quota_owners (database s) !! id);
  inv_event_owned eid row p : outbox_events (database s) !! eid = Some row →
    payload row = ReconcileBody p →
    is_Some (service_quota_owners (database s) !! service_instance_id p);
  inv_generation eid row p r : outbox_events (database s) !! eid = Some row →
    payload row = ReconcileBody p →
    service_instances (database s) !! service_instance_id p = Some r →
    payload_generation p ≤ generation r ∧
    (payload_generation p = generation r →
       (topic row = "service-instance.delete" → state r = Deleting) ∧
       (topic row = "service-instance.reconcile" → state r ≠ Deleting));
  inv_deleting id r : service_instances (database s) !! id = Some r → state r = Deleting →
    status r = Object [];
  inv_wakeup id r : service_instances (database s) !! id = Some r → status r = Object [] →
    wakeup (outbox_events (database s)) (workers s) id r;
}.

(** ** Preservation by transitions of the database *)

Lemma holds_event_insert o eid e0 e :
  o !! eid = None → holds_event o e → holds_event (<[eid := e0]> o) e.
Proof.
  intros Hfree (row & Hrow & ?). exists row. split; [|done].
  rewrite lookup_insert_ne; [done|]. intros ->. congruence.
Qed.

Lemma wakeup_insert o ws eid e0 id r :
  o !! eid = None → wakeup o ws id r → wakeup (<[eid := e0]> o) ws id r.
Proof.
  intros Hfree (eid' & row & Hrow & ?). exists eid', row. split; [|done].
  rewrite lookup_insert_ne; [done|]. intros ->. congruence.
Qed.

(** A new event is a wake-up call: no worker knows it yet. *)
Lemma wakeup_fresh o ws eid e id r :
  o !! eid = None → (∀ w pc, ws !! w = Some pc → holds_event o (pc_event pc)) →
  delivered_at e = None → event_for (desired_topic (state r)) id r e →
  wakeup (<[eid := e]> o) ws id r.
Proof.
  intros Hfree Hws Hd Hfor. exists eid, e. rewrite lookup_insert_eq. split_and!; try done.
  intros w e' outcome Hw <-. destruct (Hws w _ Hw) as (row & Hrow & _). simpl in Hrow. congruence.
Qed.

Lemma event_for_payload_inv t id r e p :
  event_for t id r e → payload e = ReconcileBody p →
  service_instance_id p = id ∧ payload_generation p = generation r ∧ topic e = t ∧
  payload_provider p = provider r.
Proof. intros [Ht _ (p' & Hp & ?)] Hpay. rewrite Hp in Hpay. injection Hpay as <-. tauto. Qed.

Lemma desired_topic_delete s : desired_topic s = "service-instance.delete" → s = Deleting.
Proof. unfold desired_topic. by destruct (bool_decide_reflect (s = Deleting)). Qed.

Lemma desired_topic_reconcile s : desired_topic s = "service-instance.reconcile" → s ≠ Deleting.
Proof. unfold desired_topic. by destruct (bool_decide_reflect (s = Deleting)). Qed.

Lemma desired_topic_quota s : desired_topic s ≠ "service-instance.flash-quota".
Proof. unfold desired_topic. by destruct (bool_decide_reflect (s = Deleting)). Qed.

Lemma invariant_create s db' id r eid e owner :
  invariant s →
  service_instances (database s) !! id = None → service_quota_owners (database s) !! id = None →
  state r = Provisioning → outbox_events (database s) !! eid = None → delivered_at e = None →
  event_for (desired_topic (state r)) id r e →
  service_instances db' = <[id := r]> (service_instances (database s)) →
  outbox_events db' = <[eid := e]> (outbox_events (database s)) →
  service_quota_owners db' = <[id := owner]> (service_quota_owners (database s)) →
  invariant (Build_System db' (workers s)).
Proof.
  intros [Iw Io Ie Ig Id Iu] Hid Hown Hst Hfree Hdel Hfor Es Eo Eq.
  assert (Howner : ∀ id', is_Some (service_quota_owners (database s) !! id') →
    is_Some (service_quota_owners db' !! id')).
  { intros id' ?. rewrite Eq. rewrite lookup_insert_is_Some'. by right. }
  constructor; simpl; rewrite ?Es, ?Eo.
  - intros w pc Hw. destruct (Iw w pc Hw). split; [|done]. by apply holds_event_insert.
  - intros id' r' [[<- <-] | [Hne Hr]]%lookup_insert_Some; [|eauto].
    rewrite Eq, lookup_insert_eq. eauto.
  - intros eid' row p [[<- <-] | [Hne Hrow]]%lookup_insert_Some Hp; [|eauto].
    destruct (event_for_payload_inv _ _ _ _ _ Hfor Hp) as (-> & _).
    rewrite Eq, lookup_insert_eq. eauto.
  - intros eid' row p r' [[<- <-] | [Hne Hrow]]%lookup_insert_Some Hp Hr.
    + destruct (event_for_payload_inv _ _ _ _ _ Hfor Hp) as (Hsid & Hg & Ht & _).
      rewrite Hsid, lookup_insert_eq in Hr. injection Hr as <-. split; [lia|]. intros _. rewrite Ht.
      split; [apply desired_topic_delete | apply desired_topic_reconcile].
    + apply lookup_insert_Some in Hr as [[Heq _] | [_ Hr]]; [|eauto].
      destruct (Ie eid' row p Hrow Hp) as [x Hx]. rewrite <- Heq in Hx. congruence.
  - intros id' r' [[<- <-] | [Hne Hr]]%lookup_insert_Some; [congruence | eauto].
  - intros id' r' [[<- <-] | [Hne Hr]]%lookup_insert_Some Hstatus.
    + apply wakeup_fresh; try done. intros w pc Hw. by destruct (Iw w pc Hw).
    + apply wakeup_insert; eauto.
Qed.

Lemma invariant_change s db' id r r' eid e :
  invariant s → service_instances (database s) !! id = Some r → generation r' = generation r + 1 →
  status r' = Object [] → outbox_events (database s) !! eid = None → delivered_at e = None →
  event_for (desired_topic (state r')) id r' e →
  service_instances db' = <[id := r']> (service_instances (database s)) →
  outbox_events db' = <[eid := e]> (outbox_events (database s)) →
  service_quota_owners db' = service_quota_owners (database s) →
  invariant (Build_System db' (workers s)).
Proof.
  intros [Iw Io Ie Ig Id Iu] Hid Hgen Hst Hfree Hdel Hfor Es Eo Eq.
  constructor; simpl; rewrite ?Es, ?Eo, ?Eq.
  - intros w pc Hw. destruct (Iw w pc Hw). split; [|done]. by apply holds_event_insert.
  - intros id' r0 [[<- <-] | [Hne Hr]]%lookup_insert_Some; eauto.
  - intros eid' row p [[<- <-] | [Hne Hrow]]%lookup_insert_Some Hp; [|eauto].
    destruct (event_for_payload_inv _ _ _ _ _ Hfor Hp) as (-> & _). eauto.
  - intros eid' row p r0 [[<- <-] | [Hne Hrow]]%lookup_insert_Some Hp Hr.
    + destruct (event_for_payload_inv _ _ _ _ _ Hfor Hp) as (Hsid & Hg & Ht & _).
      rewrite Hsid, lookup_insert_eq in Hr. injection Hr as <-. split; [lia|]. intros _. rewrite Ht.
      split; [apply desired_topic_delete | apply desired_topic_reconcile].
    + apply lookup_insert_Some in Hr as [[Heq <-] | [_ Hr]]; [|eauto].
      subst id. destruct (Ig eid' row p r Hrow Hp Hid) as [Hle _]. split; [lia|]. intros. lia.
  - intros id' r0 [[<- <-] | [Hne Hr]]%lookup_insert_Some; [done | eauto].
  - intros id' r0 [[<- <-] | [Hne Hr]]%lookup_insert_Some Hstatus.
    + apply wakeup_fresh; try done. intros w pc Hw. by destruct (Iw w pc Hw).
    + apply wakeup_insert; eauto.
Qed.

(** A report about the current generation, which keeps generation and identity
    of the row; a row being deleted takes none. *)
Lemma invariant_report s db' id r st v ws :
  invariant s → service_instances (database s) !! id = Some r → state r ≠ Deleting →
  st ≠ Deleting → v ≠ Object [] →
  (∀ w pc, ws !! w = Some pc → holds_event (outbox_events (database s)) (pc_event pc) ∧ pc_wf pc) →
  (∀ id' r', id' ≠ id → service_instances (database s) !! id' = Some r' → status r' = Object [] →
     wakeup (outbox_events (database s)) ws id' r') →
  service_instances db' = <[id := set_reported st v r]> (service_instances (database s)) →
  outbox_events db' = outbox_events (database s) →
  service_quota_owners db' = service_quota_owners (database s) →
  invariant (Build_System db' ws).
Proof.
  intros [Iw Io Ie Ig Id Iu] Hid Hnd Hst Hv Hws Hwake Es Eo Eq.
  constructor; simpl; rewrite ?Es, ?Eo, ?Eq; try done.
  - intros id' r0 [[<- <-] | [Hne Hr]]%lookup_insert_Some; eauto.
  - intros eid' row p r0 Hrow Hp [[Heq <-] | [_ Hr]]%lookup_insert_Some; [|eauto].
    rewrite Heq in Hid. destruct (Ig eid' row p r Hrow Hp Hid) as [Hle Hstate]. simpl.
    split; [done|]. intros Hg. split; [|done]. intros Ht. by destruct Hnd; apply Hstate.
  - intros id' r0 [[<- <-] | [Hne Hr]]%lookup_insert_Some; [done | eauto].
  - intros id' r0 [[<- <-] | [Hne Hr]]%lookup_insert_Some Hstatus; [done | eauto].
Qed.

Lemma invariant_event s db' eid e :
  invariant s → outbox_events (database s) !! eid = None →
  side_event (service_instances (database s)) e →
  service_instances db' = service_instances (database s) →
  outbox_events db' = <[eid := e]> (outbox_events (database s)) →
  service_quota_owners db' = service_quota_owners (database s) →
  invariant (Build_System db' (workers s)).
Proof.
  intros [Iw Io Ie Ig Id Iu] Hfree [Htopic (p0 & r0 & Hp0 & Hr0 & _ & Hnd & Hg0)] Es Eo Eq.
  constructor; simpl; rewrite ?Es, ?Eo, ?Eq; try done.
  - intros w pc Hw. destruct (Iw w pc Hw). split; [|done]. by apply holds_event_insert.
  - intros eid' row p [[<- <-] | [Hne Hrow]]%lookup_insert_Some Hp; [|eauto].
    rewrite Hp0 in Hp. injection Hp as <-. eauto.
  - intros eid' row p r [[<- <-] | [Hne Hrow]]%lookup_insert_Some Hp Hr; [|eauto].
    rewrite Hp0 in Hp. injection Hp as <-. rewrite Hr0 in Hr. injection Hr as <-.
    split; [lia|]. intros _. split; [|done]. intros Ht. rewrite Ht in Htopic. by destruct Htopic.
  - intros id r Hr Hstatus. apply wakeup_insert; eauto.
Qed.

Lemma invariant_revocation s db' eid e p :
  invariant s → outbox_events (database s) !! eid = None → payload e = RevocationBody p →
  service_instances db' = service_instances (database s) →
  outbox_events db' = <[eid := e]> (outbox_events (database s)) →
  service_quota_owners db' = service_quota_owners (database s) →
  invariant (Build_System db' (workers s)).
Proof.
  intros [Iw Io Ie Ig Id Iu] Hfree Hpay Es Eo Eq.
  constructor; simpl; rewrite ?Es, ?Eo, ?Eq; try done.
  - intros w pc Hw. destruct (Iw w pc Hw). split; [|done]. by apply holds_event_insert.
  - intros eid' row q [[<- <-] | [Hne Hrow]]%lookup_insert_Some Hq; [congruence | eauto].
  - intros eid' row q r [[<- <-] | [Hne Hrow]]%lookup_insert_Some Hq Hr; [congruence | eauto].
  - intros id r Hr Hstatus. apply wakeup_insert; eauto.
Qed.

(** The row of a service is charged to a member: the events about it stay its
    events. *)
Lemma event_for_quota_user t id user r e :
  event_for t id r e → event_for t id (set_quota_user user r) e.
Proof. by intros [? ? (p & ?)]; constructor; [..|exists p]. Qed.

Lemma invariant_assign s db' id r user f :
  invariant s → service_instances (database s) !! id = Some r →
  service_instances db' = <[id := set_quota_user user r]> (service_instances (database s)) →
  outbox_events db' = outbox_events (database s) →
  service_quota_owners db' = alter f id (service_quota_owners (database s)) →
  invariant (Build_System db' (workers s)).
Proof.
  intros [Iw Io Ie Ig Id Iu] Hid Es Eo Eq.
  assert (Howner : ∀ id', is_Some (service_quota_owners (database s) !! id') →
    is_Some (service_quota_owners db' !! id')).
  { intros id' ?. rewrite Eq. by rewrite lookup_alter_is_Some. }
  constructor; simpl; rewrite ?Es, ?Eo; try done.
  - intros id' r0 [[<- <-] | [Hne Hr]]%lookup_insert_Some; eauto.
  - eauto.
  - intros eid row p r0 Hrow Hp [[Heq <-] | [_ Hr]]%lookup_insert_Some; [|eauto].
    rewrite Heq in Hid. by apply (Ig eid row p r).
  - intros id' r0 [[<- <-] | [Hne Hr]]%lookup_insert_Some; [exact (Id id r Hid) | eauto].
  - intros id' r0 [[<- <-] | [Hne Hr]]%lookup_insert_Some Hstatus; [|eauto].
    destruct (Iu id r Hid Hstatus) as (eid & row & Hrow & Hd & Hfor & Hns).
    exists eid, row. split_and!; try done. by apply event_for_quota_user.
Qed.

Lemma invariant_transition s db' :
  invariant s → transition (database s) db' → invariant (Build_System db' (workers s)).
Proof.
  intros Hinv Ht. destruct Ht.
  - destruct Hinv. constructor; simpl; rewrite ?H, ?H0, ?H1; eauto.
  - eapply invariant_create; eauto.
  - eapply invariant_change; eauto.
  - destruct Hinv eqn:E. clear E. eapply invariant_report; eauto.
  - eapply invariant_assign; eauto.
  - destruct Hinv. constructor; simpl; rewrite ?H0, ?H1, ?H2; eauto.
  - eapply invariant_event; eauto.
  - eapply invariant_revocation; eauto.
Qed.

(** ** Preservation by workers *)

(** Changes of an outbox row that keep what the event says. *)
Definition keeps_core (f : OutboxRow → OutboxRow) : Prop :=
  ∀ row, topic (f row) = topic row ∧ aggregate_id (f row) = aggregate_id row ∧
    payload (f row) = payload row.

Lemma lookup_alter_cases {A} (f : A → A) (id eid : Uuid) (m : gmap Uuid A) x :
  alter f id m !! eid = Some x ↔
  ∃ y, m !! eid = Some y ∧ x = if bool_decide (eid = id) then f y else y.
Proof.
  destruct (bool_decide_reflect (eid = id)) as [->|Hne].
  - rewrite lookup_alter_eq. destruct (m !! id); simpl; naive_solver.
  - rewrite lookup_alter_ne by congruence. naive_solver.
Qed.

Lemma holds_event_alter o f id e : keeps_core f → holds_event o e → holds_event (alter f id o) e.
Proof.
  intros Hf (row & Hrow & Ht & Ha & Hp). destruct (Hf row) as (Ft & Fa & Fp).
  eexists. split; [apply lookup_alter_cases; eauto|].
  destruct (bool_decide _); [split_and!; congruence | done].
Qed.

Lemma event_for_core f t id r row : keeps_core f → event_for t id r row → event_for t id r (f row).
Proof.
  intros Hf [Ht Ha (p & Hp & ?)]. destruct (Hf row) as (Ft & Fa & Fp).
  constructor; [congruence | congruence |]. exists p. split; [congruence | done].
Qed.

Lemma event_for_core_inv f t id r row : keeps_core f → event_for t id r (f row) → event_for t id r row.
Proof.
  intros Hf [Ht Ha (p & Hp & ?)]. destruct (Hf row) as (Ft & Fa & Fp).
  constructor; [congruence | congruence |]. exists p. split; [congruence | done].
Qed.

Definition not_settled (ws : gmap nat Pc) (eid : Uuid) : Prop :=
  ∀ w e outcome, ws !! w = Some (Finished e outcome) → event_id e = eid → settles outcome = false.

Lemma invariant_outbox s db' ws f id :
  invariant s → keeps_core f →
  outbox_events db' = alter f id (outbox_events (database s)) →
  service_instances db' = service_instances (database s) →
  service_quota_owners db' = service_quota_owners (database s) →
  (∀ w pc, ws !! w = Some pc → holds_event (outbox_events (database s)) (pc_event pc) ∧ pc_wf pc) →
  (∀ eid row, outbox_events (database s) !! eid = Some row → delivered_at row = None →
     not_settled (workers s) eid → (eid = id → delivered_at (f row) = None) ∧ not_settled ws eid) →
  invariant (Build_System db' ws).
Proof.
  intros [Iw Io Ie Ig Id Iu] Hf Eo Es Eq Hws Hkeep.
  constructor; simpl; rewrite ?Es, ?Eo, ?Eq; try done.
  - intros w pc Hw. destruct (Hws w pc Hw). split; [|done]. by apply holds_event_alter.
  - intros eid row p (y & Hy & ->)%lookup_alter_cases Hp.
    apply (Ie eid y); [done|]. destruct (Hf y) as (_ & _ & Fp). by case_bool_decide; congruence.
  - intros eid row p r (y & Hy & ->)%lookup_alter_cases Hp Hr.
    destruct (Hf y) as (Ft & _ & Fp).
    assert (Hpy : payload y = ReconcileBody p) by (case_bool_decide; congruence).
    destruct (Ig eid y p r Hy Hpy Hr) as [Hle Hst]. split; [done|]. intros Hg.
    case_bool_decide; [rewrite Ft|]; by apply Hst.
  - intros id' r Hr Hstatus. destruct (Iu id' r Hr Hstatus) as (eid & row & Hrow & Hd & Hfor & Hns).
    destruct (Hkeep eid row Hrow Hd Hns) as [Hdel Hns'].
    eexists eid, _. split; [apply lookup_alter_cases; eauto|]. case_bool_decide; split_and!; auto.
    by apply event_for_core.
Qed.

(** A worker that finishes without changing the database: an event it will mark
    as delivered is not what a service is waiting for. *)
Lemma invariant_finished s w pc e outcome :
  invariant s → workers s !! w = Some pc → pc_event pc = e →
  (settles outcome = true → ∀ id r row, service_instances (database s) !! id = Some r →
     outbox_events (database s) !! event_id e = Some row →
     ¬ event_for (desired_topic (state r)) id r row) →
  invariant (Build_System (database s) (<[w := Finished e outcome]> (workers s))).
Proof.
  intros [Iw Io Ie Ig Id Iu] Hw He Hnot. constructor; simpl; try done.
  - intros w' pc' [[<- <-] | [Hne Hw']]%lookup_insert_Some; [|eauto].
    destruct (Iw w pc Hw) as [Hh _]. by rewrite He in Hh.
  - intros id r Hr Hstatus. destruct (Iu id r Hr Hstatus) as (eid & row & Hrow & Hd & Hfor & Hns).
    exists eid, row. split_and!; try done.
    intros w' e' o' [[<- [= <- <-]] | [Hne Hw']]%lookup_insert_Some Heid; [|eauto].
    destruct (settles outcome) eqn:E; [|done]. subst eid. exfalso. by apply (Hnot eq_refl id r row).
Qed.

Lemma invariant_pc s w pc pc' :
  invariant s → workers s !! w = Some pc → pc_event pc' = pc_event pc → pc_wf pc' →
  (∀ e o, pc' ≠ Finished e o) →
  invariant (Build_System (database s) (<[w := pc']> (workers s))).
Proof.
  intros [Iw Io Ie Ig Id Iu] Hw He Hwf Hnf. constructor; simpl; try done.
  - intros w' pc0 [[<- <-] | [Hne Hw']]%lookup_insert_Some; [|eauto].
    destruct (Iw w pc Hw) as [Hh _]. by rewrite He.
  - intros id r Hr Hstatus. destruct (Iu id r Hr Hstatus) as (eid & row & Hrow & Hd & Hfor & Hns).
    exists eid, row. split_and!; try done.
    intros w' e' o' [[<- Hpc] | [Hne Hw']]%lookup_insert_Some Heid; [by destruct (Hnf e' o')|eauto].
Qed.

Lemma invariant_delete_worker s w :
  invariant s → invariant (Build_System (database s) (delete w (workers s))).
Proof.
  intros [Iw Io Ie Ig Id Iu]. constructor; simpl; try done.
  - intros w' pc [_ Hw']%lookup_delete_Some. eauto.
  - intros id r Hr Hstatus. destruct (Iu id r Hr Hstatus) as (eid & row & Hrow & Hd & Hfor & Hns).
    exists eid, row. split_and!; try done. intros w' e o [_ Hw']%lookup_delete_Some. eauto.
Qed.

(** *** Claiming and settling *)

Lemma earliest_elem l x : earliest l = Some x → x ∈ l.
Proof.
  revert x. induction l as [|y l IH]; intros x; simpl; [done|].
  destruct (earliest l) as [z|]; intros [= <-]; [|by left].
  destruct (earlier z y); [right; by apply IH | by left].
Qed.

Lemma claim_ok db e db' :
  claim_outbox_event db = Ok (Some e, db') →
  ∃ row, outbox_events db !! event_id e = Some row ∧ claimable (now db) row = true ∧
    event_topic e = topic row ∧ event_aggregate_id e = aggregate_id row ∧
    event_payload e = payload row ∧ event_attempts e = attempts row + 1 ∧
    db' = update_event (event_id e)
            (set_lock (Some (now db)) (attempts row + 1) (available_at row) (delivered_at row)) db.
Proof.
  unfold claim_outbox_event. destruct (earliest _) as [[id row]|] eqn:E; [|done].
  intros [= <- <-]. apply earliest_elem in E. rewrite list_elem_of_filter, elem_of_map_to_list in E.
  simpl in *. exists row. tauto.
Qed.

Lemma claimable_later t row :
  delivered_at row = None → available_at row ≤ t →
  (∀ l, locked_at row = Some l → l + LOCK_SECONDS < t) → claimable t row = true.
Proof.
  intros Hd Ht Hl. unfold claimable. rewrite Hd. simpl. apply andb_true_iff. split; [lia|].
  destruct (locked_at row) as [l|]; [|done]. specialize (Hl l eq_refl). lia.
Qed.

Lemma set_lock_core l t a d : keeps_core (set_lock l t a d).
Proof. done. Qed.

Lemma invariant_claim s w e db' :
  invariant s → workers s !! w = None → claim_outbox_event (database s) = Ok (Some e, db') →
  invariant (Build_System db' (<[w := Claimed e]> (workers s))).
Proof.
  intros Hinv Hw (row & Hrow & Hcl & Ht & Ha & Hp & _ & ->)%claim_ok.
  eapply invariant_outbox; [exact Hinv | apply set_lock_core | reflexivity.. | |].
  - intros w' pc [[<- <-] | [Hne Hw']]%lookup_insert_Some; [|by eapply inv_workers].
    split; [|done]. by exists row.
  - intros eid row' Hrow' Hd Hns. split.
    + intros ->. simpl. congruence.
    + intros w' e' o [[_ [=]] | [Hne Hw']]%lookup_insert_Some. by apply (Hns w').
Qed.

Lemma invariant_settle s w e outcome u db' :
  invariant s → workers s !! w = Some (Finished e outcome) →
  settle e outcome (database s) = Ok (u, db') →
  invariant (Build_System db' (delete w (workers s))).
Proof.
  intros Hinv Hw Hset.
  assert (Hws : ∀ w' pc, delete w (workers s) !! w' = Some pc →
    holds_event (outbox_events (database s)) (pc_event pc) ∧ pc_wf pc)
    by (intros w' pc [_ Hw']%lookup_delete_Some; by eapply inv_workers).
  assert (Hns : ∀ eid, not_settled (workers s) eid → not_settled (delete w (workers s)) eid)
    by (intros eid Hn w' e' o [_ Hw']%lookup_delete_Some; by apply (Hn w')).
  destruct (settles outcome) eqn:Eo.
  - assert (db' = update_event (event_id e)
      (λ row, set_lock None (attempts row) (available_at row) (Some (now (database s))) row)
      (database s)) as ->.
    { destruct outcome as [[]|[]]; try done; by injection Hset. }
    eapply invariant_outbox; [exact Hinv | | reflexivity.. | exact Hws |]; [done|].
    intros eid row Hrow Hd Hn. split; [|by apply Hns]. intros ->.
    by rewrite (Hn w e outcome Hw eq_refl) in Eo.
  - assert (db' = update_event (event_id e) (λ row, if is_some (delivered_at row) then row
      else set_lock None (attempts row) (now (database s) + retry_delay (event_attempts e)) None row)
      (database s)) as ->.
    { destruct outcome as [[]|[]]; try done; by injection Hset. }
    eapply invariant_outbox; [exact Hinv | | reflexivity.. | exact Hws |].
    + intros row. by destruct (is_some (delivered_at row)).
    + intros eid row Hrow Hd Hn. split; [|by apply Hns]. intros _. rewrite Hd. done.
Qed.

(** *** Checking *)

(** The event a service waits for matches it. *)
Lemma event_for_matches o e p id r row :
  holds_event o e → event_payload e = ReconcileBody p → o !! event_id e = Some row →
  event_for (desired_topic (state r)) id r row →
  id = service_instance_id p ∧ event_topic e = desired_topic (state r) ∧
  service_instance_matches_payload (Build_ServiceInstance id r) p = true.
Proof.
  intros (row' & Hrow' & Ht & _ & Hpay) Hp Hrow [Et _ (p' & Hp' & Hid & Ho & Hpr & Hprov & Hg)].
  simplify_eq. rewrite Hp' in Hpay. rewrite Hp in Hpay. injection Hpay as <-.
  split_and!; [done | congruence |]. unfold service_instance_matches_payload. simpl.
  rewrite !andb_true_iff, Z.eqb_eq, !bool_decide_true_iff, String.eqb_eq. done.
Qed.

Lemma deliver_check_inv vpc e db c :
  deliver_check vpc e db = c → c = Ok Done ∨ c = Err StalePayload ∨ (∃ p i, c = Ok (Request p i)) →
  is_service_topic (event_topic e) = true ∧ ∃ p, event_payload e = ReconcileBody p ∧
  match service_instances db !! service_instance_id p with
  | None => c = Ok Done
  | Some r =>
      if service_instance_matches_payload (Build_ServiceInstance (service_instance_id p) r) p
      then c = Ok (Request p (Build_ServiceInstance (service_instance_id p) r))
      else c = Err StalePayload
  end.
Proof.
  unfold deliver_check. intros <- Hc.
  destruct (is_service_topic (event_topic e)); [|naive_solver]. simpl in *. split; [done|].
  destruct (event_payload e) as [p| |]; [|naive_solver..]. simpl in *. exists p. split; [done|].
  destruct (bool_decide _); [|naive_solver]. simpl in *.
  destruct (String.eqb (event_topic e) "service-instance.flash-quota" && _); [naive_solver|]. simpl in *.
  destruct (has_target vpc (payload_provider p)) as [[]|x] eqn:Ex; simpl in *.
  - destruct (service_instances db !! service_instance_id p) as [r|].
    + destruct (service_instance_matches_payload _ p); done.
    + destruct (String.eqb _ _); [done | naive_solver].
  - assert (x ≠ StalePayload).
    { intros ->. unfold has_target in Ex. repeat case_match; try done. by destruct vpc. }
    naive_solver.
Qed.

Lemma invariant_checked s w vpc e outcome :
  invariant s → workers s !! w = Some (Claimed e) →
  (deliver_check vpc e (database s) = Ok Done ∧ outcome = Ok ()) ∨
  (∃ x, deliver_check vpc e (database s) = Err x ∧ outcome = Err x) →
  invariant (Build_System (database s) (<[w := Finished e outcome]> (workers s))).
Proof.
  intros Hinv Hw Hout. eapply invariant_finished; [done | exact Hw | done |].
  intros Hset id r row Hr Hrow Hfor.
  destruct (inv_workers _ Hinv w _ Hw) as [Hholds _]. simpl in Hholds.
  assert (Hc : ∃ c, deliver_check vpc e (database s) = c ∧ (c = Ok Done ∨ c = Err StalePayload)).
  { destruct Hout as [[Hc _] | (x & Hc & ->)]; [eauto|]. exists (Err x). split; [done|].
    right. by destruct x. }
  destruct Hc as (c & Hc & Hcases).
  destruct (deliver_check_inv _ _ _ _ Hc) as (_ & p & Hp & Hm); [tauto|].
  destruct (event_for_matches _ _ _ _ _ _ Hholds Hp Hrow Hfor) as (-> & _ & Hmatch).
  rewrite Hr, Hmatch in Hm. destruct Hcases; congruence.
Qed.

(** *** Recording the answer *)

Inductive recorded (e : OutboxEvent) (p : ReconcilePayload) (db : Db) :
    result WorkerError () → Db → Prop :=
| recorded_failed x : x ≠ StalePayload → recorded e p db (Err x) db
| recorded_quota : event_topic e = "service-instance.flash-quota" → recorded e p db (Ok ()) db
| recorded_deleted r :
    event_topic e = "service-instance.delete" →
    report_row (service_instance_id p) (payload_provider p) (payload_generation p) db = Some r →
    state r = Deleting → recorded e p db (Ok ()) (cascade_delete (service_instance_id p) db)
| recorded_not_deleted :
    event_topic e = "service-instance.delete" →
    (∀ r, report_row (service_instance_id p) (payload_provider p) (payload_generation p) db = Some r →
       state r ≠ Deleting) →
    recorded e p db (Err StalePayload) db
| recorded_report r st v db' :
    event_topic e = "service-instance.reconcile" →
    report_row (service_instance_id p) (payload_provider p) (payload_generation p) db = Some r →
    st = Ready ∨ st = Error → v ≠ Object [] →
    flash_frame (set_services (<[service_instance_id p := set_reported st v r]> (service_instances db)) db) db' →
    recorded e p db (Ok ()) db'
| recorded_stale :
    event_topic e = "service-instance.reconcile" →
    report_row (service_instance_id p) (payload_provider p) (payload_generation p) db = None →
    recorded e p db (Err StalePayload) db.

Lemma mark_recorded `{UuidText, SqlCast} e p db st op v :
  event_topic e = "service-instance.reconcile" → st = Ready ∨ st = Error →
  let '(outcome, db') :=
    require_current (run_store (mark_service_instance st (service_instance_id p) (payload_provider p)
      (payload_generation p) op v) db) in
  recorded e p db outcome db'.
Proof.
  intros Ht Hst. unfold mark_service_instance, run_store, require_current, mbind, tx_bind, query.
  destruct (report_row _ _ _ db) as [r|] eqn:Hr; [|by apply recorded_stale].
  destruct (put_service _ _ db) as [[u db']|x] eqn:Hp; [|by apply recorded_failed].
  apply put_service_ok in Hp. eapply recorded_report; [done | exact Hr | exact Hst | | exact Hp]. done.
Qed.

Lemma delete_recorded e p db :
  event_topic e = "service-instance.delete" →
  let '(outcome, db') :=
    require_current (run_store (complete_delete_service_instance (service_instance_id p)
      (payload_provider p) (payload_generation p)) db) in
  recorded e p db outcome db'.
Proof.
  intros Ht. unfold complete_delete_service_instance, run_store, require_current.
  destruct (report_row _ _ _ db) as [r|] eqn:Hr.
  - destruct (bool_decide_reflect (state r = Deleting)).
    + by eapply recorded_deleted.
    + apply recorded_not_deleted; [done|]. intros r' Hr'. by simplify_eq.
  - apply recorded_not_deleted; [done|]. intros r' Hr'. congruence.
Qed.

Lemma service_topic_cases t :
  is_service_topic t = true → t = "service-instance.reconcile" ∨ t = "service-instance.delete" ∨
    t = "service-instance.flash-quota".
Proof.
  unfold is_service_topic. rewrite bool_decide_true_iff, !elem_of_cons. intros Hin.
  destruct_or? Hin; auto. by apply not_elem_of_nil in Hin.
Qed.

Ltac failed := match goal with Hf : (Err _, _) = (_, _) |- _ =>
  injection Hf as <- <-; by apply recorded_failed end.

Lemma deliver_finish_recorded `{JsonParser, UuidText, SqlCast} e p r db outcome db' :
  is_service_topic (event_topic e) = true →
  deliver_finish e p r db = (outcome, db') → recorded e p db outcome db'.
Proof.
  intros Htop Hf. unfold deliver_finish in Hf.
  apply service_topic_cases in Htop as [Ht | [Ht | Ht]]; rewrite Ht in Hf; simpl in Hf.
  - destruct (is_success (status_code r)); simpl in Hf.
    + destruct (accepted_operation r) as [o|]; [|failed].
      destruct (provider_reconcile_failed (operation_status o)).
      * pose proof (mark_recorded e p db Error (operation_id o) (operation_status o) Ht) as Hrec.
        unfold mark_service_instance_error in Hf. rewrite Hf in Hrec. by apply Hrec; right.
      * pose proof (mark_recorded e p db Ready (operation_id o) (operation_status o) Ht) as Hrec.
        unfold mark_service_instance_ready in Hf. rewrite Hf in Hrec. by apply Hrec; left.
    + destruct (permanent_reconcile_rejection (status_code r)); [|failed].
      epose proof (mark_recorded e p db Error _ _ Ht) as Hrec.
      unfold mark_service_instance_error in Hf. rewrite Hf in Hrec. by apply Hrec; right.
  - pose proof (delete_recorded e p db Ht) as Hrec.
    destruct (is_success (status_code r)); simpl in Hf.
    + destruct (negb _ && negb _); [failed|]. by rewrite Hf in Hrec.
    + destruct (provider_delete_already_absent _ r); simpl in Hf; [|failed].
      by rewrite Hf in Hrec.
  - destruct (is_success (status_code r)); simpl in Hf; [|failed].
    destruct (accepted_operation r); [|failed]. injection Hf as <- <-. by apply recorded_quota.
Qed.

(** The row of a service is removed. *)
Lemma invariant_removed s ws id :
  invariant s →
  (∀ w pc, ws !! w = Some pc → holds_event (outbox_events (database s)) (pc_event pc) ∧ pc_wf pc) →
  (∀ id' r', id' ≠ id → service_instances (database s) !! id' = Some r' → status r' = Object [] →
     wakeup (outbox_events (database s)) ws id' r') →
  invariant (Build_System (cascade_delete id (database s)) ws).
Proof.
  intros [Iw Io Ie Ig Id Iu] Hws Hwake. constructor; simpl; try done.
  - intros id' r [_ Hr]%lookup_delete_Some. eauto.
  - intros eid row p r Hrow Hp [_ Hr]%lookup_delete_Some. eauto.
  - intros id' r [_ Hr]%lookup_delete_Some. eauto.
  - intros id' r [Hne Hr]%lookup_delete_Some. by apply Hwake.
Qed.

Lemma invariant_answered s w e p outcome db' :
  invariant s → workers s !! w = Some (Calling e p) →
  recorded e p (database s) outcome db' →
  invariant (Build_System db' (<[w := Finished e outcome]> (workers s))).
Proof.
  intros Hinv Hw Hrec. destruct (inv_workers _ Hinv w _ Hw) as [Hholds [Hpay _]]. simpl in Hholds.
  assert (Hws : ∀ o w' pc, <[w := Finished e o]> (workers s) !! w' = Some pc →
    holds_event (outbox_events (database s)) (pc_event pc) ∧ pc_wf pc).
  { intros o w' pc [[<- <-] | [_ Hw']]%lookup_insert_Some; [done | by eapply inv_workers]. }
  assert (Hother : ∀ o id r, id ≠ service_instance_id p →
    service_instances (database s) !! id = Some r → status r = Object [] →
    wakeup (outbox_events (database s)) (<[w := Finished e o]> (workers s)) id r).
  { intros o id r Hne Hr Hst.
    destruct (inv_wakeup _ Hinv id r Hr Hst) as (eid & row & Hrow & Hd & Hfor & Hns).
    exists eid, row. split_and!; try done.
    intros w' e' o' [[<- [= <- <-]] | [_ Hw']]%lookup_insert_Some Heid; [|eauto].
    subst eid. destruct (event_for_matches _ _ _ _ _ _ Hholds Hpay Hrow Hfor) as (-> & _). done. }
  assert (Hmatch : ∀ id r row, service_instances (database s) !! id = Some r →
    outbox_events (database s) !! event_id e = Some row →
    event_for (desired_topic (state r)) id r row →
    report_row (service_instance_id p) (payload_provider p) (payload_generation p) (database s) = Some r
    ∧ event_topic e = desired_topic (state r)).
  { intros id r row Hr Hrow Hfor.
    destruct (event_for_matches _ _ _ _ _ _ Hholds Hpay Hrow Hfor) as (-> & Ht & Hm).
    split; [|done]. apply report_row_some. unfold service_instance_matches_payload in Hm. simpl in Hm.
    rewrite !andb_true_iff, Z.eqb_eq, String.eqb_eq in Hm. tauto. }
  destruct Hrec as [x Hx | Ht | r Ht Hr Hd | Ht Hno | r st v db' Ht Hr Hst Hv Hf | Ht Hno].
  - eapply invariant_finished; [done | exact Hw | done |]. simpl. by destruct x.
  - eapply invariant_finished; [done | exact Hw | done |]. intros _ id r row Hr Hrow Hfor.
    destruct (Hmatch id r row Hr Hrow Hfor) as [_ Ht']. rewrite Ht in Ht'. symmetry in Ht'.
    by apply desired_topic_quota in Ht'.
  - apply invariant_removed; eauto.
  - eapply invariant_finished; [done | exact Hw | done |]. intros _ id r row Hr Hrow Hfor.
    destruct (Hmatch id r row Hr Hrow Hfor) as [Hrep Ht']. apply (Hno r Hrep).
    apply desired_topic_delete. congruence.
  - apply report_row_some in Hr as (Hr & Hg & _).
    destruct Hholds as (row & Hrow & Hrt & _ & Hrp).
    rewrite Hpay in Hrp. destruct (inv_generation _ Hinv _ row p r Hrow Hrp Hr) as [_ Hs].
    assert (Hnd : state r ≠ Deleting) by (apply Hs; [lia | congruence]).
    apply flash_frame_agrees in Hf as [].
    eapply (invariant_report s _ (service_instance_id p) r st v); [done | done | done | by destruct Hst as [-> | ->]
      | done | apply Hws | apply Hother | done | done | done].
  - eapply invariant_finished; [done | exact Hw | done |]. intros _ id r row Hr Hrow Hfor.
    destruct (Hmatch id r row Hr Hrow Hfor) as [Hrep _]. congruence.
Qed.

Lemma revocation_not_awaited t s : t = PRINCIPAL_CONTEXT_REVOKE_ACTION → t ≠ desired_topic s.
Proof. intros ->. unfold desired_topic. by case_bool_decide. Qed.

Section Invariant.
Context `{JsonParser, UuidText, SqlCast} (vpc_configured : bool).

Lemma invariant_worker s s' : invariant s → worker_step vpc_configured s s' → invariant s'.
Proof.
  intros Hinv Hstep. destruct Hstep; subst s'.
  - by eapply invariant_claim.
  - match goal with Hc : deliver_check _ _ _ = Ok (Request _ _) |- _ =>
      destruct (deliver_check_inv _ _ _ _ Hc) as (Ht & p' & Hp' & Hm); [eauto|] end.
    eapply invariant_pc; [done | eassumption | done | | done]. simpl. split; [|done].
    destruct (service_instances _ !! _); [destruct (service_instance_matches_payload _ _)|]; simplify_eq; done.
  - eapply invariant_checked; eauto.
  - eapply invariant_checked; eauto.
  - eapply invariant_finished; [done | eassumption | done |]. intros _ id r row Hr Hrow [Ht _ _].
    match goal with Hw : workers s !! _ = Some _ |- _ =>
      destruct (inv_workers _ Hinv _ _ Hw) as [(row' & Hrow' & Ht' & _) _] end.
    simpl in *. simplify_eq. eapply revocation_not_awaited; [|exact Ht]. congruence.
  - eapply invariant_finished; [done | eassumption | done |]. simpl. by destruct x.
  - match goal with Hw : workers s !! _ = Some _ |- _ =>
      destruct (inv_workers _ Hinv _ _ Hw) as [_ [_ Htop]] end.
    eapply invariant_answered; [done | eassumption |]. by eapply deliver_finish_recorded.
  - by eapply invariant_settle.
  - by apply invariant_delete_worker.
Qed.

Lemma invariant_step s s' : invariant s → sys_step vpc_configured s s' → invariant s'.
Proof.
  intros Hinv [db' Ht -> | t _ -> | Hw].
  - by apply invariant_transition.
  - destruct Hinv. by constructor.
  - by eapply invariant_worker.
Qed.

Lemma invariant_initial s : initial s → invariant s.
Proof.
  intros (Es & Eo & Ew). constructor; rewrite ?Es, ?Eo, ?Ew; set_solver.
Qed.

Lemma invariant_reachable s : reachable vpc_configured s → invariant s.
Proof.
  intros (s0 & Hinit & Hsteps). apply invariant_initial in Hinit.
  induction Hsteps; [done|]. eauto using invariant_step.
Qed.

End Invariant.

(** ** The life of one service *)

Definition row_of (s : System) (id : ServiceInstanceId) : option ServiceRow :=
  service_instances (database s) !! id.

(** How one step of the system may change the row of a service. *)
Inductive row_step : bool → option ServiceRow → option ServiceRow → Prop :=
| row_same known o : row_step known o o
| row_created r : generation r = 1 → state r = Provisioning → row_step false None (Some r)
| row_changed known r r' :
    state r ≠ Deleting → organization_id r' = organization_id r → provider r' = provider r →
    quota_user_id r' = quota_user_id r →
    generation r' = generation r + 1 → row_step known (Some r) (Some r')
| row_reported known r st v :
    state r ≠ Deleting → st ≠ Deleting → row_step known (Some r) (Some (set_reported st v r))
| row_assigned known r user :
    state r ≠ Deleting → quota_user_id r = None → row_step known (Some r) (Some (set_quota_user user r))
| row_removed known r : state r = Deleting → row_step known (Some r) None.

Definition known (s : System) (id : ServiceInstanceId) : bool :=
  is_some (service_quota_owners (database s) !! id).

Lemma insert_row_step (m : gmap Uuid ServiceRow) id' id (r : ServiceRow) b :
  (id' = id → row_step b (m !! id) (Some r)) → row_step b (m !! id) (<[id' := r]> m !! id).
Proof.
  intros Hstep. destruct (decide (id' = id)) as [->|Hne].
  - rewrite lookup_insert_eq. by apply Hstep.
  - rewrite lookup_insert_ne by done. constructor.
Qed.

Lemma transition_row db db' id :
  transition db db' →
  row_step (is_some (service_quota_owners db !! id)) (service_instances db !! id)
    (service_instances db' !! id) ∧
  (is_some (service_quota_owners db !! id) = true → is_some (service_quota_owners db' !! id) = true).
Proof.
  intros []; match goal with Es : service_instances db' = _ |- _ => rewrite Es end;
    match goal with Eq : service_quota_owners db' = _ |- _ => rewrite Eq end;
    (split; [|try done]); try apply row_same; try (apply insert_row_step; intros <-).
  - replace (service_instances db !! id0) with (@None ServiceRow) by done.
    replace (service_quota_owners db !! id0) with (@None (OrganizationId * option UserId)) by done.
    by apply row_created.
  - intros Hk. destruct (decide (id0 = id)) as [->|Hne]; [by rewrite lookup_insert_eq|].
    by rewrite lookup_insert_ne.
  - match goal with Hr : _ !! id0 = Some _ |- _ => rewrite Hr end. by eapply row_changed.
  - match goal with Hr : _ !! id0 = Some _ |- _ => rewrite Hr end. by eapply row_reported.
  - match goal with Hr : _ !! id0 = Some _ |- _ => rewrite Hr end. by eapply row_assigned.
  - intros Hk. destruct (decide (id0 = id)) as [->|Hne]; [|by rewrite lookup_alter_ne].
    rewrite lookup_alter_eq. by destruct (service_quota_owners db !! id).
Qed.

(** A report to the current generation never reaches a service that is being
    deleted. *)
Lemma reported_row_live s w e p r :
  invariant s → workers s !! w = Some (Calling e p) → event_topic e = "service-instance.reconcile" →
  report_row (service_instance_id p) (payload_provider p) (payload_generation p) (database s) = Some r →
  state r ≠ Deleting.
Proof.
  intros Hinv Hw Ht (Hr & Hg & _)%report_row_some.
  destruct (inv_workers _ Hinv w _ Hw) as [(row & Hrow & Hrt & _ & Hrp) [Hpay _]]. simpl in *.
  rewrite Hpay in Hrp. destruct (inv_generation _ Hinv _ row p r Hrow Hrp Hr) as [_ Hs].
  apply Hs; [lia | congruence].
Qed.

Lemma recorded_row s w e p outcome db' id :
  invariant s → workers s !! w = Some (Calling e p) → recorded e p (database s) outcome db' →
  row_step (known s id) (row_of s id) (service_instances db' !! id) ∧
  service_quota_owners db' = service_quota_owners (database s).
Proof.
  intros Hinv Hw Hrec. unfold row_of.
  destruct Hrec as [x Hx | Ht | r Ht Hr Hd | Ht Hno | r st v db' Ht Hr Hst Hv Hf | Ht Hno];
    try (apply flash_frame_agrees in Hf as [Es Eo Eq _]); (split; [|done]); try apply row_same; simpl.
  - apply report_row_some in Hr as (Hr & _). destruct (decide (service_instance_id p = id)) as [<-|Hne].
    + rewrite Hr, lookup_delete_eq. by apply row_removed.
    + rewrite lookup_delete_ne by done. apply row_same.
  - rewrite Es. apply insert_row_step. intros <-. pose proof (reported_row_live s w e p r Hinv Hw Ht Hr) as Hlive.
    apply report_row_some in Hr as (Hr & _). rewrite Hr.
    apply row_reported; [done | by destruct Hst as [-> | ->]].
Qed.

Lemma settle_row e outcome db u db' :
  settle e outcome db = Ok (u, db') →
  service_instances db' = service_instances db ∧ service_quota_owners db' = service_quota_owners db.
Proof. intros Hs. destruct outcome as [[]|[]]; by injection Hs as <- <-. Qed.

Section Rows.
Context `{JsonParser, UuidText, SqlCast} (vpc_configured : bool).

Lemma sys_step_row s s' id :
  invariant s → sys_step vpc_configured s s' →
  row_step (known s id) (row_of s id) (row_of s' id) ∧ (known s id = true → known s' id = true).
Proof.
  intros Hinv [db' Ht -> | t _ -> | Hw]; unfold known, row_of; simpl.
  - by apply transition_row.
  - split; [apply row_same | done].
  - destruct Hw; subst s'; simpl; try (split; [apply row_same | done]).
    + match goal with Hc : claim_outbox_event _ = _ |- _ =>
        apply claim_ok in Hc as (row & _ & _ & _ & _ & _ & _ & ->) end.
      split; [apply row_same | done].
    + match goal with Hf : deliver_finish _ _ _ _ = _, Hw : workers s !! _ = _ |- _ =>
        destruct (inv_workers _ Hinv _ _ Hw) as [_ [_ Htop]];
        apply deliver_finish_recorded in Hf; [|exact Htop];
        destruct (recorded_row s _ _ _ _ _ id Hinv Hw Hf) as [Hrow ->] end.
      done.
    + match goal with Hs : settle _ _ _ = _ |- _ => apply settle_row in Hs as [-> ->] end.
      split; [apply row_same | done].
Qed.

(** What holds of a service stays related along every execution: it stays
    known, and is absent for good once it is removed. *)
Inductive row_later (r : ServiceRow) : option ServiceRow → Prop :=
| later_removed : row_later r None
| later_row r' :
    organization_id r' = organization_id r → provider r' = provider r →
    generation r ≤ generation r' →
    (generation r' = generation r →
       project_id r' = project_id r ∧ name r' = name r ∧ spec r' = spec r ∧
       (state r' = Deleting ↔ state r = Deleting)) →
    (state r = Deleting → r' = r) → row_later r (Some r').

Lemma row_later_step r b o o' : b = true → row_later r o → row_step b o o' → row_later r o'.
Proof.
  intros Hb Hl Hs. destruct Hs as [k o | r1 | k r1 r2 Hnd Ho Hp Hu Hg | k r1 st v Hnd Hst | k r1 user Hnd Hu | k r1 Hd];
    [done | done | | | | constructor]; inversion Hl as [|r0 Lo Lp Lg Ls Ld]; subst.
  - constructor; try congruence; [lia | lia |]. intros Hd. destruct Hnd. by rewrite (Ld Hd).
  - constructor; simpl; try done.
    + intros Hg. destruct (Ls Hg) as (? & ? & ? & Hdel). split_and!; try done.
      split; [done|]. intros Hd. destruct Hnd. by apply Hdel.
    + intros Hd. destruct Hnd. by rewrite (Ld Hd).
  - constructor; simpl; try done. intros Hd. destruct Hnd. by rewrite (Ld Hd).
Qed.

Lemma row_later_refl r : row_later r (Some r).
Proof. by constructor. Qed.

Lemma sys_steps_row s s' id r :
  invariant s → rtc (sys_step vpc_configured) s s' → row_of s id = Some r → row_later r (row_of s' id).
Proof.
  intros Hinv Hsteps Hr.
  assert (Hk : known s id = true).
  { unfold known. by destruct (inv_owned _ Hinv id r Hr) as [? ->]. }
  assert (Hl : row_later r (row_of s id)) by (rewrite Hr; apply row_later_refl). clear Hr.
  induction Hsteps as [|s s1 s2 Hstep _ IH]; [done|].
  destruct (sys_step_row s s1 id Hinv Hstep) as [Hrow Hk'].
  apply IH; [by eapply invariant_step | by apply Hk' | by eapply row_later_step].
Qed.

Lemma invariant_steps s s' : invariant s → rtc (sys_step vpc_configured) s s' → invariant s'.
Proof. intros Hinv Hsteps. induction Hsteps; [done|]. eauto using invariant_step. Qed.

Lemma known_steps s s' id :
  invariant s → rtc (sys_step vpc_configured) s s' → known s id = true → known s' id = true.
Proof.
  intros Hinv Hsteps. induction Hsteps as [|s s1 s2 Hstep _ IH]; [done|]. intros Hk.
  apply IH; [by eapply invariant_step|]. by apply (sys_step_row s s1 id Hinv Hstep).
Qed.

(** A service that was removed is never created again. *)
Lemma sys_steps_removed s s' id :
  invariant s → rtc (sys_step vpc_configured) s s' → known s id = true → row_of s id = None →
  row_of s' id = None.
Proof.
  intros Hinv Hsteps. induction Hsteps as [|s s1 s2 Hstep _ IH]; [done|]. intros Hk Hn.
  destruct (sys_step_row s s1 id Hinv Hstep) as [Hrow Hk'].
  apply IH; [by eapply invariant_step | by apply Hk' |].
  rewrite Hk, Hn in Hrow. by inversion Hrow.
Qed.

End Rows.

(** ** The program

    The system whose database changes are the transactions of the API. *)

Section Program.
Context `{LimitsDecoder, Serde FlowSpec, Serde FlashSpec, Serde SyouyuSpec, Serde VpcSpec}.
Context `{IpNetLib, UrlLib, JsonText, UuidText, SqlCast, TimeText, SqlText, SqlCollation, Serde PolicyDocument, JsonParser} (vpc_configured : bool).

Inductive program_step (s s' : System) : Prop :=
| program_api db' :
    api_step (database s) db' → s' = Build_System db' (workers s) → program_step s s'
| program_tick t :
    now (database s) ≤ t → s' = Build_System (set_now t (database s)) (workers s) → program_step s s'
| program_worker : worker_step vpc_configured s s' → program_step s s'.

Definition running (s : System) : Prop := ∃ s0, initial s0 ∧ rtc program_step s0 s.

Lemma transitions_sys s db' :
  rtc transition (database s) db' → rtc (sys_step vpc_configured) s (Build_System db' (workers s)).
Proof.
  destruct s as [db ws]. simpl. induction 1 as [db|db db1 db2 Ht _ IH]; [reflexivity|].
  eapply rtc_l; [|exact IH]. by eapply sys_transition.
Qed.

Lemma program_sys s s' : program_step s s' → rtc (sys_step vpc_configured) s s'.
Proof.
  intros [db' Ha%api_transitions -> | t Ht -> | Hw].
  - by apply transitions_sys.
  - apply rtc_once. by eapply sys_tick.
  - apply rtc_once. by apply sys_worker.
Qed.

Lemma program_steps_sys s s' : rtc program_step s s' → rtc (sys_step vpc_configured) s s'.
Proof. induction 1; [reflexivity|]. etrans; [by apply program_sys | done]. Qed.

Lemma running_invariant s : running s → invariant s.
Proof.
  intros (s0 & Hinit & Hsteps%program_steps_sys). apply (invariant_reachable vpc_configured).
  by exists s0.
Qed.

(** C2: No lost wake-up.  In every state the program reaches - any
    interleaving of API transactions, of any number of workers that may crash
    at any point, and of the clock - a service whose desired state the provider
    has not reported on yet has an event in the outbox that is not delivered,
    names the current generation of the service, asks for its deletion exactly
    when it is being deleted, and becomes claimable as time passes. *)
Theorem no_lost_wakeup s id r :
  running s → service_instances (database s) !! id = Some r → status r = Object [] →
  ∃ eid row, outbox_events (database s) !! eid = Some row ∧ delivered_at row = None ∧
    event_for (if bool_decide (state r = Deleting) then "service-instance.delete"
               else "service-instance.reconcile") id r row ∧
    ∀ t, available_at row ≤ t → (∀ l, locked_at row = Some l → l + LOCK_SECONDS < t) →
      claimable t row = true.
Proof.
  intros Hrun Hr Hst. destruct (inv_wakeup _ (running_invariant s Hrun) id r Hr Hst)
    as (eid & row & Hrow & Hd & Hfor & _).
  exists eid, row. split_and!; [done | done | exact Hfor |]. intros t Ht Hl.
  by apply claimable_later.
Qed.

(** C4: Deletion is final.  Along every execution a service that is being
    deleted keeps its row unchanged - no update, report, restart or quota change
    touches it - until the row is removed, and the identifier never names a
    service again. *)
Theorem deleting_is_final s s1 s2 id r :
  running s → rtc program_step s s1 → rtc program_step s1 s2 →
  service_instances (database s) !! id = Some r → state r = Deleting →
  (service_instances (database s1) !! id = Some r ∨ service_instances (database s1) !! id = None) ∧
  (service_instances (database s1) !! id = None → service_instances (database s2) !! id = None).
Proof.
  intros Hinv%running_invariant Hs1%program_steps_sys Hs2%program_steps_sys Hr Hd. split.
  - pose proof (sys_steps_row vpc_configured s s1 id r Hinv Hs1 Hr) as Hl. unfold row_of in Hl.
    destruct Hl as [|r' _ _ _ _ Hsame]; [by right | left]. by rewrite Hsame.
  - eapply sys_steps_removed; [by eapply invariant_steps | exact Hs2 |].
    eapply known_steps; [exact Hinv | exact Hs1 |].
    unfold known. by destruct (inv_owned _ Hinv id r Hr) as [? ->].
Qed.

(** C5: Generations track the desired state.  Along every execution the
    generation of a service never decreases, its account and provider never
    change, and as long as the generation is the same so are project, name,
    configuration, and whether the service is being deleted: what a provider
    was asked to do for a generation is what the database holds for it. *)
Theorem generation_tracks_desired_state s s' id r r' :
  running s → rtc program_step s s' →
  service_instances (database s) !! id = Some r → service_instances (database s') !! id = Some r' →
  organization_id r' = organization_id r ∧ provider r' = provider r ∧ generation r ≤ generation r' ∧
  (generation r' = generation r →
     project_id r' = project_id r ∧ name r' = name r ∧ spec r' = spec r ∧
     (state r' = Deleting ↔ state r = Deleting)).
Proof.
  intros Hrun%running_invariant Hsteps%program_steps_sys Hr Hr'.
  pose proof (sys_steps_row vpc_configured s s' id r Hrun Hsteps Hr) as Hl.
  unfold row_of in Hl. rewrite Hr' in Hl. by inversion Hl.
Qed.

End Program.
