(* ===== verification/Charges.v ===== *)
(** * What services are charged to

    The table of owners outlives the services, since usage is settled later.  In
    every state the program reaches it says for each service what its row says,
    and in an account with member limits nothing that counts against a limit runs
    without an owner. *)
From S2P Require Import Prelude Text Json Net Policy Quota Specs Flash Store Usage Prepare Provider Services FlowAccess Cloud Identity Worker Access IdentityCenter Lifecycle FlowFacts CloudFacts IdentityFacts AccessFacts Admin AdminFacts FlashStore FlashFacts System.

Record charges (db : Db) : Prop := {
  charged_owner id r : service_instances db !! id = Some r →
    service_quota_owners db !! id = Some (organization_id r, quota_user_id r);
  charged_member id r : service_instances db !! id = Some r → consumes r → limited (organization_id r) db →
    is_Some (quota_user_id r);
}.

(** One row changes, the owner it is charged to does not. *)
Lemma charges_insert db db' id r r' :
  charges db → service_instances db !! id = Some r →
  organization_id r' = organization_id r → quota_user_id r' = quota_user_id r → (consumes r' → consumes r) →
  service_instances db' = <[id := r']> (service_instances db) →
  service_quota_owners db' = service_quota_owners db → limits_kept db db' → charges db'.
Proof.
  intros [Ho Hm] Hr Horg Hq Hc Es Eq Hl. constructor; rewrite ?Es, ?Eq; intros id' r0.
  - intros [[<- <-]|[_ Hi]]%lookup_insert_Some; [|by apply Ho]. rewrite Horg, Hq. by apply Ho.
  - intros [[<- <-]|[_ Hi]]%lookup_insert_Some Hc0 Hlim%(limited_kept _ _ _ Hl); [|by eapply Hm].
    rewrite Hq. eapply Hm; [exact Hr | by apply Hc | by rewrite <- Horg].
Qed.

Lemma charges_same db db' :
  charges db → service_instances db' = service_instances db →
  service_quota_owners db' = service_quota_owners db → limits_kept db db' → charges db'.
Proof.
  intros [Ho Hm] Es Eq Hl. constructor; rewrite ?Es, ?Eq; [done|].
  intros id r Hr Hc Hlim%(limited_kept _ _ _ Hl). by eapply Hm.
Qed.

Lemma charges_create db db' id r :
  charges db → (consumes r → quota_user_id r = None → ¬ limited (organization_id r) db) →
  service_instances db' = <[id := r]> (service_instances db) →
  service_quota_owners db' = <[id := (organization_id r, quota_user_id r)]> (service_quota_owners db) →
  limits_kept db db' → charges db'.
Proof.
  intros [Ho Hm] Hc Es Eq Hl. constructor; rewrite ?Es, ?Eq; intros id' r0.
  - intros [[<- <-]|[Hne Hi]]%lookup_insert_Some; [by rewrite lookup_insert_eq|].
    rewrite lookup_insert_ne by done. by apply Ho.
  - intros [[<- <-]|[_ Hi]]%lookup_insert_Some Hc0 Hlim%(limited_kept _ _ _ Hl); [|by eapply Hm].
    destruct (quota_user_id r) eqn:Hq; [by eauto|]. by destruct (Hc Hc0 eq_refl).
Qed.

Lemma charges_assign db db' id r user :
  charges db → service_instances db !! id = Some r → quota_user_id r = None →
  service_instances db' = <[id := set_quota_user user r]> (service_instances db) →
  service_quota_owners db' = alter (assign_owner (organization_id r) user) id (service_quota_owners db) →
  limits_kept db db' → charges db'.
Proof.
  intros [Ho Hm] Hr Hq Es Eq Hl. constructor; rewrite ?Es, ?Eq; intros id' r0.
  - intros [[<- <-]|[Hne Hi]]%lookup_insert_Some.
    + rewrite lookup_alter_eq, (Ho _ _ Hr), Hq. simpl. unfold assign_owner. by rewrite bool_decide_true.
    + rewrite lookup_alter_ne by done. by apply Ho.
  - intros [[<- <-]|[_ Hi]]%lookup_insert_Some Hc0 Hlim%(limited_kept _ _ _ Hl); [by eexists | by eapply Hm].
Qed.

Lemma charges_transition db db' : charges db → transition db db' → charges db'.
Proof.
  intros Hinv Ht. destruct Ht.
  - by eapply charges_same.
  - by eapply charges_create.
  - eapply charges_insert; try eassumption. intros [_ Hm]. split; [done | congruence].
  - eapply charges_insert; try eassumption; try done. by intros [_ Hm].
  - by eapply charges_assign.
  - destruct Hinv as [Ho Hm]. match goal with Ha : ∀ id r, _ → organization_id r = org → _ |- _ => rename Ha into Hall end.
    match goal with Hl : ∀ k, k ≠ _ → _ |- _ => rename Hl into Hothers end.
    match goal with Es : service_instances db' = _, Eq : service_quota_owners db' = _ |- _ =>
      constructor; rewrite Es, ?Eq; [done|] end. intros id r Hr Hc [u Hu].
    destruct (decide (organization_id r = org)) as [E|Hne]; [by eapply Hall|].
    eapply Hm; [exact Hr | done|]. exists u. apply Hothers; [naive_solver | done].
  - by eapply charges_same.
  - by eapply charges_same.
Qed.

(** A worker keeps the owners, and changes rows only by reports and removals. *)
Lemma charges_recorded s w e p outcome db' :
  invariant s → workers s !! w = Some (Calling e p) → charges (database s) →
  recorded e p (database s) outcome db' → charges db'.
Proof.
  intros Hsys Hw Hinv Hrec.
  destruct Hrec as [x Hx | Ht | r Ht Hr Hd | Ht Hno | r st v db' Ht Hr Hst Hv Hf | Ht Hno]; try done.
  - destruct Hinv as [Ho Hm]. constructor; simpl; intros id r0 [_ Hi]%lookup_delete_Some; [by apply Ho | by eapply Hm].
  - pose proof (reported_row_live s w e p r Hsys Hw Ht Hr) as Hlive.
    apply flash_frame_agrees in Hf as [Es _ Eq Hl]. apply report_row_some in Hr as (Hr & _).
    eapply (charges_insert (database s)); [exact Hinv | exact Hr | | | | exact Es | exact Eq | exact Hl]; [done.. |].
    by intros [_ Hm].
Qed.

Section Program.
Context `{LimitsDecoder, Serde FlowSpec, Serde FlashSpec, Serde SyouyuSpec, Serde VpcSpec}.
Context `{IpNetLib, UrlLib, JsonText, UuidText, SqlCast, TimeText, SqlText, SqlCollation, Serde PolicyDocument, JsonParser} (vpc_configured : bool).

Lemma charges_worker s s' :
  invariant s → charges (database s) → worker_step vpc_configured s s' → charges (database s').
Proof.
  intros Hsys Hinv Hw. destruct Hw; subst s'; simpl; try done.
  - match goal with Hc : claim_outbox_event _ = _ |- _ => apply claim_ok in Hc as (row & _ & _ & _ & _ & _ & _ & ->) end.
    by eapply charges_same.
  - match goal with Hf : deliver_finish _ _ _ _ = _, Hw : workers s !! _ = _ |- _ =>
      destruct (inv_workers _ Hsys _ _ Hw) as [_ [_ Htop]];
      apply deliver_finish_recorded in Hf; [|exact Htop]; by eapply charges_recorded end.
  - match goal with Hs : settle _ ?o _ = _ |- _ => destruct o as [[]|[]]; injection Hs as <- <- end; by eapply charges_same.
Qed.

Lemma charges_step s s' : invariant s → charges (database s) → sys_step vpc_configured s s' → charges (database s').
Proof.
  intros Hsys Hinv [db' Ht -> | t _ -> | Hw]; simpl; [by eapply charges_transition | by eapply charges_same|].
  by eapply charges_worker.
Qed.

Lemma running_charges s : running vpc_configured s → charges (database s).
Proof.
  intros (s0 & Hinit & Hsteps%program_steps_sys). pose proof (invariant_initial _ Hinit) as Hsys.
  assert (Hinv : charges (database s0)).
  { destruct Hinit as (Es & _ & _). constructor; rewrite Es; by intros ? ? ?%lookup_empty_Some. }
  clear Hinit. induction Hsteps as [|a b c Hstep _ IH]; [done|].
  apply IH; [by eapply invariant_step | by eapply charges_step].
Qed.

(** C12: Nothing escapes the limits of members.  In every state the program
    reaches, under any interleaving of requests and workers, the table of owners
    charges each service to the account and member its row names; and in an
    account where some member has limits, every service that counts against
    limits and is not being deleted is charged to a member. *)
Theorem allocations_are_charged s id r :
  running vpc_configured s → service_instances (database s) !! id = Some r →
  service_quota_owners (database s) !! id = Some (organization_id r, quota_user_id r) ∧
  (state r ≠ Deleting → metered (provider r) = true →
   (∃ user, is_Some (member_resource_quotas (database s) !! (organization_id r, user))) →
   is_Some (quota_user_id r)).
Proof.
  intros [Ho Hm]%running_charges Hr. split; [by apply Ho|]. intros Hd Hmet Hlim. by eapply Hm.
Qed.
End Program.
