(* ===== verification/FlashSystem.v ===== *)
(** * The tables of Flash in the whole program

    Every step of the program - a transaction of the API, the clock, or a worker -
    changes the tables of Flash only in the ways of [flash_le], so that their
    invariant holds in every state that is reached, and backups, restores and SSH
    access keep what was promised about them. *)
From stdpp Require Import sorting.
From S2P Require Import Prelude Text Json Net Policy Quota Specs Flash Store Usage Prepare Provider Services FlowAccess Cloud Identity Worker Access IdentityCenter FlashStore Lifecycle FlowFacts CloudFacts IdentityFacts AccessFacts Admin AdminFacts FlashFacts System.

(** ** Frames of loops

    A relation that is kept by the insertion of an event is kept by the loops that
    insert some; [quiet_with] finds the frame of a transaction in which everything
    else is dealt with by [leaf]. *)
Section Loops.
Context (R : relation Db) `{!PreOrder R}.

Lemma keeps_for_each {A} (f : A → tx ()) l : (∀ x, keeps R (f x)) → keeps R (for_each_tx f l).
Proof. intros Hf. induction l; simpl; frame; auto. Qed.

Lemma keeps_foldr {A B} (f : A → tx B) l :
  (∀ x, keeps R (f x)) → keeps R (foldr (λ x rest, _ ← f x; rest) (mret ()) l).
Proof. intros Hf. induction l; simpl; frame; auto. Qed.

Context (Hev : ∀ t id b, keeps R (insert_event t id b)).

Lemma keeps_enqueue_events t who rows : keeps R (enqueue_events t who rows).
Proof. induction rows as [|[id r] rows IH]; simpl; frame; try done. apply Hev. Qed.

Lemma keeps_quota_events org : keeps R (enqueue_flash_quota_reconcile_tx org).
Proof. intros db x db' Hrun. by eapply keeps_enqueue_events. Qed.

Lemma keeps_gpu_events types : keeps R (enqueue_flash_gpu_reconciles types).
Proof.
  intros db x db' Hrun. unfold enqueue_flash_gpu_reconciles in Hrun.
  destruct (is_nil types); [by simplify_eq | by eapply keeps_enqueue_events].
Qed.

Lemma keeps_revocations `{UuidText, TimeText} scope principal rows :
  keeps R (enqueue_revocations scope principal rows).
Proof. induction rows as [|[id r] rows IH]; simpl; frame; [apply Hev | done]. Qed.
End Loops.

Ltac quiet_with leaf ev :=
  frame; try leaf;
  try match goal with
  | |- keeps ?R (for_each_tx _ _) => apply (keeps_for_each R); intros ?; quiet_with leaf ev
  | |- keeps ?R (foldr _ _ _) => apply (keeps_foldr R); intros ?; quiet_with leaf ev
  | |- keeps ?R (enqueue_flash_quota_reconcile_tx _) => apply (keeps_quota_events R ev)
  | |- keeps ?R (enqueue_flash_gpu_reconciles _) => apply (keeps_gpu_events R ev)
  | |- keeps ?R (enqueue_revocations _ _ _) => apply (keeps_revocations R ev)
  | |- keeps _ (insert_event _ _ _) => apply ev
  | |- keeps _ (λ _, Err _) => by intros ? ? ?
  | |- keeps _ ?t => let f := head_of t in progress unfold f; quiet_with leaf ev
  end.

(** ** Other parts of the program

    What they do to the tables of Flash: revisions and notifications change, and
    the domains and SSH bindings of a removed service go. *)
Record flash_quiet (db db' : Db) : Prop := {
  fq_now : now db ≤ now db';
  fq_policies : schedule_rows db' = schedule_rows db;
  fq_backups : backup_rows db' = backup_rows db;
  fq_restores : restore_rows db' = restore_rows db;
  fq_destinations : destination_rows db' = destination_rows db;
  fq_domains : shrinks eq (domain_rows db) (domain_rows db');
  fq_keys : ssh_key_rows db' = ssh_key_rows db;
  fq_bindings : ssh_binding_rows db' ⊆ ssh_binding_rows db;
}.

#[export] Instance flash_quiet_preorder : PreOrder flash_quiet.
Proof.
  split; [intros db; constructor; try done; apply shrinks_refl, _|].
  intros a b c [] []. constructor; try congruence; [lia | by eapply (shrinks_trans _) | set_solver].
Qed.

Lemma flash_quiet_same db db' : now db ≤ now db' → flash db' = flash db → flash_quiet db db'.
Proof.
  intros Hn Hf. constructor; unfold schedule_rows, backup_rows, restore_rows, destination_rows, domain_rows,
    ssh_key_rows, ssh_binding_rows; rewrite ?Hf; try done. apply shrinks_refl, _.
Qed.

Lemma revisions_quiet db db' :
  now db ≤ now db' → schedule_rows db' = schedule_rows db → backup_rows db' = backup_rows db →
  restore_rows db' = restore_rows db → destination_rows db' = destination_rows db →
  domain_rows db' = domain_rows db → ssh_key_rows db' = ssh_key_rows db →
  ssh_binding_rows db' = ssh_binding_rows db → flash_quiet db db'.
Proof.
  intros Hn Hp Hb Hr Hd Hdom Hk Hbind. constructor; rewrite ?Hdom, ?Hbind; try done. apply shrinks_refl, _.
Qed.

Lemma on_notices_quiet f : keeps flash_quiet (on_flash (λ db t, set_notices (f db t) t)).
Proof.
  apply keeps_statement. intros db. by apply revisions_quiet.
Qed.

Lemma upsert_notice_quiet refresh i code severity message : keeps flash_quiet (upsert_notice refresh i code severity message).
Proof. unfold upsert_notice. frame; apply on_notices_quiet || by apply flash_quiet_same. Qed.

(** This is one of the ways in which they can evolve. *)
Lemma flash_quiet_le db db' : flash_quiet db db' → flash_le db db'.
Proof.
  intros [Hn Hp Hb Hr Hd Hdom Hk Hbind].
  transitivity (set_flash (set_domains (domain_rows db') (flash db)) db).
  { apply domains_shrink_le. intros i d Hi. destruct (Hdom _ _ Hi) as (d0 & Hd0 & ->). by exists d. }
  etrans; [apply (bindings_shrink_le (ssh_binding_rows db')); exact Hbind|].
  unfold schedule_rows, backup_rows, destination_rows, domain_rows, ssh_key_rows, restore_rows, ssh_binding_rows in *.
  apply flash_le_same; [done.. |]. intros []. constructor; simpl in *; rewrite ?Hb, ?Hp, ?Hd, ?Hk; done.
Qed.

Lemma capture_revision_le `{SqlCast} id r : keeps flash_quiet (capture_flash_revision id r).
Proof.
  unfold capture_flash_revision. frame. by apply revisions_quiet.
Qed.

Lemma insert_event_le t id b : keeps flash_quiet (insert_event t id b).
Proof.
  unfold insert_event. frame; [by apply flash_quiet_same|]. apply revisions_quiet; [done|..];
    cbv [schedule_rows backup_rows restore_rows destination_rows domain_rows ssh_key_rows ssh_binding_rows]; simpl;
    unfold capture_flash_revision_actor; by repeat case_match.
Qed.

Lemma record_diagnostics_le i l : keeps flash_quiet (record_diagnostics i l).
Proof.
  induction l as [|[[code severity] message] l IH]; simpl; frame; [apply upsert_notice_quiet | apply IH].
Qed.

Lemma cascade_cloud_le l db : flash_quiet db (foldr cascade_cloud db l).
Proof. induction l as [|org l IH]; [done|]. etrans; [exact IH|]. by apply flash_quiet_same. Qed.

(** What a statement does not mention stays. *)
Ltac quiet_leaf := idtac;
  lazymatch goal with
  | |- flash_quiet _ _ => apply cascade_cloud_le || by apply flash_quiet_same
  | |- keeps _ (capture_flash_revision _ _) => apply capture_revision_le
  | |- keeps _ (upsert_notice _ _ _ _ _) => apply upsert_notice_quiet
  | |- keeps _ (record_diagnostics _ _) => apply record_diagnostics_le
  end.
Ltac quiet_le := quiet_with quiet_leaf insert_event_le.

Ltac quiet_run :=
  match goal with Hr : ?t _ = Ok _ |- _ =>
    let Hk := fresh in enough (Hk : keeps flash_quiet t) by (by eapply Hk) end; quiet_le.

Section Requests.
Context `{LimitsDecoder, Serde FlowSpec, Serde FlashSpec, Serde SyouyuSpec, Serde VpcSpec}.
Context `{IpNetLib, UrlLib, JsonText, UuidText, SqlCast, TimeText, SqlText, SqlCollation, Serde PolicyDocument}.

Lemma access_request_flash db db' : access_request db db' → flash_quiet db db'.
Proof.
  destruct 1; [eapply (keeps_and_then flash_quiet); [|eassumption]; quiet_le | ..]; quiet_run.
Qed.

Lemma cloud_step_flash db db' : cloud_step db db' → flash_quiet db db'.
Proof. destruct 1 as [??? [? Hr] | ?? [? Hr] | ??? [? Hr] | ??? [? Hr] | ??? [? Hr]
    | ????? [? Hr] | ??? [? Hr] | ????? [? Hr] | ??? [? Hr]]; quiet_run.
Qed.

Lemma flow_request_flash db db' : flow_request db db' → flash_quiet db db'.
Proof. destruct 1; quiet_run.
Qed.

Ltac quiet_then :=
  match goal with Hr : and_then _ _ _ = _ |- _ => eapply (keeps_and_then flash_quiet); [|exact Hr]; quiet_le end.

Lemma exchange_flash code prefix hash expires : keeps flash_quiet (exchange_cli_device_authorization code prefix hash expires).
Proof.
  intros db o db' Hrun%exchange_ok. destruct o; try (by destruct Hrun as [_ ->]).
  - destruct Hrun as (id & d & _ & _ & _ & ->). by apply flash_quiet_same.
  - destruct Hrun as (_ & id & d & _ & _ & _ & _ & _ & _ & _ & _ & _ & ->). by apply flash_quiet_same.
Qed.

Lemma identity_request_flash db db' : identity_request db db' → flash_quiet db db'.
Proof.
  destruct 1; try (by eapply exchange_flash); try quiet_run.
  - unfold bootstrap_admin in *. repeat case_match; simplify_eq; [done | quiet_then | done].
  - unfold register_with_invitation in *. quiet_then.
  - unfold find_or_create_oidc_user in *. case_match; simplify_eq; [done | quiet_then].
  - unfold session_user_by_token_hash in *. repeat case_match; simplify_eq; by apply flash_quiet_same.
  - unfold authenticate_cli_access_token in *. repeat case_match; simplify_eq; by apply flash_quiet_same.
Qed.

Lemma admin_request_flash db db' : admin_request db db' → flash_quiet db db'.
Proof. destruct 1; quiet_run. Qed.

Lemma api_step_flash db db' : api_step db db' → flash_request db db' ∨ flash_quiet db db'.
Proof.
  destruct 1; [right.. | by left | right | right | right]; [quiet_run..|by apply flow_request_flash | by apply cloud_step_flash
    | by apply identity_request_flash | by apply access_request_flash | by apply admin_request_flash | quiet_run | quiet_run].
  all: by apply revisions_quiet.
Qed.
End Requests.

(** ** Steps of workers *)

Lemma cascade_delete_le id db : flash_quiet db (cascade_delete id db).
Proof.
  constructor; try done; [by apply (shrinks_filter _)|]. unfold ssh_binding_rows. simpl. set_solver.
Qed.

Lemma run_store_le {A} (t : tx A) db x db' : keeps flash_quiet t → run_store t db = (x, db') → flash_quiet db db'.
Proof.
  intros Ht. unfold run_store. destruct (t db) as [[a db1]|e] eqn:E; intros [= _ <-]; [by eapply Ht | done].
Qed.

Lemma complete_delete_le id prov g : keeps flash_quiet (complete_delete_service_instance id prov g).
Proof.
  intros db x db' Hrun. unfold complete_delete_service_instance in Hrun.
  repeat case_match; simplify_eq; [apply cascade_delete_le | done..].
Qed.

Lemma mark_instance_le `{UuidText, SqlCast} s id prov g op st : keeps flash_quiet (mark_service_instance s id prov g op st).
Proof. quiet_le. Qed.

Lemma deliver_finish_le `{JsonParser, UuidText, SqlCast} e p r db x db' :
  deliver_finish e p r db = (x, db') → flash_quiet db db'.
Proof.
  unfold deliver_finish, require_current. cbv zeta. intros Hrun.
  repeat case_match; simplify_eq; try done;
    match goal with Hr : run_store _ _ = _ |- _ => eapply run_store_le; [|exact Hr] end;
    apply complete_delete_le || apply mark_instance_le.
Qed.

Lemma settle_le e outcome : keeps flash_quiet (settle e outcome).
Proof.
  intros db x db' Hrun. unfold settle, mark_outbox_delivered, retry_outbox_event in Hrun.
  repeat case_match; simplify_eq; by apply flash_quiet_same.
Qed.

Lemma claim_event_le : keeps flash_quiet claim_outbox_event.
Proof.
  intros db x db' Hrun. unfold claim_outbox_event in Hrun. repeat case_match; simplify_eq; by apply flash_quiet_same.
Qed.

(** ** The program *)

Section Program.
Context `{LimitsDecoder, Serde FlowSpec, Serde FlashSpec, Serde SyouyuSpec, Serde VpcSpec}.
Context `{IpNetLib, UrlLib, JsonText, UuidText, SqlCast, TimeText, SqlText, SqlCollation, Serde PolicyDocument, JsonParser} (vpc_configured : bool).

Abbreviation step := (program_step vpc_configured).

Lemma program_step_flash s s' :
  step s s' → flash_request (database s) (database s') ∨ flash_quiet (database s) (database s').
Proof.
  intros [db' Ha ->|t Ht ->|[]]; subst; simpl; try (by right);
    [by apply api_step_flash | right.. ]; [by apply flash_quiet_same | by eapply claim_event_le
     | by eapply deliver_finish_le | by eapply settle_le].
Qed.

Lemma program_flash s s' : rtc step s s' → flash_le (database s) (database s').
Proof.
  induction 1 as [|a b c [Hf|Hf]%program_step_flash _ IH]; [done | |]; (etrans; [|exact IH]);
    [by apply flash_request_le | by apply flash_quiet_le].
Qed.

(** Reached from a database without services and without Flash tables. *)
Definition started (s : System) : Prop :=
  ∃ s0, initial s0 ∧ flash (database s0) = empty_flash ∧ rtc step s0 s.

Lemma empty_tables_wf : tables_wf empty_flash.
Proof.
  constructor; simpl; try done; try (by intros ???? ?%lookup_empty_Some); try (by intros g; rewrite map_filter_empty, map_size_empty).
Qed.

Lemma started_wf s : started s → tables_wf (flash (database s)).
Proof. intros (s0 & _ & He & Hs). apply (fl_wf _ _ (program_flash _ _ Hs)). rewrite He. apply empty_tables_wf. Qed.

(** C11: The invariant of the tables of Flash, in every state the program
    reaches.  Per account at most 100 backups and 128 GiB of source disks, and 10
    backups per service, counting all that are not deleted; a backup is deleted
    only after its deletion was asked for; a request identifies one backup.
    Schedules run every hour to every week and keep 1 to 8 generations.  At most
    128 custom domains, 8 per service, and no host name twice.  At most 20
    backup destinations per account, with distinct names.  At most 50 SSH keys
    per member, no fingerprint twice within an account, at most 50 keys on a
    service, and only keys of the account that owns the service. *)
Theorem flash_tables_invariant s : started s → tables_wf (flash (database s)).
Proof. apply started_wf. Qed.

(** ** Backups *)

Lemma backup_by_request_found org request id b db :
  tables_wf (flash db) → backup_rows db !! id = Some b →
  backup_organization_id b = org → backup_request_id b = request →
  backup_by_request org request db = Some (id, b).
Proof.
  intros Hwf Hb Ho Hr. apply find_row_only; [done | by rewrite !bool_decide_eq_true_2|].
  intros i c Hc. rewrite andb_true_iff, !bool_decide_eq_true. intros [Hoc Hrc].
  eapply (bw_requests _ (fw_backups _ Hwf)); [done.. |]. simpl. congruence.
Qed.

Lemma new_backup_row org service p request name bytes uid image g d db id b db1 :
  request_flash_backup_to org service p request name bytes uid image g d db = Ok ((id, b), db1) →
  backup_rows db1 !! id = Some b ∧ backup_organization_id b = org ∧ backup_request_id b = request ∧
  same_request p service name d b = true.
Proof.
  intros Hrun. unfold request_flash_backup_to in Hrun. op_inv Hrun.
  destruct (backup_by_request org request db) as [[i e]|] eqn:E; op_inv Hrun; simplify_eq.
  - apply find_row_some in E as [Hb Hp]. rewrite andb_true_iff, !bool_decide_eq_true in Hp. destruct_and!.
    split_and!; try done. by match goal with Hn : negb _ = false |- _ => apply negb_false_iff in Hn end.
  - split_and!; try done; [by apply lookup_insert_eq|]. unfold same_request. simpl.
    by rewrite !bool_decide_eq_true_2, String.eqb_refl by done.
Qed.

Lemma same_request_iff p service name d b :
  same_request p service name d b = true ↔
  p = backup_principal b ∧ service = backup_service b ∧ name = backup_name b ∧ d = backup_destination b ∧
  delete_requested b = false.
Proof.
  unfold same_request. rewrite !andb_true_iff, !bool_decide_eq_true, String.eqb_eq, negb_true_iff. naive_solver.
Qed.

(** Requests for backups are idempotent.  Once a request was accepted, then
    in every later state of the program the backup is still there, is about the
    same disk and specification, and repeating the request - whatever size and
    disk are seen then - gives this backup and changes nothing, if it asks for
    the same backup by the same principal and deletion was not asked for; any
    other use of the request id is refused as a conflict. *)
Lemma backup_request_idempotent s org service p request name bytes uid image g d id b db1 s2 :
  started s →
  request_flash_backup_to org service p request name bytes uid image g d (database s) = Ok ((id, b), db1) →
  rtc step (Build_System db1 (workers s)) s2 →
  ∃ b', backup_rows (database s2) !! id = Some b' ∧ backup_le b b' ∧
    ∀ service' p' name' bytes' uid' image' g' d', 0 < bytes' → uid' ≠ "" →
      let again := request_flash_backup_to org service' p' request name' bytes' uid' image' g' d' (database s2) in
      let same := p' = p ∧ service' = service ∧ name' = name ∧ d' = d ∧ delete_requested b' = false in
      (same → again = Ok ((id, b'), database s2)) ∧ (¬ same → again = Err Conflict).
Proof.
  intros Hs Hreq Hsteps.
  assert (Hle : flash_le (database s) db1) by (by eapply new_backup_le).
  pose proof (program_flash _ _ Hsteps) as Hle2. simpl in Hle2.
  assert (Hwf : tables_wf (flash (database s2))) by (by apply Hle2, Hle, started_wf).
  apply new_backup_row in Hreq as (Hb & Ho & Hr & (Hp & Hsv & Hn & Hd & _)%same_request_iff).
  destruct (fl_backups _ _ Hle2 _ _ Hb) as (b' & Hb' & Hl). exists b'. split_and!; [done.. |].
  intros * Hbytes Huid again same.
  assert (Hfind : backup_by_request org request (database s2) = Some (id, b')).
  { destruct Hl. apply backup_by_request_found; congruence. }
  assert (Hsame : same ↔ same_request p' service' name' d' b' = true).
  { rewrite same_request_iff. unfold same. destruct Hl. subst. naive_solver congruence. }
  assert (Hag : again = if same_request p' service' name' d' b' then Ok ((id, b'), database s2) else Err Conflict).
  { unfold again, request_flash_backup_to, mbind, tx_bind, tx_fail_if, query. simpl.
    rewrite (proj2 (Z.leb_gt _ _) Hbytes), (proj2 (String.eqb_neq _ _) Huid). simpl. rewrite Hfind. simpl.
    by destruct (same_request p' service' name' d' b'). }
  rewrite Hag, Hsame. by destruct (same_request p' service' name' d' b').
Qed.

End Program.
