(* ===== verification/FlashSafety.v ===== *)
(** * Backups, schedules, domains and SSH access

    What the operations on the tables of Flash guarantee: a deleted backup is
    gone for good, retention keeps the newest generations and touches nothing
    else, a schedule is run by one worker at a time, a host name belongs to one
    service, and an SSH key opens a service exactly while everything it depends on
    is in force. *)
From stdpp Require Import sorting.
From S2P Require Import Prelude Text Json Net Policy Quota Specs Flash Store Usage Prepare Provider Services FlowAccess Cloud Identity Worker Access IdentityCenter FlashStore Lifecycle FlowFacts CloudFacts IdentityFacts AccessFacts FlashFacts System FlashSystem.

(** ** Retention *)

#[export] Instance newest_total {A} (time : A → Z) : Total (newest time).
Proof. intros [i a] [j b]. unfold newest. simpl. lia. Qed.
#[export] Instance newest_trans {A} (time : A → Z) : Transitive (newest time).
Proof. intros [i a] [j b] [k c]. unfold newest. simpl. lia. Qed.

(** The generations of a schedule, the newest first. *)
Definition generations (service : Uuid) (p : BackupPolicyRow) (db : Db) : list (Uuid * BackupRow) :=
  merge_sort (newest backup_created_at)
    (filter (λ e, retained service p (snd e) = true) (map_to_list (backup_rows db))).

Lemma elem_of_generations service p db id b :
  (id, b) ∈ generations service p db ↔ backup_rows db !! id = Some b ∧ retained service p b = true.
Proof.
  unfold generations. rewrite merge_sort_Permutation, list_elem_of_filter, elem_of_map_to_list. simpl. tauto.
Qed.

Lemma generations_sorted service p db : StronglySorted (newest backup_created_at) (generations service p db).
Proof. apply (StronglySorted_merge_sort _). Qed.

Lemma generations_keys service p db : NoDup (fst <$> generations service p db).
Proof.
  apply NoDup_fmap_fst.
  - intros id b c [Hb _]%elem_of_generations [Hc _]%elem_of_generations. congruence.
  - unfold generations. rewrite merge_sort_Permutation. apply NoDup_filter, NoDup_map_to_list.
Qed.

Lemma sorted_split {A} (R : relation A) (l : list A) n a b :
  StronglySorted R l → a ∈ take n l → b ∈ drop n l → R a b.
Proof.
  revert n. induction l as [|x l IH]; intros [|n] Hs Ha Hb; simpl in *; try by apply not_elem_of_nil in Ha.
  apply StronglySorted_inv in Hs as [Hs Hall]. rewrite Forall_forall in Hall.
  apply elem_of_cons in Ha as [->|Ha]; [|by eapply IH]. apply Hall.
  apply list_elem_of_lookup in Hb as [i Hi]. rewrite lookup_drop in Hi. by eapply list_elem_of_lookup_2.
Qed.

Lemma foldr_alter_lookup {A} (f : A → A) ids (m : gmap Uuid A) id :
  NoDup ids →
  foldr (λ id m, alter f id m) m ids !! id = if bool_decide (id ∈ ids) then f <$> m !! id else m !! id.
Proof.
  induction 1 as [|x ids Hx Hn IH]; simpl; [done|]. destruct (decide (id = x)) as [->|Hne].
  - rewrite lookup_alter_eq, IH, (bool_decide_eq_false_2 _ Hx). by rewrite bool_decide_eq_true_2 by (by left).
  - rewrite lookup_alter_ne, IH by done. erewrite bool_decide_ext; [done|]. rewrite elem_of_cons. naive_solver.
Qed.

Lemma request_delete_not_retained service p t b : retained service p (request_delete t b) = false.
Proof. unfold retained. simpl. by rewrite !andb_false_r. Qed.

Lemma expired_iff service p db id b :
  backup_rows db !! id = Some b →
  id ∈ expired_backups service p db ↔ (id, b) ∈ drop (Z.to_nat (retention_count p)) (generations service p db).
Proof.
  intros Hb. unfold expired_backups. fold (generations service p db). rewrite list_elem_of_fmap. split; [|intros Hin; by exists (id, b)].
  intros ([i c] & -> & Hin). simpl in *.
  assert (Hg : (i, c) ∈ generations service p db).
  { apply list_elem_of_lookup in Hin as [n Hn]. rewrite lookup_drop in Hn. by eapply list_elem_of_lookup_2. }
  apply elem_of_generations in Hg as [Hc _]. by simplify_eq.
Qed.

Lemma kept_not_expired service p db id b :
  (id, b) ∈ take (Z.to_nat (retention_count p)) (generations service p db) → id ∉ expired_backups service p db.
Proof.
  intros Ht Hin. pose proof (generations_keys service p db) as Hnd. unfold expired_backups in Hin.
  fold (generations service p db) in Hin. revert Hnd. set (n := Z.to_nat _) in *.
  rewrite <- (take_drop n (generations service p db)), fmap_app, NoDup_app. intros (_ & Hd & _).
  apply (Hd id); [|done]. apply list_elem_of_fmap. by exists (id, b).
Qed.

Lemma expire_rows service p db u db' id :
  expire_scheduled_backups service p db = Ok (u, db') →
  backup_rows db' !! id = if bool_decide (id ∈ expired_backups service p db)
                          then request_delete (now db) <$> backup_rows db !! id else backup_rows db !! id.
Proof.
  intros Hrun. unfold expire_scheduled_backups in Hrun. op_inv Hrun. apply foldr_alter_lookup.
  unfold expired_backups. fold (generations service p db). rewrite fmap_drop.
  eapply sublist_NoDup; [apply generations_keys | apply sublist_drop].
Qed.

(** Retention.  Of the uploaded (and, if asked for, verified) backups of the
    schedule at its destination, applying the retention asks for the deletion of
    all but the newest [retention_count]: afterwards exactly these are kept, none
    that goes is newer than one that stays, and no other backup changes in any
    way. *)
Lemma retention_keeps_newest service p db u db' :
  expire_scheduled_backups service p db = Ok (u, db') →
  (∀ id b, backup_rows db !! id = Some b →
     backup_rows db' !! id = Some b ∨
     (retained service p b = true ∧ backup_rows db' !! id = Some (request_delete (now db) b))) ∧
  (∀ id b, backup_rows db' !! id = Some b ∧ retained service p b = true ↔
     (id, b) ∈ take (Z.to_nat (retention_count p)) (generations service p db)) ∧
  (∀ i b j c, backup_rows db !! i = Some b → backup_rows db' !! i ≠ Some b →
     backup_rows db' !! j = Some c → retained service p c = true → backup_created_at b ≤ backup_created_at c) ∧
  dom (backup_rows db') = dom (backup_rows db).
Proof.
  intros Hrun. pose proof (λ id, expire_rows _ _ _ _ _ id Hrun) as Hrow. set (n := Z.to_nat _) in *.
  assert (Hsame : ∀ id b, backup_rows db' !! id = Some b → retained service p b = true →
            backup_rows db !! id = Some b ∧ id ∉ expired_backups service p db).
  { intros id b. rewrite Hrow. case_bool_decide; [|done]. intros (c & _ & ->)%fmap_Some.
    by rewrite request_delete_not_retained. }
  split_and!.
  - intros id b Hb. rewrite Hrow, Hb. case_bool_decide as Hin; [right | by left]. split; [|done].
    apply expired_row in Hin as (c & Hc & Hret). congruence.
  - intros id b. split.
    + intros [Hb Hret]. destruct (Hsame _ _ Hb Hret) as [Hb0 Hno]. rewrite (expired_iff _ _ _ _ _ Hb0) in Hno.
      assert (Hg : (id, b) ∈ generations service p db) by (by apply elem_of_generations).
      rewrite <- (take_drop n), elem_of_app in Hg. by destruct Hg.
    + intros Ht. pose proof (kept_not_expired _ _ _ _ _ Ht) as Hno.
      assert (Hg : (id, b) ∈ generations service p db) by (rewrite <- (take_drop n), elem_of_app; by left).
      apply elem_of_generations in Hg as [Hb Hret]. by rewrite Hrow, bool_decide_eq_false_2.
  - intros i b j c Hb Hchg Hc Hret. destruct (Hsame _ _ Hc Hret) as [Hc0 Hno].
    rewrite Hrow in Hchg. case_bool_decide as Hin; [|by rewrite Hb in Hchg].
    rewrite (expired_iff _ _ _ _ _ Hc0) in Hno. rewrite (expired_iff _ _ _ _ _ Hb) in Hin.
    assert (Hg : (j, c) ∈ generations service p db) by (by apply elem_of_generations).
    rewrite <- (take_drop n), elem_of_app in Hg. destruct Hg as [Hg|]; [|done].
    pose proof (sorted_split _ _ _ _ _ (generations_sorted service p db) Hg Hin) as Hnew.
    unfold newest in Hnew. simpl in Hnew. lia.
  - apply set_eq. intros id. rewrite !elem_of_dom, Hrow. case_bool_decide; [|done].
    by rewrite fmap_is_Some.
Qed.

(** ** Leases of schedules *)

Definition leased (service : Uuid) (until : Z) (db : Db) : Prop :=
  ∃ p, schedule_rows db !! service = Some p ∧ lease_until p = Some until.

(** The one who holds the lease reports the end of the run. *)
Definition finishes (service : Uuid) (db db' : Db) : Prop :=
  ∃ claimed backup error x p, finish_backup_policy service claimed backup error db = Ok (x, db') ∧
    schedule_rows db !! service = Some p ∧ still_claimed claimed p = true.

Definition same_schedules (db db' : Db) : Prop := schedule_rows db' = schedule_rows db.

#[export] Instance same_schedules_preorder : PreOrder same_schedules.
Proof. split; [done|]. intros a b c. unfold same_schedules. congruence. Qed.

Ltac same_schedules :=
  frame; try done;
  try match goal with |- keeps _ ?t => let f := head_of t in progress unfold f; same_schedules end.

Lemma due_not_leased service until db :
  leased service until db → now db ≤ until → service ∉ fst <$> due_policies db.
Proof.
  intros (p & Hp & Hl) Hn ([i q] & -> & [Hq Hdue]%due_row)%list_elem_of_fmap. simpl in *. simplify_eq.
  unfold due, lease_free in Hdue. rewrite Hl in Hdue. rewrite !andb_true_iff in Hdue. lia.
Qed.

Lemma foldr_insert_other {A} (l : list (Uuid * A)) (m : gmap Uuid A) id :
  id ∉ fst <$> l → foldr (λ e m, <[fst e := snd e]> m) m l !! id = m !! id.
Proof.
  induction l as [|e l IH]; [done|]. simpl. intros [Hne Hin]%not_elem_of_cons. rewrite lookup_insert_ne by done. auto.
Qed.

Lemma claim_policies_ok db x db' :
  claim_backup_policies db = Ok (x, db') →
  x = ((λ e, (fst e, take_lease db (snd e))) <$> due_policies db) ∧
  schedule_rows db' = foldr (λ e m, <[fst e := snd e]> m) (schedule_rows db) x ∧ now db' = now db.
Proof. intros Hrun. unfold claim_backup_policies in Hrun. by op_inv Hrun. Qed.

Lemma claimed_keys db : fst <$> ((λ e, (fst e, take_lease db (snd e))) <$> due_policies db) = fst <$> due_policies db.
Proof. by rewrite <- list_fmap_compose. Qed.

Lemma leased_alter service until id f db :
  (∀ p, lease_until (f p) = lease_until p) → leased service until db →
  leased service until (set_flash (set_backup_policies (alter f id (schedule_rows db)) (flash db)) db).
Proof.
  intros Hf (p & Hp & Hl). unfold leased, schedule_rows in *. simpl. destruct (decide (id = service)) as [->|Hne].
  - exists (f p). by rewrite lookup_alter_eq, Hp, Hf.
  - exists p. by rewrite lookup_alter_ne.
Qed.

Lemma flash_request_lease `{UuidText, SqlText} service until db db' :
  flash_request db db' → leased service until db → now db ≤ until →
  leased service until db' ∨ finishes service db db'.
Proof.
  intros Hr Hl Hn. destruct Hr as [| | |????? Hrun|??? Hrun|? Hrun|????? Hrun| | | | | | | | | | | | | | | | | |].
  all: try (left; unfold leased; match goal with Hrun : ?t _ = Ok _ |- _ =>
      let Hk := fresh in enough (Hk : keeps same_schedules t) by (by rewrite (Hk _ _ _ Hrun)); solve [same_schedules] end).
  - left. unfold put_flash_backup_policy in Hrun. op_inv Hrun. destruct Hl as (q & Hq & Hu). unfold leased, schedule_rows in *.
    simpl. destruct (decide (id = service)) as [->|Hne]; [|exists q; by rewrite lookup_insert_ne].
    eexists. rewrite lookup_insert_eq. split; [done|]. by rewrite Hq.
  - left. unfold run_flash_backup_policy_now in Hrun. op_inv Hrun. by apply leased_alter.
  - left. apply claim_policies_ok in Hrun as (-> & Hrows & _). unfold leased. rewrite Hrows, foldr_insert_other; [done|].
    rewrite claimed_keys. by eapply due_not_leased.
  - destruct Hl as (q & Hq & Hu). destruct (decide (id = service)) as [->|Hne].
    + destruct (still_claimed p q) eqn:E; [right; by exists p, b, e, x, q|]. left.
      unfold finish_backup_policy in Hrun. op_inv Hrun. exists q. unfold schedule_rows in *. simpl.
      by rewrite lookup_alter_eq, Hq, (fmap_Some_2 _ _ _ eq_refl), E.
    + left. unfold finish_backup_policy in Hrun. op_inv Hrun. exists q. unfold schedule_rows in *. simpl.
      by rewrite lookup_alter_ne.
Qed.

Lemma due_keys db : NoDup (fst <$> due_policies db).
Proof.
  apply NoDup_fmap_fst.
  - intros i p q [Hp _]%due_row [Hq _]%due_row. simpl in *. congruence.
  - unfold due_policies. eapply sublist_NoDup; [|apply sublist_take]. rewrite merge_sort_Permutation.
    apply NoDup_filter, NoDup_map_to_list.
Qed.

Lemma foldr_insert_in {A} (l : list (Uuid * A)) (m : gmap Uuid A) id a :
  NoDup (fst <$> l) → (id, a) ∈ l → foldr (λ e m, <[fst e := snd e]> m) m l !! id = Some a.
Proof.
  induction l as [|[i b] l IH]; [by intros _ ?%not_elem_of_nil|]. simpl. intros [Hi Hn]%NoDup_cons [Heq|Hin]%elem_of_cons.
  - simplify_eq. by rewrite lookup_insert_eq.
  - rewrite lookup_insert_ne; [by apply IH|]. intros ->. apply Hi, list_elem_of_fmap. by exists (id, a).
Qed.

Lemma claim_leases db l db' service p :
  claim_backup_policies db = Ok (l, db') → (service, p) ∈ l →
  schedule_rows db' !! service = Some p ∧ lease_until p = Some (now db + LEASE_SECONDS).
Proof.
  intros (-> & -> & _)%claim_policies_ok Hin. split.
  - apply foldr_insert_in; [|done]. rewrite claimed_keys. apply due_keys.
  - by apply list_elem_of_fmap in Hin as ([i q] & [= -> ->] & _).
Qed.

Section Program.
Context `{LimitsDecoder, Serde FlowSpec, Serde FlashSpec, Serde SyouyuSpec, Serde VpcSpec}.
Context `{IpNetLib, UrlLib, JsonText, UuidText, SqlCast, TimeText, SqlText, SqlCollation, Serde PolicyDocument, JsonParser} (vpc_configured : bool).

Abbreviation step := (program_step vpc_configured).

(** A step that is not the end of the run of a schedule. *)
Definition unfinished (service : Uuid) (s s' : System) : Prop :=
  step s s' ∧ ¬ finishes service (database s) (database s').

Lemma unfinished_steps service s s' : rtc (unfinished service) s s' → rtc step s s'.
Proof. apply rtc_subrel. by intros ?? []. Qed.

Lemma lease_lasts service until s s' :
  rtc (unfinished service) s s' → leased service until (database s) → now (database s') ≤ until →
  leased service until (database s').
Proof.
  induction 1 as [|a b c [Hstep Hno] Hsteps IH]; [done|]. intros Hl Hn. apply IH; [|done].
  apply unfinished_steps, (program_flash vpc_configured) in Hsteps as Hle.
  destruct (program_step_flash vpc_configured _ _ Hstep) as [Hr|Hq].
  - pose proof (fl_now _ _ Hle). pose proof (fl_now _ _ (flash_request_le _ _ Hr)).
    destruct (flash_request_lease _ _ _ _ Hr Hl) as [|Hf]; [lia | done|]. by destruct Hno.
  - unfold leased. by rewrite (fq_policies _ _ Hq).
Qed.

(** A schedule is run by one worker at a time.  After a worker claimed due
    schedules, then in every later state of the program in which the lease has
    not run out and the run was not reported as finished under it, no worker
    claims any of them again and it cannot be asked to run at once; and a report
    under an earlier lease changes nothing. *)
Lemma schedule_lease_exclusive s l db1 service p s2 :
  claim_backup_policies (database s) = Ok (l, db1) → (service, p) ∈ l →
  rtc (unfinished service) (Build_System db1 (workers s)) s2 →
  now (database s2) ≤ now (database s) + LEASE_SECONDS →
  (∀ l2 db2, claim_backup_policies (database s2) = Ok (l2, db2) → service ∉ fst <$> l2) ∧
  (∀ org, run_flash_backup_policy_now org service (database s2) = Err Conflict) ∧
  (∀ claimed backup error u db2, finish_backup_policy service claimed backup error (database s2) = Ok (u, db2) →
     lease_until claimed ≠ lease_until p → schedule_rows db2 = schedule_rows (database s2)).
Proof.
  intros Hclaim Hin Hsteps Hn. destruct (claim_leases _ _ _ _ _ Hclaim Hin) as [Hrow Hu].
  assert (Hl : leased service (now (database s) + LEASE_SECONDS) (database s2)).
  { eapply lease_lasts; [exact Hsteps | by exists p | done]. }
  split_and!.
  - intros l2 db2 (-> & _ & _)%claim_policies_ok. rewrite claimed_keys. by eapply due_not_leased.
  - intros org. destruct Hl as (q & Hq & Hqu). unfold run_flash_backup_policy_now, mbind, tx_bind, query, tx_fail_if.
    rewrite Hq. simpl. unfold lease_free. rewrite Hqu, (proj2 (Z.ltb_ge _ _) Hn). by rewrite andb_false_r.
  - intros claimed backup error u db2 Hrun Hne. destruct Hl as (q & Hq & Hqu).
    unfold finish_backup_policy in Hrun. op_inv Hrun. unfold schedule_rows in *. simpl. apply alter_id.
    intros r Hr. simplify_eq. unfold still_claimed. rewrite Hqu, <- Hu.
    destruct (lease_until claimed); [simpl|done]. by rewrite bool_decide_eq_false_2.
Qed.

(** ** Deleted backups *)

Lemma released_row id b db u db' :
  backup_rows db !! id = Some b → delete_requested b = true → release_flash_backup id db = Ok (u, db') →
  ∃ b', backup_rows db' !! id = Some b' ∧ is_Some (deleted_at b').
Proof.
  intros Hb Hd Hrun. unfold release_flash_backup in Hrun. op_inv Hrun. unfold backup_rows in *. simpl.
  rewrite lookup_alter_eq, Hb. simpl. rewrite Hd. eexists. split; [done|]. simpl. by destruct (deleted_at b).
Qed.

(** A deleted backup is gone for good.  Once the deletion of a backup that was
    asked for is recorded, then in every later state of the program the backup is
    not found, no new restore from it is accepted, and it no longer counts
    towards the quota of its account. *)
Lemma deleted_backup_is_final s id b u db1 s2 :
  started vpc_configured s → backup_rows (database s) !! id = Some b → delete_requested b = true →
  release_flash_backup id (database s) = Ok (u, db1) → rtc step (Build_System db1 (workers s)) s2 →
  ∀ org, flash_backup org id (database s2) = Err NotFound ∧ charged org (backup_rows (database s2)) !! id = None ∧
    ∀ p request project name, restore_rows (database s2) !! (org, p, request) = None →
      reserve_flash_restore org p request id project name (database s2) = Err Conflict.
Proof.
  intros Hs Hb Hdel Hrel Hsteps org.
  assert (Hle : flash_le (database s) db1) by (by eapply release_le).
  pose proof (program_flash _ _ _ Hsteps) as Hle2. simpl in Hle2.
  assert (Hwf : tables_wf (flash (database s2))) by (by apply Hle2, Hle, started_wf with vpc_configured).
  destruct (released_row _ _ _ _ _ Hb Hdel Hrel) as (b1 & Hb1 & Hd1). destruct (fl_backups _ _ Hle2 _ _ Hb1) as (b2 & Hb2 & Hl).
  assert (Hph : backup_phase b2 = "deleted").
  { destruct (bw_rows _ (fw_backups _ Hwf) _ _ Hb2) as (_ & Hd & _). apply Hd. by rewrite (bl_deleted _ _ Hl Hd1). }
  split_and!.
  - unfold flash_backup. rewrite Hb2. simpl. by rewrite Hph, andb_false_r.
  - unfold charged. rewrite lookup_fmap, map_lookup_filter_None_2; [done|]. right. intros c Hc. simplify_eq. by intros [_ ?].
  - intros p request project name Hnone. unfold reserve_flash_restore, mbind, tx_bind, query, tx_fail_if.
    rewrite Hnone, Hb2. simpl. by rewrite Hph, andb_false_r.
Qed.

(** ** Domains *)

(** A host name belongs to one service.  While a host name is bound, the only
    one who gets it is the service it is bound to, which gets the same binding
    with the same proof of ownership and changes nothing; and not even that once
    its removal was asked for. *)
Lemma hostname_exclusive s id d org service p e db' :
  started vpc_configured s → domain_rows (database s) !! id = Some d →
  reserve_flash_domain org service p (hostname d) (database s) = Ok (e, db') →
  e = (id, d) ∧ db' = database s ∧ domain_organization d = org ∧ domain_service d = service ∧
  domain_delete_requested d = false.
Proof.
  intros Hs Hd Hrun. apply started_wf in Hs. unfold reserve_flash_domain in Hrun. op_inv Hrun.
  rewrite (find_row_only _ _ id d Hd) in Hrun; [| apply String.eqb_refl |].
  - op_inv Hrun. match goal with Hn : negb _ = false |- _ => rewrite negb_false_iff, !andb_true_iff in Hn end.
    rewrite !bool_decide_eq_true, negb_true_iff in *. tauto.
  - intros i c Hc Heq%String.eqb_eq. by eapply (fw_hostnames _ Hs).
Qed.

(** ** SSH access *)

(** What opens service [service] of account [org] to the holder of a key. *)
Record ssh_access (org : OrganizationId) (service : ServiceInstanceId) (print : string) (db : Db)
    (id : Uuid) (k : SshKeyRow) : Prop := {
  sa_key : ssh_key_rows db !! id = Some k ∧ ssh_organization k = org ∧ fingerprint k = print;
  sa_bound : (org, service, id) ∈ ssh_binding_rows db;
  sa_user : ssh_user k ∈ active_users db;
  sa_member : ∃ m p, organization_memberships db !! (org, ssh_user k) = Some m ∧
    principal_of org (member_principal_id m) db = Some p ∧ enabled p = true;
  sa_service : ∃ r, service_instances db !! service = Some r ∧ organization_id r = org ∧ provider r = "flash" ∧
    state r ≠ Deleting;
}.

Lemma live_flash_true org r :
  live_flash org r = true ↔ organization_id r = org ∧ provider r = "flash" ∧ state r ≠ Deleting.
Proof.
  unfold live_flash, in_org, has_provider, not_deleting.
  rewrite !andb_true_iff, String.eqb_eq, negb_true_iff, bool_decide_eq_false, bool_decide_eq_true. tauto.
Qed.

Lemma key_by_print org print id k db :
  tables_wf (flash db) → ssh_key_rows db !! id = Some k → ssh_organization k = org → fingerprint k = print →
  find_row (λ k, bool_decide (ssh_organization k = org) && String.eqb (fingerprint k) print) (ssh_key_rows db)
  = Some (id, k).
Proof.
  intros Hwf Hk Ho Hf. apply find_row_only; [done | by rewrite bool_decide_eq_true_2, Hf, String.eqb_refl|].
  intros i c Hc. rewrite andb_true_iff, bool_decide_eq_true, String.eqb_eq. intros [Hoc Hfc].
  eapply (fw_prints _ Hwf); [done.. |]. simpl. congruence.
Qed.

Lemma authorized_iff org service print db id k :
  tables_wf (flash db) →
  authorized_flash_ssh_key org service print db = Some (id, k) ↔ ssh_access org service print db id k.
Proof.
  intros Hwf. unfold authorized_flash_ssh_key. split.
  - intros Hs. apply bind_Some in Hs as ([i c] & Hfind & Hs).
    apply find_row_some in Hfind as [Hk Hp]. rewrite andb_true_iff, bool_decide_eq_true, String.eqb_eq in Hp.
    destruct (_ && _) eqn:E in Hs; [|done]. simplify_eq. rewrite !andb_true_iff, !bool_decide_eq_true in E.
    destruct E as [[[Hb Hu] Hm] Hr]. simpl in *.
    destruct (organization_memberships db !! _) as [m|] eqn:Em in Hm; [simpl in Hm|done].
    destruct (principal_of _ _ _) as [p|] eqn:Ep in Hm; [simpl in Hm|done].
    destruct (service_instances db !! _) as [r|] eqn:Er in Hr; [simpl in Hr|done]. apply live_flash_true in Hr.
    constructor; try done; [by exists m, p | by exists r].
  - intros [(Hk & Ho & Hf) Hb Hu (m & p & Hm & Hp & He) (r & Hr & Hl)].
    rewrite (key_by_print _ _ _ _ _ Hwf Hk Ho Hf). simpl. rewrite Hm. simpl. rewrite Hp, Hr. simpl.
    rewrite He, !bool_decide_eq_true_2 by done. by rewrite (proj2 (live_flash_true org r)).
Qed.

(** Revoking SSH access takes effect at once.  When the owner deletes a key,
    no service can be opened with it any more; when a key is taken off a service,
    this service cannot be opened with it. *)
Lemma ssh_revocation s org id k u db1 db2 :
  started vpc_configured s → ssh_key_rows (database s) !! id = Some k → ssh_organization k = org →
  (delete_flash_ssh_key org (ssh_user k) id (database s) = Ok (u, db1) →
     ∀ service, authorized_flash_ssh_key org service (fingerprint k) db1 = None) ∧
  (∀ service rest, set_flash_service_ssh_key org service id false (database s) = Ok (rest, db2) →
     authorized_flash_ssh_key org service (fingerprint k) db2 = None).
Proof.
  intros Hs%started_wf Hk Ho. split.
  - intros Hrun service. assert (Hwf : tables_wf (flash db1)) by (by eapply fl_wf; [by eapply delete_key_le|]).
    destruct (authorized_flash_ssh_key _ _ _ _) as [[i c]|] eqn:E; [|done].
    apply (authorized_iff _ _ _ _ _ _ Hwf) in E as [(Hc & Hoc & Hfc) _ _ _ _].
    unfold delete_flash_ssh_key in Hrun. op_inv Hrun. unfold ssh_key_rows in *. simpl in *.
    apply lookup_delete_Some in Hc as [Hne Hc]. destruct Hne.
    eapply (fw_prints _ Hs); [done.. |]. simpl. congruence.
  - intros service rest Hrun. assert (Hwf : tables_wf (flash db2)) by (by eapply fl_wf; [by eapply bind_key_le|]).
    destruct (authorized_flash_ssh_key _ _ _ _) as [[i c]|] eqn:E; [|done].
    apply (authorized_iff _ _ _ _ _ _ Hwf) in E as [(Hc & Hoc & Hfc) Hb _ _ _].
    unfold set_flash_service_ssh_key in Hrun. op_inv Hrun. simpl in *. op_inv Hs0.
    unfold ssh_key_rows, ssh_binding_rows in *. simpl in *.
    assert (i = id) as -> by (eapply (fw_prints _ Hs); [done.. |]; simpl; congruence). set_solver.
Qed.

End Program.
