(* ===== verification/SshFacts.v ===== *)
(** * Who may open a channel

    The gateway lets somebody in exactly if the key and everything it depends on is
    in force and the policies allow the execution of commands in the service; every
    channel is checked again; and what is started there is within bounds. *)
From stdpp Require Import sorting.
From S2P Require Import Prelude Text Json Net Policy Iam RoleTrust Quota Specs Flash Store Usage Prepare Provider Services FlowAccess Cloud Identity Worker Access FlashStore Authorize IdentityCenter Routes FlashOps SshGateway Lifecycle FlowFacts CloudFacts IdentityFacts AccessFacts FlashFacts ApiFacts FlashApi System FlashSystem FlashSafety.

Section Exec.
Context `{Chrono, Serde PolicyDocument}.




End Exec.

Section Gateway.
Context `{LimitsDecoder, Serde FlowSpec, Serde FlashSpec, Serde SyouyuSpec, Serde VpcSpec}.
Context `{IpNetLib, UrlLib, JsonText, UuidText, SqlCast, TimeText, SqlText, SqlCollation, Serde PolicyDocument, JsonParser}.
Context `{Chrono, WebLib} (vpc_configured : bool).



















End Gateway.

(** What a session starts: a window of a size, and a shell, the file transfer, or a
    command that is text of a limited length without a zero byte. *)
Definition startable_as (messages : list ChannelMsg) (st : SessionStart) (c : string) : Prop :=
  (c = SFTP_COMMAND ∧ start_tty st = false) ∨
  ∃ l, Exec l ∈ messages ∧ c = of_bytes l ∧ l ≠ [] ∧ Z.of_nat (length l) ≤ 16 * 1024 ∧ 0 ∉ l ∧ valid_utf8 l = true.

Lemma startable_true l :
  startable l = true → l ≠ [] ∧ Z.of_nat (length l) ≤ 16 * 1024 ∧ 0 ∉ l ∧ valid_utf8 l = true.
Proof.
  unfold startable. rewrite !andb_true_iff, negb_true_iff, Z.leb_le, forallb_forall. intros [[[Hu Hn] Hl] Hz].
  split_and!; try done; [by destruct l|]. intros H0%list_elem_of_In%Hz. done.
Qed.

Lemma negotiate_bounded messages tty cols rows st :
  window cols rows = true → negotiate tty cols rows messages = Some st →
  window (start_cols st) (start_rows st) = true ∧ ∀ c, start_command st = Some c → startable_as messages st c.
Proof.
  revert tty cols rows. induction messages as [|m messages IH]; [done|]. intros tty cols rows Hw Hst.
  assert (Hrest : ∀ tty cols rows, window cols rows = true → negotiate tty cols rows messages = Some st →
    window (start_cols st) (start_rows st) = true ∧ ∀ c, start_command st = Some c → startable_as (m :: messages) st c).
  { intros tty1 c1 r1 Hw1 Hn. destruct (IH _ _ _ Hw1 Hn) as [Hwin Hcmd]. split; [done|].
    intros c [?|(l & ? & ?)]%Hcmd; [by left | right; exists l; split; [by right | done]]. }
  destruct m as [c r|command| |n| |c r|]; simpl in Hst; try done.
  - destruct (window c r) eqn:Hcr; by eapply Hrest.
  - destruct (startable command) eqn:Hs; [|done]. injection Hst as <-. split; [done|]. intros c [= <-]. right.
    exists command. split; [by left|]. split; [done|]. by apply startable_true.
  - injection Hst as <-. by split.
  - destruct (String.eqb n "sftp" && negb tty) eqn:Hn; [|done]. injection Hst as <-. split; [done|].
    intros c [= <-]. left. split; [done|]. by destruct tty; rewrite ?andb_false_r in Hn.
  - by eapply Hrest.
  - destruct (window c r) eqn:Hcr; by eapply Hrest.
Qed.

Lemma session_start_bounded messages st :
  session_start messages = Some st →
  window (start_cols st) (start_rows st) = true ∧ ∀ c, start_command st = Some c → startable_as messages st c.
Proof. by apply negotiate_bounded. Qed.
