(* ===== verification/FlashRevisions.v ===== *)
(** * Revisions of Flash services

    The triggers of the database record every generation of a Flash service as it
    was asked for.  In the whole program a revision, once recorded, keeps its
    specification; the generation of a service always has the revision that says
    what it is; and a revision counts as verified only when the application was
    seen running at that generation. *)
From stdpp Require Import sorting.
From S2P Require Import Prelude Text Json Net Policy Quota Specs Flash Store Usage Prepare Provider Services FlowAccess Cloud Identity Worker Access IdentityCenter FlashStore Lifecycle FlowFacts CloudFacts IdentityFacts AccessFacts Admin AdminFacts FlashFacts System FlashSystem.

Abbreviation Revisions := (gmap (Uuid * Z) RevisionRow).

(** ** Order *)

Definition phase_ok (v : RevisionRow) : Prop := revision_phase v = "ready" ↔ is_Some (revision_ready_at v).

Record revision_le (v v' : RevisionRow) : Prop := {
  rl_scope : revision_organization v' = revision_organization v ∧ revision_project v' = revision_project v;
  rl_name : revision_name v' = revision_name v;
  rl_spec : revision_spec v' = revision_spec v;
  rl_created : revision_created_at v' = revision_created_at v;
  rl_ready : is_Some (revision_ready_at v) → revision_ready_at v' = revision_ready_at v;
  rl_phase : phase_ok v → phase_ok v';
}.

#[export] Instance revision_le_preorder : PreOrder revision_le.
Proof.
  split; [done|]. intros a b c [[] ? ? ? R1 P1] [[] ? ? ? R2 P2]. constructor; try (split; congruence); try congruence; [|auto].
  intros Hr. rewrite R2; [auto|]. by rewrite R1.
Qed.

(** The same generations, each as it was. *)
Definition history_le (m m' : Revisions) : Prop :=
  (∀ k v, m !! k = Some v →
     ∃ v', m' !! k = Some v' ∧ revision_le v v' ∧ revision_ready_at v' = revision_ready_at v) ∧ dom m' = dom m.

#[export] Instance history_le_preorder : PreOrder history_le.
Proof.
  split; [intros m; split; [intros k v Hv; by exists v | done]|]. intros a b c [H1 D1] [H2 D2]. split; [|congruence].
  intros k v Hv. destruct (H1 _ _ Hv) as (v1 & Hv1 & L1 & R1). destruct (H2 _ _ Hv1) as (v2 & Hv2 & L2 & R2).
  exists v2. split_and!; [done | by etrans | congruence].
Qed.

Lemma history_alter f k m :
  (∀ v, revision_le v (f v)) → (∀ v, revision_ready_at (f v) = revision_ready_at v) → history_le m (alter f k m).
Proof.
  intros Hf Hready. split; [|apply dom_alter_L]. intros i v Hv. destruct (decide (i = k)) as [->|Hne].
  - exists (f v). by rewrite lookup_alter_eq, Hv.
  - exists v. by rewrite lookup_alter_ne.
Qed.

(** What is recorded of a row. *)
Definition records (r : ServiceRow) (v : RevisionRow) : Prop :=
  revision_organization v = organization_id r ∧ revision_project v = project_id r ∧
  revision_name v = name r ∧ revision_spec v = spec r.

Record history_wf (services : gmap Uuid ServiceRow) (owned : Uuid → Prop) (m : Revisions) : Prop := {
  hw_rows id r : services !! id = Some r → owned id;
  hw_owned id g v : m !! (id, g) = Some v → owned id;
  hw_bound id g v r : m !! (id, g) = Some v → services !! id = Some r → g ≤ generation r;
  hw_current id r : services !! id = Some r → provider r = "flash" →
    ∃ v, m !! (id, generation r) = Some v ∧ records r v;
  hw_phase k v : m !! k = Some v → phase_ok v;
}.

Lemma records_le r v v' : records r v → revision_le v v' → records r v'.
Proof. intros (? & ? & ? & ?) [[] ? ? _ _ _]. unfold records. split_and!; congruence. Qed.

Lemma history_back m m' : history_le m m' → ∀ k v', m' !! k = Some v' →
  ∃ v, m !! k = Some v ∧ revision_le v v' ∧ revision_ready_at v' = revision_ready_at v.
Proof.
  intros [Hle Hdom] k v' Hv'. assert (Hk : k ∈ dom m) by (rewrite <- Hdom; by eapply elem_of_dom_2).
  apply elem_of_dom in Hk as [v Hv]. destruct (Hle _ _ Hv) as (v2 & Hv2 & L & R). simplify_eq. eauto.
Qed.

Lemma history_wf_le services owned m m' : history_wf services owned m → history_le m m' → history_wf services owned m'.
Proof.
  intros [Hr Ho Hb Hc Hp] [Hle Hdom].
  assert (Hback := history_back _ _ (conj Hle Hdom)). constructor.
  - done.
  - intros id g v' (v & Hv & _)%Hback. by eapply Ho.
  - intros id g v' r (v & Hv & _)%Hback Hs. by eapply Hb.
  - intros id r Hs Hf. destruct (Hc _ _ Hs Hf) as (v & Hv & Hrec). destruct (Hle _ _ Hv) as (v' & Hv' & L & _).
    exists v'. split; [done | by eapply records_le].
  - intros k v' (v & Hv & L & _)%Hback. apply L. by eapply Hp.
Qed.

(** ** Recording a row *)

Lemma captured_le healthy t r v : revision_le v (captured_revision healthy t r (Some v)).
Proof.
  constructor; try done; unfold captured_revision; simpl; [by intros [u ->]|].
  unfold phase_ok. simpl. destruct (revision_ready_at v); simpl; [by eauto|]. destruct healthy; [by eauto|].
  intros _. split; [|by intros []]. by case_bool_decide.
Qed.

Lemma captured_new healthy t r : records r (captured_revision healthy t r None) ∧ phase_ok (captured_revision healthy t r None).
Proof.
  split; [done|]. unfold phase_ok. simpl. destruct healthy; [by eauto|]. split; [|by intros []]. by case_bool_decide.
Qed.

(** The row is written, and the trigger records it. *)
Definition record (healthy : bool) (t : Z) (id : Uuid) (r : ServiceRow) (m : Revisions) : Revisions :=
  if has_provider "flash" r
  then <[(id, generation r) := captured_revision healthy t r (m !! (id, generation r))]> m else m.

Lemma record_lookup healthy t id r m k v :
  record healthy t id r m !! k = Some v →
  m !! k = Some v ∨ k = (id, generation r) ∧ v = captured_revision healthy t r (m !! (id, generation r)).
Proof.
  unfold record. destruct (has_provider "flash" r); [|by left].
  intros [[<- <-]|[_ Hv]]%lookup_insert_Some; [by right | by left].
Qed.

Lemma record_ok (healthy : bool) (t : Z) (id : Uuid) (r : ServiceRow) (m : Revisions) (v : RevisionRow) :
  (∀ v, m !! (id, generation r) = Some v → phase_ok v) → v = captured_revision healthy t r (m !! (id, generation r)) →
  phase_ok v.
Proof.
  intros Hp ->. destruct (m !! _) as [w|] eqn:E; [|apply captured_new]. apply captured_le. by apply Hp.
Qed.

Lemma history_put (healthy : bool) (t : Z) (services : gmap Uuid ServiceRow) (owned : Uuid → Prop) (m : Revisions) (id : Uuid) (r : ServiceRow) :
  history_wf services owned m → owned id →
  (∀ g v, m !! (id, g) = Some v → g ≤ generation r) →
  (provider r = "flash" → ∀ v, m !! (id, generation r) = Some v → records r v) →
  history_wf (<[id := r]> services) owned (record healthy t id r m).
Proof.
  intros [Hr Ho Hb Hc Hp] Hid Hbound Hrec. constructor.
  - intros i r' [[<- _]|[_ Hi]]%lookup_insert_Some; [done | by eapply Hr].
  - intros i g v [Hv|[[= -> ->] _]]%record_lookup; [by eapply Ho | done].
  - intros i g v r' Hv [[<- <-]|[Hne Hi]]%lookup_insert_Some; apply record_lookup in Hv as [Hv|[Hk _]].
    + by eapply Hbound.
    + by simplify_eq.
    + by eapply Hb.
    + by simplify_eq.
  - intros i r' [[<- <-]|[Hne Hi]]%lookup_insert_Some Hf.
    + unfold record, has_provider. rewrite Hf, String.eqb_refl, lookup_insert_eq. eexists. split; [done|].
      destruct (m !! (id, generation r)) as [v|] eqn:E; [|apply captured_new].
      eapply records_le; [by apply Hrec | apply captured_le].
    + destruct (Hc _ _ Hi Hf) as (v & Hv & Hrv). exists v. split; [|done]. unfold record.
      destruct (has_provider "flash" r); [|done]. rewrite lookup_insert_ne by congruence. done.
  - intros k v [Hv|[-> Hv]]%record_lookup; [by eapply Hp|]. eapply record_ok; [|done]. intros. by eapply Hp.
Qed.

(** A report about the current generation. *)
Lemma history_same (healthy : bool) (t : Z) (services : gmap Uuid ServiceRow) (owned : Uuid → Prop) (m : Revisions) (id : Uuid) (r r' : ServiceRow) :
  history_wf services owned m → services !! id = Some r → generation r' = generation r → provider r' = provider r →
  (∀ v, records r v → records r' v) → history_wf (<[id := r']> services) owned (record healthy t id r' m).
Proof.
  intros Hwf Hs Hg Hpr Hrec. pose proof Hwf as [Hr Ho Hb Hc Hp]. apply history_put; [done | by eapply Hr | |].
  - intros g v Hv. rewrite Hg. by eapply Hb.
  - intros Hf v Hv. apply Hrec. destruct (Hc id r) as (w & Hw & Hrw); [done | congruence|]. rewrite Hg in Hv. by simplify_eq.
Qed.

(** The next generation. *)
Lemma history_next (healthy : bool) (t : Z) (services : gmap Uuid ServiceRow) (owned : Uuid → Prop) (m : Revisions) (id : Uuid) (r r' : ServiceRow) :
  history_wf services owned m → services !! id = Some r → generation r < generation r' →
  history_wf (<[id := r']> services) owned (record healthy t id r' m).
Proof.
  intros Hwf Hs Hg. pose proof Hwf as [Hr Ho Hb Hc Hp]. apply history_put; [done | by eapply Hr | |].
  - intros g v Hv. pose proof (Hb _ _ _ _ Hv Hs). lia.
  - intros _ v Hv. pose proof (Hb _ _ _ _ Hv Hs). lia.
Qed.

(** A new service, which is owned from then on. *)
Lemma history_new (healthy : bool) (t : Z) (services : gmap Uuid ServiceRow) (owned owned' : Uuid → Prop) (m : Revisions) (id : Uuid) (r : ServiceRow) :
  history_wf services owned m → ¬ owned id → (∀ i, owned i → owned' i) → owned' id →
  history_wf (<[id := r]> services) owned' (record healthy t id r m).
Proof.
  intros [Hr Ho Hb Hc Hp] Hno Hsub Hid.
  assert (Hnone : ∀ g v, m !! (id, g) = Some v → False) by (intros g v Hv; by eapply Hno, Ho).
  apply history_put; [|done | by intros ? ? []%Hnone | by intros _ ? []%Hnone].
  constructor; eauto.
Qed.

(** A change of the row that the triggers do not look at. *)
Lemma history_row (services : gmap Uuid ServiceRow) (owned owned' : Uuid → Prop) (m : Revisions) (id : Uuid) (r r' : ServiceRow) :
  history_wf services owned m → services !! id = Some r → (∀ i, owned i → owned' i) →
  generation r' = generation r → provider r' = provider r → (∀ v, records r v → records r' v) →
  history_wf (<[id := r']> services) owned' m.
Proof.
  intros [Hr Ho Hb Hc Hp] Hs Hsub Hg Hprov Hrec. constructor; [| by eauto | | | done].
  - intros i r0 [[<- _]|[_ Hi]]%lookup_insert_Some; [by eapply Hsub, Hr | by eapply Hsub, Hr].
  - intros i g v r0 Hv [[<- <-]|[_ Hi]]%lookup_insert_Some; [rewrite Hg|]; by eapply Hb.
  - intros i r0 [[<- <-]|[_ Hi]]%lookup_insert_Some Hf; [|by apply Hc].
    destruct (Hc id r Hs) as (v & Hv & Hrv); [congruence|]. exists v. rewrite Hg. auto.
Qed.

Lemma history_delete (services : gmap Uuid ServiceRow) (owned : Uuid → Prop) (m : Revisions) (id : Uuid) : history_wf services owned m → history_wf (delete id services) owned m.
Proof. intros [Hr Ho Hb Hc Hp]. constructor; eauto; intros *; rewrite lookup_delete_Some; naive_solver. Qed.

(** ** In the database *)

Definition owned_in (db : Db) (id : Uuid) : Prop := is_Some (service_quota_owners db !! id).

Definition revisions_wf (db : Db) : Prop :=
  history_wf (service_instances db) (owned_in db) (revision_rows db).

(** What leaves services alone. *)
Record rev_frame (db db' : Db) : Prop := {
  rf_services : service_instances db' = service_instances db;
  rf_owners : service_quota_owners db' = service_quota_owners db;
  rf_history : history_le (revision_rows db) (revision_rows db');
}.

#[export] Instance rev_frame_preorder : PreOrder rev_frame.
Proof. split; [done|]. intros a b c [] []. constructor; [congruence.. | by etrans]. Qed.

Lemma rev_frame_same db db' :
  service_instances db' = service_instances db → service_quota_owners db' = service_quota_owners db →
  flash_service_revisions (flash db') = flash_service_revisions (flash db) → rev_frame db db'.
Proof. intros Hs Ho Hr. constructor; [done.. |]. unfold revision_rows. by rewrite Hr. Qed.

Lemma rev_frame_alter f k db :
  (∀ v, revision_le v (f v)) → (∀ v, revision_ready_at (f v) = revision_ready_at v) →
  rev_frame db (set_flash (set_revisions (alter f k (flash_service_revisions (flash db))) (flash db)) db).
Proof. intros Hf Hr. constructor; [done.. |]. by apply history_alter. Qed.

Lemma insert_event_rev t id b : keeps rev_frame (insert_event t id b).
Proof.
  unfold insert_event. frame; [by apply rev_frame_same|]. constructor; [done.. |]. unfold revision_rows. simpl.
  unfold capture_flash_revision_actor. repeat case_match; try done. by apply history_alter.
Qed.

Lemma cascade_cloud_rev l db : rev_frame db (foldr cascade_cloud db l).
Proof. induction l as [|org l IH]; [done|]. etrans; [exact IH|]. by apply rev_frame_same. Qed.

Lemma record_diagnostics_rev i l : keeps rev_frame (record_diagnostics i l).
Proof.
  induction l as [|[[code severity] message] l IH]; simpl; frame; [|apply IH].
  unfold upsert_notice, on_flash. frame; by apply rev_frame_same.
Qed.

Lemma set_rolled_back_le v : revision_le v (set_rolled_back v).
Proof.
  constructor; try done. unfold phase_ok. simpl. destruct (revision_ready_at v); [done|].
  split; [done | by intros []].
Qed.

Lemma start_activation_le t v : revision_le v (start_activation t v).
Proof. done. Qed.

Ltac rev_leaf := idtac;
  lazymatch goal with
  | |- rev_frame _ _ =>
      first [ apply cascade_cloud_rev | by apply rev_frame_same
            | apply rev_frame_alter; intros; [apply set_rolled_back_le || apply start_activation_le | done] ]
  | |- keeps _ (record_diagnostics _ _) => apply record_diagnostics_rev
  end.
Ltac rev_le := quiet_with rev_leaf insert_event_rev.
Ltac rev_run :=
  match goal with Hr : ?t _ = Ok _ |- _ =>
    let Hk := fresh in enough (Hk : keeps rev_frame t) by (by eapply Hk) end; rev_le.
Ltac rev_then :=
  match goal with Hr : and_then _ _ _ = _ |- _ => eapply (keeps_and_then rev_frame); [|exact Hr]; rev_le end.

Section Requests.
Context `{LimitsDecoder, Serde FlowSpec, Serde FlashSpec, Serde SyouyuSpec, Serde VpcSpec}.
Context `{IpNetLib, UrlLib, JsonText, UuidText, SqlCast, TimeText, SqlText, SqlCollation, Serde PolicyDocument}.

Lemma access_request_rev db db' : access_request db db' → rev_frame db db'.
Proof. destruct 1; [eapply (keeps_and_then rev_frame); [|eassumption]; rev_le | ..]; rev_run. Qed.

Lemma cloud_step_rev db db' : cloud_step db db' → rev_frame db db'.
Proof.
  destruct 1 as [??? [? Hr] | ?? [? Hr] | ??? [? Hr] | ??? [? Hr] | ??? [? Hr]
    | ????? [? Hr] | ??? [? Hr] | ????? [? Hr] | ??? [? Hr]]; rev_run.
Qed.

Lemma flow_request_rev db db' : flow_request db db' → rev_frame db db'.
Proof. destruct 1; rev_run. Qed.

Lemma exchange_rev code prefix hash expires : keeps rev_frame (exchange_cli_device_authorization code prefix hash expires).
Proof.
  intros db o db' Hrun%exchange_ok. destruct o; try (by destruct Hrun as [_ ->]).
  - destruct Hrun as (id & d & _ & _ & _ & ->). by apply rev_frame_same.
  - destruct Hrun as (_ & id & d & _ & _ & _ & _ & _ & _ & _ & _ & _ & ->). by apply rev_frame_same.
Qed.

Lemma identity_request_rev db db' : identity_request db db' → rev_frame db db'.
Proof.
  destruct 1; try (by eapply exchange_rev); try rev_run.
  - unfold bootstrap_admin in *. repeat case_match; simplify_eq; [done | rev_then | done].
  - unfold register_with_invitation in *. rev_then.
  - unfold find_or_create_oidc_user in *. case_match; simplify_eq; [done | rev_then].
  - unfold session_user_by_token_hash in *. repeat case_match; simplify_eq; by apply rev_frame_same.
  - unfold authenticate_cli_access_token in *. repeat case_match; simplify_eq; by apply rev_frame_same.
Qed.

Lemma flash_request_rev db db' : flash_request db db' → rev_frame db db'.
Proof. destruct 1; rev_run. Qed.

End Requests.

(** ** Operations on services *)

Definition revisions_stay (m m' : Revisions) : Prop :=
  ∀ k v, m !! k = Some v → ∃ v', m' !! k = Some v' ∧ revision_le v v'.

Definition verified (k : Uuid * Z) (m : Revisions) : Prop :=
  ∃ v, m !! k = Some v ∧ is_Some (revision_ready_at v).

(** The application was seen running at this generation. *)
Definition seen_running `{SqlCast} (k : Uuid * Z) (db : Db) : Prop :=
  ∃ r, service_instances db !! fst k = Some r ∧ generation r = snd k ∧ revision_healthy r = Ok true.

Record rev_step `{SqlCast} (db db' : Db) : Prop := {
  rs_stay : revisions_stay (revision_rows db) (revision_rows db');
  rs_wf : revisions_wf db → revisions_wf db';
  rs_verified k : verified k (revision_rows db') → verified k (revision_rows db) ∨ seen_running k db';
}.

Lemma stay_trans a b c : revisions_stay a b → revisions_stay b c → revisions_stay a c.
Proof.
  intros S1 S2 k v Hv. destruct (S1 _ _ Hv) as (v1 & Hv1 & L1). destruct (S2 _ _ Hv1) as (v2 & Hv2 & L2).
  exists v2. split; [done | by etrans].
Qed.

Lemma rev_frame_stay db db' : rev_frame db db' → revisions_stay (revision_rows db) (revision_rows db').
Proof. intros [_ _ [Hh _]] k v Hv. destruct (Hh _ _ Hv) as (v' & ? & ? & _). eauto. Qed.

Lemma rev_frame_wf db db' : rev_frame db db' → revisions_wf db → revisions_wf db'.
Proof. intros [Hs Ho Hh]. unfold revisions_wf, owned_in. rewrite Hs, Ho. intros Hwf. by eapply history_wf_le. Qed.

Lemma rev_frame_verified db db' k : rev_frame db db' → verified k (revision_rows db') → verified k (revision_rows db).
Proof.
  intros [_ _ Hh] (v' & Hv' & Hr). destruct (history_back _ _ Hh _ _ Hv') as (v & Hv & _ & E).
  exists v. split; [done | by rewrite <- E].
Qed.

Lemma rev_frame_step `{SqlCast} db db' : rev_frame db db' → rev_step db db'.
Proof.
  intros Hf. constructor; [by apply rev_frame_stay | by apply rev_frame_wf | left; by eapply rev_frame_verified].
Qed.

Lemma rev_step_refl `{SqlCast} db : rev_step db db.
Proof. by apply rev_frame_step. Qed.

(** Statements about other things before and after do not matter. *)
Lemma rev_step_frames `{SqlCast} a b c d : rev_frame a b → rev_step b c → rev_frame c d → rev_step a d.
Proof.
  intros F1 [S W V] F2. constructor.
  - eapply stay_trans; [by apply rev_frame_stay|]. eapply stay_trans; [done | by apply rev_frame_stay].
  - intros Hwf. eapply rev_frame_wf; [done|]. eapply W, rev_frame_wf; done.
  - intros k Hk%(rev_frame_verified _ _ _ F2). destruct (V _ Hk) as [Hv|Hv]; [left; by eapply rev_frame_verified|].
    right. unfold seen_running. by rewrite (rf_services _ _ F2).
Qed.

Lemma record_stays healthy t id r m : revisions_stay m (record healthy t id r m).
Proof.
  intros k v Hv. unfold record. destruct (has_provider "flash" r); [|by exists v].
  destruct (decide (k = (id, generation r))) as [->|Hne]; [|exists v; by rewrite lookup_insert_ne].
  rewrite lookup_insert_eq, Hv. eexists. split; [done | apply captured_le].
Qed.

Lemma put_service_rev `{SqlCast} id r db u db' :
  put_service id r db = Ok (u, db') →
  ∃ healthy, service_instances db' = <[id := r]> (service_instances db) ∧
    service_quota_owners db' = service_quota_owners db ∧
    revision_rows db' = record healthy (now db) id r (revision_rows db) ∧
    (healthy = true → revision_healthy r = Ok true).
Proof.
  unfold put_service, capture_flash_revision, record. intros Hrun. tx_inv Hrun.
  destruct (has_provider "flash" r); tx_inv Hrun; subst.
  - match goal with Hh : revision_healthy r = Ok ?b |- _ => exists b end. split_and!; try done. by intros ->.
  - by exists false.
Qed.

Lemma record_verified `{SqlCast} healthy t id r m db k :
  service_instances db = <[id := r]> (service_instances db) → (healthy = true → revision_healthy r = Ok true) →
  verified k (record healthy t id r m) → verified k m ∨ seen_running k db.
Proof.
  intros Hs Hh (v & [Hv|[-> ->]]%record_lookup & Hr); [left; by exists v|].
  destruct (m !! (id, generation r)) as [w|] eqn:E; simpl in Hr.
  - destruct (revision_ready_at w) eqn:Ew; [left; exists w; by rewrite Ew|].
    destruct healthy; [|by destruct Hr]. right. exists r. rewrite Hs, lookup_insert_eq. auto.
  - destruct healthy; [|by destruct Hr]. right. exists r. rewrite Hs, lookup_insert_eq. auto.
Qed.

Lemma write_service_put `{SqlCast} id r db u db' : write_service id r db = Ok (u, db') → put_service id r db = Ok (u, db').
Proof. unfold write_service. intros Hrun. by tx_inv Hrun. Qed.

(** A row that is written as the triggers want it. *)
Lemma put_rev `{SqlCast} id r db u db' :
  (∀ healthy, revisions_wf db →
     history_wf (<[id := r]> (service_instances db)) (owned_in db) (record healthy (now db) id r (revision_rows db))) →
  put_service id r db = Ok (u, db') → rev_step db db'.
Proof.
  intros Hwf Hp. apply put_service_rev in Hp as (healthy & Hs & Ho & Hv & Hh). constructor.
  - rewrite Hv. apply record_stays.
  - unfold revisions_wf at 2, owned_in. rewrite Hs, Ho, Hv. apply Hwf.
  - intros k. rewrite Hv. apply record_verified; [|done]. by rewrite Hs, insert_insert_eq.
Qed.

(** The next generation of a service, between statements about other things. *)
Lemma next_rev `{SqlCast} db0 db db1 db2 id r r' u :
  rev_frame db0 db → write_service id r' db = Ok (u, db1) → rev_frame db1 db2 →
  service_instances db0 !! id = Some r → generation r < generation r' → rev_step db0 db2.
Proof.
  intros Hf Hw Hf2 Hr Hg. eapply rev_step_frames; [done | | done]. eapply put_rev; [|by apply write_service_put].
  intros healthy Hwf. eapply history_next; [done | by rewrite (rf_services _ _ Hf) | done].
Qed.

Lemma reported_rev `{SqlCast} db db1 id r s v u :
  service_instances db !! id = Some r → put_service id (set_reported s v r) db = Ok (u, db1) → rev_step db db1.
Proof.
  intros Hr. apply put_rev. intros healthy Hwf. by eapply history_same.
Qed.

(** The frame of a statement that was run. *)
Ltac frame_of Hr F :=
  match type of Hr with ?t ?d = Ok (_, ?d') =>
    assert (F : rev_frame d d') by (let Hk := fresh in enough (Hk : keeps rev_frame t) by (by eapply Hk); rev_le) end.

Section Services.
Context `{LimitsDecoder, Serde FlowSpec, Serde FlashSpec, Serde SyouyuSpec, Serde VpcSpec}.
Context `{IpNetLib, UrlLib, JsonText, UuidText, SqlCast}.

(** A service is charged to a member; its revisions stay. *)
Lemma assigned_rev org id r user db :
  service_instances db !! id = Some r →
  rev_step db (set_quota_owners (alter (assign_owner org user) id (service_quota_owners db))
    (set_services (<[id := set_quota_user user r]> (service_instances db)) db)).
Proof.
  intros Hr. constructor; [by intros k v Hv; exists v | | by left].
  intros Hwf. eapply history_row; [exact Hwf | exact Hr | | done | done | done].
  intros i [o Hi]. unfold owned_in. simpl. rewrite lookup_alter_is_Some. by exists o.
Qed.

Lemma assign_rev org resource user b db x db' :
  assign_quota_resource org resource user b db = Ok (x, db') → rev_step db db'.
Proof.
  unfold assign_quota_resource. intros Hrun. tx_inv Hrun. subst. destruct b.
  - apply rev_frame_step. rev_run.
  - rewrite tx_bind_ok in Hrun. destruct Hrun as (r & d & [Hr ->]%optional_query_ok & Hrun). tx_inv Hrun. subst.
    match goal with Hv : enqueue_flash_quota_reconcile_tx _ _ = _ |- _ => frame_of Hv F end.
    eapply rev_step_frames; [reflexivity | apply assigned_rev | exact F].
    destruct (service_instances db !! resource); [|done]. simpl in Hr. by destruct (unassigned_service _ _); simplify_eq.
Qed.

Lemma admin_request_rev db db' : admin_request db db' → rev_step db db'.
Proof. destruct 1; try (by eapply assign_rev); apply rev_frame_step; rev_run. Qed.

Lemma update_rev org id prov principal project new_name v g db i db' :
  update_service_instance_checked org id prov principal project new_name v g db = Ok (i, db') → rev_step db db'.
Proof.
  unfold update_service_instance_checked. intros H'. tx_inv H'. subst.
  match goal with Hf : optional _ _ _ = _ |- _ =>
    apply optional_ok, find_service_some in Hf as (-> & Hr & _) end.
  match goal with Hg : next_generation _ = Ok _ |- _ => apply next_generation_ok in Hg end.
  match goal with Hv : (if _ then mbind _ _ else mret ()) _ = _ |- _ => frame_of Hv F1 end.
  match goal with Hv : (if _ then revoke_workload_tokens _ else mret ()) _ = _ |- _ => frame_of Hv F2 end.
  match goal with Hv : (if _ then replace_flash_gpu_service_request _ _ _ _ else mret ()) _ = _ |- _ => frame_of Hv F3 end.
  match goal with Hv : insert_outbox _ _ _ _ = _ |- _ => frame_of Hv F4 end.
  eapply (next_rev _ _ _ _ id); [etrans; eassumption | eassumption | etrans; eassumption | exact Hr | simpl; lia].
Qed.

Lemma stopped_rev org id principal stop db i db' :
  set_flash_service_stopped org id principal stop db = Ok (i, db') → rev_step db db'.
Proof.
  unfold set_flash_service_stopped. intros H'. tx_inv H'. subst.
  match goal with Hf : optional _ _ _ = _ |- _ =>
    apply optional_ok, find_service_some in Hf as (-> & Hr & _) end.
  match type of H' with (if ?b then _ else _) _ = _ => destruct b end; [tx_inv H'; apply rev_step_refl|].
  tx_inv H'. subst.
  match goal with Hg : next_generation _ = Ok _ |- _ => apply next_generation_ok in Hg end.
  match goal with Hv : (if stop then mret _ else mbind _ _) _ = _ |- _ => frame_of Hv F1 end.
  match goal with Hv : (if stop then revoke_workload_tokens _ else mret ()) _ = _ |- _ => frame_of Hv F2 end.
  match goal with Hv : (if stop then mret () else replace_flash_gpu_service_request _ _ _ _) _ = _ |- _ => frame_of Hv F3 end.
  match goal with Hv : insert_outbox _ _ _ _ = _ |- _ => frame_of Hv F4 end.
  eapply (next_rev _ _ _ _ id); [etrans; eassumption | eassumption | etrans; eassumption | exact Hr | simpl; lia].
Qed.

Lemma delete_rev org id prov principal db i db' :
  begin_delete_service_instance org id prov principal db = Ok (i, db') → rev_step db db'.
Proof.
  unfold begin_delete_service_instance. intros H'. tx_inv H'. subst.
  match goal with Hf : optional _ _ _ = _ |- _ =>
    apply optional_ok, find_service_some in Hf as (-> & Hr & _) end.
  match type of H' with (if ?b then _ else _) _ = _ => destruct b end; [tx_inv H'; apply rev_step_refl|].
  tx_inv H'. subst.
  match goal with Hg : next_generation _ = Ok _ |- _ => apply next_generation_ok in Hg end.
  match goal with Hv : insert_outbox _ _ _ _ = _ |- _ => frame_of Hv F4 end.
  eapply (next_rev db); [done | eassumption | eassumption | exact Hr | simpl; lia].
Qed.

Lemma create_rev org project principal prov new_name v id user db i db' :
  create_service_instance_with_id_for_user org project principal prov new_name v id user db = Ok (i, db') →
  rev_step db db'.
Proof.
  unfold create_service_instance_with_id_for_user. rewrite tx_bind_ok.
  intros (existing & db1 & [-> Hex]%find_service_ok & H').
  destruct existing as [r|]; [tx_inv H'; apply rev_step_refl|].
  rewrite tx_bind_ok in H'. destruct H' as (u & db1 & [-> _]%charge_to_ok & H').
  tx_inv H'. subst.
  match goal with Hv : (if _ then read _ else mret ()) _ = _ |- _ => frame_of Hv F1 end.
  match goal with Hv : (if _ then replace_flash_gpu_service_request _ _ _ _ else mret ()) _ = _ |- _ => frame_of Hv F3 end.
  match goal with Hv : insert_outbox _ _ _ _ = _ |- _ => frame_of Hv F4 end.
  eapply rev_step_frames; [exact F1 | | etrans; [exact F3 | exact F4]].
  match goal with Hw : write_service _ _ _ = _ |- _ =>
    apply write_service_put, put_service_rev in Hw as (healthy & Hs' & Ho & Hv & Hh) end.
  match goal with Hq : insert_quota_owner _ _ _ _ = _ |- _ =>
    unfold insert_quota_owner in Hq; tx_inv Hq; subst end.
  constructor; unfold revisions_wf, owned_in, revision_rows in *; simpl; rewrite ?Hv, ?Hs', ?Ho; [apply record_stays | |].
  - intros Hwf. eapply history_new; [done | | |].
    + intros Hown. rewrite Ho in *. destruct Hown as [? Hown]. by rewrite Hown in *.
    + intros j [o Hj]. destruct (decide (j = id)) as [->|Hne]; [by rewrite lookup_insert_eq|]. by rewrite lookup_insert_ne, Hj.
    + by rewrite lookup_insert_eq.
  - intros k. apply record_verified; [|done]. simpl. by rewrite Hs', insert_insert_eq.
Qed.

Lemma observe_rev i v db u db' : record_flash_observation i v db = Ok (u, db') → rev_step db db'.
Proof.
  unfold record_flash_observation. destruct (negb _); [intros Hrun; tx_inv Hrun; apply rev_step_refl|].
  rewrite tx_bind_ok. intros (found & d & [= <- <-] & Hrun).
  destruct (report_row _ _ _ _) as [r|] eqn:Hr; simpl in Hrun; [|tx_inv Hrun; apply rev_step_refl].
  destruct (in_org _ r && not_deleting r); [|tx_inv Hrun; apply rev_step_refl].
  apply report_row_some in Hr as (Hr & _).
  rewrite tx_bind_ok in Hrun. destruct Hrun as (? & d1 & Hp & Hrun).
  frame_of Hrun F. eapply rev_step_frames; [done | by eapply reported_rev | done].
Qed.
End Services.

(** ** Steps of workers *)

Lemma mark_rev `{UuidText, SqlCast} s id prov g op st : keeps rev_step (mark_service_instance s id prov g op st).
Proof.
  intros db x db' Hrun. unfold mark_service_instance in Hrun. tx_inv Hrun.
  destruct (report_row id prov g db) as [r|] eqn:Hr; subst; tx_inv Hrun; subst; [|apply rev_step_refl].
  apply report_row_some in Hr as (Hr & _). by eapply reported_rev.
Qed.

Lemma complete_delete_rev `{SqlCast} id prov g : keeps rev_step (complete_delete_service_instance id prov g).
Proof.
  intros db x db' Hrun. unfold complete_delete_service_instance in Hrun.
  repeat case_match; simplify_eq; [|apply rev_step_refl..]. constructor; [intros k v Hv; by exists v | | by left].
  intros Hwf. by apply history_delete.
Qed.

Lemma deliver_finish_rev `{JsonParser, UuidText, SqlCast} e p r db x db' :
  deliver_finish e p r db = (x, db') → rev_step db db'.
Proof.
  unfold deliver_finish, require_current. cbv zeta. intros Hrun.
  assert (Hstore : ∀ {A} (t : tx A) y d, keeps rev_step t → run_store t db = (y, d) → rev_step db d).
  { intros A t y d Ht. unfold run_store. destruct (t db) as [[a d1]|] eqn:E; intros [= _ <-]; [by eapply Ht | apply rev_step_refl]. }
  repeat case_match; simplify_eq; try apply rev_step_refl;
    match goal with Hr : run_store _ _ = _ |- _ => eapply Hstore; [|exact Hr] end;
    apply complete_delete_rev || apply mark_rev.
Qed.

(** ** The program *)

Section Program.
Context `{LimitsDecoder, Serde FlowSpec, Serde FlashSpec, Serde SyouyuSpec, Serde VpcSpec}.
Context `{IpNetLib, UrlLib, JsonText, UuidText, SqlCast, TimeText, SqlText, SqlCollation, Serde PolicyDocument, JsonParser} (vpc_configured : bool).

Abbreviation step := (program_step vpc_configured).

Lemma api_step_rev db db' : api_step db db' → rev_step db db'.
Proof.
  intros Hstep. destruct Hstep; try (by apply admin_request_rev); [by eapply create_rev | by eapply update_rev | by eapply stopped_rev | by eapply delete_rev
    | by eapply observe_rev | apply rev_frame_step..].
  all: first [ by apply flow_request_rev | by apply cloud_step_rev | by apply identity_request_rev
             | by apply access_request_rev | by apply flash_request_rev | rev_run ].
Qed.

Lemma program_step_rev s s' : step s s' → rev_step (database s) (database s').
Proof.
  intros [db' Ha ->|t Ht ->|[]]; subst; simpl; try apply rev_step_refl; [by apply api_step_rev | ..].
  - by apply rev_frame_step, rev_frame_same.
  - apply rev_frame_step. unfold claim_outbox_event in *. repeat case_match; simplify_eq; by apply rev_frame_same.
  - by eapply deliver_finish_rev.
  - apply rev_frame_step. unfold settle, mark_outbox_delivered, retry_outbox_event in *.
    repeat case_match; simplify_eq; by apply rev_frame_same.
Qed.

Lemma program_stay s s' : rtc step s s' → revisions_stay (revision_rows (database s)) (revision_rows (database s')).
Proof.
  induction 1; [intros k v Hv; by exists v|]. eapply stay_trans; [by apply rs_stay, program_step_rev | done].
Qed.

Lemma started_revisions s : started vpc_configured s → revisions_wf (database s).
Proof.
  intros (s0 & (Hs & _ & _) & Hf & Hsteps).
  assert (Hwf : revisions_wf (database s0)).
  { unfold revisions_wf, revision_rows. rewrite Hs, Hf. constructor; simpl; intros *; by intros ?%lookup_empty_Some. }
  clear Hs Hf. induction Hsteps; [done|]. apply IHHsteps. by eapply rs_wf; [apply program_step_rev|].
Qed.

(** Revisions record what was asked for.  Whatever a Flash service was asked
    to be at some point of an execution, then from that point on the revision of
    that generation records exactly this project, name and configuration - no
    later change, report, roll-back or deletion alters it - and no revision is
    newer than the service.  A revision has the phase [ready] exactly if it was
    verified, and once verified it stays so. *)
Lemma revision_records_generation s s' id r :
  started vpc_configured s → rtc step s s' → service_instances (database s) !! id = Some r → provider r = "flash" →
  (∃ v, revision_rows (database s') !! (id, generation r) = Some v ∧ records r v ∧
     (revision_phase v = "ready" ↔ is_Some (revision_ready_at v)) ∧
     (verified (id, generation r) (revision_rows (database s)) → is_Some (revision_ready_at v))) ∧
  (∀ g v, revision_rows (database s) !! (id, g) = Some v → g ≤ generation r).
Proof.
  intros Hs Hsteps Hr Hf. pose proof (started_revisions _ Hs) as [_ _ Hb Hc Hp]. split.
  - destruct (Hc _ _ Hr Hf) as (v & Hv & Hrec). destruct (program_stay _ _ Hsteps _ _ Hv) as (v' & Hv' & L).
    exists v'. split_and!; [done | by eapply records_le | apply L; by eapply Hp |].
    intros (w & Hw & Hready). simplify_eq. by rewrite (rl_ready _ _ L).
  - intros g v Hv. by eapply Hb.
Qed.

(** The application was seen running: the report is about this generation and
    counts a ready replica, and the service is not stopped. *)
Lemma revision_healthy_true r :
  revision_healthy r = Ok true →
  let runtime := default (status r) (get "status" (status r)) in
  state r = Ready ∧ cast_text to_bigint (get "observed_generation" runtime) = Ok (Some (generation r)) ∧
  (∃ n, cast_text to_integer (get "ready_replicas" runtime) = Ok (Some n) ∧ 0 < n) ∧
  (∃ stop, cast_text to_boolean (get "stopped" (spec r)) = Ok stop ∧ stop ≠ Some true).
Proof.
  unfold revision_healthy. case_bool_decide; [simpl|done].
  intros (observed & Ho & Hrun)%bind_ok. case_bool_decide; [simpl in Hrun; subst|done].
  apply bind_ok in Hrun as (replicas & Hr & Hrun). destruct (0 <? default 0 replicas) eqn:En; [|done].
  apply bind_ok in Hrun as (stop & Hs & [= Hstop]). split_and!; [done.. | |].
  - destruct replicas as [n|]; [exists n; simpl in En; split; [done | lia] | done].
  - exists stop. split; [done|]. intros ->. done.
Qed.

(** A revision is verified only by what was seen running.  When a step of the
    program makes a revision a target for roll-backs, then the service is at that
    very generation, is ready, and the last report about it says that this
    generation was observed with at least one ready replica while the service
    was not stopped. *)
Lemma revision_verified_by_report s s' k :
  step s s' → ¬ verified k (revision_rows (database s)) → verified k (revision_rows (database s')) →
  ∃ r, service_instances (database s') !! fst k = Some r ∧ generation r = snd k ∧ state r = Ready ∧
    let runtime := default (status r) (get "status" (status r)) in
    cast_text to_bigint (get "observed_generation" runtime) = Ok (Some (generation r)) ∧
    (∃ n, cast_text to_integer (get "ready_replicas" runtime) = Ok (Some n) ∧ 0 < n) ∧
    (∃ stop, cast_text to_boolean (get "stopped" (spec r)) = Ok stop ∧ stop ≠ Some true).
Proof.
  intros Hstep Hno Hv. destruct (rs_verified _ _ (program_step_rev _ _ Hstep) _ Hv) as [|(r & Hr & Hg & Hh)]; [done|].
  exists r. split_and!; [done | done | ..]; by apply revision_healthy_true.
Qed.

End Program.
