(* ===== verification/OidcFacts.v ===== *)
(** * What a login with OpenID Connect guarantees

    Who signs in was named by a token of the provider for this very login, secrets
    are sent to the provider only, and the cookie of a login is the one that was
    issued for it. *)
From S2P Require Import Prelude Text Json Net Policy Iam RoleTrust Quota Specs Flash Store Usage Provider Prepare Services FlowAccess Cloud Identity Access Admin FlashStore Authorize IdentityCenter Routes AccountRoutes SessionRoutes FlowRoutes Worker Oidc Lifecycle CloudFacts IdentityFacts AccessFacts ApiFacts AdminFacts SessionApi.

(** ** Calls over the network *)

Lemma net_cases {A B} (m : net A) (f : A → net B) w x w' :
  (m ≫= f) w = (x, w') →
  (∃ e, m w = (Err e, w') ∧ x = Err e) ∨ ∃ a w1, m w = (Ok a, w1) ∧ f a w1 = (x, w').
Proof.
  unfold mbind, net_bind. destruct (m w) as [[a|e] w1]; [by right; exists a, w1 |].
  intros [= <- <-]. left. by exists e.
Qed.

Lemma net_ok {A B} (m : net A) (f : A → net B) w b w' :
  (m ≫= f) w = (Ok b, w') → ∃ a w1, m w = (Ok a, w1) ∧ f a w1 = (Ok b, w').
Proof. by intros [(e & _ & [=])|H]%net_cases. Qed.

Lemma pure_ok {A} (m : result OidcError A) w a w' : pure_net m w = (Ok a, w') → m = Ok a ∧ w' = w.
Proof. by intros [= -> ->]. Qed.

Lemma pure_world {A} (m : result OidcError A) w x w' : pure_net m w = (x, w') → w' = w.
Proof. by intros [= _ ->]. Qed.

(** What sends nothing and takes no time. *)
Definition silent {A} (m : net A) : Prop := ∀ w x w', m w = (x, w') → w' = w.

Lemma silent_pure {A} (m : result OidcError A) : silent (pure_net m).
Proof. intros w x w'. apply pure_world. Qed.

Lemma silent_bind {A B} (m : net A) (f : A → net B) : silent m → (∀ a, silent (f a)) → silent (m ≫= f).
Proof. intros Hm Hf w x w' [(e & ->%Hm & _)|(a & w1 & ->%Hm & Hr)]%net_cases; [done | by eapply Hf]. Qed.

Lemma unix_timestamp_ok w t w' : unix_timestamp w = (Ok t, w') → 0 ≤ clock w ∧ t = clock w / 1000 ∧ w' = w.
Proof. unfold unix_timestamp. destruct (clock w <? 0) eqn:E; intros [= <- <-]. apply Z.ltb_ge in E. done. Qed.

(** Steps that must have succeeded, one after the other. *)
Ltac net_step H :=
  let a := fresh "a" in let w := fresh "w" in let Hm := fresh "Hm" in
  apply net_ok in H as (a & w & Hm & H); cbv beta in H;
  lazymatch type of Hm with
  | pure_net _ _ = _ => apply pure_ok in Hm as [Hm ->]
  | unix_timestamp _ = _ => apply unix_timestamp_ok in Hm as (Hm & -> & ->)
  | _ => idtac
  end;
  first [ apply fail_if_ok in Hm | apply ok_or_ok in Hm | idtac ].

(** What is sent, and how long it takes. *)
Definition exchanged (w : World) (l : list HttpRequest) (w' : World) : Prop := sent w' = sent w ++ l ∧ clock w ≤ clock w'.

Lemma exchanged_nil w : exchanged w [] w.
Proof. split; [by rewrite app_nil_r | done]. Qed.

Lemma exchanged_app w l w1 k w2 : exchanged w l w1 → exchanged w1 k w2 → exchanged w (l ++ k) w2.
Proof. intros [Hl ?] [Hk ?]. split; [by rewrite Hk, Hl, app_assoc | lia]. Qed.

Section Gets.
Context {A : Type} `{FromSlice A}.
Context (url : Url) (limit : Z).

Lemma send_exchanged r w t reply w1 : send r w = (t, reply, w1) → 0 ≤ t ∧ sent w1 = sent w ++ [r] ∧ clock w1 = clock w.
Proof. unfold send. destruct (replies w) as [|[s m] l]; intros [= <- <- <-]; simpl; unfold CLIENT_TIMEOUT; split_and!; done || lia. Qed.

(** A body that was read is within the limit. *)
Lemma read_chunks_bound body l b :
  Z.of_nat (length body) ≤ limit → read_chunks limit body l = Ok b → Z.of_nat (length b) ≤ limit.
Proof.
  revert body. induction l as [|[c|e] l IH]; simpl; intros body Hb; [by intros [= <-] | | done].
  destruct (Z.ltb_spec limit (Z.of_nat (length body) + Z.of_nat (length c))) as [|Hc]; [done|].
  apply IH. rewrite length_app. lia.
Qed.

Lemma bounded_json_ok r (a : A) :
  0 ≤ limit → bounded_json limit r = Ok a → ∃ body, Z.of_nat (length body) ≤ limit ∧ from_slice body = Some a.
Proof.
  intros Hl (u & _ & (body & Hb & Ha%ok_or_ok)%bind_ok)%bind_ok. exists body. split; [|done].
  by eapply read_chunks_bound in Hb.
Qed.

(** A reply that succeeded delivers a value: its chunks are the text of it. *)
Definition delivers (r : HttpResponse) (a : A) : Prop :=
  is_success (response_status r) = true ∧
  ∃ chunks, response_chunks r = Ok <$> chunks ∧ Z.of_nat (length (concat chunks)) ≤ limit ∧ from_slice (concat chunks) = Some a.

Lemma read_chunks_all body l b : read_chunks limit body l = Ok b → ∃ chunks, l = Ok <$> chunks ∧ b = body ++ concat chunks.
Proof.
  revert body. induction l as [|[c|e] l IH]; simpl; intros body; [| |done].
  - intros [= <-]. exists []. by rewrite app_nil_r.
  - destruct (limit <? _); [done|]. intros (chunks & -> & ->)%IH. exists (c :: chunks). by rewrite <- app_assoc.
Qed.

Lemma bounded_json_delivers r (a : A) :
  0 ≤ limit → is_success (response_status r) = true → bounded_json limit r = Ok a → delivers r a.
Proof.
  intros Hl Hs (u & _ & (body & Hb & Ha%ok_or_ok)%bind_ok)%bind_ok. split; [done|].
  pose proof (read_chunks_bound [] _ _ Hl Hb) as Hlen. apply read_chunks_all in Hb as (chunks & Hc & ->). by exists chunks.
Qed.

Lemma get_attempt_ok d w (a : A) w' :
  0 ≤ limit → get_attempt url limit d w = (Ok a, w') →
  ∃ t r, replies w = (t, Ok r) :: replies w' ∧ sent w' = sent w ++ [GetRequest url] ∧ delivers r a.
Proof.
  unfold get_attempt, send. intros Hl. destruct (replies w) as [|[t reply] l]; [by destruct (d <? _)|].
  destruct (d <? _); [done|]. intros [= Hr <-]. apply bind_ok in Hr as (r & ->%map_err_ok & Hr).
  apply guard_ok in Hr as [Hs%negb_false_iff Hr]. exists t, r. split_and!; [done | done | by apply bounded_json_delivers].
Qed.

Lemma get_attempt_reply d w (x : result OidcFailure A) w' :
  get_attempt url limit d w = (x, w') → replies w = [] ∧ replies w' = [] ∨ ∃ e, replies w = e :: replies w'.
Proof.
  unfold get_attempt, send. destruct (replies w) as [|[t reply] l].
  - destruct (d <? _); intros [= _ <-]; by left.
  - destruct (d <? _); intros [= _ <-]; right; by eexists.
Qed.

Lemma get_attempt_does d w (x : result OidcFailure A) w' :
  get_attempt url limit d w = (x, w') →
  exchanged w [GetRequest url] w' ∧ clock w' ≤ Z.max (clock w) d ∧
  (0 ≤ limit → ∀ a, x = Ok a → ∃ body, Z.of_nat (length body) ≤ limit ∧ from_slice body = Some a).
Proof.
  unfold get_attempt. destruct (send (GetRequest url) w) as [[t reply] w1] eqn:Hs.
  apply send_exchanged in Hs as (Ht & Hs & Hc). destruct (Z.ltb_spec d (clock w + t)); intros [= <- <-]; simpl.
  - split_and!; [split; simpl; [done | lia] | lia | done].
  - split_and!; [split; simpl; [done | lia] | lia |].
    intros Hl a (r & _ & (u & _ & Ha)%bind_ok)%bind_ok. by eapply bounded_json_ok.
Qed.

(** What is got is the reply to the last request. *)
Lemma get_loop_ok policy chance deadline attempts w (a : A) w' :
  0 ≤ limit → get_loop url limit policy chance deadline attempts w = (Ok a, w') →
  ∃ skipped t r, (length skipped < length attempts)%nat ∧
    sent w' = sent w ++ repeat (GetRequest url) (S (length skipped)) ∧
    replies w = skipped ++ (t, Ok r) :: replies w' ∧ delivers r a.
Proof.
  intros Hl. revert w. induction attempts as [|k attempts IH]; [done|]. simpl. intros w.
  destruct (get_attempt url limit _ w) as [[b|f] w1] eqn:Ha.
  { intros [= <- <-]. apply get_attempt_ok in Ha as (t & r & Hr & Hs & Hd); [|done]. exists [], t, r. split_and!; simpl; done || lia. }
  destruct (_ || _); [done|]. destruct (deadline <=? _); [done|]. simpl. destruct (deadline <=? _); [done|].
  intros (skipped & t & r & Hlen & Hs & Hr & Hd)%IH. simpl in Hs, Hr.
  pose proof (get_attempt_does _ _ _ _ Ha) as ([Hs1 _] & _). apply get_attempt_reply in Ha as [[_ Hn]|[e He]].
  { rewrite Hn in Hr. by destruct skipped. }
  exists (e :: skipped), t, r. split_and!; [simpl; lia | | by rewrite He, Hr | done].
  by rewrite Hs, Hs1, <- app_assoc.
Qed.

(** The loop sends at most one request per attempt, and ends at its deadline. *)
Lemma get_loop_does policy chance deadline attempts w (x : result OidcError A) w' :
  0 ≤ limit → 0 ≤ policy_backoff policy → 0 ≤ policy_jitter policy → clock w ≤ deadline →
  get_loop url limit policy chance deadline attempts w = (x, w') →
  ∃ n, (n ≤ length attempts)%nat ∧ exchanged w (repeat (GetRequest url) n) w' ∧
    clock w' ≤ deadline + Z.max 0 (chance_late chance) ∧
    (∀ a, x = Ok a → (1 ≤ n)%nat ∧ ∃ body, Z.of_nat (length body) ≤ limit ∧ from_slice body = Some a).
Proof.
  intros Hl Hbo Hj. revert w. induction attempts as [|k attempts IH]; simpl; intros w Hw.
  { intros [= <- <-]. exists 0%nat. split_and!; [done | apply exchanged_nil | lia | done]. }
  destruct (get_attempt url limit _ w) as [m w1] eqn:Ha. apply get_attempt_does in Ha as (He & Hc & Hok).
  assert (Hone : ∀ e : OidcError, (Err e : result OidcError A, w1) = (x, w') →
    ∃ n, (n ≤ S (length attempts))%nat ∧ exchanged w (repeat (GetRequest url) n) w' ∧
      clock w' ≤ deadline + Z.max 0 (chance_late chance) ∧
      (∀ a, x = Ok a → (1 ≤ n)%nat ∧ ∃ body, Z.of_nat (length body) ≤ limit ∧ from_slice body = Some a)).
  { intros e [= <- <-]. exists 1%nat. split_and!; [lia | done | lia | done]. }
  destruct m as [a|f].
  { intros [= <- <-]. exists 1%nat. split_and!; [lia | done | lia |]. intros b [= <-]. split; [done | by apply Hok]. }
  destruct (negb (failure_retryable f) || (k =? 2)); [by apply Hone|].
  set (retry := clock w1 + policy_backoff policy + chance_uuid chance mod (policy_jitter policy + 1)).
  assert (Hr : clock w1 ≤ retry).
  { pose proof (Z.mod_pos_bound (chance_uuid chance) (policy_jitter policy + 1)). lia. }
  destruct (Z.leb_spec deadline retry) as [|Hd]; [by apply Hone|]. simpl.
  assert (He2 : exchanged w [GetRequest url] (at_time (retry + Z.max 0 (chance_late chance)) w1)).
  { destruct He as [Hs ?]. split; simpl; [done | lia]. }
  destruct (Z.leb_spec deadline (retry + Z.max 0 (chance_late chance))) as [|Hd2].
  { intros [= <- <-]. exists 1%nat. split_and!; [lia | done | simpl; lia | done]. }
  intros Hrun. apply IH in Hrun as (n & Hn & Hx & Hcl & Ho); [|simpl; lia].
  exists (S n). split_and!; [lia | exact (exchanged_app _ [_] _ _ _ He2 Hx) | done |].
  intros a Hxa. destruct (Ho a Hxa) as [_ ?]. split; [lia | done].
Qed.

(** Metadata is asked for at most twice, within ten seconds. *)
Lemma provider_get_does chance w (x : result OidcError A) w' :
  0 ≤ limit → provider_get_json url limit GetPolicy_default chance w = (x, w') →
  ∃ n, (n ≤ 2)%nat ∧ exchanged w (repeat (GetRequest url) n) w' ∧
    clock w' ≤ clock w + 10000 + Z.max 0 (chance_late chance) ∧
    (∀ a, x = Ok a → (1 ≤ n)%nat ∧ ∃ body, Z.of_nat (length body) ≤ limit ∧ from_slice body = Some a).
Proof. intros Hl. apply get_loop_does; simpl; lia || done. Qed.

End Gets.

Section Login.
Context `{UrlLib, UrlText, JsonText, MacLib, CodecLib, WebLib, JwtLib}.
Context `{FromSlice OidcTransaction, FromSlice ProviderMetadata, FromSlice TokenResponse, FromSlice (list Jwk)}.
Context (config : OidcConfig).

(** ** Transactions *)

(** The cookie and the state that came back belong to one login of the last five
    minutes, which the provider did not reject. *)
Definition good_transaction (q : OidcCallbackQuery) (cookie : option string) (key : string) (t : Z) (tr : OidcTransaction)
    (code : string) : Prop :=
  ∃ text returned,
    cookie = Some text ∧ verify_transaction text key = Ok tr ∧
    callback_state q = Some returned ∧ constant_time_token_eq returned (transaction_state tr) = true ∧
    0 ≤ t ∧ transaction_issued_at tr ≤ t + OIDC_CLOCK_SKEW_SECONDS ∧ t ≤ transaction_issued_at tr + OIDC_TRANSACTION_TTL_SECONDS ∧
    callback_error q = None ∧ callback_code q = Some code ∧ code ≠ "".

(** A cookie that is accepted carries the digest, with the key, of its payload. *)
Lemma verify_transaction_ok value key tr :
  verify_transaction value key = Ok tr →
  len value ≤ 2048 ∧ len (transaction_state tr) = 43 ∧ len (transaction_nonce tr) = 43 ∧ len (transaction_verifier tr) = 43 ∧
  ∃ payload signature text, split_once DOT value = Some (payload, signature) ∧
    base64_url_decode signature = Some (transaction_mac key payload) ∧
    base64_url_decode payload = Some text ∧ from_slice text = Some tr.
Proof.
  unfold verify_transaction. intros (Hlen%Z.ltb_ge & ([payload signature] & Hs%ok_or_ok & Hrun)%bind_ok)%guard_ok.
  apply guard_ok in Hrun as (_ & (sig & Hsig%ok_or_ok & (Hm%negb_false_iff & Hrun)%guard_ok)%bind_ok).
  apply bool_decide_eq_true in Hm as <-. apply bind_ok in Hrun as (text & Ht%ok_or_ok & (tr' & Htr%ok_or_ok & Hrun)%bind_ok).
  apply guard_ok in Hrun as (Hl & [= ->]). apply orb_false_elim in Hl as [Hl Hv]. apply orb_false_elim in Hl as [Hst Hn].
  rewrite negb_false_iff, Z.eqb_eq in Hst, Hn, Hv. split_and!; [done..|]. by exists payload, signature, text.
Qed.

(** A login that was begun can be completed: its cookie is accepted under the key
    it was signed with, and holds the state, the nonce and the verifier that the
    provider is given. *)
Lemma sign_transaction_roundtrip tr key value text :
  to_vec (transaction_value tr) = Some text →
  from_slice text = Some tr →
  (∀ l, base64_url_decode (base64_url l) = Some l ∧ contains_byte DOT (base64_url l) = false) →
  len (transaction_state tr) = 43 → len (transaction_nonce tr) = 43 → len (transaction_verifier tr) = 43 →
  sign_transaction tr key = Ok value → len value ≤ 2048 → verify_transaction value key = Ok tr.
Proof.
  intros Hto Hfrom Hb Hs Hn Hv. unfold sign_transaction. rewrite Hto. intros [= <-] Hlen.
  destruct (Hb text) as [Ht Htd]. set (payload := base64_url text) in *.
  destruct (Hb (transaction_mac key payload)) as [Hm Hmd].
  unfold verify_transaction. apply guard_ok. split; [by apply Z.ltb_ge|].
  apply bind_ok. exists (payload, base64_url (transaction_mac key payload)). split.
  { apply ok_or_ok, (split_once_first (ascii_of_byte DOT)). by apply contains_byte_false. }
  apply guard_ok. split; [done|]. apply bind_ok. exists (transaction_mac key payload). split; [by rewrite Hm|].
  apply guard_ok. split; [by rewrite bool_decide_true|]. apply bind_ok. exists text. split; [by rewrite Ht|].
  apply bind_ok. exists tr. split; [by rewrite Hfrom|]. apply guard_ok. by rewrite Hs, Hn, Hv.
Qed.

(** ** Tokens *)

(** A key that may have signed a token with a header: it has the identifier, is for
    signatures and their verification and for the algorithm, as far as it says so,
    and is not a shared secret. *)
Definition key_fits (alg : Algorithm) (id : string) (k : Jwk) : Prop :=
  jwk_key_id k = Some id ∧ jwk_use k ≠ Some OtherUse ∧
  (∀ l, jwk_operations k = Some l → VerifyOperation ∈ l) ∧
  (∀ a, jwk_algorithm k = Some a → key_algorithm_eqb a (algorithm_into alg) = true) ∧ is_octet_key k = false.

(** The token was decoded with the one key of the provider that its header names,
    an asymmetric one, for this issuer and client; it answers this login. *)
Definition token_for_login (token nonce : string) (advertised : list string) (jwks : list Jwk) (t : Z) (i : OidcIdentity) : Prop :=
  ∃ alg id k decoding_key claims,
    decode_header token = Some (alg, Some id) ∧ id ≠ "" ∧ alg ≠ OtherAlgorithm ∧
    (advertised = [] ∨ algorithm_name alg ∈ advertised) ∧
    k ∈ jwks ∧ key_fits alg id k ∧ (∀ k', k' ∈ jwks → key_fits alg id k' → k' = k) ∧ from_jwk k = Some decoding_key ∧
    decode_claims token decoding_key (token_validation config alg) t = Some claims ∧
    constant_time_token_eq (claims_nonce claims) nonce = true ∧
    claims_issued_at claims ≤ t + OIDC_CLOCK_SKEW_SECONDS ∧ claims_issued_at claims < claims_expires_at claims ∧
    audience_values (claims_audience claims) ≠ [] ∧
    ((1 < length (audience_values (claims_audience claims)))%nat → is_Some (claims_authorized_party claims)) ∧
    (∀ p, claims_authorized_party claims = Some p → p = config_client_id config) ∧
    i = Build_OidcIdentity (config_issuer config) (claims_subject claims) (claims_email claims)
          (token_display_name (claims_name claims) (claims_preferred_username claims) (claims_email claims)) ∧
    claims_subject claims ≠ "" ∧ (length (chars (claims_subject claims)) ≤ 255)%nat ∧
    claims_email claims ≠ "" ∧ len (claims_email claims) ≤ 320.

Lemma is_empty_false s : is_empty s = false → s ≠ "".
Proof. by destruct s. Qed.

Lemma one_filtered {A} (f : A → bool) l k :
  List.filter f l = [k] → k ∈ l ∧ f k = true ∧ ∀ k', k' ∈ l → f k' = true → k' = k.
Proof.
  intros E. assert (Hk : ∀ k', k' ∈ List.filter f l ↔ k' ∈ l ∧ f k' = true).
  { intros k'. rewrite !list_elem_of_In. apply filter_In. }
  rewrite E in Hk. destruct (proj1 (Hk k)) as [Hin Hf]; [by left|].
  split_and!; [done..|]. intros k' Hin' Hf'. apply list_elem_of_singleton, Hk. done.
Qed.

Lemma usable_key_fits alg id k : usable_key alg id k = true ↔ key_fits alg id k.
Proof.
  unfold usable_key, key_fits. rewrite !andb_true_iff, bool_decide_eq_true, negb_true_iff.
  assert (match jwk_use k with Some OtherUse => false | _ => true end = true ↔ jwk_use k ≠ Some OtherUse) as ->
    by (by destruct (jwk_use k) as [[]|]).
  assert (match jwk_algorithm k with Some a => key_algorithm_eqb a (algorithm_into alg) | None => true end = true ↔
    ∀ a, jwk_algorithm k = Some a → key_algorithm_eqb a (algorithm_into alg) = true) as ->
    by (destruct (jwk_algorithm k); naive_solver).
  assert (match jwk_operations k with
          | Some l => existsb (λ o, match o with VerifyOperation => true | _ => false end) l
          | None => true
          end = true ↔ ∀ l, jwk_operations k = Some l → VerifyOperation ∈ l) as ->; [|tauto].
  destruct (jwk_operations k) as [l|]; [|done]. rewrite existsb_exists. split.
  - intros (o & Ho%list_elem_of_In & Hv) l' [= <-]. by destruct o.
  - intros Hv. exists VerifyOperation. split; [by apply list_elem_of_In, Hv | done].
Qed.

Lemma u64_saturating_le a b c : (u64_saturating_add a b <? c) = false → c ≤ a + b.
Proof. unfold u64_saturating_add. rewrite Z.ltb_ge. lia. Qed.

Lemma validate_id_token_ok token nonce advertised jwks w i w' :
  validate_id_token config token nonce advertised jwks w = (Ok i, w') →
  w' = w ∧ token_for_login token nonce advertised jwks (clock w / 1000) i.
Proof.
  unfold validate_id_token. intros Hrun. net_step Hrun. destruct a as [alg kid]. do 2 net_step Hrun. subst kid.
  rename Hm0 into Halg, a0 into id. do 3 net_step Hrun. rename Hm0 into Hid, a1 into k, Hm1 into Hk, a2 into dk, Hm2 into Hdk.
  apply net_ok in Hrun as (t & w1 & [= <- <-] & Hrun). net_step Hrun. rename a1 into claims.
  net_step Hrun. rename Hm1 into Hc. net_step Hrun. clear Hm1. do 2 net_step Hrun. rename Hm1 into Ht, Hm2 into Ha.
  injection Hrun as <- <-. split; [done|].
  apply orb_false_elim in Halg as [Hs%negb_false_iff Hadv]. apply orb_false_elim in Hid as [Hid%is_empty_false _].
  apply orb_false_elim in Ht as [Ht%u64_saturating_le He%Z.leb_gt].
  destruct (List.filter (usable_key alg id) jwks) as [|k0 [|]] eqn:Hf; [done | injection Hk as -> | done].
  apply one_filtered in Hf as (Hin & Hu & Hone). rewrite usable_key_fits in Hu.
  rewrite !orb_false_iff in Hc. destruct Hc as [[[[[Hc%negb_false_iff Hsub] Hsl] _] Hem] Hel].
  apply orb_false_elim in Ha as [Ha Hp]. apply orb_false_elim in Ha as [Ha Hm1].
  exists alg, id, k, dk, claims. split_and!; try done.
  - by intros ->.
  - apply andb_false_iff in Hadv as [Hn%negb_false_iff|Hn%negb_false_iff]; [left; by apply is_nil_spec | right].
    by apply existsb_true in Hn as (x & Hx & <-%String.eqb_eq).
  - intros k' Hk' Hf'. apply Hone; [done | by apply usable_key_fits].
  - intros E. by rewrite E in Ha.
  - intros Hl. apply andb_false_iff in Hm1 as [Hm1%Z.ltb_ge|Hm1%negb_false_iff%bool_decide_eq_true]; [lia | by eexists].
  - intros p E. rewrite E in Hp. by apply negb_false_iff, String.eqb_eq in Hp.
  - by apply is_empty_false.
  - apply Z.ltb_ge in Hsl. lia.
  - by apply is_empty_false.
  - by apply Z.ltb_ge.
Qed.

Lemma validate_id_token_silent token nonce advertised jwks : silent (validate_id_token config token nonce advertised jwks).
Proof.
  unfold validate_id_token. apply silent_bind; [apply silent_pure|]. intros [alg kid].
  repeat (apply silent_bind; [first [apply silent_pure | by intros w x w' [= _ ->]]|]; intros ?). by intros w x w' [= _ ->].
Qed.

(** ** Requests to the provider *)

(** An endpoint at the origin of the issuer, over TLS unless the configuration
    says otherwise. *)
Definition at_issuer (u : Url) : Prop :=
  ∃ i, url_parse (discovery_issuer config) = Some i ∧ same_origin u i = true ∧
    (is_https u = true ∨ discovery_allow_insecure_http config = true) ∧
    Flash.username u = "" ∧ Flash.password u = None.

Lemma valid_endpoint_at_issuer u :
  valid_provider_endpoint u (discovery_issuer config) (discovery_allow_insecure_http config) = true → at_issuer u.
Proof.
  unfold valid_provider_endpoint. destruct (url_parse (discovery_issuer config)) as [i|] eqn:Hi; [|done].
  unfold bare_authority. rewrite !andb_true_iff, orb_true_iff. intros [[[[_ Hs] [[_ Hu] Hp]] _] Ho].
  exists i. split_and!; [done | done | tauto | |].
  - by destruct (Flash.username u).
  - by destruct (Flash.password u).
Qed.

Lemma valid_metadata_ok m : valid_metadata config m = true →
  metadata_issuer m = config_issuer config ∧ at_issuer (token_endpoint m) ∧ at_issuer (jwks_uri m).
Proof.
  unfold valid_metadata. rewrite !andb_true_iff. intros [[[Hi%String.eqb_eq _] Ht] Hj].
  split_and!; [done | by apply valid_endpoint_at_issuer..].
Qed.

Definition discovery_url : option Url := url_parse (discovery_issuer config ++ "/.well-known/openid-configuration")%string.

Lemma discovery_does chance w x w' :
  discovery config chance w = (x, w') →
  (w' = w ∧ ¬ ∃ m, x = Ok m) ∨
  ∃ d n, discovery_url = Some d ∧ (n ≤ 2)%nat ∧ exchanged w (repeat (GetRequest d) n) w' ∧
    (∀ m, x = Ok m → valid_metadata config m = true ∧
       ∃ body, Z.of_nat (length body) ≤ MAX_DISCOVERY_BYTES ∧ from_slice body = Some m).
Proof.
  unfold discovery. intros [(e & [= _ ->] & ->)|(d & w1 & [Hd%ok_or_ok ->]%pure_ok & Hrun)]%net_cases.
  { left. split; [done|]. by intros [m [=]]. }
  right. exists d. apply net_cases in Hrun as [(e & Hg & ->)|(m & w1 & Hg & Hrun)].
  - apply provider_get_does in Hg as (n & Hn & He & _ & _); [|done]. exists n. split_and!; done.
  - apply provider_get_does in Hg as (n & Hn & He & _ & Hm); [|done]. exists n.
    apply net_cases in Hrun as [(e & ->%pure_world & ->)|(u & w2 & [Hv%fail_if_ok%negb_false_iff ->]%pure_ok & [= <- <-])].
    + split_and!; done.
    + split_and!; [done..|]. intros m' [= <-]. split; [done|]. by apply Hm.
Qed.

Lemma exchange_code_does endpoint code verifier w x w' :
  exchange_code config endpoint code verifier w = (x, w') →
  exchanged w [PostRequest endpoint (config_client_id config, config_client_secret config) (token_form config code verifier)] w' ∧
  (∀ tokens, x = Ok tokens → id_token tokens ≠ "" ∧ len (id_token tokens) ≤ MAX_ID_TOKEN_BYTES).
Proof.
  unfold exchange_code. destruct (send _ w) as [[t reply] w1] eqn:Hs. apply send_exchanged in Hs as (Ht & Hs & Hc).
  intros [= <- <-]. split; [split; simpl; [done | lia]|].
  intros tokens (r & _ & (u & _ & (u2 & _ & (tk & _ & (Hg & [= ->])%guard_ok)%bind_ok)%bind_ok)%bind_ok)%bind_ok.
  apply orb_false_elim in Hg as [He%is_empty_false Hl%Z.ltb_ge]. done.
Qed.

Lemma exchange_code_ok endpoint code verifier w tokens w' :
  exchange_code config endpoint code verifier w = (Ok tokens, w') →
  ∃ t r, replies w = (t, Ok r) :: replies w' ∧ delivers MAX_TOKEN_RESPONSE_BYTES r tokens.
Proof.
  unfold exchange_code, send. destruct (replies w) as [|[t reply] l]; [done|]. intros [= Hr <-].
  apply bind_ok in Hr as (r & ->%map_err_ok & (u & _ & Hr)%bind_ok). apply guard_ok in Hr as [Hs%negb_false_iff Hr].
  apply bind_ok in Hr as (tk & Htk%map_err_ok & Hr). apply guard_ok in Hr as [_ [= ->]].
  exists t, r. split; [done|]. by apply bounded_json_delivers.
Qed.

Lemma discovery_ok chance w m w' :
  discovery config chance w = (Ok m, w') →
  ∃ d skipped t r, discovery_url = Some d ∧ (length skipped ≤ 1)%nat ∧
    sent w' = sent w ++ repeat (GetRequest d) (S (length skipped)) ∧
    replies w = skipped ++ (t, Ok r) :: replies w' ∧ delivers MAX_DISCOVERY_BYTES r m ∧ valid_metadata config m = true.
Proof.
  unfold discovery. intros (d & w1 & [Hd%ok_or_ok ->]%pure_ok & (m' & w2 & Hg & Hrun)%net_ok)%net_ok.
  apply net_ok in Hrun as (u & w3 & [Hv%fail_if_ok%negb_false_iff ->]%pure_ok & [= -> ->]).
  apply get_loop_ok in Hg as (skipped & t & r & Hl & Hs & Hr & Hdel); [|done]. simpl in Hl.
  exists d, skipped, t, r. split_and!; done || lia.
Qed.

(** What follows once the transaction is known to be good. *)
Definition redeem (tr : OidcTransaction) (code : string) (first second : Chance) : net OidcIdentity :=
  metadata ← discovery config first;
  tokens ← exchange_code config (token_endpoint metadata) code (transaction_verifier tr);
  jwks ← provider_get_json (jwks_uri metadata) MAX_JWKS_BYTES GetPolicy_default second;
  pure_net (fail_if (is_nil jwks || (MAX_JWKS_KEYS <? Z.of_nat (length jwks))) InvalidToken) ;;
  validate_id_token config (id_token tokens) (transaction_nonce tr) (id_token_signing_alg_values_supported metadata) jwks.

Lemma transaction_age_ok issued w u w' :
  validate_transaction_age issued w = (Ok u, w') →
  w' = w ∧ 0 ≤ clock w / 1000 ∧ issued ≤ clock w / 1000 + OIDC_CLOCK_SKEW_SECONDS ∧
  clock w / 1000 ≤ issued + OIDC_TRANSACTION_TTL_SECONDS.
Proof.
  unfold validate_transaction_age. intros Hrun. net_step Hrun. apply pure_ok in Hrun as [Ha%fail_if_ok ->].
  apply orb_false_elim in Ha as [Ha%u64_saturating_le Hb%Z.ltb_ge].
  split_and!; [done | by apply Z.div_pos | done | lia].
Qed.

Lemma transaction_age_silent issued : silent (validate_transaction_age issued).
Proof. apply silent_bind; [by intros w x w' [= _ ->] | intros t; apply silent_pure]. Qed.

Ltac stops H := left; eapply H; [| eassumption | eassumption]; first [apply silent_pure | apply transaction_age_silent].

(** Nothing happens before the transaction is known to be good. *)
Lemma complete_login_cases q cookie key first second w x w' :
  complete_login config q cookie key first second w = (x, w') →
  (w' = w ∧ ∃ e, x = Err e) ∨
  ∃ tr code, good_transaction q cookie key (clock w / 1000) tr code ∧ redeem tr code first second w = (x, w').
Proof.
  unfold complete_login. intros Hrun.
  assert (Hfail : ∀ {A} (m : net A) e, silent m → m w = (Err e, w') → x = Err e → w' = w ∧ ∃ e, x = Err e).
  { intros A m e Hm Hw ->. split; [by eapply Hm | by eexists]. }
  apply net_cases in Hrun as [(e & He & ?)|(u & w1 & [_ ->]%pure_ok & Hrun)]; [by stops Hfail|].
  apply net_cases in Hrun as [(e & He & ?)|(text & w1 & [Hc%ok_or_ok ->]%pure_ok & Hrun)]; [by stops Hfail|].
  apply net_cases in Hrun as [(e & He & ?)|(tr & w1 & [Hv ->]%pure_ok & Hrun)]; [by stops Hfail|].
  apply net_cases in Hrun as [(e & He & ?)|(returned & w1 & [Hs%ok_or_ok ->]%pure_ok & Hrun)]; [by stops Hfail|].
  apply net_cases in Hrun as [(e & He & ?)|(u1 & w1 & [Hq%fail_if_ok%negb_false_iff ->]%pure_ok & Hrun)]; [by stops Hfail|].
  apply net_cases in Hrun as [(e & He & ?)|(u2 & w1 & (-> & H0' & Hlo & Hhi)%transaction_age_ok & Hrun)]; [by stops Hfail|].
  apply net_cases in Hrun as [(e & He & ?)|(u3 & w1 & [Her%fail_if_ok ->]%pure_ok & Hrun)]; [by stops Hfail|].
  apply net_cases in Hrun as [(e & He & ?)|(code & w1 & [Hco%ok_or_ok ->]%pure_ok & Hrun)]; [by stops Hfail|].
  apply net_cases in Hrun as [(e & He & ?)|(u4 & w1 & [Hne%fail_if_ok%is_empty_false ->]%pure_ok & Hrun)]; [by stops Hfail|].
  right. exists tr, code. split; [|exact Hrun]. exists text, returned. split_and!; try done. by destruct (callback_error q).
Qed.

(** The requests of a login: discovery, one exchange of the code, and the keys. *)
Definition login_requests (tr : OidcTransaction) (code : string) (l : list HttpRequest) : Prop :=
  l = [] ∨ ∃ d n, discovery_url = Some d ∧ (n ≤ 2)%nat ∧
    (l = repeat (GetRequest d) n ∨
     ∃ m k, valid_metadata config m = true ∧ (k ≤ 2)%nat ∧
       l = repeat (GetRequest d) n ++
           PostRequest (token_endpoint m) (config_client_id config, config_client_secret config)
             (token_form config code (transaction_verifier tr)) :: repeat (GetRequest (jwks_uri m)) k).

Lemma redeem_requests tr code first second w x w' :
  redeem tr code first second w = (x, w') → ∃ l, exchanged w l w' ∧ login_requests tr code l.
Proof.
  unfold redeem. intros Hrun.
  apply net_cases in Hrun as [(e & Hd & ->)|(m & w1 & Hd & Hrun)]; apply discovery_does in Hd as
    [[-> Hx]|(d & n & Hu & Hn & He & Hm)].
  - exists []. split; [apply exchanged_nil | by left].
  - exists (repeat (GetRequest d) n). split; [done|]. right. exists d, n. split_and!; [done..|by left].
  - exfalso. apply Hx. by eexists.
  - destruct (Hm m eq_refl) as [Hv _].
    set (post := PostRequest (token_endpoint m) (config_client_id config, config_client_secret config)
                   (token_form config code (transaction_verifier tr))).
    assert (Hl : ∀ k w2, (k ≤ 2)%nat → exchanged w1 (post :: repeat (GetRequest (jwks_uri m)) k) w2 →
      ∃ l, exchanged w l w2 ∧ login_requests tr code l).
    { intros k w2 Hk Hp. eexists. split; [exact (exchanged_app _ _ _ _ _ He Hp)|]. right. exists d, n.
      split_and!; [done..|]. right. by exists m, k. }
    apply net_cases in Hrun as [(e & [Hp _]%exchange_code_does & _)|(tokens & w2 & [Hp _]%exchange_code_does & Hrun)].
    { by apply (Hl 0%nat); [lia|]. }
    assert (Hl2 : ∀ (y : result OidcError (list Jwk)) w3,
      provider_get_json (jwks_uri m) MAX_JWKS_BYTES GetPolicy_default second w2 = (y, w3) →
      ∃ l, exchanged w l w3 ∧ login_requests tr code l).
    { intros y w3 (k & Hk & Hg & _)%provider_get_does; [|done]. apply (Hl k); [done|].
      exact (exchanged_app _ [_] _ _ _ Hp Hg). }
    apply net_cases in Hrun as [(e & Hg & _)|(jwks & w3 & Hg & Hrun)]; [by eapply Hl2|].
    assert (w' = w3) as -> by (eapply silent_bind; [apply silent_pure | intros u; apply validate_id_token_silent | exact Hrun]).
    by eapply Hl2.
Qed.

(** C23: The secrets of a login are sent to the provider only.  Whatever the answers
    are and however a login ends, nothing is sent unless the signed cookie and the
    state that came back belong to one login of the last five minutes; then the
    requests are at most two for the metadata, at the address that is configured,
    one that exchanges the code with the verifier of this login, and at most two
    for the keys; the exchange, with the secret of the client, and the request for
    the keys go to the origin of the configured issuer, over TLS unless the
    configuration allows otherwise. *)
Theorem oidc_secrets_stay_with_issuer q cookie key first second w x w' :
  complete_login config q cookie key first second w = (x, w') →
  ∃ l, sent w' = sent w ++ l ∧ clock w ≤ clock w' ∧
    (l = [] ∨ ∃ tr code, good_transaction q cookie key (clock w / 1000) tr code ∧ login_requests tr code l) ∧
    (∀ u auth form, PostRequest u auth form ∈ l → at_issuer u) ∧
    (∀ u, GetRequest u ∈ l → discovery_url = Some u ∨ at_issuer u).
Proof.
  intros [[-> _]|(tr & code & Hg & (l & [Hs Hc] & Hl)%redeem_requests)]%complete_login_cases.
  { exists []. split_and!; [by rewrite app_nil_r | done | by left | |]; intros *; by intros ?%not_elem_of_nil. }
  exists l. split_and!; [done | done | right; by exists tr, code | |].
  - intros u auth form Hin. destruct Hl as [->|(d & n & Hd & Hn & [->|(m & k & Hm & Hk & ->)])].
    + by apply not_elem_of_nil in Hin.
    + by apply list_elem_of_In, repeat_spec in Hin.
    + apply valid_metadata_ok in Hm as (_ & Ht & _).
      apply elem_of_app in Hin as [Hin|[[= -> _ _]|Hin]%elem_of_cons]; [|done|];
        by apply list_elem_of_In, repeat_spec in Hin.
  - intros u Hin. destruct Hl as [->|(d & n & Hd & Hn & [->|(m & k & Hm & Hk & ->)])].
    + by apply not_elem_of_nil in Hin.
    + apply list_elem_of_In, repeat_spec in Hin as [= ->]. by left.
    + apply valid_metadata_ok in Hm as (_ & _ & Hj).
      apply elem_of_app in Hin as [Hin|[[=]|Hin]%elem_of_cons]; apply list_elem_of_In, repeat_spec in Hin as [= ->];
        [by left | by right].
Qed.

(** The conversation of a login that succeeds: every request, and the replies to them
    - the metadata, the tokens and the keys are what the replies deliver. *)
Definition conversation (tr : OidcTransaction) (code : string) (w w' : World) (m : ProviderMetadata) (tokens : TokenResponse)
    (jwks : list Jwk) : Prop :=
  ∃ d before t1 r1 t2 r2 between t3 r3,
    discovery_url = Some d ∧ (length before ≤ 1)%nat ∧ (length between ≤ 1)%nat ∧
    sent w' = sent w ++ repeat (GetRequest d) (S (length before)) ++
      [PostRequest (token_endpoint m) (config_client_id config, config_client_secret config)
         (token_form config code (transaction_verifier tr))] ++
      repeat (GetRequest (jwks_uri m)) (S (length between)) ∧
    replies w = before ++ (t1, Ok r1) :: (t2, Ok r2) :: between ++ (t3, Ok r3) :: replies w' ∧
    delivers MAX_DISCOVERY_BYTES r1 m ∧ delivers MAX_TOKEN_RESPONSE_BYTES r2 tokens ∧ delivers MAX_JWKS_BYTES r3 jwks.

Lemma redeem_ok tr code first second w i w' :
  redeem tr code first second w = (Ok i, w') →
  ∃ m tokens jwks,
    valid_metadata config m = true ∧ conversation tr code w w' m tokens jwks ∧ (length jwks ≤ 128)%nat ∧
    token_for_login (id_token tokens) (transaction_nonce tr) (id_token_signing_alg_values_supported m) jwks (clock w' / 1000) i.
Proof.
  unfold redeem. intros (m & w1 & Hd & (tokens & w2 & Hx & Hrun)%net_ok)%net_ok.
  apply net_ok in Hrun as (jwks & w3 & Hg & Hrun).
  apply net_ok in Hrun as (u & w4 & [Hl%fail_if_ok ->]%pure_ok & [-> Hi]%validate_id_token_ok).
  apply orb_false_elim in Hl as [_ Hl%Z.ltb_ge]. unfold MAX_JWKS_KEYS in Hl.
  apply discovery_ok in Hd as (d & before & t1 & r1 & Hu & Hb & Hs1 & Hr1 & Hd1 & Hv).
  pose proof (exchange_code_does _ _ _ _ _ _ Hx) as [[Hs2 _] _]. apply exchange_code_ok in Hx as (t2 & r2 & Hr2 & Hd2).
  apply get_loop_ok in Hg as (between & t3 & r3 & Hb3 & Hs3 & Hr3 & Hd3); [|done]. simpl in Hb3.
  exists m, tokens, jwks. split_and!; [done | | lia | done].
  exists d, before, t1, r1, t2, r2, between, t3, r3. split_and!; try done; [lia | |].
  - by rewrite Hs3, Hs2, Hs1, <- !app_assoc.
  - by rewrite Hr1, Hr2, Hr3.
Qed.

(** The provider vouched for an identity in a login. *)
Definition vouched (q : OidcCallbackQuery) (cookie : option string) (key : string) (w : World) (i : OidcIdentity) (w' : World)
    : Prop :=
  ∃ tr code m tokens jwks,
    good_transaction q cookie key (clock w / 1000) tr code ∧
    (∃ text payload signature content, cookie = Some text ∧ split_once DOT text = Some (payload, signature) ∧
       base64_url_decode signature = Some (transaction_mac key payload) ∧
       base64_url_decode payload = Some content ∧ from_slice content = Some tr) ∧
    conversation tr code w w' m tokens jwks ∧
    metadata_issuer m = config_issuer config ∧ at_issuer (token_endpoint m) ∧ at_issuer (jwks_uri m) ∧
    (length jwks ≤ 128)%nat ∧
    token_for_login (id_token tokens) (transaction_nonce tr) (id_token_signing_alg_values_supported m) jwks (clock w' / 1000) i.

Lemma complete_login_vouched q cookie key first second w i w' :
  complete_login config q cookie key first second w = (Ok i, w') → vouched q cookie key w i w'.
Proof.
  intros [[_ [e [=]]]|(tr & code & Hg & (m & tokens & jwks & Hv & Hconv & Hl & Hi)%redeem_ok)]%complete_login_cases.
  apply valid_metadata_ok in Hv as (Hiss & Hte & Hju).
  exists tr, code, m, tokens, jwks. split_and!; try done.
  destruct Hg as (text & returned & Hc & (_ & _ & _ & _ & payload & signature & bs & Hs & Hsig & Hb & Hf)%verify_transaction_ok & _).
  by exists text, payload, signature, bs.
Qed.

(** ** A login that was begun *)

Lemma begin_login_ok key secure intent state nonce verifier chance w start w' :
  begin_login config key secure intent state nonce verifier chance w = (Ok start, w') →
  ∃ m value, at_issuer (token_endpoint m) ∧ fst (authorization_url start) = authorization_endpoint m ∧
    sign_transaction (Build_OidcTransaction state nonce verifier (clock w' / 1000)) key = Ok value ∧
    transaction_cookie start = Build_TransactionCookie value OIDC_CALLBACK_PATH true secure OIDC_TRANSACTION_TTL_SECONDS ∧
    ∀ p, p ∈ [("state", state); ("nonce", nonce); ("code_challenge", base64_url (sha256 (bytes verifier)));
              ("code_challenge_method", "S256"); ("client_id", config_client_id config)] → p ∈ snd (authorization_url start).
Proof.
  unfold begin_login. intros (m & w1 & Hd & (t & w2 & Ht & (value & w3 & Hs & Hrun)%net_ok)%net_ok)%net_ok.
  apply pure_ok in Hs as [Hs ->]. apply unix_timestamp_ok in Ht as (_ & -> & ->). injection Hrun as <- <-.
  apply discovery_does in Hd as [[_ Hx]|(d & n & _ & _ & _ & Hm)]; [exfalso; apply Hx; by eexists|].
  destruct (Hm m eq_refl) as [(_ & Hte & _)%valid_metadata_ok _].
  exists m, value. split_and!; [done..|]. simpl.
  apply Forall_forall. repeat constructor.
Qed.

(** The login that was begun is the one that is completed: when the provider sends
    the browser back in time, with the state it was given and a code, the code is
    redeemed with the verifier whose digest the provider was given. *)
Lemma login_roundtrip key secure intent state nonce verifier chance w start w1 text code first second w2 :
  let tr := Build_OidcTransaction state nonce verifier (clock w1 / 1000) in
  to_vec (transaction_value tr) = Some text → from_slice text = Some tr →
  (∀ l, base64_url_decode (base64_url l) = Some l ∧ contains_byte DOT (base64_url l) = false) →
  len state = 43 → len nonce = 43 → len verifier = 43 →
  begin_login config key secure intent state nonce verifier chance w = (Ok start, w1) →
  len (cookie_value (transaction_cookie start)) ≤ 2048 → code ≠ "" → len code ≤ MAX_CALLBACK_CODE_BYTES →
  0 ≤ clock w1 → clock w1 ≤ clock w2 → clock w2 / 1000 ≤ clock w1 / 1000 + 300 → clock w2 / 1000 ≤ u64_max →
  complete_login config (Build_OidcCallbackQuery (Some code) (Some state) None None)
    (Some (cookie_value (transaction_cookie start))) key first second w2 = redeem tr code first second w2.
Proof.
  intros tr Hto Hfrom Hb Hs Hn Hv (m & value & _ & _ & Hsign & Hck & _)%begin_login_ok Hlen Hcode Hcl H0w Hle Hage Hmax.
  rewrite Hck in *. simpl in Hlen |- *.
  assert (Htr : verify_transaction value key = Ok tr) by (by eapply sign_transaction_roundtrip).
  unfold complete_login, validate_transaction_age. unfold mbind, net_bind, pure_net, unix_timestamp, validate_size, longer_than. simpl.
  replace (MAX_CALLBACK_CODE_BYTES <? len code) with false by (symmetry; by apply Z.ltb_ge).
  replace (128 <? len state) with false by (rewrite Hs; done). simpl. rewrite Htr. simpl.
  unfold constant_time_token_eq. rewrite bool_decide_true by done. simpl.
  replace (clock w2 <? 0) with false by (symmetry; apply Z.ltb_ge; lia). simpl.
  assert (Hd : clock w1 / 1000 ≤ clock w2 / 1000) by (by apply Z.div_le_mono).
  unfold u64_saturating_add, OIDC_CLOCK_SKEW_SECONDS, OIDC_TRANSACTION_TTL_SECONDS.
  replace (Z.min (clock w2 / 1000 + 60) u64_max <? clock w1 / 1000) with false by (symmetry; apply Z.ltb_ge; lia).
  replace (5 * 60 <? Z.max 0 (clock w2 / 1000 - clock w1 / 1000)) with false by (symmetry; apply Z.ltb_ge; lia).
  simpl. by destruct code.
Qed.

End Login.

(** ** The callback *)

Section Callback.
Context `{UrlLib, UrlText, JsonText, MacLib, CodecLib, WebLib, JwtLib, PasswordLib, IpNetLib}.
Context `{FromSlice OidcTransaction, FromSlice ProviderMetadata, FromSlice TokenResponse, FromSlice (list Jwk)}.
Context `{LimitsDecoder, UuidText, SqlText, SqlCollation}.
Context (config : RuntimeConfig) (settings : AccessConfig) (oidc : option OidcConfig).

(** C22: Who signs in with OpenID Connect was named by the provider for this login.
    A callback changes nothing, unless the cookie carries the digest of its content
    under the key of the installation, the state that came back is the one in it,
    the login was begun within the last five minutes and the provider reported no
    error.  Then this callback has made exactly these requests: one or two for the
    metadata, at the configured address; the exchange of the code, with the verifier
    of the cookie, at the token endpoint; one or two for the keys; metadata, token
    and keys are what the replies to the last of each delivered, the metadata is that
    of the issuer and both endpoints are at its origin.  That token was decoded - for
    this issuer and this client, with its times checked when the last reply had come -
    with the one key that fits its header among all of these keys, an asymmetric one,
    with an algorithm the metadata advertise; its nonce is the one in the cookie and
    its authorized party, if there is one, is this client.  The user with the issuer
    and the subject of the token is found or made, and a session is opened for that
    user at most, if active. *)
Theorem oidc_login_sound q r first second token w identity w' db x db' :
  callback_identity config oidc q r first second w = (identity, w') →
  oidc_callback config settings identity token db = (x, db') →
  db' = db ∨
  ∃ c i y d, oidc = Some c ∧ identity = Ok i ∧
    vouched c q (cookies r OIDC_TRANSACTION_COOKIE) (csrf_key config) w i w' ∧
    find_or_create_oidc_user (oidc_issuer i) (oidc_subject i) (oidc_email i) (oidc_display_name i) db = (y, d) ∧
    (db' = d ∨ ∃ user, y = Ok user ∧ is_active (session_owner user) = true ∧
       opens settings (user_key (session_owner user)) token "oidc" d db').
Proof.
  intros Hi [|(i & y & d & -> & Hy & Hd)]%oidc_cases; [by left | right].
  unfold callback_identity in Hi. destruct oidc as [c|]; [|done].
  destruct (complete_login c q (cookies r OIDC_TRANSACTION_COOKIE) (csrf_key config) first second w) as [m w1] eqn:Hm.
  injection Hi as Hi <-. apply map_err_ok in Hi as ->. exists c, i, y, d. split_and!; [done | done | | done | done].
  by eapply complete_login_vouched.
Qed.

End Callback.
