(* ===== verification/Handlers.v ===== *)
(** * Handlers and tasks run the transactions of the program

    The API is made of handlers and background tasks, which authenticate,
    authorize, ask the provider and run transactions of the store.  Whatever one
    of them does to the database, completed or cut short by an error, is a
    sequence of the steps of [api_step]; so what is proved of every execution of
    the program holds of every mix of requests and tasks. *)
From S2P Require Import Prelude Text Json Net Policy Iam RoleTrust Quota Specs Flash Store Usage Provider Prepare Services FlowAccess Cloud Identity Access Admin FlashStore Authorize Outside IdentityCenter Routes FlashOps ServiceRoutes AccountRoutes SessionRoutes FlowRoutes Worker Oidc StorageRoutes Lifecycle FlowFacts CloudFacts IdentityFacts AccessFacts FlashFacts ApiFacts FlashApi AdminFacts ServiceApi AccountApi SessionApi FlowApi StorageApi System.

Section Does.
Context `{LimitsDecoder, Serde FlowSpec, Serde FlashSpec, Serde SyouyuSpec, Serde VpcSpec}.
Context `{IpNetLib, UrlLib, JsonText, UuidText, SqlCast, TimeText, SqlText, SqlCollation, Serde PolicyDocument}.

(** All a call does to the database is to make steps. *)
Definition does {A} (m : api A) : Prop := ∀ db x db', m db = (x, db') → rtc api_step db db'.

Lemma does_bind {A B} (m : api A) (f : A → api B) : does m → (∀ a, does (f a)) → does (m ≫= f).
Proof.
  intros Hm Hf db x db' [(e & Hq & _)|(a & db1 & Hq & Hrun)]%bind_cases; [by eapply Hm|].
  etrans; [by eapply Hm | by eapply Hf].
Qed.

Lemma does_still {A} (m : api A) : still m → does m.
Proof. intros Hm db x db' ->%Hm. done. Qed.

Lemma does_attempt {A} (m : api A) : does m → does (attempt m).
Proof. intros Hm db x db' (y & Hy & _)%attempt_run. by eapply Hm. Qed.

Lemma does_run {A} (t : tx A) : (∀ db x db', t db = Ok (x, db') → api_step db db') → does (run t).
Proof.
  intros Ht db x db'. unfold run. destruct (t db) as [[a d]|e] eqn:E; intros [= _ <-]; [by eapply rtc_once, Ht | done].
Qed.

Lemma does_exec {A} (f : Db → result StoreError A * Db) : (∀ db x db', f db = (x, db') → api_step db db') → does (exec f).
Proof. intros Hf db x db'. unfold exec. destruct (f db) as [m d] eqn:E. intros [= _ <-]. by eapply rtc_once, Hf. Qed.

(** The same of a call that reaches outside. *)
Definition does_outside {Q A} (m : outside Q A) : Prop :=
  ∀ db x db' sent, m db = (x, db', sent) → rtc api_step db db'.

Lemma does_inside {Q A} (m : api A) : does m → does_outside (inside m : outside Q A).
Proof. intros Hm db x db' sent [Hrun _]%inside_ok. by eapply Hm. Qed.

Lemma does_send {Q A} (q : Q) (answer : result ApiError A) : does_outside (emit q answer).
Proof. by intros db x db' sent [= _ <- _]. Qed.

Lemma does_outside_bind {Q A B} (m : outside Q A) (f : A → outside Q B) :
  does_outside m → (∀ a, does_outside (f a)) → does_outside (m ≫= f).
Proof.
  intros Hm Hf db x db' sent [(e & Hq & _)|(a & db1 & before & after & Hq & Hrun & _)]%outside_cases; [by eapply Hm|].
  etrans; [by eapply Hm | by eapply Hf].
Qed.

End Does.

(** A single transaction is one of the steps. *)
Ltac one_step :=
  first
  [ by eapply api_identifier | by eapply api_audit | by eapply api_update | by eapply api_create | by eapply api_observe
  | by eapply api_stopped | by eapply api_delete | by eapply api_quota | by eapply api_quota_cleared | by eapply api_defaults
  | apply api_admin; solve [ econstructor; eassumption ]
  | apply api_flow; solve [ econstructor; eassumption | eapply request_record; [..|eassumption]; reflexivity ]
  | apply api_cloud; solve [ econstructor; eexists; eassumption ]
  | apply api_flash; solve [ econstructor; eassumption ]
  | apply api_access; solve [ econstructor; eassumption ]
  | apply api_identity; solve [ econstructor; eassumption ] ].

Ltac does_step :=
  lazymatch goal with
  | |- does (mbind _ _) => apply does_bind; [|intros ?]
  | |- does (check _ _) => apply does_still, still_check
  | |- does (mret _) => by apply does_still, still_same
  | |- does (from_result _) => by apply does_still, still_same
  | |- does (some_or _ _) => by apply does_still, still_same
  | |- does (ask _) => by apply does_still, still_same
  | |- does (fetch _) => by apply does_still, still_same
  | |- does (api_fail _) => by apply does_still, still_same
  | |- does (allowed _ _ _ _) => apply does_still, allowed_still
  | |- does (attempt _) => apply does_attempt
  | |- does (ignore _) => unfold ignore
  | |- does (run (match ?x with _ => _ end)) => destruct x
  | |- does (run _) => apply does_run; intros ????; one_step
  | |- does (exec _) => apply does_exec; intros ????; one_step
  | |- does (if ?b then _ else _) => destruct b
  | |- does (match ?x with _ => _ end) => destruct x
  | |- does (let _ := _ in _) => cbv zeta
  | |- does_outside (inside _) => apply does_inside
  | |- does_outside (emit _ _) => apply does_send
  | |- does_outside (mret _) => by intros ???? [= _ <- _]
  | |- does_outside (mbind _ _) => apply does_outside_bind; [|intros ?]
  | |- does_outside (if ?b then _ else _) => destruct b
  | |- does_outside (match ?x with _ => _ end) => destruct x
  | |- does_outside (let _ := _ in _) => cbv zeta
  | |- does_outside ?m => let f := head_of m in progress unfold f
  | |- does ?m => let f := head_of m in progress unfold f
  end.
Ltac does_all := repeat does_step.

Section Handlers.
Context `{LimitsDecoder, Serde FlowSpec, Serde FlashSpec, Serde SyouyuSpec, Serde VpcSpec}.
Context `{IpNetLib, UrlLib, JsonText, UuidText, SqlCast, TimeText, SqlText, SqlCollation, Serde PolicyDocument}.
Context `{WebLib, Chrono, Serde AwsPolicy, Serde RoleTrustDocument, Serde DeploymentPolicy, SshLib, PasswordLib, MacLib}.
Context `{CodecLib, UrlJoin, FromSlice ProviderErrorEnvelope, FromSlice SyouyuServiceOverview, FromSlice SyouyuProviderUsage}.
Context `{FromSlice CredentialListResponse, FromSlice IssuedSyouyuProviderCredential, FromSlice RevokedCredentialResponse}.
Context (config : RuntimeConfig) (provider : option FlashGateway).
Context (put_secret : Uuid → string → string → result ApiError ()) (reserved_names reserved_suffixes : string).

Lemma authenticate_does r : does (authenticated_actor_mutation config r).
Proof. does_all.
Qed.

Lemma authorize_does actor org act res implicit : does (authorize_actor_with_implicit_allow actor org act res implicit).
Proof. does_all. Qed.

Lemma serve_flash_does call r org :
  does (serve_flash config provider put_secret reserved_names reserved_suffixes call r org).
Proof. destruct call; does_all. Qed.

(** The requests on services, and the catalog of GPUs they bring up to date. *)
Lemma accept_catalog_does catalog : does (accept_gpu_catalog catalog).
Proof.
  intros db x db'. unfold accept_gpu_catalog.
  destruct (sync_gpu_catalog catalog db) as [[u d]|[]] eqn:E; intros [= _ <-]; try done.
  apply rtc_once, api_admin. by eapply request_catalog.
Qed.

Lemma groups_does actor org vpc groups : does (authorize_groups actor org vpc groups).
Proof. induction groups; simpl; [by does_all|]. does_step; [by does_all | done]. Qed.

Lemma serve_service_does gpu_provider secret_manager call r org :
  does_outside (serve_service config gpu_provider secret_manager call r org).
Proof. destruct call; repeat first [apply accept_catalog_does | apply groups_does | does_step]. Qed.

(** The requests on accounts, of people and of the owner. *)
Lemma serve_account_does registry_provider call r org : does_outside (serve_account config registry_provider call r org).
Proof. destruct call; does_all. Qed.

Lemma audits_does {A} (row : A → AuditRow) l :
  does (foldr (λ m rest, run (append_audit (row m)) ;; rest) (mret ()) l).
Proof. induction l; simpl; [by does_all|]. does_step; [by does_all | done]. Qed.

Lemma serve_session_does settings call r : does (serve_session config settings call r).
Proof. destruct call; repeat first [apply audits_does | does_step]. Qed.

Lemma serve_owner_does settings gpu_provider call r peer : does (serve_owner config settings gpu_provider call r peer).
Proof. destruct call; repeat first [apply accept_catalog_does | does_step]. Qed.

(** The requests on Flow credentials. *)
Lemma flow_permissions_does actor org service l : does (authorize_flow_permissions actor org service l).
Proof. induction l; simpl; repeat first [done | does_step]. Qed.

Lemma evaluate_issuer_does i context res t actions : does (evaluate_issuer i context res t actions).
Proof. induction actions; simpl; repeat first [done | does_step]. Qed.

Lemma serve_flow_does signer mint_endpoint call r org : does (serve_flow config signer mint_endpoint call r org).
Proof. destruct call; repeat first [apply flow_permissions_does | does_step]. Qed.

Lemma serve_developer_does signer call r : does (serve_developer signer call r).
Proof. destruct call; repeat first [apply evaluate_issuer_does | does_step]. Qed.

(** The requests on object storage: all they do to the database is done before the
    wire. *)
Definition does_too {A} (m : storage A) : Prop := ∀ db w x db' w', m db w = (x, db', w') → rtc api_step db db'.

Lemma does_too_bind {A B} (m : storage A) (f : A → storage B) : does_too m → (∀ a, does_too (f a)) → does_too (m ≫= f).
Proof.
  intros Hm Hf db w x db' w' [(e & Hq & _)|(a & db1 & w1 & Hq & Hrun)]%storage_cases; [by eapply Hm|].
  etrans; [by eapply Hm | by eapply Hf].
Qed.

Lemma on_db_does {A} (m : api A) : does m → does_too (on_db m).
Proof. intros Hm db w x db' w' [Hr ->]%on_db_run. by eapply Hm. Qed.

Lemma on_wire_does {A} (m : Wire → result SyouyuProviderError A * Wire) : does_too (on_wire m).
Proof. by intros db w x db' w' (y & _ & _ & ->)%on_wire_run. Qed.

Lemma compensate_does t credential key : does_too (compensate_syouyu_credential t credential key).
Proof.
  intros db w x db' w'. unfold compensate_syouyu_credential.
  by destruct (revoke_bucket_credential _ _ _ _ w) as [? ?]; intros [= _ <- _].
Qed.

Lemma serve_storage_does storage_provider call r org service : does_too (serve_storage config storage_provider call r org service).
Proof.
  destruct call; simpl; unfold no_answer, get_syouyu_bucket_usage, list_syouyu_credentials, create_syouyu_credential,
    revoke_syouyu_credential.
  all: repeat lazymatch goal with
    | |- does_too (mbind _ _) => apply does_too_bind; [|intros ?]
    | |- does_too (on_db _) => apply on_db_does; does_all
    | |- does_too (on_wire _) => apply on_wire_does
    | |- does_too (compensate_syouyu_credential _ _ _) => apply compensate_does
    | |- does_too (mret _) => by intros ????? [= _ <- _]
    | |- does_too (let '(_, _) := ?p in _) => destruct p
    | |- does_too (if ?b then _ else _) => destruct b
    end.
Qed.

Lemma switch_or_revoke_does switch account principal session : does (switch_or_revoke switch account principal session).
Proof.
  unfold switch_or_revoke. destruct switch as [[browser previous]|]; [|by does_all]. intros db x db'.
  assert (Hs : does (run (switch_browser_role (auth_token_hash browser) previous session))) by does_all.
  assert (Hr : does (run (revoke_iam_role_session account principal session))) by does_all.
  destruct (run (switch_browser_role _ _ _) db) as [[u|e] d] eqn:E; intros [= _ <-]; [by eapply Hs|].
  etrans; [by eapply Hs|]. destruct (run (revoke_iam_role_session _ _ _) d) as [y d'] eqn:Er. by eapply Hr.
Qed.

Lemma serve_does call r org : does (serve config call r org).
Proof.
  destruct call as [| | |principal [policy|]| | | | | | | | | | | | | | | | | | | | | |];
    repeat first [apply switch_or_revoke_does | does_step].
Qed.

Lemma create_key_does github_keys r org name key github : does (create_key config github_keys r org name key github).
Proof. does_all. Qed.

Lemma delete_key_does r org id : does (delete_key config r org id).
Proof. does_all. Qed.

(** The tasks. *)
Lemma observe_does i : does (observe provider i).
Proof. does_all. Qed.

Lemma run_schedule_does schedule_request schedule_name e :
  does (run_schedule provider schedule_request schedule_name e).
Proof. does_all. Qed.

Lemma retention_does e : does (enforce_retention e).
Proof. does_all. Qed.

Lemma refresh_destination_does e : does (refresh_destination provider e).
Proof. does_all. Qed.

Lemma reconcile_domain_does e : does (reconcile_domain provider e).
Proof. does_all. Qed.

(** A status is written with the phase that was read, or with one of the phases
    the provider may answer. *)
Lemma status_does id phase st : phase ≠ "deleted" → does (run (update_flash_backup_status id phase st)).
Proof. intros Hp. apply does_run. intros db x db' Hrun. apply api_flash. by eapply flash_status. Qed.

Lemma validated_phase id v w : validated_status id v = Ok w → default "error" (as_str (at_key "phase" w)) ≠ "deleted".
Proof.
  unfold validated_status. intros (u & Hf%fail_if_ok & [= <-])%bind_ok. apply orb_false_elim in Hf as [_ Hf].
  simpl. unfold at_key at 1. simpl. unfold one_of in Hf. destruct (as_str (at_key "phase" v)) as [s|]; simpl in *; [|done].
  intros ->. by vm_compute in Hf.
Qed.

Lemma reconcile_backup_does id b db x db' :
  backup_ok b → (∃ b', backup_rows db !! id = Some b' ∧ backup_le b b') →
  reconcile_backup provider (id, b) db = (x, db') → rtc api_step db db'.
Proof.
  intros Hok (b' & Hb' & Hle) Hrun. unfold reconcile_backup in Hrun. destruct provider as [p|]; [|by injection Hrun as _ <-].
  assert (Hfirst : ∀ y d, ignore (run (update_flash_backup_status id (backup_phase b) (backup_status b))) db = (y, d) → rtc api_step db d).
  { intros y d Hi. unfold ignore in Hi. apply bind_cases in Hi as [(e & (z & _ & ?)%attempt_run & _)|(z & d1 & (w & Hw & _)%attempt_run & [= _ <-])]; [done|].
    revert Hw. unfold run. destruct (update_flash_backup_status _ _ _ db) as [[u d2]|] eqn:E; intros [= _ <-]; [|done].
    apply rtc_once, api_flash. eapply flash_status; [|exact E]. intros Hph. exists b'. split; [done|].
    destruct Hok as (_ & Hd & _). rewrite (bl_deleted _ _ Hle); by apply Hd. }
  apply bind_cases in Hrun as [(e & He & _)|(u & d & He & Hrun)]; [by eapply Hfirst|].
  etrans; [by eapply Hfirst|]. clear Hfirst He. revert d x db' Hrun.
  destruct (delete_requested b) eqn:Ed;
    match goal with |- ∀ d x db', ?m d = (x, db') → rtc api_step d db' => change (does m) end; [by does_all|].
  assert (Hlive : backup_phase b ≠ "deleted").
  { destruct Hok as (_ & Hd & Hq). intros Hph. apply Hd, Hq in Hph. congruence. }
  apply does_bind; [by does_all | intros t]. destruct (_ ≫= _) as [v|e] eqn:E.
  - apply bind_ok in E as (w & _ & Hv%validated_phase). unfold ignore. does_step; [|by does_all].
    by apply does_attempt, status_does.
  - repeat lazymatch goal with
    | |- does (run (update_flash_backup_status _ _ _)) => by apply status_does
    | _ => does_step
    end.
Qed.

(** C25: Requests and background tasks run the transactions of the program.
    Whatever a request does to the database - on IAM, the identity center, the
    operations of Flash, services, credentials, accounts and members, one
    made with a developer credential, one that signs somebody in, or one of the
    owner; completed, refused or cut short at any point - is a sequence of the
    steps of [api_step]: authentication, audit records and the transactions.  The
    same holds, whatever the provider answers, of observing a service (with the roll-back it may lead to), running a schedule, applying
    retention, and reconciling a destination, a domain or a backup that was read
    before.  So every mix of requests and tasks is an execution of the program,
    and keeps what is proved of these. *)
Theorem api_runs_transactions schedule_request schedule_name r org db :
  (∀ call x db', serve config call r org db = (x, db') → rtc api_step db db') ∧
  (∀ call x db', serve_flash config provider put_secret reserved_names reserved_suffixes call r org db = (x, db') →
     rtc api_step db db') ∧
  (∀ gpu_provider secret_manager call x db' sent,
     serve_service config gpu_provider secret_manager call r org db = (x, db', sent) → rtc api_step db db') ∧
  (∀ registry_provider call x db' sent,
     serve_account config registry_provider call r org db = (x, db', sent) → rtc api_step db db') ∧
  (∀ signer mint_endpoint call x db', serve_flow config signer mint_endpoint call r org db = (x, db') → rtc api_step db db') ∧
  (∀ signer call x db', serve_developer signer call r db = (x, db') → rtc api_step db db') ∧
  (∀ storage_provider call service w x db' w',
     serve_storage config storage_provider call r org service db w = (x, db', w') → rtc api_step db db') ∧
  (∀ settings call x db', serve_session config settings call r db = (x, db') → rtc api_step db db') ∧
  (∀ settings gpu_provider call peer x db',
     serve_owner config settings gpu_provider call r peer db = (x, db') → rtc api_step db db') ∧
  (∀ github_keys name key github x db', create_key config github_keys r org name key github db = (x, db') →
     rtc api_step db db') ∧
  (∀ id x db', delete_key config r org id db = (x, db') → rtc api_step db db') ∧
  (∀ i x db', observe provider i db = (x, db') → rtc api_step db db') ∧
  (∀ e x db', run_schedule provider schedule_request schedule_name e db = (x, db') → rtc api_step db db') ∧
  (∀ e x db', enforce_retention e db = (x, db') → rtc api_step db db') ∧
  (∀ e x db', refresh_destination provider e db = (x, db') → rtc api_step db db') ∧
  (∀ e x db', reconcile_domain provider e db = (x, db') → rtc api_step db db') ∧
  (∀ id b b' x db', backup_ok b → backup_rows db !! id = Some b' → backup_le b b' →
     reconcile_backup provider (id, b) db = (x, db') → rtc api_step db db').
Proof.
  split_and!; intros *;
    [apply serve_does | apply serve_flash_does | apply serve_service_does | apply serve_account_does | apply serve_flow_does
    | apply serve_developer_does | apply serve_storage_does | apply serve_session_does
    | apply serve_owner_does | apply create_key_does | apply delete_key_does | apply observe_does
    | apply run_schedule_does | apply retention_does | apply refresh_destination_does | apply reconcile_domain_does |].
  intros Hok Hb Hle. apply reconcile_backup_does; eauto.
Qed.

End Handlers.
