(* ===== verification/Delivery.v ===== *)
(** * Delivery of one event

    What claiming, delivering and settling an event do, branch by branch, and
    what the worker tells the providers about quotas. *)
From stdpp Require Import sorting.
From S2P Require Import Prelude Text Json Policy Quota Specs Store Usage Provider Services Worker Lifecycle System.

(** ** Claiming *)

(** The order of the claims: [ORDER BY available_at, id]. *)
Definition no_later (a b : Uuid * OutboxRow) : Prop :=
  available_at (snd a) < available_at (snd b) ∨
  available_at (snd a) = available_at (snd b) ∧ (fst a ≤ fst b)%N.

Lemma earlier_no_later a b : earlier a b = true → no_later a b.
Proof.
  unfold earlier, no_later. rewrite orb_true_iff, andb_true_iff, Z.ltb_lt, Z.eqb_eq, N.ltb_lt. lia.
Qed.

Lemma not_earlier_no_later a b : earlier a b = false → no_later b a.
Proof.
  unfold earlier, no_later.
  rewrite orb_false_iff, andb_false_iff, Z.ltb_ge, Z.eqb_neq, N.ltb_ge. lia.
Qed.

Lemma no_later_refl a : no_later a a.
Proof. unfold no_later. lia. Qed.

Lemma no_later_trans a b c : no_later a b → no_later b c → no_later a c.
Proof. unfold no_later. lia. Qed.

Lemma earliest_none l : earliest l = None → l = [].
Proof. destruct l as [|x l]; simpl; [done|]. by destruct (earliest l). Qed.

Lemma earliest_minimal l x y : earliest l = Some x → y ∈ l → no_later x y.
Proof.
  revert x. induction l as [|z l IH]; intros x; simpl; [done|].
  destruct (earliest l) as [m|] eqn:E; intros [= <-] Hy; apply elem_of_cons in Hy as [-> | Hy].
  - destruct (earlier m z) eqn:Em; [by apply earlier_no_later | apply no_later_refl].
  - destruct (earlier m z) eqn:Em; [by apply IH|].
    eapply no_later_trans; [by apply not_earlier_no_later | by apply IH].
  - apply no_later_refl.
  - apply earliest_none in E as ->. by apply not_elem_of_nil in Hy.
Qed.

Lemma elem_of_claimable db id row :
  (id, row) ∈ filter (λ e, claimable (now db) (snd e) = true) (map_to_list (outbox_events db)) ↔
  outbox_events db !! id = Some row ∧ claimable (now db) row = true.
Proof. rewrite list_elem_of_filter, elem_of_map_to_list. simpl. tauto. Qed.

Lemma alter_as_insert {A} (f : A → A) (i : Uuid) (m : gmap Uuid A) x :
  m !! i = Some x → alter f i m = <[i := f x]> m.
Proof.
  intros Hi. apply map_eq. intros j. destruct (decide (i = j)) as [<-|Hne].
  - by rewrite lookup_alter_eq, lookup_insert_eq, Hi.
  - by rewrite lookup_alter_ne, lookup_insert_ne.
Qed.

(** Claiming an event.  A claim never fails; it finds nothing only when no
    event is due, and then changes nothing.  Otherwise it takes, among the
    events that are due, the one that has waited longest (ties by identifier),
    counts the attempt, changes no other event and no service, and locks the
    event, so that no worker claims it within the next 120 seconds unless it is
    released. *)
Lemma claim_takes_earliest db :
  match claim_outbox_event db with
  | Err _ => False
  | Ok (None, db') =>
      db' = db ∧ ∀ id row, outbox_events db !! id = Some row → claimable (now db) row = false
  | Ok (Some e, db') =>
      ∃ row, outbox_events db !! event_id e = Some row ∧ claimable (now db) row = true ∧
        event_topic e = topic row ∧ event_aggregate_id e = aggregate_id row ∧
        event_payload e = payload row ∧ event_attempts e = attempts row + 1 ∧
        (∀ id' row', outbox_events db !! id' = Some row' → claimable (now db) row' = true →
           no_later (event_id e, row) (id', row')) ∧
        service_instances db' = service_instances db ∧
        ∃ locked, outbox_events db' = <[event_id e := locked]> (outbox_events db) ∧
          attempts locked = attempts row + 1 ∧ delivered_at locked = None ∧
          ∀ t, now db ≤ t ≤ now db + LOCK_SECONDS → claimable t locked = false
  end.
Proof.
  destruct (claim_outbox_event db) as [[[e|] db']|x] eqn:E.
  - destruct (claim_ok _ _ _ E) as (row & Hrow & Hcl & Ht & Ha & Hp & Hn & ->).
    exists row. split_and!; try done.
    + intros id' row' Hrow' Hcl'. unfold claim_outbox_event in E.
      destruct (earliest _) as [[id r]|] eqn:Em; [|done]. injection E as <- _. simpl in *.
      apply earliest_elem in Em as Hin. apply elem_of_claimable in Hin as [Hr _]. simplify_eq.
      eapply earliest_minimal; [exact Em | by apply elem_of_claimable].
    + exists (set_lock (Some (now db)) (attempts row + 1) (available_at row) (delivered_at row) row).
      split_and!; simpl.
      * by apply alter_as_insert.
      * done.
      * unfold claimable in Hcl. by destruct (delivered_at row).
      * intros t Ht'. unfold claimable. simpl. apply andb_false_iff. right. unfold LOCK_SECONDS in *. lia.
  - unfold claim_outbox_event in E. destruct (earliest _) as [[? ?]|] eqn:Em; [done|].
    injection E as <-. split; [done|]. intros id row Hrow. apply not_true_is_false. intros Hcl.
    apply earliest_none in Em. apply (not_elem_of_nil (id, row)). rewrite <- Em.
    by apply elem_of_claimable.
  - unfold claim_outbox_event in E. by destruct (earliest _) as [[? ?]|].
Qed.

Lemma retry_delay_exponent n : retry_delay n = 2 ^ Z.max 1 (Z.min n 8).
Proof.
  unfold retry_delay. apply Z.min_l.
  transitivity (2 ^ 8); [apply Z.pow_le_mono_r; lia | lia].
Qed.

Lemma retry_delay_bounds n : 2 ≤ retry_delay n ≤ 256.
Proof.
  rewrite retry_delay_exponent. change 2 with (2 ^ 1) at 1. change 256 with (2 ^ 8).
  split; apply Z.pow_le_mono_r; lia.
Qed.

Lemma retry_delay_mono n m : n ≤ m → retry_delay n ≤ retry_delay m.
Proof. intros Hn. rewrite !retry_delay_exponent. apply Z.pow_le_mono_r; lia. Qed.

(** ** Delivering *)

Section Deliver.
Context `{JsonParser, UuidText, SqlCast, LimitsDecoder, Serde SyouyuSpec}.
Context (vpc_configured : bool).
Context (answer : ProviderContext → option ReconcileRequest → option Response).
Context (revocation_answer : PrincipalContextRevocationPayload → option Response).

Abbreviation deliver := (deliver vpc_configured answer revocation_answer).
Abbreviation process_event := (process_event vpc_configured answer revocation_answer).

(** What [deliver] does to the database: nothing, or what is recorded for the
    provider's answer. *)
Lemma deliver_cases e db outcome db' :
  deliver e db = (outcome, db') →
  db' = db ∨
  ∃ p i body r, deliver_check vpc_configured e db = Ok (Request p i) ∧ request_body e p i db = Ok body ∧
    answer (request_context e p db) body = Some r ∧ deliver_finish e p r db = (outcome, db').
Proof.
  unfold deliver. intros Hd. destruct (String.eqb _ _).
  - left. destruct (event_payload e); by injection Hd.
  - destruct (deliver_check vpc_configured e db) as [[|p i]|x] eqn:Ec; [left; by injection Hd | |left; by injection Hd].
    destruct (request_body e p i db) as [body|x] eqn:Eb; [|left; by injection Hd].
    destruct (answer _ body) as [r|] eqn:Ea; [|left; by injection Hd].
    right. by exists p, i, body, r.
Qed.

Lemma deliver_check_request e db p i :
  deliver_check vpc_configured e db = Ok (Request p i) →
  is_service_topic (event_topic e) = true ∧ event_payload e = ReconcileBody p ∧
  ∃ row, service_instances db !! service_instance_id p = Some row ∧
    i = Build_ServiceInstance (service_instance_id p) row ∧
    service_instance_matches_payload i p = true.
Proof.
  intros Hc. destruct (deliver_check_inv _ _ _ _ Hc) as (Ht & p' & Hp & Hm); [eauto|].
  destruct (service_instances db !! service_instance_id p') as [row|] eqn:Er; [|done].
  destruct (service_instance_matches_payload _ p') eqn:Em; [|done]. injection Hm as -> ->.
  split_and!; [done | done | by exists row].
Qed.

Lemma deliver_finish_deletes e p r db :
  event_topic e = "service-instance.delete" → fst (deliver_finish e p r db) = Ok () →
  is_success (status_code r) = true ∧ is_Some (accepted_operation r) ∨
  provider_delete_already_absent (event_topic e) r = true.
Proof.
  intros Ht. unfold deliver_finish. rewrite Ht.
  destruct (provider_delete_already_absent _ r); [by right|]. simpl.
  destruct (is_success (status_code r)); simpl; [|done].
  destruct (accepted_operation r) eqn:E; simpl; [|done]. left. split; [done | by eexists].
Qed.

Lemma deliver_recorded e db outcome db' :
  deliver e db = (outcome, db') →
  db' = db ∨ ∃ p, event_payload e = ReconcileBody p ∧ recorded e p db outcome db'.
Proof.
  intros Hd. destruct (deliver_cases _ _ _ _ Hd) as [->|(p & i & body & r & Hc & _ & _ & Hf)]; [by left|].
  right. exists p.
  destruct (deliver_check_request _ _ _ _ Hc) as (Ht & Hp & _).
  split; [done|]. by eapply deliver_finish_recorded.
Qed.

(** A failed delivery and a quota delivery leave the database alone. *)
Lemma deliver_failed_same e db x db' : deliver e db = (Err x, db') → db' = db.
Proof.
  intros Hd. destruct (deliver_recorded _ _ _ _ Hd) as [->|(p & _ & Hrec)]; [done|]. by inversion Hrec.
Qed.

(** Quota events never touch the life of a service: whatever the provider
    answers, delivering a [service-instance.flash-quota] event changes nothing
    in the database (state, status and generation included). *)
Lemma quota_delivery_changes_nothing e db :
  event_topic e = "service-instance.flash-quota" → snd (deliver e db) = db.
Proof.
  intros Ht. destruct (deliver e db) as [outcome db'] eqn:Hd. simpl.
  destruct (deliver_recorded _ _ _ _ Hd) as [-> | (p & _ & Hrec)]; [done|].
  inversion Hrec; congruence.
Qed.

(** C29: A service row disappears only when its deletion is confirmed.  If
    delivering an event removes a service, the event asks for the deletion of
    exactly this service, the row is being deleted at the generation of the
    event, and the provider either accepted the deletion or answered 404 with
    the complete JSON envelope that says the service is not found. *)
Theorem removal_is_confirmed e db id r :
  service_instances db !! id = Some r →
  service_instances (snd (deliver e db)) !! id = None →
  event_topic e = "service-instance.delete" ∧ state r = Deleting ∧
  ∃ p response, event_payload e = ReconcileBody p ∧ service_instance_id p = id ∧
    payload_generation p = generation r ∧ payload_provider p = provider r ∧
    answer (request_context e p db) None = Some response ∧
    (is_success (status_code response) = true ∧ is_Some (accepted_operation response) ∨
     provider_delete_already_absent (event_topic e) response = true).
Proof.
  intros Hr Hgone. destruct (deliver e db) as [outcome db'] eqn:Hd. simpl in Hgone.
  destruct (deliver_cases _ _ _ _ Hd) as [->|(p & i & body & a & Hc & Hb & Ha & Hf)]; [congruence|].
  destruct (deliver_check_request _ _ _ _ Hc) as (Htop & Hp & row & Hrow & -> & Hm).
  pose proof (deliver_finish_recorded e p a db outcome db' Htop Hf) as Hrec.
  destruct Hrec as [x Hx | Ht | r' Ht Hr' Hdel | Ht Hno | r' st v db' Ht Hr' Hst Hv Hfr | Ht Hno];
    [congruence | congruence | | congruence | | congruence].
  - apply report_row_some in Hr' as (Hr' & Hg & Hprov).
    assert (service_instance_id p = id) as <-.
    { simpl in Hgone. apply lookup_delete_None in Hgone as [?|?]; congruence. }
    simplify_eq. split_and!; [done | done |]. exists p, a. unfold request_body in Hb.
    rewrite Ht in Hb. injection Hb as <-. split_and!; try done.
    apply (deliver_finish_deletes e p a db Ht). by rewrite Hf.
  - apply flash_frame_agrees in Hfr as [Es _ _]. rewrite Es in Hgone. simpl in Hgone.
    by apply lookup_insert_None in Hgone as [? _]; congruence.
Qed.

(** The row of an event after it was marked as delivered, and after it was
    scheduled again. *)
Definition delivered (t : Z) (row : OutboxRow) : OutboxRow :=
  set_lock None (attempts row) (available_at row) (Some t) row.
Definition rescheduled (t : Z) (row : OutboxRow) : OutboxRow :=
  set_lock None (attempts row) t None row.

(** A reconcile event whose generation is current, answered by the provider
    with an accepted operation, is processed to the end: exactly this service
    gets the reported state - [error] when the operation says so, [ready]
    otherwise - and the operation as its status, nothing else of it changes, and
    the event is delivered.  The figures in the report of a Flash service have to
    be readable as numbers by the trigger that keeps its revisions. *)
Lemma reconcile_event_processed e p i body r o row db :
  event_topic e = "service-instance.reconcile" →
  deliver_check vpc_configured e db = Ok (Request p i) →
  request_body e p i db = Ok body → answer (request_context e p db) body = Some r →
  is_success (status_code r) = true → accepted_operation r = Some o →
  outbox_events db !! event_id e = Some row →
  let reported := set_reported (if provider_reconcile_failed (operation_status o) then Error else Ready)
                    (report_status (operation_id o) (operation_status o)) (instance_row i) in
  is_ok (revision_healthy reported) = true ∨ provider (instance_row i) ≠ "flash" →
  ∃ db', process_event e db = Ok ((), db') ∧
    service_instances db' = <[instance_id i := reported]> (service_instances db) ∧
    outbox_events db' = <[event_id e := delivered (now db) row]> (outbox_events db).
Proof.
  intros Ht Hc Hb Ha Hs Ho Hrow reported Hread.
  destruct (deliver_check_request _ _ _ _ Hc) as (_ & _ & svc & Hsvc & -> & Hm).
  unfold service_instance_matches_payload in Hm. rewrite !andb_true_iff, Z.eqb_eq, String.eqb_eq in Hm.
  assert (Hrep : report_row (service_instance_id p) (payload_provider p) (payload_generation p) db = Some svc).
  { apply report_row_some. tauto. }
  unfold process_event, Worker.process_event, Worker.deliver. rewrite Ht. simpl.
  rewrite Hc, Hb, Ha. unfold deliver_finish. rewrite Ht, Hs, Ho. simpl.
  destruct (put_service_total (service_instance_id p) reported db Hread) as (f & Hput).
  assert (Hmark : ∀ st, reported = set_reported st (report_status (operation_id o) (operation_status o)) svc →
    mark_service_instance st (service_instance_id p) (payload_provider p) (payload_generation p) (operation_id o)
      (operation_status o) db = Ok (true, set_flash f
        (set_services (<[service_instance_id p := reported]> (service_instances db)) db))).
  { intros st Hst. unfold mark_service_instance, mbind, tx_bind, query. rewrite Hrep, <- Hst. by rewrite Hput. }
  unfold reported in *. simpl in *.
  destruct (provider_reconcile_failed (operation_status o));
    unfold mark_service_instance_error, mark_service_instance_ready, run_store;
    rewrite (Hmark _ eq_refl); simpl; eexists; (split; [reflexivity|]); simpl; split; try done;
    by rewrite (alter_as_insert _ _ _ row Hrow).
Qed.

(** C33: A failed delivery is retried.  When [deliver] fails - a request or a
    store error, a refusing provider, a payload that does not decode - nothing
    but the event changes: it is released, stays undelivered, keeps its count of
    attempts, and becomes due after a delay that grows with the attempts and
    stays between 2 and 256 seconds. *)
Theorem failed_delivery_retried e db x row :
  fst (deliver e db) = Err x → x ≠ StalePayload →
  outbox_events db !! event_id e = Some row → delivered_at row = None →
  process_event e db =
    Ok ((), set_outbox (<[event_id e := rescheduled (now db + retry_delay (event_attempts e)) row]>
                          (outbox_events db)) db) ∧
  2 ≤ retry_delay (event_attempts e) ≤ 256 ∧
  (∀ n, n ≤ event_attempts e → retry_delay n ≤ retry_delay (event_attempts e)).
Proof.
  intros Hx Hnot Hrow Hd. split; [|split; [apply retry_delay_bounds | intros n; apply retry_delay_mono]].
  unfold process_event, Worker.process_event. destruct (deliver e db) as [outcome db'] eqn:Hdel.
  simpl in Hx. subst outcome. rewrite (deliver_failed_same _ _ _ _ Hdel).
  assert (settle e (Err x) = retry_outbox_event (event_id e) (event_attempts e)) as ->
    by (by destruct x).
  unfold retry_outbox_event, update_event. rewrite (alter_as_insert _ _ _ row Hrow), Hd. done.
Qed.

(** A superseded event is dropped.  An event for a service of another
    generation than the event's (or of another account, project or provider) is
    marked as delivered without a request to the provider and without any other
    change. *)
Lemma stale_event_dropped e p r row db :
  is_service_topic (event_topic e) = true → event_payload e = ReconcileBody p →
  service_instance_id p = event_aggregate_id e → has_target vpc_configured (payload_provider p) = Ok () →
  (event_topic e = "service-instance.flash-quota" → payload_provider p = "flash") →
  service_instances db !! service_instance_id p = Some r →
  service_instance_matches_payload (Build_ServiceInstance (service_instance_id p) r) p = false →
  outbox_events db !! event_id e = Some row →
  process_event e db = Ok ((), set_outbox (<[event_id e := delivered (now db) row]> (outbox_events db)) db).
Proof.
  intros Htop Hp Hid Htarget Hq Hr Hm Hrow.
  assert (Hc : deliver_check vpc_configured e db = Err StalePayload).
  { unfold deliver_check. rewrite Htop, Hp. simpl. rewrite bool_decide_true by done. simpl.
    destruct (String.eqb_spec (event_topic e) "service-instance.flash-quota") as [E|]; simpl.
    - rewrite (Hq E). simpl. by rewrite Hr, Hm.
    - rewrite Htarget. simpl. by rewrite Hr, Hm. }
  unfold process_event, Worker.process_event, Worker.deliver.
  destruct (String.eqb_spec (event_topic e) PRINCIPAL_CONTEXT_REVOKE_ACTION) as [E|]; [by rewrite E in Htop|].
  rewrite Hc. simpl. unfold mark_outbox_delivered, update_event.
  by rewrite (alter_as_insert _ _ _ row Hrow).
Qed.

(** A revocation ends.  A well-formed revocation of a principal context is
    delivered once its context has been expired for the grace period of 15
    seconds, even if the provider never answers. *)
Lemma expired_revocation_dropped e p row db :
  event_topic e = PRINCIPAL_CONTEXT_REVOKE_ACTION → event_payload e = RevocationBody p →
  revoked_provider p = "flow" → context_id p = event_aggregate_id e → 0 < revoked_generation p →
  i64_min ≤ expires_at p → expires_at p + PRINCIPAL_CONTEXT_REVOCATION_GRACE_SECONDS ≤ now db →
  outbox_events db !! event_id e = Some row →
  process_event e db = Ok ((), set_outbox (<[event_id e := delivered (now db) row]> (outbox_events db)) db).
Proof.
  intros Ht Hp Hprov Hid Hg Hmin Hexp Hrow. unfold process_event, Worker.process_event, Worker.deliver.
  rewrite Ht, String.eqb_refl, Hp. unfold deliver_principal_context_revocation.
  rewrite Hprov, bool_decide_true by done. simpl.
  assert ((revoked_generation p <=? 0) = false) as -> by lia. simpl.
  assert (principal_context_revocation_expired (expires_at p) (now db) = true) as ->.
  { unfold principal_context_revocation_expired, i64_saturating_add, PRINCIPAL_CONTEXT_REVOCATION_GRACE_SECONDS in *.
    lia. }
  unfold settle, mark_outbox_delivered, update_event. by rewrite (alter_as_insert _ _ _ row Hrow).
Qed.

End Deliver.

(** ** The weekly policy *)

Section WeeklyPolicy.
Context `{LimitsDecoder}.

Lemma accounts_of_elem cloud db a :
  a ∈ accounts_of cloud db ↔ cloud_organization_accounts db !! a = Some cloud.
Proof.
  unfold accounts_of. rewrite (merge_sort_Permutation N.le), list_elem_of_fmap. split.
  - intros ([a' c] & -> & Hin). rewrite list_elem_of_filter, elem_of_map_to_list in Hin. simpl in *.
    destruct Hin as [-> Hin]. done.
  - intros Ha. exists (a, cloud). rewrite list_elem_of_filter, elem_of_map_to_list. done.
Qed.

Lemma cloud_weekly_ok org db accounts limits :
  cloud_flash_weekly_quota org db = Ok (Some (accounts, limits)) →
  organization_flash_weekly_quotas_enabled db = true ∧
  ∃ cloud, cloud_organization_accounts db !! org = Some cloud ∧ accounts = accounts_of cloud db.
Proof.
  unfold cloud_flash_weekly_quota. rewrite bind_ok. intros (cloud & Hc%ok_or_ok & Hok).
  rewrite bind_ok in Hok. destruct Hok as (m & _ & Hok).
  destruct (organization_flash_weekly_quotas_enabled db); [|done]. simpl in Hok.
  rewrite bind_ok in Hok. destruct Hok as (u & Hlen%fail_if_ok & Hok).
  rewrite bind_ok in Hok. destruct Hok as (l & _ & Hok). injection Hok as <- _.
  split; [done|]. exists cloud. split; [done|]. apply orb_false_iff in Hlen as [_ Hlen].
  apply Z.ltb_ge in Hlen. rewrite length_take in Hlen.
  apply take_ge. lia.
Qed.

(** The weekly Flash policy sent with every request.  The ceilings of the
    member are never above those of the account, there are member ceilings
    exactly when the service is charged to a member, and the ceilings of the
    cloud organization come, only when they are switched on, with the complete
    sorted list of the accounts that share them, this account included. *)
Lemma weekly_policy_nested p user db pol :
  request_policy p user db = Ok (Some pol) →
  is_some (member pol) = is_some user ∧
  (∀ m, member pol = Some m → WeeklyLimits.le m (account_limits pol)) ∧
  (∀ c, cloud_organization pol = Some c →
     organization_flash_weekly_quotas_enabled db = true ∧
     Sorted N.le (account_ids c) ∧
     ∃ cloud, cloud_organization_accounts db !! payload_organization_id p = Some cloud ∧
       ∀ a, a ∈ account_ids c ↔ cloud_organization_accounts db !! a = Some cloud).
Proof.
  unfold request_policy. destruct (negb _); [done|]. rewrite bind_ok. intros (quota & _ & Hok).
  rewrite bind_ok in Hok. destruct Hok as (mq & Hmq & Hok).
  rewrite bind_ok in Hok. destruct Hok as (cloud & Hcloud & Hok). injection Hok as <-. simpl.
  assert (Hsome : is_some mq = is_some user).
  { destruct user; [|by injection Hmq as <-]. rewrite bind_ok in Hmq.
    by destruct Hmq as (l & _ & [= <-]). }
  split_and!.
  - by destruct mq.
  - intros m. destruct mq; [|done]. intros [= <-]. apply WeeklyLimits.min_le_r.
  - intros c. destruct cloud as [[accounts limits]|]; [|done]. intros [= <-]. simpl.
    destruct (cloud_flash_weekly_quota _ db) as [o|] eqn:E; [|done]. injection Hcloud as ->.
    apply cloud_weekly_ok in E as (Hon & cl & Hcl & ->). split_and!; [done | | ].
    + unfold accounts_of. apply Sorted_merge_sort. intros a b. lia.
    + exists cl. split; [done|]. apply accounts_of_elem.
Qed.

End WeeklyPolicy.
