(* ===== verification/Runs.v ===== *)
(** * Concrete executions

    A small account in which a Flash service is created, reconciled and
    deleted, step by step: the hypotheses of the theorems on the running system
    and on the delivery of events hold there. *)
From stdpp Require Import sorting.
From S2P Require Import Prelude Text Json Net Policy Quota Specs Flash Store Usage Provider Prepare PrepareFacts Services FlowAccess Cloud Identity Worker Lifecycle System Delivery.

(** ** The libraries *)

(** Casts that accept decimal numbers and the words true and false. *)
Definition decimal_cast : SqlCast := {|
  to_bigint := parse_i64;
  to_integer := parse_i64;
  to_boolean s := if String.eqb s "true" then Some true else if String.eqb s "false" then Some false else None;
|}.
#[local] Instance run_cast : SqlCast := decimal_cast.
#[local] Instance run_limits : LimitsDecoder := limits_of_value.
#[local] Instance run_flow : Serde FlowSpec := sample_serde [].
#[local] Instance run_syouyu : Serde SyouyuSpec := sample_serde [].
#[local] Instance run_vpc : Serde VpcSpec := sample_serde [].
(** Every Flash specification is written as the text ["new"]. *)
#[local] Instance run_flash : Serde FlashSpec := {|
  to_value _ := Str "new";
  from_value v := s ← as_str v; if String.eqb s "new" then Some witness_new_flash else None;
|}.
#[local] Instance run_net : IpNetLib := Blocks.lib.
#[local] Instance run_url : UrlLib := witness_url_lib.
#[local] Instance run_json : JsonText := witness_json_text.
#[local] Instance run_uuid : UuidText := {|
  uuid_to_string id := int_to_string (Z.of_N id);
  uuid_parse s := Z.to_N <$> parse_i64 s;
|}.
#[local] Instance run_time : TimeText := int_to_string.
#[local] Instance run_sql : SqlText := λ s, s.
#[local] Instance run_collation : SqlCollation := String.compare.
#[local] Instance run_policy_serde : Serde PolicyDocument := sample_serde [].
(** The body [1] is an accepted operation. *)
#[local] Instance run_parser : JsonParser := λ body,
  if bool_decide (body = [1])
  then Some (Object [("operation_id", Str "77"); ("status", Object [("phase", Str "running")])])
  else None.

Definition accepted : Response := {| status_code := 202; content_type := None; body := [1] |}.

(** ** The run *)

(** The database after a transaction. *)
Definition after {A} (m : tx A) (db : Db) : Db :=
  match m db with Ok (_, db') => db' | Err _ => db end.
Definition succeeds {A} (m : tx A) (db : Db) : bool :=
  match m db with Ok _ => true | Err _ => false end.

Lemma succeeds_after {A} (m : tx A) db : succeeds m db = true → ∃ a, m db = Ok (a, after m db).
Proof. unfold succeeds, after. destruct (m db) as [[a db']|]; [eauto | done]. Qed.

(** The account of [witness_db], without services. *)
Definition run_db : Db :=
  set_quota_owners ∅ (set_services ∅ witness_db).

Definition create_web : tx ServiceInstance :=
  create_service_instance_with_id_for_user 1%N 2%N 3%N "flash" "web" (Str "new") 30%N None.
Definition delete_web : tx ServiceInstance := begin_delete_service_instance 1%N 30%N "flash" 3%N.

Definition run_start : System := Build_System run_db ∅.
Definition run_created : System := Build_System (after create_web run_db) ∅.
Definition run_deleting : System := Build_System (after delete_web (database run_created)) ∅.

Definition create_event : OutboxEvent :=
  Build_OutboxEvent 1000%N "service-instance.reconcile" 30%N
    (ReconcileBody (event_body 30%N 1%N 2%N 3%N "flash" 1)) 1.
Definition delete_event : OutboxEvent :=
  Build_OutboxEvent 1001%N "service-instance.delete" 30%N
    (ReconcileBody (event_body 30%N 1%N 2%N 3%N "flash" 2)) 1.

Lemma create_web_succeeds : succeeds create_web run_db = true.
Proof. vm_compute. reflexivity. Qed.
Lemma delete_web_succeeds : succeeds delete_web (database run_created) = true.
Proof. vm_compute. reflexivity. Qed.

Lemma run_start_initial : initial run_start.
Proof. split_and!; reflexivity. Qed.

Lemma run_created_step : program_step true run_start run_created.
Proof.
  destruct (succeeds_after _ _ create_web_succeeds) as [i Hi].
  eapply program_api; [exact (api_create _ _ _ _ _ _ _ _ _ _ _ Hi) | reflexivity].
Qed.

Lemma run_deleting_step : program_step true run_created run_deleting.
Proof.
  destruct (succeeds_after _ _ delete_web_succeeds) as [i Hi].
  eapply program_api; [exact (api_delete _ _ _ _ _ _ _ Hi) | reflexivity].
Qed.

Lemma run_created_running : running true run_created.
Proof. exists run_start. split; [apply run_start_initial | apply rtc_once, run_created_step]. Qed.

Lemma run_deleting_running : running true run_deleting.
Proof.
  exists run_start. split; [apply run_start_initial|].
  eapply rtc_l; [apply run_created_step | apply rtc_once, run_deleting_step].
Qed.

(** Two workers: the first holds the superseded event, the second delivers the
    deletion. *)
Definition run_claimed : System :=
  Build_System (after claim_outbox_event (database run_deleting))
    (<[0%nat := Claimed create_event]> (workers run_deleting)).
Definition run_claimed_both : System :=
  Build_System (after claim_outbox_event (database run_claimed))
    (<[1%nat := Claimed delete_event]> (workers run_claimed)).
Definition run_calling : System :=
  Build_System (database run_claimed_both)
    (<[1%nat := Calling delete_event (event_body 30%N 1%N 2%N 3%N "flash" 2)]> (workers run_claimed_both)).
Definition run_removed : System :=
  Build_System (snd (deliver_finish delete_event (event_body 30%N 1%N 2%N 3%N "flash" 2) accepted
                       (database run_calling)))
    (<[1%nat := Finished delete_event (Ok ())]> (workers run_calling)).

(** The row of the service that is being deleted. *)
Definition deleting_row : ServiceRow :=
  Build_ServiceRow 1%N 2%N "flash" "web" 2 Deleting (Str "new") (Object []) (Some 5%N).

Lemma run_deleting_row : service_instances (database run_deleting) !! 30%N = Some deleting_row.
Proof. vm_compute. reflexivity. Qed.

(** A claim by worker [w], computed. *)
Lemma claim_step s w e :
  workers s !! w = None →
  claim_outbox_event (database s) = Ok (Some e, after claim_outbox_event (database s)) →
  program_step true s
    (Build_System (after claim_outbox_event (database s)) (<[w := Claimed e]> (workers s))).
Proof. intros Hw Hc. apply program_worker. by eapply worker_claim. Qed.

Lemma run_claimed_step : program_step true run_deleting run_claimed.
Proof. apply claim_step; [reflexivity | vm_compute; reflexivity]. Qed.

Lemma run_claimed_both_step : program_step true run_claimed run_claimed_both.
Proof. apply claim_step; [reflexivity | vm_compute; reflexivity]. Qed.

Lemma run_calling_step : program_step true run_claimed_both run_calling.
Proof.
  apply program_worker.
  refine (worker_request true run_claimed_both run_calling 1%nat delete_event _ _ _ _ eq_refl);
    vm_compute; reflexivity.
Qed.

Lemma run_removed_step : program_step true run_calling run_removed.
Proof.
  apply program_worker.
  refine (worker_answered true run_calling run_removed 1%nat delete_event _ accepted (Ok ()) _ _ _ eq_refl);
    vm_compute; reflexivity.
Qed.

Lemma run_removed_steps : rtc (program_step true) run_deleting run_removed.
Proof.
  eapply rtc_l; [exact run_claimed_step|]. eapply rtc_l; [exact run_claimed_both_step|].
  eapply rtc_l; [exact run_calling_step | exact (rtc_once _ _ run_removed_step)].
Qed.

(** ** The theorems on this run *)

Lemma api_refines_transitions_witness : rtc transition run_db (after create_web run_db).
Proof.
  destruct (succeeds_after _ _ create_web_succeeds) as [i Hi].
  apply api_refines_transitions. exact (api_create _ _ _ _ _ _ _ _ _ _ _ Hi).
Defined.

Lemma no_lost_wakeup_witness :
  ∃ eid row, outbox_events (database run_deleting) !! eid = Some row ∧ delivered_at row = None ∧
    event_for "service-instance.delete" 30%N deleting_row row ∧
    ∀ t, available_at row ≤ t → (∀ l, locked_at row = Some l → l + LOCK_SECONDS < t) →
      claimable t row = true.
Proof.
  apply (no_lost_wakeup true run_deleting 30%N deleting_row).
  - apply run_deleting_running.
  - apply run_deleting_row.
  - reflexivity.
Defined.

Lemma deleting_is_final_witness :
  (service_instances (database run_removed) !! 30%N = Some deleting_row ∨
   service_instances (database run_removed) !! 30%N = None) ∧
  (service_instances (database run_removed) !! 30%N = None →
   service_instances (database run_removed) !! 30%N = None).
Proof.
  apply (deleting_is_final true run_deleting run_removed run_removed 30%N deleting_row).
  - apply run_deleting_running.
  - apply run_removed_steps.
  - apply rtc_refl.
  - apply run_deleting_row.
  - reflexivity.
Defined.

Definition created_row : ServiceRow :=
  Build_ServiceRow 1%N 2%N "flash" "web" 1 Provisioning (Str "new") (Object []) (Some 5%N).

Lemma run_created_row : service_instances (database run_created) !! 30%N = Some created_row.
Proof. vm_compute. reflexivity. Qed.

Lemma generation_tracks_desired_state_witness :
  organization_id deleting_row = organization_id created_row ∧ provider deleting_row = provider created_row ∧
  generation created_row ≤ generation deleting_row ∧
  (generation deleting_row = generation created_row →
     project_id deleting_row = project_id created_row ∧ name deleting_row = name created_row ∧
     spec deleting_row = spec created_row ∧
     (state deleting_row = Deleting ↔ state created_row = Deleting)).
Proof.
  apply (generation_tracks_desired_state true run_created run_deleting 30%N).
  - apply run_created_running.
  - apply rtc_once, run_deleting_step.
  - apply run_created_row.
  - apply run_deleting_row.
Defined.

(** ** The theorems on the delivery of one event *)

Definition web_payload (g : Z) : ReconcilePayload := event_body 30%N 1%N 2%N 3%N "flash" g.
Definition created_db : Db := after claim_outbox_event (database run_created).
Definition always (_ : ProviderContext) (_ : option ReconcileRequest) : option Response := Some accepted.
Definition never (_ : ProviderContext) (_ : option ReconcileRequest) : option Response := None.
Definition no_revocation (_ : PrincipalContextRevocationPayload) : option Response := None.

Definition quota_event : OutboxEvent :=
  Build_OutboxEvent 5%N "service-instance.flash-quota" 30%N (ReconcileBody (web_payload 1)) 1.

Lemma removal_is_confirmed_witness :
  event_topic delete_event = "service-instance.delete" ∧ state deleting_row = Deleting ∧
  ∃ p response, event_payload delete_event = ReconcileBody p ∧ service_instance_id p = 30%N ∧
    payload_generation p = generation deleting_row ∧ payload_provider p = provider deleting_row ∧
    always (request_context delete_event p (database run_claimed_both)) None = Some response ∧
    (is_success (status_code response) = true ∧ is_Some (accepted_operation response) ∨
     provider_delete_already_absent (event_topic delete_event) response = true).
Proof.
  apply (removal_is_confirmed true always no_revocation delete_event (database run_claimed_both)).
  - vm_compute. reflexivity.
  - vm_compute. reflexivity.
Defined.

Definition create_row : OutboxRow :=
  default (Build_OutboxRow "" 0%N OtherBody 0 0 None None 0) (outbox_events created_db !! 1000%N).

Lemma create_row_lookup : outbox_events created_db !! 1000%N = Some create_row.
Proof. vm_compute. reflexivity. Qed.

Definition created_body : option ReconcileRequest :=
  match request_body create_event (web_payload 1) (Build_ServiceInstance 30%N created_row) created_db with
  | Ok body => body
  | Err _ => None
  end.

Lemma failed_delivery_retried_witness :
  process_event true never no_revocation create_event created_db =
    Ok ((), set_outbox (<[1000%N := rescheduled (now created_db + 2) create_row]> (outbox_events created_db))
              created_db) ∧
  2 ≤ retry_delay 1 ≤ 256 ∧ (∀ n, n ≤ 1 → retry_delay n ≤ retry_delay 1).
Proof.
  apply (failed_delivery_retried true never no_revocation create_event created_db RequestFailure create_row).
  - vm_compute. reflexivity.
  - discriminate.
  - exact create_row_lookup.
  - vm_compute. reflexivity.
Defined.

Definition stale_db : Db := database run_claimed.

Definition revocation_event : OutboxEvent :=
  Build_OutboxEvent 1000%N PRINCIPAL_CONTEXT_REVOKE_ACTION 44%N
    (RevocationBody (Build_PrincipalContextRevocationPayload 44%N 30%N 1%N 2%N 3%N "flow" 1 50)) 1.

Definition weekly_policy : FlashProviderPolicy :=
  match request_policy (web_payload 1) (Some 5%N) (set_weekly_quotas true created_db) with
  | Ok (Some pol) => pol
  | _ => Build_FlashProviderPolicy (WeeklyLimits.of_quota ResourceQuotaLimits_default) None None
  end.

