(* ===== verification/AdminRuns.v ===== *)
(** * Administration on concrete databases

    The hypotheses of the theorems on charges, the catalog of GPUs and registry
    credentials hold in the run of [Runs]. *)
From stdpp Require Import sorting.
From S2P Require Import Prelude Text Json Net Policy Quota Specs Flash Store Usage Provider Prepare PrepareFacts Services FlowAccess Cloud Identity Worker Access Admin Lifecycle AdminFacts System Charges Delivery Runs.

#[local] Instance admin_cast : SqlCast := run_cast.
#[local] Instance admin_limits : LimitsDecoder := run_limits.

Lemma allocations_are_charged_witness :
  service_quota_owners (database run_created) !! 30%N = Some (organization_id created_row, quota_user_id created_row) ∧
  (state created_row ≠ Deleting → metered (provider created_row) = true →
   (∃ user, is_Some (member_resource_quotas (database run_created) !! (organization_id created_row, user))) →
   is_Some (quota_user_id created_row)).
Proof.
  eapply allocations_are_charged; [exact run_created_running | exact run_created_row].
Defined.

(** The open device becomes private, and a second one is added. *)
Definition new_catalog : list GpuCatalogDevice :=
  [ Build_GpuCatalogDevice "gpu-0" "a100" "A100" false true [5%N; 6%N];
    Build_GpuCatalogDevice "gpu-1" "h100" "H100" true true [] ].

Lemma run_devices_unique : devices_unique run_db.
Proof.
  unfold devices_unique. simpl. intros i j a b [<- _]%lookup_singleton_Some [<- _]%lookup_singleton_Some _.
  reflexivity.
Qed.

Lemma catalog_synced : sync_gpu_catalog new_catalog run_db = Ok ((), after (sync_gpu_catalog new_catalog) run_db).
Proof. vm_compute. reflexivity. Qed.

Lemma gpu_catalog_governs_access_witness :
  devices_unique (after (sync_gpu_catalog new_catalog) run_db) ∧
  (∀ gpu user, gpu_accessible gpu user (after (sync_gpu_catalog new_catalog) run_db) =
     existsb (grants (active_users run_db) gpu user) new_catalog) ∧
  (∀ gpu user id r q p pr,
     gpu_accessible gpu user (after (sync_gpu_catalog new_catalog) run_db) ≠ gpu_accessible gpu user run_db →
     service_instances run_db !! id = Some r → state r ≠ Deleting →
     flash_gpu_service_requests run_db !! id = Some q → request_gpu_type q = gpu →
     requested_by_principal_id q = Some p → principals run_db !! p = Some pr →
     principal_organization_id pr = organization_id r →
     ∃ eid e, outbox_events (after (sync_gpu_catalog new_catalog) run_db) !! eid = Some e ∧
       outbox_events run_db !! eid = None ∧ delivered_at e = None ∧
       topic e = "service-instance.reconcile" ∧
       payload e = ReconcileBody (event_body id (organization_id r) (project_id r) p "flash" (generation r))).
Proof.
  apply (gpu_catalog_governs_access new_catalog run_db () (after (sync_gpu_catalog new_catalog) run_db)).
  - exact run_devices_unique.
  - exact catalog_synced.
Defined.

(** The access of the owner and of somebody else after it. *)
Example catalog_access :
  gpu_accessible "a100" (Some 5%N) (after (sync_gpu_catalog new_catalog) run_db) = true ∧
  gpu_accessible "a100" (Some 6%N) (after (sync_gpu_catalog new_catalog) run_db) = false ∧
  gpu_accessible "h100" None (after (sync_gpu_catalog new_catalog) run_db) = true.
Proof. vm_compute. done. Qed.

Definition reserve_ci : tx (Uuid * RegistryCredentialRow) := reserve_registry_credential 1%N 3%N "ci".

Lemma reserve_ci_succeeds : succeeds reserve_ci run_db = true.
Proof. vm_compute. reflexivity. Qed.

