(* ===== verification/CloudRuns.v ===== *)
(** * A concrete organization

    An account creates a unit, a member account in it and a policy that it
    attaches to the root: the theorems on organizations apply there. *)
From stdpp Require Import sorting.
From S2P Require Import Prelude Text Json Policy Iam Quota Store Usage Services Cloud Lifecycle CloudFacts Runs.

(** ** The libraries *)

#[local] Instance run_sql : SqlText := λ s, s.

(** Objects are [FullAWSAccess], texts are the policy [guard]. *)
Definition full_access_policy : PolicyDocument := {|
  version := POLICY_VERSION;
  statements := [{| effect := Allow; sid := None; actions := ["*"]; not_actions := [];
                    resources := ["*"]; not_resources := []; conditions := [] |}];
|}.
Definition guard_policy : PolicyDocument := {|
  version := POLICY_VERSION;
  statements := [{| effect := Allow; sid := None; actions := ["*"]; not_actions := [];
                    resources := ["*"]; not_resources := []; conditions := [] |};
                 {| effect := Deny; sid := None; actions := ["iam:*"]; not_actions := [];
                    resources := ["*"]; not_resources := []; conditions := [] |}];
|}.
#[local] Instance run_policies : Serde PolicyDocument := {|
  to_value _ := Str "guard";
  from_value v := match v with Object _ => Some full_access_policy | Str _ => Some guard_policy | _ => None end;
|}.

(** ** The run *)

Definition cloud_start : Db :=
  set_cloud (Build_CloudTables true ∅ ∅ 100000000000 ∅ ∅ ∅ ∅ ∅) (set_cloud_accounts ∅ ∅ run_db).
Definition cloud_organized : Db := after (insert_organization 500%N "main-account" "Main") cloud_start.
Definition cloud_with_unit : Db :=
  after (create_cloud_organizational_unit 500%N 1001%N "Production") cloud_organized.
Definition cloud_with_member : Db :=
  after (create_cloud_member_account 500%N 1003%N 5%N "prod-account" "Production") cloud_with_unit.
Definition cloud_with_policy : Db :=
  after (create_service_control_policy 500%N "Guard" guard_policy) cloud_with_member.
Definition guard_id : Uuid := Eval vm_compute in next_uuid cloud_with_member.
Definition cloud_guarded : Db :=
  after (change_service_control_attachment 500%N "unit" 1001%N guard_id true) cloud_with_policy.

Lemma run_changes {A} (t : tx A) db : succeeds t db = true → changes t db (after t db).
Proof. apply succeeds_after. Qed.

Lemma organized_succeeds : succeeds (insert_organization 500%N "main-account" "Main") cloud_start = true.
Proof. vm_compute. reflexivity. Qed.
Lemma unit_succeeds :
  succeeds (create_cloud_organizational_unit 500%N 1001%N "Production") cloud_organized = true.
Proof. vm_compute. reflexivity. Qed.
Lemma member_succeeds :
  succeeds (create_cloud_member_account 500%N 1003%N 5%N "prod-account" "Production") cloud_with_unit = true.
Proof. vm_compute. reflexivity. Qed.
Lemma policy_succeeds :
  succeeds (create_service_control_policy 500%N "Guard" guard_policy) cloud_with_member = true.
Proof. vm_compute. reflexivity. Qed.
Lemma guard_succeeds :
  succeeds (change_service_control_attachment 500%N "unit" 1001%N guard_id true) cloud_with_policy = true.
Proof. vm_compute. reflexivity. Qed.

Lemma cloud_start_empty : no_organizations cloud_start.
Proof. done. Qed.

Lemma cloud_run : rtc cloud_step cloud_start cloud_guarded.
Proof.
  eapply rtc_l; [exact (step_organization _ _ _ _ _ (run_changes _ cloud_start organized_succeeds))|].
  eapply rtc_l; [exact (step_unit _ _ _ _ _ (run_changes _ cloud_organized unit_succeeds))|].
  eapply rtc_l; [exact (step_account _ _ _ _ _ _ _ (run_changes _ cloud_with_unit member_succeeds))|].
  eapply rtc_l; [exact (step_policy _ _ _ _ _ (run_changes _ cloud_with_member policy_succeeds))|].
  exact (rtc_once _ _ (step_attachment _ _ _ _ _ _ _ (run_changes _ cloud_with_policy guard_succeeds))).
Qed.

Lemma cloud_guarded_wf : cloud_wf cloud_guarded.
Proof. exact (reachable_wf _ _ (no_organizations_wf _ cloud_start_empty) cloud_run). Qed.

Lemma cloud_guarded_decodes : documents_decode cloud_guarded 1000%N.
Proof.
  intros p row Hp _. apply elem_of_map_to_list in Hp.
  assert (Hall : Forall (λ e, is_some (from_value (scp_document (snd e))) = true)
    (map_to_list (service_control_policies (cloud cloud_guarded)))).
  { vm_compute. repeat constructor. }
  rewrite Forall_forall in Hall. apply is_some_true. exact (Hall _ Hp).
Qed.

(** ** Witnesses *)

Lemma organization_tree_invariant_witness : cloud_wf cloud_guarded.
Proof. exact (organization_tree_invariant cloud_start cloud_guarded cloud_start_empty cloud_run). Defined.

Definition owner_context : AuthorizationContext := {|
  context_principal_id := 1005%N; role := "owner"; policies := []; permissions_boundary := None |}.

(** The root denies [iam:*] to the owner of the member account. *)
(** Read access passes every level; the denied action does not. *)
Lemma guarded_levels :
  let _ := witness_chrono in
  (levels ← service_control_levels 1004%N cloud_guarded;
   e ← match evaluate_actor owner_context levels None 1004%N "project:read" "x" false 0 with
       | Ok e => Ok (decision e) | Err _ => Err Conflict end;
   f ← match evaluate_actor owner_context levels None 1004%N "iam:create" "x" false 0 with
       | Ok e => Ok (decision e) | Err _ => Err Conflict end;
   Ok (e, f)) = Ok (Decision.Allow, Decision.Deny).
Proof. vm_compute. reflexivity. Qed.
