(* ===== verification/FlowRuns.v ===== *)
(** * A concrete Flow service

    A credential of a ready service mints an access context; revocation and
    rotation retire it: the theorems on Flow access apply there. *)
From stdpp Require Import sorting.
From S2P Require Import Prelude Text Json Policy Quota Store Usage Provider Services FlowAccess Lifecycle FlowFacts Runs.

#[local] Instance flow_limits : LimitsDecoder := limits_of_value.
#[local] Instance flow_uuid : UuidText := {|
  uuid_to_string id := int_to_string (Z.of_N id);
  uuid_parse s := Z.to_N <$> parse_i64 s;
|}.
#[local] Instance flow_time : TimeText := int_to_string.

(** ** The run *)

Definition game_service : ServiceRow := {|
  organization_id := 1%N; project_id := 2%N; provider := "flow"; name := "game"; generation := 1;
  state := Ready; spec := Object []; status := Object [("phase", Str "running")]; quota_user_id := None |}.

Definition flow_start : Db := set_services {[40%N := game_service]} run_db.

Definition game_credential : NewFlowDeveloperCredential := {|
  new_organization := 1%N; new_service := 40%N; new_created_by := 3%N; new_name := "matchmaker";
  new_prefix := "hcf_0123456789abcdef"; new_secret_hash := [1];
  new_permissions := ["flow.queue.read"; "flow.queue.write"];
  new_expires_at := 100 + 86400; new_created_at := 100 |}.

Definition game_mint : DeveloperCredentialMint := {|
  mint_prefix := "hcf_0123456789abcdef"; mint_secret_hash := [1]; mint_context_id := 50%N;
  mint_principal_id := 60%N; mint_permissions := ["flow.queue.read"];
  mint_issued_at := 100; mint_expires_at := 300 |}.

Definition flow_created : Db := after (create_flow_developer_credential game_credential) flow_start.
Definition flow_minted : Db :=
  after (mint_flow_access_context_with_developer_credential game_mint) flow_created.

Lemma flow_created_succeeds : succeeds (create_flow_developer_credential game_credential) flow_start = true.
Proof. vm_compute. reflexivity. Qed.
Lemma flow_minted_succeeds :
  succeeds (mint_flow_access_context_with_developer_credential game_mint) flow_created = true.
Proof. vm_compute. reflexivity. Qed.

Lemma flow_run : rtc flow_step flow_start flow_minted.
Proof.
  destruct (succeeds_after _ _ flow_created_succeeds) as [x Hx].
  destruct (succeeds_after _ _ flow_minted_succeeds) as [y Hy].
  eapply rtc_l; [exact (step_request _ _ (request_create _ _ _ _ Hx))|].
  exact (rtc_once _ _ (step_request _ _ (request_mint _ _ _ _ Hy))).
Qed.

Lemma flow_minted_wf : flow_wf flow_minted.
Proof. exact (flow_reachable_wf _ _ (empty_flow_wf flow_start eq_refl) flow_run). Qed.

Lemma flow_minted_fresh : uuid_fresh flow_minted.
Proof. intros eid e He. assert (Hnone : outbox_events flow_minted = ∅) by reflexivity. rewrite Hnone in He. by apply lookup_empty_Some in He. Qed.

Definition game_scope : CredentialScope :=
  match credential_scope 1%N 40%N 1000%N flow_minted with
  | Some s => s
  | None => Build_CredentialScope 0%N (Build_CredentialRow 0%N 0%N 0%N "" "" [] [] 0 0 None None) game_service
  end.

Lemma game_scope_found : credential_scope 1%N 40%N 1000%N flow_minted = Some game_scope.
Proof. vm_compute. reflexivity. Qed.

(** ** Witnesses *)

Lemma flow_access_invariant_witness : flow_wf flow_minted.
Proof. exact (flow_access_invariant flow_start flow_minted eq_refl flow_run). Defined.

Lemma credential_revocation_takes_effect_witness :
  ∃ x db', revoke_flow_developer_credential 1%N 40%N 1000%N 3%N flow_minted = Ok (x, db') ∧
    (∃ c, credentials db' !! 1000%N = Some c ∧ is_Some (credential_revoked_at c)) ∧
    (∀ prefix hash s, credential_by_secret prefix hash db' = Some s → scope_credential_id s ≠ 1000%N) ∧
    (∀ cid r, contexts db' !! cid = Some r → context_credential r = Some 1000%N →
       context_live (now db') r = false) ∧
    (∀ cid r, contexts flow_minted !! cid = Some r → context_credential r = Some 1000%N →
       context_live (now flow_minted) r = true →
       ∃ eid e, outbox_events flow_minted !! eid = None ∧ outbox_events db' !! eid = Some e ∧
         delivered_at e = None ∧ revocation_notice cid (context_expires_at r) e).
Proof.
  exact (credential_revocation_takes_effect 1%N 40%N 1000%N 3%N game_scope flow_minted
           flow_minted_wf flow_minted_fresh game_scope_found).
Defined.

Definition minted_scope : DeveloperCredentialMintScope := {|
  minted_credential_id := 1000%N; minted_organization_id := 1%N; minted_project_id := 2%N;
  minted_service_instance_id := 40%N; minted_service_spec := Object [] |}.

