(* ===== verification/IdentityRuns.v ===== *)
(** * A concrete account

    An administrator opens an account, invites a colleague who registers, and
    signs a command line in with a device code: the theorems on identity apply
    there. *)
From stdpp Require Import sorting.
From S2P Require Import Prelude Text Json Policy Quota Store Usage Services FlowAccess Cloud Identity Lifecycle IdentityFacts Runs.

#[local] Instance people_sql : SqlText := λ s, s.
#[local] Instance people_collation : SqlCollation := String.compare.
#[local] Instance people_uuid : UuidText := {|
  uuid_to_string id := int_to_string (Z.of_N id);
  uuid_parse s := Z.to_N <$> parse_i64 s;
|}.

(** ** The run *)

Definition opened : result StoreError SessionUser * Db :=
  bootstrap_admin "ada@example.org" "Ada" "argon" "acme" "Acme" empty_db.
Definition opened_db : Db := snd opened.

Definition ada : UserId := 1000%N.
Definition acme : OrganizationId := 1001%N.

Definition invited_db : Db := after (create_invitation acme ada [7] 3600) opened_db.
Definition registered : result StoreError SessionUser * Db :=
  register_with_invitation [7] "bob@example.org" "Bob" "argon" invited_db.
Definition registered_db : Db := snd registered.

(** Two device authorizations, approved by Ada and exchanged for a token each. *)
Definition device1_db : Db := after (create_cli_device_authorization [1] [11] acme 5 600) registered_db.
Definition device_db : Db := after (create_cli_device_authorization [2] [12] acme 5 600) device1_db.
Definition approved1_db : Db := after (approve_cli_device_authorization [11] ada) device_db.
Definition approved_db : Db := after (approve_cli_device_authorization [12] ada) approved1_db.
Definition first_db : Db :=
  after (exchange_cli_device_authorization [1] "aaaaaaaaaaaaaaaa" [21] 9000) approved_db.
Definition tokens_db : Db :=
  after (exchange_cli_device_authorization [2] "bbbbbbbbbbbbbbbb" [22] 9000) first_db.

(** One request of the run. *)
Lemma request_after {A} (m : tx A) db :
  succeeds m db = true → (∀ x db', m db = Ok (x, db') → identity_request db db') →
  identity_step db (after m db).
Proof.
  intros [x Hx]%succeeds_after Hreq. apply identity_step_request. by apply (Hreq x).
Qed.

Lemma opened_step : identity_step empty_db opened_db.
Proof.
  apply identity_step_request.
  exact (request_bootstrap _ _ _ _ _ _ _ _ (surjective_pairing opened)).
Qed.
Lemma invited_step : identity_step opened_db invited_db.
Proof. apply request_after; [vm_compute; reflexivity|]. intros x db'. apply request_invite. Qed.
Lemma registered_step : identity_step invited_db registered_db.
Proof.
  apply identity_step_request.
  exact (request_register _ _ _ _ _ _ _ (surjective_pairing registered)).
Qed.

Lemma devices_steps : rtc identity_step registered_db device_db.
Proof.
  apply (rtc_l _ _ device1_db); [|apply rtc_once]; (apply request_after; [vm_compute; reflexivity|]);
    intros x db'; apply request_device.
Qed.
Lemma approvals_steps : rtc identity_step device_db approved_db.
Proof.
  apply (rtc_l _ _ approved1_db); [|apply rtc_once]; (apply request_after; [vm_compute; reflexivity|]);
    intros x db'; apply request_approve.
Qed.
Lemma first_step : identity_step approved_db first_db.
Proof. apply request_after; [vm_compute; reflexivity|]. intros x db'. apply request_exchange. Qed.
Lemma second_step : identity_step first_db tokens_db.
Proof. apply request_after; [vm_compute; reflexivity|]. intros x db'. apply request_exchange. Qed.

Lemma registered_run : rtc identity_step empty_db registered_db.
Proof. eapply rtc_l; [apply opened_step|]. eapply rtc_l; [apply invited_step | apply rtc_once, registered_step]. Qed.
Lemma approved_run : rtc identity_step empty_db approved_db.
Proof. etrans; [apply registered_run|]. etrans; [apply devices_steps | apply approvals_steps]. Qed.
Lemma tokens_run : rtc identity_step empty_db tokens_db.
Proof. etrans; [apply approved_run|]. eapply rtc_l; [apply first_step | apply rtc_once, second_step]. Qed.

Lemma reached_wf db : rtc identity_step empty_db db → identity_wf db.
Proof. intros Hr. eapply evolves_wf; [by apply identity_steps_evolve | by apply empty_identity_wf]. Qed.

Lemma invited_wf : identity_wf invited_db.
Proof. apply reached_wf. eapply rtc_l; [apply opened_step | apply rtc_once, invited_step]. Qed.

(** ** Witnesses *)

Lemma identity_invariant_witness : identity_wf tokens_db.
Proof. exact (identity_invariant empty_db tokens_db eq_refl tokens_run). Defined.

Definition bob : SessionUser :=
  match fst registered with Ok u => u | Err _ => Build_SessionUser (Build_User 0%N "" "" Suspended) [] end.

Lemma bob_admitted : admits [7] invited_db registered_db.
Proof.
  apply (admits_register _ _ _ "bob@example.org" "Bob" "argon" bob).
  vm_compute. reflexivity.
Qed.

Lemma invitation_admits_one_witness :
  invitation_available [7] device_db = false ∧
  (∀ user, join_organization_with_invitation user [7] device_db = Err InvitationUnavailable) ∧
  (∀ mail name password,
     register_with_invitation [7] mail name password device_db = (Err InvitationUnavailable, device_db)).
Proof. exact (invitation_admits_one [7] invited_db registered_db device_db invited_wf bob_admitted devices_steps). Defined.

(** The first token is revoked, the second one authenticates Ada. *)
Definition revoked_db : Db := after (revoke_cli_access_token 1013%N) tokens_db.
Definition first_token : CliTokenRow := Build_CliTokenRow ada acme "aaaaaaaaaaaaaaaa" [21] 9000 None (Some 0).
Definition ada_user : SessionUser :=
  Build_SessionUser (Build_User ada "ada@example.org" "Ada" Active) [Build_Membership acme "acme" "Acme" 1002%N "owner"].
Definition ada_principal : CliAccessTokenPrincipal := Build_CliAccessTokenPrincipal 1014%N ada_user acme 9000.

