(* ===== verification/ApiRuns.v ===== *)
(** * A concrete use of IAM

    The owner of an account signs in, creates a role through the API and assumes
    it, and gives a group of the directory access to the account with an
    assignment: the theorems on access and on the handlers apply there. *)
From stdpp Require Import sorting.
From S2P Require Import Prelude Text Json Net Policy Iam RoleTrust Quota Specs Store Usage Prepare Services FlowAccess Cloud Identity Access IdentityCenter Authorize Routes Lifecycle IdentityFacts AccessFacts ApiFacts Runs.

(** ** The libraries *)

#[local] Instance api_sql : SqlText := λ s, s.
#[local] Instance api_collation : SqlCollation := String.compare.
#[local] Instance api_uuid : UuidText := {|
  uuid_to_string id := int_to_string (Z.of_N id);
  uuid_parse s := Z.to_N <$> parse_i64 s;
|}.
#[local] Instance api_text : JsonText := {| to_vec _ := Some [] |}.
#[local] Instance api_chrono : Chrono := witness_chrono.
#[local] Instance api_web : WebLib := {|
  to_str v := Some (of_bytes v);
  token_hash s := bytes s;
  csrf_token raw key := Some (raw ++ key)%string;
  iam_semantics_digest := "0123456789abcdef0123456789abcdef0123456789abcdef0123456789abcdef";
|}.

Definition open_policy : PolicyDocument := {|
  version := POLICY_VERSION;
  statements := [{| effect := Allow; sid := None; actions := ["*"]; not_actions := [];
                    resources := ["*"]; not_resources := []; conditions := [] |}];
|}.
#[local] Instance api_policies : Serde PolicyDocument := {|
  to_value _ := Str "open";
  from_value v := match v with Str _ => Some open_policy | Object _ => Some open_policy | _ => None end;
|}.
#[local] Instance api_aws : Serde AwsPolicy := {| to_value _ := Null; from_value _ := None |}.

(** The role trusts the account. *)
Definition account_trust : RoleTrustDocument := {|
  trust_version := Some "2012-10-17";
  trust_statements := Many [{|
    trust_sid := None; trust_effect := Allow; trust_action := One "sts:AssumeRole";
    trust_principal := Accounts (One "arn:aws:iam::100000000000:root") |}] |}.
#[local] Instance api_trust : Serde RoleTrustDocument := {|
  to_value _ := Str "trust";
  from_value v := match v with Str _ => Some account_trust | _ => None end;
|}.

(** ** The account and the console *)

Definition console : RuntimeConfig := Build_RuntimeConfig "key" ["https://console"].

Definition acme : OrganizationId := 1001%N.
Definition ada : UserId := 1000%N.

Definition founded_db : Db := snd (bootstrap_admin "ada@example.org" "Ada" "argon" "acme" "Acme" empty_db).
Definition active_db : Db :=
  set_access (set_activation (Build_Activation true true true true) (access founded_db)) founded_db.
Definition login_db : Db := after (create_session ada (bytes "cookie") 90000 "local") active_db.

Definition console_request : Request := {|
  headers name := if String.eqb name ORIGIN then Some (bytes "https://console")
                  else if String.eqb name CSRF_HEADER then Some (bytes "cookiekey") else None;
  cookies name := if String.eqb name SESSION_COOKIE then Some "cookie" else None;
|}.
Definition bearer_request (token : string) : Request := {|
  headers name := if String.eqb name AUTHORIZATION then Some (bytes ("Bearer " ++ token)) else None;
  cookies _ := None;
|}.

(** The owner creates a role, and assumes it. *)
Definition role_call : iam_call := CallRole "Deploy" (Str "trust") 3600.
Definition role_db : Db := snd (serve console role_call console_request acme login_db).
Definition deploy : AssumeIamRole := {|
  assume_role_arn := "arn:aws:iam::100000000000:role/Deploy";
  assume_session_name := "ada";
  assume_duration_seconds := 1800;
  assume_session_policy := None;
  switch_console := false;
|}.
Definition assumed : result ApiError (Uuid * string) * Db :=
  assume_iam_role console console_request acme deploy "s3cr3t" role_db.
Definition assumed_db : Db := snd assumed.

(** The directory: a permission set, a group with its owner in it, and its
    assignment to the account. *)
Definition set_db : Db := after (create_identity_center_permission_set acme "ReadOnly" open_policy 3600) login_db.
Definition readonly : Uuid := Eval vm_compute in next_uuid login_db.
Definition group_db : Db := after (create_identity_center_group acme "Operators") set_db.
Definition operators : Uuid := Eval vm_compute in next_uuid set_db.
Definition member_db : Db := after (change_identity_center_group_member acme operators ada true) group_db.
Definition ada_member : Uuid := Eval vm_compute in next_uuid group_db.
Definition assigned_db : Db :=
  after (create_identity_center_assignment acme readonly acme "group" operators iam_semantics_digest) member_db.
Definition assignment : Uuid := Eval vm_compute in match map_to_list (assignment_rows assigned_db) with (i, _) :: _ => i | [] => 0%N end.
Definition session_db : Db := after (create_identity_center_session acme assignment ada [9]) assigned_db.
Definition center_session_id : Uuid := Eval vm_compute in next_uuid assigned_db.

(** The session ends with the assignment, or with the membership. *)
Definition revoked_db : Db := after (revoke_identity_center_assignment acme assignment) session_db.
Definition again_db : Db :=
  after (create_identity_center_assignment acme readonly acme "group" operators iam_semantics_digest) revoked_db.
Definition left_db : Db := after (change_identity_center_group_member acme operators ada false) session_db.
Definition rejoined_db : Db := after (change_identity_center_group_member acme operators ada true) left_db.

(** ** Steps *)

Lemma access_after {A} (m : tx A) db :
  succeeds m db = true → (∀ x db', m db = Ok (x, db') → access_request db db') → access_step db (after m db).
Proof. intros [x Hx]%succeeds_after Hreq. apply access_step_request. by apply (Hreq x). Qed.

Lemma session_run : rtc access_step login_db session_db.
Proof.
  apply (rtc_l _ _ set_db); [apply access_after; [vm_compute; reflexivity|]; intros x db'; apply request_set|].
  apply (rtc_l _ _ group_db); [apply access_after; [vm_compute; reflexivity|]; intros x db'; apply request_center_group|].
  apply (rtc_l _ _ member_db); [apply access_after; [vm_compute; reflexivity|]; intros x db'; apply request_center_member|].
  apply (rtc_l _ _ assigned_db); [apply access_after; [vm_compute; reflexivity|]; intros x db'; apply request_assign|].
  apply rtc_once, access_after; [vm_compute; reflexivity|]. intros x db'. apply request_center_session.
Qed.

Lemma login_no_sessions : role_session_rows login_db = ∅.
Proof. vm_compute. reflexivity. Qed.
Lemma login_no_members : center_member_rows login_db = ∅.
Proof. vm_compute. reflexivity. Qed.

Lemma session_db_wf : access_wf session_db.
Proof.
  eapply access_le_wf; [exact (access_steps_le _ _ session_run)|].
  exact (empty_access_wf _ login_no_sessions login_no_members).
Qed.

Lemma again_run : rtc access_step revoked_db again_db.
Proof. apply rtc_once, access_after; [vm_compute; reflexivity|]. intros x db'. apply request_assign. Qed.
Lemma rejoined_run : rtc access_step left_db rejoined_db.
Proof. apply rtc_once, access_after; [vm_compute; reflexivity|]. intros x db'. apply request_center_member. Qed.

(** ** Witnesses *)

Definition ada_grant : CenterGrant :=
  Build_CenterGrant assignment 1 ada (Some ada_member) (Some 1002%N) (Some 1006%N) (Some 1006%N).
Definition ada_session : RoleSessionRow :=
  Build_RoleSessionRow acme 1011%N acme 1002%N "arn:aws:iam::100000000000:user/1002" "identity-center-1000" None [9]
    3600 None (Some ada_grant).

Lemma assignment_revocation_is_final_witness : session_refused center_session_id again_db.
Proof.
  apply (assignment_revocation_is_final acme assignment session_db () revoked_db again_db center_session_id
           ada_session ada_grant session_db_wf).
  - vm_compute. reflexivity.
  - vm_compute. reflexivity.
  - reflexivity.
  - reflexivity.
  - exact again_run.
Defined.

(** The session was good until then. *)
Example session_authenticates :
  match authenticate_iam_role_session [9] session_db with Ok o => is_some o | Err _ => false end = true.
Proof. vm_compute. reflexivity. Qed.

Definition served {A} (p : result ApiError A * Db) : bool := match fst p with Ok _ => true | Err _ => false end.

Lemma complete_mediation_witness :
  served (serve console role_call console_request acme login_db) = true ∧
  (trace_only login_db role_db ∨
   ∃ actor db1 context, authenticated_actor_mutation console console_request login_db = (Ok actor, db1) ∧
     granted actor acme (call_action role_call) (call_resource role_call acme) (call_implicit role_call) login_db context).
Proof.
  split; [vm_compute; reflexivity|].
  exact (complete_mediation console role_call console_request acme login_db
           (fst (serve console role_call console_request acme login_db)) role_db
           (surjective_pairing (serve console role_call console_request acme login_db))).
Defined.

Definition ada_session_user : SessionUser :=
  Build_SessionUser (Build_User ada "ada@example.org" "Ada" Active) [Build_Membership acme "acme" "Acme" 1002%N "owner"].
Definition ada_browser : AuthenticatedSession :=
  Build_AuthenticatedSession ada_session_user "cookiekey" (bytes "cookie").

Lemma authentication_sound_witness : credential_good console console_request login_db (ActorUser ada_browser).
Proof.
  apply (authentication_sound console console_request login_db (ActorUser ada_browser)
           (snd (authenticated_actor console console_request login_db))).
  vm_compute. reflexivity.
Defined.

Lemma assume_role_sound_witness :
  ∃ actor db1 context number arn principal role account trust row,
    authenticated_actor_mutation console console_request role_db = (Ok actor, db1) ∧ is_center_session actor = false ∧
    granted actor acme "sts:AssumeRole" (assume_role_arn deploy) false role_db context ∧
    iam_principal_arn acme (Iam.context_principal_id context) role_db = Some (number, arn) ∧
    role_rows role_db !! principal = Some role ∧
    account_rows (cloud role_db) !! role_organization role = Some account ∧
    assume_role_arn deploy = role_arn (account_number account) (role_name role) ∧
    is_identity_center_role (role_organization role) principal role_db = false ∧
    from_value (trust_policy role) = Some trust ∧ permits trust number arn = Ok true ∧
    role_session_rows assumed_db !! 1012%N = Some row ∧ role_session_role row = principal ∧
    source_principal row = Iam.context_principal_id context ∧ role_session_hash row = token_hash "hcr_s3cr3t" ∧
    role_session_expires_at row = now role_db + assume_duration_seconds deploy ∧
    assume_duration_seconds deploy ≤ max_session_seconds role ∧
    (is_role_session actor = true → assume_duration_seconds deploy ≤ 3600).
Proof.
  apply (assume_role_sound console console_request acme deploy "s3cr3t" role_db 1012%N "hcr_s3cr3t" assumed_db).
  vm_compute. reflexivity.
Defined.

Definition ada_context : AuthorizationContext :=
  {| Iam.context_principal_id := 1002%N; role := "owner"; policies := []; permissions_boundary := None |}.

Lemma contexts_are_exact_witness :
  ∃ principal row, acts_as (ActorUser ada_browser) acme login_db principal "owner" ∧
    principal_of acme principal login_db = Some row ∧ enabled row = true ∧
    (∀ u, user_id row = Some u → u ∈ active_users login_db) ∧ context_exact acme principal login_db ada_context.
Proof.
  apply (contexts_are_exact (ActorUser ada_browser) acme login_db ada_context).
  vm_compute. reflexivity.
Defined.

(** A service account with a key is disabled. *)
Definition robot_db : Db := after (create_service_account_owned acme "Robot" (Some ada)) login_db.
Definition robot : PrincipalId := Eval vm_compute in next_uuid login_db.
Definition disabled_db : Db := after (set_service_account_enabled acme robot false) robot_db.

