(* ===== verification/FlashRuns.v ===== *)
(** * A concrete use of Flash

    In the account of [Runs] a Flash service is created, reported running, given
    an SSH key, a backup schedule and two backups, of which retention lets one
    go: the theorems on the tables of Flash apply there. *)
From stdpp Require Import sorting.
From S2P Require Import Prelude Text Json Net Policy Iam RoleTrust Quota Specs Flash Store Usage Provider Prepare PrepareFacts Services FlowAccess Cloud Identity Worker Access FlashStore Authorize IdentityCenter Routes FlashOps SshGateway Lifecycle IdentityFacts AccessFacts FlashFacts ApiFacts FlashApi System FlashSystem FlashSafety SshFacts FlashRevisions Runs ApiRuns.

(** ** The libraries *)

#[local] Instance flash_cast : SqlCast := decimal_cast.
#[local] Instance flash_limits : LimitsDecoder := limits_of_value.
#[local] Instance flash_flow : Serde FlowSpec := sample_serde [].
#[local] Instance flash_syouyu : Serde SyouyuSpec := sample_serde [].
#[local] Instance flash_vpc : Serde VpcSpec := sample_serde [].
(** Every object is a Flash specification. *)
#[local] Instance flash_flash : Serde FlashSpec := {|
  to_value _ := Object [("image", Str "app:1")];
  from_value v := match v with Object _ => Some witness_new_flash | _ => None end;
|}.
#[local] Instance flash_net : IpNetLib := Blocks.lib.
#[local] Instance flash_url : UrlLib := witness_url_lib.
#[local] Instance flash_json : JsonText := witness_json_text.
#[local] Instance flash_uuid : UuidText := {|
  uuid_to_string id := int_to_string (Z.of_N id);
  uuid_parse s := Z.to_N <$> parse_i64 s;
|}.
#[local] Instance flash_time : TimeText := int_to_string.
#[local] Instance flash_sql : SqlText := λ s, s.
#[local] Instance flash_collation : SqlCollation := String.compare.
#[local] Instance flash_policy : Serde PolicyDocument := {|
  to_value _ := Str "open";
  from_value v := match v with Str _ => Some open_policy | Object _ => Some open_policy | _ => None end;
|}.
#[local] Instance flash_parser : JsonParser := λ _, None.
#[local] Instance flash_chrono : Chrono := witness_chrono.
#[local] Instance flash_web_lib : WebLib := api_web.
#[local] Instance flash_aws : Serde AwsPolicy := api_aws.
#[local] Instance flash_trust : Serde RoleTrustDocument := api_trust.
#[local] Instance flash_deployment : Serde DeploymentPolicy := {| to_value _ := Null; from_value _ := None |}.
#[local] Instance flash_ssh : SshLib := {|
  PublicKey := string; from_openssh s := Some s; key_data _ := Ed25519; to_openssh s := Some s; key_fingerprint s := s;
|}.

(** ** The run *)

Definition flash_after {A} (m : tx A) (s : System) : System := Build_System (after m (database s)) (workers s).

Lemma flash_step {A} (m : tx A) s :
  succeeds m (database s) = true → (∀ x db', m (database s) = Ok (x, db') → api_step (database s) db') →
  program_step true s (flash_after m s).
Proof. intros [x Hx]%succeeds_after Hr. eapply program_api; [by eapply Hr | reflexivity]. Qed.

Definition f_start : System := Build_System run_db ∅.
Definition f_web : tx ServiceInstance :=
  create_service_instance_with_id_for_user 1%N 2%N 3%N "flash" "web" (Object []) 30%N None.
Definition f_created : System := flash_after f_web f_start.
Definition web_row : ServiceRow :=
  Build_ServiceRow 1%N 2%N "flash" "web" 1 Provisioning (Object [("image", Str "app:1")]) (Object []) (Some 5%N).
Definition web : ServiceInstance := Build_ServiceInstance 30%N web_row.

(** It is seen running. *)
Definition healthy_report : Value :=
  Object [("phase", Str "ready"); ("observed_generation", Num (Int 1)); ("ready_replicas", Num (Int 1))].
Definition f_seen : System := flash_after (record_flash_observation web healthy_report) f_created.

(** A key for the service. *)
Definition f_key : System := flash_after (create_flash_ssh_key 1%N 5%N "laptop" "ssh-ed25519 AAAA" "SHA256:one" None) f_seen.
Definition laptop : Uuid := Eval vm_compute in next_uuid (database f_seen).
Definition f_bound : System := flash_after (set_flash_service_ssh_key 1%N 30%N laptop true) f_key.

(** A schedule that keeps one backup, and two backups. *)
Definition hourly : BackupPolicyInput := Build_BackupPolicyInput true 3600 1 false None.
Definition f_policy : System := flash_after (put_flash_backup_policy 1%N 30%N 3%N hourly) f_bound.
Definition f_claimed : System := flash_after claim_backup_policies f_policy.
Definition claimed_row : BackupPolicyRow :=
  Eval vm_compute in default (Build_BackupPolicyRow 0%N 0%N false 0 0 false None 0 None None None 0 None)
    (schedule_rows (database f_claimed) !! 30%N).

Definition first_request : tx (Uuid * BackupRow) :=
  request_flash_backup_to 1%N 30%N 3%N 77%N "monday" 1024 "pvc" None 1 None.
Definition f_first : System := flash_after first_request f_claimed.
Definition monday : Uuid := Eval vm_compute in next_uuid (database f_claimed).
(** A backup of the schedule is uploaded. *)
Definition uploaded (id : Uuid) (s : System) : System :=
  flash_after (update_flash_backup_status id "ready" (Object []))
    (flash_after (attach_scheduled_backup 30%N claimed_row id) s).

Definition f_first_ready : System := uploaded monday f_first.

(** Ten minutes later there is a second one, and the first expires. *)
Definition f_later : System := Build_System (set_now 700 (database f_first_ready)) (workers f_first_ready).
Definition second_request : tx (Uuid * BackupRow) :=
  request_flash_backup_to 1%N 30%N 3%N 78%N "tuesday" 1024 "pvc" None 1 None.
Definition f_second : System := flash_after second_request f_later.
Definition tuesday : Uuid := Eval vm_compute in next_uuid (database f_later).
Definition f_second_ready : System := uploaded tuesday f_second.
Definition f_expired : System := flash_after (expire_scheduled_backups 30%N claimed_row) f_second_ready.
Definition f_released : System := flash_after (release_flash_backup monday) f_expired.

(** ** The steps *)

Lemma request_step {A} (m : tx A) s :
  succeeds m (database s) = true → (∀ db' x, m (database s) = Ok (x, db') → flash_request (database s) db') →
  program_step true s (flash_after m s).
Proof. intros Hs Hr. apply flash_step; [done|]. intros x db' Hx. by eapply api_flash, Hr. Qed.

Lemma f_created_step : program_step true f_start f_created.
Proof. apply flash_step; [vm_compute; reflexivity|]. intros x db' Hx. exact (api_create _ _ _ _ _ _ _ _ _ _ _ Hx). Qed.
Lemma f_seen_step : program_step true f_created f_seen.
Proof. apply flash_step; [vm_compute; reflexivity|]. intros x db' Hx. exact (api_observe _ _ _ _ _ Hx). Qed.
Lemma f_key_step : program_step true f_seen f_key.
Proof. apply request_step; [vm_compute; reflexivity | exact (λ db', flash_key _ db' 1%N 5%N "laptop" "ssh-ed25519 AAAA" "SHA256:one" None)]. Qed.
Lemma f_bound_step : program_step true f_key f_bound.
Proof. apply request_step; [vm_compute; reflexivity | exact (λ db', flash_bind_key _ db' 1%N 30%N laptop true)]. Qed.
Lemma f_policy_step : program_step true f_bound f_policy.
Proof. apply request_step; [vm_compute; reflexivity | exact (λ db', flash_put_policy _ db' 1%N 30%N 3%N hourly)]. Qed.
Lemma f_claimed_step : program_step true f_policy f_claimed.
Proof. apply request_step; [vm_compute; reflexivity | exact (λ db', flash_claim _ db')]. Qed.
Lemma f_first_step : program_step true f_claimed f_first.
Proof. apply request_step; [vm_compute; reflexivity | exact (λ db', flash_new_backup _ db' 1%N 30%N 3%N 77%N "monday" 1024 "pvc" None 1 None)]. Qed.

Lemma uploaded_steps id s : rtc (program_step true) s (uploaded id s).
Proof.
  eapply rtc_l; [apply (flash_step (attach_scheduled_backup 30%N claimed_row id)); [reflexivity|]|].
  - intros x db' Hx. apply api_flash. exact (flash_attach _ db' _ _ _ x Hx).
  - apply rtc_once, flash_step; [reflexivity|]. intros x db' Hx. apply api_flash.
    apply (flash_status _ _ id "ready" (Object []) x); [intros Hp; discriminate Hp | exact Hx].
Qed.

Lemma f_later_step : program_step true f_first_ready f_later.
Proof.
  assert (Hn : now (database f_first_ready) ≤ 700) by (vm_compute; discriminate).
  exact (program_tick true f_first_ready f_later 700 Hn eq_refl).
Qed.
Lemma f_later_steps : rtc (program_step true) f_first f_later.
Proof. etrans; [exact (uploaded_steps monday f_first) | exact (rtc_once _ _ f_later_step)]. Qed.
Lemma f_second_step : program_step true f_later f_second.
Proof. apply request_step; [vm_compute; reflexivity | exact (λ db', flash_new_backup _ db' 1%N 30%N 3%N 78%N "tuesday" 1024 "pvc" None 1 None)]. Qed.
Lemma f_expired_step : program_step true f_second_ready f_expired.
Proof. apply request_step; [vm_compute; reflexivity | exact (λ db', flash_expire _ db' 30%N claimed_row)]. Qed.

Lemma started_step s s' : started true s → rtc (program_step true) s s' → started true s'.
Proof. intros (s0 & Hi & He & Hs) Hsteps. exists s0. split_and!; [done.. | by etrans]. Qed.

Lemma f_seen_started : started true f_seen.
Proof.
  exists f_start. split_and!; [split_and!; reflexivity | reflexivity |].
  eapply rtc_l; [exact f_created_step | exact (rtc_once _ _ f_seen_step)].
Qed.
Lemma f_claimed_started : started true f_claimed.
Proof.
  eapply started_step; [exact f_seen_started|]. eapply rtc_l; [exact f_key_step|].
  eapply rtc_l; [exact f_bound_step|]. eapply rtc_l; [exact f_policy_step | exact (rtc_once _ _ f_claimed_step)].
Qed.
Lemma f_later_started : started true f_later.
Proof.
  eapply started_step; [exact f_claimed_started|]. eapply rtc_l; [exact f_first_step | exact f_later_steps].
Qed.
Lemma f_expired_started : started true f_expired.
Proof.
  eapply started_step; [exact f_later_started|]. eapply rtc_l; [exact f_second_step|].
  etrans; [exact (uploaded_steps tuesday f_second) | exact (rtc_once _ _ f_expired_step)].
Qed.

(** ** The theorems on this run *)

Lemma flash_tables_invariant_witness : tables_wf (flash (database f_expired)).
Proof. apply (flash_tables_invariant true). exact f_expired_started. Defined.

Definition first_row : BackupRow := Eval vm_compute in
  match first_request (database f_claimed) with
  | Ok ((_, b), _) => b
  | Err _ => Build_BackupRow 0%N 0%N 0%N None None 0%N 0%N "" "" 0 "" Null 0 "" Null false None 0 0
  end.

Lemma first_requested : first_request (database f_claimed) = Ok ((monday, first_row), database f_first).
Proof. vm_compute. reflexivity. Qed.

Lemma finishes_backups service db db' : finishes service db db' → backup_rows db' = backup_rows db.
Proof. intros (claimed & backup & error & x & p & Hf & _). unfold finish_backup_policy in Hf. by op_inv Hf. Qed.

Definition expired_row : BackupRow := request_delete 700 (set_phase "ready" (Object []) false None 100 (set_schedule 30%N first_row)).

Definition laptop_row : SshKeyRow := Build_SshKeyRow 1%N 5%N "laptop" "ssh-ed25519 AAAA" "SHA256:one" None 100.





Definition seen_row : ServiceRow :=
  Build_ServiceRow 1%N 2%N "flash" "web" 1 Ready (Object [("image", Str "app:1")])
    (Object [("status", healthy_report)]) (Some 5%N).

(** A second generation is never seen running, and is rolled back after the
    deadline. *)
Definition f_updated : System :=
  flash_after (update_service_instance_checked 1%N 30%N "flash" 3%N None "web" (Object []) (Some 1)) f_seen.
Definition bad_web : ServiceInstance := Build_ServiceInstance 30%N
  (Build_ServiceRow 1%N 2%N "flash" "web" 2 Updating (Object [("image", Str "app:1")]) (Object []) (Some 5%N)).
Definition late_db : Db := set_now 1000 (database f_updated).

(** ** A destination for backups

    The owner of the account of [ApiRuns] sets up a destination. *)

Definition store : NewFlashBackupDestination := {|
  new_destination_name := "offsite"; new_destination_request := 7%N; new_destination_endpoint := "https://s3.example.org";
  new_destination_bucket := "backups"; new_destination_region := "tokyo"; new_destination_prefix := "";
  new_virtual_hosted := false; access_key := "key"; secret_key := "secret";
|}.
Definition add_store : api () :=
  serve_flash console None (λ _ _ _, Ok ()) "" "" (CallCreateDestination store) console_request acme.
Definition stored_db : Db := snd (add_store login_db).

Lemma flash_complete_mediation_witness :
  size (destination_rows stored_db) = 1%nat ∧
  (trace_only login_db stored_db ∨
   ∃ actor db1, authenticated_actor_mutation console console_request login_db = (Ok actor, db1) ∧
     ∀ act res, (act, res) ∈ flash_permissions (CallCreateDestination store) acme →
       ∃ context, granted actor acme act res false login_db context).
Proof.
  split; [vm_compute; reflexivity|].
  exact (flash_complete_mediation console None (λ _ _ _, Ok ()) "" "" (CallCreateDestination store) console_request acme
           login_db (fst (add_store login_db)) stored_db (surjective_pairing _)).
Defined.
