(* ===== verification/ServiceRuns.v ===== *)
(** * Services through the API

    The owner of the account of [ApiRuns] creates an application on a GPU of the
    provider's catalog, stores a secret, attaches it and deletes another: the
    theorems on the handlers of services apply there. *)
From stdpp Require Import sorting.
From S2P Require Import Prelude Text Json Net Policy Iam RoleTrust Quota Specs Flash Store Usage Provider Prepare PrepareFacts Services FlowAccess Cloud Identity Access Admin FlashStore Authorize Outside IdentityCenter Routes FlashOps ServiceRoutes Lifecycle IdentityFacts AccessFacts ApiFacts FlashApi AdminFacts ServiceApi Runs ApiRuns.

(** ** The libraries *)

#[local] Instance service_cast : SqlCast := decimal_cast.
#[local] Instance service_limits : LimitsDecoder := limits_of_value.
#[local] Instance service_flow : Serde FlowSpec := sample_serde [].
#[local] Instance service_syouyu : Serde SyouyuSpec := sample_serde [].
#[local] Instance service_vpc : Serde VpcSpec := sample_serde [].

(** The application, without a secret and with one. *)
Definition with_secrets (l : BTreeMap string) (s : FlashSpec) : FlashSpec := {|
  region := region s; image := image s; deployment := deployment s; task_role := task_role s; replicas := replicas s;
  stopped := stopped s; autoscaling := autoscaling s; cpu_millis := cpu_millis s; memory_mib := memory_mib s;
  gpu_type := gpu_type s; ephemeral_storage_gib := ephemeral_storage_gib s; rootfs_storage_gib := rootfs_storage_gib s;
  persistent_storage_gib := persistent_storage_gib s; restore_from_backup_id := restore_from_backup_id s;
  ports := ports s; exposure := exposure s; egress := egress s; network := network s;
  env := env s; secret_env := l; secret_files := secret_files s; command := command s; args := args s;
  metadata := metadata s;
|}.
Definition plain_app : FlashSpec := witness_new_flash.
Definition secret_app : FlashSpec := with_secrets [("API_KEY", "token")] plain_app.

#[local] Instance service_flash : Serde FlashSpec := {|
  to_value s := if is_nil (secret_env s) then Object [("image", Str "app:1")]
                else Object [("image", Str "app:1"); ("secret_env", Str "token")];
  from_value v := match v with
                  | Object l => Some (if is_some (field "secret_env" l) then secret_app else plain_app)
                  | _ => None
                  end;
|}.
#[local] Instance service_net : IpNetLib := Blocks.lib.
#[local] Instance service_url : UrlLib := witness_url_lib.
#[local] Instance service_json : JsonText := witness_json_text.
#[local] Instance service_uuid : UuidText := api_uuid.
#[local] Instance service_time : TimeText := int_to_string.
#[local] Instance service_sql : SqlText := λ s, s.
#[local] Instance service_collation : SqlCollation := String.compare.
#[local] Instance service_policy : Serde PolicyDocument := api_policies.
#[local] Instance service_chrono : Chrono := witness_chrono.
#[local] Instance service_web : WebLib := api_web.

(** ** The outside *)

Definition gpu_provider : FlashServiceGateway := {|
  list_gpu_catalog := Ok [Build_GpuCatalogDevice "gpu-0" "a100" "A100" true true []];
  update_gpu_access _ _ _ _ _ := Ok ();
  write_load_balancer_secret _ _ _ := Ok ();
|}.
Definition vault : SecretManagerClient := {|
  secret_list _ := Ok ["other"; "token"];
  secret_put _ _ _ := Ok ();
  secret_delete _ _ := Ok ();
|}.

Definition project_db : Db := after (create_project acme "default" "Default") login_db.
Definition project : ProjectId := Eval vm_compute in next_uuid login_db.
Definition create_app : api ServiceInstance :=
  create_flash_service console (Some gpu_provider) console_request acme project "web" plain_app.
Definition app_db : Db := snd (create_app project_db).
Definition web_app : ServiceInstanceId := Eval vm_compute in
  match fst (create_app project_db) with Ok i => instance_id i | Err _ => 0%N end.

Definition create_call : service_call := CallCreateFlash project "web" plain_app.
Definition created_app : result ApiError () * Db * list SecretRequest :=
  serve_service console (Some gpu_provider) (Some (Ok vault)) create_call console_request acme project_db.

Definition drop_call (n : string) : service_call := CallDeleteSecret web_app n.
Definition dropped (n : string) (db : Db) : result ApiError () * Db * list SecretRequest :=
  serve_service console (Some gpu_provider) (Some (Ok vault)) (drop_call n) console_request acme db.

(** The deletion of a secret is asked of the provider and of the secret manager. *)
Lemma service_complete_mediation_witness :
  is_Some (service_instances (snd (fst created_app)) !! web_app) ∧ fst (fst (dropped "other" app_db)) = Ok () ∧
  length (snd (dropped "other" app_db)) = 2%nat ∧
  Forall (concerns (drop_call "other") acme) (snd (dropped "other" app_db)) ∧
  (faint (Some gpu_provider) app_db (snd (fst (dropped "other" app_db))) ∧ snd (dropped "other" app_db) = [] ∨
   ∃ actor db1, authenticated_actor_mutation console console_request app_db = (Ok actor, db1) ∧
     ∀ act res, (act, res) ∈ service_permissions (drop_call "other") acme →
       ∃ context, granted actor acme act res false app_db context).
Proof.
  split; [vm_compute; eauto|]. split; [vm_compute; reflexivity|]. split; [vm_compute; reflexivity|].
  apply (service_complete_mediation console (Some gpu_provider) (Some (Ok vault)) (drop_call "other") console_request acme
           app_db (fst (fst (dropped "other" app_db))) (snd (fst (dropped "other" app_db))) (snd (dropped "other" app_db))).
  vm_compute. reflexivity.
Defined.

(** The secret is attached, and the other one is deleted. *)
Definition attach : api ServiceInstance :=
  update_flash_service console (Some gpu_provider) (Some (Ok vault)) console_request acme web_app None "web" secret_app.
Definition attached_db : Db := snd (attach app_db).
Definition drop (n : string) : outside SecretRequest () :=
  delete_flash_secret console (Some gpu_provider) (Some (Ok vault)) console_request acme web_app n.

Definition attached_app : ServiceInstance := Eval vm_compute in
  match fst (attach app_db) with Ok i => i | Err _ => Build_ServiceInstance 0%N (Build_ServiceRow 0%N 0%N "" "" 0 Ready Null Null None) end.

Lemma secrets_outlive_references_witness :
  fst (fst (drop "token" attached_db)) = Err ApiConflict ∧ snd (drop "token" attached_db) = [] ∧
  (∃ d principal, faint (Some gpu_provider) app_db d ∧
     update_service_instance_checked acme web_app "flash" principal None "web" (to_value secret_app) None d
     = Ok (attached_app, attached_db)) ∧
  trace_only attached_db (snd (fst (drop "other" attached_db))).
Proof.
  pose proof (secrets_outlive_references console (Some gpu_provider) (Some (Ok vault)) console_request acme web_app) as Hs.
  split; [vm_compute; reflexivity|]. split; [vm_compute; reflexivity | split].
  - destruct (proj1 (Hs app_db) None "web" secret_app attached_app attached_db)
      as (row & prior & l & d & principal & Hrow & _ & Hp & _ & _ & _ & Hf & Hu); [vm_compute; reflexivity|].
    exists d, principal. split; [exact Hf|]. destruct (restore_from_backup_id prior) eqn:E; [|exact Hu].
    exfalso. revert Hrow. vm_compute. intros [= <-]. revert Hp. vm_compute. intros [= <-]. discriminate E.
  - apply (proj2 (Hs attached_db) "other" (fst (fst (drop "other" attached_db))) _ (snd (drop "other" attached_db))).
    vm_compute. reflexivity.
Defined.
