(* ===== verification/AccountRuns.v ===== *)
(** * Accounts, sessions and the owner through the API

    The owner of the account of [ApiRuns] creates a project; Ada signs in with her
    password and, being the owner of the installation, changes the default limits:
    the theorems on these handlers apply there. *)
From stdpp Require Import sorting.
From S2P Require Import Prelude Text Json Net Policy Iam RoleTrust Quota Specs Flash Store Usage Provider Prepare PrepareFacts Services FlowAccess Cloud Identity Access Admin FlashStore Authorize Outside IdentityCenter Routes FlashOps ServiceRoutes AccountRoutes SessionRoutes Lifecycle IdentityFacts AccessFacts ApiFacts FlashApi AdminFacts ServiceApi AccountApi SessionApi Runs ApiRuns.

(** ** The libraries *)

#[local] Instance account_limits : LimitsDecoder := limits_of_value.
#[local] Instance account_cast : SqlCast := decimal_cast.
#[local] Instance account_json : JsonText := witness_json_text.
#[local] Instance account_uuid : UuidText := api_uuid.
#[local] Instance account_time : TimeText := int_to_string.
#[local] Instance account_sql : SqlText := λ s, s.
#[local] Instance account_collation : SqlCollation := String.compare.
#[local] Instance account_policy : Serde PolicyDocument := api_policies.
#[local] Instance account_aws : Serde AwsPolicy := api_aws.
#[local] Instance account_chrono : Chrono := witness_chrono.
#[local] Instance account_web : WebLib := api_web.
#[local] Instance account_net : IpNetLib := Blocks.lib.
#[local] Instance account_passwords : PasswordLib := {|
  email_valid _ := true;
  argon2_hash s := Some s;
  argon2_verify h s := String.eqb h s;
|}.

(** ** A project *)

Definition project_call : account_call := CallCreateProject "default" "Default".
Definition project_made : result ApiError () * Db * list RegistryRequest :=
  serve_account console None project_call console_request acme login_db.

Lemma account_complete_mediation_witness :
  size (projects (snd (fst project_made))) = 1%nat ∧
  (trace_only login_db (snd (fst project_made)) ∧ snd project_made = [] ∨
   ∃ actor db1, authenticated_actor_mutation console console_request login_db = (Ok actor, db1) ∧
     account_condition project_call actor acme login_db).
Proof.
  split; [vm_compute; reflexivity|].
  apply (account_complete_mediation console None project_call console_request acme login_db (fst (fst project_made))
           (snd (fst project_made)) (snd project_made)).
  vm_compute. reflexivity.
Defined.

(** ** The owner of the installation *)

Definition installation : AccessConfig := {|
  session_ttl := 3600; cli_token_ttl := 86400; owner_origin := Some (Some "owner.example", None);
  owner_email := Some "Ada@example.org"; owner_console_mode := true; owner_allowed_networks := [];
  trusted_proxy_networks := [];
|}.
Definition owner_request : Request := {|
  headers name := if String.eqb name HOST then Some (bytes "OWNER.example") else headers console_request name;
  cookies := cookies console_request;
|}.
Definition default_call : owner_call := CallQuotaDefaults ResourceQuotaLimits_default.
Definition defaults_set (settings : AccessConfig) (peer : option IpAddr) : result ApiError () * Db :=
  serve_owner console settings None default_call owner_request peer login_db.

(** Not the deployment of the console: the peer has to be in the network. *)
Definition office : AccessConfig := {|
  session_ttl := 3600; cli_token_ttl := 86400; owner_origin := Some (Some "owner.example", None);
  owner_email := Some "Ada@example.org"; owner_console_mode := false;
  owner_allowed_networks := [Blocks.Build_t false 3232235776 24]; trusted_proxy_networks := [];
|}.
Definition desk : option IpAddr := Some (V4 3232235786).
Definition stranger : option IpAddr := Some (V4 16843009).

Lemma owner_console_guarded_witness :
  fst (defaults_set installation None) = Ok () ∧ fst (defaults_set office stranger) = Err Forbidden ∧
  fst (defaults_set office desk) = Ok () ∧
  (trace_only login_db (snd (defaults_set office desk)) ∨
   ∃ s, own_session console owner_request login_db s ∧ owners_request office owner_request desk s ∧
     (owner_changes default_call = true →
      require_same_origin console owner_request = Ok () ∧ require_csrf owner_request (auth_csrf s) = Ok ())).
Proof.
  split; [vm_compute; reflexivity|]. split; [vm_compute; reflexivity|]. split; [vm_compute; reflexivity|].
  exact (owner_console_guarded console office None default_call owner_request desk login_db
           (fst (defaults_set office desk)) (snd (defaults_set office desk)) (surjective_pairing _)).
Defined.

(** ** Signing in *)

Definition signed_in : result ApiError (SessionUser * string) * Db :=
  login console installation console_request "ada@example.org" "argon" "fresh" founded_db.

(** The password opens a session, and another one does not. *)
Lemma sign_in_sound_witness :
  size (session_rows (snd signed_in)) = 1%nat ∧
  (snd signed_in = founded_db ∨
   ∃ id u hash, users founded_db !! id = Some u ∧ sql_lower (email u) = sql_lower "ada@example.org" ∧
     user_status u = "active" ∧ password_hash u = Some hash ∧ argon2_verify hash "argon" = true ∧
     require_same_origin console console_request = Ok () ∧ opens installation id "fresh" "local" founded_db (snd signed_in)) ∧
  login console installation console_request "ada@example.org" "guess" "fresh" founded_db = (Err Unauthorized, founded_db).
Proof.
  split; [vm_compute; reflexivity|]. split; [|vm_compute; reflexivity].
  exact (proj1 (sign_in_sound console installation console_request "fresh" founded_db) "ada@example.org" "argon"
           (fst signed_in) (snd signed_in) (surjective_pairing _)).
Defined.

(** ** Codes *)

Lemma cli_codes_roundtrip_witness :
  generate_cli_user_code "ab-cd_ef12gh34ij" = Ok "ABCD-EF12-GH34" ∧
  normalize_cli_user_code "  abcdef-12gh34 " = Ok "ABCD-EF12-GH34" ∧
  normalize_cli_user_code "ABCD-EF12-GH34" = Ok "ABCD-EF12-GH34".
Proof.
  split; [vm_compute; reflexivity|]. split; [vm_compute; reflexivity|].
  apply (proj1 cli_codes_roundtrip "ab-cd_ef12gh34ij"). vm_compute. reflexivity.
Defined.
