(* ===== verification/CredentialRuns.v ===== *)
(** * Flow credentials through the API

    The owner of the account of [ApiRuns] issues a developer credential for a
    realtime service; the credential then issues access contexts, and no longer
    after the owner revoked it: the theorem on the handlers of Flow credentials
    applies there. *)
From S2P Require Import Prelude Text Json Net Policy Iam RoleTrust Quota Specs Flash Store Usage Provider Prepare PrepareFacts Services FlowAccess Cloud Identity Access Admin FlashStore Authorize IdentityCenter Routes FlashOps ServiceRoutes AccountRoutes FlowRoutes Lifecycle IdentityFacts AccessFacts ApiFacts FlashApi ServiceApi AccountApi FlowApi Runs ApiRuns.

#[local] Instance credential_limits : LimitsDecoder := limits_of_value.
#[local] Instance credential_json : JsonText := api_text.
#[local] Instance credential_uuid : UuidText := api_uuid.
#[local] Instance credential_time : TimeText := int_to_string.
#[local] Instance credential_chrono : Chrono := witness_chrono.
#[local] Instance credential_web : WebLib := api_web.
#[local] Instance credential_mac : MacLib := {| hmac_sha256 key text := key ++ text; base64_url := of_bytes |}.
#[local] Instance credential_sql : SqlText := λ s, s.
#[local] Instance credential_collation : SqlCollation := String.compare.
#[local] Instance credential_policy : Serde PolicyDocument := api_policies.
#[local] Instance credential_flow : Serde FlowSpec := {|
  to_value _ := Object [];
  from_value v := match v with Object _ => Some (Build_FlowSpec "tokyo" 100 10 FlowRateLimit_default (Object [])) | _ => None end;
|}.

Definition game : ServiceInstanceId := 40%N.
Definition game_project : ProjectId := Eval vm_compute in next_uuid login_db.
Definition game_db : Db := set_services {[game := {|
  organization_id := acme; project_id := game_project; provider := "flow"; name := "game"; generation := 1;
  state := Ready; spec := Object []; status := Object [("phase", Str "running")]; quota_user_id := None |}]}
  (after (create_project acme "default" "Default") login_db).

Definition signer : FlowAccessSigner :=
  Build_FlowAccessSigner "heterocloud" "flow" "0123456789abcdef0123456789abcdef".
Definition fragment : string := "0123456789abcdef".
Definition secret_text : string := "abcdefghijklmnopqrstuvwxyzABCDEFGHIJ-_12345".

Definition issue_call : flow_call :=
  CallCreateCredential game "matchmaker" ["flow.queue.read"; "flow.queue.write"] 30 fragment secret_text.
Definition issue_answer : result ApiError () * Db :=
  serve_flow console signer (Some "https://console/mint") issue_call console_request acme game_db.

Definition game_request : Request := bearer_request ("hcf_" ++ fragment ++ "_" ++ secret_text).
Definition mint_call : developer_call := CallMint 60%N ["flow.queue.read"] 300.
Definition mint_answer : result ApiError () * Db := serve_developer signer mint_call game_request (snd issue_answer).

Definition game_credential_id : Uuid := Eval vm_compute in
  match map_to_list (credentials (snd issue_answer)) with (id, _) :: _ => id | [] => 0%N end.
Definition withdraw_call : flow_call := CallRevokeCredential game game_credential_id.
Definition withdraw_answer : result ApiError () * Db :=
  serve_flow console signer (Some "https://console/mint") withdraw_call console_request acme (snd mint_answer).

Lemma flow_access_mediated_witness :
  (size (credentials (snd issue_answer)), size (contexts (snd mint_answer))) = (1%nat, 1%nat) ∧
  fst (serve_developer signer mint_call game_request (snd withdraw_answer)) = Err Unauthorized ∧
  (trace_only game_db (snd issue_answer) ∨
   ∃ actor db1, authenticated_actor_mutation console console_request game_db = (Ok actor, db1) ∧
     flow_condition issue_call actor acme game_db) ∧
  (trace_only (snd issue_answer) (snd mint_answer) ∨
   ∃ prefix hash, authenticate_flow_developer_bearer game_request = Ok (prefix, hash) ∧
     issuer_permitted prefix hash ["flow.queue.read"] (snd issue_answer)).
Proof.
  split; [vm_compute; reflexivity | split; [vm_compute; reflexivity | split]].
  - exact (proj1 (flow_access_mediated console signer (Some "https://console/mint") console_request game_db
      (fst issue_answer) (snd issue_answer)) issue_call acme (surjective_pairing _)).
  - exact (proj2 (flow_access_mediated console signer (Some "https://console/mint") game_request (snd issue_answer)
      (fst mint_answer) (snd mint_answer)) mint_call (surjective_pairing _)).
Defined.
