(* ===== verification/OidcRuns.v ===== *)
(** * A login with OpenID Connect

    Somebody signs in with an account of a provider: the theorems on such logins
    apply there. *)
From S2P Require Import Prelude Text Json Net Policy Iam RoleTrust Quota Specs Flash Store Usage Provider Prepare PrepareFacts Services FlowAccess Cloud Identity Access Admin FlashStore Authorize IdentityCenter Routes AccountRoutes SessionRoutes FlowRoutes Worker Oidc Lifecycle CloudFacts IdentityFacts AccessFacts ApiFacts AdminFacts SessionApi OidcFacts Runs ApiRuns.

Definition provider_url : Url := {|
  Flash.scheme := "https"; Flash.host_str := Some "id.example"; Flash.host_address := None; Flash.path := "/";
  Flash.username := ""; Flash.password := None; Flash.query := None; Flash.fragment := None;
|}.
Definition login_state : string := "sssssssssssssssssssssssssssssssssssssssssss".
Definition login_nonce : string := "nnnnnnnnnnnnnnnnnnnnnnnnnnnnnnnnnnnnnnnnnnn".
Definition login_verifier : string := "vvvvvvvvvvvvvvvvvvvvvvvvvvvvvvvvvvvvvvvvvvv".

#[local] Instance oidc_url : UrlLib := {| url_parse _ := Some provider_url |}.
#[local] Instance oidc_url_text : UrlText := {| url_as_str _ := "https://id.example"; same_origin a b := bool_decide (host_str a = host_str b) |}.
#[local] Instance oidc_json : JsonText := api_text.
#[local] Instance oidc_mac : MacLib := {| hmac_sha256 key text := [Z.of_nat (length text)]; base64_url := of_bytes |}.
#[local] Instance oidc_codec : CodecLib := {| sha256 l := l; base64_url_decode s := Some (bytes s) |}.
#[local] Instance oidc_web : WebLib := api_web.
#[local] Instance oidc_passwords : PasswordLib := {| email_valid _ := true; argon2_hash s := Some s; argon2_verify := String.eqb |}.
#[local] Instance oidc_net : IpNetLib := Blocks.lib.
#[local] Instance oidc_limits : LimitsDecoder := limits_of_value.
#[local] Instance oidc_uuid : UuidText := api_uuid.
#[local] Instance oidc_sql : SqlText := λ s, s.
#[local] Instance oidc_collation : SqlCollation := String.compare.

Definition grace_claims : IdTokenClaims := {|
  claims_subject := "grace"; claims_audience := OneAudience "heterocloud"; claims_expires_at := 400; claims_issued_at := 100;
  claims_nonce := login_nonce; claims_email := "grace@example.org"; claims_name := None;
  claims_preferred_username := Some " grace "; claims_authorized_party := None;
|}.
#[local] Instance oidc_jwt : JwtLib := {|
  Jwk := string; KeyAlgorithm := (); DecodingKey := string;
  jwk_key_id k := Some k; jwk_use _ := Some SignatureUse; jwk_operations _ := None; jwk_algorithm _ := None; is_octet_key _ := false;
  key_algorithm_eqb _ _ := true; algorithm_into _ := (); from_jwk k := Some k;
  decode_header _ := Some (ES256, Some "key-1");
  decode_claims _ k v _ := if String.eqb k "key-1" then Some grace_claims else None;
|}.
#[local] Instance oidc_transactions : FromSlice OidcTransaction :=
  λ _, Some (Build_OidcTransaction login_state login_nonce login_verifier 90).
#[local] Instance oidc_metadata : FromSlice ProviderMetadata :=
  λ _, Some (Build_ProviderMetadata "https://id.example" provider_url provider_url provider_url ["ES256"]).
#[local] Instance oidc_tokens : FromSlice TokenResponse := λ _, Some (Build_TokenResponse "header.claims.signature").
#[local] Instance oidc_keys : FromSlice (list Jwk) := λ _, Some ["key-0"; "key-1"].

Definition callback_url : Url := {|
  Flash.scheme := "https"; Flash.host_str := Some "console"; Flash.host_address := None; Flash.path := OIDC_CALLBACK_PATH;
  Flash.username := ""; Flash.password := None; Flash.query := None; Flash.fragment := None;
|}.
Definition installation_oidc : OidcConfig :=
  match OidcConfig_new provider_url None " heterocloud " "0123456789abcdef" callback_url false true with
  | Ok c => c
  | Err _ => Build_OidcConfig "" "" true "" "" callback_url true
  end.

(** The first request for the metadata fails, and is repeated. *)
Definition good_reply : Z * result TransportError HttpResponse := (20, Ok (Build_HttpResponse 200 (Some 2) [Ok [1]; Ok [2]])).
Definition login_world : World := {|
  clock := 100000;
  replies := [(30, Ok (Build_HttpResponse 503 None [])); good_reply; good_reply; good_reply];
  sent := [];
|}.
Definition login_cookie : string := match sign_transaction (Build_OidcTransaction login_state login_nonce login_verifier 90) "key" with Ok s => s | Err _ => "" end.
Definition callback_query : OidcCallbackQuery := Build_OidcCallbackQuery (Some "code") (Some login_state) None None.
Definition callback_request : Authorize.Request := {|
  headers _ := None;
  cookies n := if String.eqb n OIDC_TRANSACTION_COOKIE then Some login_cookie else None;
|}.
Definition chance : Chance := Build_Chance 7 3.
Definition people : AccessConfig := {|
  session_ttl := 3600; cli_token_ttl := 86400; owner_origin := None; owner_email := None; owner_console_mode := false;
  owner_allowed_networks := []; trusted_proxy_networks := [];
|}.

Definition completed : result OidcError OidcIdentity * World :=
  complete_login installation_oidc callback_query (Some login_cookie) "key" chance chance login_world.
Definition identified : result ApiError OidcIdentity * World :=
  callback_identity console (Some installation_oidc) callback_query callback_request chance chance login_world.
Definition signed_in_db : result ApiError string * Db := oidc_callback console people (fst identified) "fresh" founded_db.

Lemma oidc_secrets_stay_with_issuer_witness :
  length (sent (snd completed)) = 4%nat ∧
  ∃ l, sent (snd completed) = sent login_world ++ l ∧ clock login_world ≤ clock (snd completed) ∧
    (l = [] ∨ ∃ tr code, good_transaction callback_query (Some login_cookie) "key" 100 tr code ∧
       login_requests installation_oidc tr code l) ∧
    (∀ u auth form, PostRequest u auth form ∈ l → at_issuer installation_oidc u) ∧
    (∀ u, GetRequest u ∈ l → discovery_url installation_oidc = Some u ∨ at_issuer installation_oidc u).
Proof.
  split; [vm_compute; reflexivity|].
  exact (oidc_secrets_stay_with_issuer installation_oidc callback_query (Some login_cookie) "key" chance chance login_world
           (fst completed) (snd completed) (surjective_pairing _)).
Defined.

Lemma oidc_login_sound_witness :
  size (session_rows (snd signed_in_db)) = 1%nat ∧
  (snd signed_in_db = founded_db ∨
   ∃ c i y d, Some installation_oidc = Some c ∧ fst identified = Ok i ∧
     vouched c callback_query (cookies callback_request OIDC_TRANSACTION_COOKIE) (csrf_key console) login_world i (snd identified) ∧
     find_or_create_oidc_user (oidc_issuer i) (oidc_subject i) (oidc_email i) (oidc_display_name i) founded_db = (y, d) ∧
     (snd signed_in_db = d ∨ ∃ user, y = Ok user ∧ is_active (session_owner user) = true ∧
        opens people (user_key (session_owner user)) "fresh" "oidc" d (snd signed_in_db))).
Proof.
  split; [vm_compute; reflexivity|].
  exact (oidc_login_sound console people (Some installation_oidc) callback_query callback_request chance chance "fresh"
           login_world (fst identified) (snd identified) founded_db (fst signed_in_db) (snd signed_in_db)
           (surjective_pairing _) (surjective_pairing _)).
Defined.
