(* ===== verification/StorageRuns.v ===== *)
(** * Credentials of object storage through the API

    The owner of the account of [ApiRuns] asks for a credential of a bucket: once
    the provider answers with one, and once with one for another bucket, which is
    revoked again. *)
From S2P Require Import Prelude Text Json Net Policy Iam RoleTrust Quota Specs Flash Store Usage Provider Prepare PrepareFacts Services FlowAccess Cloud Identity Access Admin FlashStore Authorize IdentityCenter Routes FlashOps ServiceRoutes AccountRoutes SessionRoutes FlowRoutes Oidc StorageRoutes Lifecycle IdentityFacts AccessFacts ApiFacts FlashApi ServiceApi AccountApi StorageApi Runs ApiRuns.

Definition photos_spec : SyouyuSpec := Build_SyouyuSpec SYOUYU_REGION "photos" 1073741824 1000 (Object []).

#[local] Instance storage_limits : LimitsDecoder := limits_of_value.
#[local] Instance storage_flow : Serde FlowSpec := {| to_value _ := Null; from_value _ := None |}.
#[local] Instance storage_flash : Serde FlashSpec := {| to_value _ := Null; from_value _ := None |}.
#[local] Instance storage_vpc : Serde VpcSpec := {| to_value _ := Null; from_value _ := None |}.
#[local] Instance storage_spec : Serde SyouyuSpec := {| to_value _ := Object []; from_value _ := Some photos_spec |}.
#[local] Instance storage_net : IpNetLib := Blocks.lib.
#[local] Instance storage_cast : SqlCast := decimal_cast.
#[local] Instance storage_json : JsonText := api_text.
#[local] Instance storage_uuid : UuidText := api_uuid.
#[local] Instance storage_time : TimeText := int_to_string.
#[local] Instance storage_chrono : Chrono := witness_chrono.
#[local] Instance storage_web : WebLib := api_web.
#[local] Instance storage_sql : SqlText := λ s, s.
#[local] Instance storage_collation : SqlCollation := String.compare.
#[local] Instance storage_policy : Serde PolicyDocument := api_policies.
#[local] Instance storage_mac : MacLib := {| hmac_sha256 key text := key ++ text; base64_url := of_bytes |}.
#[local] Instance storage_codec : CodecLib := {| sha256 l := l; base64_url_decode s := Some (bytes s) |}.
Definition storage_url : Url := {|
  Flash.scheme := "https"; Flash.host_str := Some "s3.example"; Flash.host_address := None; Flash.path := "/";
  Flash.username := ""; Flash.password := None; Flash.query := None; Flash.fragment := None;
|}.
#[local] Instance storage_urls : UrlLib := {| url_parse _ := Some storage_url |}.
#[local] Instance storage_join : UrlJoin := λ u _, Some u.
#[local] Instance storage_errors : FromSlice ProviderErrorEnvelope := λ _, None.
#[local] Instance storage_overview : FromSlice SyouyuServiceOverview := λ _, None.
#[local] Instance storage_usage : FromSlice SyouyuProviderUsage := λ _, None.
#[local] Instance storage_listing : FromSlice CredentialListResponse := λ _, Some (Build_CredentialListResponse []).
#[local] Instance storage_revoked : FromSlice RevokedCredentialResponse := λ _, Some (Build_RevokedCredentialResponse 77%N "revoked").
(** The body says for which bucket. *)
#[local] Instance storage_issued : FromSlice IssuedSyouyuProviderCredential := λ body,
  Some (Build_IssuedSyouyuProviderCredential
    (Build_SyouyuProviderCredential 77%N "backup" "AK77" (Build_SyouyuProviderPermissions true false) "active" 0 None)
    "s3cr3t" (of_bytes body) "https://s3.example/").

Definition bucket : ServiceInstanceId := 41%N.
Definition bucket_db : Db := set_services {[bucket := {|
  organization_id := acme; project_id := 2%N; provider := "syouyu"; name := "photos"; generation := 1;
  state := Ready; spec := Object []; status := Object []; quota_user_id := None |}]} login_db.
Definition storage_proxy : option SyouyuProviderProxy :=
  match SyouyuProviderProxy_new storage_url "heterocloud" "syouyu" "0123456789abcdef0123456789abcdef" with Ok p => Some p | Err _ => None end.
Definition keyed_request : Request := {|
  headers n := if String.eqb n IDEMPOTENCY_KEY_HEADER then Some (bytes "123456") else headers console_request n;
  cookies := cookies console_request;
|}.
Definition wire_answering (l : list string) : Wire :=
  Build_Wire 100 1%N ((λ s, Some (201, bytes s)) <$> l) [].

Definition key_call : storage_call := CallCreateBucketCredential "backup" [ReadPermission].
Definition key_made : result ApiError () * Db * Wire :=
  serve_storage console storage_proxy key_call keyed_request acme bucket bucket_db (wire_answering ["photos"]).
Definition foreign_key : result ApiError (SyouyuCredentialResponse * IssuedSyouyuProviderCredential) * Db * Wire :=
  create_syouyu_credential console storage_proxy keyed_request acme bucket "backup" [ReadPermission] bucket_db
    (wire_answering ["other"; ""]).

Lemma pair_eta {A B C} (p : A * B * C) : p = (fst (fst p), snd (fst p), snd p).
Proof. by destruct p as [[? ?] ?]. Qed.

Lemma storage_requests_permitted_witness :
  fst (fst key_made) = Ok () ∧
  trace_only bucket_db (snd (fst key_made)) ∧
  (snd key_made = wire_answering ["photos"] ∨
   ∃ t l, entitled console storage_proxy key_call keyed_request acme bucket t bucket_db ∧
     wire_sent (snd key_made) = wire_sent (wire_answering ["photos"]) ++ l ∧
     ∀ q, q ∈ l → permitted_request key_call keyed_request t (wire_answering ["photos"]) q ∧
       ∃ p id, p ∈ wire_permissions key_call ∧
         syouyu_sign_at (proxy_signer (target_proxy t)) (target_context t p) 100 id = Ok (wire_principal q)).
Proof.
  split; [vm_compute; reflexivity|].
  exact (storage_requests_permitted console storage_proxy key_call keyed_request acme bucket bucket_db (wire_answering ["photos"])
           (fst (fst key_made)) (snd (fst key_made)) (snd key_made) (pair_eta _)).
Defined.

(** The credential was for another bucket: its revocation is the second request. *)
Lemma issued_credentials_answered_or_revoked_witness :
  fst (fst foreign_key) = Err SyouyuProviderUnavailable ∧
  wire_method <$> wire_sent (snd foreign_key) = [SyouyuPost; SyouyuDelete] ∧
  ((snd foreign_key = wire_answering ["other"; ""] ∧ ∃ e, fst (fst foreign_key) = Err e) ∨
   ∃ t key permissions y w1,
     entitled console storage_proxy (CallCreateBucketCredential "backup" [ReadPermission]) keyed_request acme bucket t bucket_db ∧
     required_syouyu_idempotency_key keyed_request = Ok key ∧ syouyu_provider_permissions [ReadPermission] = Ok permissions ∧
     create_bucket_credential (target_proxy t) (target_context t "syouyu.credential.create") key "backup" permissions
       (wire_answering ["other"; ""]) = (y, w1) ∧
     match y with
     | Err e => snd foreign_key = w1 ∧ fst (fst foreign_key) = Err (map_syouyu_provider_error e)
     | Ok i =>
         (presentable t i ∧ snd foreign_key = w1 ∧
          ∃ a, fst (fst foreign_key) = Ok (a, i) ∧ answered_credential a = issued_credential i ∧ answered_permissions a ≠ []) ∨
         (¬ presentable t i ∧ fst (fst foreign_key) = Err SyouyuProviderUnavailable ∧
          revocation_sent t (bucket_credential_id (issued_credential i)) (syouyu_compensation_idempotency_key key) w1 (snd foreign_key))
     end).
Proof.
  split; [vm_compute; reflexivity|]. split; [vm_compute; reflexivity|].
  exact (issued_credentials_answered_or_revoked console storage_proxy keyed_request acme bucket "backup" [ReadPermission] bucket_db
           (wire_answering ["other"; ""]) (fst (fst foreign_key)) (snd (fst foreign_key)) (snd foreign_key) (pair_eta _)).
Defined.
